(* ===== verification/_CoqProject ===== *)
-Q . S2P
Prelude.v
Hash.v
ClusterManager.v
Routing.v
Rendezvous.v
Base62.v
Strconv.v
RedoLog.v
Value.v
Document.v
Shards.v
Runs.v
VectorStore.v
Float32.v
Heap.v
Merge.v
HNSWCache.v
HNSWSegment.v
HNSWRefine.v
HNSWBuild.v
HNSWSystem.v
HNSWSearch.v
HNSWTheorems.v
IvfSegment.v
IvfIndex.v
IvfRefine.v
IvfSystem.v
IvfSearch.v
IvfTheorems.v
HNSWIndex.v
VecManager.v
Query.v
QueryTheorems.v
TimeRange.v
Request.v
Search.v
SearchStats.v
ShardWal.v
WalConsumer.v
LruCache.v
IndexDocument.v
IndexMgr.v
IndexSearch.v
Unified.v
Bulk.v
MSearch.v
Regexp.v
Catalog.v
Aliases.v
Templates.v
VectorSearch.v
TextOrder.v
Calendar.v
Buckets.v
Histogram.v
AutoHistogram.v
AggRequest.v
Metastore.v
Auth.v
Tokenizers.v
Analyzers.v
MappingRequest.v
IndexRequest.v
