(* ===== verification/Prelude.v ===== *)
(** * Verification of SeaSearch

    SeaSearch is a search server: documents are checked against field
    mappings, optionally logged, merged and written to indexes of the Bluge
    engine that are split into two layers of shards; a cluster manager spreads
    256 name prefixes over the servers, and a proxy routes requests.  Vector
    fields have indexes of their own, made of segments with a log or a cache in
    front of an approximate index, and a manager that shares them.  This
    library translates the core of the Go code (under src/) into executable
    definitions and proves what makes it correct.

    ** Files and the code they model

    - [Prelude]: outcomes of Go code ([res]: a value, an error with its text,
      or a panic), loops with early exit ([foldM]), what the runtime leaves
      open (map iteration order, [rand.Shuffle], unstable [sort.Slice]) as
      arguments with their laws, 64-bit integers with wrap-around, shared
      lemmas, tactics and hints.
    - [Hash]: MD5 and hex, bytes of strings, little-endian integers; the
      prefix of an index name (pkg/cluster/cluster.go [AssignCheck]).
    - [ClusterManager]: cmd/cluster-manager.  Module [Distribute] is
      [distribute] of manager.go, [Manager] one run of [updateAssigns],
      [Registry] the handlers of http.go.
    - [Routing]: Module [Node] is the assignment cache of
      pkg/cluster/cluster.go, [Proxy] the tables of cmd/zinc-proxy/proxy.go,
      [Parallel] the plan of a parallel query (parallel_query.go).
    - [Rendezvous]: pkg/zutils/hash (rendezvous ring, FNV-1a).
    - [Base62]: pkg/zutils/base62.
    - [Strconv]: the parts of Go's strconv, strings and path that are used.
    - [RedoLog]: pkg/wal/redo and the ranges stored in it by
      pkg/core/index_shards_wal.go.
    - [Value]: decoded JSON values, pkg/zutils (conversions, typed access,
      times, flatten); floats are the binary64 numbers of [SpecFloat].
    - [Document]: Module [Meta] is pkg/meta/mappings.go, [SetMappings] the
      method of pkg/core/index.go, [Check] and [Build] are
      pkg/core/index_shards_document.go, [Pipeline] their theorems.
    - [Shards]: pkg/core/index_shards.go and the statistics of
      pkg/core/index.go: second shards, writers with reference counts,
      roll-over, the choice of shards for a search.  The engine is the class
      [Bluge]: an index, its documents by id, and a batch that first deletes
      and then adds.
    - [Runs]: errors with context in stateful code, and the rules with which
      the operations of the vector indexes are verified.
    - [VectorStore]: the rows of a vector segment: pkg/zutils/vector_bytes.go,
      pkg/zutils/flex, pkg/bluge/search/search.go, the row readers of
      pkg/core/hnsw_segment.go; the class [BlugeReader] of a search.
    - [Float32]: IEEE 754 binary32 and [L2Distance]; [Heap]: container/heap.
    - [HNSWCache], [HNSWSegment], [HNSWSearch]: pkg/core/hnsw_segment.go, its
      memory, its writes, loading and background build, its searches; usearch
      is the class [Usearch].  [HNSWRefine], [HNSWBuild] and [HNSWSystem] relate
      them to the map a segment stands for; [HNSWTheorems] has the results.
    - [IvfSegment]: pkg/core/ivfpq_segment.go, with the classes [Faiss],
      [Float16] and [VecDisk]; [IvfIndex]: the flat and ivf_pq indexes of
      pkg/core/vec_index.go and pkg/core/vector/vec_storage.go.  [IvfRefine],
      [IvfSystem] and [IvfSearch] carry the proofs, [IvfTheorems] the results.
    - [HNSWIndex]: the hnsw index of pkg/core/vec_index.go.
    - [VecManager]: pkg/core/vec_index_manager.go, the cache of open vector
      indexes with its references, its collection and its deletions, as a step
      relation.
    - [Query]: pkg/uquery/query, the query language: from decoded JSON to a
      query of the engine, with every kind of query, and to the terms of a query;
      the libraries it calls are the class [QueryLib].  [QueryTheorems] has the
      results, [Merge] the facts about sorting and heaps they share.
    - [TimeRange]: pkg/uquery/timerange; the class [BlugeMatch] says what a
      document that matches a query satisfies.
    - [Request]: the other parts of a request: pkg/uquery/sort, source, fields,
      highlight, query_dsl_parser.go and query_dsl_from_v1.go.
    - [Search]: pkg/bluge/search/search.go, one reader and several with a heap;
      [SearchStats]: pkg/bluge/search/stats.go and the collection of term
      statistics in pkg/core/multi_search.go and searcher.go.
    - [ShardWal]: the merging of operations and the writes of
      pkg/core/index_shards_wal.go ([walMergeDocs]), and [CommitOperations].
      Vector indexes are behind the class [VecStore].
    - [WalConsumer]: [ConsumeWAL] and [Rollback] of index_shards_wal.go, over
      the class [Wal] of a log.
    - [LruCache]: pkg/lru_cache/cache_manager.go, with a heap of handles.
    - [IndexDocument]: pkg/core/index_document.go, the operations on documents
      that compose the parts above.
    - [IndexMgr]: pkg/core/indexmgr.go, the protocol by which concurrent calls
      load, create, store and delete one index, as a step relation, with the
      waits of a deletion for those who use its logs and vector indexes.
    - [IndexSearch]: pkg/core/search.go, multi_search.go and searcher.go: from
      the indexes of a request to the readers and the page of hits.
    - [Unified]: the search handlers of pkg/handlers/search and the parallel
      search of the proxy (cmd/zinc-proxy/parallel_query.go, search.go, utils.go).
    - [Bulk]: bulk requests on a node (pkg/handlers/document/bulk.go) and on the
      proxy (cmd/zinc-proxy/bulk.go); [MSearch]: several searches in one request
      (search_v2.go, cmd/zinc-proxy/search.go).
    - [Regexp]: the part of Go's regexp that wildcards are turned into.
    - [Catalog]: lists and pages of indexes, names, the release of indexes that
      moved, the late closing of writers and the tick of the logs (pkg/meta/page.go,
      pkg/handlers/index/list.go, pkg/core/indexcatalog.go, indexlist.go,
      newindex.go, index_shards_wallist.go).
    - [Aliases]: pkg/core/aliaslist.go and pkg/handlers/index/alias_es.go;
      [Templates]: pkg/core/template.go.
    - [VectorSearch]: pkg/core/vector_search.go and cmd/zinc-proxy/vector.go.
    - [TextOrder]: texts in order, prefixes, and tables with one entry per key.
    - [Calendar]: dates of the proleptic Gregorian calendar, [time.Date] and
      zones; [Buckets]: the terms aggregation and what all buckets share
      (pkg/bluge/aggregation/terms.go, with metrics as the class [Metrics]);
      [Histogram]: histogram.go and date_histogram.go as instances of one
      calculator; [AutoHistogram]: auto_date_histogram.go; [AggRequest]:
      pkg/uquery/aggregation, from the request to the aggregations that are run,
      and the response, with pkg/zutils/time.go.
    - [Metastore]: pkg/metadata: the interface [Storager], its implementations
      over bbolt, badger and etcd - databases given by their laws - and the
      records kept in them.
    - [Auth]: pkg/auth, pkg/handlers/auth and [AuthMiddleware] of
      pkg/routes/middleware.go: users, roles, the caches of users, permissions and
      derived passwords, the first start and the notices of the cluster.
    - [Tokenizers]: pkg/bluge/analysis, the tokenizers and filters that are the
      program's own; [Analyzers]: pkg/uquery/analysis and
      pkg/handlers/index/analyzer.go, where the analyzers of an index are objects
      of a heap that they share with it.
    - [MappingRequest]: pkg/uquery/mappings; [IndexRequest]: pkg/uquery/index
      and template, the handlers that create, set up and delete indexes, and the
      methods of pkg/core/index.go they call.

    Stateful code is explicit state passing; [Shards.M] is a state monad in
    which an error keeps the changes made before it, with [deferred] for
    [defer].  Failures of disks, networks, searches and the clock are
    arguments of the operations.

    ** What the theorems show

    The theorems name their conditions; where a condition is one that requests
    can violate, a theorem of the last group shows what happens then.

    - Writing: merging the operations of a batch leaves what writing them one by
      one leaves, when insertions meet ids without a document
      ([ShardWal.merged_batch_is_sequential]); an upsert leaves exactly one
      copy of a document and a deletion none ([IndexDocument.upsert_one_copy],
      [delete_no_copy]); a document that passes the check is built without a
      panic ([Document.Pipeline.checked_document_builds]); the consumer of the
      log commits what it reports ([WalConsumer.ConsumeWAL_commits]); the redo
      log is a durable map ([RedoLog.redo_log_durable],
      [redo_range_roundtrip]).
    - Searching: a time-bounded search reads exactly the shards it must
      ([Shards.GetSearchers_exact]); a shard rolls over exactly at the limit
      ([Shards.CheckShards_rolls_over]); a parallel query is planned, and
      covers every index once ([Routing.Parallel.calcNodeIndexMap_total],
      [calcNodeIndexMap_covers]).  A search without should clauses whose page ends
      within the configured maximum returns the page of all matching documents,
      over all shards with true statistics, for every order of the readers and
      answers ([IndexSearch.search_finds_every_match]), and so does one by score
      that the proxy spreads over nodes, for the first page of an index with one
      first-layer shard ([Unified.parallel_search_finds_the_best]); statistics
      collected in parts and merged are those of all readers
      ([SearchStats.stats_of_parts]); the time range loses no document but for
      should clauses ([TimeRange.search_reads_every_match]).  Accepted queries are
      well formed ([QueryTheorems.accepted_queries_are_complete]) and
      minimum_should_match is decided as documented
      ([minimum_should_match_decides]); several searches are answered in order
      when the nodes answer theirs so ([MSearch.msearch_answers_in_order]).
    - Bulk requests: the bodies the proxy makes of one request cause the same
      calls on the owners of the indexes as long as none fails
      ([Bulk.bulk_split_same_calls]).
    - Names: pages cover a list ([Catalog.list_pages_cover]); the alias table
      after a request is what it asks for ([Aliases.aliases_added_then_removed]);
      no template that is for an index is passed over for one of lower priority,
      and templates stay unambiguous ([Templates.UseTemplate_best],
      [templates_stay_unambiguous]); an
      index that moved to another node is dropped and closed
      ([Catalog.moved_indexes_are_closed]).
    - Definition of indexes: the mappings of an accepted plain request (names
      without dots, once, string sub-fields) are well-formed and what checking and building documents relies on
      ([MappingRequest.accepted_mappings]), and so are those of an index without a
      template after any such requests that define it; it is loaded with the analyzers it was stored with
      ([IndexRequest.defined_indexes_are_whole]).
    - Analysis: the analyzers of accepted settings are those that are described
      ([Analyzers.accepted_analyzers]); n-grams are complete and have the right
      offsets where the lengths differ by at most one
      ([Tokenizers.ngrams_complete]); trying an analyzer out changes it
      ([Analyzers.analyze_changes_analyzer]).
    - Aggregations: over several readers, in whatever order they answer, terms and
      date histograms without bounds give the buckets and metrics of all documents
      ([Buckets.terms_of_parts], [Histogram.date_histogram_of_parts]); buckets of the
      calendar are its units in zones with a fixed offset ([calendar_buckets]); the
      automatic histogram ends
      and loses nothing ([AutoHistogram.auto_histogram_conserves]); accepted
      bucket aggregations fit the mappings ([AggRequest.accepted_aggregations]).
    - Metadata and accounts: the three stores behave as one map on plain
      names ([Metastore.stores_agree]); requests pass exactly for those who may make
      them, but for users deleted since the start
      ([Auth.requests_authorised], [deleted_users_sign_in]).
    - Vectors: after any interleaving of batches, phases of the build, failures,
      crashes and loads an hnsw segment stores what its successful batches
      describe ([HNSWTheorems.segment_refines_map]), its searches are exact
      where they are meant to be ([SearchByIDs_exact]) and sound elsewhere
      ([Search_sound]), and a build completes and its loop ends
      ([build_completes], [HNSWIndex.build_loop_terminates]); an ivf_pq index
      holds the rows its batches left across roll-overs, sealings and
      reopenings ([IvfTheorems.ivf_refines_rows]) and finds the nearest of them
      ([ivf_search_nearest]); the counts kept in metadata are exact
      ([ivf_batch_count], [HNSWIndex.hnsw_count_exact]); the documents of the
      nearest vectors are returned by a node ([VectorSearch.vector_search_returns_nearest])
      and by the proxy ([parallel_vector_search_nearest]).  They assume stores
      that start empty, numbers for distances (no NaN) and log ids below 2^63,
      and the documented behaviour of the engines as laws of the classes; stores
      in memory are instances on which every theorem is applied.
    - Cluster: rebalancing is total, balanced, minimal and stable
      ([ClusterManager.Distribute], [Manager]); proxy and nodes agree on the
      owner of an index and a node out of sync refuses everything ([Routing]);
      the registry changes as documented ([ClusterManager.Registry]); the ring
      is independent of insertion order and moves few keys ([Rendezvous]).
    - Resources: the cache evicts by age, never a file in use ([LruCache]);
      calls on an index return, unless a deletion waits for a user of its logs or
      vector indexes that waits for the deletion, in which case both wait for ever
      ([IndexMgr.calls_complete]); they never replace a live object, and a deletion
      is complete ([cached_object_is_unique], [delete_leaves_nothing]); a vector index in use is not freed, as
      long as no close starts to wait and no collection runs while another close
      waits, and two waiting closes free it twice ([VecManager]).
    - Identifiers: base62 round trips and the canonical test ([Base62]).
    - Defects: the theorems of the forms [..._panics], [..._duplicate(s)],
      [..._order_dependent], [..._fatal], [..._overtaken], [..._loses_documents]
      and the like state, on the same definitions, where the code does not do what
      it means to.

    ** Bounds and fuel

    Loops over lists and maps are structural.  Fuel appears in
    [Base62.encode_loop] and [reverse_loop] (64 digits of an int64, the length
    of the slice), [RedoLog.open_loop] (the length of the file),
    [ShardWal.chunks] (the number of operations) and [Document.Build.buildField]
    ([depth], above the number of mapped fields, which bounds a chain of
    sub-fields); the theorems cover the runs with this fuel, and the
    no-panic theorem includes that it does not run out.  The merge of two search
    results has the sum of their lengths ([HNSWSearch.merge_loop_spec]), the
    moves in a heap its length, the loop of [HNSWIndex.hnsw_BuildHNSW] any fuel
    of at least 2, and [IvfSegment.open_attempts] counts the three attempts the
    code makes.  [Regexp.parse] takes one character at least per step and has the
    length of the text; [Aliases.remove_loop] counts the names that are left.  The
    nesting of queries, of aggregations and of mappings is structural.
    [Histogram.fill] has one step per interval between the smallest and the
    largest date ([steps]), [AutoHistogram.u_fill] the configured number of
    buckets and two more, [grow] and [coarsen] the number of intervals, and
    [Tokenizers.ngram_loop] has (n+1)^2 + n + 1 turns for n code points, which the
    theorem shows to be enough; [Tokenizers.split_at] and [edge_loop] have the
    length of the text.

    ** Not modelled

    The Bluge, usearch and FAISS engines, the databases, etcd and object stores
    (interfaces or outcomes here); the analyzers of bluge, the gse segmenter with
    its dictionary, the tables of unicode and the lists of stop words; hash
    functions and random numbers of passwords; the encoding and decoding of JSON
    records; telemetry, configuration, routes and the handlers that only render
    the result of one operation; regular expressions beyond [Regexp.parse];
    goroutine scheduling outside of [IndexMgr], [VecManager], the steps of
    [HNSWSystem] and the late closing of [Catalog].  The task queues that call
    [SealSeg] and [BuildHNSW] in the background, the SQL back ends of the
    write-ahead log and the upgrades of old data are drivers around operations that
    are modelled, or around libraries.  The remaining lines are generated: a
    dictionary, the documentation of the API and stop words. *)
From stdpp Require Export base tactics list list_numbers gmap fin_maps strings pretty sorting.
From Stdlib Require Export ZArith Lia Ascii.

(** * Outcomes of Go code *)

(** A Go call ends in one of three ways: it returns, it returns a non-nil
    [error], or the goroutine panics (index out of range, integer division by
    zero, a failed type assertion, a nil dereference).  Errors carry the text
    [err.Error()] would give, panics the kind of runtime error. *)
Inductive panic : Type :=
  | PIndex | PSlice | PDivZero | PTypeAssert | PNilDeref | PExplicit (msg : string).

Inductive res (A : Type) : Type :=
  | Ok (a : A)
  | Err (e : string)
  | Panic (p : panic).
Arguments Ok {A} a.
Arguments Err {A} e.
Arguments Panic {A} p.

#[global] Instance panic_eq_dec : EqDecision panic.
Proof. solve_decision. Defined.
#[global] Instance res_eq_dec {A} `{EqDecision A} : EqDecision (res A).
Proof. solve_decision. Defined.

#[global] Instance res_ret : MRet res := λ A a, Ok a.
#[global] Instance res_bind : MBind res := λ A B f m,
  match m with Ok a => f a | Err e => Err e | Panic p => Panic p end.
#[global] Instance res_fmap : FMap res := λ A B f m,
  match m with Ok a => Ok (f a) | Err e => Err e | Panic p => Panic p end.

Definition is_ok {A} (r : res A) : bool := match r with Ok _ => true | _ => false end.
Definition is_panic {A} (r : res A) : bool := match r with Panic _ => true | _ => false end.

(** [for _, x := range xs { ... }] with a body that may return early with an
    error or panic. *)
Fixpoint foldM {A S} (f : S → A → res S) (s : S) (xs : list A) : res S :=
  match xs with
  | [] => Ok s
  | x :: xs => f s x ≫= λ s', foldM f s' xs
  end.

Lemma foldM_app {A S} (f : S → A → res S) s xs ys :
  foldM f s (xs ++ ys) = foldM f s xs ≫= λ s', foldM f s' ys.
Proof. revert s. induction xs as [|x xs IH]; intros s; cbn; [done|]. by destruct (f s x); cbn. Qed.

Lemma foldM_ok {A S} (f : S → A → res S) (g : S → A → S) s xs :
  (∀ s x, x ∈ xs → f s x = Ok (g s x)) → foldM f s xs = Ok (foldl g s xs).
Proof.
  revert s. induction xs as [|x xs IH]; intros s Hf; cbn; [done|].
  rewrite Hf by set_solver. cbn. apply IH. set_solver.
Qed.

(** A loop invariant for [foldM]: preserved by every successful iteration. *)
Lemma foldM_inv {A S} (P : S → Prop) (f : S → A → res S) s s' xs :
  P s → (∀ s x s', x ∈ xs → P s → f s x = Ok s' → P s') → foldM f s xs = Ok s' → P s'.
Proof.
  revert s. induction xs as [|x xs IH]; intros s Hs Hf; cbn; intros Heq; [by simplify_eq|].
  destruct (f s x) as [s1| |] eqn:E; cbn in Heq; try done.
  eapply (IH s1); eauto; set_solver.
Qed.

Lemma is_panic_bind {A B} (m : res A) (f : A → res B) :
  is_panic m = false → (∀ a, m = Ok a → is_panic (f a) = false) → is_panic (m ≫= f) = false.
Proof. destruct m; cbn; eauto. Qed.

(** A loop whose body never panics does not panic. *)
Lemma foldM_no_panic {A S} (f : S → A → res S) s xs :
  (∀ s x, x ∈ xs → is_panic (f s x) = false) → is_panic (foldM f s xs) = false.
Proof.
  revert s. induction xs as [|x xs IH]; intros s Hf; cbn [foldM]; [done|].
  apply is_panic_bind; [apply Hf; set_solver|]. intros s' _. apply IH. set_solver.
Qed.

(** * What the Go runtime leaves open *)

(** The iteration order of a Go map is unspecified and may differ from one
    loop to the next: a loop over a map is modelled with an order that is an
    argument, about which only the law [range_perm] is known. *)
Record map_order (K V : Type) `{Countable K} := MapOrder {
  range : gmap K V → list (K * V);
  range_perm : ∀ m, range m ≡ₚ map_to_list m
}.
Arguments MapOrder {K V _ _} _ _.
Arguments range {K V _ _} _ _.
Arguments range_perm {K V _ _} _ _.

Definition map_order_default {K V} `{Countable K} : map_order K V :=
  MapOrder map_to_list (λ m, reflexivity _).
Program Definition map_order_rev {K V} `{Countable K} : map_order K V :=
  MapOrder (λ m, reverse (map_to_list m)) _.
Next Obligation. intros K V ?? m. cbn. by rewrite reverse_Permutation. Qed.

(** A Go [map[K]struct{}] is a [gset]; its iteration order likewise. *)
Record set_order (K : Type) `{Countable K} := SetOrder {
  srange : gset K → list K;
  srange_perm : ∀ s, srange s ≡ₚ elements s
}.
Arguments SetOrder {K _ _} _ _.
Arguments srange {K _ _} _ _.
Arguments srange_perm {K _ _} _ _.

Definition set_order_default {K} `{Countable K} : set_order K :=
  SetOrder elements (λ m, reflexivity _).

(** [rand.Shuffle] returns some permutation. *)
Record shuffle (A : Type) := Shuffle {
  shuf : list A → list A;
  shuf_perm : ∀ l, shuf l ≡ₚ l
}.
Arguments Shuffle {A} _ _.
Arguments shuf {A} _ _.
Arguments shuf_perm {A} _ _.

Definition shuffle_id {A} : shuffle A := Shuffle id (λ l, reflexivity _).
Program Definition shuffle_rev {A} : shuffle A := Shuffle reverse _.
Next Obligation. intros A l. cbn. by rewrite reverse_Permutation. Qed.

(** [sort.Slice] is not stable: elements neither of which is less than the
    other come out in some order.  [less] is the comparison of the source. *)
Record sorter {A : Type} (less : A → A → bool) := Sorter {
  sort_slice : list A → list A;
  sort_slice_perm : ∀ l, sort_slice l ≡ₚ l;
  sort_slice_sorted : ∀ l, StronglySorted (λ a b, less b a = false) (sort_slice l)
}.
Arguments Sorter {A less} _ _ _.
Arguments sort_slice {A less} _ _.
Arguments sort_slice_perm {A less} _ _.
Arguments sort_slice_sorted {A less} _ _.

(** A sorter exists for every comparison of integer keys. *)
Section key_sorter.
Context {A : Type} (key : A → Z).

Definition key_ge (a b : A) : Prop := (key b ≤ key a)%Z.
#[local] Instance key_ge_dec : RelDecision key_ge.
Proof. intros a b. unfold key_ge. apply _. Defined.
#[local] Instance key_ge_total : Total key_ge.
Proof. intros a b. unfold key_ge. lia. Qed.
#[local] Instance key_ge_trans : Transitive key_ge.
Proof. intros a b c. unfold key_ge. lia. Qed.

Lemma key_merge_sorted l :
  StronglySorted (λ a b, (key a <? key b)%Z = false) (merge_sort key_ge l).
Proof.
  assert (StronglySorted key_ge (merge_sort key_ge l)) as Hs
    by (apply (StronglySorted_merge_sort key_ge)).
  induction Hs as [|a l' Hs IH Ha]; constructor; [done|].
  eapply Forall_impl; [exact Ha|]. intros b Hb. unfold key_ge in Hb. cbn. lia.
Qed.

Definition key_sorter : sorter (λ a b, (key b <? key a)%Z) :=
  Sorter (merge_sort key_ge) (merge_sort_Permutation key_ge) key_merge_sorted.
End key_sorter.

Lemma range_elem {K V} `{Countable K} (o : map_order K V) m k v :
  (k, v) ∈ range o m ↔ m !! k = Some v.
Proof. rewrite (range_perm o m). apply elem_of_map_to_list. Qed.

Lemma range_nodup {K V} `{Countable K} (o : map_order K V) m : NoDup (range o m).*1.
Proof. rewrite (range_perm o m). apply NoDup_fst_map_to_list. Qed.

Lemma srange_elem {K} `{Countable K} (o : set_order K) s x : x ∈ srange o s ↔ x ∈ s.
Proof. rewrite (srange_perm o s). apply elem_of_elements. Qed.

Lemma srange_nodup {K} `{Countable K} (o : set_order K) s : NoDup (srange o s).
Proof. rewrite (srange_perm o s). apply NoDup_elements. Qed.

(** * Machine integers *)

Definition wrap64 (z : Z) : Z := (z mod 2 ^ 64)%Z.
Definition wrap32 (z : Z) : Z := (z mod 2 ^ 32)%Z.

(** int64: two's complement. *)
Definition int64 (z : Z) : Z := ((z + 2 ^ 63) mod 2 ^ 64 - 2 ^ 63)%Z.

Lemma wrap64_range z : (0 ≤ wrap64 z < 2 ^ 64)%Z.
Proof. unfold wrap64. apply Z.mod_pos_bound. lia. Qed.
Lemma wrap64_small z : (0 ≤ z < 2 ^ 64)%Z → wrap64 z = z.
Proof. apply Z.mod_small. Qed.
Lemma int64_small z : (- 2 ^ 63 ≤ z < 2 ^ 63)%Z → int64 z = z.
Proof. intros. unfold int64. rewrite Z.mod_small; lia. Qed.
Lemma int64_range z : (- 2 ^ 63 ≤ int64 z < 2 ^ 63)%Z.
Proof. unfold int64. pose proof (Z.mod_pos_bound (z + 2 ^ 63) (2 ^ 64)). lia. Qed.
Lemma int64_add_l a b : int64 (int64 a + b) = int64 (a + b).
Proof.
  unfold int64. replace ((a + 2 ^ 63) mod 2 ^ 64 - 2 ^ 63 + b + 2 ^ 63)%Z with ((a + 2 ^ 63) mod 2 ^ 64 + b)%Z by lia.
  rewrite Zplus_mod_idemp_l. by replace (a + 2 ^ 63 + b)%Z with (a + b + 2 ^ 63)%Z by lia.
Qed.

(** * Tactics and hints *)

Create HintDb sea.
#[export] Hint Resolve wrap64_range int64_range range_nodup srange_nodup : sea.

(** Case analysis on the outcome of the innermost call in a hypothesis. *)
Ltac res_case H :=
  repeat match type of H with
  | context [match ?x with Ok _ => _ | Err _ => _ | Panic _ => _ end] =>
      let E := fresh "E" in destruct x eqn:E; cbn in H; try discriminate H
  end.

(** Split every [if] and [match] of the goal on a variable-free scrutinee. *)
Ltac sea_cases := repeat (case_match || case_decide); simplify_eq/=; try done.

(** * Generic lemmas on lists *)

Lemma concat_fmap_cons {A B} (f : A → list B) x (l : list A) :
  concat (f <$> x :: l) = f x ++ concat (f <$> l).
Proof. done. Qed.

Lemma concat_fmap_perm {A B} (f g : A → list B) (l : list A) :
  (∀ x, x ∈ l → f x ≡ₚ g x) → concat (f <$> l) ≡ₚ concat (g <$> l).
Proof.
  induction l as [|x l IH]; intros H; cbn; [done|].
  rewrite (H x) by set_solver. rewrite IH; [done|set_solver].
Qed.

Lemma concat_fmap_app {A B} (f g : A → list B) (l : list A) :
  concat ((λ x, f x ++ g x) <$> l) ≡ₚ concat (f <$> l) ++ concat (g <$> l).
Proof.
  induction l as [|x l IH]; cbn; [done|].
  rewrite IH. rewrite <-!app_assoc. apply Permutation_app_head.
  rewrite !app_assoc. apply Permutation_app_tail. apply Permutation_app_comm.
Qed.

Lemma length_concat_fmap {A B} (f : A → list B) (l : list A) :
  length (concat (f <$> l)) = sum_list_with (λ x, length (f x)) l.
Proof. induction l as [|x l IH]; cbn; [done|]. rewrite length_app, IH. done. Qed.

Lemma elem_of_concat_fmap {A B} (f : A → list B) (l : list A) y :
  y ∈ concat (f <$> l) ↔ ∃ x, x ∈ l ∧ y ∈ f x.
Proof.
  induction l as [|x l IH]; cbn.
  - split; [intros []%elem_of_nil|intros (z & []%elem_of_nil & _)].
  - rewrite elem_of_app, IH. split.
    + intros [?|(z & ? & ?)]; [exists x|exists z]; by rewrite elem_of_cons; auto.
    + intros (z & [->|?]%elem_of_cons & ?); eauto.
Qed.

(** In a duplicate-free concatenation each element comes from one block. *)
Lemma NoDup_concat_fmap_inj {A B} (f : A → list B) (l : list A) x1 x2 y :
  NoDup (concat (f <$> l)) → x1 ∈ l → x2 ∈ l → y ∈ f x1 → y ∈ f x2 → x1 = x2.
Proof.
  induction l as [|x l IH]; cbn; [set_solver|].
  rewrite NoDup_app. intros (_ & Hd & Hl) H1 H2 Hy1 Hy2.
  apply elem_of_cons in H1 as [->|H1], H2 as [->|H2].
  - done.
  - exfalso. apply (Hd y Hy1). apply elem_of_concat_fmap. eauto.
  - exfalso. apply (Hd y Hy2). apply elem_of_concat_fmap. eauto.
  - by apply IH.
Qed.

Lemma sum_list_with_ext {A} (f g : A → nat) (l : list A) :
  (∀ x, x ∈ l → f x = g x) → sum_list_with f l = sum_list_with g l.
Proof.
  induction l as [|x l IH]; intros Hfg; cbn; [done|].
  rewrite (Hfg x) by set_solver. rewrite IH; [done|]. intros y Hy. apply Hfg. set_solver.
Qed.

Lemma NoDup_concat_fmap {A B} (f : A → list B) (l : list A) :
  NoDup l → (∀ x, x ∈ l → NoDup (f x)) →
  (∀ x1 x2 y, x1 ∈ l → x2 ∈ l → y ∈ f x1 → y ∈ f x2 → x1 = x2) →
  NoDup (concat (f <$> l)).
Proof.
  induction l as [|x l IH]; cbn; intros Hl Hf Hd; [constructor|].
  apply NoDup_cons in Hl as [Hx Hl]. apply NoDup_app. split_and!.
  - apply Hf. by left.
  - intros y Hy (z & Hz & Hyz)%elem_of_concat_fmap.
    apply Hx. assert (x = z) as ->; [|done].
    apply (Hd x z y); [by left|by right|done..].
  - apply IH; [done| |].
    + intros z Hz. apply Hf. by right.
    + intros x1 x2 y H1 H2. apply Hd; by right.
Qed.

Lemma NoDup_fmap_filter {A B} (f : A → B) (P : A → Prop) `{∀ x, Decision (P x)} (l : list A) :
  NoDup (f <$> l) → NoDup (f <$> filter P l).
Proof.
  induction l as [|a l IH]; [done|].
  rewrite fmap_cons, NoDup_cons, filter_cons. intros [Ha Hl].
  case_decide; [|by apply IH]. rewrite fmap_cons. apply NoDup_cons. split; [|by apply IH].
  intros (ab & Hab & [_ Hin]%list_elem_of_filter)%list_elem_of_fmap.
  apply Ha. apply list_elem_of_fmap. by exists ab.
Qed.

Lemma elem_of_take_weaken {A} (x : A) n l : x ∈ take n l → x ∈ l.
Proof. intros Hx. rewrite <-(take_drop n l). apply elem_of_app. by left. Qed.

Lemma filter_none {A} (P : A → Prop) `{∀ x, Decision (P x)} (l : list A) :
  (∀ x, x ∈ l → ¬ P x) → filter P l = [].
Proof.
  induction l as [|a l IH]; intros Hl; [done|]. rewrite filter_cons_False by (apply Hl; by left).
  apply IH. intros x Hx. apply Hl. by right.
Qed.

(** A selection of positions without repetitions, and the others. *)
Lemma seq_split sel n :
  NoDup sel → (∀ i, i ∈ sel → i < n) → seq 0 n ≡ₚ sel ++ filter (.∉ sel) (seq 0 n).
Proof.
  intros Hnd Hlt. apply NoDup_Permutation.
  - apply NoDup_seq.
  - apply NoDup_app. split_and!; [done| |apply NoDup_filter, NoDup_seq]. by intros i Hi [? _]%list_elem_of_filter.
  - intros i. rewrite elem_of_app, list_elem_of_filter, elem_of_seq. split.
    + intros Hi. destruct (decide (i ∈ sel)); [by left|by right].
    + intros [Hi|[_ Hi]]; [specialize (Hlt i Hi); lia|done].
Qed.
