(* ===== verification/Hash.v ===== *)
(** Bytes of Go strings, little-endian integers, MD5 and its hexadecimal text,
    and the partition of an index name that routing uses, all executable. *)
From S2P Require Import Prelude.

(** * Bytes of a Go string *)

Definition byte_of (c : ascii) : Z := Z.of_nat (nat_of_ascii c).

Fixpoint bytes (s : string) : list Z :=
  match s with
  | EmptyString => []
  | String c s' => byte_of c :: bytes s'
  end.

Fixpoint of_bytes (bs : list Z) : string :=
  match bs with
  | [] => EmptyString
  | b :: bs' => String (ascii_of_nat (Z.to_nat b)) (of_bytes bs')
  end.

(** Little-endian encoding of an unsigned integer on [n] bytes, as in
    [encoding/binary]. *)
Fixpoint put_le (n : nat) (z : Z) : list Z :=
  match n with
  | O => []
  | S n' => (z mod 256)%Z :: put_le n' (z / 256)%Z
  end.

Fixpoint get_le (bs : list Z) : Z :=
  match bs with
  | [] => 0%Z
  | b :: bs' => (b + 256 * get_le bs')%Z
  end.

(** * MD5 (crypto/md5) *)

Module Md5.

Definition K : list Z :=
  [0xd76aa478; 0xe8c7b756; 0x242070db; 0xc1bdceee; 0xf57c0faf; 0x4787c62a;
   0xa8304613; 0xfd469501; 0x698098d8; 0x8b44f7af; 0xffff5bb1; 0x895cd7be;
   0x6b901122; 0xfd987193; 0xa679438e; 0x49b40821; 0xf61e2562; 0xc040b340;
   0x265e5a51; 0xe9b6c7aa; 0xd62f105d; 0x02441453; 0xd8a1e681; 0xe7d3fbc8;
   0x21e1cde6; 0xc33707d6; 0xf4d50d87; 0x455a14ed; 0xa9e3e905; 0xfcefa3f8;
   0x676f02d9; 0x8d2a4c8a; 0xfffa3942; 0x8771f681; 0x6d9d6122; 0xfde5380c;
   0xa4beea44; 0x4bdecfa9; 0xf6bb4b60; 0xbebfbc70; 0x289b7ec6; 0xeaa127fa;
   0xd4ef3085; 0x04881d05; 0xd9d4d039; 0xe6db99e5; 0x1fa27cf8; 0xc4ac5665;
   0xf4292244; 0x432aff97; 0xab9423a7; 0xfc93a039; 0x655b59c3; 0x8f0ccc92;
   0xffeff47d; 0x85845dd1; 0x6fa87e4f; 0xfe2ce6e0; 0xa3014314; 0x4e0811a1;
   0xf7537e82; 0xbd3af235; 0x2ad7d2bb; 0xeb86d391]%Z.

Definition S : list Z :=
  concat (replicate 4 [7; 12; 17; 22]%Z) ++ concat (replicate 4 [5; 9; 14; 20]%Z) ++
  concat (replicate 4 [4; 11; 16; 23]%Z) ++ concat (replicate 4 [6; 10; 15; 21]%Z).

Definition rotl (x : Z) (n : Z) : Z :=
  Z.lor (wrap32 (Z.shiftl x n)) (Z.shiftr x (32 - n)).

Definition not32 (x : Z) : Z := Z.lxor x 0xffffffff%Z.

Definition state : Type := Z * Z * Z * Z.

Definition round (M : list Z) (st : state) (i : nat) : state :=
  let '(a, b, c, d) := st in
  let '(f, g) :=
    if decide (i < 16) then (Z.lor (Z.land b c) (Z.land (not32 b) d), i)
    else if decide (i < 32) then (Z.lor (Z.land d b) (Z.land (not32 d) c), (5 * i + 1) mod 16)
    else if decide (i < 48) then (Z.lxor b (Z.lxor c d), (3 * i + 5) mod 16)
    else (Z.lxor c (Z.lor b (not32 d)), (7 * i) mod 16) in
  let f := wrap32 (f + a + nth i K 0%Z + nth g M 0%Z)%Z in
  (d, wrap32 (b + rotl f (nth i S 0%Z))%Z, b, c).

(** The sixteen 32-bit words of a 64-byte block. *)
Fixpoint words (n : nat) (bs : list Z) : list Z :=
  match n with
  | O => []
  | Datatypes.S n' => get_le (take 4 bs) :: words n' (drop 4 bs)
  end.

Definition block (st : state) (bs : list Z) : state :=
  let '(a, b, c, d) := st in
  let '(a', b', c', d') := foldl (round (words 16 bs)) st (seq 0 64) in
  (wrap32 (a + a'), wrap32 (b + b'), wrap32 (c + c'), wrap32 (d + d'))%Z.

Fixpoint blocks (n : nat) (st : state) (bs : list Z) : state :=
  match n with
  | O => st
  | Datatypes.S n' => blocks n' (block st (take 64 bs)) (drop 64 bs)
  end.

Definition pad (bs : list Z) : list Z :=
  let len := length bs in
  bs ++ [0x80%Z] ++ replicate ((119 - len mod 64) mod 64) 0%Z ++ put_le 8 (8 * Z.of_nat len).

Definition sum (bs : list Z) : list Z :=
  let p := pad bs in
  let '(a, b, c, d) :=
    blocks (length p / 64) (0x67452301, 0xefcdab89, 0x98badcfe, 0x10325476)%Z p in
  put_le 4 a ++ put_le 4 b ++ put_le 4 c ++ put_le 4 d.

End Md5.

(** * Hexadecimal text (encoding/hex and [%02x]) *)

Definition hex_digits : list ascii :=
  ["0"; "1"; "2"; "3"; "4"; "5"; "6"; "7"; "8"; "9"; "a"; "b"; "c"; "d"; "e"; "f"]%char.

Definition hex_digit (n : Z) : ascii := nth (Z.to_nat n) hex_digits "0"%char.

(** [fmt.Sprintf] with verb [%02x] for [0 <= b < 256]; also one byte of
    [hex.EncodeToString]. *)
Definition hex_byte (b : Z) : string :=
  String (hex_digit (b / 16)) (String (hex_digit (b mod 16)) EmptyString).

Fixpoint EncodeToString (bs : list Z) : string :=
  match bs with
  | [] => EmptyString
  | b :: bs' => hex_byte b +:+ EncodeToString bs'
  end.

(** [str[:2]] of the hexadecimal MD5 of the index name: the partition an
    index belongs to.  The same three lines appear in pkg/cluster,
    cmd/zinc-proxy and pkg/core. *)
Definition partition_of (indexName : string) : string :=
  String.substring 0 2 (EncodeToString (Md5.sum (bytes indexName))).

Example md5_abc :
  EncodeToString (Md5.sum (bytes "abc")) = "900150983cd24fb0d6963f7d28e17f72".
Proof. vm_compute. reflexivity. Qed.

Example md5_two_blocks :
  EncodeToString (Md5.sum (bytes
    "12345678901234567890123456789012345678901234567890123456789012345678901234567890"))
  = "57edf4a22be3c955ac49da2e2107b67a".
Proof. vm_compute. reflexivity. Qed.

(** * Facts *)

(** The 256 partition names. *)
Definition hex_prefixes : list string := hex_byte <$> (Z.of_nat <$> seq 0 256).

Lemma hex_prefixes_nodup : NoDup hex_prefixes.
Proof. apply (bool_decide_unpack _). vm_compute. exact I. Qed.

Lemma length_hex_prefixes : length hex_prefixes = 256.
Proof. reflexivity. Qed.

Lemma hex_byte_in b : (0 ≤ b < 256)%Z → hex_byte b ∈ hex_prefixes.
Proof.
  intros Hb. apply list_elem_of_fmap. exists b. split; [done|].
  apply list_elem_of_fmap. exists (Z.to_nat b). split; [lia|].
  apply elem_of_seq. lia.
Qed.

Lemma substring_2_hex_byte b s : String.substring 0 2 (hex_byte b +:+ s) = hex_byte b.
Proof. unfold hex_byte. cbn. by destruct s. Qed.

(** Every index name belongs to one of the 256 partitions. *)
Lemma partition_of_in indexName : partition_of indexName ∈ hex_prefixes.
Proof.
  unfold partition_of, Md5.sum.
  destruct (Md5.blocks _ _ _) as [[[a b] c] d].
  cbn [put_le app EncodeToString]. rewrite substring_2_hex_byte.
  apply hex_byte_in. apply Z.mod_pos_bound. lia.
Qed.

Lemma length_put_le n z : length (put_le n z) = n.
Proof. revert z. induction n as [|n IH]; intros z; cbn; [done|]. by rewrite IH. Qed.

Lemma get_put_le n z : (0 ≤ z < 256 ^ Z.of_nat n)%Z → get_le (put_le n z) = z.
Proof.
  revert z. induction n as [|n IH]; intros z Hz.
  - cbn in *. lia.
  - cbn [put_le get_le]. rewrite IH.
    + pose proof (Z.div_mod z 256). lia.
    + rewrite Nat2Z.inj_succ, Z.pow_succ_r in Hz by lia.
      split; [apply Z.div_pos; lia|]. apply Z.div_lt_upper_bound; lia.
Qed.

Lemma length_bytes s : length (bytes s) = String.length s.
Proof. induction s as [|c s IH]; cbn; [done|]. by rewrite IH. Qed.

Lemma of_bytes_bytes s : of_bytes (bytes s) = s.
Proof.
  induction s as [|c s IH]; cbn; [done|]. unfold byte_of.
  by rewrite Nat2Z.id, ascii_nat_embedding, IH.
Qed.
