(* ===== verification/ClusterManager.v ===== *)
(** cmd/cluster-manager/manager.go: the assignment of the 256 index partitions
    to the alive compute nodes ([distribute], [updateAssigns]), and the node
    registry handlers of cmd/cluster-manager/http.go. *)
From S2P Require Import Prelude Hash.

(** * Rebalancing the partitions *)

Module Distribute.

(** [fullAssigns]: the set of two-hex-digit prefixes [00] .. [ff]. *)
Definition fullAssigns : gset string := list_to_set hex_prefixes.

(** [curNodeAssignMap]: alive node -> the prefixes it holds, in the order the
    loop over [curAssignMap] meets them. *)
Definition group_step (curNodeMap : gset Z) (acc : gmap Z (list string))
    (kv : string * Z) : gmap Z (list string) :=
  let '(assign, nodeId) := kv in
  if decide (nodeId ∈ curNodeMap) then
    match acc !! nodeId with
    | Some l => <[nodeId := l ++ [assign]]> acc
    | None => <[nodeId := [assign]]> acc
    end
  else acc.

Definition group_assigns (curNodeMap : gset Z) (kvs : list (string * Z)) : gmap Z (list string) :=
  foldl (group_step curNodeMap) ∅ kvs.

(** A prefix goes to the pool when it is unassigned or its node is gone. *)
Definition needs_pool (curNodeMap : gset Z) (curAssignMap : gmap string Z) (id : string) : bool :=
  match curAssignMap !! id with
  | None => true
  | Some node => negb (bool_decide (node ∈ curNodeMap))
  end.

Definition init_pool (curNodeMap : gset Z) (curAssignMap : gmap string Z)
    (ids : list string) : list string :=
  filter (λ id, needs_pool curNodeMap curAssignMap id = true) ids.

(** The number of prefixes the [i]-th node should hold. *)
Definition quota (average remainder i : nat) : nat :=
  if decide (i < remainder) then S average else average.

(** [curNodeAssignMap[nodeId]]: the zero value of a missing list is nil. *)
Definition list_of (m : gmap Z (list string)) (n : Z) : list string := default [] (m !! n).

(** First loop: nodes above their quota give the excess to the pool. *)
Fixpoint trim (average remainder i : nat) (curNodeIds : list Z)
    (m : gmap Z (list string)) (pool : list string) : gmap Z (list string) * list string :=
  match curNodeIds with
  | [] => (m, pool)
  | nodeId :: rest =>
      let n := quota average remainder i in
      let l := list_of m nodeId in
      if decide (n < length l) then
        trim average remainder (S i) rest (<[nodeId := take n l]> m) (pool ++ drop n l)
      else trim average remainder (S i) rest m pool
  end.

(** Second loop: nodes below their quota take from the pool.  [pool[:m]]
    panics when the pool is too short, and [n - len(list)] negative makes
    [pool[:m]] panic as well. *)
Fixpoint fill (average remainder i : nat) (curNodeIds : list Z)
    (m : gmap Z (list string)) (pool : list string) (result : gmap Z (list string)) :
    res (gmap Z (list string)) :=
  match curNodeIds with
  | [] => Ok result
  | nodeId :: rest =>
      let n := quota average remainder i in
      let l := list_of m nodeId in
      if decide (n = length l) then fill average remainder (S i) rest m pool result
      else if decide (n < length l) then Panic PSlice
      else
        let k := n - length l in
        if decide (length pool < k) then Panic PSlice
        else fill average remainder (S i) rest m (drop k pool)
               (<[nodeId := l ++ take k pool]> result)
  end.

(** [updatedAssigns]: only the prefixes whose node changes. *)
Definition update_step (curAssignMap : gmap string Z) (node : Z)
    (acc : gmap string Z) (partition : string) : gmap string Z :=
  match curAssignMap !! partition with
  | Some nodeId => if decide (nodeId = node) then acc else <[partition := node]> acc
  | None => <[partition := node]> acc
  end.

Definition updated_assigns (curAssignMap : gmap string Z)
    (results : list (Z * list string)) : gmap string Z :=
  foldl (λ acc '(node, partitions), foldl (update_step curAssignMap node) acc partitions)
    ∅ results.

(** The iteration orders and the shuffle one run of [distribute] meets. *)
Record choices := Choices {
  ord_assigns : map_order string Z;
  ord_full : set_order string;
  ord_result : map_order Z (list string);
  rand_shuffle : shuffle string
}.

Definition default_choices : choices :=
  Choices map_order_default set_order_default map_order_default shuffle_id.

(** [distribute]; the result [None] is the nil map of "no need to
    distribute". *)
Definition distribute (ch : choices) (curNodeIds : list Z) (curAssignMap : gmap string Z) :
    res (option (gmap string Z)) :=
  let curNodeMap : gset Z := list_to_set curNodeIds in
  let curNodeAssignMap := group_assigns curNodeMap (range (ord_assigns ch) curAssignMap) in
  let pool := init_pool curNodeMap curAssignMap (srange (ord_full ch) fullAssigns) in
  match length curNodeIds with
  | O => Panic PDivZero
  | nodes =>
      let average := size fullAssigns / nodes in
      let remainder := size fullAssigns mod nodes in
      let '(curNodeAssignMap, pool) := trim average remainder 0 curNodeIds curNodeAssignMap pool in
      if decide (pool = []) then Ok None
      else
        let pool := shuf (rand_shuffle ch) pool in
        NodeAssignResult ← fill average remainder 0 curNodeIds curNodeAssignMap pool ∅;
        Ok (Some (updated_assigns curAssignMap (range (ord_result ch) NodeAssignResult)))
  end.

(** The assignment after the updates are written over the current one. *)
Definition apply_updates (curAssignMap : gmap string Z) (u : option (gmap string Z)) : gmap string Z :=
  match u with
  | None => curAssignMap
  | Some u => u ∪ curAssignMap
  end.

(** ** Grouping and the pool *)

Section grouping.
Context (S : gset Z).

Lemma list_of_group_step acc kv n :
  list_of (group_step S acc kv) n =
  list_of acc n ++ (if decide (n ∈ S ∧ kv.2 = n) then [kv.1] else []).
Proof.
  destruct kv as [a n']. unfold group_step, list_of. cbn.
  destruct (decide (n' ∈ S)) as [HS|HS].
  - destruct (decide (n = n')) as [->|Hn].
    + rewrite decide_True by done. destruct (acc !! n') eqn:E; by simplify_map_eq.
    + rewrite (decide_False (P := n ∈ S ∧ n' = n)) by naive_solver.
      rewrite app_nil_r. destruct (acc !! n') eqn:E; by simplify_map_eq.
  - rewrite decide_False by naive_solver. by rewrite app_nil_r.
Qed.

Lemma elem_of_group_fold acc kvs n p :
  p ∈ list_of (foldl (group_step S) acc kvs) n ↔
  p ∈ list_of acc n ∨ (n ∈ S ∧ (p, n) ∈ kvs).
Proof.
  revert acc. induction kvs as [|[q m] kvs IH]; intros acc; cbn [foldl]; [set_solver|].
  rewrite IH, list_of_group_step, elem_of_app, elem_of_cons. cbn.
  case_decide; [destruct_and!; subst|]; set_solver.
Qed.

Lemma NoDup_group_fold acc kvs n :
  NoDup (list_of acc n ++ kvs.*1) → NoDup (list_of (foldl (group_step S) acc kvs) n).
Proof.
  revert acc. induction kvs as [|[q m] kvs IH]; intros acc; [by rewrite app_nil_r|].
  rewrite fmap_cons. cbn [foldl]. intros Hnd. apply IH. rewrite list_of_group_step. cbn [fst snd].
  case_decide; [by rewrite <-app_assoc|].
  rewrite app_nil_r. rewrite <-Permutation_middle in Hnd.
  by apply NoDup_cons in Hnd as [_ ?].
Qed.

Context (ord : map_order string Z) (cur : gmap string Z).

Lemma elem_of_group n p :
  p ∈ list_of (group_assigns S (range ord cur)) n ↔ n ∈ S ∧ cur !! p = Some n.
Proof.
  unfold group_assigns. rewrite elem_of_group_fold, range_elem.
  unfold list_of. rewrite lookup_empty. cbn. set_solver.
Qed.

Lemma NoDup_group n : NoDup (list_of (group_assigns S (range ord cur)) n).
Proof. apply NoDup_group_fold. apply range_nodup. Qed.

Lemma elem_of_init_pool ids p :
  p ∈ init_pool S cur ids ↔ p ∈ ids ∧ ∀ n, cur !! p = Some n → n ∉ S.
Proof.
  unfold init_pool, needs_pool. rewrite list_elem_of_filter.
  destruct (cur !! p) as [n|]; [|naive_solver].
  rewrite negb_true_iff, bool_decide_eq_false. naive_solver.
Qed.

(** The lists of the alive nodes and the pool partition the 256 prefixes. *)
Lemma group_pool_perm (ordf : set_order string) ids :
  NoDup ids → S = list_to_set ids → dom cur ⊆ fullAssigns →
  concat (list_of (group_assigns S (range ord cur)) <$> ids) ++
    init_pool S cur (srange ordf fullAssigns) ≡ₚ hex_prefixes.
Proof.
  intros Hids HS Hdom. apply NoDup_Permutation; [|apply hex_prefixes_nodup|].
  - apply NoDup_app. split_and!.
    + apply NoDup_concat_fmap; [done|intros; apply NoDup_group|].
      intros n1 n2 p _ _ [_ H1]%elem_of_group [_ H2]%elem_of_group. congruence.
    + intros p (n & _ & [Hn Hp]%elem_of_group)%elem_of_concat_fmap.
      rewrite elem_of_init_pool. naive_solver.
    + apply NoDup_filter. apply srange_nodup.
  - intros p. rewrite elem_of_app, elem_of_concat_fmap, elem_of_init_pool, srange_elem.
    setoid_rewrite elem_of_group. unfold fullAssigns. rewrite elem_of_list_to_set.
    split.
    + intros [(n & _ & _ & Hp)|[? _]]; [|done].
      apply elem_of_dom_2, Hdom in Hp. by apply elem_of_list_to_set in Hp.
    + intros Hp. destruct (cur !! p) as [n|] eqn:E; [|naive_solver].
      destruct (decide (n ∈ S)) as [Hn|Hn]; [|naive_solver].
      left. exists n. split; [|done]. subst S. by apply elem_of_list_to_set in Hn.
Qed.
End grouping.

(** ** The two balancing loops *)

Lemma list_of_insert m n l n' :
  list_of (<[n := l]> m) n' = if decide (n = n') then l else list_of m n'.
Proof. unfold list_of. rewrite lookup_insert. by case_decide. Qed.

Lemma concat_list_of_ext m m' (ids : list Z) :
  (∀ n, n ∈ ids → list_of m' n = list_of m n) →
  concat (list_of m' <$> ids) = concat (list_of m <$> ids).
Proof. intros Hm. f_equal. apply list_fmap_ext. intros i n Hi. apply Hm. by apply list_elem_of_lookup_2 in Hi. Qed.

Section loops.
Context (average remainder : nat).
Abbreviation q := (quota average remainder).

(** What the first loop leaves each node with, and that nothing is lost. *)
Lemma trim_spec ids i m pool m' pool' :
  NoDup ids → trim average remainder i ids m pool = (m', pool') →
  (∀ j n, ids !! j = Some n → list_of m' n = take (q (i + j)) (list_of m n)) ∧
  (∀ n, n ∉ ids → list_of m' n = list_of m n) ∧
  concat (list_of m' <$> ids) ++ pool' ≡ₚ concat (list_of m <$> ids) ++ pool ∧
  (pool' = [] → pool = [] ∧ ∀ j n, ids !! j = Some n → length (list_of m n) ≤ q (i + j)).
Proof.
  revert i m pool. induction ids as [|n ids IH]; intros i m pool Hnd Ht.
  { cbn in Ht. simplify_eq. split_and!; naive_solver. }
  apply NoDup_cons in Hnd as [Hn Hnd]. cbn [trim] in Ht.
  set (m1 := if decide (q i < length (list_of m n)) then <[n := take (q i) (list_of m n)]> m else m).
  set (pool1 := if decide (q i < length (list_of m n)) then pool ++ drop (q i) (list_of m n) else pool).
  assert (trim average remainder (S i) ids m1 pool1 = (m', pool')) as Ht1.
  { unfold m1, pool1. by destruct (decide _). }
  assert (list_of m1 n = take (q i) (list_of m n)) as Hm1n.
  { unfold m1. case_decide; [by rewrite list_of_insert, decide_True|].
    rewrite take_ge; [done|lia]. }
  assert (∀ n', n' ≠ n → list_of m1 n' = list_of m n') as Hm1.
  { intros n' Hn'. unfold m1. case_decide; [|done]. by rewrite list_of_insert, decide_False. }
  apply IH in Ht1 as (Htake & Hout & Hperm & Hnil); [|done].
  assert (list_of m' n = take (q i) (list_of m n)) as Hm'n by (by rewrite Hout).
  split_and!.
  - intros [|j] n' Hj; cbn in Hj; simplify_eq.
    + by rewrite Nat.add_0_r.
    + rewrite <-Nat.add_succ_comm. rewrite (Htake j) by done. f_equal. apply Hm1.
      intros ->. apply Hn. by apply list_elem_of_lookup_2 in Hj.
  - intros n' [Hne Hn']%not_elem_of_cons. rewrite Hout by done. by apply Hm1.
  - rewrite !concat_fmap_cons, <-!app_assoc, Hperm, Hm'n.
    rewrite (concat_list_of_ext m m1) by (intros n' Hn'; apply Hm1; congruence).
    unfold pool1. case_decide.
    + rewrite <-(take_drop (q i) (list_of m n)) at 3. rewrite <-!app_assoc.
      apply Permutation_app_head. rewrite (app_assoc (concat _)).
      apply Permutation_app_comm.
    + rewrite take_ge; [done|lia].
  - intros Hp'. destruct (Hnil Hp') as [Hpool1 Hlen]. unfold pool1 in Hpool1.
    assert (length (list_of m n) ≤ q i).
    { case_decide; [|lia]. apply app_eq_nil in Hpool1 as [_ Hd].
      apply (f_equal length) in Hd. rewrite length_drop in Hd. cbn in Hd. lia. }
    split; [case_decide; [lia|done]|].
    intros [|j] n' Hj; cbn in Hj; simplify_eq; [by rewrite Nat.add_0_r|].
    rewrite <-Nat.add_succ_comm. rewrite <-Hm1; [by apply Hlen|].
    intros ->. apply Hn. by apply list_elem_of_lookup_2 in Hj.
Qed.

Lemma trim_noop ids i m pool :
  (∀ j n, ids !! j = Some n → length (list_of m n) ≤ q (i + j)) →
  trim average remainder i ids m pool = (m, pool).
Proof.
  revert i. induction ids as [|n ids IH]; intros i Hle; cbn [trim]; [done|].
  pose proof (Hle 0 n eq_refl) as H0. rewrite Nat.add_0_r in H0.
  rewrite decide_False by lia. apply IH. intros j n' Hj. rewrite Nat.add_succ_comm. by apply Hle.
Qed.

(** The quotas of the nodes at positions [i], [i+1], ... summed. *)
Fixpoint quota_sum (i n : nat) : nat :=
  match n with
  | O => 0
  | S n' => q i + quota_sum (S i) n'
  end.

Lemma quota_sum_ge ids i (m : gmap Z (list string)) :
  (∀ j n, ids !! j = Some n → length (list_of m n) ≤ q (i + j)) →
  length (concat (list_of m <$> ids)) ≤ quota_sum i (length ids).
Proof.
  revert i. induction ids as [|n ids IH]; intros i Hle; cbn; [done|].
  rewrite length_app. pose proof (Hle 0 n eq_refl) as H0. rewrite Nat.add_0_r in H0.
  enough (length (concat (list_of m <$> ids)) ≤ quota_sum (S i) (length ids)) by lia.
  apply IH. intros j n' Hj. rewrite Nat.add_succ_comm. by apply Hle.
Qed.

Lemma quota_sum_closed i n : quota_sum i n = average * n + ((remainder - i) `min` n).
Proof.
  revert i. induction n as [|n IH]; intros i; cbn; [lia|].
  rewrite IH. unfold quota. case_decide; lia.
Qed.

(** The final list of a node: what the second loop gave it, or what it had. *)
Definition final (m result : gmap Z (list string)) (n : Z) : list string :=
  default (list_of m n) (result !! n).

(** One iteration of the second loop, when the pool is large enough. *)
Lemma fill_cons n ids i m pool result :
  length (list_of m n) ≤ q i → q i - length (list_of m n) ≤ length pool →
  result !! n = None →
  ∃ pool1 result1,
    fill average remainder i (n :: ids) m pool result =
      fill average remainder (S i) ids m pool1 result1 ∧
    (∀ n', n' ≠ n → result1 !! n' = result !! n') ∧
    default (list_of m n) (result1 !! n) ++ pool1 = list_of m n ++ pool ∧
    list_of m n `prefix_of` default (list_of m n) (result1 !! n) ∧
    length (default (list_of m n) (result1 !! n)) = q i.
Proof.
  intros Hle Hk Hres. cbn [fill].
  destruct (decide (q i = length (list_of m n))) as [Hd|Hd].
  { exists pool, result. rewrite Hres. split_and!; auto. }
  rewrite decide_False by lia. rewrite decide_False by lia.
  eexists _, _. split; [done|]. split; [intros; by rewrite lookup_insert_ne|].
  rewrite lookup_insert_eq. cbn. split_and!.
  - by rewrite <-app_assoc, take_drop.
  - by eexists.
  - rewrite length_app, length_take. lia.
Qed.

(** With exactly enough prefixes in the pool the second loop does not panic,
    fills every node to its quota and uses the pool up. *)
Lemma fill_spec ids i m pool result :
  NoDup ids → (∀ n, n ∈ ids → result !! n = None) →
  (∀ j n, ids !! j = Some n → length (list_of m n) ≤ q (i + j)) →
  quota_sum i (length ids) = length (concat (list_of m <$> ids)) + length pool →
  ∃ result', fill average remainder i ids m pool result = Ok result' ∧
    (∀ n, n ∉ ids → result' !! n = result !! n) ∧
    (∀ j n, ids !! j = Some n → length (final m result' n) = q (i + j)) ∧
    (∀ n, n ∈ ids → list_of m n `prefix_of` final m result' n) ∧
    concat (final m result' <$> ids) ≡ₚ concat (list_of m <$> ids) ++ pool.
Proof.
  revert i pool result. induction ids as [|n ids IH]; intros i pool result Hnd Hres Hle Hsum.
  { destruct pool; cbn in Hsum; [|lia]. exists result. cbn. split_and!; set_solver. }
  apply NoDup_cons in Hnd as [Hn Hnd].
  assert (∀ j n', ids !! j = Some n' → length (list_of m n') ≤ q (S i + j)) as Hle'.
  { intros j n' Hj. rewrite Nat.add_succ_comm. by apply Hle. }
  pose proof (Hle 0 n eq_refl) as Hle0. rewrite Nat.add_0_r in Hle0.
  pose proof (quota_sum_ge ids (S i) m Hle') as Hge.
  rewrite concat_fmap_cons, length_app in Hsum. cbn [length quota_sum] in Hsum.
  destruct (fill_cons n ids i m pool result) as (pool1 & result1 & Hf & Hne & Happ & Hpre0 & Hlen0);
    [done|lia|apply Hres; by left|].
  pose proof (f_equal length Happ) as Hl. rewrite !length_app in Hl.
  destruct (IH (S i) pool1 result1) as (result' & Hfill & Hout & Hlen & Hpre & Hperm);
    [done| |done|lia|].
  { intros n' Hn'. rewrite Hne by congruence. apply Hres. by right. }
  exists result'. rewrite Hf. unfold final. split_and!; [done|..].
  - intros n' [? ?]%not_elem_of_cons. rewrite Hout by done. by apply Hne.
  - intros [|j] n' Hj; cbn in Hj; simplify_eq; [by rewrite Nat.add_0_r, Hout|].
    rewrite <-Nat.add_succ_comm. by apply Hlen.
  - intros n' [->|Hn']%elem_of_cons; [by rewrite Hout|by apply Hpre].
  - rewrite !concat_fmap_cons, Hout by done. unfold final in Hperm. rewrite Hperm.
    rewrite (Permutation_app_comm (concat _) pool1), app_assoc, Happ, <-!app_assoc.
    apply Permutation_app_head, Permutation_app_comm.
Qed.

Lemma quota_sum_eq ids i (m : gmap Z (list string)) :
  (∀ j n, ids !! j = Some n → length (list_of m n) ≤ q (i + j)) →
  length (concat (list_of m <$> ids)) = quota_sum i (length ids) →
  ∀ j n, ids !! j = Some n → length (list_of m n) = q (i + j).
Proof.
  revert i. induction ids as [|n ids IH]; intros i Hle Hsum j n' Hj; [done|].
  assert (∀ j n', ids !! j = Some n' → length (list_of m n') ≤ q (S i + j)) as Hle'.
  { intros j' n1 Hj1. rewrite Nat.add_succ_comm. by apply Hle. }
  pose proof (quota_sum_ge ids (S i) m Hle') as Hge.
  pose proof (Hle 0 n eq_refl) as Hle0. rewrite Nat.add_0_r in Hle0.
  rewrite concat_fmap_cons, length_app in Hsum. cbn [length quota_sum] in Hsum.
  destruct j as [|j]; cbn in Hj; simplify_eq; [rewrite Nat.add_0_r; lia|].
  rewrite <-Nat.add_succ_comm. apply IH; [done|lia|done].
Qed.
End loops.

(** ** The updates *)

Section updates.
Context (cur : gmap string Z).

Lemma update_fold_lookup n acc (l : list string) p :
  foldl (update_step cur n) acc l !! p =
  if decide (p ∈ l ∧ cur !! p ≠ Some n) then Some n else acc !! p.
Proof.
  revert acc. induction l as [|p' l IH]; intros acc; cbn [foldl].
  { rewrite decide_False; [done|]. intros [[]%elem_of_nil _]. }
  rewrite IH. destruct (decide (p ∈ l ∧ cur !! p ≠ Some n)) as [[? ?]|Hno].
  { rewrite decide_True; [done|]. split; [by right|done]. }
  unfold update_step. destruct (decide (p = p')) as [->|Hne].
  - destruct (cur !! p') as [n'|] eqn:E.
    + destruct (decide (n' = n)) as [->|Hn'].
      * by rewrite decide_False by naive_solver.
      * rewrite lookup_insert_eq, decide_True; [done|]. split; [by left|congruence].
    + rewrite lookup_insert_eq, decide_True; [done|]. split; [by left|done].
  - rewrite (decide_False (P := p ∈ p' :: l ∧ _)).
    + destruct (cur !! p'); [case_decide|]; by simplify_map_eq.
    + intros [[?|?]%elem_of_cons ?]; naive_solver.
Qed.

(** When only node [n] was given [p], the update of [p] is [n], and there is
    none when [p] is already there or was given to no node. *)
Lemma updated_assigns_lookup rs p n :
  (∀ n' l, (n', l) ∈ rs → p ∈ l → n' = n) →
  updated_assigns cur rs !! p =
  if decide (Exists (λ nl, p ∈ nl.2) rs ∧ cur !! p ≠ Some n) then Some n else None.
Proof.
  unfold updated_assigns. rewrite <-(lookup_empty (M := gmap string) p).
  generalize (∅ : gmap string Z) as acc. induction rs as [|[n1 l1] rs IH]; intros acc Huniq.
  { rewrite decide_False; [done|]. intros [Hex _]. inversion Hex. }
  cbn [foldl]. rewrite IH by (intros; eapply Huniq; [by right|done]).
  rewrite update_fold_lookup. destruct (decide (p ∈ l1)) as [Hp|Hp].
  - assert (n1 = n) as -> by (eapply Huniq; [by left|done]).
    destruct (decide (cur !! p = Some n)) as [Hc|Hc].
    + rewrite !decide_False by naive_solver. done.
    + rewrite (decide_True (P := p ∈ l1 ∧ _)) by done.
      rewrite (decide_True (P := Exists _ ((n, l1) :: rs) ∧ _)); [by case_decide|].
      split; [by left|done].
  - rewrite (decide_False (P := p ∈ l1 ∧ _)) by naive_solver.
    apply decide_ext. rewrite Exists_cons. naive_solver.
Qed.
End updates.

(** The prefixes a node holds in an assignment. *)
Definition held (m : gmap string Z) (n : Z) : list string :=
  (filter (λ kv, kv.2 = n) (map_to_list m)).*1.

Lemma elem_of_held m n p : p ∈ held m n ↔ m !! p = Some n.
Proof.
  unfold held. rewrite list_elem_of_fmap. setoid_rewrite list_elem_of_filter.
  setoid_rewrite elem_of_map_to_list'. split.
  - intros ([p' n'] & -> & Hn & Hm). cbn in *. by subst.
  - intros Hm. by exists (p, n).
Qed.

Lemma NoDup_held m n : NoDup (held m n).
Proof. apply NoDup_fmap_filter. apply NoDup_fst_map_to_list. Qed.

(** ** The whole of [distribute] *)

Section whole.
Context (ids : list Z) (cur : gmap string Z).
Context (Hids : NoDup ids) (Hne : ids ≠ []) (Hdom : dom cur ⊆ fullAssigns).

Definition average : nat := size fullAssigns / length ids.
Definition remainder : nat := size fullAssigns mod length ids.

Lemma size_fullAssigns : size fullAssigns = 256.
Proof. unfold fullAssigns. rewrite size_list_to_set; [done|apply hex_prefixes_nodup]. Qed.

Lemma quota_sum_full : quota_sum average remainder 0 (length ids) = 256.
Proof.
  rewrite quota_sum_closed. unfold average, remainder. rewrite size_fullAssigns.
  assert (length ids ≠ 0) by (by destruct ids).
  pose proof (Nat.div_mod_eq 256 (length ids)). pose proof (Nat.mod_upper_bound 256 (length ids)). lia.
Qed.

(** [new] is the assignment described by the final lists [fin]. *)
Definition realises (new : gmap string Z) (fin : Z → list string) : Prop :=
  (∀ j n, ids !! j = Some n → length (fin n) = quota average remainder j) ∧
  concat (fin <$> ids) ≡ₚ hex_prefixes ∧
  (∀ p n, new !! p = Some n ↔ n ∈ ids ∧ p ∈ fin n).

Lemma updates_realise (ord : map_order Z (list string)) m result :
  (∀ n p, p ∈ list_of m n → cur !! p = Some n) →
  (∀ n, n ∉ ids → result !! n = None) →
  (∀ n, n ∈ ids → list_of m n `prefix_of` final m result n) →
  concat (final m result <$> ids) ≡ₚ hex_prefixes →
  ∀ p n, (updated_assigns cur (range ord result) ∪ cur) !! p = Some n ↔
    n ∈ ids ∧ p ∈ final m result n.
Proof.
  intros Hm Hout Hpre Hperm p n.
  assert (NoDup (concat (final m result <$> ids))) as Hnd
    by (rewrite Hperm; apply hex_prefixes_nodup).
  assert (∀ n' l, (n', l) ∈ range ord result → n' ∈ ids ∧ final m result n' = l) as Hrange.
  { intros n' l Hin%range_elem. split.
    - destruct (decide (n' ∈ ids)) as [|Hn']; [done|]. apply Hout in Hn'. congruence.
    - unfold final. by rewrite Hin. }
  (* a prefix in the final list of a node is assigned to that node *)
  assert (∀ n, n ∈ ids → p ∈ final m result n →
    (updated_assigns cur (range ord result) ∪ cur) !! p = Some n) as Hfwd.
  { clear n. intros n Hn Hp.
    assert (∀ n' l, (n', l) ∈ range ord result → p ∈ l → n' = n) as Huniq.
    { intros n' l Hin Hp'. destruct (Hrange _ _ Hin) as [Hn' <-].
      by eapply NoDup_concat_fmap_inj. }
    destruct (decide (cur !! p = Some n)) as [Hc|Hc].
    - rewrite lookup_union_r; [done|]. rewrite (updated_assigns_lookup _ _ _ n) by done.
      rewrite decide_False; naive_solver.
    - apply lookup_union_Some_l. rewrite (updated_assigns_lookup _ _ _ n) by done.
      rewrite decide_True; [done|]. split; [|done]. apply Exists_exists.
      destruct (result !! n) as [l|] eqn:E.
      + exists (n, l). rewrite range_elem. unfold final in Hp. by rewrite E in Hp.
      + exfalso. apply Hc, Hm. unfold final in Hp. by rewrite E in Hp. }
  split; [|intros [? ?]; by apply Hfwd].
  intros Hnew.
  assert (p ∈ hex_prefixes) as Hp.
  { apply lookup_union_Some_raw in Hnew as [Hu|[_ Hc]].
    - destruct (decide (Exists (λ nl, p ∈ nl.2) (range ord result))) as [Hex|Hex].
      + apply Exists_exists in Hex as ([n' l] & Hin & Hp). destruct (Hrange _ _ Hin) as [Hn' <-].
        rewrite <-Hperm. apply elem_of_concat_fmap. eauto.
      + rewrite (updated_assigns_lookup _ _ _ n) in Hu.
        * rewrite decide_False in Hu; [done|naive_solver].
        * intros n' l Hin Hp. exfalso. apply Hex, Exists_exists. by exists (n', l).
    - apply elem_of_dom_2, Hdom, elem_of_list_to_set in Hc. done. }
  rewrite <-Hperm in Hp. apply elem_of_concat_fmap in Hp as (n' & Hn' & Hp).
  specialize (Hfwd n' Hn' Hp). by simplify_eq.
Qed.

(** The run of [distribute] in terms of its intermediate values. *)
Lemma distribute_unfold ch :
  let g := group_assigns (list_to_set ids) (range (ord_assigns ch) cur) in
  let p0 := init_pool (list_to_set ids) cur (srange (ord_full ch) fullAssigns) in
  distribute ch ids cur =
  let '(m, pool) := trim average remainder 0 ids g p0 in
  if decide (pool = []) then Ok None
  else NodeAssignResult ← fill average remainder 0 ids m (shuf (rand_shuffle ch) pool) ∅;
       Ok (Some (updated_assigns cur (range (ord_result ch) NodeAssignResult))).
Proof. cbn zeta. unfold distribute, average, remainder. destruct ids; [done|]. reflexivity. Qed.

(** [distribute] does not panic; the assignment it leads to is described by
    final lists that extend, for every node, the part of its own list that
    fits its quota. *)
Lemma distribute_final ch :
  ∃ u fin, distribute ch ids cur = Ok u ∧ realises (apply_updates cur u) fin ∧
    (∀ j n p, ids !! j = Some n → length (held cur n) ≤ quota average remainder j →
      cur !! p = Some n → p ∈ fin n).
Proof.
  rewrite distribute_unfold.
  set (g := group_assigns _ _). set (p0 := init_pool _ _ _).
  assert (∀ n p, p ∈ list_of g n ↔ n ∈ ids ∧ cur !! p = Some n) as Hg.
  { intros n p. unfold g. by rewrite elem_of_group, elem_of_list_to_set. }
  assert (∀ n, n ∈ ids → list_of g n ≡ₚ held cur n) as Hheld.
  { intros n Hn. apply NoDup_Permutation; [apply NoDup_group|apply NoDup_held|].
    intros p. rewrite Hg, elem_of_held. naive_solver. }
  pose proof (group_pool_perm (list_to_set ids) (ord_assigns ch) cur (ord_full ch) ids
    Hids eq_refl Hdom) as Hperm0. fold g p0 in Hperm0.
  destruct (trim _ _ _ _ _ _) as [m pool] eqn:Et.
  apply trim_spec in Et as (Htake & Hout & Hperm & Hnil); [|done]. cbn in Htake, Hnil.
  assert (∀ n p, p ∈ list_of m n → cur !! p = Some n) as Hm.
  { intros n p Hp. apply (Hg n p). destruct (decide (n ∈ ids)) as [[j Hj]%list_elem_of_lookup|Hn].
    - rewrite (Htake _ _ Hj) in Hp. by eapply elem_of_take_weaken.
    - by rewrite <-Hout. }
  assert (∀ j n p, ids !! j = Some n → length (held cur n) ≤ quota average remainder j →
      cur !! p = Some n → p ∈ list_of m n) as Hkeep.
  { intros j n p Hj Hlen Hp. assert (n ∈ ids) as Hn by (by apply list_elem_of_lookup_2 in Hj).
    rewrite (Htake _ _ Hj), take_ge; [by apply Hg|]. by rewrite Hheld. }
  rewrite Hperm0 in Hperm.
  case_decide as Hpool.
  - subst pool. destruct (Hnil eq_refl) as [Hp0 Hle]. rewrite app_nil_r in Hperm.
    assert (∀ j n, ids !! j = Some n → list_of m n = list_of g n) as Hmg.
    { intros j n Hj. rewrite (Htake _ _ Hj), take_ge; [done|by apply Hle]. }
    eexists None, (list_of m). split; [done|]. split; [|done]. split_and!; [|done|].
    + intros j n Hj. rewrite <-(Nat.add_0_l j). eapply quota_sum_eq; [|by rewrite quota_sum_full, Hperm|done].
      intros j' n' Hj'. rewrite (Hmg _ _ Hj'). by apply Hle.
    + intros p n. cbn. split; [|intros [_ ?]; by apply Hm].
      intros Hc. assert (p ∈ hex_prefixes) as Hp
        by (apply elem_of_dom_2, Hdom, elem_of_list_to_set in Hc; done).
      rewrite <-Hperm in Hp. apply elem_of_concat_fmap in Hp as (n' & Hn' & Hp).
      pose proof (Hm _ _ Hp). by simplify_eq.
  - destruct (fill_spec average remainder ids 0 m (shuf (rand_shuffle ch) pool) ∅)
      as (result & -> & Hout' & Hlen & Hpre & Hfin).
    + done.
    + intros. apply lookup_empty.
    + intros j n Hj. rewrite (Htake _ _ Hj), length_take. cbn. lia.
    + rewrite quota_sum_full, shuf_perm, <-length_app, Hperm. done.
    + rewrite shuf_perm, Hperm in Hfin. cbn.
      eexists _, (final m result). split; [done|]. split.
      * split_and!; [done..|]. apply updates_realise; [done|intros; by rewrite Hout'|done..].
      * intros j n p Hj Hl Hp. destruct (Hpre n) as [l ->]; [by apply list_elem_of_lookup_2 in Hj|].
        apply elem_of_app. left. by eapply Hkeep.
Qed.

Lemma realises_held new fin :
  realises new fin → dom new = fullAssigns ∧ (∀ p n, new !! p = Some n → n ∈ ids) ∧
    ∀ j n, ids !! j = Some n → length (held new n) = quota average remainder j.
Proof.
  intros (Hlen & Hperm & Hnew). split_and!.
  - apply set_eq. intros p. unfold fullAssigns.
    rewrite elem_of_list_to_set, <-Hperm, elem_of_concat_fmap, elem_of_dom. split.
    + intros [n Hn%Hnew]. eauto.
    + intros (n & Hn). exists n. by apply Hnew.
  - intros p n Hp. by apply Hnew in Hp as [? _].
  - intros j n Hj. rewrite <-(Hlen _ _ Hj). apply Permutation_length.
    assert (n ∈ ids) as Hn by (by apply list_elem_of_lookup_2 in Hj).
    apply NoDup_Permutation; [apply NoDup_held| |].
    + assert (NoDup (concat (fin <$> ids))) as Hnd by (rewrite Hperm; apply hex_prefixes_nodup).
      apply list_elem_of_split in Hn as (l1 & l2 & ->). rewrite fmap_app, concat_app in Hnd.
      rewrite concat_fmap_cons in Hnd. apply NoDup_app in Hnd as (_ & _ & Hnd).
      by apply NoDup_app in Hnd as (? & _ & _).
    + intros p. rewrite elem_of_held, Hnew. naive_solver.
Qed.

(** A balanced assignment is left alone. *)
Lemma distribute_balanced_none ch :
  dom cur = fullAssigns → (∀ p n, cur !! p = Some n → n ∈ ids) →
  (∀ j n, ids !! j = Some n → length (held cur n) = quota average remainder j) →
  distribute ch ids cur = Ok None.
Proof.
  intros Hfull Halive Hq. rewrite distribute_unfold. cbn zeta.
  rewrite trim_noop.
  - rewrite decide_True; [done|]. apply list_nil_subseteq. intros p.
    rewrite elem_of_init_pool, srange_elem, <-Hfull, elem_of_dom.
    intros [[n Hn] Hno]. exfalso. apply (Hno n Hn). apply elem_of_list_to_set. eauto.
  - intros j n Hj. cbn. rewrite <-(Hq _ _ Hj). apply submseteq_length, NoDup_submseteq.
    + apply NoDup_group.
    + intros p [_ Hp]%elem_of_group. by apply elem_of_held.
Qed.
End whole.

(** ** Properties of the assignment *)

(** C12: for any set of alive nodes and any current assignment of the 256
    prefixes, whatever the map iteration orders and the shuffle, [distribute]
    returns without panicking, and after its updates every prefix belongs to
    an alive node and the [j]-th node holds [256 / len] prefixes, one more
    when [j] is below the remainder. *)
Theorem distribute_balanced ch ids cur :
  NoDup ids → ids ≠ [] → dom cur ⊆ fullAssigns →
  ∃ u, distribute ch ids cur = Ok u ∧
    dom (apply_updates cur u) = fullAssigns ∧
    (∀ p n, apply_updates cur u !! p = Some n → n ∈ ids) ∧
    (∀ j n, ids !! j = Some n →
      length (held (apply_updates cur u) n) =
        quota (256 / length ids) (256 mod length ids) j).
Proof.
  intros Hids Hne Hdom.
  destruct (distribute_final ids cur Hids Hne Hdom ch) as (u & fin & Hd & Hr & _).
  exists u. split; [done|]. apply realises_held in Hr; [|done..]. unfold average, remainder in Hr.
  by rewrite size_fullAssigns in Hr.
Qed.

(** Rebalancing moves no more than it must: a node that holds at most
    its quota keeps every one of its prefixes. *)
Theorem distribute_minimal ch ids cur u j n p :
  NoDup ids → ids ≠ [] → dom cur ⊆ fullAssigns → distribute ch ids cur = Ok u →
  ids !! j = Some n →
  length (held cur n) ≤ quota (256 / length ids) (256 mod length ids) j →
  cur !! p = Some n → apply_updates cur u !! p = Some n.
Proof.
  intros Hids Hne Hdom Hd Hj Hle Hp.
  destruct (distribute_final ids cur Hids Hne Hdom ch) as (u' & fin & Hd' & (_ & _ & Hr) & Hk).
  rewrite Hd in Hd'. simplify_eq. apply Hr. split; [by apply list_elem_of_lookup_2 in Hj|].
  eapply Hk; [done| |done]. unfold average, remainder. by rewrite size_fullAssigns.
Qed.

(** Rebalancing is stable: run again on its own result with the same
    alive nodes, whatever the orders and the shuffle of the second run, it
    finds nothing to distribute. *)
Theorem distribute_stable ch ch' ids cur u :
  NoDup ids → ids ≠ [] → dom cur ⊆ fullAssigns → distribute ch ids cur = Ok u →
  distribute ch' ids (apply_updates cur u) = Ok None.
Proof.
  intros Hids Hne Hdom Hd.
  destruct (distribute_final ids cur Hids Hne Hdom ch) as (u' & fin & Hd' & Hr & _).
  rewrite Hd in Hd'. simplify_eq. apply realises_held in Hr as (Hfull & Halive & Hq); [|done..].
  apply distribute_balanced_none; auto.
Qed.

(** ** Witnesses: three nodes take over from a dead node 9 *)

Definition w_ids : list Z := [1; 2; 3]%Z.
Definition w_cur : gmap string Z := {["00" := 9; "01" := 1; "ff" := 2]}%Z.

Lemma w_ids_nodup : NoDup w_ids.
Proof. apply (bool_decide_unpack _). vm_compute. exact I. Qed.
Lemma w_cur_dom : dom w_cur ⊆ fullAssigns.
Proof. apply (bool_decide_unpack _). vm_compute. exact I. Qed.

Lemma distribute_balanced_witness :
  ∃ u, distribute default_choices w_ids w_cur = Ok u ∧
    dom (apply_updates w_cur u) = fullAssigns ∧
    (∀ p n, apply_updates w_cur u !! p = Some n → n ∈ w_ids) ∧
    (∀ j n, w_ids !! j = Some n →
      length (held (apply_updates w_cur u) n) = quota (256 / 3) (256 mod 3) j).
Proof. apply (distribute_balanced default_choices w_ids w_cur w_ids_nodup); [done|apply w_cur_dom]. Defined.

(** The run on the witness succeeds. *)
Lemma w_run : ∃ u, distribute default_choices w_ids w_cur = Ok u.
Proof.
  destruct (distribute_final w_ids w_cur w_ids_nodup ltac:(done) w_cur_dom default_choices)
    as (u & _ & Hu & _). by exists u.
Qed.

Lemma distribute_minimal_witness :
  ∃ u, distribute default_choices w_ids w_cur = Ok u ∧ apply_updates w_cur u !! "ff" = Some 2%Z.
Proof.
  destruct w_run as [u Hu]. exists u. split; [done|].
  apply (distribute_minimal default_choices w_ids w_cur u 1 2%Z "ff" w_ids_nodup);
    [done|apply w_cur_dom|apply Hu|done| |done].
  apply (bool_decide_unpack _). vm_compute. exact I.
Defined.

Lemma distribute_stable_witness :
  ∃ u, distribute default_choices w_ids w_cur = Ok u ∧
    distribute (Choices map_order_rev set_order_default map_order_rev shuffle_rev)
      w_ids (apply_updates w_cur u) = Ok None.
Proof.
  destruct w_run as [u Hu]. exists u. split; [done|].
  apply (distribute_stable default_choices _ w_ids w_cur u w_ids_nodup);
    [done|apply w_cur_dom|apply Hu].
Defined.

End Distribute.

(** * The periodic update and the node registry *)

(** The shapes clusterkit exchanges with etcd. *)
Record ClusterNode := mkNode { ID : Z; URL : string }.
Record Heartbeat := mkHeartbeat { HeartbeatNodeID : Z }.
Record Assign := mkAssign { Prefix : string; NodeID : Z }.

#[global] Instance ClusterNode_eq_dec : EqDecision ClusterNode.
Proof. solve_decision. Defined.
#[global] Instance Assign_eq_dec : EqDecision Assign.
Proof. solve_decision. Defined.

Module Manager.
Import Distribute.

(** [hash[assign.Prefix] = assign.NodeID] for every listed assignment: the
    last one for a prefix wins. *)
Definition assign_map (assigns : list Assign) : gmap string Z :=
  foldl (λ m a, <[Prefix a := NodeID a]> m) ∅ assigns.

(** The heartbeats of nodes that are still registered. *)
Definition alive_nodes (hbs : list Heartbeat) (nodes : list ClusterNode) : list Z :=
  HeartbeatNodeID <$> filter (λ hb, Exists (λ node, ID node = HeartbeatNodeID hb) nodes) hbs.

(** [updateAssigns].  The etcd calls are its inputs: what
    [clusterkit.ListHeartbeats], [GetClusterNodes] and [ListAssigns] returned
    and whether [SetAssigns] fails.  The second component is the argument of
    the [SetAssigns] call, when there is one. *)
Definition updateAssigns (ch : choices) (ord_updates : map_order string Z)
    (hbs : res (list Heartbeat)) (cluster : res (list ClusterNode)) (assigns : res (list Assign))
    (SetAssigns_err : option string) : res unit * option (list Assign) :=
  match hbs with
  | Panic p => (Panic p, None)
  | Err e => (Err ("failed to list heartbeats: " +:+ e), None)
  | Ok hbs =>
  match cluster with
  | Panic p => (Panic p, None)
  | Err e => (Err ("failed to get cluster nodes: " +:+ e), None)
  | Ok nodes =>
  let alive := alive_nodes hbs nodes in
  if decide (alive = []) then (Ok tt, None)
  else
  match assigns with
  | Panic p => (Panic p, None)
  | Err e => (Err ("failed to list assigns: " +:+ e), None)
  | Ok assigns =>
  let alive := merge_sort Z.le alive in
  match distribute ch alive (assign_map assigns) with
  | Panic p => (Panic p, None)
  | Err e => (Err e, None)
  | Ok h =>
      let h := default ∅ h in
      if decide (0 < size h) then
        let updates := (λ kv, mkAssign kv.1 kv.2) <$> range ord_updates h in
        match SetAssigns_err with
        | Some e => (Err ("failed to set assigns: " +:+ e), Some updates)
        | None => (Ok tt, Some updates)
        end
      else (Ok tt, None)
  end end end end.

(** The assignment stored after the call: [SetAssigns] puts every pair it is
    given over the stored ones. *)
Definition stored_after (assigns : list Assign) (written : option (list Assign)) : gmap string Z :=
  assign_map (assigns ++ default [] written).

Lemma assign_map_app l1 l2 :
  assign_map (l1 ++ l2) = foldl (λ m a, <[Prefix a := NodeID a]> m) (assign_map l1) l2.
Proof. unfold assign_map. by rewrite foldl_app. Qed.

Lemma foldl_insert_lookup (m : gmap string Z) l p :
  NoDup (Prefix <$> l) →
  foldl (λ m a, <[Prefix a := NodeID a]> m) m l !! p =
  (list_to_map ((λ a, (Prefix a, NodeID a)) <$> l) ∪ m) !! p.
Proof.
  revert m. induction l as [|a l IH]; intros m; [cbn; by rewrite (left_id_L ∅ (∪))|].
  rewrite fmap_cons. intros [Ha Hl]%NoDup_cons. cbn [foldl]. rewrite IH by done.
  rewrite fmap_cons. cbn [list_to_map foldr uncurry].
  rewrite <-insert_union_l, insert_union_r; [done|].
  apply not_elem_of_list_to_map_1. rewrite <-list_fmap_compose.
  intros (b & Hb & Hin)%list_elem_of_fmap. apply Ha. cbn in Hb. rewrite Hb.
  apply list_elem_of_fmap. eauto.
Qed.

(** Writing the updates of [distribute] stores [apply_updates]. *)
Lemma stored_after_updates (ord : map_order string Z) assigns (h : gmap string Z) :
  stored_after assigns (Some ((λ kv, mkAssign kv.1 kv.2) <$> range ord h)) = h ∪ assign_map assigns.
Proof.
  unfold stored_after. cbn [default from_option]. unfold id. rewrite assign_map_app. apply map_eq. intros p.
  rewrite foldl_insert_lookup.
  - f_equal. f_equal. rewrite <-list_fmap_compose.
    rewrite (list_fmap_ext _ id) by (by intros ? []). rewrite list_fmap_id.
    rewrite <-(list_to_map_to_list h) at 2. apply list_to_map_proper; [apply range_nodup|].
    apply range_perm.
  - rewrite <-list_fmap_compose. rewrite (list_fmap_ext _ fst) by (by intros ? []).
    apply range_nodup.
Qed.

Lemma NoDup_alive hbs nodes :
  NoDup (HeartbeatNodeID <$> hbs) → NoDup (alive_nodes hbs nodes).
Proof. apply NoDup_fmap_filter. Qed.

(** One successful run of [updateAssigns] over well-formed etcd data
    leaves an assignment in which every one of the 256 prefixes belongs to a
    registered node with a heartbeat, and the loads of two such nodes differ
    by at most one. *)
Theorem updateAssigns_balances ch ord hbs nodes assigns :
  NoDup (HeartbeatNodeID <$> hbs) → alive_nodes hbs nodes ≠ [] →
  dom (assign_map assigns) ⊆ fullAssigns →
  ∃ w, updateAssigns ch ord (Ok hbs) (Ok nodes) (Ok assigns) None = (Ok tt, w) ∧
    dom (stored_after assigns w) = fullAssigns ∧
    (∀ p n, stored_after assigns w !! p = Some n → n ∈ alive_nodes hbs nodes) ∧
    (∀ n1 n2, n1 ∈ alive_nodes hbs nodes → n2 ∈ alive_nodes hbs nodes →
      length (held (stored_after assigns w) n1) ≤ S (length (held (stored_after assigns w) n2))).
Proof.
  intros Hhb Hne Hdom. set (alive := alive_nodes hbs nodes) in *.
  assert (merge_sort Z.le alive ≡ₚ alive) as Hperm by apply merge_sort_Permutation.
  assert (NoDup (merge_sort Z.le alive)) by (rewrite Hperm; by apply NoDup_alive).
  assert (merge_sort Z.le alive ≠ []).
  { intros E. rewrite E in Hperm. by apply Permutation_nil_l in Hperm. }
  destruct (distribute_final (merge_sort Z.le alive) (assign_map assigns)) with (ch := ch)
    as (u & fin & Hd & Hr & _).
  { done. }
  { done. }
  { done. }
  apply realises_held in Hr as (Hfull & Halive & Hq); [|done..].
  set (w := match u with
            | Some h => if decide (0 < size h) then
                Some ((λ kv, mkAssign kv.1 kv.2) <$> range ord h) else None
            | None => None end).
  assert (stored_after assigns w = apply_updates (assign_map assigns) u) as Hw.
  { unfold w. destruct u as [h|]; cbn [apply_updates]; [|unfold stored_after; by rewrite app_nil_r].
    case_decide as Hsz; [apply stored_after_updates|].
    assert (h = ∅) as -> by (apply map_size_empty_inv; lia).
    unfold stored_after. by rewrite app_nil_r, (left_id_L ∅ (∪)). }
  exists w. rewrite !Hw. split_and!; [|done| |].
  - unfold updateAssigns. fold alive. rewrite decide_False by done. rewrite Hd.
    unfold w. destruct u as [h|]; cbn [default from_option]; unfold id; [by case_decide|].
    by rewrite map_size_empty.
  - intros p n Hp%Halive. by rewrite <-Hperm.
  - intros n1 n2. rewrite <-Hperm. intros [j1 H1]%list_elem_of_lookup [j2 H2]%list_elem_of_lookup.
    rewrite (Hq _ _ H1), (Hq _ _ H2). unfold quota. case_decide; case_decide; lia.
Qed.

Lemma updateAssigns_balances_witness :
  ∃ w, updateAssigns default_choices map_order_default
      (Ok [mkHeartbeat 2; mkHeartbeat 7; mkHeartbeat 1]%Z)
      (Ok [mkNode 1 "http://a"; mkNode 2 "http://b"]%Z) (Ok [mkAssign "00" 9]%Z) None = (Ok tt, w) ∧
    dom (stored_after [mkAssign "00" 9]%Z w) = fullAssigns ∧
    (∀ p n, stored_after [mkAssign "00" 9]%Z w !! p = Some n → n ∈ [2; 1]%Z) ∧
    (∀ n1 n2, n1 ∈ [2; 1]%Z → n2 ∈ [2; 1]%Z →
      length (held (stored_after [mkAssign "00" 9]%Z w) n1) ≤
      S (length (held (stored_after [mkAssign "00" 9]%Z w) n2))).
Proof.
  apply (updateAssigns_balances default_choices map_order_default
    [mkHeartbeat 2; mkHeartbeat 7; mkHeartbeat 1]%Z
    [mkNode 1 "http://a"; mkNode 2 "http://b"]%Z [mkAssign "00" 9]%Z).
  - apply (bool_decide_unpack _). vm_compute. exact I.
  - done.
  - apply (bool_decide_unpack _). vm_compute. exact I.
Defined.

End Manager.

(** The node registry of cmd/cluster-manager/http.go. *)
Module Registry.

Record response := mkResponse { code : Z; body : string }.
Definition StatusOK : Z := 200.
Definition StatusBadRequest : Z := 400.
Definition StatusInternalServerError : Z := 500.

(** [slices.Contains(ids, id)] and [slices.IndexFunc]. *)
Definition contains_id (ids : list Z) (id : Z) : bool := bool_decide (id ∈ ids).

Fixpoint index_of (nodes : list ClusterNode) (id : Z) : option nat :=
  match nodes with
  | [] => None
  | n :: rest => if decide (ID n = id) then Some 0 else S <$> index_of rest id
  end.

Section handlers.
(** [url.Parse]: the text of its error, if any. *)
Variable url_parse_err : string → option string.

(** The checks on one requested node, shared by the two loops; [None] when
    the node is accepted. *)
Definition check_url (empty_msg url : string) : option response :=
  if decide (url = "") then Some (mkResponse StatusBadRequest empty_msg)
  else match url_parse_err url with
       | Some e => Some (mkResponse StatusBadRequest ("failed to parse node url: " +:+ e))
       | None => None
       end.

(** The loop of [createClusterNodes]; [ids] is computed before the loop. *)
Fixpoint create_loop (ids : list Z) (req nodes : list ClusterNode) : response + list ClusterNode :=
  match req with
  | [] => inr nodes
  | node :: rest =>
      if decide (ID node = 0%Z) then inl (mkResponse StatusBadRequest "node id must be non-zero")
      else if contains_id ids (ID node) then
        inl (mkResponse StatusBadRequest ("node id " +:+ pretty (ID node) +:+ " already exist"))
      else match check_url "node url must be specified" (URL node) with
           | Some r => inl r
           | None => create_loop ids rest (nodes ++ [mkNode (ID node) (URL node)])
           end
  end.

(** What a handler does: its response and the [SetClusterNode] call it makes. *)
Definition store (nodes : list ClusterNode) (set_err : option string) :
    response * option (list ClusterNode) :=
  match set_err with
  | Some _ => (mkResponse StatusInternalServerError "", Some nodes)
  | None => (mkResponse StatusOK "", Some nodes)
  end.

Definition createClusterNodes (req cluster : res (list ClusterNode)) (set_err : option string) :
    response * option (list ClusterNode) :=
  match req, cluster with
  | Ok req, Ok nodes =>
      match create_loop (ID <$> nodes) req nodes with
      | inl r => (r, None)
      | inr nodes' => store nodes' set_err
      end
  | Ok _, _ => (mkResponse StatusInternalServerError "", None)
  | _, _ => (mkResponse StatusBadRequest "", None)
  end.

Fixpoint update_loop (req nodes : list ClusterNode) : response + list ClusterNode :=
  match req with
  | [] => inr nodes
  | node :: rest =>
      if decide (ID node = 0%Z) then inl (mkResponse StatusBadRequest "node id must be non-zero")
      else match index_of nodes (ID node) with
           | None => inl (mkResponse StatusBadRequest ("node id " +:+ pretty (ID node) +:+ " not found"))
           | Some i =>
               match check_url "node addr must be specified" (URL node) with
               | Some r => inl r
               | None => update_loop rest (alter (λ n, mkNode (ID n) (URL node)) i nodes)
               end
           end
  end.

Definition updateClusterNodes (req cluster : res (list ClusterNode)) (set_err : option string) :
    response * option (list ClusterNode) :=
  match req, cluster with
  | Ok req, Ok nodes =>
      match update_loop req nodes with
      | inl r => (r, None)
      | inr nodes' => store nodes' set_err
      end
  | Err e, _ => (mkResponse StatusBadRequest e, None)
  | Panic _, _ => (mkResponse StatusBadRequest "", None)
  | Ok _, _ => (mkResponse StatusInternalServerError "", None)
  end.

(** [slices.DeleteFunc] for every requested id in turn. *)
Definition delete_nodes (ids : list Z) (nodes : list ClusterNode) : list ClusterNode :=
  foldl (λ ns id, filter (λ n, ID n ≠ id) ns) nodes ids.

Definition deleleClusterNodes (req : res (list Z)) (cluster : res (list ClusterNode))
    (set_err : option string) : response * option (list ClusterNode) :=
  match req, cluster with
  | Ok ids, Ok nodes => store (delete_nodes ids nodes) set_err
  | Ok _, _ => (mkResponse StatusInternalServerError "", None)
  | _, _ => (mkResponse StatusBadRequest "", None)
  end.

(** [listClusterNodes]: a node is alive when it has a heartbeat. *)
Record ListClusterNodesResponse := mkList { NodeId : Z; NodeURL : string; Alive : bool }.

Definition listClusterNodes (cluster : res (list ClusterNode)) (beats : res (list Heartbeat)) :
    response + list ListClusterNodesResponse :=
  match cluster, beats with
  | Ok nodes, Ok beats =>
      let alive : gset Z := list_to_set (HeartbeatNodeID <$> beats) in
      inr ((λ n, mkList (ID n) (URL n) (bool_decide (ID n ∈ alive))) <$> nodes)
  | _, _ => inl (mkResponse StatusInternalServerError "")
  end.

(** ** Properties of the registry *)

(** An accepted node: nonzero id, non-empty URL that parses. *)
Definition valid (n : ClusterNode) : Prop :=
  ID n ≠ 0%Z ∧ URL n ≠ "" ∧ url_parse_err (URL n) = None.

Lemma check_url_None msg url :
  check_url msg url = None ↔ url ≠ "" ∧ url_parse_err url = None.
Proof. unfold check_url. case_decide; [naive_solver|]. destruct (url_parse_err url); naive_solver. Qed.

Lemma create_loop_inr ids req nodes nodes' :
  create_loop ids req nodes = inr nodes' ↔
  nodes' = nodes ++ req ∧ ∀ n, n ∈ req → valid n ∧ ID n ∉ ids.
Proof.
  revert nodes. induction req as [|n req IH]; intros nodes; cbn [create_loop].
  { rewrite app_nil_r. split; [intros [= ->]; split; set_solver|naive_solver]. }
  unfold contains_id. setoid_rewrite elem_of_cons.
  case_decide as H0; [split; [done|]; unfold valid; naive_solver|].
  case_bool_decide as H1; [split; [done|]; naive_solver|].
  destruct (check_url _ _) eqn:Hc.
  { split; [done|]. intros [_ Hn]. destruct (Hn n) as [(? & Hu) ?]; [by left|].
    apply (check_url_None "node url must be specified") in Hu. congruence. }
  apply check_url_None in Hc. rewrite IH. destruct n as [i u]. cbn in *.
  rewrite <-app_assoc. cbn. unfold valid. naive_solver.
Qed.

(** [createClusterNodes] stores a new registry exactly when every
    requested node has a nonzero id not yet registered and a non-empty URL
    that parses; what it stores is the old registry followed by the request,
    and in every other case the registry is not written. *)
Theorem createClusterNodes_spec req nodes w :
  (createClusterNodes (Ok req) (Ok nodes) None).2 = Some w ↔
  w = nodes ++ req ∧ ∀ n, n ∈ req → valid n ∧ ID n ∉ ID <$> nodes.
Proof.
  unfold createClusterNodes. rewrite <-create_loop_inr.
  destruct (create_loop _ _ _); cbn; naive_solver.
Qed.

Lemma index_of_lookup nodes id i : index_of nodes id = Some i → ∃ n, nodes !! i = Some n ∧ ID n = id.
Proof.
  revert i. induction nodes as [|n nodes IH]; intros i; cbn; [done|].
  case_decide; [intros [= <-]; by exists n|].
  destruct (index_of nodes id) as [k|]; cbn; intros [= <-]. by apply IH.
Qed.

Lemma update_loop_ids req nodes nodes' :
  update_loop req nodes = inr nodes' → ID <$> nodes' = ID <$> nodes.
Proof.
  revert nodes. induction req as [|n req IH]; intros nodes; cbn; [by intros [= ->]|].
  case_decide; [done|]. destruct (index_of nodes (ID n)) as [i|] eqn:Hi; [|done].
  destruct (check_url _ _); [done|]. intros ->%IH.
  apply list_eq. intros k. rewrite !list_lookup_fmap.
  destruct (decide (i = k)) as [<-|Hk].
  - rewrite list_lookup_alter_eq. by destruct (nodes !! i).
  - by rewrite list_lookup_alter_ne.
Qed.

(** [updateClusterNodes] never changes which ids are registered, in what
    order or how often: whatever it stores has the id list it read. *)
Theorem updateClusterNodes_keeps_ids req cluster set_err w nodes :
  (updateClusterNodes req cluster set_err).2 = Some w → cluster = Ok nodes →
  ID <$> w = ID <$> nodes.
Proof.
  unfold updateClusterNodes. intros Hw ->. destruct req as [req| |]; try done.
  destruct (update_loop req nodes) as [|nodes'] eqn:E; [done|].
  apply update_loop_ids in E. unfold store in Hw. by destruct set_err; cbn in Hw; simplify_eq.
Qed.

Lemma elem_of_delete_nodes ids nodes n :
  n ∈ delete_nodes ids nodes ↔ n ∈ nodes ∧ ID n ∉ ids.
Proof.
  unfold delete_nodes. revert nodes. induction ids as [|i ids IH]; intros nodes; cbn [foldl].
  - rewrite elem_of_nil. naive_solver.
  - rewrite IH, list_elem_of_filter, elem_of_cons. naive_solver.
Qed.

(** After [deleleClusterNodes] a node is registered exactly when it was
    and its id was not in the request. *)
Theorem deleleClusterNodes_spec ids nodes n :
  ∃ w, deleleClusterNodes (Ok ids) (Ok nodes) None = (mkResponse StatusOK "", Some w) ∧
    (n ∈ w ↔ n ∈ nodes ∧ ID n ∉ ids) ∧ w `sublist_of` nodes.
Proof.
  exists (delete_nodes ids nodes). split; [done|]. split; [apply elem_of_delete_nodes|].
  unfold delete_nodes. revert nodes. induction ids as [|i ids IH]; intros nodes; cbn; [done|].
  etrans; [apply IH|]. apply sublist_filter.
Qed.

(** The duplicate check of [createClusterNodes] compares a requested
    node with the stored registry only: a request that names one new node
    twice is accepted, and the registry then holds two nodes with that id. *)
Theorem createClusterNodes_duplicate n nodes :
  valid n → ID n ∉ ID <$> nodes →
  createClusterNodes (Ok [n; n]) (Ok nodes) None = (mkResponse StatusOK "", Some (nodes ++ [n; n])) ∧
  ¬ NoDup (ID <$> nodes ++ [n; n]).
Proof.
  intros Hv Hn. split.
  - unfold createClusterNodes.
    rewrite (proj2 (create_loop_inr (ID <$> nodes) [n; n] nodes (nodes ++ [n; n]))); [done|].
    split; [done|]. intros n' Hn'. assert (n' = n) as -> by set_solver. done.
  - rewrite fmap_app, NoDup_app. intros (_ & _ & [Hin _]%NoDup_cons). cbn in Hin. set_solver.
Qed.

End handlers.

Lemma updateClusterNodes_keeps_ids_witness :
  (updateClusterNodes (λ _, None) (Ok [mkNode 2 "http://c"]%Z)
    (Ok [mkNode 1 "http://a"; mkNode 2 "http://b"]%Z) None).2
    = Some [mkNode 1 "http://a"; mkNode 2 "http://c"]%Z ∧
  ID <$> [mkNode 1 "http://a"; mkNode 2 "http://c"]%Z = [1; 2]%Z.
Proof.
  split; [reflexivity|].
  apply (updateClusterNodes_keeps_ids (λ _, None) (Ok [mkNode 2 "http://c"]%Z)
    (Ok [mkNode 1 "http://a"; mkNode 2 "http://b"]%Z) None _
    [mkNode 1 "http://a"; mkNode 2 "http://b"]%Z); reflexivity.
Defined.

Lemma createClusterNodes_duplicate_witness :
  createClusterNodes (λ _, None) (Ok [mkNode 2 "http://b"; mkNode 2 "http://b"]%Z)
    (Ok [mkNode 1 "http://a"]%Z) None =
    (mkResponse StatusOK "", Some [mkNode 1 "http://a"; mkNode 2 "http://b"; mkNode 2 "http://b"]%Z).
Proof.
  apply (createClusterNodes_duplicate (λ _, None) (mkNode 2 "http://b")%Z [mkNode 1 "http://a"]%Z).
  - by repeat split.
  - apply (bool_decide_unpack _). vm_compute. exact I.
Defined.

End Registry.
