(* ===== verification/Routing.v ===== *)
(** Which node serves an index: the node side (pkg/cluster/cluster.go), the
    proxy side (cmd/zinc-proxy/proxy.go), and the distribution of one search
    over several nodes (cmd/zinc-proxy/parallel_query.go, with
    [PartialIndexes] of pkg/core/multi_search.go). *)
From S2P Require Import Prelude Hash ClusterManager.

(** * A compute node: pkg/cluster/cluster.go *)

Module Node.

(** The package state: the partitions this node owns and the maps sent on
    [UnassignChan], oldest first. *)
Record state := mkState { assignMap : gset string; unassign_sent : list (gset string) }.

Definition init : state := mkState ∅ [].

Section node.
(** [config.Global.Cluster.NodeId] and [config.Global.Cluster.Enable]. *)
Variables (self : Z) (enable : bool).

(** [updateAssigns]: both maps are rebuilt from the listed assignments. *)
Definition updateAssigns (st : state) (assigns : res (list Assign)) : res state :=
  match assigns with
  | Err e => Err ("failed to list assigns: " +:+ e)
  | Panic p => Panic p
  | Ok assigns =>
      let '(am, um) := foldl (λ '(am, um) a,
        if decide (NodeID a = self) then ({[Prefix a]} ∪ am, um) else (am, {[Prefix a]} ∪ um))
        (∅, ∅) assigns in
      Ok (mkState am (unassign_sent st ++ [um]))
  end.

(** [watchAssigns]: one update, then one per watch event, until an update
    fails or the watch ends.  The list holds what the successive [ListAssigns]
    calls return. *)
Fixpoint watchAssigns (st : state) (lists : list (res (list Assign))) : state :=
  match lists with
  | [] => st
  | l :: lists => match updateAssigns st l with
                  | Ok st' => watchAssigns st' lists
                  | _ => st
                  end
  end.

(** One turn of the loop of [syncAssigns]: when the watch is over, for
    whatever reason, the owned partitions are forgotten. *)
Definition syncAssigns_turn (st : state) (lists : list (res (list Assign))) : state :=
  let st' := watchAssigns st lists in
  mkState ∅ (unassign_sent st').

Definition AssignCheck (st : state) (indexName : string) : bool :=
  if negb enable then true else bool_decide (partition_of indexName ∈ assignMap st).

Lemma updateAssigns_fold (assigns : list Assign) (am um : gset string) p :
  let r := foldl (λ '(am, um) a,
        if decide (NodeID a = self) then ({[Prefix a]} ∪ am, um) else (am, {[Prefix a]} ∪ um))
        (am, um) assigns in
  (p ∈ r.1 ↔ p ∈ am ∨ mkAssign p self ∈ assigns) ∧
  (p ∈ r.2 ↔ p ∈ um ∨ ∃ n, n ≠ self ∧ mkAssign p n ∈ assigns).
Proof.
  revert am um. induction assigns as [|[q n] assigns IH]; intros am um; cbn zeta.
  { cbn. set_solver. }
  cbn [foldl]. cbn zeta in IH. cbn [Prefix NodeID].
  case_decide as Hn; rewrite (proj1 (IH _ _)), (proj2 (IH _ _)); subst.
  - setoid_rewrite elem_of_cons. split; [set_solver|]. naive_solver.
  - setoid_rewrite elem_of_cons. split; [naive_solver|]. rewrite elem_of_union, elem_of_singleton.
    naive_solver.
Qed.

Lemma updateAssigns_ok st assigns st' :
  updateAssigns st (Ok assigns) = Ok st' →
  (∀ p, p ∈ assignMap st' ↔ mkAssign p self ∈ assigns) ∧
  ∃ um, unassign_sent st' = unassign_sent st ++ [um] ∧
    ∀ p, p ∈ um ↔ ∃ n, n ≠ self ∧ mkAssign p n ∈ assigns.
Proof.
  unfold updateAssigns. pose proof (updateAssigns_fold assigns ∅ ∅) as Hf. cbn zeta in Hf.
  destruct (foldl _ _ _) as [am um]. cbn in Hf. intros [= <-]. cbn. split.
  - intros p. rewrite (proj1 (Hf p)). set_solver.
  - exists um. split; [done|]. intros p. rewrite (proj2 (Hf p)). set_solver.
Qed.

(** A node that loses its watch serves nothing: after the watch loop
    ends, for any sequence of assignment lists and errors, [AssignCheck]
    refuses every index in cluster mode. *)
Theorem sync_lost_fails_closed st lists indexName :
  enable = true → AssignCheck (syncAssigns_turn st lists) indexName = false.
Proof. intros He. unfold AssignCheck, syncAssigns_turn. rewrite He. by apply bool_decide_eq_false. Qed.

End node.

Lemma sync_lost_fails_closed_witness :
  AssignCheck true (syncAssigns_turn 1 init
    [Ok [mkAssign (partition_of "books") 1]; Err "etcd down"])%Z "books" = false.
Proof. by apply (sync_lost_fails_closed 1%Z true). Defined.

End Node.

(** * The proxy: cmd/zinc-proxy/proxy.go *)

Module Proxy.

Record nodeInfo := mkInfo { id : Z; addr : string }.

Record state := mkState {
  nodeMp : gmap Z string;
  nodeList : list nodeInfo;
  assignMp : gmap string Z
}.

Definition init : state := mkState ∅ [] ∅.

Definition info_le (a b : nodeInfo) : Prop := (id a ≤ id b)%Z.
#[global] Instance info_le_dec : RelDecision info_le.
Proof. intros a b. unfold info_le. apply _. Defined.
#[global] Instance info_le_total : Total info_le.
Proof. intros a b. unfold info_le. lia. Qed.
#[global] Instance info_le_trans : Transitive info_le.
Proof. intros a b c. unfold info_le. lia. Qed.

(** [updateNodeMp]: the last URL registered for an id wins in the map; the
    list is sorted by id. *)
Definition updateNodeMp (st : state) (nodes : res (list ClusterNode)) : res state :=
  match nodes with
  | Err e => Err ("failed to get cluster nodes: " +:+ e)
  | Panic p => Panic p
  | Ok nodes =>
      Ok (mkState (foldl (λ m n, <[ID n := URL n]> m) ∅ nodes)
            (merge_sort info_le ((λ n, mkInfo (ID n) (URL n)) <$> nodes))
            (assignMp st))
  end.

Definition updateAssigns (st : state) (assigns : res (list Assign)) : res state :=
  match assigns with
  | Err e => Err ("failed to list assigns: " +:+ e)
  | Panic p => Panic p
  | Ok assigns => Ok (mkState (nodeMp st) (nodeList st) (Manager.assign_map assigns))
  end.

Definition getAssignNodeByIndex (st : state) (indexName : string) : option Z :=
  assignMp st !! partition_of indexName.

Definition GetAddrByIndex (st : state) (indexName : string) : res string :=
  match getAssignNodeByIndex st indexName with
  | None => Err ("the index: " +:+ indexName +:+ " is not assigned to any node")
  | Some nodeId =>
      match nodeMp st !! nodeId with
      | None => Err ("the node " +:+ pretty nodeId +:+ " for index: " +:+ indexName +:+
                     " is not registered in etcd")
      | Some a => Ok a
      end
  end.

Definition GetNodeList (st : state) : list nodeInfo :=
  (λ item, mkInfo (id item) (addr item)) <$> nodeList st.

Lemma assign_map_lookup assigns p n :
  NoDup (Prefix <$> assigns) →
  Manager.assign_map assigns !! p = Some n ↔ mkAssign p n ∈ assigns.
Proof.
  intros Hnd. unfold Manager.assign_map. rewrite Manager.foldl_insert_lookup by done.
  rewrite (right_id_L ∅ (∪)). rewrite <-elem_of_list_to_map.
  - rewrite list_elem_of_fmap. split; [intros ([q m] & [= -> ->] & ?); done|].
    intros Hin. by exists (mkAssign p n).
  - by rewrite <-list_fmap_compose.
Qed.

(** Proxy and nodes agree.  When the assignment list they all read is
    one the cluster manager stored (every prefix assigned once), the proxy
    finds exactly one owner for every index name, that node accepts the
    index and every other node refuses it. *)
Theorem routing_agrees assigns pst pst' indexName :
  NoDup (Prefix <$> assigns) → list_to_set (Prefix <$> assigns) = Distribute.fullAssigns →
  updateAssigns pst (Ok assigns) = Ok pst' →
  ∃ n, getAssignNodeByIndex pst' indexName = Some n ∧
    ∀ self st st', Node.updateAssigns self st (Ok assigns) = Ok st' →
      Node.AssignCheck true st' indexName = bool_decide (self = n).
Proof.
  intros Hnd Hfull [= <-]. unfold getAssignNodeByIndex. cbn.
  assert (partition_of indexName ∈ (list_to_set (Prefix <$> assigns) : gset string)) as Hp.
  { rewrite Hfull. apply elem_of_list_to_set, partition_of_in. }
  apply elem_of_list_to_set, list_elem_of_fmap in Hp as ([p n] & Hpe & Hin). cbn in Hpe.
  exists n. split; [apply assign_map_lookup; [done|by rewrite Hpe]|].
  intros self st st' [Hown _]%Node.updateAssigns_ok. unfold Node.AssignCheck. cbn.
  apply bool_decide_ext. rewrite Hown, Hpe, <-!assign_map_lookup by done.
  apply assign_map_lookup in Hin; [|done]. rewrite Hin. naive_solver.
Qed.

Definition w_assigns : list Assign := (λ p, mkAssign p (if decide (p = "00") then 2 else 1)%Z) <$> hex_prefixes.

Lemma routing_agrees_witness :
  ∃ n, getAssignNodeByIndex (mkState ∅ [] (Manager.assign_map w_assigns)) "books" = Some n ∧
    ∀ self st st', Node.updateAssigns self st (Ok w_assigns) = Ok st' →
      Node.AssignCheck true st' "books" = bool_decide (self = n).
Proof.
  apply (routing_agrees w_assigns init); [| |reflexivity].
  - apply (bool_decide_unpack _). vm_compute. exact I.
  - apply (bool_decide_unpack _). vm_compute. exact I.
Defined.

End Proxy.

(** * Spreading a search: cmd/zinc-proxy/parallel_query.go *)

Module Parallel.
Import Proxy.

(** [core.PartialIndexes]: index -> second shard ids; an empty list stands
    for the whole index. *)
Abbreviation PartialIndexes := (gmap string (list Z)).

(** node address -> index -> second shard ids *)
Abbreviation NodeIndexMap := (gmap string PartialIndexes).

Definition AddSecondShardId (p : PartialIndexes) (index : string) (i : Z) : PartialIndexes :=
  match p !! index with
  | Some ids => <[index := ids ++ [i]]> p
  | None => <[index := [i]]> p
  end.

Definition CreatePartialIndexes (index : string) (ids : list Z) : PartialIndexes := {[index := ids]}.

(** What the proxy reads of an index's metadata: the ids of the second-layer
    shards of each first-layer shard. *)
Record IndexMeta := mkMeta { ShardNum : Z; Shards : gmap string (list Z) }.

(** The outcomes of [metadata.Index.Get] the caller tells apart. *)
Inductive get_meta := Found (m : IndexMeta) | KeyNotFound | OtherErr (e : string).

(** [queryNodes] and its round-robin cursor. *)
Record queryNodes := mkQN { addrs : list nodeInfo; cur : nat }.

Definition Next (t : queryNodes) : res (nodeInfo * queryNodes) :=
  match addrs t !! cur t with
  | None => Panic PIndex
  | Some r =>
      Ok (r, mkQN (addrs t) (if decide (cur t + 1 = length (addrs t)) then 0 else cur t + 1))
  end.

(** The position of the owner in the node list; 0 when it is not listed. *)
Fixpoint owner_index (nodeId : Z) (l : list nodeInfo) (idx : nat) : nat :=
  match l with
  | [] => 0
  | n :: l => if decide (id n = nodeId) then idx else owner_index nodeId l (S idx)
  end.

(** [for range nodeNum]: consecutive nodes, wrapping around. *)
Fixpoint take_nodes (nodeNum : nat) (nodeList : list nodeInfo) (i : nat) : res (list nodeInfo) :=
  match nodeNum with
  | O => Ok []
  | S nodeNum =>
      match nodeList !! i with
      | None => Panic PIndex
      | Some n =>
          rest ← take_nodes nodeNum nodeList (if decide (i + 1 = length nodeList) then 0 else i + 1);
          Ok (n :: rest)
      end
  end.

Section search.
(** [conf.General.ParallelQueryNodeLimit] and [ParallelQueryThreshold]. *)
Variables (NodeLimit Threshold : Z).
Variable st : state.

Definition getQueryNodes (nodeList : list nodeInfo) (indexName : string) : res queryNodes :=
  let nodeNum := Z.to_nat (Z.min (Z.of_nat (length nodeList)) NodeLimit) in
  match getAssignNodeByIndex st indexName with
  | None => Err ("cannot find assign node for " +:+ indexName)
  | Some nodeId =>
      l ← take_nodes nodeNum nodeList (owner_index nodeId nodeList 0);
      Ok (mkQN l 0)
  end.

(** One second shard to the next node. *)
Definition assign_shard (index : string) (acc : NodeIndexMap * queryNodes) (shard : Z) :
    res (NodeIndexMap * queryNodes) :=
  let '(m, nodes) := acc in
  '(n, nodes) ← Next nodes;
  match m !! addr n with
  | Some p => Ok (<[addr n := AddSecondShardId p index shard]> m, nodes)
  | None => Ok (<[addr n := CreatePartialIndexes index [shard]]> m, nodes)
  end.

(** The body of the loop over the requested indexes. *)
Definition assign_index (ord : map_order string (list Z)) (get : string → get_meta)
    (nodeList : list nodeInfo) (m : NodeIndexMap) (index : string) : res NodeIndexMap :=
  match get index with
  | KeyNotFound => Ok m
  | OtherErr e => Err e
  | Found meta =>
      let secondShardList := concat (range ord (Shards meta)).*2 in
      if decide (ShardNum meta ≠ 1%Z ∨ (Z.of_nat (length secondShardList) < Threshold)%Z) then
        a ← GetAddrByIndex st index;
        match m !! a with
        | Some p => Ok (<[a := <[index := []]> p]> m)
        | None => Ok (<[a := CreatePartialIndexes index []]> m)
        end
      else
        nodes ← getQueryNodes nodeList index;
        '(m, _) ← foldM (assign_shard index) (m, nodes) secondShardList;
        Ok m
  end.

Definition calcNodeIndexMap (ord : map_order string (list Z)) (get : string → get_meta)
    (indexes : list string) : res NodeIndexMap :=
  let nodeList := GetNodeList st in
  if decide (nodeList = []) then Ok ∅
  else foldM (assign_index ord get nodeList) ∅ indexes.


(** ** Who searches what *)

(** For one index: which node searches which second shards. *)
Definition column (m : NodeIndexMap) (index : string) : gmap string (list Z) :=
  omap (λ p : PartialIndexes, p !! index) m.

(** All second shards searched by somebody, with repetitions. *)
Definition searched (c : gmap string (list Z)) : list Z := concat (map_to_list c).*2.

Lemma column_insert m a p i :
  column (<[a := p]> m) i =
  match p !! i with Some l => <[a := l]> (column m i) | None => delete a (column m i) end.
Proof.
  unfold column. destruct (p !! i) as [l|] eqn:E.
  - by rewrite (omap_insert_Some _ _ _ _ l).
  - by rewrite omap_insert_None.
Qed.

Lemma column_lookup m a i : column m i !! a = m !! a ≫= λ p, p !! i.
Proof. unfold column. by rewrite lookup_omap. Qed.

Lemma delete_column_none m a i :
  (m !! a ≫= λ p : PartialIndexes, p !! i) = None → delete a (column m i) = column m i.
Proof. intros H. apply delete_id. by rewrite column_lookup. Qed.

Lemma searched_add (c : gmap string (list Z)) a x :
  searched (<[a := default [] (c !! a) ++ [x]]> c) ≡ₚ searched c ++ [x].
Proof.
  unfold searched. destruct (c !! a) as [l|] eqn:E; cbn.
  - rewrite <-(insert_delete_id c a l E) at 2. rewrite <-insert_delete_eq.
    rewrite !map_to_list_insert by apply lookup_delete_eq. cbn.
    rewrite <-!app_assoc. apply Permutation_app_head, Permutation_app_comm.
  - rewrite map_to_list_insert by done. cbn. apply Permutation_cons_append.
Qed.

(** Putting [x] in the cell of node [a], index [i] of the map. *)
Lemma column_put m a index (f : PartialIndexes → PartialIndexes) l i :
  (∀ p j, f p !! j = if decide (index = j) then Some (l (p !! j)) else p !! j) →
  column (<[a := f (default ∅ (m !! a))]> m) i =
  if decide (index = i) then <[a := l (column m i !! a)]> (column m i) else column m i.
Proof.
  intros Hf. rewrite column_insert, Hf, column_lookup.
  assert (default ∅ (m !! a) !! i = (m !! a ≫= λ p, p !! i)) as ->.
  { destruct (m !! a); cbn; [done|apply lookup_empty]. }
  case_decide; [done|].
  destruct (m !! a ≫= _) as [l'|] eqn:E; [|by apply delete_column_none].
  apply insert_id. by rewrite column_lookup.
Qed.

Lemma assign_shard_column index m nodes shard m' nodes' :
  assign_shard index (m, nodes) shard = Ok (m', nodes') →
  (∃ a, column m' index =
    <[a := default [] (column m index !! a) ++ [shard]]> (column m index)) ∧
  ∀ i, i ≠ index → column m' i = column m i.
Proof.
  unfold assign_shard. destruct (Next nodes) as [[n nodes1]| |]; cbn; [|done..].
  set (f := λ p, AddSecondShardId p index shard).
  assert (∀ p j, f p !! j = if decide (index = j) then Some (default [] (p !! j) ++ [shard]) else p !! j) as Hf.
  { intros p j. unfold f, AddSecondShardId.
    destruct (p !! index) eqn:E; rewrite lookup_insert; case_decide; subst; by rewrite ?E. }
  intros Hm. assert (m' = <[addr n := f (default ∅ (m !! addr n))]> m) as ->.
  { destruct (m !! addr n); [by simplify_eq|]. unfold f, AddSecondShardId. cbn.
    rewrite lookup_empty. simplify_eq. unfold CreatePartialIndexes. by rewrite insert_empty. }
  split.
  - exists (addr n).
    rewrite (column_put m (addr n) index f (λ o, default [] o ++ [shard])) by done. by rewrite decide_True.
  - intros i Hi.
    rewrite (column_put m (addr n) index f (λ o, default [] o ++ [shard])) by done. by rewrite decide_False.
Qed.

Lemma assign_shards_column index m nodes shards m' nodes' :
  foldM (assign_shard index) (m, nodes) shards = Ok (m', nodes') →
  searched (column m' index) ≡ₚ searched (column m index) ++ shards ∧
  ∀ i, i ≠ index → column m' i = column m i.
Proof.
  revert m nodes. induction shards as [|x shards IH]; intros m nodes; cbn [foldM].
  { intros [= -> ->]. by rewrite app_nil_r. }
  destruct (assign_shard index (m, nodes) x) as [[m1 nodes1]| |] eqn:E; cbn; [|done..].
  apply assign_shard_column in E as [(a & Ha) Hne]. intros [Hs Hne']%IH. split.
  - rewrite Hs, Ha, searched_add, <-app_assoc. done.
  - intros i Hi. by rewrite Hne', Hne.
Qed.
End search.

(** What the search plan must contain for one index, given its metadata. *)
Definition plan_ok (Threshold : Z) (st : state) (ord : map_order string (list Z)) (get : string → get_meta)
    (m : NodeIndexMap) (index : string) : Prop :=
  match get index with
  | Found meta =>
      let shards := concat (range ord (Shards meta)).*2 in
      if decide (ShardNum meta ≠ 1%Z ∨ (Z.of_nat (length shards) < Threshold)%Z) then
        ∃ a, GetAddrByIndex st index = Ok a ∧ column m index = {[a := []]}
      else searched (column m index) ≡ₚ shards
  | _ => column m index = ∅
  end.

Lemma assign_index_column NodeLimit Threshold st ord get nodeList m index m' :
  column m index = ∅ →
  assign_index NodeLimit Threshold st ord get nodeList m index = Ok m' →
  plan_ok Threshold st ord get m' index ∧ ∀ i, i ≠ index → column m' i = column m i.
Proof.
  intros Hcol. unfold assign_index, plan_ok. destruct (get index) as [meta| |]; [|by intros [= ->]|done].
  cbn zeta. set (shards := concat _). case_decide.
  - destruct (GetAddrByIndex st index) as [a| |] eqn:Ea; cbn; [|done..]. intros Hm.
    set (f := λ p : PartialIndexes, <[index := []]> p).
    assert (m' = <[a := f (default ∅ (m !! a))]> m) as ->.
    { destruct (m !! a); [by simplify_eq|]. simplify_eq. by unfold f; cbn; rewrite insert_empty. }
    assert (∀ p j, f p !! j = if decide (index = j) then Some [] else p !! j) as Hf
      by (intros; apply lookup_insert).
    split.
    + exists a. split; [done|].
      rewrite (column_put m a index f (λ _, [])), decide_True by done. by rewrite Hcol.
    + intros i Hi. rewrite (column_put m a index f (λ _, [])), decide_False by done. done.
  - destruct (getQueryNodes _ _ _ _) as [nodes| |]; cbn; [|done..].
    destruct (foldM _ _ _) as [[m1 nodes1]| |] eqn:E; cbn; [|done..]. intros [= <-].
    apply assign_shards_column in E as [Hs Hne]. split; [|done]. by rewrite Hs, Hcol.
Qed.

Lemma plan_ok_ext Threshold st ord get m m' index :
  column m index = column m' index →
  plan_ok Threshold st ord get m index → plan_ok Threshold st ord get m' index.
Proof. unfold plan_ok. by intros ->. Qed.

Lemma assign_indexes_column NodeLimit Threshold st ord get nodeList indexes m0 m :
  NoDup indexes → (∀ i, i ∈ indexes → column m0 i = ∅) →
  foldM (assign_index NodeLimit Threshold st ord get nodeList) m0 indexes = Ok m →
  (∀ i, i ∈ indexes → plan_ok Threshold st ord get m i) ∧
  (∀ i, i ∉ indexes → column m i = column m0 i).
Proof.
  revert m0. induction indexes as [|index indexes IH]; intros m0 Hnd Hm0; cbn [foldM].
  { intros [= ->]. split; [set_solver|done]. }
  apply NoDup_cons in Hnd as [Hi Hnd].
  destruct (assign_index _ _ _ _ _ _ _ _) as [m1| |] eqn:E; cbn; [|done..].
  apply assign_index_column in E as [Hok Hne]; [|apply Hm0; by left].
  intros [Hin Hout]%IH; [|done|].
  - split.
    + intros i [->|?]%elem_of_cons; [|by apply Hin].
      eapply plan_ok_ext; [|done]. symmetry. by apply Hout.
    + intros i [? ?]%not_elem_of_cons. rewrite Hout by done. by apply Hne.
  - intros i Hii. rewrite Hne by congruence. apply Hm0. by right.
Qed.

(** The search plan covers every requested index exactly once: a small
    index is searched as a whole by its owner and nobody else; a large one has
    each of its second shards searched by exactly one node; an unknown index
    or one that was not requested is searched by nobody. *)
Theorem calcNodeIndexMap_covers NodeLimit Threshold st ord get indexes m :
  NoDup indexes → GetNodeList st ≠ [] →
  calcNodeIndexMap NodeLimit Threshold st ord get indexes = Ok m →
  (∀ index, index ∈ indexes → plan_ok Threshold st ord get m index) ∧
  (∀ index, index ∉ indexes → column m index = ∅).
Proof.
  unfold calcNodeIndexMap. intros Hnd Hnodes. rewrite decide_False by done.
  intros Hf. apply assign_indexes_column in Hf as [Hin Hout]; [|done|].
  - split; [done|]. intros i Hi. rewrite Hout by done. apply omap_empty.
  - intros. apply omap_empty.
Qed.

(** ** The plan is always found *)

Lemma take_nodes_ok n (l : list nodeInfo) i :
  i < length l → ∃ r, take_nodes n l i = Ok r ∧ length r = n ∧ ∀ x, x ∈ r → x ∈ l.
Proof.
  revert i. induction n as [|n IH]; intros i Hi; cbn; [exists []; split_and!; set_solver|].
  destruct (lookup_lt_is_Some_2 l i Hi) as [x Hx]. rewrite Hx.
  destruct (IH (if decide (i + 1 = length l) then 0 else i + 1)) as (r & -> & Hr & Hl);
    [case_decide; lia|].
  cbn. exists (x :: r). split_and!; [done|cbn; lia|].
  intros y [->|?]%elem_of_cons; [by apply list_elem_of_lookup_2 in Hx|by apply Hl].
Qed.

Lemma owner_index_lt nodeId l k : owner_index nodeId l k = 0 ∨ owner_index nodeId l k < k + length l.
Proof.
  revert k. induction l as [|n l IH]; intros k; cbn; [by left|].
  case_decide; [right; lia|]. destruct (IH (S k)); [by left|right; lia].
Qed.

(** The round-robin cursor stays inside the list. *)
Definition qn_ok (t : queryNodes) : Prop := cur t < length (addrs t).

Lemma Next_ok t : qn_ok t → ∃ n t', Next t = Ok (n, t') ∧ qn_ok t' ∧ addrs t' = addrs t.
Proof.
  unfold qn_ok, Next. intros Hc. destruct (lookup_lt_is_Some_2 _ _ Hc) as [n ->].
  eexists _, _. split; [done|]. cbn. split; [case_decide; lia|done].
Qed.

Lemma assign_shards_ok index m nodes shards :
  qn_ok nodes → ∃ r, foldM (assign_shard index) (m, nodes) shards = Ok r.
Proof.
  revert m nodes. induction shards as [|x shards IH]; intros m nodes Hq; cbn [foldM]; [by eexists|].
  destruct (Next_ok nodes Hq) as (n & t' & Hn & Hq' & _).
  assert (∃ m', assign_shard index (m, nodes) x = Ok (m', t')) as [m' ->].
  { unfold assign_shard. rewrite Hn. cbn. destruct (m !! addr n); by eexists. }
  by apply IH.
Qed.

(** When every requested index that exists is assigned to a registered
    node and at least one node may take part in a parallel query, a plan is
    found: no error, and no out-of-range access in the round-robin. *)
Theorem calcNodeIndexMap_total NodeLimit Threshold st ord get indexes :
  (0 < NodeLimit)%Z →
  (∀ index, index ∈ indexes → ∀ e, get index ≠ OtherErr e) →
  (∀ index meta, index ∈ indexes → get index = Found meta →
    ∃ a, GetAddrByIndex st index = Ok a) →
  ∃ m, calcNodeIndexMap NodeLimit Threshold st ord get indexes = Ok m.
Proof.
  intros Hlim Hget Hown. unfold calcNodeIndexMap. case_decide as Hnl; [by eexists|].
  generalize (∅ : NodeIndexMap) as m0.
  induction indexes as [|index indexes IH]; intros m0; cbn [foldM]; [by eexists|].
  assert (∃ m1, assign_index NodeLimit Threshold st ord get (GetNodeList st) m0 index = Ok m1)
    as [m1 ->].
  2:{ cbn. apply IH; intros; [apply Hget|eapply Hown]; try done; by right. }
  unfold assign_index. destruct (get index) as [meta| |] eqn:Eg; [|by eexists|].
  2:{ exfalso. eapply (Hget index); [by left|done]. }
  destruct (Hown index meta) as [a Ha]; [by left|done|]. case_decide.
  - rewrite Ha. cbn. destruct (m0 !! a); by eexists.
  - unfold getQueryNodes.
    unfold GetAddrByIndex in Ha. destruct (getAssignNodeByIndex st index) as [nodeId|]; [|done].
    assert (0 < length (GetNodeList st)) as Hlen by (destruct (GetNodeList st); [done|cbn; lia]).
    destruct (take_nodes_ok (Z.to_nat (Z.min (Z.of_nat (length (GetNodeList st))) NodeLimit))
      (GetNodeList st) (owner_index nodeId (GetNodeList st) 0)) as (r & -> & Hr & _).
    { destruct (owner_index_lt nodeId (GetNodeList st) 0); lia. }
    cbn. destruct (assign_shards_ok index m0 (mkQN r 0) (concat (range ord (Shards meta)).*2)) as [[m1 ?] ->].
    { unfold qn_ok. cbn. lia. }
    by eexists.
Qed.

(** ** Witness: one large index on three nodes, one small, one unknown *)

Definition w_state : state :=
  mkState {[1 := "http://a"; 2 := "http://b"; 3 := "http://c"]}%Z
    [mkInfo 1 "http://a"; mkInfo 2 "http://b"; mkInfo 3 "http://c"]%Z
    (Manager.assign_map w_assigns).

Definition w_get (index : string) : get_meta :=
  if decide (index = "big") then Found (mkMeta 1 {["0" := [0; 1; 2; 3; 4]]})%Z
  else if decide (index = "small") then Found (mkMeta 1 {["0" := [0]]})%Z
  else KeyNotFound.

Lemma w_plan :
  ∃ m, calcNodeIndexMap 2 3 w_state map_order_default w_get ["big"; "none"; "small"] = Ok m.
Proof.
  destruct (calcNodeIndexMap _ _ _ _ _ _) as [m| |] eqn:E; [by exists m|vm_compute in E; discriminate..].
Qed.

Lemma calcNodeIndexMap_covers_witness :
  ∃ m, calcNodeIndexMap 2 3 w_state map_order_default w_get ["big"; "none"; "small"] = Ok m ∧
    (∀ index, index ∈ ["big"; "none"; "small"] → plan_ok 3 w_state map_order_default w_get m index) ∧
    (∀ index, index ∉ ["big"; "none"; "small"] → column m index = ∅).
Proof.
  destruct w_plan as [m Hm]. exists m. split; [done|].
  apply (calcNodeIndexMap_covers 2 3 w_state map_order_default w_get ["big"; "none"; "small"]);
    [|done|done].
  apply (bool_decide_unpack _). vm_compute. exact I.
Defined.

Lemma calcNodeIndexMap_total_witness :
  ∃ m, calcNodeIndexMap 2 3 w_state map_order_rev w_get ["big"; "none"; "small"] = Ok m.
Proof.
  apply calcNodeIndexMap_total.
  - lia.
  - intros index Hi e. assert (index = "big" ∨ index = "none" ∨ index = "small") as [->|[->| ->]] by set_solver;
      vm_compute; done.
  - intros index meta Hi _. assert (index = "big" ∨ index = "none" ∨ index = "small") as [->|[->| ->]] by set_solver;
      eexists; vm_compute; reflexivity.
Defined.

End Parallel.
