(* ===== verification/Rendezvous.v ===== *)
(** pkg/zutils/hash: FNV-1a (fnv64) and rendezvous hashing (rendezvous), which
    pick the first-layer shard a document id belongs to. *)
From S2P Require Import Prelude Hash.

(** * FNV-1a *)

Definition offset64 : Z := 14695981039346656037.
Definition prime64 : Z := 1099511628211.

Definition Sum64 (key : string) : Z :=
  foldl (λ h b, wrap64 (Z.lxor h b * prime64)) offset64 (bytes key).

(** [hash.Hasher]: anything with a [Sum64] that returns a uint64. *)
Class Hasher := {
  hasher_Sum64 : string → Z;
  hasher_range : ∀ k, (0 ≤ hasher_Sum64 k < 2 ^ 64)%Z
}.

(** * Rendezvous hashing *)

Definition xorshiftMult64 (x : Z) : Z :=
  let x := Z.lxor x (Z.shiftr x 12) in
  let x := Z.lxor x (wrap64 (Z.shiftl x 25)) in
  let x := Z.lxor x (Z.shiftr x 27) in
  wrap64 (x * 0x2545F4914F6CDD1D).

Record Rendezvous := mkR { nodes : gmap string nat; nstr : list string; nhash : list Z }.

Definition NewWithHash : Rendezvous := mkR ∅ [] [].

Section rendezvous.
Context `{H : Hasher}.

Definition Hash (name : string) : Z := hasher_Sum64 name.

(** The score of one node for a key whose hash is [khash]. *)
Definition score (khash nh : Z) : Z := xorshiftMult64 (Z.lxor khash nh).

(** The loop of [Lookup]: the index and the score of the best node so far. *)
Fixpoint lookup_loop (khash : Z) (i midx : nat) (mhash : Z) (nhashes : list Z) : nat :=
  match nhashes with
  | [] => midx
  | nh :: rest =>
      if (mhash <? score khash nh)%Z
      then lookup_loop khash (S i) i (score khash nh) rest
      else lookup_loop khash (S i) midx mhash rest
  end.

Definition Lookup (r : Rendezvous) (k : string) : res string :=
  match nstr r !! lookup_loop (Hash k) 0 0 0 (nhash r) with
  | Some n => Ok n
  | None => Panic PIndex
  end.

Record scoreNode := mkScore { name : string; node_score : Z }.
Definition score_less (a b : scoreNode) : bool := (node_score b <? node_score a)%Z.

(** [LookupTopN]; a negative [n] panics in [make]. *)
Definition LookupTopN (srt : sorter score_less) (r : Rendezvous) (k : string) (n : Z) : res (list string) :=
  let scored := zip_with (λ s nh, mkScore s (score (Hash k) nh)) (nstr r) (nhash r) in
  if (n <? 0)%Z then Panic PSlice
  else Ok (take (Z.to_nat n) (name <$> sort_slice srt scored)).

Definition Contains (r : Rendezvous) (node : string) : bool := bool_decide (is_Some (nodes r !! node)).

Definition Add (r : Rendezvous) (node : string) : Rendezvous :=
  if Contains r node then r
  else mkR (<[node := length (nstr r)]> (nodes r)) (nstr r ++ [node]) (nhash r ++ [Hash node]).

(** [Remove]: [r.nstr[nidx] = r.nstr[l]] with [l = len(r.nstr)]; every read
    and write is bounds-checked.  A missing key reads index 0. *)
Definition Remove (r : Rendezvous) (node : string) : res Rendezvous :=
  let nidx := default 0 (nodes r !! node) in
  let l := length (nstr r) in
  match nstr r !! l, nhash r !! l with
  | Some s, Some h =>
      if decide (nidx < length (nstr r)) then
        let nstr' := take l (<[nidx := s]> (nstr r)) in
        let nhash' := take l (<[nidx := h]> (nhash r)) in
        match nstr' !! nidx with
        | Some moved => Ok (mkR (<[moved := nidx]> (delete node (nodes r))) nstr' nhash')
        | None => Panic PIndex
        end
      else Panic PIndex
  | _, _ => Panic PIndex
  end.

Definition List (r : Rendezvous) : list string := nstr r.
Definition Len (r : Rendezvous) : nat := length (nstr r).

(** ** Well-formed rings *)

Definition wf (r : Rendezvous) : Prop :=
  NoDup (nstr r) ∧ nhash r = Hash <$> nstr r ∧
  ∀ n i, nodes r !! n = Some i ↔ nstr r !! i = Some n.

Lemma wf_new : wf NewWithHash.
Proof. split_and!; [constructor|done|]. intros n i. cbn. by rewrite lookup_empty. Qed.

Lemma Contains_spec r n : wf r → Contains r n = true ↔ n ∈ nstr r.
Proof.
  intros (_ & _ & Hw). unfold Contains. rewrite bool_decide_eq_true, list_elem_of_lookup.
  unfold is_Some. by setoid_rewrite Hw.
Qed.

Lemma nstr_Add r n : wf r → nstr (Add r n) = if decide (n ∈ nstr r) then nstr r else nstr r ++ [n].
Proof.
  intros Hw. pose proof (Contains_spec r n Hw) as Hc. unfold Add.
  destruct (Contains r n); case_decide; naive_solver.
Qed.

Lemma wf_Add r n : wf r → wf (Add r n).
Proof.
  intros Hw. pose proof (Contains_spec r n Hw) as Hc. destruct Hw as (Hnd & Hh & Hn).
  unfold Add. destruct (Contains r n) eqn:E; [done|].
  assert (n ∉ nstr r) as Hfresh by (intros ?%Hc; congruence). unfold wf. cbn. split_and!.
  - apply NoDup_app. split_and!; [done|set_solver|apply NoDup_singleton].
  - by rewrite Hh, fmap_app.
  - intros n' i. rewrite lookup_insert, lookup_app. case_decide as Hnn; subst.
    + split.
      * intros [= <-]. by rewrite lookup_ge_None_2, Nat.sub_diag.
      * destruct (nstr r !! i) eqn:Ei.
        { intros [= ->]. by apply list_elem_of_lookup_2 in Ei. }
        rewrite list_lookup_singleton_Some. apply lookup_ge_None in Ei. intros [? _]. f_equal. lia.
    + rewrite Hn. destruct (nstr r !! i) eqn:Ei; [done|].
      rewrite list_lookup_singleton_Some. naive_solver.
Qed.

(** ** The node with the highest score *)

Definition score_of (k n : string) : Z := score (Hash k) (Hash n).

Lemma score_range kh nh : (0 ≤ score kh nh < 2 ^ 64)%Z.
Proof. apply wrap64_range. Qed.

(** The loop ends on a position whose score bounds all the others, or, when
    no score beats the initial one, where it started. *)
Lemma lookup_loop_spec kh i midx mhash nhs :
  let j := lookup_loop kh i midx mhash nhs in
  (j = midx ∧ Forall (λ nh, score kh nh ≤ mhash)%Z nhs) ∨
  (∃ d nh, j = i + d ∧ nhs !! d = Some nh ∧ (mhash < score kh nh)%Z ∧
    Forall (λ nh', score kh nh' ≤ score kh nh)%Z nhs).
Proof.
  revert i midx mhash. induction nhs as [|nh nhs IH]; intros i midx mhash; cbn [lookup_loop]; [by left|].
  destruct (Z.ltb_spec mhash (score kh nh)) as [Hlt|Hge]; cbn zeta.
  - right. destruct (IH (S i) i (score kh nh)) as [[-> Hall]|(d & nh' & -> & Hd & Hlt' & Hall)].
    + exists 0, nh. split_and!; [lia|done|done|]. constructor; [lia|done].
    + exists (S d), nh'. split_and!; [lia|done|lia|]. constructor; [lia|done].
  - destruct (IH (S i) midx mhash) as [[-> Hall]|(d & nh' & -> & Hd & Hlt' & Hall)].
    + left. by repeat constructor.
    + right. exists (S d), nh'. split_and!; [lia|done|lia|]. constructor; [lia|done].
Qed.

(** [Lookup] on a non-empty ring returns a member of maximal score. *)
Lemma Lookup_max r k :
  wf r → nstr r ≠ [] →
  ∃ n, Lookup r k = Ok n ∧ n ∈ nstr r ∧ ∀ n', n' ∈ nstr r → (score_of k n' ≤ score_of k n)%Z.
Proof.
  intros (Hnd & Hh & _) Hne. unfold Lookup.
  assert (∃ n j, lookup_loop (Hash k) 0 0 0 (nhash r) = j ∧ nstr r !! j = Some n ∧
    Forall (λ nh, score (Hash k) nh ≤ score (Hash k) (Hash n))%Z (nhash r)) as (n & j & -> & Hj & Hall).
  { destruct (lookup_loop_spec (Hash k) 0 0 0 (nhash r)) as [[-> Hall]|(d & nh & -> & Hd & _ & Hall)].
    - destruct (nstr r) as [|n l]; [done|]. exists n, 0. split_and!; [done|done|].
      eapply Forall_impl; [done|]. cbn. intros nh Hnh.
      pose proof (score_range (Hash k) nh). pose proof (score_range (Hash k) (Hash n)). lia.
    - rewrite Hh, list_lookup_fmap in Hd. destruct (nstr r !! d) as [n|] eqn:En; [|done].
      cbn in Hd. simplify_eq. by exists n, d. }
  rewrite Hj. exists n. split; [done|]. split; [by apply list_elem_of_lookup_2 in Hj|].
  intros n' Hn'. rewrite Hh, Forall_fmap, Forall_forall in Hall. by apply Hall.
Qed.

(** [Lookup] does not depend on the order in which the shards were
    added: two rings over the same nodes agree on every key for which no two
    nodes have the same score.  ([formatIndex] and [NewIndex] add the shard
    ids in map order, so the ring order differs from one load to the next.) *)
Theorem Lookup_order_independent r1 r2 k :
  wf r1 → wf r2 → nstr r1 ≡ₚ nstr r2 → nstr r1 ≠ [] →
  (∀ n n', n ∈ nstr r1 → n' ∈ nstr r1 → score_of k n = score_of k n' → n = n') →
  ∃ n, Lookup r1 k = Ok n ∧ Lookup r2 k = Ok n.
Proof.
  intros H1 H2 Hp Hne Hinj.
  destruct (Lookup_max r1 k H1 Hne) as (n1 & -> & Hin1 & Hmax1).
  destruct (Lookup_max r2 k H2) as (n2 & -> & Hin2 & Hmax2).
  { intros E. rewrite E in Hp. by apply Permutation_nil_r in Hp. }
  exists n1. split; [done|]. f_equal. rewrite <-Hp in Hin2. apply Hinj; [done..|].
  apply Z.le_antisymm; [by apply Hmax1|]. apply Hmax2. by rewrite <-Hp.
Qed.

(** The loop over one more node: it wins or nothing changes. *)
Lemma lookup_loop_snoc kh i midx mhash nhs nh :
  (0 ≤ mhash)%Z →
  lookup_loop kh i midx mhash (nhs ++ [nh]) = i + length nhs ∨
  lookup_loop kh i midx mhash (nhs ++ [nh]) = lookup_loop kh i midx mhash nhs.
Proof.
  revert i midx mhash. induction nhs as [|nh' nhs IH]; intros i midx mhash Hm; cbn.
  - destruct (_ <? _)%Z; [left; lia|by right].
  - pose proof (score_range kh nh'). rewrite Nat.add_succ_r.
    destruct (_ <? _)%Z; apply IH; lia.
Qed.

(** Growing the ring moves keys only to the new node: after [Add], a key
    is served by the added node or by the node that served it before. *)
Theorem Add_minimal_disruption r node k n :
  wf r → Lookup r k = Ok n →
  Lookup (Add r node) k = Ok n ∨ Lookup (Add r node) k = Ok node.
Proof.
  intros Hw Hl. unfold Add. destruct (Contains r node); [by left|].
  pose proof Hw as (_ & Hh & _). unfold Lookup in *. cbn.
  set (j := lookup_loop (Hash k) 0 0 0 (nhash r)) in *.
  destruct (lookup_loop_snoc (Hash k) 0 0 0 (nhash r) (Hash node)) as [->| ->]; [lia| |].
  - right. rewrite lookup_app_r; rewrite Hh, length_fmap; [|lia].
    by rewrite Nat.sub_diag.
  - left. fold j. destruct (nstr r !! j) eqn:Ej; [|done]. by rewrite (lookup_app_l_Some _ _ _ _ Ej).
Qed.

(** [LookupTopN] lists nodes of the ring by decreasing score. *)
Lemma scored_names r k : wf r →
  zip_with (λ s nh, mkScore s (score (Hash k) nh)) (nstr r) (nhash r) =
  (λ s, mkScore s (score_of k s)) <$> nstr r.
Proof. intros (_ & -> & _). rewrite zip_with_fmap_r. induction (nstr r); cbn; by f_equal. Qed.

(** [LookupTopN] returns [min n len] distinct nodes of the ring, by
    decreasing score, and every node it leaves out scores at most as much as
    every node it returns. *)
Theorem LookupTopN_spec srt r k n :
  wf r → (0 ≤ n)%Z →
  ∃ top, LookupTopN srt r k n = Ok top ∧ NoDup top ∧
    length top = Z.to_nat n `min` length (nstr r) ∧
    StronglySorted (λ a b, score_of k b ≤ score_of k a)%Z top ∧
    ∀ a b, a ∈ top → b ∈ nstr r → b ∉ top → (score_of k b ≤ score_of k a)%Z.
Proof.
  intros Hw Hn. unfold LookupTopN. rewrite scored_names by done.
  assert ((n <? 0)%Z = false) as -> by lia.
  set (sc := (λ s, mkScore s (score_of k s)) <$> nstr r).
  set (l := name <$> sort_slice srt sc).
  assert (l ≡ₚ nstr r) as Hl.
  { unfold l. rewrite sort_slice_perm. unfold sc. by rewrite <-list_fmap_compose, list_fmap_id. }
  assert (StronglySorted (λ a b, score_of k b ≤ score_of k a)%Z l) as Hs.
  { unfold l. pose proof (sort_slice_sorted srt sc) as Hsrt.
    assert (Forall (λ s, node_score s = score_of k (name s)) (sort_slice srt sc)) as Hall.
    { rewrite sort_slice_perm. unfold sc. apply Forall_fmap, Forall_true. done. }
    clear l Hl. revert Hsrt Hall. generalize (sort_slice srt sc). intros l Hsrt Hall.
    induction Hsrt as [|a l Hsrt IH Hle]; cbn; [constructor|].
    apply Forall_cons in Hall as [Ha Hall]. constructor; [by apply IH|].
    apply Forall_fmap. eapply Forall_impl; [apply Forall_and; exact (conj Hle Hall)|].
    cbn. unfold score_less. intros b [Hb Hb']. rewrite <-Hb', <-Ha. lia. }
  exists (take (Z.to_nat n) l). split; [done|].
  assert (NoDup l) as Hnd by (rewrite Hl; apply Hw).
  rewrite <-(take_drop (Z.to_nat n) l) in Hs, Hnd, Hl.
  apply StronglySorted_app in Hs as (Hcross & Hs1 & _). apply NoDup_app in Hnd as (Hnd & _ & _).
  split_and!; [done|by rewrite length_take, <-Hl, take_drop|done|].
  intros a b Ha Hb Hnb. rewrite <-Hl in Hb. apply elem_of_app in Hb as [|Hb]; [done|].
  by apply Hcross.
Qed.

(** [Remove] never succeeds: it reads one past the end of the node list
    before it shortens it, so on every ring and for every node it panics. *)
Theorem Remove_panics r node : Remove r node = Panic PIndex.
Proof. unfold Remove. by rewrite lookup_ge_None_2. Qed.

End rendezvous.

(** * The default hasher *)

Lemma Sum64_range key : (0 ≤ Sum64 key < 2 ^ 64)%Z.
Proof.
  unfold Sum64. assert (0 ≤ offset64 < 2 ^ 64)%Z as Ho by (unfold offset64; lia).
  revert Ho. generalize offset64 as h. induction (bytes key) as [|b bs IH]; intros h Hh; cbn; [done|].
  apply IH, wrap64_range.
Qed.

#[global] Instance NewDefaultHasher : Hasher := {| hasher_Sum64 := Sum64; hasher_range := Sum64_range |}.

(** The published FNV-1a test vectors of the empty string, "a" and "foobar". *)
Example fnv64_vectors :
  (Sum64 "", Sum64 "a", Sum64 "foobar") = (0xcbf29ce484222325, 0xaf63dc4c8601ec8c, 0x85944171f73967e8)%Z.
Proof. vm_compute. reflexivity. Qed.

(** ** Witnesses: three shards named as [NewIndex] names them *)

Definition w_ring1 : Rendezvous := foldl Add NewWithHash ["1"; "2"; "3"].
Definition w_ring2 : Rendezvous := foldl Add NewWithHash ["3"; "1"; "2"].

Lemma wf_ring1 : wf w_ring1.
Proof. unfold w_ring1. cbn [foldl]. repeat apply wf_Add. apply wf_new. Qed.
Lemma wf_ring2 : wf w_ring2.
Proof. unfold w_ring2. cbn [foldl]. repeat apply wf_Add. apply wf_new. Qed.

Lemma Lookup_order_independent_witness :
  ∃ n, Lookup w_ring1 "doc" = Ok n ∧ Lookup w_ring2 "doc" = Ok n.
Proof.
  apply (Lookup_order_independent w_ring1 w_ring2 "doc" wf_ring1 wf_ring2).
  - change ([ "1"; "2"; "3" ] ≡ₚ [ "3"; "1"; "2" ]).
    apply (bool_decide_unpack _). vm_compute. exact I.
  - done.
  - assert (nstr w_ring1 = ["1"; "2"; "3"]) as -> by reflexivity.
    assert (Forall (λ n, Forall (λ n', score_of "doc" n = score_of "doc" n' → n = n')
      ["1"; "2"; "3"]) ["1"; "2"; "3"]) as Hall
      by (apply (bool_decide_unpack _); vm_compute; exact I).
    rewrite Forall_forall in Hall. intros n n' Hn Hn'. specialize (Hall n Hn).
    rewrite Forall_forall in Hall. by apply Hall.
Defined.

Lemma Add_minimal_disruption_witness :
  Lookup (Add w_ring1 "4") "doc" = Lookup w_ring1 "doc" ∨ Lookup (Add w_ring1 "4") "doc" = Ok "4".
Proof.
  destruct (Lookup w_ring1 "doc") as [n| |] eqn:E;
    [exact (Add_minimal_disruption w_ring1 "4" "doc" n wf_ring1 E)|
     vm_compute in E; discriminate..].
Defined.

Lemma LookupTopN_spec_witness :
  ∃ top, LookupTopN (key_sorter node_score) w_ring1 "doc" 2 = Ok top ∧ NoDup top ∧ length top = 2 ∧
    StronglySorted (λ a b, score_of "doc" b ≤ score_of "doc" a)%Z top ∧
    ∀ a b, a ∈ top → b ∈ nstr w_ring1 → b ∉ top → (score_of "doc" b ≤ score_of "doc" a)%Z.
Proof. apply (LookupTopN_spec (key_sorter node_score) w_ring1 "doc" 2%Z wf_ring1). lia. Defined.
