(* ===== verification/Base62.v ===== *)
(** pkg/zutils/base62/base62.go: the text form of the integer document ids
    that vector indexes use. *)
From S2P Require Import Prelude Hash.

Definition chars : string := "0123456789abcdefghijklmnopqrstuvwxyzABCDEFGHIJKLMNOPQRSTUVWXYZ".

(** [chars[i]] and [strings.IndexByte(chars, c)], which is -1 when absent. *)
Definition char_at (i : Z) : ascii := nth (Z.to_nat i) (String.list_ascii_of_string chars) "0"%char.

Fixpoint index_from (c : ascii) (cs : list ascii) (i : Z) : Z :=
  match cs with
  | [] => -1
  | c' :: cs => if decide (c = c') then i else index_from c cs (i + 1)
  end.
Definition IndexByte (c : ascii) : Z := index_from c (String.list_ascii_of_string chars) 0.

(** * [reverse] in place *)

Definition swap {A} (l : list A) (i j : nat) : list A :=
  match l !! i, l !! j with
  | Some x, Some y => <[i := y]> (<[j := x]> l)
  | _, _ => l
  end.

(** The two cursors meet after at most [length a] swaps. *)
Fixpoint reverse_loop {A} (fuel : nat) (a : list A) (left right : Z) : list A :=
  match fuel with
  | O => a
  | S fuel =>
      if (left <? right)%Z
      then reverse_loop fuel (swap a (Z.to_nat left) (Z.to_nat right)) (left + 1) (right - 1)
      else a
  end.

Definition reverse_bytes {A} (a : list A) : list A :=
  reverse_loop (length a) a 0 (Z.of_nat (length a) - 1).

(** * Encoding and decoding *)

(** [for num > 0]: eleven digits are enough for an int64, since 62^11 > 2^63;
    the fuel is larger. *)
Fixpoint encode_loop (fuel : nat) (num : Z) (bytes : list ascii) : list ascii :=
  match fuel with
  | O => bytes
  | S fuel =>
      if (0 <? num)%Z then encode_loop fuel (num / 62) (bytes ++ [char_at (num mod 62)])
      else bytes
  end.

Definition Encode (num : Z) : string :=
  String.string_of_list_ascii (reverse_bytes (encode_loop 64 num [])).

(** [new(big.Int).SetBytes(data)]: big-endian, unbounded. *)
Definition SetBytes (data : list Z) : Z := foldl (λ n b, n * 256 + b)%Z 0%Z data.

(** [EncodeToString] on unbounded integers; two digits per byte are enough. *)
Definition EncodeToString (data : list Z) : string :=
  if decide (data = []) then ""
  else
    let num := SetBytes data in
    if (num =? 0)%Z then String (char_at 0) ""
    else String.string_of_list_ascii (reverse_bytes (encode_loop (2 * length data) num [])).

Section decode.
(** [int64(f)] for a float [f] out of the range of int64, which the language
    leaves to the implementation. *)
Variable conv_oob : nat → Z.

(** [int64(math.Pow(62, k))]: 62^k is a float64 exactly for k <= 10
    (31^10 < 2^53) and out of range of int64 above. *)
Definition pow62 (k : nat) : Z := if decide (k ≤ 10) then (62 ^ Z.of_nat k)%Z else int64 (conv_oob k).

(** The loop of [Decode], with int64 wrap-around in the sum and product. *)
Fixpoint decode_loop (cs : list ascii) (num : Z) : Z :=
  match cs with
  | [] => num
  | c :: rest => decode_loop rest (int64 (num + int64 (pow62 (length rest) * IndexByte c)))
  end.

Definition Decode (str : string) : Z := decode_loop (String.list_ascii_of_string str) 0.

(** ** Facts *)

Lemma swap_lookup {A} (l : list A) i j k :
  i < length l → j < length l →
  swap l i j !! k = if decide (k = i) then l !! j else if decide (k = j) then l !! i else l !! k.
Proof.
  intros Hi Hj. unfold swap.
  destruct (lookup_lt_is_Some_2 l i Hi) as [x Hx], (lookup_lt_is_Some_2 l j Hj) as [y Hy].
  rewrite Hx, Hy. case_decide; subst.
  - rewrite list_lookup_insert_eq; [done|by rewrite length_insert].
  - rewrite list_lookup_insert_ne by done. case_decide; subst.
    + by rewrite list_lookup_insert_eq.
    + by rewrite list_lookup_insert_ne.
Qed.

Lemma length_swap {A} (l : list A) i j : length (swap l i j) = length l.
Proof. unfold swap. repeat case_match; by rewrite ?length_insert. Qed.

Lemma reverse_loop_lookup {A} fuel (l : list A) (left right : Z) k :
  (0 ≤ left)%Z → (left + right = Z.of_nat (length l) - 1)%Z → (right - left < 2 * Z.of_nat fuel)%Z →
  (right < Z.of_nat (length l))%Z →
  reverse_loop fuel l left right !! k =
  if decide (left ≤ Z.of_nat k ≤ right)%Z then l !! (length l - 1 - k) else l !! k.
Proof.
  revert l left right. induction fuel as [|fuel IH]; intros l left right H0 Hs Hf Hr; cbn [reverse_loop].
  { case_decide; [lia|done]. }
  destruct (Z.ltb_spec left right).
  - rewrite IH; rewrite ?length_swap; [|lia..].
    assert (Z.to_nat left < length l ∧ Z.to_nat right < length l) as [Hl1 Hr1] by lia.
    rewrite !swap_lookup by done.
    repeat case_decide; try lia; f_equal; lia.
  - case_decide; [f_equal; lia|done].
Qed.

(** The in-place loop is list reversal. *)
Lemma reverse_bytes_spec {A} (a : list A) : reverse_bytes a = reverse a.
Proof.
  apply list_eq. intros k. unfold reverse_bytes.
  rewrite reverse_loop_lookup by lia.
  destruct (decide (k < length a)) as [Hk|Hk].
  - rewrite decide_True by lia. rewrite reverse_lookup by done. f_equal. lia.
  - rewrite decide_False by lia. rewrite lookup_ge_None_2 by lia.
    rewrite lookup_ge_None_2; [done|]. rewrite length_reverse. lia.
Qed.

Lemma IndexByte_char_at i : (0 ≤ i < 62)%Z → IndexByte (char_at i) = i.
Proof.
  intros Hi.
  assert (Forall (λ n, IndexByte (char_at (Z.of_nat n)) = Z.of_nat n) (seq 0 62)) as Hall
    by (apply (bool_decide_unpack _); vm_compute; exact I).
  rewrite Forall_forall in Hall. specialize (Hall (Z.to_nat i)).
  rewrite Z2Nat.id in Hall by lia. apply Hall. apply elem_of_seq. lia.
Qed.

(** Digits of a number, least significant first: what the loop appends. *)
Fixpoint digits (fuel : nat) (num : Z) : list Z :=
  match fuel with
  | O => []
  | S fuel => if (0 <? num)%Z then (num mod 62)%Z :: digits fuel (num / 62) else []
  end.

Lemma encode_loop_digits fuel num bs :
  encode_loop fuel num bs = bs ++ (char_at <$> digits fuel num).
Proof.
  revert num bs. induction fuel as [|fuel IH]; intros num bs; cbn; [by rewrite app_nil_r|].
  destruct (0 <? num)%Z; cbn; [|by rewrite app_nil_r]. by rewrite IH, <-app_assoc.
Qed.

Fixpoint value (ds : list Z) : Z :=
  match ds with [] => 0%Z | d :: ds => (d + 62 * value ds)%Z end.

Lemma value_digits fuel num : (0 ≤ num < 62 ^ Z.of_nat fuel)%Z → value (digits fuel num) = num.
Proof.
  revert num. induction fuel as [|fuel IH]; intros num Hn; [cbn in *; lia|].
  cbn [digits]. destruct (Z.ltb_spec 0 num); [|cbn; lia]. cbn [value]. rewrite IH.
  - pose proof (Z.div_mod num 62). lia.
  - rewrite Nat2Z.inj_succ, Z.pow_succ_r in Hn by lia.
    split; [apply Z.div_pos; lia|]. apply Z.div_lt_upper_bound; lia.
Qed.

(** No fuel left over changes nothing. *)
Lemma digits_fuel f1 f2 num :
  (num < 62 ^ Z.of_nat f1)%Z → (num < 62 ^ Z.of_nat f2)%Z → digits f1 num = digits f2 num.
Proof.
  revert f2 num. induction f1 as [|f1 IH]; intros [|f2] num H1 H2; cbn [digits]; try done.
  - cbn in H1. destruct (Z.ltb_spec 0 num); [lia|done].
  - cbn in H2. destruct (Z.ltb_spec 0 num); [lia|done].
  - destruct (Z.ltb_spec 0 num); [|done]. f_equal.
    rewrite Nat2Z.inj_succ, Z.pow_succ_r in H1, H2 by lia.
    apply IH; apply Z.div_lt_upper_bound; lia.
Qed.

Lemma digits_range fuel num : Forall (λ d, 0 ≤ d < 62)%Z (digits fuel num).
Proof.
  revert num. induction fuel as [|fuel IH]; intros num; cbn; [constructor|].
  destruct (0 <? num)%Z; constructor; [apply Z.mod_pos_bound; lia|apply IH].
Qed.

Lemma value_bound ds : Forall (λ d, 0 ≤ d < 62)%Z ds → (0 ≤ value ds < 62 ^ Z.of_nat (length ds))%Z.
Proof.
  induction 1 as [|d ds Hd _ IH]; cbn [value length]; [cbn; lia|].
  rewrite Nat2Z.inj_succ, Z.pow_succ_r by lia. lia.
Qed.

Lemma value_snoc ds d : value (ds ++ [d]) = (value ds + 62 ^ Z.of_nat (length ds) * d)%Z.
Proof.
  induction ds as [|e ds IH]; cbn [value app length]; [cbn; lia|].
  rewrite Nat2Z.inj_succ, Z.pow_succ_r, IH by lia. lia.
Qed.

Lemma length_digits fuel num k :
  (0 ≤ num < 62 ^ Z.of_nat k)%Z → length (digits fuel num) ≤ k.
Proof.
  revert num k. induction fuel as [|fuel IH]; intros num k Hn; cbn; [lia|].
  destruct (Z.ltb_spec 0 num); cbn; [|lia].
  destruct k as [|k]; [cbn in Hn; lia|]. apply le_n_S, IH.
  rewrite Nat2Z.inj_succ, Z.pow_succ_r in Hn by lia.
  split; [apply Z.div_pos; lia|]. apply Z.div_lt_upper_bound; lia.
Qed.

(** Decoding the digits of a number below 2^63, most significant first. *)
Lemma decode_loop_digits ds acc :
  Forall (λ d, 0 ≤ d < 62)%Z ds → length ds ≤ 11 → (0 ≤ acc)%Z → (acc + value ds < 2 ^ 63)%Z →
  decode_loop (char_at <$> reverse ds) acc = (acc + value ds)%Z.
Proof.
  induction ds as [|d ds IH] using rev_ind in acc |- *; intros Hd Hlen Hacc Hb; [cbn; lia|].
  apply Forall_app in Hd as [Hds [Hd _]%Forall_cons].
  rewrite length_app in Hlen. cbn in Hlen. rewrite value_snoc in Hb |- *.
  pose proof (value_bound ds Hds).
  rewrite reverse_app. cbn [reverse rev_append app fmap list_fmap].
  change (reverse [d]) with [d]. cbn [app]. cbn [decode_loop fmap list_fmap].
  fold (fmap (M := list) char_at (reverse ds)). rewrite length_fmap, length_reverse.
  unfold pow62. rewrite decide_True by lia. rewrite IndexByte_char_at by done.
  assert (0 ≤ 62 ^ Z.of_nat (length ds) * d)%Z by (apply Z.mul_nonneg_nonneg; lia).
  rewrite (int64_small (62 ^ _ * d)) by lia. rewrite int64_small by lia.
  rewrite IH; [lia|done|lia|lia|lia].
Qed.

Lemma Encode_digits num : Encode num = String.string_of_list_ascii (char_at <$> reverse (digits 64 num)).
Proof. unfold Encode. rewrite reverse_bytes_spec, encode_loop_digits, fmap_reverse. done. Qed.

(** Decoding the encoding of any non-negative int64 gives it back: no
    intermediate sum or product overflows and the eleven digits suffice. *)
Theorem Decode_Encode num : (0 ≤ num < 2 ^ 63)%Z → Decode (Encode num) = num.
Proof.
  intros Hn. unfold Decode. rewrite Encode_digits, String.list_ascii_of_string_of_list_ascii.
  rewrite decode_loop_digits.
  - rewrite value_digits; lia.
  - apply digits_range.
  - apply (length_digits 64 num 11). lia.
  - lia.
  - rewrite value_digits; lia.
Qed.

(** The test [base62.Encode(base62.Decode(docID)) == docID] that guards
    documents of vector indexes accepts exactly the encodings of non-negative
    int64 values, so distinct accepted ids have distinct integers. *)
Theorem canonical_ids docID :
  Encode (Decode docID) = docID ↔ ∃ num, (0 ≤ num < 2 ^ 63)%Z ∧ docID = Encode num.
Proof.
  split; [|intros (num & Hn & ->); by rewrite Decode_Encode].
  intros Heq. assert (- 2 ^ 63 ≤ Decode docID < 2 ^ 63)%Z as Hr.
  { unfold Decode.
    assert (∀ cs acc, (- 2 ^ 63 ≤ acc < 2 ^ 63)%Z → (- 2 ^ 63 ≤ decode_loop cs acc < 2 ^ 63)%Z) as Hdl.
    { induction cs as [|c cs IH]; intros acc Hacc; cbn [decode_loop]; [done|]. apply IH, int64_range. }
    apply Hdl. lia. }
  destruct (decide (0 ≤ Decode docID)%Z) as [Hp|Hp]; [exists (Decode docID); split; [lia|done]|].
  exists 0%Z. split; [lia|]. rewrite <-Heq. unfold Encode. cbn.
  destruct (Z.ltb_spec 0 (Decode docID)); [lia|done].
Qed.

(** The unbounded [EncodeToString] of the big-endian bytes of a positive
    int64 is its [Encode]. *)
Theorem EncodeToString_Encode data :
  data ≠ [] → Forall (λ b, 0 ≤ b < 256)%Z data → (0 < SetBytes data < 2 ^ 63)%Z →
  EncodeToString data = Encode (SetBytes data).
Proof.
  intros Hne Hb Hn. unfold EncodeToString, Encode. rewrite decide_False by done.
  rewrite (proj2 (Z.eqb_neq _ _)) by lia.
  rewrite !reverse_bytes_spec, !encode_loop_digits. do 4 f_equal.
  apply digits_fuel; [|cbn; lia].
  assert (∀ acc, (0 ≤ acc)%Z → (foldl (λ n b, n * 256 + b) acc data + 1 ≤
    (acc + 1) * 256 ^ Z.of_nat (length data))%Z) as Hle.
  { clear Hne Hn. induction Hb as [|b data Hb1 _ IH]; intros acc Hacc; cbn [foldl length]; [cbn; lia|].
    rewrite Nat2Z.inj_succ, Z.pow_succ_r by lia. specialize (IH (acc * 256 + b)%Z). nia. }
  specialize (Hle 0%Z). unfold SetBytes in *.
  replace (Z.of_nat (2 * length data)) with (2 * Z.of_nat (length data))%Z by lia.
  rewrite Z.pow_mul_r by lia. assert (256 ^ Z.of_nat (length data) ≤ (62 ^ 2) ^ Z.of_nat (length data))%Z.
  { apply Z.pow_le_mono_l. lia. }
  lia.
Qed.

End decode.

Lemma Decode_Encode_witness : Decode (λ _, 0%Z) (Encode (2 ^ 63 - 1)) = (2 ^ 63 - 1)%Z.
Proof. apply (Decode_Encode (λ _, 0%Z)). lia. Defined.

Lemma EncodeToString_Encode_witness : EncodeToString [1; 0; 255]%Z = Encode (SetBytes [1; 0; 255]%Z).
Proof.
  apply EncodeToString_Encode; [done|apply (bool_decide_unpack _); vm_compute; exact I|].
  split; vm_compute; reflexivity.
Defined.
