(* ===== verification/Strconv.v ===== *)
(** What the program uses of Go's text packages: decimal integers
    ([strconv.ParseUint], the [%d] verb), [strings.Split] and [strings.Join],
    and [path.Join], with the round trips the storage formats rely on. *)
From S2P Require Import Prelude Hash.

(** * strings *)

(** [strings.Split(s, sep)] for a one-byte separator. *)
Fixpoint Split (sep : ascii) (s : string) : list string :=
  match s with
  | EmptyString => [EmptyString]
  | String c s' =>
      if decide (c = sep) then EmptyString :: Split sep s'
      else match Split sep s' with
           | [] => [String c EmptyString]
           | p :: ps => String c p :: ps
           end
  end.

Fixpoint contains_char (c : ascii) (s : string) : bool :=
  match s with
  | EmptyString => false
  | String c' s' => bool_decide (c = c') || contains_char c s'
  end.

(** [strings.Join] with a one-byte separator. *)
Fixpoint Join (sep : ascii) (ps : list string) : string :=
  match ps with
  | [] => EmptyString
  | [p] => p
  | p :: ps => p +:+ String sep (Join sep ps)
  end.

Lemma Split_ne_nil sep s : Split sep s ≠ [].
Proof. destruct s as [|c s]; cbn [Split]; [done|]. case_decide; [done|]. by destruct (Split sep s). Qed.

Lemma append_nil s : "" +:+ s = s.
Proof. done. Qed.
Lemma append_cons c p s : String c p +:+ s = String c (p +:+ s).
Proof. done. Qed.

Lemma length_append p s : String.length (p +:+ s) = String.length p + String.length s.
Proof. induction p as [|c p IH]; [done|]. rewrite append_cons. cbn. by rewrite IH. Qed.

Lemma Split_app sep p s :
  contains_char sep p = false → Split sep (p +:+ String sep s) = p :: Split sep s.
Proof.
  induction p as [|c p IH]; cbn [contains_char].
  - intros _. rewrite append_nil. cbn [Split]. by rewrite decide_True.
  - intros [Hc Hp]%orb_false_iff. rewrite bool_decide_eq_false in Hc.
    rewrite append_cons. cbn [Split]. rewrite decide_False, IH by congruence. done.
Qed.

Lemma Split_no_sep sep p : contains_char sep p = false → Split sep p = [p].
Proof.
  induction p as [|c p IH]; [done|]. cbn [Split contains_char].
  intros [Hc Hp]%orb_false_iff. rewrite bool_decide_eq_false in Hc.
  by rewrite decide_False, IH by congruence.
Qed.

(** Splitting undoes joining when no part contains the separator. *)
Lemma Split_Join sep ps :
  ps ≠ [] → Forall (λ p, contains_char sep p = false) ps → Split sep (Join sep ps) = ps.
Proof.
  induction ps as [|p ps IH]; [done|]. intros _ [Hp Hps]%Forall_cons.
  destruct ps as [|q ps]; [by apply Split_no_sep|].
  cbn [Join]. rewrite Split_app by done. f_equal. by apply IH.
Qed.

(** Joining undoes splitting, always. *)
Lemma Join_Split sep s : Join sep (Split sep s) = s.
Proof.
  induction s as [|c s IH]; [done|]. cbn [Split]. pose proof (Split_ne_nil sep s).
  case_decide; subst.
  - destruct (Split sep s) as [|p ps] eqn:E; [done|].
    change (String sep (Join sep (p :: ps)) = String sep s). by rewrite IH.
  - destruct (Split sep s) as [|p [|q ps]] eqn:E; [done|..]; rewrite <-IH; done.
Qed.

(** [path.Join]: the parts are joined with slashes and the result is cleaned
    lexically ([path.Clean]). *)
Fixpoint clean_parts (rooted : bool) (stack : list string) (ps : list string) : list string :=
  match ps with
  | [] => reverse stack
  | p :: ps =>
      if decide (p = "" ∨ p = ".") then clean_parts rooted stack ps
      else if decide (p = "..") then
        match stack with
        | [] => if rooted then clean_parts rooted [] ps else clean_parts rooted [".."] ps
        | q :: stack' => if decide (q = "..") then clean_parts rooted (".." :: stack) ps
                         else clean_parts rooted stack' ps
        end
      else clean_parts rooted (p :: stack) ps
  end.

Definition path_clean (s : string) : string :=
  let rooted := bool_decide (String.get 0 s = Some "/"%char) in
  let body := Join "/" (clean_parts rooted [] (Split "/" s)) in
  if rooted then String "/" body else if decide (body = "") then "." else body.

Definition path_Join (ps : list string) : string :=
  match filter (λ p, p ≠ "") ps with
  | [] => ""
  | ps => path_clean (Join "/" ps)
  end.

(** * strconv *)

Definition ErrSyntax : string := "invalid syntax".
Definition ErrRange : string := "value out of range".

Definition digit_of (c : ascii) : option Z :=
  let b := byte_of c in
  if decide (48 ≤ b ≤ 57)%Z then Some (b - 48)%Z else None.

Definition cutoff : Z := ((2 ^ 64 - 1) / 10 + 1)%Z.

(** The digit loop of [ParseUint(s, 10, 64)], in uint64 arithmetic. *)
Fixpoint parse_loop (n : Z) (s : string) : res Z :=
  match s with
  | EmptyString => Ok n
  | String c s' =>
      match digit_of c with
      | None => Err ErrSyntax
      | Some d =>
          if decide (cutoff ≤ n)%Z then Err ErrRange
          else
            let n := wrap64 (n * 10) in
            let n1 := wrap64 (n + d) in
            if decide (n1 < n)%Z then Err ErrRange else parse_loop n1 s'
      end
  end.

Definition ParseUint (s : string) : res Z :=
  match s with
  | EmptyString => Err ErrSyntax
  | _ => parse_loop 0 s
  end.

(** The [%d] verb on a uint64. *)
Definition FormatUint (n : Z) : string := pretty (Z.to_N n).

Lemma digit_of_char x : (x < 10)%N → digit_of (pretty_N_char x) = Some (Z.of_N x).
Proof.
  intros Hx. assert (x = 0 ∨ x = 1 ∨ x = 2 ∨ x = 3 ∨ x = 4 ∨ x = 5 ∨ x = 6 ∨ x = 7 ∨ x = 8 ∨ x = 9)%N
    as Hc by lia.
  repeat destruct Hc as [->|Hc]; subst; reflexivity.
Qed.

Lemma parse_digit n d :
  (0 ≤ n)%Z → (0 ≤ d < 10)%Z → (n * 10 + d < 2 ^ 64)%Z →
  (n < cutoff)%Z ∧ wrap64 (n * 10) = (n * 10)%Z ∧ wrap64 (n * 10 + d) = (n * 10 + d)%Z.
Proof.
  intros Hn Hd Hlt. split_and!; [|rewrite wrap64_small; lia..].
  change cutoff with 1844674407370955162%Z. lia.
Qed.

Lemma parse_pretty_go x : ∀ s,
  (Z.of_N x < 2 ^ 64)%Z → parse_loop 0 (pretty_N_go x s) = parse_loop (Z.of_N x) s.
Proof.
  induction (N.lt_wf_0 x) as [x _ IH]. intros s Hx.
  destruct (decide (x = 0%N)) as [->|Hne]; [done|].
  rewrite pretty_N_go_step by lia.
  pose proof (N.div_mod x 10 ltac:(done)) as Hdm. pose proof (N.mod_lt x 10 ltac:(done)) as Hm.
  assert (x `div` 10 < x)%N as Hlt by (apply N.div_lt; lia).
  rewrite (IH _ Hlt) by lia. cbn [parse_loop]. rewrite digit_of_char by done.
  assert (Z.of_N (x `div` 10) * 10 + Z.of_N (x `mod` 10) < 2 ^ 64)%Z as Hb by lia.
  assert (0 ≤ Z.of_N (x `mod` 10) < 10)%Z as Hd
    by (split; [apply N2Z.is_nonneg|by apply (N2Z.inj_lt _ 10)]).
  destruct (parse_digit (Z.of_N (x `div` 10)) (Z.of_N (x `mod` 10)) ltac:(lia) Hd Hb)
    as (Hc & Hw1 & Hw2).
  rewrite decide_False by lia. cbv zeta. rewrite Hw1, Hw2.
  rewrite decide_False by lia. f_equal. lia.
Qed.

(** Parsing undoes formatting over the whole of uint64. *)
Lemma ParseUint_FormatUint n : (0 ≤ n < 2 ^ 64)%Z → ParseUint (FormatUint n) = Ok n.
Proof.
  intros Hn. unfold FormatUint, pretty, pretty_N.
  case_decide as H0.
  - assert (n = 0)%Z as -> by lia. reflexivity.
  - pose proof (parse_pretty_go (Z.to_N n) "" ltac:(lia)) as Hp. cbn [parse_loop] in Hp.
    rewrite Z2N.id in Hp by lia. unfold ParseUint.
    destruct (pretty_N_go _ _) as [|c s] eqn:E; [|done].
    cbn in Hp. injection Hp as <-. done.
Qed.

Lemma contains_char_pretty_go c x : ∀ s,
  digit_of c = None → contains_char c s = false → contains_char c (pretty_N_go x s) = false.
Proof.
  induction (N.lt_wf_0 x) as [x _ IH]. intros s Hc Hs.
  destruct (decide (x = 0%N)) as [->|Hne]; [done|].
  rewrite pretty_N_go_step by lia. apply IH; [apply N.div_lt; lia|done|].
  cbn. rewrite Hs, orb_false_r. apply bool_decide_eq_false. intros ->.
  by rewrite digit_of_char in Hc by (apply N.mod_lt; done).
Qed.

Lemma FormatUint_no_char c n : digit_of c = None → contains_char c (FormatUint n) = false.
Proof.
  intros Hc. unfold FormatUint, pretty, pretty_N. case_decide.
  - cbn. rewrite orb_false_r. apply bool_decide_eq_false. intros ->. by vm_compute in Hc.
  - by apply contains_char_pretty_go.
Qed.

Lemma length_pretty_go k : ∀ x s,
  (x < 10 ^ N.of_nat k)%N → String.length (pretty_N_go x s) ≤ k + String.length s.
Proof.
  induction k as [|k IH]; intros x s Hx.
  - cbn in Hx. assert (x = 0)%N as -> by lia. done.
  - destruct (decide (x = 0%N)) as [->|Hne]; [rewrite pretty_N_go_0; lia|].
    rewrite pretty_N_go_step by lia. etransitivity; [apply IH|cbn; lia].
    apply N.Div0.div_lt_upper_bound. rewrite Nat2N.inj_succ, N.pow_succ_r' in Hx. lia.
Qed.

Lemma length_FormatUint n : (0 ≤ n < 2 ^ 64)%Z → String.length (FormatUint n) ≤ 20.
Proof.
  intros Hn. unfold FormatUint, pretty, pretty_N. case_decide; [cbn; lia|].
  assert (Z.to_N n < 10 ^ N.of_nat 20)%N as Hlt.
  { apply N.lt_trans with (2 ^ 64)%N; [lia|by vm_compute]. }
  pose proof (length_pretty_go 20 _ "" Hlt) as Hlen. by rewrite Nat.add_0_r in Hlen.
Qed.

(** [strconv.FormatInt(n, 10)], also the [%v] verb on an int64. *)
Definition FormatInt (n : Z) : string :=
  if decide (n < 0)%Z then String "-" (FormatUint (- n)) else FormatUint n.

(** [strconv.ParseInt(s, 10, 64)]: an optional sign, the digits as a uint64,
    then the range of int64. *)
Definition ParseInt (s : string) : res Z :=
  let signed neg body :=
    match ParseUint body with
    | Ok un =>
        if neg : bool then if decide (2 ^ 63 < un)%Z then Err ErrRange else Ok (- un)%Z
        else if decide (2 ^ 63 ≤ un)%Z then Err ErrRange else Ok un
    | r => r
    end in
  match s with
  | EmptyString => Err ErrSyntax
  | String c s' =>
      if decide (c = "+"%char) then signed false s'
      else if decide (c = "-"%char) then signed true s'
      else signed false s
  end.

Lemma FormatUint_head n c s : FormatUint n = String c s → is_Some (digit_of c).
Proof.
  intros Hf. destruct (digit_of c) as [d|] eqn:Hd; [eauto|].
  pose proof (FormatUint_no_char c n Hd) as Hc. rewrite Hf in Hc. cbn [contains_char] in Hc.
  by rewrite bool_decide_true in Hc.
Qed.

Lemma FormatUint_nonempty n : FormatUint n ≠ "".
Proof.
  unfold FormatUint, pretty, pretty_N. case_decide; [done|].
  rewrite pretty_N_go_step by lia. intros Hp.
  assert (∀ x s, s ≠ "" → pretty_N_go x s ≠ "") as Hne.
  { intros x. induction (N.lt_wf_0 x) as [x _ IH]. intros s Hs.
    destruct (decide (x = 0%N)) as [->|Hx]; [done|].
    rewrite pretty_N_go_step by lia. apply IH; [apply N.div_lt; lia|done]. }
  by eapply Hne; [|exact Hp].
Qed.

(** Parsing undoes formatting over the whole of int64. *)
Lemma ParseInt_FormatInt n : (- 2 ^ 63 ≤ n < 2 ^ 63)%Z → ParseInt (FormatInt n) = Ok n.
Proof.
  intros Hn. unfold FormatInt, ParseInt. case_decide as Hneg.
  - cbv beta iota zeta. rewrite decide_False, decide_True by done.
    rewrite ParseUint_FormatUint by lia. rewrite decide_False by lia. f_equal. lia.
  - destruct (FormatUint n) as [|c s] eqn:Hf; [by apply FormatUint_nonempty in Hf|].
    destruct (FormatUint_head _ _ _ Hf) as [d Hd].
    rewrite decide_False by (intros ->; done). rewrite decide_False by (intros ->; done).
    rewrite <-Hf, ParseUint_FormatUint by lia. by rewrite decide_False by lia.
Qed.

Lemma FormatInt_inj m n :
  (- 2 ^ 63 ≤ m < 2 ^ 63)%Z → (- 2 ^ 63 ≤ n < 2 ^ 63)%Z → FormatInt m = FormatInt n → m = n.
Proof.
  intros Hm Hn Heq. apply (f_equal ParseInt) in Heq.
  rewrite (ParseInt_FormatInt m Hm), (ParseInt_FormatInt n Hn) in Heq. congruence.
Qed.
