(* ===== verification/RedoLog.v ===== *)
(** pkg/wal/redo/redo.go: the redo log, a small file of fixed-size records
    that remembers which WAL ids were read and written, and the text format
    pkg/core/index_shards_wal.go stores in it. *)
From S2P Require Import Prelude Hash Strconv.

Definition ValueFixedLength : nat := 64.

(** * Slices of bytes *)

(** [data[off:off+n]]; an access past the end panics. *)
Definition slice (data : list Z) (off n : nat) : res (list Z) :=
  if decide (off + n ≤ length data) then Ok (take n (drop off data)) else Panic PSlice.

(** [copy(data[off:...], bs)]. *)
Definition splice (data : list Z) (off : nat) (bs : list Z) : list Z :=
  take off data ++ bs ++ drop (off + length bs) data.

(** [binary.LittleEndian.PutUint64(data[off:off+8], v)]. *)
Definition put_uint64 (data : list Z) (off : nat) (v : Z) : res (list Z) :=
  if decide (off + 8 ≤ length data) then Ok (splice data off (put_le 8 v)) else Panic PSlice.

Definition get_uint64 (data : list Z) (off : nat) : res Z :=
  bs ← slice data off 8; Ok (get_le bs).

(** * The log *)

(** [f] is the content of the open file. *)
Record Log := mkLog { index : gmap Z nat; data : list Z; f : list Z }.

(** The loop of [Open]: 80-byte records, the offset after the key recorded.
    [buf] is the buffer [io.ReadAll] returned, up to its capacity: slicing is
    bounded by the capacity. *)
Fixpoint open_loop (fuel : nat) (buf : list Z) (len n : nat) (idx : gmap Z nat) : res (gmap Z nat) :=
  match fuel with
  | O => Ok idx
  | S fuel =>
      if decide (n < len) then
        key ← get_uint64 buf n;
        open_loop fuel buf len (n + 8 + 8 + ValueFixedLength) (<[key := n + 8]> idx)
      else Ok idx
  end.

(** [Open] on a file with the given content; [spare] is the spare capacity of
    the buffer.  Every turn advances by 80 bytes, so [len content] turns are
    enough. *)
Definition Open (spare : nat) (content : list Z) : res Log :=
  idx ← open_loop (length content) (content ++ replicate spare 0%Z) (length content) 0 ∅;
  Ok (mkLog idx content content).

Definition ErrNotFound : string := "not found".
Definition ErrValueTooLarge : string := "value too large".

(** [l.f.Seek(0, io.SeekStart)] and [l.f.Write(l.data)]: the data overwrites
    the beginning of the file. *)
Definition write_file (file bs : list Z) : list Z := bs ++ drop (length bs) file.

(** The in-memory part of [Write]. *)
Definition write_data (l : Log) (idx : Z) (v : list Z) : res (gmap Z nat * list Z) :=
  match index l !! idx with
  | Some offset =>
      d ← put_uint64 (data l) offset (Z.of_nat (length v));
      if decide (offset + 8 + ValueFixedLength ≤ length d)
      then Ok (index l, splice d (offset + 8) v) else Panic PSlice
  | None =>
      let offset := length (data l) in
      let d := data l ++ replicate (8 + 8 + ValueFixedLength) 0%Z in
      d ← put_uint64 d offset idx;
      let offset := offset + 8 in
      d ← put_uint64 d offset (Z.of_nat (length v));
      Ok (<[idx := offset]> (index l), splice d (offset + 8) v)
  end.

(** [Write]; [io_err] is the error of the file write or sync, with the file
    content it left. *)
Definition Write (l : Log) (idx : Z) (v : list Z) (io_err : option (string * list Z)) : res unit * Log :=
  if decide (ValueFixedLength < length v) then (Err ErrValueTooLarge, l)
  else match write_data l idx v with
       | Ok (index', d) =>
           match io_err with
           | Some (e, file) => (Err e, mkLog index' d file)
           | None => (Ok tt, mkLog index' d (write_file (f l) d))
           end
       | Err e => (Err e, l)
       | Panic p => (Panic p, l)
       end.

Definition Read (l : Log) (idx : Z) : res (list Z) :=
  match index l !! idx with
  | None => Err ErrNotFound
  | Some offset =>
      valueLen ← get_uint64 (data l) offset;
      slice (data l) (offset + 8) (Z.to_nat valueLen)
  end.

(** [Close]: the maps are dropped, so that later reads find nothing. *)
Definition Close (l : Log) : Log := mkLog ∅ [] (f l).

(** * The text the WAL stores *)

Definition RedoActionRead : Z := 1.
Definition RedoActionWrite : Z := 2.

Definition writeRedoLog (l : Log) (option minID maxID : Z) (io_err : Datatypes.option (string * list Z))
    : res unit * Log :=
  let value := FormatUint minID +:+ String ":" (FormatUint maxID) in
  Write l option (bytes value) io_err.

Definition readRedoLog (l : Log) (option : Z) : res (Z * Z) :=
  v ← Read l option;
  let vs := Split ":" (of_bytes v) in
  match vs with
  | [a; b] => minID ← ParseUint a; maxID ← ParseUint b; Ok (minID, maxID)
  | _ => Err ("invalid redo log: [" +:+ of_bytes v +:+ "]")
  end.

(** * Representation *)

(** A record as the file format describes it. *)
Record record := mkRecord { rkey : Z; rlen : nat; rval : list Z }.

Definition enc (r : record) : list Z := put_le 8 (rkey r) ++ put_le 8 (Z.of_nat (rlen r)) ++ rval r.

Definition record_ok (r : record) : Prop :=
  (0 ≤ rkey r < 2 ^ 64)%Z ∧ rlen r ≤ ValueFixedLength ∧ length (rval r) = ValueFixedLength.

(** The value a record holds. *)
Definition payload (r : record) : list Z := take (rlen r) (rval r).

(** [l] is the log of the records [rs]: its data are the records in order,
    its index points at their lengths, and the file has the same bytes. *)
Definition repr (l : Log) (rs : list record) : Prop :=
  data l = concat (enc <$> rs) ∧ f l = data l ∧ Forall record_ok rs ∧ NoDup (rkey <$> rs) ∧
  ∀ k off, index l !! k = Some off ↔ ∃ i r, rs !! i = Some r ∧ rkey r = k ∧ off = 80 * i + 8.

Lemma length_enc r : record_ok r → length (enc r) = 80.
Proof. intros (_ & _ & Hv). unfold enc. rewrite !length_app, !length_put_le, Hv. done. Qed.

Lemma length_encs rs : Forall record_ok rs → length (concat (enc <$> rs)) = 80 * length rs.
Proof.
  induction 1 as [|r rs Hr _ IH]; [done|]. rewrite concat_fmap_cons, length_app, IH, length_enc by done.
  cbn. lia.
Qed.

(** The bytes around the [i]-th record. *)
Lemma encs_split rs i r :
  Forall record_ok rs → rs !! i = Some r →
  ∃ A B, concat (enc <$> rs) = A ++ enc r ++ B ∧ length A = 80 * i ∧
    ∀ r', concat (enc <$> <[i := r']> rs) = A ++ enc r' ++ B.
Proof.
  intros Hok Hi. exists (concat (enc <$> take i rs)), (concat (enc <$> drop (S i) rs)).
  assert (i < length rs) by (by apply lookup_lt_Some in Hi). split_and!.
  - rewrite <-(take_drop_middle rs i r Hi) at 1. by rewrite fmap_app, concat_app, concat_fmap_cons.
  - rewrite length_encs; [rewrite length_take; lia|by apply Forall_take].
  - intros r'. rewrite insert_take_drop by done. by rewrite fmap_app, concat_app, concat_fmap_cons.
Qed.

Lemma splice_app X M bs Y : length bs = length M → splice (X ++ M ++ Y) (length X) bs = X ++ bs ++ Y.
Proof.
  intros Hl. unfold splice. rewrite take_app_length. f_equal. f_equal.
  by rewrite Hl, <-drop_drop, !drop_app_length.
Qed.

Lemma slice_app X M Y : slice (X ++ M ++ Y) (length X) (length M) = Ok M.
Proof.
  unfold slice. rewrite decide_True by (rewrite !length_app; lia).
  by rewrite drop_app_length, take_app_length.
Qed.

Lemma slice_app_at X M Y a n : length X = a → length M = n → slice (X ++ M ++ Y) a n = Ok M.
Proof. intros <- <-. apply slice_app. Qed.

(** Overwriting the value of a record, in place. *)
Definition set_value (r : record) (v : list Z) : record :=
  mkRecord (rkey r) (length v) (v ++ drop (length v) (rval r)).

Lemma record_ok_set_value r v : record_ok r → length v ≤ ValueFixedLength → record_ok (set_value r v).
Proof.
  intros (Hk & Hl & Hv) Hlen. split; [done|]. split; [done|]. cbn. rewrite length_app, length_drop. lia.
Qed.

Lemma payload_set_value r v : payload (set_value r v) = v.
Proof. unfold payload. cbn. by rewrite take_app_length. Qed.

Lemma write_value_bytes A B r v :
  record_ok r → length v ≤ ValueFixedLength →
  (d ← put_uint64 (A ++ enc r ++ B) (length A + 8) (Z.of_nat (length v));
   if decide (length A + 8 + 8 + ValueFixedLength ≤ length d)
   then Ok (splice d (length A + 8 + 8) v) else Panic PSlice) = Ok (A ++ enc (set_value r v) ++ B).
Proof.
  intros Hr Hlen. pose proof Hr as (_ & _ & Hv). unfold put_uint64.
  pose proof (length_enc r Hr) as He.
  rewrite decide_True by (rewrite !length_app, He; lia). unfold mbind, res_bind.
  assert (splice (A ++ enc r ++ B) (length A + 8) (put_le 8 (Z.of_nat (length v))) =
    A ++ put_le 8 (rkey r) ++ put_le 8 (Z.of_nat (length v)) ++ rval r ++ B) as ->.
  { unfold enc. rewrite <-!app_assoc, (app_assoc A).
    replace (length A + 8) with (length (A ++ put_le 8 (rkey r)))
      by (by rewrite length_app, length_put_le).
    rewrite splice_app by (by rewrite !length_put_le). by rewrite <-app_assoc. }
  rewrite decide_True by (rewrite !length_app, !length_put_le, Hv; lia). f_equal.
  unfold enc. cbn [set_value rkey rlen rval]. rewrite <-!app_assoc.
  rewrite <-(take_drop (length v) (rval r)) at 1. rewrite <-app_assoc.
  rewrite (app_assoc (put_le 8 (rkey r))), (app_assoc A).
  replace (length A + 8 + 8) with
    (length (A ++ put_le 8 (rkey r) ++ put_le 8 (Z.of_nat (length v))))
    by (rewrite !length_app, !length_put_le; lia).
  rewrite splice_app by (rewrite length_take; lia). by rewrite <-!app_assoc.
Qed.

Lemma get_uint64_app X v Y n :
  length X = n → (0 ≤ v < 2 ^ 64)%Z → get_uint64 (X ++ put_le 8 v ++ Y) n = Ok v.
Proof.
  intros <- Hv. unfold get_uint64. pose proof (slice_app X (put_le 8 v) Y) as Hs.
  rewrite length_put_le in Hs. rewrite Hs. unfold mbind, res_bind. f_equal. by apply get_put_le.
Qed.

(** The abstract content of a log: a map from ids to values. *)
Definition view (rs : list record) : gmap Z (list Z) :=
  list_to_map ((λ r, (rkey r, payload r)) <$> rs).

Lemma view_lookup rs i r :
  NoDup (rkey <$> rs) → rs !! i = Some r → view rs !! rkey r = Some (payload r).
Proof.
  intros Hnd Hi. apply elem_of_list_to_map.
  - rewrite <-list_fmap_compose. done.
  - apply list_elem_of_fmap. exists r. split; [done|]. by eapply list_elem_of_lookup_2.
Qed.

Lemma view_lookup_None rs k : view rs !! k = None ↔ k ∉ rkey <$> rs.
Proof.
  unfold view. rewrite <-not_elem_of_list_to_map.
  by replace ((λ r, (rkey r, payload r)) <$> rs).*1 with (rkey <$> rs)
    by (by rewrite <-list_fmap_compose).
Qed.

Lemma view_set_value rs i r v :
  NoDup (rkey <$> rs) → rs !! i = Some r →
  NoDup (rkey <$> <[i := set_value r v]> rs) ∧
  view (<[i := set_value r v]> rs) = <[rkey r := v]> (view rs).
Proof.
  intros Hnd Hi. assert (rkey <$> <[i := set_value r v]> rs = rkey <$> rs) as Hk.
  { rewrite list_fmap_insert. apply list_insert_id. by rewrite list_lookup_fmap, Hi. }
  rewrite Hk. split; [done|]. unfold view. rewrite list_fmap_insert, payload_set_value.
  cbn [set_value rkey].
  pose proof (lookup_lt_Some _ _ _ Hi) as Hlt.
  rewrite insert_take_drop by (by rewrite length_fmap).
  rewrite <-(take_drop_middle rs i r Hi) at 3.
  rewrite <-fmap_take, <-fmap_drop, fmap_app, fmap_cons.
  rewrite <-(take_drop_middle rs i r Hi), fmap_app, fmap_cons in Hnd.
  apply NoDup_app in Hnd as (_ & Hd & _).
  rewrite !list_to_map_app. cbn.
  rewrite <-!insert_union_r, insert_insert_eq; [done|..];
    apply not_elem_of_list_to_map_1; rewrite <-list_fmap_compose;
    intros Hin; (apply (Hd (rkey r)); [exact Hin|by left]).
Qed.

(** * The operations on represented logs *)

Lemma Read_repr l rs k :
  repr l rs →
  Read l k = match view rs !! k with Some v => Ok v | None => Err ErrNotFound end.
Proof.
  intros (Hd & _ & Hok & Hnd & Hidx). unfold Read.
  destruct (index l !! k) as [off|] eqn:Hk.
  - apply Hidx in Hk as (i & r & Hi & <- & ->). rewrite (view_lookup rs i r Hnd Hi).
    destruct (encs_split rs i r Hok Hi) as (A & B & Hsp & HA & _).
    pose proof (Forall_lookup_1 _ _ _ _ Hok Hi) as (Hkr & Hl & Hv).
    rewrite Hd, Hsp. unfold enc. rewrite <-!app_assoc, (app_assoc A).
    rewrite get_uint64_app;
      [|rewrite length_app, length_put_le, HA; lia|unfold ValueFixedLength in *; lia].
    unfold mbind, res_bind. rewrite Nat2Z.id.
    rewrite <-(take_drop (rlen r) (rval r)) at 1.
    rewrite <-(app_assoc (take _ _)), (app_assoc (A ++ _)).
    apply slice_app_at; [rewrite !length_app, !length_put_le; lia|].
    unfold payload. rewrite length_take. lia.
  - assert (view rs !! k = None) as ->; [|done]. apply view_lookup_None.
    intros (r & -> & (i & Hi)%list_elem_of_lookup)%list_elem_of_fmap.
    enough (index l !! rkey r = Some (80 * i + 8)) by congruence.
    apply Hidx. by exists i, r.
Qed.

(** A new record, as [Write] appends it. *)
Definition new_record (k : Z) (v : list Z) : record :=
  set_value (mkRecord k 0 (replicate ValueFixedLength 0%Z)) v.

Lemma record_ok_new k v :
  (0 ≤ k < 2 ^ 64)%Z → length v ≤ ValueFixedLength → record_ok (new_record k v).
Proof. intros. apply record_ok_set_value; [|done]. split_and!; cbn; lia || done. Qed.

Lemma write_append_bytes D k v :
  (0 ≤ k < 2 ^ 64)%Z → length v ≤ ValueFixedLength →
  (d ← put_uint64 (D ++ replicate (8 + 8 + ValueFixedLength) 0%Z) (length D) k;
   d ← put_uint64 d (length D + 8) (Z.of_nat (length v));
   Ok (splice d (length D + 8 + 8) v)) = Ok (D ++ enc (new_record k v)).
Proof.
  intros Hk Hlen. set (r0 := mkRecord k 0 (replicate ValueFixedLength 0%Z)).
  assert (record_ok r0) as Hr0 by (split_and!; cbn; lia || done).
  assert (put_uint64 (D ++ replicate (8 + 8 + ValueFixedLength) 0%Z) (length D) k =
    Ok (D ++ enc r0 ++ [])) as ->.
  { unfold put_uint64. rewrite decide_True by (rewrite length_app, length_replicate; lia).
    rewrite <-Nat.add_assoc, replicate_add, splice_app by (by rewrite length_put_le).
    by rewrite app_nil_r. }
  unfold mbind at 1, res_bind at 1.
  pose proof (write_value_bytes D [] r0 v Hr0 Hlen) as H. unfold new_record. fold r0.
  repeat rewrite app_nil_r in H. rewrite app_nil_r.
  destruct (put_uint64 _ _ (Z.of_nat _)) as [d| |]; cbn [mbind res_bind] in H |- *; try done.
  case_decide; [done|discriminate].
Qed.

Lemma repr_append l rs k v file :
  repr l rs → k ∉ rkey <$> rs → (0 ≤ k < 2 ^ 64)%Z → length v ≤ ValueFixedLength →
  file = data l ++ enc (new_record k v) →
  repr (mkLog (<[k := length (data l) + 8]> (index l)) (data l ++ enc (new_record k v)) file)
    (rs ++ [new_record k v]).
Proof.
  intros (Hd & Hf & Hok & Hnd & Hidx) Hk Hkr Hlen ->. unfold repr. cbn [data f index]. split_and!.
  - by rewrite fmap_app, concat_app, Hd, concat_fmap_cons, app_nil_r.
  - done.
  - apply Forall_app. split; [done|]. constructor; [by apply record_ok_new|done].
  - rewrite fmap_app. apply NoDup_app. split_and!; [done| |apply NoDup_singleton].
    intros x Hx ->%list_elem_of_singleton. done.
  - intros k' off. rewrite lookup_insert_Some, Hidx, Hd, length_encs by done. split.
    + intros [[<- <-]|[_ (i & r & Hi & Hr & ->)]].
      * exists (length rs), (new_record k v). split_and!; [|done|lia].
        rewrite lookup_app_r, Nat.sub_diag by done. done.
      * exists i, r. split_and!; [|done..]. by apply lookup_app_l_Some.
    + intros (i & r & [Hi|[Hi Hr]]%lookup_app_Some & <- & ->).
      * right. split; [|eauto]. intros ->. apply Hk. apply list_elem_of_fmap.
        exists r. split; [done|]. by eapply list_elem_of_lookup_2.
      * left. destruct (i - length rs) as [|n] eqn:En; [|done]. cbn in Hr. simplify_eq/=.
        split; [done|lia].
Qed.

Lemma repr_overwrite l rs i r v off :
  repr l rs → rs !! i = Some r → length v ≤ ValueFixedLength → off = 80 * i + 8 →
  ∃ d, (d ← put_uint64 (data l) off (Z.of_nat (length v));
        if decide (off + 8 + ValueFixedLength ≤ length d)
        then Ok (splice d (off + 8) v) else Panic PSlice) = Ok d ∧
    length d = length (data l) ∧
    repr (mkLog (index l) d d) (<[i := set_value r v]> rs).
Proof.
  intros (Hd & Hf & Hok & Hnd & Hidx) Hi Hlen ->.
  destruct (encs_split rs i r Hok Hi) as (A & B & Hsp & HA & Hset).
  pose proof (Forall_lookup_1 _ _ _ _ Hok Hi) as Hr.
  pose proof (record_ok_set_value r v Hr Hlen) as Hr'.
  exists (A ++ enc (set_value r v) ++ B). split_and!.
  - rewrite Hd, Hsp, <-HA. by apply write_value_bytes.
  - by rewrite Hd, Hsp, !length_app, !length_enc.
  - unfold repr. cbn [data f index]. split_and!; [by rewrite Hset|done| |by apply view_set_value|].
    + by apply Forall_insert.
    + intros k off. rewrite Hidx. pose proof (lookup_lt_Some _ _ _ Hi) as Hlt. split.
      * intros (j & r' & Hj & Hk & ->). destruct (decide (i = j)) as [<-|Hne].
        -- exists i, (set_value r v). rewrite list_lookup_insert_eq by done. simplify_eq. done.
        -- exists j, r'. by rewrite list_lookup_insert_ne.
      * intros (j & r' & Hj & Hk & ->). destruct (decide (i = j)) as [<-|Hne].
        -- rewrite list_lookup_insert_eq in Hj by done. simplify_eq. by exists i, r.
        -- rewrite list_lookup_insert_ne in Hj by done. by exists j, r'.
Qed.

(** [Write] implements the insertion of the abstract map, and the file holds
    the new bytes. *)
Lemma Write_repr l rs k v :
  repr l rs → (0 ≤ k < 2 ^ 64)%Z → length v ≤ ValueFixedLength →
  ∃ l' rs', Write l k v None = (Ok tt, l') ∧ repr l' rs' ∧ view rs' = <[k := v]> (view rs).
Proof.
  intros Hrepr Hk Hlen. pose proof Hrepr as (Hd & Hf & Hok & Hnd & Hidx).
  unfold Write. rewrite decide_False by lia. unfold write_data.
  destruct (index l !! k) as [off|] eqn:Ek.
  - apply Hidx in Ek as (i & r & Hi & <- & Hoff).
    destruct (repr_overwrite l rs i r v off Hrepr Hi Hlen Hoff) as (d & Hw & Hld & Hrepr').
    exists (mkLog (index l) d d), (<[i := set_value r v]> rs). split_and!; [|done|by apply view_set_value].
    destruct (put_uint64 _ _ _) as [d0| |]; cbn [mbind res_bind] in Hw |- *; try done.
    case_decide; [|done]. injection Hw as <-. unfold write_file.
    by rewrite Hld, Hf, drop_all, app_nil_r.
  - assert (k ∉ rkey <$> rs) as Hnew.
    { intros (r & -> & (i & Hi)%list_elem_of_lookup)%list_elem_of_fmap.
      enough (index l !! rkey r = Some (80 * i + 8)) by congruence. apply Hidx. by exists i, r. }
    pose proof (write_append_bytes (data l) k v Hk Hlen) as Hw.
    eexists _, (rs ++ [new_record k v]). split_and!.
    + cbv zeta. destruct (put_uint64 _ _ k) as [d0| |]; cbn [mbind res_bind] in Hw |- *; try done.
      destruct (put_uint64 d0 _ _) as [d1| |]; cbn [mbind res_bind] in Hw |- *; try done.
      injection Hw as ->. reflexivity.
    + apply repr_append; [done..|]. unfold write_file. rewrite Hf, length_app.
      rewrite drop_ge by lia. by rewrite app_nil_r.
    + unfold view at 1. rewrite fmap_app.
      rewrite <-(payload_set_value (mkRecord k 0 (replicate ValueFixedLength 0%Z)) v) at 2.
      apply list_to_map_snoc. rewrite <-list_fmap_compose. exact Hnew.
Qed.

Lemma get_key A r B n : length A = n → record_ok r → get_uint64 (A ++ enc r ++ B) n = Ok (rkey r).
Proof. intros Hn [Hk _]. unfold enc. rewrite <-!app_assoc. by apply get_uint64_app. Qed.

(** Reading the records of a file back. *)
Lemma open_loop_repr rs spare : ∀ fuel done idx,
  Forall record_ok (done ++ rs) → 80 * length rs ≤ fuel →
  open_loop fuel (concat (enc <$> done ++ rs) ++ spare) (80 * length (done ++ rs))
    (80 * length done) idx =
  Ok (foldl (λ m ir, <[rkey ir.2 := 80 * ir.1 + 8]> m) idx (imap (λ i r, (length done + i, r)) rs)).
Proof.
  induction rs as [|r rs IH]; intros fuel dn idx Hok Hfuel.
  - rewrite app_nil_r. destruct fuel; cbn [open_loop]; [done|]. by rewrite decide_False by lia.
  - cbn [length] in Hfuel. destruct fuel as [|fuel]; [lia|]. cbn [open_loop].
    rewrite length_app. cbn [length]. rewrite decide_True by lia.
    assert (record_ok r) as Hr by (rewrite Forall_app, Forall_cons in Hok; tauto).
    assert (Forall record_ok dn) as Hdn by (rewrite Forall_app in Hok; tauto).
    assert (get_uint64 (concat (enc <$> dn ++ r :: rs) ++ spare) (80 * length dn) = Ok (rkey r)) as ->.
    { rewrite fmap_app, concat_app, concat_fmap_cons, <-!app_assoc.
      apply get_key; [by rewrite length_encs|done]. }
    unfold mbind, res_bind.
    specialize (IH fuel (dn ++ [r]) (<[rkey r := 80 * length dn + 8]> idx)).
    rewrite <-app_assoc in IH. cbn [app] in IH. rewrite (length_app dn (r :: rs)) in IH.
    cbn [length] in IH.
    replace (80 * length dn + 8 + 8 + ValueFixedLength) with (80 * length (dn ++ [r]))
      by (rewrite length_app; cbn [length]; unfold ValueFixedLength; lia).
    rewrite IH by (done || lia).
    rewrite imap_cons. cbn [foldl fst snd]. rewrite Nat.add_0_r. do 2 f_equal.
    apply imap_ext. intros i x _. rewrite length_app. cbn [length compose]. f_equal. lia.
Qed.

Lemma foldl_index rs : ∀ n (idx : gmap Z nat) k off,
  NoDup (rkey <$> rs) →
  foldl (λ m ir, <[rkey ir.2 := 80 * ir.1 + 8]> m) idx (imap (λ i r, (n + i, r)) rs) !! k = Some off ↔
  (∃ i r, rs !! i = Some r ∧ rkey r = k ∧ off = 80 * (n + i) + 8) ∨
  (k ∉ rkey <$> rs ∧ idx !! k = Some off).
Proof.
  induction rs as [|r rs IH]; intros n idx k off Hnd.
  - cbn [imap foldl]. split; [intros H; right; split; [apply not_elem_of_nil|done]|].
    intros [(i & r & Hi & _)|[_ H]]; [done|done].
  - rewrite fmap_cons, NoDup_cons in Hnd. destruct Hnd as [Hr Hnd].
    rewrite imap_cons. cbn [foldl fst snd]. rewrite Nat.add_0_r.
    rewrite (imap_ext _ (λ i r, (S n + i, r))) by (intros; cbn [compose]; f_equal; lia).
    rewrite IH by done. rewrite fmap_cons. split.
    + intros [(i & r' & Hi & Hk & ->)|[Hk Hlk]].
      * left. exists (S i), r'. split_and!; [done..|lia].
      * apply lookup_insert_Some in Hlk as [[<- <-]|[Hne Hlk]].
        -- left. exists 0, r. split_and!; [done..|lia].
        -- right. split; [|done]. rewrite not_elem_of_cons. auto.
    + intros [(i & r' & Hi & Hk & ->)|[Hk Hlk]].
      * destruct i as [|i]; cbn in Hi.
        -- simplify_eq. right. split; [done|]. rewrite lookup_insert_eq. f_equal. lia.
        -- left. exists i, r'. split_and!; [done..|lia].
      * apply not_elem_of_cons in Hk as [Hne Hk]. right. split; [done|].
        by rewrite lookup_insert_ne.
Qed.

(** Reopening the file of a log gives the same log. *)
Lemma Open_repr spare l rs :
  repr l rs → ∃ l', Open spare (f l) = Ok l' ∧ repr l' rs.
Proof.
  intros (Hd & Hf & Hok & Hnd & _). unfold Open. rewrite Hf, Hd.
  pose proof (open_loop_repr rs (replicate spare 0%Z) (80 * length rs) [] ∅ Hok ltac:(done)) as Ho.
  cbn [app] in Ho. rewrite length_encs by done.
  replace (80 * length (A:=record) []) with 0 in Ho by done. rewrite Ho. cbn [mbind res_bind].
  eexists. split; [reflexivity|]. unfold repr. cbn [data f index]. split_and!; [done..|].
  intros k off. rewrite foldl_index by done. split.
  - intros [(i & r & ?)|[_ H]]; [eauto|]. by rewrite lookup_empty in H.
  - intros (i & r & ?). left. by exists i, r.
Qed.

(** * Properties *)

(** A sequence of [Write]s, none of which meets an I/O error. *)
Definition writes (l : Log) (ws : list (Z * list Z)) : Log :=
  foldl (λ l w, (Write l w.1 w.2 None).2) l ws.

(** The map the log stands for: oversized values are refused. *)
Definition map_after (m : gmap Z (list Z)) (ws : list (Z * list Z)) : gmap Z (list Z) :=
  foldl (λ m w, if decide (length w.2 ≤ ValueFixedLength) then <[w.1 := w.2]> m else m) m ws.

Lemma writes_repr ws : ∀ l rs,
  Forall (λ w, (0 ≤ w.1 < 2 ^ 64)%Z) ws → repr l rs →
  ∃ rs', repr (writes l ws) rs' ∧ view rs' = map_after (view rs) ws.
Proof.
  induction ws as [|[k v] ws IH]; intros l rs Hws Hrepr; [by exists rs|].
  apply Forall_cons in Hws as [Hk Hws]. cbn [writes map_after foldl fst snd] in Hk |- *.
  case_decide as Hlen.
  - destruct (Write_repr l rs k v Hrepr Hk Hlen) as (l' & rs' & Hw & Hrepr' & <-).
    rewrite Hw. by apply IH.
  - unfold Write. rewrite decide_True by lia. by apply IH.
Qed.

(** A failed write is reported as such. *)
Lemma writeRedoLog_io_err l action minID maxID e file :
  (writeRedoLog l action minID maxID (Some (e, file))).1 ≠ Ok tt.
Proof.
  unfold writeRedoLog, Write. cbv zeta. case_decide; [done|].
  destruct (write_data _ _ _) as [[]| |]; done.
Qed.

Lemma repr_empty : repr (mkLog ∅ [] []) [].
Proof.
  split_and!; [done|done|constructor|constructor|]. intros k off. cbn [index].
  rewrite lookup_empty. split; [done|]. by intros (i & r & ? & _).
Qed.

(** C13: The redo log is a durable map.  For any sequence of writes of uint64
    ids to a log opened on an empty file, reading an id gives the last value
    of at most 64 bytes written to it (longer values are refused and change
    nothing) and "not found" for an id never written; and reopening the file
    left on disk, with any spare capacity of the read buffer, succeeds and
    answers every read in the same way. *)
Theorem redo_log_durable (spare : nat) (ws : list (Z * list Z)) :
  Forall (λ w, (0 ≤ w.1 < 2 ^ 64)%Z) ws →
  ∃ l0 l', Open spare [] = Ok l0 ∧ Open spare (f (writes l0 ws)) = Ok l' ∧
    ∀ k, Read (writes l0 ws) k = Read l' k ∧
         Read l' k = match map_after ∅ ws !! k with Some v => Ok v | None => Err ErrNotFound end.
Proof.
  intros Hws. exists (mkLog ∅ [] []).
  destruct (writes_repr ws _ _ Hws repr_empty) as (rs & Hrepr & Hview).
  destruct (Open_repr spare _ _ Hrepr) as (l' & Ho & Hrepr'). exists l'. split_and!; [done..|].
  intros k. change (view []) with (∅ : gmap Z (list Z)) in Hview.
  by rewrite (Read_repr _ _ k Hrepr), (Read_repr _ _ k Hrepr'), Hview.
Qed.

Lemma redo_log_durable_witness :
  ∃ l0 l', Open 16 [] = Ok l0 ∧
    Open 16 (f (writes l0 [(1, [5; 6]); (2, [7]); (1, [8]); (2, replicate 65 0)]%Z)) = Ok l' ∧
    Read l' 1 = Ok [8]%Z ∧ Read l' 2 = Ok [7]%Z ∧ Read l' 3 = Err ErrNotFound.
Proof.
  destruct (redo_log_durable 16 [(1, [5; 6]); (2, [7]); (1, [8]); (2, replicate 65 0)]%Z)
    as (l0 & l' & H0 & Ho & Hr).
  - repeat constructor; cbn; lia.
  - exists l0, l'. split_and!; [done..| | |]; rewrite (proj2 (Hr _)); reflexivity.
Defined.

(** A range of ids in the redo log: written, read back, the rest kept. *)
Lemma writeRedoLog_repr l rs action minID maxID :
  repr l rs → (0 ≤ action < 2 ^ 64)%Z → (0 ≤ minID < 2 ^ 64)%Z → (0 ≤ maxID < 2 ^ 64)%Z →
  ∃ l' rs', writeRedoLog l action minID maxID None = (Ok tt, l') ∧ repr l' rs' ∧
    readRedoLog l' action = Ok (minID, maxID) ∧
    (∀ other, other ≠ action → readRedoLog l' other = readRedoLog l other).
Proof.
  intros Hrepr Ha Hmin Hmax. unfold writeRedoLog. cbv zeta.
  set (value := FormatUint minID +:+ String ":" (FormatUint maxID)).
  destruct (Write_repr l rs action (bytes value) Hrepr Ha) as (l' & rs' & Hw & Hrepr' & Hview).
  { rewrite length_bytes. unfold value. rewrite length_append. cbn [String.length].
    pose proof (length_FormatUint minID Hmin). pose proof (length_FormatUint maxID Hmax).
    unfold ValueFixedLength. lia. }
  exists l', rs'. split_and!; [done|done| |].
  - unfold readRedoLog. rewrite (Read_repr _ _ _ Hrepr'), Hview, lookup_insert_eq.
    cbn [mbind res_bind]. rewrite of_bytes_bytes. unfold value.
    rewrite Split_app, Split_no_sep by (by apply FormatUint_no_char). cbv zeta.
    by rewrite !ParseUint_FormatUint.
  - intros other Hne. unfold readRedoLog.
    by rewrite (Read_repr _ _ _ Hrepr'), (Read_repr _ _ _ Hrepr), Hview, lookup_insert_ne.
Qed.

(** A range of WAL ids written to the redo log is read back exactly: for
    any two uint64 ids the text "min:max" fits the 64-byte record, and
    [readRedoLog] of the same action returns the two ids, while the entries of
    every other action keep their value. *)
Theorem redo_range_roundtrip l rs (action minID maxID : Z) :
  repr l rs → (0 ≤ action < 2 ^ 64)%Z → (0 ≤ minID < 2 ^ 64)%Z → (0 ≤ maxID < 2 ^ 64)%Z →
  ∃ l', writeRedoLog l action minID maxID None = (Ok tt, l') ∧
    readRedoLog l' action = Ok (minID, maxID) ∧
    (∀ other, other ≠ action → readRedoLog l' other = readRedoLog l other).
Proof.
  intros Hr Ha Hmin Hmax.
  destruct (writeRedoLog_repr l rs action minID maxID Hr Ha Hmin Hmax) as (l' & rs' & ? & _ & ? & ?). eauto.
Qed.

Lemma redo_range_roundtrip_witness :
  ∃ l', writeRedoLog (mkLog ∅ [] []) RedoActionRead 0 (2 ^ 64 - 1) None = (Ok tt, l') ∧
    readRedoLog l' RedoActionRead = Ok (0, 2 ^ 64 - 1)%Z ∧
    readRedoLog l' RedoActionWrite = Err ErrNotFound.
Proof.
  destruct (redo_range_roundtrip (mkLog ∅ [] []) [] RedoActionRead 0 (2 ^ 64 - 1) repr_empty)
    as (l' & Hw & Hr & Ho); [unfold RedoActionRead; lia..|].
  exists l'. split_and!; [done..|]. rewrite Ho by done. reflexivity.
Defined.
