(* ===== verification/Value.v ===== *)
(** Values of a decoded JSON document ([interface{}] in Go), the conversions of
    pkg/zutils (strconv.go, map.go, time.go, time_zone.go, strings.go) and
    pkg/zutils/flatten. *)
From Stdlib Require Import SpecFloat.
From S2P Require Import Prelude Hash Strconv.

(** * Dynamic values *)

(** A float64 is an IEEE binary64 number of the Standard Library's
    [SpecFloat].  A Go map is an association list without repeated keys in the
    order one traversal visits it: Go leaves that order open, so a statement
    about every [value] covers every traversal. *)
Definition float64 : Type := spec_float.

Inductive value : Type :=
  | VNil
  | VBool (b : bool)
  | VFloat (f : float64)
  | VInt (z : Z)
  | VInt64 (z : Z)
  | VUint64 (z : Z)
  | VStr (s : string)
  | VArr (vs : list value)
  | VMap (m : list (string * value)).

(** Induction on the structure of a value, through arrays and maps. *)
Lemma value_nested_ind (P : value → Prop) :
  P VNil → (∀ b, P (VBool b)) → (∀ f, P (VFloat f)) → (∀ z, P (VInt z)) → (∀ z, P (VInt64 z)) →
  (∀ z, P (VUint64 z)) → (∀ s, P (VStr s)) → (∀ vs, Forall P vs → P (VArr vs)) →
  (∀ m, Forall (P ∘ snd) m → P (VMap m)) → ∀ v, P v.
Proof.
  intros Hn Hb Hf Hi Hi64 Hu Hs Ha Hm. fix IH 1. intros [|b|f|z|z|z|s|vs|m]; [done|apply Hb|apply Hf|apply Hi|apply Hi64|apply Hu|apply Hs|..].
  - apply Ha. induction vs as [|v vs IHvs]; constructor; [apply IH|apply IHvs].
  - apply Hm. induction m as [|[k v] m IHm]; constructor; [apply IH|apply IHm].
Qed.

(** The conversion of an integer to float64, rounding to nearest even. *)
Definition float_of_Z (z : Z) : float64 := binary_normalize 53 1024 z 0 false.

(** Truncation towards zero; [None] for NaN and the infinities. *)
Definition float_trunc (x : float64) : option Z :=
  match x with
  | S754_zero _ => Some 0%Z
  | S754_finite s m e =>
      let a := if (0 <=? e)%Z then Z.shiftl (Zpos m) e else Z.shiftr (Zpos m) (- e) in
      Some (if s then (- a)%Z else a)
  | _ => None
  end.

(** [int64(x)] and [uint64(x)]: what does not fit gives the "integer
    indefinite" value of the amd64 instruction. *)
Definition int64_of_float (x : float64) : Z :=
  match float_trunc x with
  | Some z => if decide (- 2 ^ 63 ≤ z < 2 ^ 63)%Z then z else (- 2 ^ 63)%Z
  | None => (- 2 ^ 63)%Z
  end.
Definition uint64_of_float (x : float64) : Z :=
  match float_trunc x with
  | Some z => if decide (0 ≤ z < 2 ^ 64)%Z then z else
              if decide (- 2 ^ 63 ≤ z < 0)%Z then wrap64 z else (2 ^ 63)%Z
  | None => (2 ^ 63)%Z
  end.

Definition float_is_zero (x : float64) : bool :=
  match x with S754_zero _ => true | _ => false end.

(** * Decimal and boolean text *)

(** [strconv.ParseInt(s, 10, 64)] and [strconv.Atoi]. *)
Definition ParseInt (s : string) : res Z :=
  let parse neg s :=
    un ← ParseUint s;
    if negb neg then if decide (2 ^ 63 ≤ un)%Z then Err ErrRange else Ok un
    else if decide (2 ^ 63 < un)%Z then Err ErrRange else Ok (- un)%Z in
  match s with
  | EmptyString => Err ErrSyntax
  | String "+" s' => parse false s'
  | String "-" s' => parse true s'
  | _ => parse false s
  end.
Definition Atoi : string → res Z := ParseInt.

Definition FormatInt (z : Z) : string :=
  if decide (z < 0)%Z then String "-" (FormatUint (- z)) else FormatUint z.

Definition ParseBool (s : string) : res bool :=
  if decide (s ∈ ["1"; "t"; "T"; "true"; "TRUE"; "True"]) then Ok true
  else if decide (s ∈ ["0"; "f"; "F"; "false"; "FALSE"; "False"]) then Ok false
  else Err ErrSyntax.

Definition FormatBool (b : bool) : string := if b then "true" else "false".

(** * zutils: conversions *)

Section conversions.
(** The decimal text of a binary64 number ([strconv.FormatFloat(v, 'f', -1, 64)],
    [strconv.ParseFloat]) and the [%v] verb. *)
Context (FormatFloat : float64 → string) (ParseFloat : string → float64 + string) (Sprint : value → string).

Definition ToString (v : value) : res string :=
  match v with
  | VStr s => Ok s
  | VFloat x => Ok (FormatFloat x)
  | VUint64 z => Ok (FormatUint z)
  | VInt64 z | VInt z => Ok (FormatInt z)
  | VBool b => Ok (FormatBool b)
  | _ => Ok (Sprint v)
  end.

Definition ToFloat64 (v : value) : res float64 :=
  match v with
  | VFloat x => Ok x
  | VUint64 z | VInt64 z | VInt z => Ok (float_of_Z z)
  | VStr s => match ParseFloat s with inl x => Ok x | inr e => Err e end
  | VBool b => Ok (if b then float_of_Z 1 else S754_zero false)
  | _ => Err "ToFloat64: unknown supported type"
  end.

Definition ToUint64 (v : value) : res Z :=
  match v with
  | VUint64 z => Ok z
  | VFloat x => Ok (uint64_of_float x)
  | VInt64 z | VInt z => Ok (wrap64 z)
  | VStr s => ParseUint s
  | VBool b => Ok (if b then 1%Z else 0%Z)
  | _ => Err "ToInt: unknown supported type"
  end.

Definition ToInt (v : value) : res Z :=
  match v with
  | VInt z | VInt64 z => Ok z
  | VFloat x => Ok (int64_of_float x)
  | VUint64 z => Ok (int64 z)
  | VStr s => Atoi s
  | VBool b => Ok (if b then 1%Z else 0%Z)
  | _ => Err "ToInt: unknown supported type"
  end.

Definition ToBool (v : value) : res bool :=
  match v with
  | VBool b => Ok b
  | VStr s => ParseBool s
  | VFloat x => Ok (negb (float_is_zero x))
  | VUint64 z | VInt64 z | VInt z => Ok (negb (z =? 0)%Z)
  | _ => Err "ToInt: unknown supported type"
  end.
End conversions.

(** * zutils: typed access to a decoded object *)

Fixpoint assoc {A} (k : string) (m : list (string * A)) : option A :=
  match m with
  | [] => None
  | (k', v) :: m' => if decide (k = k') then Some v else assoc k m'
  end.

Definition GetAnyFromMap (m : value) (key : string) : res value :=
  match m with
  | VNil => Err "GetAnyFromMap: map is nil"
  | VMap mm =>
      match assoc key mm with
      | Some v => Ok v
      | None => Err ("GetAnyFromMap: key [" +:+ key +:+ "] not found")
      end
  | _ => Err "GetAnyFromMap: map should be a map / object"
  end.

(** The shape the typed getters share: a missing key and a value of another
    type are different errors. *)
Definition get_from_map {A} (name should : string) (cast : value → option A) (m : value) (key : string)
    : res A :=
  match GetAnyFromMap m key with
  | Ok v =>
      match cast v with
      | Some a => Ok a
      | None => Err (name +:+ ": value [" +:+ key +:+ "] " +:+ should)
      end
  | _ => Err (name +:+ ": key [" +:+ key +:+ "] not found")
  end.

Definition as_string (v : value) : option string := match v with VStr s => Some s | _ => None end.
Definition as_bool (v : value) : option bool := match v with VBool b => Some b | _ => None end.
Definition as_float (v : value) : option float64 := match v with VFloat x => Some x | _ => None end.
Definition as_map (v : value) : option (list (string * value)) :=
  match v with VMap m => Some m | _ => None end.
Definition as_array (v : value) : option (list value) := match v with VArr l => Some l | _ => None end.
Definition as_strings (v : value) : option (list string) :=
  match v with VArr l => mapM as_string l | _ => None end.

Definition GetStringFromMap := get_from_map "GetStringFromMap" "should be a string" as_string.
Definition GetBoolFromMap := get_from_map "GetBoolFromMap" "shuld be a bool" as_bool.
Definition GetFloatFromMap := get_from_map "GetFloatFromMap" "should be a float64" as_float.
Definition GetStringSliceFromMap :=
  get_from_map "GetStringSliceFromMap" "should be an array of string" as_strings.
Definition GetMapFromMap := get_from_map "GetMapFromMap" "should be an object" as_map.

(** * zutils: time *)

(** An instant is its number of nanoseconds since the Unix epoch. *)
Definition seconds : Z := 1000000000.

(** [Unix] guesses the unit of a number from its size. *)
Definition Unix (n : Z) : Z :=
  if (10 ^ 18 <? n)%Z then n
  else if (10 ^ 15 <? n)%Z then (n * 1000)%Z
  else if (10 ^ 12 <? n)%Z then (n * 1000000)%Z
  else (n * seconds)%Z.

(** [t.IsZero()]: January 1 of year 1. *)
Definition IsZero (t : Z) : bool := (t =? (-62135596800) * seconds)%Z.

(** [t.UnixNano()] wraps around outside of years 1678 to 2262. *)
Definition UnixNano (t : Z) : Z := int64 t.

(** A location: a fixed offset in seconds, the local zone, or a named one. *)
Inductive location := UTC | Local | FixedZone (offset : Z) | Named (name : string).

Fixpoint trim_left (s : string) : string :=
  match s with
  | String c s' => if decide (c ∈ [" "; "009"; "010"; "011"; "012"; "013"]%char) then trim_left s' else s
  | EmptyString => s
  end.
Definition rev_string (s : string) : string := of_bytes (reverse (bytes s)).
Definition TrimSpace (s : string) : string := rev_string (trim_left (rev_string (trim_left s))).

Definition StringToInt (s : string) : Z :=
  match Atoi (TrimSpace s) with Ok z => z | _ => 0%Z end.

Definition to_upper (c : ascii) : ascii :=
  let n := nat_of_ascii c in if decide (97 ≤ n ≤ 122) then ascii_of_nat (n - 32) else c.
Fixpoint ToUpper (s : string) : string :=
  match s with String c s' => String (to_upper c) (ToUpper s') | EmptyString => s end.

(** [ParseTimeZone]; the name database of [time.LoadLocation] is a parameter. *)
Definition ParseTimeZone (LoadLocation : string → location + string) (name : string) : res location :=
  let ln := String.length name in
  let first := String.get 0 name in
  if decide (0 < ln ∧ (first = Some "+"%char ∨ first = Some "-"%char)) then
    let offset := if decide (3 ≤ ln) then (60 * 60 * StringToInt (String.substring 1 2 name))%Z else 0%Z in
    let offset := if decide (ln = 5) then (offset + 60 * StringToInt (String.substring 3 2 name))%Z
                  else offset in
    let offset := if decide (ln = 6 ∧ String.get 3 name = Some ":"%char)
                  then (offset + 60 * StringToInt (String.substring 4 2 name))%Z else offset in
    Ok (FixedZone (if decide (first = Some "-"%char) then (- offset)%Z else offset))
  else
    let upperName := ToUpper name in
    if decide (upperName = "" ∨ upperName = "UTC") then Ok UTC
    else if decide (upperName = "LOCAL") then Ok Local
    else match LoadLocation name with inl l => Ok l | inr e => Err e end.

Definition RFC3339 : string := "2006-01-02T15:04:05Z07:00".

Section parse_time.
(** [time.ParseInLocation] and the zone database. *)
Context (ParseInLocation : string → string → location → Z + string)
  (LoadLocation : string → location + string).

Definition ParseTime (v : value) (format timeZone : string) : res Z :=
  '(vInt, vStr) ← match v with
    | VFloat x => Ok (int64_of_float x, "")
    | VInt64 z => Ok (z, "")
    | VStr s => Ok (0%Z, s)
    | _ => Err "value type of time must be string / float64 / int64"
    end;
  if decide (vInt ≠ 0%Z) then
    let t := Unix vInt in
    if IsZero t
    then Err ("time format is [epoch_millis] but the value [" +:+ FormatInt vInt +:+ "] is not a valid timestamp")
    else Ok t
  else if decide (vStr = "") then Err "time value is empty"
  else
    let timFormat := if decide (format = "") then RFC3339 else format in
    timZone ← (if decide (timeZone = "") then Ok UTC
               else match ParseTimeZone LoadLocation timeZone with
                    | Ok z => Ok z
                    | _ => Err ("invalid time zone: " +:+ timeZone)
                    end);
    if decide (timFormat = "epoch_millis") then
      match ToInt (VStr vStr) with
      | Ok n =>
          let t := Unix n in
          if IsZero t
          then Err ("time format is [epoch_millis] but the value [" +:+ vStr +:+ "] is not a valid timestamp")
          else Ok t
      | _ => Err ("time format is [epoch_millis] but the value [" +:+ vStr +:+ "] can't convert to int")
      end
    else
      match ParseInLocation timFormat vStr timZone with
      | inl t => Ok t
      | inr e => Err ("time format is [" +:+ timFormat +:+ "] but the value [" +:+ vStr +:+ "] parse err: " +:+ e)
      end.

Lemma ParseTime_no_panic v format timeZone : is_panic (ParseTime v format timeZone) = false.
Proof.
  unfold ParseTime. destruct v; cbn [mbind res_bind]; try done;
    repeat (case_decide || case_match); cbn [mbind res_bind is_panic]; try done;
    repeat (case_decide || case_match); done.
Qed.
End parse_time.

(** * zutils/flatten *)

Definition is_container (v : value) : bool :=
  match v with VMap _ | VArr _ => true | _ => false end.

Definition enkey (top : bool) (prefix subkey : string) : string :=
  prefix +:+ (if top then subkey else String "." subkey).

(** [flatten] and its [assign]; the errors of the recursive calls are dropped
    by the source, and only a scalar at the top would raise one. *)
Fixpoint flatten (top : bool) (flatMap : gmap string value) (nested : value) (prefix : string)
    : gmap string value :=
  let assign (fm : gmap string value) (newKey : string) (v : value) :=
    if is_container v then flatten false fm v newKey else <[newKey := v]> fm in
  match nested with
  | VMap m =>
      (fix go fm (m : list (string * value)) :=
         match m with
         | [] => fm
         | (k, v) :: m' => go (assign fm (enkey top prefix k) v) m'
         end) flatMap m
  | VArr vs =>
      if forallb is_container vs then
        (fix go fm (i : nat) (vs : list value) :=
           match vs with
           | [] => fm
           | v :: vs' => go (assign fm (enkey top prefix (FormatInt (Z.of_nat i))) v) (S i) vs'
           end) flatMap 0 vs
      else <[prefix := nested]> flatMap
  | _ => flatMap
  end.

Definition ErrNotValidInput : string := "not a valid input: map or slice".

Definition Flatten (nested : list (string * value)) (prefix : string) : gmap string value :=
  flatten true ∅ (VMap nested) prefix.

(** The innermost loop of [Unflatten]: walk the key parts, creating objects on
    the way; [walked] are the parts already walked. *)
Fixpoint put_parts (key : string) (walked parts : list string) (v : value) (m : list (string * value))
    : res (list (string * value)) :=
  match parts with
  | [] => Ok m
  | [leaf] =>
      match assoc leaf m with
      | Some _ => Err ("key=" +:+ key +:+ " already exists")
      | None => Ok (m ++ [(leaf, v)])
      end
  | k :: parts' =>
      match assoc k m with
      | None => sub ← put_parts key (walked ++ [k]) parts' v []; Ok (m ++ [(k, VMap sub)])
      | Some (VMap sub) =>
          sub' ← put_parts key (walked ++ [k]) parts' v sub;
          Ok ((λ kv, if decide (kv.1 = k) then (k, VMap sub') else kv) <$> m)
      | Some _ => Err ("key=" +:+ Join "." (walked ++ [k]) +:+ " is not an object")
      end
  end.

Definition Unflatten (flat : list (string * value)) : res (list (string * value)) :=
  foldM (λ m kv, put_parts kv.1 [] (Split "." kv.1) kv.2 m) [] flat.
