(* ===== verification/Document.v ===== *)
(** Documents on their way into an index: the field mappings
    (pkg/meta/mappings.go, [SetMappings] of pkg/core/index.go), the check of a
    submitted document and the construction of the indexed one
    (pkg/core/index_shards_document.go, [isDateProperty] of
    pkg/core/index_document.go). *)
From Stdlib Require Import SpecFloat.
From S2P Require Import Prelude Hash Strconv Value.

(** What the code uses of Go's standard library beyond the functions that are
    defined: shortest decimal text of floats, the [%v] verb, date layouts and
    the zone database. *)
Class GoLib := {
  FormatFloat : float64 → string;
  ParseFloat : string → float64 + string;
  Sprint : value → string;
  ParseInLocation : string → string → location → Z + string;
  LoadLocation : string → location + string
}.

(** * pkg/meta: mappings *)

Module Meta.

#[local] Unset Elimination Schemes.
Inductive Property := mkProperty {
  Type_ : string;
  Analyzer : string;
  SearchAnalyzer : string;
  Format : string;
  TimeZone : string;
  Index : bool;
  Store : bool;
  Sortable : bool;
  Aggregatable : bool;
  Highlightable : bool;
  (** [None] is the nil map. *)
  Fields : option (list (string * Property));
  Dims : Z;
  M : Z;
  NBits : Z;
  VecIndexType : string;
  StoreWithFloat16 : bool
}.

(** The zero value, which a failed map lookup gives. *)
Definition zero_property : Property :=
  mkProperty "" "" "" "" "" false false false false false None 0 0 0 "" false.

Definition NewProperty (typ : string) : Property :=
  let text := bool_decide (typ = "text") in
  mkProperty typ "" "" "" "" true false (negb text) (negb text) false (Some []) 0 0 0 "" false.

Definition set_fields (p : Property) (fs : option (list (string * Property))) : Property :=
  mkProperty (Type_ p) (Analyzer p) (SearchAnalyzer p) (Format p) (TimeZone p) (Index p) (Store p)
    (Sortable p) (Aggregatable p) (Highlightable p) fs (Dims p) (M p) (NBits p) (VecIndexType p)
    (StoreWithFloat16 p).

Definition set_format (p : Property) (format : string) : Property :=
  mkProperty (Type_ p) (Analyzer p) (SearchAnalyzer p) format (TimeZone p) (Index p) (Store p)
    (Sortable p) (Aggregatable p) (Highlightable p) (Fields p) (Dims p) (M p) (NBits p) (VecIndexType p)
    (StoreWithFloat16 p).

Definition set_analyzers (p : Property) (a sa : string) : Property :=
  mkProperty (Type_ p) a sa (Format p) (TimeZone p) (Index p) (Store p)
    (Sortable p) (Aggregatable p) (Highlightable p) (Fields p) (Dims p) (M p) (NBits p) (VecIndexType p)
    (StoreWithFloat16 p).

Definition set_flags (p : Property) (index sortable aggregatable : bool) : Property :=
  mkProperty (Type_ p) (Analyzer p) (SearchAnalyzer p) (Format p) (TimeZone p) index (Store p)
    sortable aggregatable (Highlightable p) (Fields p) (Dims p) (M p) (NBits p) (VecIndexType p)
    (StoreWithFloat16 p).

Definition alist_set {A} (k : string) (v : A) (m : list (string * A)) : list (string * A) :=
  if decide (k ∈ m.*1) then (λ kv, if decide (kv.1 = k) then (k, v) else kv) <$> m else m ++ [(k, v)].

Definition AddField (p : Property) (field : string) (v : Property) : Property :=
  set_fields p (Some (alist_set field (set_fields v None) (default [] (Fields p)))).

(** [DeepClone] of a property. *)
Fixpoint DeepClone (p : Property) : Property :=
  let prop := NewProperty (Type_ p) in
  let prop := set_analyzers prop (Analyzer p) (SearchAnalyzer p) in
  let prop := set_format prop (Format p) in
  mkProperty (Type_ prop) (Analyzer prop) (SearchAnalyzer prop) (Format prop) (TimeZone prop)
    (Index p) (Store p) (Sortable p) (Aggregatable p) (Highlightable p)
    (match Fields p with
     | Some fs => Some ((fix go fs := match fs with
                                      | [] => []
                                      | (k, v) :: fs' => (k, DeepClone v) :: go fs'
                                      end) fs)
     | None => None
     end)
    (Dims prop) (M prop) (NBits prop) (VecIndexType prop) (StoreWithFloat16 prop).

(** A lookup of a missing property gives the zero property and [false]. *)
Definition GetProperty (m : gmap string Property) (field : string) : Property * bool :=
  match m !! field with Some p => (p, true) | None => (zero_property, false) end.

Definition SetProperty (m : gmap string Property) (field : string) (p : Property) : gmap string Property :=
  <[field := p]> m.

Definition TimeFieldName : string := "@timestamp".
Definition IDFieldName : string := "@_id".
Definition ActionFieldName : string := "@_action".
Definition ShardFieldName : string := "@_shard".
Definition SourceFieldName : string := "@_source".

Definition ActionTypeInsert : string := "insert".
Definition ActionTypeUpdate : string := "update".
Definition ActionTypeDelete : string := "delete".
Definition ActionTypeDeleteVecOnly : string := "delete_vec_only".

End Meta.

Abbreviation Mappings := (gmap string Meta.Property).

(** * SetMappings (pkg/core/index.go) *)

Module SetMappings.
Import Meta.

Record VectorSegment := mkSegment { Id : Z; Status : string; Count : Z }.

Record VecIndex := mkVecIndex {
  TargetType : string; vDims : Z; vNBits : Z; vM : Z; vStoreWithFloat16 : bool;
  CurrentSegmentId : Z; Segments : list VectorSegment
}.

Definition StatusGrowing : string := "growing".

Definition new_vec_index (prop : Property) : VecIndex :=
  mkVecIndex (VecIndexType prop) (Dims prop) (NBits prop) (M prop) (StoreWithFloat16 prop) 0
    [mkSegment 0 StatusGrowing 0].

(** Analyzers are kept on text fields only; [_id] and [@timestamp] are always
    mapped. *)
Definition normalise (mappings : Mappings) : Mappings :=
  let mappings := (λ p, if decide (Type_ p = "text") then p else set_analyzers p "" "") <$> mappings in
  let mappings := SetProperty mappings "_id" (NewProperty "keyword") in
  let ts := match mappings !! TimeFieldName with Some p => p | None => NewProperty "date" end in
  SetProperty mappings TimeFieldName (set_flags ts true true true).

(** [SetMappings]: every property is stored; a vector field gets a vector
    index the first time it is seen. *)
Definition SetMappings (mappings : option Mappings) (ref : Mappings) (vecs : gmap string VecIndex)
    : Mappings * gmap string VecIndex :=
  let mappings := normalise (default ∅ mappings) in
  (mappings ∪ ref,
   vecs ∪ (new_vec_index <$> filter (λ kp, Type_ kp.2 = "vector") mappings)).
End SetMappings.

(** * Checking a document *)

Module Check.
Import Meta.

Section check.
Context {lib : GoLib}.
(** [config.Global.EnableTextKeywordMapping]. *)
Context (EnableTextKeywordMapping : bool).

(** [strings.Index(s, c)] for one byte. *)
Fixpoint Index_char (c : ascii) (s : string) : option nat :=
  match s with
  | EmptyString => None
  | String c' s' => if decide (c = c') then Some 0 else S <$> Index_char c s'
  end.

Definition detectTimeLayout (v : string) : string :=
  let ln := String.length v in
  if decide (ln = 19 ∧ Index_char " " v = Some 10) then "2006-01-02 15:04:05"
  else if decide (ln = 19 ∧ Index_char "T" v = Some 10) then "2006-01-02T15:04:05"
  else if decide (ln = 25 ∧ Index_char "T" v = Some 10) then RFC3339
  else if decide (ln = 29 ∧ Index_char "T" v = Some 10 ∧ Index_char "." v = Some 19)
  then "2006-01-02T15:04:05.999Z07:00"
  else "".

Definition isDateProperty (v : string) : option string :=
  let layout := detectTimeLayout v in
  if decide (layout = "") then None
  else match ParseInLocation layout v UTC with inl _ => Some layout | inr _ => None end.

(** The mapping a string value gives to a field without one. *)
Definition set_string_property (mappings : Mappings) (key v : string) : Mappings :=
  match isDateProperty v with
  | Some layout => SetProperty mappings key (set_format (NewProperty "date") layout)
  | None =>
      let newProp := NewProperty "text" in
      if EnableTextKeywordMapping then
        let p := NewProperty "keyword" in
        SetProperty (SetProperty mappings (key +:+ ".keyword") p) key (AddField newProp "keyword" p)
      else SetProperty mappings key newProp
  end.

(** The default mapping by the dynamic type of a value. *)
Definition default_property (mappings : Mappings) (key : string) (v : value) : Mappings :=
  match v with
  | VStr s => set_string_property mappings key s
  | VInt _ | VInt64 _ | VFloat _ => SetProperty mappings key (NewProperty "numeric")
  | VBool _ => SetProperty mappings key (NewProperty "bool")
  | VArr (VStr s :: _) => set_string_property mappings key s
  | VArr (VFloat _ :: _) => SetProperty mappings key (NewProperty "numeric")
  | VArr (VBool _ :: _) => SetProperty mappings key (NewProperty "bool")
  | _ => mappings
  end.

(** [checkProperty] returns the mappings and whether they need an update. *)
Definition checkProperty (mappings : Mappings) (key : string) (v : value) : Mappings * bool :=
  match mappings !! key with
  | Some prop =>
      if EnableTextKeywordMapping && bool_decide (Type_ prop = "text") then
        match mappings !! (key +:+ ".keyword") with
        | Some _ => (mappings, false)
        | None => (default_property mappings key v, true)
        end
      else (mappings, false)
  | None => (default_property mappings key v, true)
  end.

(** The converted value of [checkField], by the type of the property. *)
Definition convert (prop : Property) (key : string) (v : value) : res value :=
  if decide (Type_ prop = "text" ∨ Type_ prop = "keyword") then
    match ToString FormatFloat Sprint v with
    | Ok s => Ok (VStr s)
    | _ => Err ("field [" +:+ key +:+ "] was set type to [" +:+ Type_ prop +:+ "] but the value [" +:+ Sprint v
                +:+ "] can't convert to string")
    end
  else if decide (Type_ prop = "numeric") then
    match ToFloat64 ParseFloat v with
    | Ok x => Ok (VFloat x)
    | _ => Err ("field [" +:+ key +:+ "] was set type to [numeric] but the value [" +:+ Sprint v
                +:+ "] can't convert to int")
    end
  else if decide (Type_ prop = "bool") then
    match ToBool v with
    | Ok b => Ok (VBool b)
    | _ => Err ("field [" +:+ key +:+ "] was set type to [bool] but the value [" +:+ Sprint v
                +:+ "] can't convert to boolean")
    end
  else if decide (Type_ prop = "date" ∨ Type_ prop = "time") then
    match ParseTime ParseInLocation LoadLocation v (Format prop) (TimeZone prop) with
    | Ok _ => Ok v
    | Err e => Err ("field [" +:+ key +:+ "] value [" +:+ Sprint v +:+ "] parse err: " +:+ e)
    | Panic p => Panic p
    end
  else Ok VNil.

(** [checkField]: the converted value replaces the field, or one element of an
    array field. *)
Definition checkField (mappings : Mappings) (data : gmap string value) (key : string) (v : value)
    (id : nat) (array : bool) : res (gmap string value) :=
  v' ← convert (GetProperty mappings key).1 key v;
  if array then
    match data !! key with
    | Some (VArr sub) => if decide (id < length sub) then Ok (<[key := VArr (<[id := v']> sub)]> data)
                         else Panic PIndex
    | _ => Panic PTypeAssert
    end
  else Ok (<[key := v']> data).

(** The loop over the elements of an array. *)
Fixpoint check_elems (mappings : Mappings) (data : gmap string value) (key : string) (i : nat)
    (vs : list value) : res (gmap string value) :=
  match vs with
  | [] => Ok data
  | v :: vs' => data' ← checkField mappings data key v i true; check_elems mappings data' key (S i) vs'
  end.

(** The conversion of the elements of a vector field, in place. *)
Fixpoint check_vector (data : gmap string value) (key : string) (i : nat) (vs : list value)
    : res (gmap string value) :=
  match vs with
  | [] => Ok data
  | v :: vs' =>
      match ToFloat64 ParseFloat v with
      | Ok num =>
          match data !! key with
          | Some (VArr sub) => check_vector (<[key := VArr (<[i := VFloat num]> sub)]> data) key (S i) vs'
          | _ => Panic PTypeAssert
          end
      | Err e => Err ("invliad vector feild " +:+ key +:+ ": " +:+ e)
      | Panic p => Panic p
      end
  end.

(** State of the loop: the mappings, the flat document, the keys deleted from
    the source document, and [mappingsNeedsUpdate]. *)
Record loop_state := mkLoop {
  l_maps : Mappings; l_flat : gmap string value; l_deleted : list string; l_update : bool
}.

(** One turn of the loop of [CheckDocumentOperation].  The mappings are shared
    with the index: what a turn sets stays set when a later turn fails. *)
Definition check_turn (st : loop_state) (kv : string * value) : res unit * loop_state :=
  let '(key, v) := kv in
  match v with
  | VNil => (Ok tt, st)
  | _ =>
      let '(maps, upd) := checkProperty (l_maps st) key v in
      let st := mkLoop maps (l_flat st) (l_deleted st) (l_update st || upd) in
      match maps !! key with
      | None => (Ok tt, st)
      | Some prop =>
          if negb (Index prop) then (Ok tt, st)
          else if decide (Type_ prop = "vector") then
            match v with
            | VArr vc =>
                if decide (Z.of_nat (length vc) ≠ Dims prop)
                then (Err ("vector dims should be " +:+ FormatInt (Dims prop) +:+ ", but got "
                           +:+ FormatInt (Z.of_nat (length vc))), st)
                else match check_vector (l_flat st) key 0 vc with
                     | Ok flat => (Ok tt, mkLoop maps flat (key :: l_deleted st) (l_update st))
                     | Err e => (Err e, st)
                     | Panic p => (Panic p, st)
                     end
            | _ => (Ok tt, st)
            end
          else
            let r := match v with
                     | VArr vs => check_elems maps (l_flat st) key 0 vs
                     | _ => checkField maps (l_flat st) key v 0 false
                     end in
            match r with
            | Ok flat => (Ok tt, mkLoop maps flat (l_deleted st) (l_update st))
            | Err e => (Err e, st)
            | Panic p => (Panic p, st)
            end
      end
  end.

Fixpoint check_loop (st : loop_state) (kvs : list (string * value)) : res unit * loop_state :=
  match kvs with
  | [] => (Ok tt, st)
  | kv :: kvs' =>
      match check_turn st kv with
      | (Ok _, st') => check_loop st' kvs'
      | (r, st') => (r, st')
      end
  end.

(** The arrays of a document are shared with its flat form, where their
    elements are converted in place: [write_back] is the submitted document as
    it reads after the loop.  When two paths give the same flat key, the last
    one visited owns the entry; [seen] are the keys of the paths visited later. *)
Fixpoint write_back (flat : gmap string value) (top : bool) (v : value) (prefix : string)
    (seen : gset string) : value * gset string :=
  let assign newKey v seen :=
    if is_container v then write_back flat false v newKey seen else (v, {[newKey]} ∪ seen) in
  match v with
  | VMap m =>
      let '(m', seen) :=
        (fix go (m : list (string * value)) :=
           match m with
           | [] => ([], seen)
           | (k, x) :: m' =>
               let '(rest, seen) := go m' in
               let '(x', seen) := assign (enkey top prefix k) x seen in ((k, x') :: rest, seen)
           end) m in
      (VMap m', seen)
  | VArr vs =>
      if forallb is_container vs then
        let '(vs', seen) :=
          (fix go (i : nat) (vs : list value) :=
             match vs with
             | [] => ([], seen)
             | x :: vs' =>
                 let '(rest, seen) := go (S i) vs' in
                 let '(x', seen) := assign (enkey top prefix (FormatInt (Z.of_nat i))) x seen in
                 (x' :: rest, seen)
             end) 0 vs in
        (VArr vs', seen)
      else if decide (prefix ∈ seen) then (v, seen)
      else (match flat !! prefix with Some (VArr a) => VArr a | _ => v end, {[prefix]} ∪ seen)
  | _ => (v, seen)
  end.

Definition source_of (flat : gmap string value) (doc : list (string * value)) : list (string * value) :=
  match (write_back flat true (VMap doc) "" ∅).1 with VMap m => m | _ => doc end.

(** [CheckDocumentOperation].  [o] is the order the loop visits the flat
    document in, [now] the clock, [store_err] the error of storing changed
    mappings.  The result is the operation and the mappings of the index. *)
Definition CheckDocumentOperation (o : map_order string value) (now : Z) (store_err : option string)
    (vecs : gmap string SetMappings.VecIndex) (mappings : Mappings) (docID : string)
    (doc : list (string * value)) (update : bool) (shard : Z)
    : res (gmap string value) * Mappings * gmap string SetMappings.VecIndex :=
  let flatDoc := Flatten doc "" in
  match check_loop (mkLoop mappings flatDoc [] false) (range o flatDoc) with
  | (Ok _, st) =>
      let '(maps, vecs') := if l_update st then SetMappings.SetMappings (Some (l_maps st)) (l_maps st) vecs
                            else (l_maps st, vecs) in
      match (if l_update st then store_err else None) with
      | Some e => (Err e, maps, vecs')
      | None =>
          let doc := filter (λ kv, kv.1 ∉ l_deleted st) (source_of (l_flat st) doc) in
          let stamp :=
            match l_flat st !! TimeFieldName with
            | Some v =>
                let prop := (GetProperty maps TimeFieldName).1 in
                match ParseTime ParseInLocation LoadLocation v (Format prop) (TimeZone prop) with
                | Ok t => Ok t
                | Err e => Err ("field [" +:+ TimeFieldName +:+ "] value [" +:+ Sprint v +:+ "] parse err: " +:+ e)
                | Panic p => Panic p
                end
            | None => Ok now
            end in
          let doc := if decide (is_Some (l_flat st !! TimeFieldName))
                     then filter (λ kv, kv.1 ≠ TimeFieldName) doc else doc in
          match stamp with
          | Ok t =>
              let action := if update then ActionTypeUpdate else ActionTypeInsert in
              (Ok (<[SourceFieldName := VMap doc]> (<[TimeFieldName := VInt64 (UnixNano t)]>
                   (<[ShardFieldName := VInt64 shard]> (<[IDFieldName := VStr docID]>
                    (<[ActionFieldName := VStr action]> (l_flat st)))))), maps, vecs')
          | Err e => (Err e, maps, vecs')
          | Panic p => (Panic p, maps, vecs')
          end
      end
  | (Err e, st) => (Err e, l_maps st, vecs)
  | (Panic p, st) => (Panic p, l_maps st, vecs)
  end.
End check.
End Check.

(** * Building the indexed document *)

Module Build.
Import Meta.

(** The fields handed to bluge: one constructor per [bluge.New...Field]. *)
Inductive field_value :=
  | FText (s : string) | FNumeric (x : float64) | FKeyword (s : string) | FDateTime (t : Z)
  | FStoredOnly (v : value) | FNilField.

Record field := mkField {
  f_name : string; f_value : field_value; f_analyzer : option string;
  f_stored : bool; f_highlight : bool; f_sortable : bool; f_aggregatable : bool
}.

Record document := mkDocument { d_id : string; d_fields : list field; d_timestamp : Z }.

Section build.
Context {lib : GoLib}.
(** [QueryAnalyzerForField]: the analyzer a text field names, when the index
    or the registry has it. *)
Context (known_analyzer : string → bool).

Definition QueryAnalyzerForField (mappings : Mappings) (key : string) : option string :=
  match mappings !! key with
  | Some p => if decide (key ≠ "" ∧ Type_ p = "text" ∧ Analyzer p ≠ "")
              then if known_analyzer (Analyzer p) then Some (Analyzer p) else None else None
  | None => None
  end.

(** The field of one value; [Ok None] when an empty string ends the call. *)
Definition field_of (mappings : Mappings) (prop : Property) (key : string) (v : value)
    : res (option (field_value * option string)) :=
  if decide (Type_ prop = "text") then
    match v with
    | VStr s => Ok (if decide (s = "") then None else Some (FText s, QueryAnalyzerForField mappings key))
    | _ => Panic PTypeAssert
    end
  else if decide (Type_ prop = "numeric") then
    match v with VFloat x => Ok (Some (FNumeric x, None)) | _ => Panic PTypeAssert end
  else if decide (Type_ prop = "keyword") then
    match v with
    | VStr s => Ok (if decide (s = "") then None else Some (FKeyword s, None))
    | _ => Panic PTypeAssert
    end
  else if decide (Type_ prop = "bool") then
    match v with VBool b => Ok (Some (FKeyword (FormatBool b), None)) | _ => Panic PTypeAssert end
  else if decide (Type_ prop = "date" ∨ Type_ prop = "time") then
    match ParseTime ParseInLocation LoadLocation v (Format prop) (TimeZone prop) with
    | Ok t => Ok (Some (FDateTime t, None))
    | Err e => Err ("field [" +:+ key +:+ "] value [" +:+ Sprint v +:+ "] parse err: " +:+ e)
    | Panic p => Panic p
    end
  else Ok (Some (FNilField, None)).

(** [buildField].  The sub-fields of a property are built under longer keys;
    [fuel] bounds the depth, and running out of it is a stack overflow. *)
Fixpoint buildField (fuel : nat) (mappings : Mappings) (fields : list field) (key : string) (v : value)
    : res (list field) :=
  match fuel with
  | O => Panic (PExplicit "stack overflow")
  | S fuel =>
      let prop := (GetProperty mappings key).1 in
      fv ← field_of mappings prop key v;
      match fv with
      | None => Ok fields
      | Some (FNilField, _) =>
          if Store prop || Highlightable prop || Sortable prop || Aggregatable prop then Panic PNilDeref
          else
            foldM (λ fs kp, buildField fuel mappings fs (key +:+ "." +:+ kp.1) v)
              (fields ++ [mkField key FNilField None false false false false])
              (default [] (Fields prop))
      | Some (x, analyzer) =>
          foldM (λ fs kp, buildField fuel mappings fs (key +:+ "." +:+ kp.1) v)
            (fields ++ [mkField key x analyzer (Store prop || Highlightable prop) (Highlightable prop)
                          (Sortable prop) (Aggregatable prop)])
            (default [] (Fields prop))
      end
  end.

(** A float64 narrowed to float32. *)
Definition float32_of (x : float64) : spec_float :=
  match x with
  | S754_finite s m e => binary_normalize 24 128 (if s then Zneg m else Zpos m) e s
  | x => x
  end.

(** [log.Fatal] ends the process. *)
Definition fatal {A} (msg : string) : res A := Panic (PExplicit msg).

(** The elements of a vector field. *)
Definition build_vector (prop : Property) (key : string) (v : value) : res (list spec_float) :=
  match v with
  | VArr array =>
      if decide (Z.of_nat (length array) ≠ Dims prop) then fatal "invalid vector field"
      else foldM (λ acc x, match x with
                           | VFloat f64 => Ok (acc ++ [float32_of f64])
                           | _ => fatal "invalid vector field"
                           end) [] array
  | _ => fatal "invalid vector field"
  end.

(** One turn of the loop over the fields of a document. *)
Definition build_turn (fuel : nat) (mappings : Mappings)
    (st : list field * gmap string (list spec_float)) (kv : string * value)
    : res (list field * gmap string (list spec_float)) :=
  let '(key, v) := kv in
  let '(fields, vecMap) := st in
  match v with
  | VNil => Ok st
  | _ =>
      if decide (key = TimeFieldName ∨ key = SourceFieldName) then Ok st
      else match mappings !! key with
           | None => Ok st
           | Some prop =>
               if negb (Index prop) then Ok st
               else if decide (Type_ prop = "vector") then
                 vec ← build_vector prop key v; Ok (fields, <[key := vec]> vecMap)
               else
                 fields' ← match v with
                           | VArr vs => foldM (λ fs x, buildField fuel mappings fs key x) fields vs
                           | _ => buildField fuel mappings fields key v
                           end;
                 Ok (fields', vecMap)
           end
  end.

(** Depth enough for every chain of sub-fields: the keys on a chain are
    distinct keys of the mappings, but the last. *)
Definition depth (mappings : Mappings) : nat := S (S (size mappings)).

Definition BuildBlugeDocumentFromJSON (o : map_order string value) (now : Z) (indexName : string)
    (mappings : Mappings) (docID : string) (doc : gmap string value)
    : res (document * gmap string (list spec_float)) :=
  let doc := delete ShardFieldName (delete IDFieldName (delete ActionFieldName doc)) in
  '(fields, vecMap) ← foldM (build_turn (depth mappings) mappings) ([], ∅) (range o doc);
  timestamp ← match doc !! TimeFieldName with
              | None => Ok now
              | Some (VFloat x) => Ok (int64_of_float x)
              | Some (VInt64 z) => Ok z
              | Some _ => Err "invalid timestamp data type"
              end;
  let doc := delete TimeFieldName doc in
  let source := match doc !! SourceFieldName with
                | Some v => match v with VNil => VMap (map_to_list (delete SourceFieldName doc)) | _ => v end
                | None => VMap (map_to_list doc)
                end in
  let stored k v := mkField k (FStoredOnly v) None true false false false in
  Ok (mkDocument docID (fields ++ [stored "_source" source; stored "_index" (VStr indexName)])
        (UnixNano timestamp), vecMap).
End build.
End Build.

(** * A checked document builds *)

Module Pipeline.
Import Meta Check Build.

Section pipeline.
Context {lib : GoLib} (known_analyzer : string → bool).

Definition stringy (p : Property) : Prop := Type_ p = "text" ∨ Type_ p = "keyword".
Definition known_type (p : Property) : Prop :=
  Type_ p ∈ ["text"; "keyword"; "numeric"; "bool"; "date"; "time"; "vector"].

(** Mappings as the mapping API and [SetMappings] leave them: known types,
    sub-fields only on string properties and themselves mapped as strings,
    [_id] a keyword. *)
Definition wf_mappings (m : Mappings) : Prop :=
  (∀ k p, m !! k = Some p → known_type p ∧
     ∀ kp, kp ∈ default [] (Fields p) →
       stringy p ∧ ∃ q, m !! (k +:+ "." +:+ kp.1) = Some q ∧ stringy q) ∧
  (∃ p, m !! "_id" = Some p ∧ stringy p ∧ Index p = true).

(** The dynamic type [buildField] asserts for a property. *)
Definition typed (p : Property) (v : value) : Prop :=
  match v with
  | VStr _ => Type_ p ≠ "numeric" ∧ Type_ p ≠ "bool"
  | VFloat _ => Type_ p = "numeric" ∨ Type_ p = "date" ∨ Type_ p = "time"
  | VBool _ => Type_ p = "bool"
  | VInt64 _ => Type_ p = "date" ∨ Type_ p = "time"
  | _ => False
  end.

(** A field the build loop accepts. *)
Definition field_ok (m : Mappings) (key : string) (v : value) : Prop :=
  match m !! key with
  | None => True
  | Some p =>
      Index p = true → v = VNil ∨
      (Type_ p = "vector" ∧ ∃ vs, v = VArr vs ∧ Z.of_nat (length vs) = Dims p ∧
         Forall (λ x, ∃ f, x = VFloat f) vs) ∨
      (Type_ p ≠ "vector" ∧ match v with VArr vs => Forall (typed p) vs | _ => typed p v end)
  end.

Lemma field_of_no_panic m p key v :
  typed p v → is_panic (field_of known_analyzer m p key v) = false.
Proof.
  intros Ht. unfold field_of.
  repeat case_decide;
    try (destruct v; cbn in *; repeat case_decide; (done || (exfalso; intuition congruence))).
  pose proof (ParseTime_no_panic ParseInLocation LoadLocation v (Format p) (TimeZone p)).
  by destruct (ParseTime _ _ _ _ _).
Qed.

Lemma field_of_not_nil m p key v a :
  known_type p → Type_ p ≠ "vector" → field_of known_analyzer m p key v ≠ Ok (Some (FNilField, a)).
Proof.
  intros Hk Hv. unfold field_of.
  repeat case_decide; try (destruct v; cbn; repeat case_decide; congruence).
  - destruct (ParseTime _ _ _ _ _); congruence.
  - exfalso. unfold known_type in Hk. set_solver.
Qed.

(** Keys of the mappings longer than [key]: what bounds the recursion. *)
Definition longer (m : Mappings) (key : string) : Mappings :=
  filter (λ kp, String.length key < String.length kp.1) m.

Lemma longer_child m key sub q :
  m !! (key +:+ "." +:+ sub) = Some q →
  size (longer m (key +:+ "." +:+ sub)) < size (longer m key).
Proof.
  intros Hq. set (c := key +:+ "." +:+ sub) in *.
  assert (String.length key < String.length c) as Hlen.
  { unfold c. rewrite !length_append. cbn. lia. }
  apply map_subset_size. apply map_subset_alt. split.
  - apply map_subseteq_spec. intros k p. unfold longer. rewrite !map_lookup_filter_Some. cbn.
    intros [? ?]. split; [done|lia].
  - exists c. unfold longer. split.
    + apply map_lookup_filter_None. right. intros ? _. cbn. lia.
    + exists q. by apply map_lookup_filter_Some.
Qed.

Lemma buildField_no_panic m fuel : ∀ key v fields p,
  wf_mappings m → m !! key = Some p → Type_ p ≠ "vector" → typed p v →
  size (longer m key) < fuel →
  is_panic (buildField known_analyzer fuel m fields key v) = false.
Proof.
  induction fuel as [|fuel IH]; intros key v fields p Hwf Hp Hv Ht Hf; [lia|].
  cbn [buildField]. unfold GetProperty. rewrite Hp. cbn [fst].
  destruct (proj1 Hwf key p Hp) as [Hk Hsub].
  apply is_panic_bind; [by apply field_of_no_panic|].
  intros [[x a]|] Hfo; [|done].
  assert (∀ fs : list field, is_panic (foldM (λ fs kp, buildField known_analyzer fuel m fs
    (key +:+ "." +:+ kp.1) v) fs (default [] (Fields p))) = false) as Hfold.
  { intros fs. apply foldM_no_panic. intros fs' kp Hkp.
    destruct (Hsub kp Hkp) as [Hs (q & Hq & Hqs)]. apply (IH _ _ _ q); [done|done| | |].
    - destruct Hqs; congruence.
    - destruct v; cbn in *; unfold stringy in *; intuition congruence.
    - pose proof (longer_child m key kp.1 q Hq). lia. }
  destruct x; try apply Hfold. by apply field_of_not_nil in Hfo.
Qed.

Lemma build_turn_no_panic m st key v :
  wf_mappings m → field_ok m key v →
  is_panic (build_turn known_analyzer (depth m) m st (key, v)) = false.
Proof.
  intros Hwf Hok. unfold build_turn. destruct st as [fields vecMap].
  unfold field_ok in Hok.
  assert (v = VNil ∨ v ≠ VNil) as [->|Hv] by (destruct v; by auto); [done|].
  enough (is_panic (if decide (key = TimeFieldName ∨ key = SourceFieldName) then Ok (fields, vecMap)
    else match m !! key with
         | None => Ok (fields, vecMap)
         | Some prop =>
             if negb (Index prop) then Ok (fields, vecMap)
             else if decide (Type_ prop = "vector") then
               vec ← build_vector prop key v; Ok (fields, <[key := vec]> vecMap)
             else
               fields' ← match v with
                         | VArr vs => foldM (λ fs x, buildField known_analyzer (depth m) m fs key x) fields vs
                         | _ => buildField known_analyzer (depth m) m fields key v
                         end;
               Ok (fields', vecMap)
         end) = false) by (by destruct v).
  case_decide; [done|]. destruct (m !! key) as [p|] eqn:Hp; [|done].
  destruct (Index p) eqn:Hi; cbn [negb]; [|done].
  assert (size (longer m key) < depth m) as Hd.
  { unfold depth. enough (size (longer m key) ≤ size m) by lia.
    apply map_subseteq_size. apply map_filter_subseteq. }
  destruct (Hok eq_refl) as [->|[(Ht & vs & -> & Hl & Hvs)|[Ht Hty]]]; [done| |].
  - rewrite decide_True by done. apply is_panic_bind; [|done].
    unfold build_vector. rewrite decide_False by (intros Hne; by apply Hne).
    apply foldM_no_panic. intros acc x Hx. rewrite Forall_forall in Hvs. by destruct (Hvs x Hx) as [f ->].
  - rewrite decide_False by done. apply is_panic_bind; [|done].
    destruct v; try (by eapply buildField_no_panic); [].
    apply foldM_no_panic. intros fs x Hx. rewrite Forall_forall in Hty.
    eapply buildField_no_panic; eauto.
Qed.
End pipeline.

(** ** The check establishes it *)

Section checks.
Context {lib : GoLib}.

Lemma convert_typed p key v v' :
  known_type p → Type_ p ≠ "vector" → convert p key v = Ok v' → typed p v'.
Proof.
  intros Hk Hv. unfold convert. repeat case_decide; intros Hc.
  - destruct (ToString _ _ v); simplify_eq. cbn. intuition congruence.
  - destruct (ToFloat64 _ v); simplify_eq. cbn. auto.
  - destruct (ToBool v); simplify_eq. done.
  - destruct (ParseTime _ _ _ _ _) eqn:Hp; simplify_eq. destruct v'; cbn in Hp |- *; try done.
    intuition congruence.
  - exfalso. unfold known_type in Hk. set_solver.
Qed.

Lemma check_elems_typed m p key : ∀ vs pre data data',
  m !! key = Some p → known_type p → Type_ p ≠ "vector" →
  data !! key = Some (VArr (pre ++ vs)) → Forall (typed p) pre →
  check_elems m data key (length pre) vs = Ok data' →
  (∃ vs', data' !! key = Some (VArr vs') ∧ Forall (typed p) vs') ∧ ∀ k, k ≠ key → data' !! k = data !! k.
Proof.
  induction vs as [|v vs IH]; intros pre data data' Hp Hk Hv Hd Hpre Hc; cbn [check_elems] in Hc.
  - simplify_eq. rewrite app_nil_r in Hd. eauto.
  - unfold checkField, GetProperty in Hc. rewrite Hp in Hc. cbn [fst] in Hc.
    destruct (convert p key v) as [v'| |] eqn:Hcv; cbn [mbind res_bind] in Hc; try done.
    apply convert_typed in Hcv as Hty; [|done..]. rewrite Hd in Hc.
    rewrite decide_True in Hc by (rewrite length_app; cbn; lia). cbn [mbind res_bind] in Hc.
    replace (<[length pre := v']> (pre ++ v :: vs)) with ((pre ++ [v']) ++ vs) in Hc
      by (by rewrite <-app_assoc, insert_app_r_alt, Nat.sub_diag by done).
    replace (S (length pre)) with (length (pre ++ [v'])) in Hc by (rewrite length_app; cbn; lia).
    apply IH in Hc as [Hex Hoth]; [|done|done|done|by rewrite lookup_insert_eq|by apply Forall_app_2; auto].
    split; [done|]. intros k Hne. by rewrite Hoth, lookup_insert_ne.
Qed.

Lemma check_vector_typed key : ∀ vs pre data data',
  data !! key = Some (VArr (pre ++ vs)) → Forall (λ x, ∃ f, x = VFloat f) pre →
  check_vector data key (length pre) vs = Ok data' →
  (∃ vs', data' !! key = Some (VArr vs') ∧ length vs' = length (pre ++ vs) ∧
     Forall (λ x, ∃ f, x = VFloat f) vs') ∧ ∀ k, k ≠ key → data' !! k = data !! k.
Proof.
  induction vs as [|v vs IH]; intros pre data data' Hd Hpre Hc; cbn [check_vector] in Hc.
  - simplify_eq. rewrite app_nil_r in *. eauto.
  - destruct (ToFloat64 ParseFloat v) as [x| |]; try done. rewrite Hd in Hc.
    replace (<[length pre := VFloat x]> (pre ++ v :: vs)) with ((pre ++ [VFloat x]) ++ vs) in Hc
      by (by rewrite <-app_assoc, insert_app_r_alt, Nat.sub_diag by done).
    replace (S (length pre)) with (length (pre ++ [VFloat x])) in Hc by (rewrite length_app; cbn; lia).
    apply IH in Hc as [(vs' & Hl & Hlen & Hf) Hoth];
      [|by rewrite lookup_insert_eq|apply Forall_app_2; [done|]; constructor; eauto].
    split; [|intros k Hne; by rewrite Hoth, lookup_insert_ne].
    exists vs'. split_and!; [done| |done]. rewrite Hlen, !length_app. cbn. lia.
Qed.

(** A property added for a value: a known scalar type without sub-fields. *)
Lemma default_property_spec m key v :
  default_property false m key v = m ∨
  ∃ p, default_property false m key v = <[key := p]> m ∧ known_type p ∧ Type_ p ≠ "vector" ∧
       default [] (Fields p) = [].
Proof.
  assert (∀ s, ∃ p, set_string_property false m key s = <[key := p]> m ∧ known_type p ∧
    Type_ p ≠ "vector" ∧ default [] (Fields p) = []) as Hs.
  { intros s. unfold set_string_property, SetProperty. destruct (isDateProperty s);
      (eexists; split; [reflexivity|]; split_and!; [unfold known_type; cbn; set_solver|done|done]). }
  destruct v; cbn; try (by left); unfold SetProperty;
    try (right; eexists; split; [reflexivity|]; split_and!; [unfold known_type; cbn; set_solver|done|done]); [by right; auto|].
  destruct vs as [|[] vs]; try (by left);
    try (right; eexists; split; [reflexivity|]; split_and!; [unfold known_type; cbn; set_solver|done|done]); by right; auto.
Qed.

Lemma checkProperty_spec m key v m' upd :
  wf_mappings m → checkProperty false m key v = (m', upd) →
  wf_mappings m' ∧ (∀ k, k ≠ key → m' !! k = m !! k) ∧ (∀ p, m !! key = Some p → m' !! key = Some p) ∧
  (∀ p, m' !! key = Some p → m !! key = Some p ∨ Type_ p ≠ "vector").
Proof.
  intros Hwf. unfold checkProperty. destruct (m !! key) as [p|] eqn:Hp; cbn [andb].
  { intros [= <- <-]. split_and!; [done|done|naive_solver|naive_solver]. }
  intros [= <- <-].
  destruct (default_property_spec m key v) as [->|(p & -> & Hk & Hv & Hf)].
  { split_and!; [done|done|done|congruence]. }
  split_and!; [|intros; by rewrite lookup_insert_ne|done|].
  - split.
    + intros k q [[<- <-]|[Hne Hq]]%lookup_insert_Some.
      * split; [done|]. rewrite Hf. intros kp []%elem_of_nil.
      * destruct (proj1 Hwf k q Hq) as [Hkq Hsub]. split; [done|].
        intros kp Hkp. destruct (Hsub kp Hkp) as [Hs (r & Hr & Hrs)]. split; [done|].
        exists r. split; [|done]. rewrite lookup_insert_ne; [done|]. congruence.
    + destruct (proj2 Hwf) as (q & Hq & ?). exists q. rewrite lookup_insert_ne; [done|]. congruence.
  - intros q. rewrite lookup_insert_eq. intros [= <-]. auto.
Qed.

(** One turn of the check leaves its field ready to build, and touches
    nothing else. *)
Definition turn_spec (st st' : loop_state) (key : string) : Prop :=
  wf_mappings (l_maps st') ∧
  (∀ k, k ≠ key → l_maps st' !! k = l_maps st !! k ∧ l_flat st' !! k = l_flat st !! k) ∧
  ∃ v', l_flat st' !! key = Some v' ∧ field_ok (l_maps st') key v'.

Lemma check_value_spec m flat key v p flat' :
  m !! key = Some p → known_type p → Type_ p ≠ "vector" → flat !! key = Some v →
  match v with
  | VArr vs => check_elems m flat key 0 vs
  | _ => checkField m flat key v 0 false
  end = Ok flat' →
  (∀ k, k ≠ key → flat' !! k = flat !! k) ∧ ∃ v', flat' !! key = Some v' ∧ field_ok m key v'.
Proof.
  intros Hp Hk Hv Hd Hc. unfold field_ok. rewrite Hp.
  assert ((∃ vs, v = VArr vs) ∨ checkField m flat key v 0 false = Ok flat') as [[vs ->]|Hc'].
  { destruct v; eauto. }
  - destruct (check_elems_typed m p key vs [] flat flat') as [(vs' & Hl & Hf) Hoth];
      [done|done|done|done|constructor|done|]. eauto 10.
  - clear Hc. unfold checkField, GetProperty in Hc'. rewrite Hp in Hc'. cbn [fst] in Hc'.
    destruct (convert p key v) as [v'| |] eqn:Hcv; cbn [mbind res_bind] in Hc'; simplify_eq.
    apply convert_typed in Hcv as Hty; [|done..]. split; [intros; by rewrite lookup_insert_ne|].
    exists v'. split; [by rewrite lookup_insert_eq|]. intros _. do 2 right. split; [done|].
    by destruct v'.
Qed.

Lemma check_turn_spec st key v st' :
  wf_mappings (l_maps st) → l_flat st !! key = Some v →
  (∀ p, l_maps st !! key = Some p → Type_ p = "vector" → v = VNil ∨ ∃ vs, v = VArr vs) →
  check_turn false st (key, v) = (Ok tt, st') → turn_spec st st' key.
Proof.
  intros Hwf Hfl Hvec Hc. unfold check_turn in Hc.
  assert (v = VNil ∨ v ≠ VNil) as [->|Hv] by (destruct v; by auto).
  { simplify_eq. split_and!; [done|done|]. exists VNil. split; [done|].
    unfold field_ok. case_match; auto. }
  destruct (checkProperty false (l_maps st) key v) as [maps upd] eqn:Hcp.
  assert (∃ r, r = match v with
    | VArr vs => check_elems maps (l_flat st) key 0 vs
    | _ => checkField maps (l_flat st) key v 0 false
    end) as [r Hr] by eauto.
  destruct (checkProperty_spec _ _ _ _ _ Hwf Hcp) as (Hwf' & Hoth & Hkeep & Hnew).
  assert (∀ flat d u, (∀ k, k ≠ key → flat !! k = l_flat st !! k) →
    (∃ v', flat !! key = Some v' ∧ field_ok maps key v') → turn_spec st (mkLoop maps flat d u) key) as Hdone.
  { intros flat d u Hf Hv'. split_and!; [done| |done]. intros k Hk. cbn. auto. }
  destruct (maps !! key) as [p|] eqn:Hp.
  2: { assert (st' = mkLoop maps (l_flat st) (l_deleted st) (l_update st || upd)) as ->
         by (destruct v; cbn in Hc; by simplify_eq).
       apply Hdone; [done|]. exists v. unfold field_ok. by rewrite Hp. }
  destruct (Index p) eqn:Hi.
  2: { assert (st' = mkLoop maps (l_flat st) (l_deleted st) (l_update st || upd)) as ->
         by (destruct v; cbn in Hc; rewrite ?Hi in Hc; by simplify_eq).
       apply Hdone; [done|]. exists v. unfold field_ok. rewrite Hp, Hi. done. }
  destruct (decide (Type_ p = "vector")) as [Ht|Ht].
  - destruct (Hnew p eq_refl) as [Hold|]; [|done].
    destruct (Hvec p Hold Ht) as [?|[vs ->]]; [done|]. cbn [negb] in Hc.
    case_decide as Hlen; [done|]. cbn [l_flat l_deleted] in Hc.
    destruct (check_vector (l_flat st) key 0 vs) as [flat| |] eqn:Hcv; simplify_eq.
    destruct (check_vector_typed key vs [] _ _ Hfl (Forall_nil_2 _) Hcv) as [(vs' & Hl & Hlv & Hf) Ho].
    apply Hdone; [done|]. exists (VArr vs'). split; [done|]. unfold field_ok. rewrite Hp. intros _.
    right; left. split; [done|]. exists vs'. split_and!; [done| |done]. rewrite Hlv. cbn [app].
    destruct (decide (Z.of_nat (length vs) = Dims p)); [done|]. done.
  - assert (∃ flat d u, r = Ok flat ∧ st' = mkLoop maps flat d u) as (flat & d & u & Hflat & ->).
    { destruct v; try done; cbn [l_flat l_deleted l_update negb] in Hc;
        rewrite <-Hr in Hc; destruct r; simplify_eq; eauto. }
    rewrite Hr in Hflat. apply check_value_spec with (p := p) in Hflat as [Ho Hv']; [|done| |done|done].
    + by apply Hdone.
    + by apply (proj1 Hwf' key p).
Qed.

Lemma field_ok_ext m m' k v : m !! k = m' !! k → field_ok m k v → field_ok m' k v.
Proof. unfold field_ok. by intros ->. Qed.

(** Vector fields hold arrays: the check does not look at anything else. *)
Definition vectors_are_arrays (m : Mappings) (kvs : list (string * value)) : Prop :=
  ∀ k p v, (k, v) ∈ kvs → m !! k = Some p → Type_ p = "vector" → v = VNil ∨ ∃ vs, v = VArr vs.

Lemma check_loop_spec kvs : ∀ st st',
  wf_mappings (l_maps st) → NoDup kvs.*1 → (∀ k v, (k, v) ∈ kvs → l_flat st !! k = Some v) →
  vectors_are_arrays (l_maps st) kvs →
  check_loop false st kvs = (Ok tt, st') →
  wf_mappings (l_maps st') ∧
  (∀ k, k ∉ kvs.*1 → l_maps st' !! k = l_maps st !! k ∧ l_flat st' !! k = l_flat st !! k) ∧
  ∀ k, k ∈ kvs.*1 → ∃ v', l_flat st' !! k = Some v' ∧ field_ok (l_maps st') k v'.
Proof.
  induction kvs as [|[k v] kvs IH]; intros st st' Hwf Hnd Hfl Hvec Hc; cbn [check_loop] in Hc.
  { simplify_eq. split_and!; [done|done|]. intros k []%elem_of_nil. }
  rewrite fmap_cons, NoDup_cons in Hnd. destruct Hnd as [Hk Hnd]. cbn [fst] in Hk.
  destruct (check_turn false st (k, v)) as [[[]| |] st1] eqn:Ht; try done.
  assert (l_flat st !! k = Some v) as Hkv by (apply Hfl; by left).
  destruct (check_turn_spec st k v st1 Hwf Hkv
    ltac:(intros p Hp Hty; apply (Hvec k p v); [by left|done|done]) Ht) as (Hwf1 & Hoth & v1 & Hv1 & Hok1).
  assert (∀ k' v', (k', v') ∈ kvs → k' ≠ k) as Hne.
  { intros k' v' Hin ->. apply Hk. apply list_elem_of_fmap. by exists (k, v'). }
  destruct (IH st1 st' Hwf1 Hnd) as (Hwf' & Hsame & Hall); [| |done|].
  - intros k' v' Hin. rewrite (proj2 (Hoth k' (Hne k' v' Hin))). apply Hfl. by right.
  - intros k' p v' Hin. rewrite (proj1 (Hoth k' (Hne k' v' Hin))). apply Hvec. by right.
  - split_and!; [done| |].
    + intros k' Hk'. rewrite fmap_cons, not_elem_of_cons in Hk'. destruct Hk' as [Hne' Hk'].
      destruct (Hsame k' Hk') as [-> ->]. by apply Hoth.
    + rewrite fmap_cons. intros k' [->|Hin]%elem_of_cons; [|by apply Hall]. cbn [fst].
      destruct (Hsame k Hk) as [Hm Hf]. exists v1. rewrite Hf. split; [done|].
      by eapply field_ok_ext; [symmetry|].
Qed.

(** ** Normalised mappings *)

Lemma normalise_lookup m k q :
  SetMappings.normalise m !! k = Some q →
  (k = "_id" ∧ q = NewProperty "keyword") ∨ (k = TimeFieldName ∧ m !! k = None ∧ q = set_flags (NewProperty "date") true true true) ∨
  ∃ p, m !! k = Some p ∧ Type_ q = Type_ p ∧ Fields q = Fields p ∧ Dims q = Dims p ∧
    (k ≠ TimeFieldName → Index q = Index p).
Proof.
  unfold SetMappings.normalise, SetProperty. cbv zeta.
  rewrite (lookup_insert_ne _ "_id" TimeFieldName) by done. rewrite !lookup_fmap.
  intros [[<- <-]|[Hne Hq]]%lookup_insert_Some.
  - destruct (m !! TimeFieldName) as [p|] eqn:Hp; cbn [fmap option_fmap option_map]; [|auto].
    right; right. exists p. split; [done|]. case_decide; cbn; by auto.
  - apply lookup_insert_Some in Hq as [[<- <-]|[_ Hq]]; [by left|]. rewrite lookup_fmap in Hq.
    destruct (m !! k) as [p|] eqn:Hp; cbn in Hq; [|done]. simplify_eq. right; right. exists p.
    case_decide; by auto.
Qed.

Lemma normalise_dom m k p : m !! k = Some p → is_Some (SetMappings.normalise m !! k).
Proof.
  intros Hp. unfold SetMappings.normalise, SetProperty. cbv zeta.
  apply lookup_insert_is_Some'. right. apply lookup_insert_is_Some'. right.
  rewrite lookup_fmap, Hp. by eexists.
Qed.

Lemma normalise_union m : SetMappings.normalise m ∪ m = SetMappings.normalise m.
Proof.
  apply map_eq. intros k. rewrite lookup_union. destruct (m !! k) as [p|] eqn:Hp.
  - destruct (normalise_dom m k p Hp) as [q ->]. done.
  - by destruct (SetMappings.normalise m !! k).
Qed.

Lemma wf_normalise m : wf_mappings m → wf_mappings (SetMappings.normalise m).
Proof.
  intros [Hwf Hid]. split.
  - intros k q Hq. apply normalise_lookup in Hq as [[-> ->]|[(-> & _ & ->)|(p & Hp & Ht & Hf & _ & _)]].
    + split; [unfold known_type; cbn; set_solver|]. by intros kp []%elem_of_nil.
    + split; [unfold known_type; cbn; set_solver|]. by intros kp []%elem_of_nil.
    + destruct (Hwf k p Hp) as [Hk Hsub]. unfold known_type, stringy. rewrite Ht, Hf. split; [done|].
      intros kp Hkp. destruct (Hsub kp Hkp) as [Hs (r & Hr & Hrs)]. split; [done|].
      destruct (normalise_dom m _ r Hr) as [r' Hr']. exists r'. split; [done|].
      apply normalise_lookup in Hr' as [[_ ->]|[(_ & Hn & _)|(p' & Hp' & Ht' & _)]];
        [by right|congruence|]. rewrite Ht'. by simplify_map_eq.
  - exists (NewProperty "keyword"). split_and!; [|by right|done].
    unfold SetMappings.normalise, SetProperty. cbv zeta.
    by rewrite lookup_insert_ne, lookup_insert_eq by done.
Qed.

Lemma field_ok_normalise m k v :
  wf_mappings m → k ≠ TimeFieldName → field_ok m k v → field_ok (SetMappings.normalise m) k v.
Proof.
  intros [_ (pid & Hid & Hst & Hix)] Hk. unfold field_ok.
  destruct (SetMappings.normalise m !! k) as [q|] eqn:Hq; [|done].
  apply normalise_lookup in Hq as [[-> ->]|[(? & _)|(p & Hp & Ht & _ & Hd & Hi)]]; [|done|].
  - rewrite Hid. intros Hok _. destruct (Hok Hix) as [?|[(Hv & _)|[Hv Hty]]]; [by left| |].
    + destruct Hst; congruence.
    + right; right. split; [done|]. clear Hok. unfold stringy in Hst.
      assert (∀ x, typed pid x → typed (NewProperty "keyword") x) as Himp.
      { intros x. destruct x; cbn; intuition congruence. }
      destruct v; auto. by eapply Forall_impl.
  - rewrite Hp, Hi, Hd by done. intros Hok Hix'. destruct (Hok Hix') as [?|[(Hv & ?)|[Hv Hty]]]; [by left| |].
    + right; left. by rewrite Ht.
    + right; right. rewrite Ht. split; [done|].
      assert (∀ x, typed p x → typed q x) as Himp by (intros x; unfold typed; by rewrite Ht).
      destruct v; auto. by eapply Forall_impl.
Qed.
End checks.

Lemma is_panic_stamp (v : option value) now :
  is_panic (match v with
            | None => Ok now
            | Some (VFloat x) => Ok (int64_of_float x)
            | Some (VInt64 z) => Ok z
            | Some _ => Err "invalid timestamp data type"
            end) = false.
Proof. by destruct v as [[]|]. Qed.

Lemma build_no_panic {lib : GoLib} known_analyzer o now ix m docID op :
  wf_mappings m →
  (∀ k v, op !! k = Some v → k ∉ [ShardFieldName; IDFieldName; ActionFieldName; TimeFieldName; SourceFieldName] →
     field_ok m k v) →
  is_panic (BuildBlugeDocumentFromJSON known_analyzer o now ix m docID op) = false.
Proof.
  intros Hwf Hok. unfold BuildBlugeDocumentFromJSON. cbv zeta. apply is_panic_bind.
  - apply foldM_no_panic. intros st [k v] Hin. apply range_elem in Hin.
    apply lookup_delete_Some in Hin as [H1 Hin]. apply lookup_delete_Some in Hin as [H2 Hin].
    apply lookup_delete_Some in Hin as [H3 Hin].
    destruct (decide (k = TimeFieldName ∨ k = SourceFieldName)) as [Hsk|Hsk].
    + unfold build_turn. destruct st as [fs vm]. rewrite decide_True by done. by destruct v.
    + apply build_turn_no_panic; [done|]. apply Hok; [done|]. rewrite !not_elem_of_cons.
      split_and!; try (intros ->; tauto); apply not_elem_of_nil.
  - intros [fields vecMap] _. apply is_panic_bind; [apply is_panic_stamp|done].
Qed.

(** C29: A document that passes the check builds.  For every mapping as the
    mapping API produces it (known field types, string sub-fields), with
    [EnableTextKeywordMapping] off and vector fields given arrays (otherwise see
    [vector_scalar_is_fatal], [text_field_is_remapped]), whatever the order the fields are visited in: when
    [CheckDocumentOperation] accepts a document, none of the type assertions,
    nil dereferences, unbounded recursions and fatal exits of
    [BuildBlugeDocumentFromJSON] and [buildField] is reached on the operation
    it returns, and the mappings it leaves are well formed again. *)
Theorem checked_document_builds {lib : GoLib} known o o' now now' store_err vecs m docID doc update shard
    op m' vecs' indexName :
  wf_mappings m → vectors_are_arrays m (range o (Flatten doc "")) →
  CheckDocumentOperation false o now store_err vecs m docID doc update shard = (Ok op, m', vecs') →
  wf_mappings m' ∧ is_panic (BuildBlugeDocumentFromJSON known o' now' indexName m' docID op) = false.
Proof.
  intros Hwf Hvec Hc. unfold CheckDocumentOperation in Hc.
  destruct (check_loop false (mkLoop m (Flatten doc "") [] false) (range o (Flatten doc "")))
    as [[[]| |] st] eqn:Hl; try done.
  destruct (check_loop_spec _ (mkLoop m (Flatten doc "") [] false) st Hwf (range_nodup o _) (λ k v, proj1 (range_elem o _ k v)) Hvec Hl)
    as (Hwf' & Hsame & Hall).
  assert (m' = (if l_update st then SetMappings.normalise (l_maps st) else l_maps st) ∧
    ∃ a b c d e, op = <[SourceFieldName := a]> (<[TimeFieldName := b]> (<[ShardFieldName := c]>
      (<[IDFieldName := d]> (<[ActionFieldName := e]> (l_flat st)))))) as [-> (a & b & c & d & e & ->)].
  { unfold SetMappings.SetMappings in Hc. cbn [default from_option] in Hc. rewrite normalise_union in Hc.
    destruct (l_update st); (destruct store_err; cbn in Hc; [done|] || cbn in Hc); cbv zeta in Hc;
      destruct (match l_flat st !! TimeFieldName with Some _ => _ | None => _ end);
      simplify_eq; split; try done; do 5 eexists; reflexivity. }
  assert (wf_mappings (if l_update st then SetMappings.normalise (l_maps st) else l_maps st)) as Hwf2
    by (destruct (l_update st); [by apply wf_normalise|done]).
  split; [done|]. apply build_no_panic; [done|]. intros k v Hk Hnin.
  rewrite !not_elem_of_cons in Hnin. destruct Hnin as (H1 & H2 & H3 & H4 & H5 & _).
  rewrite !lookup_insert_ne in Hk by congruence.
  assert (k ∈ (range o (Flatten doc "")).*1) as Hin.
  { destruct (decide (k ∈ (range o (Flatten doc "")).*1)) as [?|Hout]; [done|].
    destruct (Hsame k Hout) as [_ Hf]. rewrite Hf in Hk. cbn [l_flat] in Hk.
    apply (range_elem o) in Hk. destruct Hout. apply list_elem_of_fmap. by exists (k, v). }
  destruct (Hall k Hin) as (v' & Hv' & Hok). simplify_eq.
  destruct (l_update st); [by apply field_ok_normalise|done].
Qed.

(** A library for concrete runs: only RFC 3339 dates that start with "2" parse. *)
Definition demo_lib : GoLib := {|
  FormatFloat _ := "1.5";
  ParseFloat s := if decide (s = "1.5") then inl (float_of_Z 1) else inr "invalid syntax";
  Sprint _ := "<v>";
  ParseInLocation layout s _ := if decide (String.get 0 s = Some "2"%char) then inl 5%Z else inr "bad date";
  LoadLocation name := inr ("unknown time zone " +:+ name)
|}.

Definition demo_mappings : Mappings :=
  <["_id" := NewProperty "keyword"]> (<["price" := NewProperty "numeric"]> ∅).

Lemma demo_wf : wf_mappings demo_mappings.
Proof.
  split; [|exists (NewProperty "keyword"); split_and!; [by vm_compute|by right|done]].
  intros k p. unfold demo_mappings. rewrite !lookup_insert_Some, lookup_empty.
  intros [[_ <-]|[_ [[_ <-]|[_ ?]]]]; [..|done];
    (split; [unfold known_type; cbn; set_solver|intros kp []%elem_of_nil]).
Qed.

Lemma checked_document_builds_witness :
  ∃ op m' vecs',
    @CheckDocumentOperation demo_lib false map_order_default 7 None ∅ demo_mappings "x"
      [("price", VStr "1.5"); ("tags", VArr [VStr "a"; VBool true]); ("at", VStr "2020-01-01T00:00:00+00:00")]
      false (-1) = (Ok op, m', vecs') ∧
    op !! "price" = Some (VFloat (float_of_Z 1)) ∧ op !! "tags" = Some (VArr [VStr "a"; VStr "true"]) ∧
    is_panic (@BuildBlugeDocumentFromJSON demo_lib (λ _, true) map_order_rev 7 "ix" m' "x" op) = false.
Proof.
  set (doc := [("price", VStr "1.5"); ("tags", VArr [VStr "a"; VBool true]);
               ("at", VStr "2020-01-01T00:00:00+00:00")]).
  destruct (@CheckDocumentOperation demo_lib false map_order_default 7 None ∅ demo_mappings "x" doc false (-1))
    as [[r m'] vecs'] eqn:Hc.
  pose proof (f_equal (λ x, is_ok x.1.1) Hc) as Hr. vm_compute in Hr.
  destruct r as [op| |]; try discriminate Hr.
  exists op, m', vecs'. split; [done|]. split; [|split].
  - transitivity (match (@CheckDocumentOperation demo_lib false map_order_default 7 None ∅ demo_mappings
      "x" doc false (-1)).1.1 with Ok op => op !! "price" | _ => None end).
    + rewrite Hc. reflexivity.
    + vm_compute. reflexivity.
  - transitivity (match (@CheckDocumentOperation demo_lib false map_order_default 7 None ∅ demo_mappings
      "x" doc false (-1)).1.1 with Ok op => op !! "tags" | _ => None end).
    + rewrite Hc. reflexivity.
    + vm_compute. reflexivity.
  - apply (@checked_document_builds demo_lib (λ _, true) map_order_default map_order_rev 7 7 None ∅
      demo_mappings "x" doc false (-1) op m' vecs' "ix" demo_wf); [|exact Hc].
    intros k p v _ Hp Ht. exfalso. revert Hp. unfold demo_mappings.
    rewrite !lookup_insert_Some, lookup_empty.
    intros [[_ <-]|[_ [[_ <-]|[_ ?]]]]; [discriminate Ht..|done].
Defined.

(** A loop whose turns change nothing or panic, one of which panics. *)
Lemma foldM_panics {A S} (f : S → A → res S) s xs p :
  (∀ s x, x ∈ xs → f s x = Ok s ∨ f s x = Panic p) → (∃ x, x ∈ xs ∧ ∀ s, f s x = Panic p) →
  foldM f s xs = Panic p.
Proof.
  intros Hf (x & Hx & Hp). induction xs as [|y xs IH]; [by apply elem_of_nil in Hx|].
  cbn [foldM]. destruct (Hf s y ltac:(by left)) as [Hy|Hy]; rewrite Hy; [|done]. cbn [mbind res_bind].
  apply elem_of_cons in Hx as [->|Hx]; [by rewrite Hp in Hy|]. apply IH; [|done].
  intros s' z Hz. apply Hf. by right.
Qed.

(** A scalar in a vector field passes the check and ends the process: the
    check of a vector field looks at arrays only and accepts anything else,
    while the build exits fatally on a value that is not an array ("we should
    have checked before").  This holds for every library, clock and traversal
    order. *)
Theorem vector_scalar_is_fatal {lib : GoLib} known (o o' : map_order string value) now indexName :
  let m : Mappings := {["emb" := NewProperty "vector"]} in
  ∃ op m', (CheckDocumentOperation false o now None ∅ m "x" [("emb", VStr "oops")] false (-1)).1 = (Ok op, m') ∧
    BuildBlugeDocumentFromJSON known o' now indexName m' "x" op = Panic (PExplicit "invalid vector field").
Proof.
  set (flat := {["emb" := VStr "oops"]} : gmap string value).
  assert (range o flat = [("emb", VStr "oops")]) as Hr
    by (apply Permutation_singleton_r; rewrite (range_perm o); unfold flat; by rewrite map_to_list_singleton).
  assert (Flatten [("emb", VStr "oops")] "" = flat) as Hf by reflexivity.
  exists (<[SourceFieldName := VMap [("emb", VStr "oops")]]> (<[TimeFieldName := VInt64 (UnixNano now)]>
    (<[ShardFieldName := VInt64 (-1)]> (<[IDFieldName := VStr "x"]>
      (<[ActionFieldName := VStr ActionTypeInsert]> flat))))), {["emb" := NewProperty "vector"]}.
  split; [unfold CheckDocumentOperation; rewrite Hf, Hr; reflexivity|].
  unfold BuildBlugeDocumentFromJSON. cbv zeta.
  rewrite (foldM_panics _ _ _ (PExplicit "invalid vector field")); [done| |].
  - intros [fs vm] [k v] Hin%range_elem.
    apply lookup_delete_Some in Hin as [H1 Hin]. apply lookup_delete_Some in Hin as [H2 Hin].
    apply lookup_delete_Some in Hin as [H3 Hin].
    apply lookup_insert_Some in Hin as [[<- <-]|[_ Hin]]; [by left|].
    apply lookup_insert_Some in Hin as [[<- <-]|[_ Hin]]; [by left|].
    rewrite !lookup_insert_ne in Hin by congruence.
    apply lookup_singleton_Some in Hin as [<- <-]. by right.
  - exists ("emb", VStr "oops"). split; [by apply range_elem|]. by intros [fs vm].
Qed.

(** With keyword sub-fields enabled, a text field mapped without one
    (as the mapping API leaves it) is silently mapped again by the next value:
    a number turns it into a numeric field. *)
Theorem text_field_is_remapped {lib : GoLib} x :
  let m : Mappings := {["title" := NewProperty "text"]} in
  ∃ m', checkProperty true m "title" (VFloat x) = (m', true) ∧
    (Type_ <$> m' !! "title") = Some "numeric".
Proof. eexists. split; reflexivity. Qed.
End Pipeline.
