(* ===== verification/Shards.v ===== *)
(** pkg/core/index_shards.go and the statistics of pkg/core/index.go: a first
    layer shard, its chain of second layer shards, the reference-counted
    writers and the time ranges that prune a search. *)
From S2P Require Import Prelude Hash Strconv.

(** * Stateful code *)

(** Go methods on a shared object: a state, and an outcome. *)
Definition M (St A : Type) : Type := St → res A * St.

#[global] Instance M_ret {St} : MRet (M St) := λ A a s, (Ok a, s).
#[global] Instance M_bind {St} : MBind (M St) := λ A B f m s,
  match m s with
  | (Ok a, s') => f a s'
  | (Err e, s') => (Err e, s')
  | (Panic p, s') => (Panic p, s')
  end.

Definition raise {St A} (e : string) : M St A := λ s, (Err e, s).
Definition crash {St A} (p : panic) : M St A := λ s, (Panic p, s).
Definition get {St} : M St St := λ s, (Ok s, s).
Definition modify {St} (f : St → St) : M St unit := λ s, (Ok tt, f s).
Definition lift {St A} (r : res A) : M St A := λ s, (r, s).

(** [defer d()] before [m]: [d] runs on every exit; its own panic wins. *)
Definition deferred {St A} (d : M St unit) (m : M St A) : M St A := λ s,
  let '(r, s1) := m s in
  match d s1 with
  | (Panic p, s2) => (Panic p, s2)
  | (_, s2) => (r, s2)
  end.

Fixpoint forM {St A} (f : A → M St unit) (xs : list A) : M St unit :=
  match xs with
  | [] => mret tt
  | x :: xs => f x ≫= λ _, forM f xs
  end.

(** * bluge, the storage engine *)

(** The calls made on a batch, in order. *)
Inductive bop (bdoc : Type) : Type :=
  | BInsert (d : bdoc)
  | BUpdate (id : string) (d : bdoc)
  | BDelete (id : string).
Arguments BInsert {bdoc} d.
Arguments BUpdate {bdoc} id d.
Arguments BDelete {bdoc} id.

(** The ids a batch deletes and the documents it adds. *)
Definition removed {bdoc} (ops : list (bop bdoc)) : list string :=
  omap (λ o, match o with BUpdate id _ | BDelete id => Some id | BInsert _ => None end) ops.
Definition added {bdoc} (ops : list (bop bdoc)) : list bdoc :=
  omap (λ o, match o with BInsert d | BUpdate _ d => Some d | BDelete _ => None end) ops.

(** What the program uses of the engine (blugelabs/bluge): an index, the
    documents it holds under an id, its size and number of documents, and the
    atomic application of a batch, which first deletes the ids of the batch
    and then adds its documents. *)
Class Bluge (W bdoc : Type) := {
  doc_id : bdoc → string;
  doc_time : bdoc → Z;
  new_index : W;
  contents : W → string → list bdoc;
  DirectorySize : W → Z;
  Count : W → Z;
  Batch : W → list (bop bdoc) → res unit * W;
  new_index_empty : ∀ id, contents new_index id = [];
  Batch_contents : ∀ w ops w', Batch w ops = (Ok tt, w') → ∀ id,
    contents w' id = (if decide (id ∈ removed ops) then [] else contents w id)
                     ++ filter (λ d, doc_id d = id) (added ops)
}.

Definition ShardIDNeedLatest : Z := -1.

Section shards.
Context {W bdoc : Type} {bluge : Bluge W bdoc}.

(** * State *)

Record Stats := mkStats { DocTimeMin : Z; DocTimeMax : Z; DocNum : Z; StorageSize : Z }.

Definition zero_stats : Stats := mkStats 0 0 0 0.

(** A second layer shard: its number, statistics, the index behind the writer,
    whether the writer is open, and the reference count. *)
Record SecondShard := mkSecond {
  ID : Z; stats : Stats; index : W; writer : bool; writerRefcount : Z
}.

Definition new_second (id : Z) : SecondShard := mkSecond id zero_stats new_index false 0.

(** A first layer shard.  [ref.ShardNum], [ref.Shards] and [shards] are
    extended together under the lock, so the number of shards is the length. *)
Record IndexShard := mkShard { shards : list SecondShard; sstats : Stats }.

Definition GetShardNum (s : IndexShard) : Z := Z.of_nat (length (shards s)).
Definition GetLatestShardID (s : IndexShard) : Z := (GetShardNum s - 1)%Z.

Definition set_shards (f : list SecondShard → list SecondShard) (s : IndexShard) : IndexShard :=
  mkShard (f (shards s)) (sstats s).
Definition set_sstats (f : Stats → Stats) (s : IndexShard) : IndexShard :=
  mkShard (shards s) (f (sstats s)).

Definition add_ref (n : Z) (x : SecondShard) : SecondShard :=
  mkSecond (ID x) (stats x) (index x) (writer x) (writerRefcount x + n).
Definition set_writer (b : bool) (x : SecondShard) : SecondShard :=
  mkSecond (ID x) (stats x) (index x) b (writerRefcount x).
Definition set_index (w : W) (x : SecondShard) : SecondShard :=
  mkSecond (ID x) (stats x) w (writer x) (writerRefcount x).
Definition set_stats (st : Stats) (x : SecondShard) : SecondShard :=
  mkSecond (ID x) st (index x) (writer x) (writerRefcount x).

(** [s.shards[id]]; an index out of range panics. *)
Definition get_second (id : Z) : M IndexShard SecondShard := λ s,
  if decide (0 ≤ id)%Z then
    match shards s !! Z.to_nat id with
    | Some x => (Ok x, s)
    | None => (Panic PIndex, s)
    end
  else (Panic PIndex, s).

Definition upd_second (id : Z) (f : SecondShard → SecondShard) : M IndexShard unit :=
  modify (set_shards (alter f (Z.to_nat id))).

(** * Writers *)

(** [OpenIndexWriter] may fail on the storage behind a shard. *)
Context (open_err : Z → option string).

Definition openWriter (id : Z) : M IndexShard unit :=
  x ← get_second id;
  if writer x then mret tt
  else match open_err id with
       | Some e => raise e
       | None => upd_second id (set_writer true)
       end.

(** [GetWriter(id)], with the WAL closed or already open.  The writer is the
    second shard itself, named by its number. *)
Definition GetWriter (id : Z) : M IndexShard Z :=
  s ← get;
  if decide (GetShardNum s ≤ id ∨ id < 0)%Z then raise "second shard not found"
  else
    x ← get_second id;
    if writer x then (_ ← upd_second id (add_ref 1); mret id)
    else (_ ← openWriter id; _ ← upd_second id (add_ref 1); mret id).

(** [for i := int64(0); i < s.GetShardNum(); i++]. *)
Fixpoint GetWriters_loop (n : nat) (i : Z) : M IndexShard (list Z) :=
  match n with
  | O => mret []
  | S n => w ← GetWriter i; ws ← GetWriters_loop n (i + 1); mret (w :: ws)
  end.

Definition GetWriters : M IndexShard (list Z) :=
  s ← get; GetWriters_loop (length (shards s)) 0.

(** [CloseWriter]: a negative number means every second shard. *)
Definition CloseWriter (id : Z) : M IndexShard unit :=
  if decide (id < 0)%Z then modify (set_shards (fmap (add_ref (-1))))
  else (_ ← get_second id; upd_second id (add_ref (-1))).

(** [writer.Batch(ops)] of the writer of second shard [id]. *)
Definition writer_Batch (id : Z) (ops : list (bop bdoc)) : M IndexShard unit :=
  x ← get_second id;
  let '(r, w') := Batch (index x) ops in
  _ ← upd_second id (set_index w'); lift r.

(** * Time ranges and statistics *)

Definition SetTimestamp (t : Z) : M IndexShard unit :=
  modify (set_sstats (λ st,
    if decide (DocTimeMin st = 0)%Z then mkStats t t (DocNum st) (StorageSize st)
    else if decide (t < DocTimeMin st)%Z then mkStats t (DocTimeMax st) (DocNum st) (StorageSize st)
    else if decide (DocTimeMax st < t)%Z then mkStats (DocTimeMin st) t (DocNum st) (StorageSize st)
    else st)).

(** [UpdateStatsBySecondShard]: nothing without an open writer. *)
Definition UpdateStatsBySecondShard (id : Z) : M IndexShard unit :=
  x ← get_second id;
  if writer x then
    upd_second id (set_stats (mkStats (DocTimeMin (stats x)) (DocTimeMax (stats x))
                                (Count (index x)) (DirectorySize (index x))))
  else mret tt.

Definition NewShard (store_err : option string) : M IndexShard unit :=
  s ← get;
  let last := GetLatestShardID s in
  _ ← UpdateStatsBySecondShard last;
  s ← get;
  x ← get_second last;
  let st := mkStats (DocTimeMin (sstats s)) (DocTimeMax (sstats s))
                    (DocNum (stats x)) (StorageSize (stats x)) in
  _ ← upd_second last (set_stats st);
  _ ← modify (set_sstats (λ st, mkStats 0 0 (DocNum st) (StorageSize st)));
  _ ← modify (set_shards (λ xs, xs ++ [new_second (Z.of_nat (length xs))]));
  match store_err with Some e => raise e | None => mret tt end.

(** [CheckShards] opens a new second shard when the last one has grown over
    the limit. *)
Definition CheckShards (MaxSize : Z) (store_err : option string) : M IndexShard unit :=
  s ← get;
  let id := GetLatestShardID s in
  w ← GetWriter id;
  deferred (CloseWriter id)
    (x ← get_second w;
     if decide (MaxSize < DirectorySize (index x))%Z then NewShard store_err else mret tt).

Fixpoint UpdateMetadata_loop (n : nat) (i : Z) (docs size : Z) : M IndexShard (Z * Z) :=
  match n with
  | O => mret (docs, size)
  | S n =>
      _ ← UpdateStatsBySecondShard i;
      x ← get_second i;
      UpdateMetadata_loop n (i + 1) (wrap64 (docs + DocNum (stats x))) (wrap64 (size + StorageSize (stats x)))
  end.

(** [UpdateMetadataByShard]. *)
Definition UpdateMetadataByShard : M IndexShard unit :=
  s ← get;
  '(docs, size) ← UpdateMetadata_loop (length (shards s)) 0 0 0;
  _ ← modify (set_sstats (λ st, mkStats (DocTimeMin st) (DocTimeMax st) docs size));
  s ← get;
  let last := GetLatestShardID s in
  x ← get_second last;
  upd_second last (set_stats (mkStats (DocTimeMin (sstats s)) (DocTimeMax (sstats s))
                                (DocNum (stats x)) (StorageSize (stats x)))).

(** * Searchers *)

(** A shard outside of the requested range; 0 stands for "no bound". *)
Definition out_of_range (timeMin timeMax : Z) (x : SecondShard) : bool :=
  let sMin := DocTimeMin (stats x) in
  let sMax := DocTimeMax (stats x) in
  ((0 <? timeMin) && (0 <? sMax) && (sMax <? timeMin)
   || (0 <? timeMax) && (0 <? sMin) && (timeMax <? sMin))%Z.

(** The loop body shared by the two searches: skip, take, or take and stop. *)
Fixpoint searchers_loop (timeMin timeMax : Z) (xs : list SecondShard) : list Z :=
  match xs with
  | [] => []
  | x :: xs =>
      if out_of_range timeMin timeMax x then searchers_loop timeMin timeMax xs
      else ID x :: (if ((0 <? DocTimeMin (stats x)) && (DocTimeMin (stats x) <? timeMin))%Z then []
                    else searchers_loop timeMin timeMax xs)
  end.

(** [GetSearchers] visits the second shards from the newest to the oldest. *)
Definition GetSearchers (s : IndexShard) (timeMin timeMax : Z) : list Z :=
  searchers_loop timeMin timeMax (reverse (shards s)).

(** [GetPartialSearchers] visits the requested ones in the order given; ids
    that do not exist are skipped. *)
Definition GetPartialSearchers (s : IndexShard) (timeMin timeMax : Z) (ids : list Z) : list Z :=
  searchers_loop timeMin timeMax
    (omap (λ id, if decide (0 ≤ id)%Z then shards s !! Z.to_nat id else None) ids).

(** * Theorems on time ranges *)

(** Second shards follow each other in time. *)
Definition time_ordered (s : IndexShard) : Prop :=
  ∀ i j x y, i < j → shards s !! i = Some x → shards s !! j = Some y →
    (0 < DocTimeMin (stats y))%Z → (0 < DocTimeMax (stats x) ≤ DocTimeMin (stats y))%Z.

(** The loop misses no shard when each shard that stops it is followed only by
    shards out of range. *)
Lemma searchers_loop_complete timeMin timeMax xs :
  (∀ pre y post z, xs = pre ++ y :: post → z ∈ post →
     (0 < DocTimeMin (stats y) < timeMin)%Z → out_of_range timeMin timeMax z = true) →
  ∀ x, x ∈ xs → out_of_range timeMin timeMax x = false → ID x ∈ searchers_loop timeMin timeMax xs.
Proof.
  induction xs as [|y xs IH]; intros Hstop x Hx Hin; [by apply elem_of_nil in Hx|].
  cbn [searchers_loop].
  assert (∀ x, x ∈ xs → out_of_range timeMin timeMax x = false → ID x ∈ searchers_loop timeMin timeMax xs) as IH'.
  { apply IH. intros pre y' post z ->. apply (Hstop (y :: pre)). done. }
  apply elem_of_cons in Hx as [->|Hx].
  - rewrite Hin. by left.
  - destruct (out_of_range timeMin timeMax y); [by apply IH'|].
    right. destruct ((0 <? DocTimeMin (stats y)) && (DocTimeMin (stats y) <? timeMin))%Z eqn:Hb; [|by apply IH'].
    exfalso. assert (out_of_range timeMin timeMax x = true); [|congruence].
    apply (Hstop [] y xs x); [done|done|]. apply andb_true_iff in Hb as [H1%Z.ltb_lt H2%Z.ltb_lt]. lia.
Qed.

Lemma searchers_loop_sound timeMin timeMax xs id :
  id ∈ searchers_loop timeMin timeMax xs →
  ∃ x, x ∈ xs ∧ ID x = id ∧ out_of_range timeMin timeMax x = false.
Proof.
  induction xs as [|y xs IH]; cbn [searchers_loop]; [by intros []%elem_of_nil|].
  destruct (out_of_range timeMin timeMax y) eqn:Hy.
  - intros (x & ? & ?)%IH. exists x. split; [by right|done].
  - intros [->|Hin]%elem_of_cons; [exists y; split_and!; [by left|done..]|].
    case_match; [by apply elem_of_nil in Hin|]. apply IH in Hin as (x & ? & ?).
    exists x. split; [by right|done].
Qed.

Lemma reverse_split_lookup {A} (xs : list A) pre y post z :
  reverse xs = pre ++ y :: post → z ∈ post → ∃ i j, i < j ∧ xs !! i = Some z ∧ xs !! j = Some y.
Proof.
  intros Hr Hz. apply (f_equal reverse) in Hr. rewrite reverse_involutive in Hr.
  rewrite reverse_app, reverse_cons, <-app_assoc in Hr. subst xs.
  apply elem_of_reverse, list_elem_of_lookup in Hz as [i Hi].
  pose proof (lookup_lt_Some _ _ _ Hi). exists i, (length (reverse post)).
  split; [done|]. split; [by apply lookup_app_l_Some|].
  by rewrite lookup_app_r, Nat.sub_diag by done.
Qed.
End shards.

(** What the search reads, for the theorem below and the composition with the
    time range of a query. *)
Lemma GetSearchers_iff {W} (s : @IndexShard W) (timeMin timeMax : Z) :
  time_ordered s → ∀ id,
  id ∈ GetSearchers s timeMin timeMax ↔
  ∃ x, x ∈ shards s ∧ ID x = id ∧ out_of_range timeMin timeMax x = false.
Proof.
  intros Hord id. unfold GetSearchers. split.
  - intros (x & Hx & ? & ?)%searchers_loop_sound. exists x. by rewrite elem_of_reverse in Hx.
  - intros (x & Hx & <- & Hin). apply searchers_loop_complete; [|by rewrite elem_of_reverse|done].
    intros pre y post z Hr Hz Hb. destruct (reverse_split_lookup _ _ _ _ _ Hr Hz) as (i & j & Hij & Hi & Hj).
    pose proof (Hord i j z y Hij Hi Hj ltac:(lia)). unfold out_of_range.
    apply orb_true_iff. left. rewrite !andb_true_iff, !Z.ltb_lt. lia.
Qed.

(** The shards a search reads and those it leaves out. *)
Lemma searchers_loop_picked {W} timeMin timeMax (xs : list (@SecondShard W)) :
  (∀ pre y post z, xs = pre ++ y :: post → z ∈ post →
     (0 < DocTimeMin (stats y) < timeMin)%Z → out_of_range timeMin timeMax z = true) →
  ∃ picked rest, searchers_loop timeMin timeMax xs = ID <$> picked ∧ picked ++ rest ≡ₚ xs ∧
    ∀ x, x ∈ rest → out_of_range timeMin timeMax x = true.
Proof.
  induction xs as [|x xs IH]; intros Hstop; cbn [searchers_loop].
  { exists [], []. split_and!; [done..|]. by intros ? ?%elem_of_nil. }
  destruct IH as (picked & rest & Hl & Hp & Hr).
  { intros pre y post z -> Hz. by apply (Hstop (x :: pre) y post z). }
  destruct (out_of_range timeMin timeMax x) eqn:Hx.
  - exists picked, (x :: rest). split_and!; [done|by rewrite <-Hp, Permutation_middle|].
    by intros z [->|Hz]%elem_of_cons; [|apply Hr].
  - destruct ((0 <? DocTimeMin (stats x)) && (DocTimeMin (stats x) <? timeMin))%Z eqn:Hs.
    + exists [x], xs. split_and!; [done..|]. intros z Hz. apply (Hstop [] x xs z); [done..|]. lia.
    + exists (x :: picked), rest. rewrite Hl. split_and!; [done|cbn; by rewrite Hp|done].
Qed.

Lemma GetSearchers_picked {W} (s : @IndexShard W) (timeMin timeMax : Z) :
  time_ordered s →
  ∃ picked rest, GetSearchers s timeMin timeMax = ID <$> picked ∧ picked ++ rest ≡ₚ shards s ∧
    ∀ x, x ∈ rest → out_of_range timeMin timeMax x = true.
Proof.
  intros Hord. destruct (searchers_loop_picked timeMin timeMax (reverse (shards s))) as (picked & rest & Hl & Hp & Hr).
  - intros pre y post z Hrev Hz Hb. destruct (reverse_split_lookup _ _ _ _ _ Hrev Hz) as (i & j & Hij & Hi & Hj).
    pose proof (Hord i j z y Hij Hi Hj ltac:(lia)). unfold out_of_range.
    apply orb_true_iff. left. rewrite !andb_true_iff, !Z.ltb_lt. lia.
  - exists picked, rest. split_and!; [done|by rewrite Hp, reverse_Permutation|done].
Qed.

(** A time-bounded search reads exactly the second shards whose recorded
    range meets the requested one, when the shards follow each other in time:
    stopping at the first shard that starts before the bound loses none, and no
    shard outside of the range is read. *)
Theorem GetSearchers_exact {W} (s : @IndexShard W) (timeMin timeMax : Z) :
  time_ordered s → ∀ id,
  id ∈ GetSearchers s timeMin timeMax ↔
  ∃ x, x ∈ shards s ∧ ID x = id ∧ out_of_range timeMin timeMax x = false.
Proof. apply GetSearchers_iff. Qed.

(** ** The last second shard *)

Section last_shard.
Context {W bdoc : Type} {bluge : Bluge W bdoc} (open_err : Z → option string).
Implicit Types (xs ys : list (@SecondShard W)) (x : @SecondShard W).

Lemma latest_snoc xs x st : GetLatestShardID (mkShard (xs ++ [x]) st) = Z.of_nat (length xs).
Proof. unfold GetLatestShardID, GetShardNum. cbn. rewrite length_app. cbn. lia. Qed.

Lemma get_second_at xs x ys st :
  get_second (Z.of_nat (length xs)) (mkShard (xs ++ x :: ys) st) = (Ok x, mkShard (xs ++ x :: ys) st).
Proof.
  unfold get_second. rewrite decide_True by lia. cbn [shards]. rewrite Nat2Z.id.
  by rewrite list_lookup_middle.
Qed.

Lemma upd_second_at xs x ys st f :
  upd_second (Z.of_nat (length xs)) f (mkShard (xs ++ x :: ys) st) = (Ok tt, mkShard (xs ++ f x :: ys) st).
Proof.
  unfold upd_second, modify, set_shards. cbn. rewrite Nat2Z.id, alter_app_r_alt by done.
  by rewrite Nat.sub_diag.
Qed.

(** [GetWriter] of an existing shard: opened when needed, one reference more. *)
Lemma GetWriter_at xs x ys st :
  writer x = true ∨ open_err (Z.of_nat (length xs)) = None →
  GetWriter open_err (Z.of_nat (length xs)) (mkShard (xs ++ x :: ys) st) =
    (Ok (Z.of_nat (length xs)), mkShard (xs ++ add_ref 1 (set_writer true x) :: ys) st).
Proof.
  intros Hw. unfold GetWriter, get, mbind, M_bind. rewrite decide_False.
  2: { unfold GetShardNum. cbn. rewrite length_app. cbn. lia. }
  rewrite get_second_at. destruct (writer x) eqn:Hx.
  - rewrite upd_second_at. unfold mret, M_ret. do 3 f_equal.
    destruct x; cbn in *. by subst.
  - destruct Hw as [|Hop]; [done|]. unfold openWriter, mbind, M_bind. rewrite get_second_at, Hx, Hop.
    by rewrite !upd_second_at.
Qed.

Lemma CloseWriter_at xs x ys st :
  CloseWriter (Z.of_nat (length xs)) (mkShard (xs ++ x :: ys) st) =
    (Ok tt, mkShard (xs ++ add_ref (-1) x :: ys) st).
Proof.
  unfold CloseWriter. rewrite decide_False by lia. unfold mbind, M_bind.
  by rewrite get_second_at, upd_second_at.
Qed.

(** A failed open leaves the shards as they were. *)
Lemma GetWriter_open_fails xs x ys st e :
  writer x = false → open_err (Z.of_nat (length xs)) = Some e →
  GetWriter open_err (Z.of_nat (length xs)) (mkShard (xs ++ x :: ys) st) =
    (Err e, mkShard (xs ++ x :: ys) st).
Proof.
  intros Hx Hop. unfold GetWriter, get, mbind, M_bind. rewrite decide_False.
  2: { unfold GetShardNum. cbn. rewrite length_app. cbn. lia. }
  rewrite get_second_at, Hx. unfold openWriter, mbind, M_bind. by rewrite get_second_at, Hx, Hop.
Qed.

Lemma add_ref_cancel x : add_ref (-1) (add_ref 1 x) = x.
Proof. destruct x; unfold add_ref; cbn. f_equal. lia. Qed.
End last_shard.

(** * What the bookkeeping leaves alone *)

Section views.
Context {W bdoc : Type} {bluge : Bluge W bdoc} (open_err : Z → option string).

(** The numbers and the indexes of the second shards. *)
Definition view (s : @IndexShard W) : list (Z * W) := (λ x, (ID x, index x)) <$> shards s.

Definition same_view {A} (m : M (@IndexShard W) A) : Prop := ∀ s, view (m s).2 = view s.

Lemma same_view_bind {A B} (m : M (@IndexShard W) A) (f : A → M (@IndexShard W) B) :
  same_view m → (∀ a, same_view (f a)) → same_view (m ≫= f).
Proof.
  intros Hm Hf s. specialize (Hm s). unfold mbind, M_bind.
  destruct (m s) as [[a| |] s1]; cbn in *; [|done|done]. by rewrite (Hf a).
Qed.

Lemma same_view_ret {A} (a : A) : same_view (mret a).
Proof. done. Qed.
Lemma same_view_get : same_view get.
Proof. done. Qed.
Lemma same_view_raise {A} e : same_view (A := A) (raise e).
Proof. done. Qed.
Lemma same_view_get_second id : same_view (get_second id).
Proof. intros s. unfold get_second. repeat case_match; done. Qed.
Lemma same_view_sstats f : same_view (modify (set_sstats f)).
Proof. done. Qed.

Lemma view_alter f n s : (∀ x, ID (f x) = ID x ∧ index (f x) = index x) → view (set_shards (alter f n) s) = view s.
Proof.
  intros Hf. unfold view. cbn [set_shards shards]. apply list_eq. intros i. rewrite !list_lookup_fmap.
  destruct (decide (n = i)) as [->|Hne]; [rewrite list_lookup_alter_eq|by rewrite list_lookup_alter_ne].
  destruct (shards s !! i) as [x|]; [|done]. cbn. by destruct (Hf x) as [-> ->].
Qed.
Lemma same_view_upd f id : (∀ x, ID (f x) = ID x ∧ index (f x) = index x) → same_view (upd_second id f).
Proof. intros Hf s. unfold upd_second, modify. by apply view_alter. Qed.
End views.

Create HintDb view.
#[export] Hint Resolve same_view_bind same_view_ret same_view_get same_view_raise same_view_get_second
  same_view_sstats same_view_upd : view.

(** Runs down a command that is built from the steps above. *)
Ltac same_view :=
  repeat (intros || apply same_view_bind || case_match); eauto with view.

Section view_lemmas.
Context {W bdoc : Type} {bluge : Bluge W bdoc} (open_err : Z → option string).

Lemma same_view_GetWriter id : same_view (W := W) (GetWriter open_err id).
Proof. unfold GetWriter, openWriter. same_view. Qed.

Lemma same_view_CloseWriter id : same_view (W := W) (CloseWriter id).
Proof.
  unfold CloseWriter. case_decide; [|same_view]. intros s. unfold modify, view. cbn [snd set_shards shards].
  rewrite <-list_fmap_compose. apply list_fmap_ext. done.
Qed.

Lemma same_view_UpdateStats id : same_view (W := W) (UpdateStatsBySecondShard id).
Proof. unfold UpdateStatsBySecondShard. same_view. Qed.

Lemma same_view_UpdateMetadata : same_view (W := W) UpdateMetadataByShard.
Proof.
  unfold UpdateMetadataByShard. apply same_view_bind; [apply same_view_get|]. intros s.
  apply same_view_bind; [|same_view].
  generalize 0%Z at 1. generalize 0%Z at 1. generalize 0%Z.
  induction (length (shards s)) as [|n IH]; intros a b c; cbn [UpdateMetadata_loop]; [same_view|].
  apply same_view_bind; [apply same_view_UpdateStats|]. intros _.
  apply same_view_bind; [apply same_view_get_second|]. intros x. apply IH.
Qed.

(** A roll-over adds one empty second shard at the end. *)
Definition grows (s s' : @IndexShard W) : Prop :=
  view s' = view s ∨ view s' = view s ++ [(Z.of_nat (length (shards s)), new_index)].

Lemma length_view (s : @IndexShard W) : length (view s) = length (shards s).
Proof. apply length_fmap. Qed.

Lemma grows_view (s1 s1' s2 s2' : @IndexShard W) :
  view s1 = view s1' → view s2 = view s2' → grows s1 s2 → grows s1' s2'.
Proof.
  intros H1 H2 [H|H]; [left; congruence|right]. rewrite <-H2, <-H1, H. by rewrite <-!length_view, H1.
Qed.

Lemma NewShard_grows store_err s : grows s (NewShard store_err s).2.
Proof.
  unfold NewShard, mbind, M_bind, get. destruct (UpdateStatsBySecondShard _ s) as [r s1] eqn:H1.
  pose proof (same_view_UpdateStats (GetLatestShardID s) s) as Hv1. rewrite H1 in Hv1. cbn in Hv1.
  destruct r; [|by left..]. pose proof (same_view_get_second (GetLatestShardID s) s1) as Hv2.
  destruct (get_second _ s1) as [[x| |] s2]; cbn in Hv2; [|left; cbn; congruence..].
  unfold upd_second, modify. cbv zeta.
  match goal with |- context [set_shards (alter ?f ?n) s2] =>
    pose proof (view_alter f n s2 ltac:(by intros [])) as Hv3; set (s3 := set_shards (alter f n) s2) in * end.
  assert (length (shards s3) = length (shards s)) as Hlen by (rewrite <-!length_view; congruence).
  right. destruct store_err; cbn [snd mret M_ret raise]; unfold view; cbn [set_shards set_sstats shards];
    rewrite fmap_app; fold (view s3); rewrite Hv3, Hv2, Hv1; cbn [fmap list_fmap new_second ID index]; by rewrite Hlen.
Qed.

Lemma CheckShards_grows MaxSize store_err s : grows s (CheckShards open_err MaxSize store_err s).2.
Proof.
  unfold CheckShards, mbind, M_bind, get. destruct (GetWriter open_err _ s) as [r s1] eqn:H1.
  pose proof (same_view_GetWriter (GetLatestShardID s) s) as Hv1. rewrite H1 in Hv1. cbn in Hv1.
  destruct r as [w| |]; [|by left..]. unfold deferred.
  match goal with |- context [match ?m with pair _ _ => _ end] => set (body := m) end.
  assert (grows s1 body.2) as Hg.
  { subst body. unfold mbind, M_bind. pose proof (same_view_get_second w s1) as Hv2.
    destruct (get_second w s1) as [[x| |] s2]; cbn in Hv2; [|by left..]. case_decide; [|by left].
    eapply grows_view; [exact Hv2|done|apply NewShard_grows]. }
  destruct body as [r s2]. cbn in Hg. pose proof (same_view_CloseWriter (GetLatestShardID s) s2) as Hv3.
  destruct (CloseWriter _ s2) as [r' s3]. cbn in Hv3.
  assert (grows s s3) by (eapply grows_view; [exact Hv1|symmetry; exact Hv3|exact Hg]).
  by destruct r, r'.
Qed.
End view_lemmas.

(** [CheckShards] rolls over exactly when the newest second shard is over
    the size limit.  Below the limit nothing changes but that the writer is
    open.  Above it the shard is frozen with the time range collected so far
    and its current statistics, the collected range is cleared, and an empty
    second shard with the next number is added; older shards, the stored
    documents and every reference count are untouched. *)
Theorem CheckShards_rolls_over {W bdoc} {bluge : Bluge W bdoc} open_err MaxSize xs (x : @SecondShard W) st :
  writer x = true ∨ open_err (Z.of_nat (length xs)) = None →
  CheckShards open_err MaxSize None (mkShard (xs ++ [x]) st) =
  (Ok tt,
   if decide (MaxSize < DirectorySize (index x))%Z then
     mkShard (xs ++ [mkSecond (ID x) (mkStats (DocTimeMin st) (DocTimeMax st) (Count (index x))
                                        (DirectorySize (index x))) (index x) true (writerRefcount x);
                     new_second (Z.of_nat (S (length xs)))])
       (mkStats 0 0 (DocNum st) (StorageSize st))
   else mkShard (xs ++ [set_writer true x]) st).
Proof.
  intros Hw. unfold CheckShards, get, mbind, M_bind. rewrite latest_snoc, (GetWriter_at open_err) by done.
  unfold deferred. rewrite get_second_at. cbn [add_ref set_writer index]. case_decide as Hsz.
  - unfold NewShard, get, mbind, M_bind. rewrite latest_snoc.
    unfold UpdateStatsBySecondShard, mbind, M_bind. rewrite get_second_at. cbn [writer add_ref set_writer index stats].
    rewrite !upd_second_at, get_second_at, upd_second_at. cbn [set_stats stats DocNum StorageSize].
    unfold modify, set_sstats, set_shards. cbn [shards sstats]. rewrite length_app. cbn [length mret M_ret].
    rewrite <-app_assoc. cbn [app]. rewrite CloseWriter_at. unfold add_ref, set_stats. cbn.
    rewrite Nat.add_1_r. repeat f_equal. lia.
  - cbn [mret M_ret]. rewrite CloseWriter_at. unfold mret, M_ret. repeat f_equal.
    apply (add_ref_cancel (set_writer true x)).
Qed.

(** A minimal engine: an association of ids with documents, an id and a time. *)
Definition demo_doc : Type := string * Z.
Definition demo_batch (w : list demo_doc) (ops : list (bop demo_doc)) : list demo_doc :=
  filter (λ d, d.1 ∉ removed ops) w ++ added ops.

#[refine] Instance demo_bluge : Bluge (list demo_doc) demo_doc := {|
  doc_id := fst; doc_time := snd; new_index := [];
  contents w id := filter (λ d, d.1 = id) w;
  DirectorySize w := Z.of_nat (length w);
  Count w := Z.of_nat (length w);
  Batch w ops := (Ok tt, demo_batch w ops)
|}.
Proof.
  - done.
  - intros w ops w' [= <-] id. unfold demo_batch. rewrite filter_app. f_equal.
    rewrite list_filter_filter. case_decide as Hid.
    + apply filter_none. intros d _ [Hd Hn]. subst. done.
    + apply list_filter_iff. intros d. split; [by intros [? _]|]. intros <-. done.
Defined.

Definition demo_shard (id lo hi : Z) (w : list demo_doc) : @SecondShard (list demo_doc) :=
  mkSecond id (mkStats lo hi 0 0) w true 0.

Lemma GetSearchers_exact_witness :
  let s := mkShard [demo_shard 0 100 200 []; demo_shard 1 200 300 []; demo_shard 2 300 400 []] zero_stats in
  GetSearchers s 150 250 = [1; 0]%Z ∧
  (2%Z ∈ GetSearchers s 150 250 ↔
   ∃ x, x ∈ shards s ∧ ID x = 2%Z ∧ out_of_range 150 250 x = false).
Proof.
  intros s. split; [reflexivity|]. apply (GetSearchers_exact s 150 250).
  intros i j x y Hij Hi Hj _. destruct i as [|[|[|]]], j as [|[|[|]]]; cbn in *; simplify_eq; cbn; lia.
Defined.

Lemma CheckShards_rolls_over_witness :
  CheckShards (λ _, None) 1 None (mkShard [mkSecond 0 zero_stats [("a", 5); ("b", 6)]%Z false 2] (mkStats 5 6 0 0)) =
  (Ok tt, mkShard [mkSecond 0 (mkStats 5 6 2 2) [("a", 5); ("b", 6)]%Z true 2; new_second 1] (mkStats 0 0 0 0)).
Proof.
  rewrite (CheckShards_rolls_over (λ _, None) 1 [] (mkSecond 0 zero_stats [("a", 5); ("b", 6)]%Z false 2));
    [reflexivity|by right].
Defined.

(** Asked for the same shards in ascending order, as the proxy asks for
    them, [GetPartialSearchers] loses the newer ones: the early stop that is
    right from newest to oldest drops every shard after the first one that
    starts before the bound. *)
Theorem GetPartialSearchers_drops_newer :
  let s := mkShard [demo_shard 0 100 200 []; demo_shard 1 200 300 []] zero_stats in
  time_ordered s ∧ GetSearchers s 150 0 = [1; 0]%Z ∧ GetPartialSearchers s 150 0 [0; 1]%Z = [0]%Z ∧
  GetPartialSearchers s 150 0 [1; 0]%Z = [1; 0]%Z.
Proof.
  intros s. split; [|split_and!; reflexivity].
  intros i j x y Hij Hi Hj _. destruct i as [|[|]], j as [|[|]]; cbn in *; simplify_eq; cbn; lia.
Qed.
