(* ===== verification/Runs.v ===== *)
(** Errors with context in stateful code, and what a call in it can lead to. *)
From S2P Require Import Prelude Shards.

(** [fmt.Errorf("...: %w", err)]. *)
Definition wrap {St A} (msg : string) (m : M St A) : M St A := λ s,
  match m s with
  | (Err err, s') => (Err (msg +:+ ": " +:+ err), s')
  | r => r
  end.

Definition fails {St} (err : option string) : M St unit :=
  match err with Some x => raise x | None => mret tt end.

(** * Outcomes of stateful code *)

(** [m] from [s] either returns normally in a state satisfying [P] or ends
    otherwise in a state satisfying [E]. *)
Definition runs {St A} (m : M St A) (s : St) (P : A → St → Prop) (E : St → Prop) : Prop :=
  match m s with
  | (Ok a, s') => P a s'
  | (_, s') => E s'
  end.

Section runs.
Context {St : Type}.

Lemma runs_bind {A B} (m : M St A) (f : A → M St B) s P E :
  runs m s (λ a s', runs (f a) s' P E) E → runs (m ≫= f) s P E.
Proof. unfold runs, mbind, M_bind. destruct (m s) as [[a|x|p] s']; done. Qed.

Lemma runs_wrap {A} msg (m : M St A) s P E : runs m s P E → runs (wrap msg m) s P E.
Proof. unfold runs, wrap. destruct (m s) as [[a|x|p] s']; done. Qed.

Lemma runs_fails err (s : St) (P : unit → St → Prop) (E : St → Prop) :
  (err = None → P tt s) → E s → runs (fails err) s P E.
Proof. unfold runs, fails. destruct err; cbn; auto. Qed.

Lemma runs_lift {A} (r : res A) (s : St) (P : A → St → Prop) (E : St → Prop) :
  (∀ a, r = Ok a → P a s) → E s → runs (lift r) s P E.
Proof. unfold runs, lift. destruct r; auto. Qed.

Lemma runs_get (s : St) (P : St → St → Prop) E : P s s → runs get s P E.
Proof. done. Qed.
Lemma runs_modify f (s : St) (P : unit → St → Prop) E : P tt (f s) → runs (modify f) s P E.
Proof. done. Qed.
Lemma runs_ret {A} (a : A) (s : St) (P : A → St → Prop) E : P a s → runs (mret a) s P E.
Proof. done. Qed.
Lemma runs_raise {A} x (s : St) (P : A → St → Prop) (E : St → Prop) : E s → runs (raise x) s P E.
Proof. done. Qed.

Lemma runs_mono {A} (m : M St A) s (P P' : A → St → Prop) (E E' : St → Prop) :
  runs m s P E → (∀ a s', P a s' → P' a s') → (∀ s', E s' → E' s') → runs m s P' E'.
Proof. unfold runs. destruct (m s) as [[a|x|p] s']; auto. Qed.

Lemma runs_inv {A} (m : M St A) s P E r s' :
  runs m s P E → m s = (r, s') → match r with Ok a => P a s' | _ => E s' end.
Proof. unfold runs. intros H Hm. rewrite Hm in H. by destruct r. Qed.
End runs.

(** One step of a proof about the outcome of a sequence of calls. *)
Ltac run :=
  lazymatch goal with
  | |- runs (mbind _ _) _ _ _ => apply runs_bind
  | |- runs (wrap _ _) _ _ _ => apply runs_wrap
  | |- runs (lift _) _ _ _ => apply runs_lift
  | |- runs (fails _) _ _ _ => apply runs_fails
  | |- runs get _ _ _ => apply runs_get
  | |- runs (modify _) _ _ _ => apply runs_modify
  | |- runs (mret _) _ _ _ => apply runs_ret
  | |- runs (raise _) _ _ _ => apply runs_raise
  end.
