(* ===== verification/VectorStore.v ===== *)
(** The rows a vector segment keeps in its bluge index: vectors as bytes
    (pkg/zutils/vector_bytes.go), iterators (pkg/zutils/flex), the visit of the
    stored fields of a search (pkg/bluge/search/search.go) and the readers of
    pkg/core/hnsw_segment.go, with the relation between the index and the
    tables of log rows and document rows it stores. *)
From S2P Require Import Prelude Hash Strconv Shards.

(** * Vectors as bytes *)

(** A float32 is its bit pattern, [math.Float32bits]. *)
Abbreviation vector := (list Z).
Definition is_float32 (x : Z) : Prop := (0 ≤ x < 2 ^ 32)%Z.
Definition is_int64 (x : Z) : Prop := (- 2 ^ 63 ≤ x < 2 ^ 63)%Z.

Definition VectorToBytes (v : vector) : list Z := concat (put_le 4 <$> v).

Definition BytesToVector (bts : list Z) : vector :=
  (λ i, get_le (take 4 (drop (4 * i) bts))) <$> seq 0 (length bts / 4).

Lemma length_VectorToBytes v : length (VectorToBytes v) = 4 * length v.
Proof.
  unfold VectorToBytes. induction v as [|x v IH]; [done|].
  rewrite fmap_cons. cbn [concat length]. rewrite length_app, length_put_le, IH. lia.
Qed.

Lemma BytesToVector_app4 bs bts :
  length bs = 4 → BytesToVector (bs ++ bts) = get_le bs :: BytesToVector bts.
Proof.
  intros Hl. unfold BytesToVector. rewrite length_app, Hl.
  replace ((4 + length bts) / 4) with (S (length bts / 4))
    by (replace (4 + length bts) with (length bts + 1 * 4) by lia; rewrite Nat.div_add; lia).
  cbn [seq]. rewrite fmap_cons. f_equal.
  - rewrite Nat.mul_0_r, drop_0. by rewrite take_app_length'.
  - rewrite <-fmap_S_seq, <-list_fmap_compose. apply list_fmap_ext. intros _ i _. cbn [compose].
    replace (4 * S i) with (length bs + 4 * i) by lia. by rewrite drop_app_add.
Qed.

(** Decoding undoes encoding for every vector of float32 values, NaN included. *)
Lemma BytesToVector_VectorToBytes v :
  Forall is_float32 v → BytesToVector (VectorToBytes v) = v.
Proof.
  induction 1 as [|x v Hx Hv IH]; [done|].
  change (VectorToBytes (x :: v)) with (put_le 4 x ++ VectorToBytes v).
  rewrite BytesToVector_app4 by apply length_put_le. rewrite IH. f_equal.
  apply get_put_le. change (256 ^ Z.of_nat 4)%Z with (2 ^ 32)%Z. exact Hx.
Qed.

(** * Iterators *)

(** What a full [range it.Range()] sees, and what [it.Error()] is after it. *)
Definition iter (A : Type) : Type := list A * option string.

(** * Stored documents *)

Abbreviation fields := (list (string * list Z)).

Record sdoc := mkSdoc { sd_id : string; sd_fields : fields }.

(** [bluge.NewDocument(id)] stores the id as the field [_id]. *)
Definition stored (d : sdoc) : fields := ("_id", bytes (sd_id d)) :: sd_fields d.

Inductive query : Type :=
  | QTerm (t : string)
  | QPrefix (p : string)
  | QShould (ts : list string)
  | QAll.

(** The [_id] a query of this file accepts. *)
Definition q_matches (q : query) (id : string) : bool :=
  match q with
  | QTerm t => bool_decide (id = t)
  | QPrefix p => String.prefix p id
  | QShould ts => bool_decide (id ∈ ts)
  | QAll => true
  end.

Inductive request : Type :=
  | NewAllMatches (q : query)
  | NewTopNSearch (n : nat) (q : query).

Definition rq_query (r : request) : query :=
  match r with NewAllMatches q | NewTopNSearch _ q => q end.
Definition rq_limit {A} (r : request) (l : list A) : list A :=
  match r with NewAllMatches _ => l | NewTopNSearch n _ => take n l end.

(** What is used of a bluge reader beyond [Bluge]: a search gives matches one
    after the other, each with the stored fields that could be visited and the
    error that stopped the visit, and may itself stop with an error.  A search
    that does not fail gives every matching document; a match that is visited
    to its end is a document of the index. *)
Class BlugeReader (W : Type) {bluge : Bluge W sdoc} := {
  sdoc_id : ∀ d, doc_id d = sd_id d;
  Reader : W → option string;
  Search : W → request → list (fields * option string) * option string;
  CountMatches : W → query → res Z;
  Search_sound : ∀ w r f, (f, None) ∈ (Search w r).1 →
    ∃ d, d ∈ contents w (sd_id d) ∧ q_matches (rq_query r) (sd_id d) = true ∧ f = stored d;
  Search_complete : ∀ w r ms, Search w r = (ms, None) → Forall (λ m, m.2 = None) ms →
    ∃ ds, (∀ id, filter (λ d, sd_id d = id) ds =
                 if q_matches (rq_query r) id then contents w id else [])
          ∧ ms.*1 = stored <$> rq_limit r ds;
  (** [Count] counts the documents. *)
  Count_contents : ∀ w ds, (∀ id, filter (λ d, sd_id d = id) ds = contents w id) →
    Count w = Z.of_nat (length ds);
  (** A batch that fails leaves the index as it was. *)
  Batch_failed : ∀ w ops r w', Shards.Batch w ops = (r, w') → r ≠ Ok tt →
    ∀ id, contents w' id = contents w id
}.

(** A change of one document: its id, and its new vector or its deletion. *)
Abbreviation change := (Z * option vector)%type.

(** * Reading rows *)

Section reader.
Context {W : Type} {bluge : Bluge W sdoc} {breader : BlugeReader W}.

(** [it.Next] and [match.VisitStoredFields]: the document is yielded before
    the error of its visit is looked at. *)
Fixpoint visit (ms : list (fields * option string)) (err : option string) : iter fields :=
  match ms with
  | [] => ([], err)
  | (f, Some e) :: _ => ([f], Some e)
  | (f, None) :: ms => let '(fs, e) := visit ms err in (f :: fs, e)
  end.

Definition SearchAndVisitStoredFields (w : W) (r : request) : iter fields :=
  let '(ms, err) := Search w r in visit ms err.

(** [string(value)[n:]]. *)
Fixpoint sdrop (n : nat) (s : string) : res string :=
  match n, s with
  | O, _ => Ok s
  | S n, String _ s => sdrop n s
  | S _, EmptyString => Panic PSlice
  end.

Definition parse_id (s whole : string) : res Z :=
  match ParseInt s with
  | Err e => Err ("failed to parse doc id " +:+ whole +:+ ": " +:+ e)
  | r => r
  end.

Record HNSWLogRow := mkLogRow { row_ID : Z; row_DocID : Z; row_DocDel : bool; row_Vector : vector }.

Definition log_row_field (row : HNSWLogRow) (fv : string * list Z) : res HNSWLogRow :=
  let '(field, value) := fv in
  let s := of_bytes value in
  if decide (field = "_id") then
    s' ← sdrop 4 s; id ← parse_id s' s;
    mret (mkLogRow id (row_DocID row) (row_DocDel row) (row_Vector row))
  else if decide (field = "doc_id") then
    id ← parse_id s s;
    mret (mkLogRow (row_ID row) id (row_DocDel row) (row_Vector row))
  else if decide (field = "doc_del") then
    mret (if decide (s = "true") then mkLogRow (row_ID row) (row_DocID row) true (row_Vector row) else row)
  else if decide (field = "vector") then
    mret (mkLogRow (row_ID row) (row_DocID row) (row_DocDel row) (BytesToVector value))
  else mret row.

Definition parse_log_row (doc : fields) : res HNSWLogRow :=
  foldM log_row_field (mkLogRow 0 0 false []) doc.

Record HNSWDocRow := mkDocRow { drow_ID : Z; drow_Vector : vector }.

Definition doc_row_field (row : HNSWDocRow) (fv : string * list Z) : res HNSWDocRow :=
  let '(field, value) := fv in
  let s := of_bytes value in
  if decide (field = "_id") then
    s' ← sdrop 4 s; id ← parse_id s' s; mret (mkDocRow id (drow_Vector row))
  else if decide (field = "vector") then mret (mkDocRow (drow_ID row) (BytesToVector value))
  else mret row.

Definition parse_doc_row (doc : fields) : res HNSWDocRow :=
  foldM doc_row_field (mkDocRow 0 []) doc.

(** The iterator over rows: a row that does not parse ends it with the error. *)
Fixpoint parse_rows {A} (parse : fields → res A) (docs : list fields) (err : option string)
    : res (iter A) :=
  match docs with
  | [] => Ok ([], err)
  | d :: docs =>
      match parse d with
      | Ok r => '(rs, e) ← parse_rows parse docs err; Ok (r :: rs, e)
      | Err e => Ok ([], Some e)
      | Panic p => Panic p
      end
  end.

Definition read_rows {A} (parse : fields → res A) (w : W) (r : request) : res (iter A) :=
  let '(docs, err) := SearchAndVisitStoredFields w r in parse_rows parse docs err.

Definition readHNSWLogRows (w : W) : res (iter HNSWLogRow) :=
  read_rows parse_log_row w (NewAllMatches (QPrefix "log/")).

Definition readHNSWDocRows (w : W) : res (iter HNSWDocRow) :=
  read_rows parse_doc_row w (NewAllMatches (QPrefix "doc/")).

Definition readHNSWDocRowsByIDs (w : W) (ids : list Z) : res (iter HNSWDocRow) :=
  read_rows parse_doc_row w (NewAllMatches (QShould ((λ id, "doc/" +:+ FormatInt id) <$> ids))).

Definition countHNSWDocRows (w : W) : res Z := CountMatches w (QPrefix "doc/").

(** [data = value; break] leaves the inner loop only: the last document with
    the field wins. *)
Definition log_id_field (doc : fields) : option (list Z) :=
  (λ x, snd (snd x)) <$> list_find (λ fv : string * list Z, fv.1 = "log_id") doc.

Definition readLogID (w : W) (id : string) : res Z :=
  let '(docs, err) := SearchAndVisitStoredFields w (NewTopNSearch 1 (QTerm id)) in
  let data := foldl (λ data doc, match log_id_field doc with Some v => Some v | None => data end)
                    None docs in
  match err with
  | Some e => Err e
  | None =>
      match data with
      | None => Ok 0%Z
      | Some v => ParseInt (of_bytes v)
      end
  end.

(** * The tables behind the rows *)

(** The three record families of a segment: the log rows by log id, the
    document rows by document id, and the two counters. *)
Record tables := mkTables {
  t_logs : gmap Z change; t_docs : gmap Z vector; t_latest : option Z; t_hnsw : option Z
}.

Definition no_rows : tables := mkTables ∅ ∅ None None.

Inductive key : Type := KLog (i : Z) | KDoc (d : Z) | KLatest | KHnsw.

#[global] Instance key_eq_dec : EqDecision key.
Proof. solve_decision. Defined.

Definition key_str (k : key) : string :=
  match k with
  | KLog i => "log/" +:+ FormatInt i
  | KDoc d => "doc/" +:+ FormatInt d
  | KLatest => "latest_log_id"
  | KHnsw => "hnsw_log_id"
  end.

Definition key_ok (k : key) : Prop :=
  match k with KLog i | KDoc i => is_int64 i | _ => True end.

Lemma key_str_inj k1 k2 : key_ok k1 → key_ok k2 → key_str k1 = key_str k2 → k1 = k2.
Proof.
  destruct k1, k2; cbn; intros H1 H2 [=]; try done; f_equal; by apply FormatInt_inj.
Qed.

(** The documents the program writes for a row. *)
Definition log_doc (i : Z) (c : change) : sdoc :=
  mkSdoc (key_str (KLog i))
    [("doc_id", bytes (FormatInt (fst c)));
     match snd c with
     | None => ("doc_del", bytes "true")
     | Some v => ("vector", VectorToBytes v)
     end].
Definition doc_doc (d : Z) (v : vector) : sdoc :=
  mkSdoc (key_str (KDoc d)) [("vector", VectorToBytes v)].
Definition id_doc (k : key) (n : Z) : sdoc := mkSdoc (key_str k) [("log_id", bytes (FormatInt n))].

Definition row_at (t : tables) (k : key) : option sdoc :=
  match k with
  | KLog i => log_doc i <$> t_logs t !! i
  | KDoc d => doc_doc d <$> t_docs t !! d
  | KLatest => id_doc KLatest <$> t_latest t
  | KHnsw => id_doc KHnsw <$> t_hnsw t
  end.

Definition change_ok (c : change) : Prop :=
  is_int64 (fst c) ∧ match snd c with Some v => Forall is_float32 v | None => True end.

Record tables_ok (t : tables) : Prop := {
  ok_logs : ∀ i c, t_logs t !! i = Some c → is_int64 i ∧ change_ok c;
  ok_docs : ∀ d v, t_docs t !! d = Some v → is_int64 d ∧ Forall is_float32 v;
  ok_latest : ∀ n, t_latest t = Some n → is_int64 n;
  ok_hnsw : ∀ n, t_hnsw t = Some n → is_int64 n
}.

(** The index holds exactly the rows of the tables. *)
Record represents (w : W) (t : tables) : Prop := {
  rep_at : ∀ k, key_ok k → contents w (key_str k) = option_list (row_at t k);
  rep_keys : ∀ id, contents w id ≠ [] → ∃ k, key_ok k ∧ id = key_str k;
  rep_ok : tables_ok t
}.

Lemma represents_new : represents new_index no_rows.
Proof.
  split.
  - intros [] _; cbn; by rewrite ?new_index_empty, ?lookup_empty.
  - intros id Hid. by rewrite new_index_empty in Hid.
  - by split.
Qed.

Lemma represents_ext w w' t :
  (∀ id, contents w' id = contents w id) → represents w t → represents w' t.
Proof.
  intros Heq [Hat Hkeys Hok]. split; [|intros id; rewrite Heq; apply Hkeys|done].
  intros k Hk. by rewrite Heq, Hat.
Qed.

(** ** Writing *)

Inductive vop : Type :=
  | PutLog (i : Z) (c : change) | DelLog (i : Z)
  | PutDoc (d : Z) (v : vector) | DelDoc (d : Z)
  | PutLatest (n : Z) | PutHnsw (n : Z).

Definition op_key (o : vop) : key :=
  match o with
  | PutLog i _ | DelLog i => KLog i
  | PutDoc d _ | DelDoc d => KDoc d
  | PutLatest _ => KLatest
  | PutHnsw _ => KHnsw
  end.

Definition op_row (o : vop) : option sdoc :=
  match o with
  | PutLog i c => Some (log_doc i c)
  | PutDoc d v => Some (doc_doc d v)
  | PutLatest n => Some (id_doc KLatest n)
  | PutHnsw n => Some (id_doc KHnsw n)
  | DelLog _ | DelDoc _ => None
  end.

(** [batch.Update(doc.ID(), doc)] and [batch.Delete(doc.ID())]. *)
Definition op_bluge (o : vop) : bop sdoc :=
  match op_row o with
  | Some d => BUpdate (key_str (op_key o)) d
  | None => BDelete (key_str (op_key o))
  end.

Definition op_ok (o : vop) : Prop :=
  match o with
  | PutLog i c => is_int64 i ∧ change_ok c
  | PutDoc d v => is_int64 d ∧ Forall is_float32 v
  | DelLog i | DelDoc i | PutLatest i | PutHnsw i => is_int64 i
  end.

Definition apply_op (t : tables) (o : vop) : tables :=
  match o with
  | PutLog i c => mkTables (<[i := c]> (t_logs t)) (t_docs t) (t_latest t) (t_hnsw t)
  | DelLog i => mkTables (delete i (t_logs t)) (t_docs t) (t_latest t) (t_hnsw t)
  | PutDoc d v => mkTables (t_logs t) (<[d := v]> (t_docs t)) (t_latest t) (t_hnsw t)
  | DelDoc d => mkTables (t_logs t) (delete d (t_docs t)) (t_latest t) (t_hnsw t)
  | PutLatest n => mkTables (t_logs t) (t_docs t) (Some n) (t_hnsw t)
  | PutHnsw n => mkTables (t_logs t) (t_docs t) (t_latest t) (Some n)
  end.

Definition apply_ops : tables → list vop → tables := foldl apply_op.

Lemma row_at_apply t o k :
  row_at (apply_op t o) k = if decide (k = op_key o) then op_row o else row_at t k.
Proof.
  destruct o, k; cbn; case_decide; simplify_eq; try done;
    rewrite ?lookup_insert_eq, ?lookup_delete_eq, ?lookup_insert_ne, ?lookup_delete_ne by congruence; done.
Qed.

Lemma tables_ok_apply t o : op_ok o → tables_ok t → tables_ok (apply_op t o).
Proof.
  intros Ho [Hl Hd Ha Hn].
  destruct o; split; cbn in *; try (by eauto); intros;
    repeat match goal with
    | H : <[_ := _]> _ !! _ = Some _ |- _ => apply lookup_insert_Some in H as [[? ?]|[? ?]]
    | H : delete _ _ !! _ = Some _ |- _ => apply lookup_delete_Some in H as [? ?]
    end; simplify_eq; by eauto.
Qed.

Lemma op_bluge_key o : op_ok o → key_ok (op_key o).
Proof. destruct o; cbn; tauto. Qed.

Definition upd_row (k : key) : option sdoc → list vop → option sdoc :=
  foldl (λ x o, if decide (k = op_key o) then op_row o else x).

Lemma row_at_apply_ops t ops k : row_at (apply_ops t ops) k = upd_row k (row_at t k) ops.
Proof. revert t. induction ops as [|o ops IH]; intros t; cbn; [done|]. by rewrite IH, row_at_apply. Qed.

Lemma removed_ops ops : removed (op_bluge <$> ops) = key_str ∘ op_key <$> ops.
Proof.
  induction ops as [|o ops IH]; [done|]. rewrite !fmap_cons. unfold removed in *. cbn.
  rewrite IH. unfold op_bluge. by destruct (op_row o).
Qed.

Lemma added_ops ops : added (op_bluge <$> ops) = omap op_row ops.
Proof.
  induction ops as [|o ops IH]; [done|]. rewrite fmap_cons. unfold added in *. cbn. rewrite IH.
  unfold op_bluge. by destruct (op_row o).
Qed.

Lemma row_at_id t k d : row_at t k = Some d → sd_id d = key_str k.
Proof. destruct k; cbn; intros Hr; simplify_option_eq; done. Qed.

Lemma op_row_id o d : op_row o = Some d → sd_id d = key_str (op_key o).
Proof. destruct o; cbn; intros; by simplify_eq. Qed.

(** A batch in which no key occurs twice leaves one row per key at most. *)
Lemma batch_row k ops x :
  key_ok k → Forall op_ok ops → NoDup (op_key <$> ops) →
  (if decide (key_str k ∈ removed (op_bluge <$> ops)) then [] else option_list x)
    ++ filter (λ d, sd_id d = key_str k) (added (op_bluge <$> ops))
  = option_list (upd_row k x ops).
Proof.
  intros Hk. rewrite removed_ops, added_ops. revert x.
  induction ops as [|o ops IH]; intros x Hok Hnd; cbn; [by rewrite decide_False, app_nil_r by set_solver|].
  apply Forall_cons in Hok as [Ho Hok]. apply NoDup_cons in Hnd as [Hni Hnd].
  destruct (decide (k = op_key o)) as [->|Hne].
  - rewrite decide_True by (by left).
    rewrite <-(IH (op_row o) Hok Hnd). rewrite decide_False.
    2:{ intros (o' & Heq & Ho')%list_elem_of_fmap. apply Hni, list_elem_of_fmap. exists o'.
        split; [|done]. apply key_str_inj; [done| |done].
        rewrite Forall_forall in Hok. by apply op_bluge_key, Hok. }
    cbn. destruct (op_row o) as [d|] eqn:Hd; [|done].
    rewrite filter_cons_True by (by apply op_row_id). done.
  - rewrite <-(IH x Hok Hnd).
    assert (key_str k ≠ key_str (op_key o)) as Hs
      by (intros Hs; apply Hne; apply key_str_inj; [done|by apply op_bluge_key|done]).
    f_equal; [|destruct (op_row o) as [d|] eqn:Hd; [|done];
               rewrite filter_cons_False; [done|rewrite (op_row_id _ _ Hd); congruence]].
    cbn. destruct (decide (key_str k ∈ key_str ∘ op_key <$> ops)) as [Hin|Hni'].
    + rewrite decide_True; [done|by right].
    + rewrite decide_False; [done|]. rewrite elem_of_cons. tauto.
Qed.

(** Writing a batch of rows applies it to the tables. *)
Lemma write_represents w t ops w' :
  represents w t → Forall op_ok ops → NoDup (op_key <$> ops) →
  Shards.Batch w (op_bluge <$> ops) = (Ok tt, w') → represents w' (apply_ops t ops).
Proof.
  intros [Hat Hkeys Htok] Hok Hnd HB. pose proof (Batch_contents _ _ _ HB) as Hc.
  assert (∀ id, filter (λ d, doc_id d = id) (added (op_bluge <$> ops))
                = filter (λ d, sd_id d = id) (added (op_bluge <$> ops))) as Hf.
  { intros id. apply list_filter_iff. intros d. by rewrite sdoc_id. }
  split.
  - intros k Hk. rewrite Hc, Hf, Hat, row_at_apply_ops by done. by apply batch_row.
  - intros id. rewrite Hc, Hf. intros Hne.
    destruct (decide (id ∈ removed (op_bluge <$> ops))) as [Hin|Hni].
    + rewrite removed_ops in Hin. apply list_elem_of_fmap in Hin as (o & -> & Ho).
      exists (op_key o). split; [|done]. rewrite Forall_forall in Hok. by apply op_bluge_key, Hok.
    + destruct (contents w id) as [|d ds] eqn:E; [|apply Hkeys; by rewrite E].
      cbn in Hne. destruct (filter _ _) as [|d ds] eqn:Hfe; [done|].
      assert (d ∈ filter (λ d, sd_id d = id) (added (op_bluge <$> ops))) as Hd
        by (rewrite Hfe; by left).
      apply list_elem_of_filter in Hd as [<- Hd]. rewrite added_ops in Hd.
      apply list_elem_of_omap in Hd as (o & Ho & Hod).
      exists (op_key o). rewrite Forall_forall in Hok. split; [by apply op_bluge_key, Hok|].
      by apply op_row_id.
  - clear -Htok Hok. revert t Htok. induction Hok as [|o ops Ho Hok IH]; intros t Ht; [done|].
    cbn. apply IH. by apply tables_ok_apply.
Qed.

(** ** Reading back *)

Lemma visit_complete ms err fs :
  visit ms err = (fs, None) → err = None ∧ Forall (λ m, m.2 = None) ms ∧ fs = ms.*1.
Proof.
  revert fs. induction ms as [|[f [e|]] ms IH]; intros fs; cbn; [naive_solver..|].
  destruct (visit ms err) as [fs' e']. intros [= <- ->].
  destruct (IH fs' eq_refl) as (-> & Hm & ->). split_and!; [done|by constructor|done].
Qed.

Lemma search_complete w r fs :
  SearchAndVisitStoredFields w r = (fs, None) →
  ∃ ds, (∀ id, filter (λ d, sd_id d = id) ds =
               if q_matches (rq_query r) id then contents w id else [])
        ∧ fs = stored <$> rq_limit r ds.
Proof.
  unfold SearchAndVisitStoredFields. destruct (Search w r) as [ms e] eqn:E.
  intros (-> & Hm & ->)%visit_complete. by apply Search_complete.
Qed.

Lemma NoDup_by_id (ds : list sdoc) :
  (∀ id, length (filter (λ d, sd_id d = id) ds) ≤ 1) → NoDup (sd_id <$> ds).
Proof.
  induction ds as [|d ds IH]; intros Hf; [constructor|]. rewrite fmap_cons. apply NoDup_cons. split.
  - intros (d' & Hid & Hd')%list_elem_of_fmap. specialize (Hf (sd_id d)).
    rewrite filter_cons_True in Hf by done. cbn in Hf.
    assert (d' ∈ filter (λ x, sd_id x = sd_id d) ds) as Hin by (apply list_elem_of_filter; done).
    destruct (filter _ ds); [by apply elem_of_nil in Hin|cbn in Hf; lia].
  - apply IH. intros id. specialize (Hf id). rewrite filter_cons in Hf. case_decide; cbn in Hf; lia.
Qed.

Lemma option_list_length {A} (o : option A) : length (option_list o) ≤ 1.
Proof. destruct o; cbn; lia. Qed.

(** The documents a complete search selects are the rows with matching keys. *)
Lemma select_rows w t q ds :
  represents w t →
  (∀ id, filter (λ d, sd_id d = id) ds = if q_matches q id then contents w id else []) →
  NoDup (sd_id <$> ds) ∧
  ∀ d, d ∈ ds ↔ ∃ k, key_ok k ∧ q_matches q (key_str k) = true ∧ row_at t k = Some d.
Proof.
  intros [Hat Hkeys _] Hf. split.
  - apply NoDup_by_id. intros id. rewrite Hf. destruct (q_matches q id); [|cbn; lia].
    destruct (contents w id) eqn:E; [cbn; lia|].
    destruct (Hkeys id) as (k & Hk & ->); [by rewrite E|].
    rewrite <-E, Hat by done. apply option_list_length.
  - intros d. transitivity (d ∈ filter (λ x, sd_id x = sd_id d) ds);
      [rewrite list_elem_of_filter; naive_solver|]. rewrite Hf.
    destruct (q_matches q (sd_id d)) eqn:Hq.
    + split.
      * intros Hd. destruct (Hkeys (sd_id d)) as (k & Hk & Hid); [by destruct (contents w (sd_id d)); [apply elem_of_nil in Hd|]|].
        rewrite Hid in Hq, Hd. rewrite Hat in Hd by done. exists k. split_and!; [done..|].
        destruct (row_at t k); cbn in Hd; [|by apply elem_of_nil in Hd].
        apply elem_of_cons in Hd as [->|Hd%elem_of_nil]; done.
      * intros (k & Hk & _ & Hr). rewrite (row_at_id _ _ _ Hr).
        rewrite Hat, Hr by done. by left.
    + split; [by intros ?%elem_of_nil|]. intros (k & Hk & Hqk & Hr).
      rewrite (row_at_id _ _ _ Hr) in Hq. congruence.
Qed.

Definition log_row (i : Z) (c : change) : HNSWLogRow :=
  mkLogRow i (fst c) (bool_decide (snd c = None)) (default [] (snd c)).

Lemma parse_id_format i s : is_int64 i → parse_id (FormatInt i) s = Ok i.
Proof. intros Hi. unfold parse_id. by rewrite ParseInt_FormatInt. Qed.

Lemma sdrop_key p i : String.length p = 4 → sdrop 4 (p +:+ FormatInt i) = Ok (FormatInt i).
Proof. do 4 (destruct p as [|? p]; [done|]). by destruct p. Qed.

(** Reading a row gives back what was written. *)
Lemma parse_log_doc i c :
  is_int64 i → change_ok c → parse_log_row (stored (log_doc i c)) = Ok (log_row i c).
Proof.
  intros Hi [Hc Hv]. destruct c as [d o]. unfold parse_log_row, stored, log_doc. cbn [sd_id sd_fields key_str fst snd] in *.
  assert (∀ row, log_row_field row ("_id", bytes ("log/" +:+ FormatInt i)) =
    Ok (mkLogRow i (row_DocID row) (row_DocDel row) (row_Vector row))) as H1.
  { intros row. unfold log_row_field. rewrite of_bytes_bytes, sdrop_key by done.
    cbn [mbind res_bind]. by rewrite parse_id_format. }
  assert (∀ row, log_row_field row ("doc_id", bytes (FormatInt d)) =
    Ok (mkLogRow (row_ID row) d (row_DocDel row) (row_Vector row))) as H2.
  { intros row. unfold log_row_field. by rewrite of_bytes_bytes, parse_id_format. }
  cbn [foldM]. rewrite H1. cbn [mbind res_bind]. rewrite H2. cbn [mbind res_bind].
  destruct o as [v|]; cbn [foldM]; [|done].
  unfold log_row_field. rewrite BytesToVector_VectorToBytes by done. done.
Qed.

Lemma parse_doc_doc d v :
  is_int64 d → Forall is_float32 v → parse_doc_row (stored (doc_doc d v)) = Ok (mkDocRow d v).
Proof.
  intros Hd Hv. unfold parse_doc_row, stored, doc_doc. cbn [sd_id sd_fields key_str].
  assert (∀ row, doc_row_field row ("_id", bytes ("doc/" +:+ FormatInt d)) =
    Ok (mkDocRow d (drow_Vector row))) as H1.
  { intros row. unfold doc_row_field. rewrite of_bytes_bytes, sdrop_key by done.
    cbn [mbind res_bind]. by rewrite parse_id_format. }
  cbn [foldM]. rewrite H1. cbn [mbind res_bind].
  unfold doc_row_field. rewrite BytesToVector_VectorToBytes by done. done.
Qed.

Lemma parse_rows_ok {A} (parse : fields → res A) (f : sdoc → A) ds :
  (∀ d, d ∈ ds → parse (stored d) = Ok (f d)) →
  parse_rows parse (stored <$> ds) None = Ok (f <$> ds, None).
Proof.
  induction ds as [|d ds IH]; intros Hf; [done|]. rewrite !fmap_cons. cbn [parse_rows].
  rewrite Hf by set_solver. rewrite IH by set_solver. done.
Qed.

Lemma parse_rows_err {A} (parse : fields → res A) docs e rs :
  parse_rows parse docs e = Ok (rs, None) → e = None.
Proof.
  revert rs. induction docs as [|d docs IH]; intros rs; cbn [parse_rows]; [naive_solver|].
  destruct (parse d); [|done..]. destruct (parse_rows parse docs e) as [[rs' e']| |]; [|done..].
  cbn. intros [= _ ->]. by eapply IH.
Qed.

(** The rows of a complete iteration are exactly the table rows it selects,
    each once. *)
Lemma read_rows_spec {A} (parse : fields → res A) (f : sdoc → A) w t q rows :
  represents w t →
  (∀ k d, key_ok k → q_matches q (key_str k) = true → row_at t k = Some d → parse (stored d) = Ok (f d)) →
  read_rows parse w (NewAllMatches q) = Ok (rows, None) →
  ∃ ds, rows = f <$> ds ∧ NoDup (sd_id <$> ds) ∧
    ∀ d, d ∈ ds ↔ ∃ k, key_ok k ∧ q_matches q (key_str k) = true ∧ row_at t k = Some d.
Proof.
  intros Hrep Hp. unfold read_rows.
  destruct (SearchAndVisitStoredFields w (NewAllMatches q)) as [docs err] eqn:E. intros HR.
  assert (err = None) as -> by (by eapply parse_rows_err).
  apply search_complete in E as (ds & Hf & ->). cbn [rq_query rq_limit] in *.
  destruct (select_rows w t q ds Hrep Hf) as [Hnd Hds]. exists ds.
  rewrite (parse_rows_ok _ f) in HR; [by simplify_eq|].
  intros d (k & Hk & Hq & Hr)%Hds. by eapply Hp.
Qed.

Lemma prefix_app p s : String.prefix p (p +:+ s) = true.
Proof.
  induction p as [|c p IH]; [by destruct s|]. rewrite append_cons. cbn [String.prefix].
  by destruct (Ascii.ascii_dec c c).
Qed.

Lemma prefix_log k : q_matches (QPrefix "log/") (key_str k) = true ↔ ∃ i, k = KLog i.
Proof.
  destruct k; cbn [q_matches key_str]; (split; [intros Hp|intros [? [=]]]); try done; eauto using prefix_app.
Qed.

Lemma prefix_doc k : q_matches (QPrefix "doc/") (key_str k) = true ↔ ∃ d, k = KDoc d.
Proof.
  destruct k; cbn [q_matches key_str]; (split; [intros Hp|intros [? [=]]]); try done; eauto using prefix_app.
Qed.

(** The log rows. *)
Lemma readHNSWLogRows_spec w t rows :
  represents w t → readHNSWLogRows w = Ok (rows, None) →
  NoDup (row_ID <$> rows) ∧
  ∀ r, r ∈ rows ↔ ∃ i c, t_logs t !! i = Some c ∧ r = log_row i c.
Proof.
  intros Hrep HR. pose proof (ok_logs _ (rep_ok _ _ Hrep)) as Hok.
  set (f := λ d, match parse_log_row (stored d) with Ok r => r | _ => mkLogRow 0 0 false [] end).
  assert (∀ i c, t_logs t !! i = Some c → f (log_doc i c) = log_row i c) as Hlr.
  { intros i c Hc. destruct (Hok i c Hc). unfold f. by rewrite parse_log_doc. }
  apply (read_rows_spec _ f _ t) in HR as (ds & -> & Hnd & Hds); [|done|].
  2:{ intros k d _ [i ->]%prefix_log Hr. cbn in Hr. apply fmap_Some in Hr as (c & Hc & ->).
      rewrite Hlr by done. destruct (Hok i c Hc). by apply parse_log_doc. }
  assert (∀ d, d ∈ ds ↔ ∃ i c, t_logs t !! i = Some c ∧ d = log_doc i c) as Hds'.
  { intros d. rewrite Hds. split.
    - intros (k & _ & [i ->]%prefix_log & (c & ? & ->)%fmap_Some). eauto.
    - intros (i & c & Hc & ->). exists (KLog i). destruct (Hok i c Hc).
      rewrite prefix_log. cbn. rewrite Hc. eauto. }
  split.
  - rewrite <-list_fmap_compose. apply NoDup_fmap_2_strong; [|by eapply NoDup_fmap_1].
    intros x y (i & c & Hc & ->)%Hds' (j & c' & Hc' & ->)%Hds'. cbn.
    rewrite !Hlr by done. cbn. intros ->. by simplify_eq.
  - intros r. rewrite list_elem_of_fmap. setoid_rewrite Hds'. split.
    + intros (d & -> & i & c & Hc & ->). eauto using Hlr.
    + intros (i & c & Hc & ->). exists (log_doc i c). rewrite Hlr by done. eauto.
Qed.

(** The document rows a query on document keys selects. *)
Lemma read_doc_rows_spec w t q rows :
  (∀ k, q_matches q (key_str k) = true → ∃ d, k = KDoc d) →
  represents w t → read_rows parse_doc_row w (NewAllMatches q) = Ok (rows, None) →
  NoDup (drow_ID <$> rows) ∧
  ∀ r, r ∈ rows ↔ ∃ d v, t_docs t !! d = Some v ∧ q_matches q (key_str (KDoc d)) = true
                         ∧ r = mkDocRow d v.
Proof.
  intros Hq Hrep HR. pose proof (ok_docs _ (rep_ok _ _ Hrep)) as Hok.
  set (f := λ d, match parse_doc_row (stored d) with Ok r => r | _ => mkDocRow 0 [] end).
  assert (∀ d v, t_docs t !! d = Some v → f (doc_doc d v) = mkDocRow d v) as Hlr.
  { intros i c Hc. destruct (Hok i c Hc). unfold f. by rewrite parse_doc_doc. }
  apply (read_rows_spec _ f _ t) in HR as (ds & -> & Hnd & Hds); [|done|].
  2:{ intros k d _ [i ->]%Hq Hr. cbn in Hr. apply fmap_Some in Hr as (c & Hc & ->).
      rewrite Hlr by done. destruct (Hok i c Hc). by apply parse_doc_doc. }
  assert (∀ x, x ∈ ds ↔ ∃ d v, t_docs t !! d = Some v ∧ q_matches q (key_str (KDoc d)) = true
                              ∧ x = doc_doc d v) as Hds'.
  { intros x. rewrite Hds. split.
    - intros (k & _ & Hk & Hr). destruct (Hq k Hk) as [d ->].
      apply fmap_Some in Hr as (v & Hv & ->). exists d, v. done.
    - intros (d & v & Hv & Hk & ->). exists (KDoc d). destruct (Hok d v Hv).
      split_and!; [done..|]. cbn. by rewrite Hv. }
  split.
  - rewrite <-list_fmap_compose. apply NoDup_fmap_2_strong; [|by eapply NoDup_fmap_1].
    intros x y (i & c & Hc & _ & ->)%Hds' (j & c' & Hc' & _ & ->)%Hds'. cbn.
    rewrite !Hlr by done. cbn. intros ->. by simplify_eq.
  - intros r. rewrite list_elem_of_fmap. setoid_rewrite Hds'. split.
    + intros (x & -> & d & v & Hv & Hk & ->). exists d, v. rewrite Hlr by done. done.
    + intros (d & v & Hv & Hk & ->). exists (doc_doc d v). rewrite Hlr by done.
      split; [done|]. exists d, v. done.
Qed.

Lemma readHNSWDocRows_spec w t rows :
  represents w t → readHNSWDocRows w = Ok (rows, None) →
  NoDup (drow_ID <$> rows) ∧ ∀ d v, mkDocRow d v ∈ rows ↔ t_docs t !! d = Some v.
Proof.
  intros Hrep HR. destruct (read_doc_rows_spec w t (QPrefix "doc/") rows) as [Hnd Hr]; [|done..|].
  { intros k. by rewrite prefix_doc. }
  split; [done|]. intros d v. rewrite Hr. split; [naive_solver|].
  intros Hd. exists d, v. split_and!; [done| |done]. apply prefix_doc. eauto.
Qed.

Lemma readHNSWDocRowsByIDs_spec w t ids rows :
  represents w t → Forall is_int64 ids → readHNSWDocRowsByIDs w ids = Ok (rows, None) →
  NoDup (drow_ID <$> rows) ∧
  ∀ d v, mkDocRow d v ∈ rows ↔ d ∈ ids ∧ t_docs t !! d = Some v.
Proof.
  intros Hrep Hids HR. set (q := QShould ((λ id, "doc/" +:+ FormatInt id) <$> ids)).
  assert (∀ k, q_matches q (key_str k) = true → ∃ d, k = KDoc d) as Hq.
  { intros k. cbn. rewrite bool_decide_eq_true. intros (d & Hd & _)%list_elem_of_fmap.
    destruct k; try done. eauto. }
  destruct (read_doc_rows_spec w t q rows Hq Hrep HR) as [Hnd Hr].
  split; [done|]. intros d v. rewrite Hr.
  assert (∀ d v, t_docs t !! d = Some v → (q_matches q (key_str (KDoc d)) = true ↔ d ∈ ids)) as Hqd.
  { intros d' v' Hv'. cbn. rewrite bool_decide_eq_true, list_elem_of_fmap. split; [|by eauto].
    intros (d2 & Heq & Hd2). rewrite Forall_forall in Hids.
    assert (FormatInt d' = FormatInt d2) as Hf by (by injection Heq).
    apply FormatInt_inj in Hf; [by subst|by eapply ok_docs; [apply (rep_ok _ _ Hrep)|]|by apply Hids]. }
  split.
  - intros (d' & v' & Hv' & Hk & [= <- <-]). split; [by eapply Hqd|done].
  - intros [Hin Hd]. exists d, v. split_and!; [done| |done]. by eapply Hqd.
Qed.

(** The counters; an absent one counts as zero. *)
Lemma readLogID_spec w t k n :
  k = KLatest ∨ k = KHnsw → represents w t → readLogID w (key_str k) = Ok n →
  n = default 0%Z (match k with KLatest => t_latest t | _ => t_hnsw t end).
Proof.
  intros Hk Hrep. unfold readLogID.
  destruct (SearchAndVisitStoredFields _ _) as [docs [e|]] eqn:E; [done|].
  apply search_complete in E as (ds & Hf & ->). cbn [rq_query rq_limit] in *.
  destruct (select_rows w t (QTerm (key_str k)) ds Hrep Hf) as [Hnd Hds].
  assert (∀ d, d ∈ ds ↔ row_at t k = Some d) as Hds'.
  { intros d. rewrite Hds. cbn [q_matches]. split.
    - intros (k' & Hk' & Hs & Hr). apply bool_decide_eq_true in Hs.
      apply key_str_inj in Hs; [by subst|done|by destruct Hk; subst].
    - intros Hr. exists k. split_and!; [by destruct Hk; subst|by apply bool_decide_eq_true|done]. }
  assert (ds = option_list (row_at t k)) as ->.
  { destruct (row_at t k) as [d|] eqn:Hr.
    - destruct ds as [|x [|y ds]].
      + exfalso. eapply elem_of_nil. by apply Hds'.
      + cbn. f_equal. assert (Some d = Some x) by (apply Hds'; by left). congruence.
      + exfalso. assert (x = y) as ->.
        { assert (Some d = Some x) by (apply Hds'; by left).
          assert (Some d = Some y) by (apply Hds'; right; by left). congruence. }
        cbn in Hnd. apply NoDup_cons in Hnd as [Hnd _]. apply Hnd. by left.
    - destruct ds as [|x ds]; [done|]. assert (None = Some x) by (apply Hds'; by left). done. }
  destruct (rep_ok _ _ Hrep) as [_ _ Hla Hhn].
  assert (∀ o, foldl (λ data doc, match log_id_field doc with Some v => Some v | None => data end) None
                 (stored <$> take 1 (option_list (id_doc k <$> o))) = bytes ∘ FormatInt <$> o) as Hfold
    by (by intros [m|]).
  destruct Hk as [-> | ->]; cbn [row_at]; rewrite Hfold.
  - destruct (t_latest t) as [m|] eqn:Hm; [|by intros [= <-]]. unfold compose; cbn [fmap option_fmap option_map].
    rewrite of_bytes_bytes, ParseInt_FormatInt by (by apply Hla). by intros [= <-].
  - destruct (t_hnsw t) as [m|] eqn:Hm; [|by intros [= <-]]. unfold compose; cbn [fmap option_fmap option_map].
    rewrite of_bytes_bytes, ParseInt_FormatInt by (by apply Hhn). by intros [= <-].
Qed.
End reader.

(** * A store in memory *)

Definition mem_write (w : list sdoc) (ops : list (bop sdoc)) : list sdoc :=
  filter (λ d, sd_id d ∉ removed ops) w ++ added ops.

#[refine] Instance mem_store : Bluge (list sdoc) sdoc := {|
  doc_id := sd_id;
  doc_time _ := 0%Z;
  new_index := [];
  contents w id := filter (λ d, sd_id d = id) w;
  DirectorySize w := Z.of_nat (length w);
  Count w := Z.of_nat (length w);
  Batch w ops := (Ok tt, mem_write w ops)
|}.
Proof.
  - done.
  - intros w ops w' [= <-] id. unfold mem_write. rewrite filter_app. f_equal.
    rewrite list_filter_filter. case_decide as Hid.
    + apply filter_none. intros d _ [<- Hn]. done.
    + apply list_filter_iff. intros d. split; [tauto|]. intros <-. done.
Defined.

Lemma filter_cons_split {A} (P : A → Prop) `{∀ x, Decision (P x)} l d r :
  filter P l = d :: r → ∃ l1 l2, l = l1 ++ d :: l2 ∧ filter P l1 = [] ∧ filter P l2 = r.
Proof.
  induction l as [|x l IH]; [done|]. rewrite filter_cons. case_decide as Hx.
  - intros [= -> <-]. by exists [], l.
  - intros (l1 & l2 & -> & H1 & H2)%IH. exists (x :: l1), l2. by rewrite filter_cons_False.
Qed.

(** Two lists with the same documents under every id are the same up to order. *)
Lemma same_docs_perm (l1 l2 : list sdoc) :
  (∀ id, filter (λ d, sd_id d = id) l1 = filter (λ d, sd_id d = id) l2) → l2 ≡ₚ l1.
Proof.
  revert l2. induction l1 as [|d l1 IH]; intros l2 Heq.
  - destruct l2 as [|d l2]; [done|]. specialize (Heq (sd_id d)). by rewrite filter_cons_True in Heq.
  - pose proof (Heq (sd_id d)) as Hd. rewrite filter_cons_True in Hd by done. symmetry in Hd.
    destruct (filter_cons_split _ _ _ _ Hd) as (a & b & -> & Ha & Hb). rewrite <-Permutation_middle. constructor.
    apply IH. intros id. specialize (Heq id). rewrite filter_app, !filter_cons in *.
    destruct (decide (sd_id d = id)) as [<-|]; [|done]. rewrite Ha, Hb. done.
Qed.

Definition mem_search (w : list sdoc) (r : request) : list (fields * option string) * option string :=
  ((λ d, (stored d, None)) <$> rq_limit r (filter (λ d, q_matches (rq_query r) (sd_id d) = true) w), None).

#[refine] Instance mem_reader : BlugeReader (list sdoc) := {|
  Reader _ := None;
  Search := mem_search;
  CountMatches w q := Ok (Z.of_nat (length (filter (λ d, q_matches q (sd_id d) = true) w)))
|}.
Proof.
  - done.
  - intros w r f (d & [= ->] & Hd)%list_elem_of_fmap. exists d.
    assert (d ∈ filter (λ d, q_matches (rq_query r) (sd_id d) = true) w) as [Hq Hw]%list_elem_of_filter.
    { destruct r; cbn in Hd; [done|by eapply elem_of_take_weaken]. }
    split_and!; [|done..]. cbn. by apply list_elem_of_filter.
  - intros w r ms [= <-] _. exists (filter (λ d, q_matches (rq_query r) (sd_id d) = true) w). split.
    + intros id. rewrite list_filter_filter. cbn. destruct (q_matches (rq_query r) id) eqn:E.
      * apply list_filter_iff. intros d. split; [tauto|]. intros <-. done.
      * apply filter_none. intros d _ [<- ?]. congruence.
    + rewrite <-list_fmap_compose. done.
  - intros w ds Hds. cbn. f_equal. by apply Permutation_length, same_docs_perm.
  - intros w ops r w' [= <- <-]. done.
Defined.
