(* ===== verification/Float32.v ===== *)
(** float32 arithmetic on bit patterns (IEEE 754 binary32, round to nearest
    even, no fused multiply-add), and [L2Distance] of pkg/core/ivfpq_segment.go. *)
From Stdlib Require Import Floats.SpecFloat.
From S2P Require Import Prelude VectorStore.

(** * The values of bit patterns *)

(** [math.Float32frombits]; the payload of a NaN is dropped. *)
Definition of_bits (x : Z) : spec_float :=
  let s := Z.testbit x 31 in
  let e := Z.land (Z.shiftr x 23) 255 in
  let m := Z.land x (2 ^ 23 - 1) in
  if decide (e = 0)%Z then
    match m with Zpos p => S754_finite s p (-149) | _ => S754_zero s end
  else if decide (e = 255)%Z then
    if decide (m = 0)%Z then S754_infinity s else S754_nan
  else S754_finite s (Z.to_pos (m + 2 ^ 23)) (e - 150).

Definition sign_bit (s : bool) : Z := if s then (2 ^ 31)%Z else 0%Z.

(** [math.Float32bits]; a NaN is the quiet one. *)
Definition to_bits (f : spec_float) : Z :=
  match f with
  | S754_zero s => sign_bit s
  | S754_infinity s => (sign_bit s + 255 * 2 ^ 23)%Z
  | S754_nan => 0x7fc00000%Z
  | S754_finite s m e =>
      if decide (Zpos m < 2 ^ 23)%Z then (sign_bit s + Zpos m)%Z
      else (sign_bit s + (e + 150) * 2 ^ 23 + (Zpos m - 2 ^ 23))%Z
  end.

Abbreviation f32_sub := (SFsub 24 128).
Abbreviation f32_mul := (SFmul 24 128).
Abbreviation f32_add := (SFadd 24 128).
Abbreviation f32_div := (SFdiv 24 128).

(** [float32(n)] of an integer. *)
Definition f32_of_int (n : Z) : spec_float := binary_normalize 24 128 n 0 false.

(** * The distance *)

Fixpoint l2_loop (sum : spec_float) (v1 v2 : vector) : spec_float :=
  match v1, v2 with
  | x :: v1, y :: v2 =>
      let diff := f32_sub (of_bits x) (of_bits y) in
      l2_loop (f32_add sum (f32_mul diff diff)) v1 v2
  | _, _ => sum
  end.

Definition L2Distance (slice1 slice2 : vector) : res Z :=
  if decide (length slice1 = length slice2) then Ok (to_bits (l2_loop (S754_zero false) slice1 slice2))
  else Err "invalid vectors".

(** * Its laws *)

Definition finite (f : spec_float) : Prop :=
  match f with S754_zero _ | S754_finite _ _ _ => True | _ => False end.

(** Not below zero: positive or a NaN. *)
Definition unsigned (f : spec_float) : Prop :=
  match f with
  | S754_zero s | S754_infinity s | S754_finite s _ _ => s = false
  | S754_nan => True
  end.

Lemma round_aux_unsigned m e l : unsigned (binary_round_aux 24 128 false m e l).
Proof.
  unfold binary_round_aux. destruct (shr_fexp _ _ m e l) as [mrs e'].
  destruct (shr_fexp _ _ _ e' _) as [mrs' e'']. destruct (shr_m mrs'); [done| |done].
  by destruct (Z.leb e'' _).
Qed.

Lemma normalize_unsigned m e : (0 ≤ m)%Z → unsigned (binary_normalize 24 128 m e false).
Proof.
  destruct m as [|p|p]; cbn [binary_normalize]; [done| |lia]. intros _. unfold binary_round.
  destruct (shl_align _ _ _). apply round_aux_unsigned.
Qed.

Lemma square_unsigned f : unsigned (f32_mul f f).
Proof.
  destruct f as [s|s| |s m e]; cbn [SFmul unsigned]; rewrite ?xorb_nilpotent; try done. apply round_aux_unsigned.
Qed.

Lemma add_unsigned f g : unsigned f → unsigned g → unsigned (f32_add f g).
Proof.
  destruct f as [[]|[]| |[] m e], g as [[]|[]| |[] m' e']; cbn [unsigned SFadd]; intros ? ?; try done.
  apply normalize_unsigned. cbn [cond_Zopp]. lia.
Qed.

Lemma l2_unsigned v1 : ∀ v2 sum, unsigned sum → unsigned (l2_loop sum v1 v2).
Proof.
  induction v1 as [|x v1 IH]; intros [|y v2] sum Hs; cbn [l2_loop]; try done.
  apply IH, add_unsigned; [done|apply square_unsigned].
Qed.

Lemma square_opp f : f32_mul (SFopp f) (SFopp f) = f32_mul f f.
Proof. by destruct f as [[]|[]| |[] m e]. Qed.

Lemma normalize_opp m e :
  m ≠ 0%Z → binary_normalize 24 128 (- m) e false = SFopp (binary_normalize 24 128 m e false).
Proof.
  assert (∀ s p e l, binary_round_aux 24 128 (negb s) p e l = SFopp (binary_round_aux 24 128 s p e l)) as Haux.
  { intros s p e' l. unfold binary_round_aux. destruct (shr_fexp _ _ p e' l) as [mrs e1].
    destruct (shr_fexp _ _ _ e1 _) as [mrs' e2]. destruct (shr_m mrs'); [done| |done].
    by destruct (Z.leb e2 _). }
  intros Hm. destruct m as [|p|p]; [done| |];
    (change (binary_normalize 24 128 (- Zpos p) e false) with (binary_round 24 128 true p e) ||
     change (binary_normalize 24 128 (- Zneg p) e false) with (binary_round 24 128 false p e));
    cbn [binary_normalize]; unfold binary_round; destruct (shl_align _ _ _) as [mz ez].
  - exact (Haux false (Zpos mz) ez loc_Exact).
  - exact (Haux true (Zpos mz) ez loc_Exact).
Qed.

Lemma sub_square_sym f g : f32_mul (f32_sub f g) (f32_sub f g) = f32_mul (f32_sub g f) (f32_sub g f).
Proof.
  destruct f as [[]|[]| |s m e], g as [[]|[]| |s' m' e']; try done;
    try (cbn [SFsub]; rewrite <-square_opp; cbn [SFopp]; by rewrite ?negb_involutive).
  cbn [SFsub]. cbv zeta. rewrite (Z.min_comm e' e).
  set (a := cond_Zopp s _). set (b := cond_Zopp s' _).
  destruct (decide (a - b = 0)%Z) as [H0|H0].
  - by replace (b - a)%Z with (a - b)%Z by lia.
  - replace (b - a)%Z with (- (a - b))%Z by lia. rewrite normalize_opp by done. by rewrite square_opp.
Qed.

Lemma l2_loop_sym v1 : ∀ v2 sum, length v1 = length v2 → l2_loop sum v1 v2 = l2_loop sum v2 v1.
Proof.
  induction v1 as [|x v1 IH]; intros [|y v2] sum Hl; cbn [l2_loop length] in *; try done.
  rewrite sub_square_sym. apply IH. lia.
Qed.

Lemma sub_self f : finite f → f32_sub f f = S754_zero false.
Proof.
  destruct f as [[]|[]| |s m e]; cbn [finite SFsub]; try done. intros _. cbv zeta. by rewrite Z.sub_diag.
Qed.

Lemma l2_loop_self v : Forall (λ x, finite (of_bits x)) v → l2_loop (S754_zero false) v v = S754_zero false.
Proof. induction 1 as [|x v Hx _ IH]; [done|]. cbn [l2_loop]. rewrite sub_self by done. exact IH. Qed.

(** Encoding undoes decoding, for everything but a NaN. *)
Lemma to_of_bits x : is_float32 x → of_bits x ≠ S754_nan → to_bits (of_bits x) = x.
Proof.
  intros Hx. unfold of_bits. cbv zeta.
  assert (x = sign_bit (Z.testbit x 31) + (Z.land (Z.shiftr x 23) 255) * 2 ^ 23 + Z.land x (2 ^ 23 - 1))%Z as Hsplit.
  { unfold is_float32 in Hx. change 255%Z with (Z.ones 8). change (2 ^ 23 - 1)%Z with (Z.ones 23).
    rewrite !Z.land_ones, Z.shiftr_div_pow2 by lia. unfold sign_bit.
    pose proof (Z.testbit_spec' x 31 ltac:(lia)) as Ht. destruct (Z.testbit x 31); cbn [Z.b2z] in Ht;
    change (2 ^ 23)%Z with 8388608%Z in *; change (2 ^ 31)%Z with 2147483648%Z in *; change (2 ^ 8)%Z with 256%Z in *;
    change (2 ^ 32)%Z with 4294967296%Z in *; Z.to_euclidean_division_equations; lia. }
  assert (0 ≤ Z.land x (2 ^ 23 - 1) < 2 ^ 23)%Z as Hm.
  { change (2 ^ 23 - 1)%Z with (Z.ones 23). rewrite Z.land_ones by lia. apply Z.mod_pos_bound. lia. }
  assert (0 ≤ Z.land (Z.shiftr x 23) 255)%Z as He by (apply Z.land_nonneg; lia).
  set (s := Z.testbit x 31) in *. set (e := Z.land (Z.shiftr x 23) 255) in *. set (m := Z.land x _) in *.
  case_decide as He0; [|case_decide as He1].
  - intros _. etransitivity; [|symmetry; exact Hsplit]. rewrite He0. destruct m as [|p|p] eqn:Em; cbn [to_bits]; [lia| |lia].
    rewrite decide_True by lia. lia.
  - case_decide as Hm0; [|done]. intros _. etransitivity; [|symmetry; exact Hsplit]. cbn [to_bits]. lia.
  - intros _. etransitivity; [|symmetry; exact Hsplit]. cbn [to_bits]. rewrite Z2Pos.id by lia. rewrite decide_False by lia. lia.
Qed.

(** The exact distance of two vectors of the same length exists, does not
    depend on their order, is zero from a vector of finite numbers to itself,
    and is never negative. *)
Theorem L2Distance_laws (v1 v2 : vector) :
  length v1 = length v2 →
  L2Distance v1 v2 = L2Distance v2 v1 ∧
  (Forall (λ x, finite (of_bits x)) v1 → L2Distance v1 v1 = Ok 0%Z) ∧
  ∃ f, L2Distance v1 v2 = Ok (to_bits f) ∧ unsigned f.
Proof.
  intros Hl. unfold L2Distance. rewrite !decide_True by done. split_and!.
  - by rewrite l2_loop_sym.
  - intros Hf. by rewrite l2_loop_self.
  - eexists. split; [done|]. by apply l2_unsigned.
Qed.

(** (1, 2) and (4, 6) are at distance 25. *)
Lemma L2Distance_laws_witness :
  length [0x3f800000; 0x40000000]%Z = length [0x40800000; 0x40c00000]%Z ∧
  L2Distance [0x3f800000; 0x40000000]%Z [0x40800000; 0x40c00000]%Z = Ok 0x41c80000%Z ∧
  ∃ f, L2Distance [0x3f800000; 0x40000000]%Z [0x40800000; 0x40c00000]%Z = Ok (to_bits f) ∧ unsigned f.
Proof.
  split; [reflexivity|]. split; [vm_compute; reflexivity|].
  apply (L2Distance_laws [0x3f800000; 0x40000000]%Z [0x40800000; 0x40c00000]%Z eq_refl).
Defined.
