(* ===== verification/Heap.v ===== *)
(** What the program uses of Go's [container/heap], and its correctness: pushing
    keeps the heap order and popping takes a least element. *)
From S2P Require Import Prelude.

(** * The package *)

Section heap.
Context {A : Type} (less : A → A → bool).

Definition less_at (l : list A) (i j : nat) : bool :=
  match l !! i, l !! j with Some a, Some b => less a b | _, _ => false end.

Definition swap (i j : nat) (l : list A) : list A :=
  match l !! i, l !! j with Some a, Some b => <[i := b]> (<[j := a]> l) | _, _ => l end.

(** [up(h, j)]; the position at least halves, so [j + 1] rounds suffice. *)
Fixpoint up (fuel j : nat) (l : list A) : list A :=
  match fuel with
  | O => l
  | S fuel =>
      let i := (j - 1) / 2 in
      if decide (i = j) then l
      else if less_at l j i then up fuel i (swap i j l) else l
  end.

(** [down(h, i, n)]; the position at least doubles, so [n] rounds suffice. *)
Fixpoint down (fuel i n : nat) (l : list A) : list A :=
  match fuel with
  | O => l
  | S fuel =>
      let j1 := 2 * i + 1 in
      if decide (n ≤ j1) then l
      else
        let j2 := j1 + 1 in
        let j := if decide (j2 < n) then if less_at l j2 j1 then j2 else j1 else j1 in
        if less_at l j i then down fuel j n (swap i j l) else l
  end.

Definition Push (x : A) (l : list A) : list A :=
  let l := l ++ [x] in up (length l) (length l - 1) l.

(** [heap.Pop]; on an empty heap the index is out of range. *)
Definition Pop (l : list A) : res (A * list A) :=
  match length l with
  | O => Panic PIndex
  | S n =>
      let l := down (S n) 0 n (swap 0 n l) in
      match l !! n with
      | Some x => Ok (x, take n l)
      | None => Panic PIndex
      end
  end.

(** * Correctness *)

(** [less] compares integer keys on the elements the heap holds. *)
Context (key : A → Z) (P : A → Prop).
Context (less_key : ∀ a b, P a → P b → less a b = (key a <? key b)%Z).

Definition at_key (l : list A) (i : nat) : Z := match l !! i with Some a => key a | None => 0%Z end.
Definition parent (i : nat) : nat := (i - 1) / 2.

Lemma parent_bounds i : 2 * parent i ≤ i - 1 < 2 * parent i + 2.
Proof.
  unfold parent. pose proof (Nat.div_mod_eq (i - 1) 2). pose proof (Nat.mod_upper_bound (i - 1) 2). lia.
Qed.

(** The order on the first [n] positions. *)
Definition ordered (n : nat) (l : list A) : Prop :=
  ∀ i, 0 < i < n → (at_key l (parent i) ≤ at_key l i)%Z.

Lemma less_at_key l i j :
  Forall P l → i < length l → j < length l → less_at l i j = (at_key l i <? at_key l j)%Z.
Proof.
  intros HP Hi Hj. apply lookup_lt_is_Some in Hi as [a Ha], Hj as [b Hb]. unfold less_at, at_key.
  rewrite Ha, Hb. apply less_key; by eapply (Forall_lookup_1 _ _ _ _ HP).
Qed.

Lemma at_key_swap i j l k :
  i < length l → j < length l →
  at_key (swap i j l) k = if decide (k = i) then at_key l j else if decide (k = j) then at_key l i else at_key l k.
Proof.
  intros Hi Hj. apply lookup_lt_is_Some in Hi as [a Ha], Hj as [b Hb]. unfold swap. rewrite Ha, Hb.
  unfold at_key. pose proof (lookup_lt_Some _ _ _ Ha). pose proof (lookup_lt_Some _ _ _ Hb).
  destruct (decide (k = i)) as [->|Hk].
  - rewrite list_lookup_insert_eq by (by rewrite length_insert). by rewrite Hb.
  - rewrite list_lookup_insert_ne by done. destruct (decide (k = j)) as [->|Hk'].
    + rewrite list_lookup_insert_eq by done. by rewrite Ha.
    + by rewrite list_lookup_insert_ne.
Qed.

Lemma swap_perm i j l : swap i j l ≡ₚ l.
Proof.
  unfold swap. destruct (l !! i) as [a|] eqn:Ha; [|done]. destruct (l !! j) as [b|] eqn:Hb; [|done].
  destruct (decide (i = j)) as [->|Hne].
  { simplify_eq. rewrite list_insert_insert_eq. by rewrite list_insert_id. }
  pose proof (lookup_lt_Some _ _ _ Ha). pose proof (lookup_lt_Some _ _ _ Hb).
  apply Permutation_inj. split; [by rewrite !length_insert|].
  exists (λ k, if decide (k = i) then j else if decide (k = j) then i else k). split.
  - intros x y Hxy. repeat case_decide; congruence.
  - intros k. repeat case_decide; subst.
    + by rewrite list_lookup_insert_eq by (by rewrite length_insert).
    + rewrite list_lookup_insert_ne, list_lookup_insert_eq by done. done.
    + by rewrite !list_lookup_insert_ne by done.
Qed.

Lemma Forall_swap i j l : Forall P l → Forall P (swap i j l).
Proof. by rewrite swap_perm. Qed.
Lemma length_swap_at i j l : length (swap i j l) = length l.
Proof. apply Permutation_length, swap_perm. Qed.

(** [up] repairs a heap in which only position [j] may be too small. *)
Lemma up_ordered fuel : ∀ j l,
  Forall P l → j < length l → j < fuel →
  (∀ i, 0 < i < length l → i ≠ j → (at_key l (parent i) ≤ at_key l i)%Z) →
  (∀ i, 0 < i < length l → parent i = j → 0 < j → (at_key l (parent j) ≤ at_key l i)%Z) →
  ordered (length l) (up fuel j l) ∧ up fuel j l ≡ₚ l.
Proof.
  induction fuel as [|fuel IH]; intros j l HP Hj Hf Hord Hgr; [lia|]. cbn [up].
  change ((j - 1) / 2) with (parent j). case_decide as Hij.
  { split; [|done]. intros i Hi. apply Hord; [done|]. intros ->. pose proof (parent_bounds j). lia. }
  assert (parent j < j) as Hlt by (pose proof (parent_bounds j); lia).
  rewrite less_at_key by (done || lia).
  destruct (at_key l j <? at_key l (parent j))%Z eqn:Hless.
  - assert (ordered (length (swap (parent j) j l)) (up fuel (parent j) (swap (parent j) j l)) ∧
            up fuel (parent j) (swap (parent j) j l) ≡ₚ swap (parent j) j l) as [Ho Hp].
    { apply IH; rewrite ?length_swap_at; [by apply Forall_swap|lia|lia| |].
      - intros i Hi Hne. rewrite !at_key_swap by lia. specialize (Hord i Hi).
        destruct (decide (i = parent j)); [lia|]. destruct (decide (i = j)) as [->|Hij'].
        + rewrite decide_True by done. lia.
        + specialize (Hord Hij'). destruct (decide (parent i = parent j)) as [Hpp|Hpp].
          * rewrite Hpp in Hord. lia.
          * destruct (decide (parent i = j)) as [Hpj|Hpj]; [|done]. apply Hgr; [done|done|lia].
      - intros i Hi Hpi Hpos. rewrite !at_key_swap by lia.
        assert (parent (parent j) < parent j) as Hpp by (pose proof (parent_bounds (parent j)); lia).
        rewrite (decide_False (P := parent (parent j) = parent j)) by lia.
        rewrite (decide_False (P := parent (parent j) = j)) by lia.
        pose proof (Hord (parent j) ltac:(lia) ltac:(lia)) as Hpj.
        rewrite (decide_False (P := i = parent j)) by (pose proof (parent_bounds i); lia).
        destruct (decide (i = j)); [lia|]. specialize (Hord i Hi ltac:(done)). rewrite Hpi in Hord. lia. }
    rewrite length_swap_at in Ho. split; [done|]. by rewrite Hp, swap_perm.
  - split; [|done]. intros i Hi. destruct (decide (i = j)) as [->|Hne]; [lia|by apply Hord].
Qed.

Lemma Push_ordered x l :
  Forall P l → P x → ordered (length l) l → ordered (length (Push x l)) (Push x l) ∧ Push x l ≡ₚ x :: l.
Proof.
  intros HP Hx Hord. unfold Push. cbv zeta.
  destruct (up_ordered (length (l ++ [x])) (length (l ++ [x]) - 1) (l ++ [x])) as [Ho Hp];
    rewrite ?length_app; cbn [length]; try lia.
  - apply Forall_app. split; [done|by apply Forall_singleton].
  - intros i Hi Hne. pose proof (parent_bounds i). unfold at_key. rewrite !lookup_app_l by lia. apply Hord. lia.
  - intros i Hi. pose proof (parent_bounds i). lia.
  - rewrite !length_app in Ho, Hp. cbn [length] in *. rewrite (Permutation_length Hp), length_app.
    split; [done|]. rewrite Hp. apply Permutation_app_comm.
Qed.

(** The child of [i] that [down] compares with: the smaller one. *)
Definition child (n i : nat) (l : list A) : nat :=
  let j1 := 2 * i + 1 in
  if decide (j1 + 1 < n) then if less_at l (j1 + 1) j1 then j1 + 1 else j1 else j1.

Lemma parent_of_child i j : j = 2 * i + 1 ∨ j = 2 * i + 2 → parent j = i.
Proof. intros Hj. pose proof (parent_bounds j). lia. Qed.

Lemma child_spec n i l :
  Forall P l → n ≤ length l → 2 * i + 1 < n →
  parent (child n i l) = i ∧ i < child n i l < n ∧
  ∀ k, 0 < k < n → parent k = i → (at_key l (child n i l) ≤ at_key l k)%Z.
Proof.
  intros HP Hn Hi. unfold child. cbv zeta.
  assert (∀ k, 0 < k → parent k = i → k = 2 * i + 1 ∨ k = 2 * i + 1 + 1) as Hk.
  { intros k Hk0 Hk. pose proof (parent_bounds k). lia. }
  case_decide as H2.
  - rewrite less_at_key by (done || lia).
    destruct (at_key l (2 * i + 1 + 1) <? at_key l (2 * i + 1))%Z eqn:Hless;
      (split_and!; [apply parent_of_child; lia|lia|lia|]); intros k [Hk0 _] Hp;
      destruct (Hk k Hk0 Hp) as [->| ->]; lia.
  - split_and!; [apply parent_of_child; lia|lia|lia|]. intros k [Hk0 Hkn] Hp.
    destruct (Hk k Hk0 Hp) as [->| ->]; lia.
Qed.

(** [down] repairs the first [n] positions, of which only [i] may be too large;
    the rest of the list is not touched. *)
Lemma down_ordered n fuel : ∀ i l,
  Forall P l → n ≤ length l → n - i ≤ fuel →
  (∀ k, 0 < k < n → parent k ≠ i → (at_key l (parent k) ≤ at_key l k)%Z) →
  (∀ k, 0 < k < n → parent k = i → 0 < i → (at_key l (parent i) ≤ at_key l k)%Z) →
  ordered n (down fuel i n l) ∧ down fuel i n l ≡ₚ l ∧ ∀ k, n ≤ k → down fuel i n l !! k = l !! k.
Proof.
  induction fuel as [|fuel IH]; intros i l HP Hn Hf Hord Hgr; cbn [down].
  { split_and!; [|done..]. intros k Hk. apply Hord; [done|]. pose proof (parent_bounds k). lia. }
  change (if decide (2 * i + 1 + 1 < n) then _ else _) with (child n i l). case_decide as Hleaf.
  { split_and!; [|done..]. intros k Hk. apply Hord; [done|]. pose proof (parent_bounds k). lia. }
  destruct (child_spec n i l) as (Hpc & Hc & Hmin); [done|lia|lia|]. set (j := child n i l) in *.
  rewrite less_at_key by (done || lia). destruct (at_key l j <? at_key l i)%Z eqn:Hless.
  - destruct (IH j (swap i j l)) as (Ho & Hp & Hk); rewrite ?length_swap_at; [by apply Forall_swap|lia|lia| | |].
    + intros k Hk Hne. rewrite !at_key_swap by lia.
      destruct (decide (k = i)) as [->|Hki].
      { pose proof (parent_bounds i). rewrite !decide_False by lia. by apply Hgr; [lia|..|lia]. }
      destruct (decide (k = j)) as [->|Hkj]; [rewrite decide_True by done; lia|].
      destruct (decide (parent k = i)) as [Hpk|Hpk]; [by apply Hmin|].
      rewrite decide_False by done. by apply Hord.
    + intros k Hk Hpk _. rewrite Hpc, !at_key_swap by lia. rewrite decide_True by done.
      pose proof (parent_bounds k). rewrite !decide_False by lia. rewrite <-Hpk. apply Hord; lia.
    + split_and!; [done|by rewrite Hp, swap_perm|]. intros k Hnk. rewrite Hk by done.
      unfold swap. destruct (l !! i); [|done]. destruct (l !! j); [|done].
      by rewrite !list_lookup_insert_ne by lia.
  - split_and!; [|done..]. intros k Hk. destruct (decide (parent k = i)) as [Hpk|Hpk]; [|by apply Hord].
    rewrite Hpk. specialize (Hmin k Hk Hpk). lia.
Qed.

Lemma ordered_root l i : ordered (length l) l → i < length l → (at_key l 0 ≤ at_key l i)%Z.
Proof.
  intros Hord. induction i as [i IH] using lt_wf_ind. intros Hi. destruct (decide (i = 0)) as [->|]; [done|].
  pose proof (parent_bounds i). specialize (IH (parent i) ltac:(lia) ltac:(lia)). specialize (Hord i ltac:(lia)). lia.
Qed.

(** Popping takes a least element and keeps the order of the others. *)
Lemma Pop_least l :
  Forall P l → ordered (length l) l → l ≠ [] →
  ∃ x l', Pop l = Ok (x, l') ∧ l ≡ₚ x :: l' ∧ ordered (length l') l' ∧ ∀ y, y ∈ l → (key x ≤ key y)%Z.
Proof.
  intros HP Hord Hne. unfold Pop. destruct (length l) as [|n] eqn:Hlen; [by apply nil_length_inv in Hlen|].
  destruct (lookup_lt_is_Some_2 l 0) as [x Hx]; [lia|].
  destruct (lookup_lt_is_Some_2 l n) as [z Hz]; [lia|].
  destruct (down_ordered n (S n) 0 (swap 0 n l)) as (Ho & Hp & Hk); rewrite ?length_swap_at; [by apply Forall_swap|lia|lia| |lia|].
  { intros k Hk Hpk. pose proof (parent_bounds k). rewrite !at_key_swap by lia.
    rewrite !decide_False by lia. apply Hord. lia. }
  set (d := down _ _ _ _) in *.
  assert (d !! n = Some x) as Hdn.
  { rewrite Hk by done. unfold swap. rewrite Hx, Hz. destruct (decide (n = 0)) as [->|Hn0].
    - rewrite list_lookup_insert_eq by (rewrite length_insert; lia). congruence.
    - rewrite list_lookup_insert_ne, list_lookup_insert_eq by (done || lia). done. }
  rewrite Hdn. assert (length d = S n) as Hdl by (by rewrite Hp, length_swap_at).
  assert (d = take n d ++ [x]) as Hd.
  { rewrite <-(take_drop n d) at 1. f_equal. rewrite (drop_S _ _ _ Hdn), drop_ge by lia. done. }
  exists x, (take n d). split_and!; [done| | |].
  - rewrite <-(swap_perm 0 n l), <-Hp, Hd at 1. by rewrite Permutation_app_comm.
  - rewrite length_take, Hdl. replace (n `min` S n) with n by lia. intros i Hi. specialize (Ho i Hi).
    pose proof (parent_bounds i). unfold at_key in *. by rewrite !lookup_take_lt by lia.
  - intros y [i Hi]%list_elem_of_lookup. pose proof (ordered_root l i) as Hr. unfold at_key in Hr.
    rewrite Hi, Hx, Hlen in Hr. apply Hr; [done|]. apply lookup_lt_Some in Hi. lia.
Qed.
End heap.
