(* ===== verification/Merge.v ===== *)
(** Merging sorted results: what a heap of the best results of several sources
    gives is what one sorted list of everything would. *)
From S2P Require Import Prelude Heap.

(** * Orders *)

(** [less] of a sort order: irreflexive, transitive, and two elements neither of
    which is less than the other are exchangeable. *)
Class WeakOrder {A} (less : A → A → bool) := {
  less_irrefl a : less a a = false;
  less_trans a b c : less a b = true → less b c = true → less a c = true;
  less_incomparable a b c : less a b = false → less b c = false → less a c = false
}.

Section merge.
Context {A : Type} (less : A → A → bool) {Hless : WeakOrder less}.
Implicit Types (xs ys : list A) (x y : A).

Definition sorted (xs : list A) : Prop := StronglySorted (λ a b, less b a = false) xs.

(** [hits] is the page of [all] that starts at [from]: the rest of some sorted
    arrangement. *)
Definition is_page (from size : nat) (all hits : list A) : Prop :=
  ∃ xs, xs ≡ₚ all ∧ sorted xs ∧ hits = take size (drop from xs).

Lemma less_asym x y : less x y = true → less y x = false.
Proof.
  intros H. destruct (less y x) eqn:E; [|done].
  pose proof (less_trans x y x H E) as Hxx. by rewrite less_irrefl in Hxx.
Qed.

(** The number of elements of [xs] below [x]: a key that orders them as [less]
    does. *)
Definition rank (xs : list A) (x : A) : Z := Z.of_nat (length (filter (λ y, less y x = true) xs)).

Lemma rank_less xs x y : x ∈ xs → less x y = (rank xs x <? rank xs y)%Z.
Proof.
  intros Hx. unfold rank. destruct (less x y) eqn:E; symmetry.
  - apply Z.ltb_lt, inj_lt. revert Hx. induction xs as [|z xs IH]; [by intros []%elem_of_nil|].
    assert (length (filter (λ z, less z x = true) xs) ≤ length (filter (λ z, less z y = true) xs)) as Hle.
    { clear -E Hless. induction xs as [|z xs IH]; [done|]. rewrite !filter_cons.
      destruct (decide (less z x = true)) as [Hz|]; [|destruct (decide (less z y = true)); cbn; lia].
      rewrite decide_True by (by eapply less_trans). cbn. lia. }
    intros [->|Hin]%elem_of_cons; rewrite !filter_cons.
    + rewrite less_irrefl, decide_False, decide_True by done. cbn. lia.
    + destruct (decide (less z x = true)) as [Hz|].
      * rewrite (decide_True (P := less z y = true)) by (by eapply less_trans). cbn. specialize (IH Hin). lia.
      * specialize (IH Hin). destruct (decide (less z y = true)); cbn; lia.
  - apply Z.ltb_ge, inj_le. clear Hx. induction xs as [|z xs IH]; [done|]. rewrite !filter_cons.
    destruct (decide (less z y = true)) as [Hz|]; [|destruct (decide (less z x = true)); cbn; lia].
    rewrite (decide_True (P := less z x = true)); [cbn; lia|].
    destruct (less z x) eqn:Ez; [done|]. pose proof (less_incomparable z x y Ez E). congruence.
Qed.

(** A list can be sorted. *)
Definition order_sort (xs : list A) : list A := reverse (sort_slice (key_sorter (rank xs)) xs).

Lemma order_sort_perm xs : order_sort xs ≡ₚ xs.
Proof. unfold order_sort. by rewrite reverse_Permutation, sort_slice_perm. Qed.

Lemma order_sort_sorted xs : sorted (order_sort xs).
Proof.
  unfold order_sort. pose proof (sort_slice_sorted (key_sorter (rank xs)) xs) as Hs.
  assert (∀ x, x ∈ sort_slice (key_sorter (rank xs)) xs → x ∈ xs) as Hin by (intros x; by rewrite sort_slice_perm).
  revert Hs Hin. generalize (sort_slice (key_sorter (rank xs)) xs) as ys. unfold sorted.
  induction ys as [|y ys IH]; intros Hs Hin; [constructor|].
  apply StronglySorted_inv in Hs as [Hs Hall]. rewrite reverse_cons.
  apply StronglySorted_app_2; [|apply IH; [done|set_solver]|repeat constructor].
  intros a b Ha ->%list_elem_of_singleton. rewrite elem_of_reverse in Ha. rewrite Forall_forall in Hall.
  rewrite (rank_less xs) by (apply Hin; left). exact (Hall a Ha).
Qed.

Definition order_sorter : sorter less := Sorter order_sort order_sort_perm order_sort_sorted.

Lemma sorted_exists xs : ∃ ys, ys ≡ₚ xs ∧ sorted ys.
Proof. exists (order_sort xs). split; [apply order_sort_perm|apply order_sort_sorted]. Qed.

Lemma sorted_app_inv xs ys x y : sorted (xs ++ ys) → x ∈ xs → y ∈ ys → less y x = false.
Proof. intros Hs Hx Hy. by eapply (StronglySorted_app_1_elem_of _ xs ys x y) in Hs. Qed.

(** An element among the first [n] of a sorted list has fewer than [n] elements
    below it. *)
Lemma few_below xs n x : sorted xs → x ∈ take n xs → length (filter (λ y, less y x = true) xs) < n.
Proof.
  intros Hs Hx. apply list_elem_of_lookup in Hx as [i Hi]. apply lookup_take_Some in Hi as [Hi Hin].
  apply list_elem_of_split_length in Hi as (l1 & l2 & -> & ->).
  rewrite filter_app, length_app. pose proof (length_filter (λ y, less y x = true) l1) as Hl1.
  enough (filter (λ y, less y x = true) (x :: l2) = []) as -> by (cbn; lia).
  apply filter_none. intros y [->|Hy]%elem_of_cons; [by rewrite less_irrefl|].
  rewrite (sorted_app_inv (l1 ++ [x]) l2 x y); [done|by rewrite <-app_assoc|set_solver|done].
Qed.

(** What one source leaves out of its best [n] is not below the best [n] of
    all. *)
Lemma left_out_above n s H x d :
  sorted s → sorted H → (∃ others, H ≡ₚ take n s ++ others) → d ∈ drop n s → x ∈ take n H → less d x = false.
Proof.
  intros Hs HH [others Hp] Hd Hx. destruct (less d x) eqn:E; [|done]. exfalso.
  assert (∀ y, y ∈ take n s → less y x = true) as Hbelow.
  { intros y Hy. destruct (less y x) eqn:Ey; [done|].
    assert (less d y = false) as Hdy by (apply (sorted_app_inv (take n s) (drop n s)); by rewrite ?take_drop).
    by rewrite (less_incomparable d y x Hdy Ey) in E. }
  pose proof (few_below H n x HH Hx) as Hfew. rewrite Hp, filter_app, length_app in Hfew.
  assert (filter (λ y, less y x = true) (take n s) = take n s) as Hall.
  { clear -Hbelow. induction (take n s) as [|y l IH]; [done|]. rewrite filter_cons_True by (apply Hbelow; left).
    f_equal. apply IH. intros z Hz. apply Hbelow. by right. }
  rewrite Hall, length_take in Hfew. apply list_elem_of_lookup_1 in Hd as [i Hi].
  apply lookup_lt_Some in Hi. rewrite length_drop in Hi. lia.
Qed.

(** The best [n] of every source: what is left out of them is above them. *)
Lemma tops_rest n As Ls :
  Forall2 (is_page 0 n) As Ls →
  ∃ rest, concat As ≡ₚ concat Ls ++ rest ∧
    ∀ d, d ∈ rest → ∃ s others, sorted s ∧ d ∈ drop n s ∧ concat Ls ≡ₚ take n s ++ others.
Proof.
  induction 1 as [|a l As Ls (s & Hs & Hsort & ->) _ (rest & Hp & Hrest)]; cbn.
  { exists []. split; [done|]. by intros d ?%elem_of_nil. }
  exists (drop n s ++ rest). split.
  - rewrite Hp, <-Hs. rewrite <-(take_drop n s) at 1. rewrite drop_0, <-!app_assoc. f_equiv.
    by rewrite !app_assoc, (Permutation_app_comm (drop n s)).
  - intros d [Hd|Hd]%elem_of_app.
    + exists s, (concat Ls). by rewrite drop_0.
    + destruct (Hrest d Hd) as (s' & others & Hs' & Hd' & Hp'). exists s', (take n s ++ others).
      split_and!; [done..|]. by rewrite drop_0, Hp', !app_assoc, (Permutation_app_comm (take n s)).
Qed.

(** Sorting the best [n] of every source and keeping [n] gives the best [n] of
    everything. *)
Lemma merge_tops n As Ls H :
  Forall2 (is_page 0 n) As Ls → sorted H → H ≡ₚ concat Ls →
  ∃ s, s ≡ₚ concat As ∧ sorted s ∧ take n s = take n H.
Proof.
  intros Htops HH Hp. destruct (tops_rest n As Ls Htops) as (rest & Hall & Hrest).
  destruct (sorted_exists (drop n H ++ rest)) as (t & Ht & Hts).
  assert (∀ x y, x ∈ take n H → y ∈ t → less y x = false) as Hcross.
  { intros x y Hx. rewrite Ht. intros [Hy|Hy]%elem_of_app.
    - apply (sorted_app_inv (take n H) (drop n H)); by rewrite ?take_drop.
    - destruct (Hrest y Hy) as (s & others & Hs & Hd & Ho). apply (left_out_above n s H); try done.
      exists others. by rewrite Hp. }
  exists (take n H ++ t). split_and!.
  - rewrite Ht, app_assoc, take_drop, Hp. by rewrite Hall.
  - apply StronglySorted_app_2; [done| |done]. unfold sorted in HH.
    rewrite <-(take_drop n H) in HH. by apply StronglySorted_app_1_l in HH.
  - destruct (decide (n ≤ length H)) as [Hn|Hn].
    + rewrite take_app_le by (rewrite length_take; lia). by rewrite take_take, Nat.min_id.
    + enough (t = []) as -> by (by rewrite app_nil_r, take_take, Nat.min_id).
      apply Permutation_nil_r. rewrite Ht, drop_ge by lia. cbn. destruct rest as [|d rest]; [done|].
      destruct (Hrest d ltac:(left)) as (s & others & _ & Hd & Ho). exfalso. apply Hn.
      rewrite Hp, Ho, length_app, length_take. apply list_elem_of_lookup_1 in Hd as [i Hi].
      apply lookup_lt_Some in Hi. rewrite length_drop in Hi. lia.
Qed.

Lemma sorted_fmap {B} (f : B → A) (xs : list B) :
  sorted (f <$> xs) ↔ StronglySorted (λ a b, less (f b) (f a) = false) xs.
Proof.
  unfold sorted. induction xs as [|x xs IH]; cbn; [split; constructor|].
  split; intros [Hs Hall]%StronglySorted_inv; constructor; (apply IH; done) || (by rewrite ?Forall_fmap in *).
Qed.

Lemma is_page_perm from size all all' hits : all ≡ₚ all' → is_page from size all hits → is_page from size all' hits.
Proof. intros Hp (xs & Hxs & Hs & ->). exists xs. by rewrite <-Hp. Qed.

(** * Popping a heap *)

Fixpoint pop_n (n : nat) (h : list A) : res (list A * list A) :=
  match n with
  | 0 => Ok ([], h)
  | S n => '(x, h) ← Pop less h; '(xs, h) ← pop_n n h; Ok (x :: xs, h)
  end.

Lemma push_all_ordered xs h all :
  h ⊆ all → xs ⊆ all → ordered (rank all) (length h) h →
  let h' := foldl (λ h x, Push less x h) h xs in ordered (rank all) (length h') h' ∧ h' ≡ₚ xs ++ h.
Proof.
  revert h. induction xs as [|x xs IH]; intros h Hh Hxs Hord; [done|]. cbn.
  destruct (Push_ordered less (rank all) (.∈ all) (λ a b Ha _, rank_less all a b Ha) x h) as [Ho Hp];
    [by apply Forall_forall, Hh|apply Hxs; left|done|].
  destruct (IH (Push less x h)) as [Ho' Hp']; [|set_solver|done|].
  - intros y. rewrite Hp. set_solver.
  - split; [done|]. rewrite Hp', Hp. by rewrite Permutation_middle.
Qed.

Lemma pop_n_least n all : ∀ h,
  h ⊆ all → n ≤ length h → ordered (rank all) (length h) h →
  ∃ xs h', pop_n n h = Ok (xs, h') ∧ length xs = n ∧ h ≡ₚ xs ++ h' ∧ ordered (rank all) (length h') h' ∧
    sorted xs ∧ ∀ x y, x ∈ xs → y ∈ h' → less y x = false.
Proof.
  induction n as [|n IH]; intros h Hh Hn Hord.
  { exists [], h. split_and!; [done..|constructor|]. intros x y []%elem_of_nil. }
  destruct (Pop_least less (rank all) (.∈ all) (λ a b Ha _, rank_less all a b Ha) h) as (x & h1 & HP & Hp & Ho & Hmin);
    [by apply Forall_forall, Hh|done|intros ->; cbn in Hn; lia|].
  assert (h1 ⊆ all) as Hh1 by (intros y Hy; apply Hh; rewrite Hp; by right).
  destruct (IH h1) as (xs & h' & Hpop & Hlen & Hp' & Ho' & Hsort & Hx); [done|rewrite Hp in Hn; cbn in Hn; lia|done|].
  assert (∀ y, y ∈ h → less y x = false) as Hleast.
  { intros y Hy. rewrite (rank_less all) by (by apply Hh). apply Z.ltb_ge. by apply Hmin. }
  exists (x :: xs), h'. cbn [pop_n]. rewrite HP. cbn. rewrite Hpop. cbn. split_and!; [done|by rewrite Hlen| |done| |].
  - by rewrite Hp, Hp'.
  - constructor; [done|]. apply Forall_forall. intros y Hy. apply Hleast. rewrite Hp, Hp'. set_solver.
  - intros a b [->|Ha]%elem_of_cons Hb; [|by apply Hx]. apply Hleast. rewrite Hp, Hp'. set_solver.
Qed.

(** The heap of the best results of every source, of which the first [from] are
    dropped and the next [size] kept, gives the page of everything. *)
Lemma heap_page from size As Ls arrived :
  Forall2 (is_page 0 (from + size)) As Ls → arrived ≡ₚ concat Ls →
  let h := foldl (λ h x, Push less x h) [] arrived in
  ∃ skipped h1 hits h2,
    pop_n (from `min` length h) h = Ok (skipped, h1) ∧ pop_n (size `min` length h1) h1 = Ok (hits, h2) ∧
    is_page from size (concat As) hits.
Proof.
  intros Htops Harr h. destruct (push_all_ordered arrived [] arrived) as [Ho Hp]; [by intros ? ?%elem_of_nil|done| |].
  { intros i Hi. cbn in Hi. lia. }
  fold h in Ho, Hp. rewrite app_nil_r in Hp. assert (h ⊆ arrived) as Hh by (intros y; by rewrite Hp).
  destruct (pop_n_least (from `min` length h) arrived h) as (xs & h1 & HP1 & Hl1 & Hp1 & Ho1 & Hs1 & Hx1); [done|lia|done|].
  assert (h1 ⊆ arrived) as Hh1 by (intros y Hy; apply Hh; rewrite Hp1; set_solver).
  destruct (pop_n_least (size `min` length h1) arrived h1) as (ys & h2 & HP2 & Hl2 & Hp2 & Ho2 & Hs2 & Hx2); [done|lia|done|].
  destruct (pop_n_least (length h2) arrived h2) as (zs & h3 & _ & Hl3 & Hp3 & _ & Hs3 & _); [|lia|done|].
  { intros y Hy. apply Hh1. rewrite Hp2. set_solver. }
  assert (h3 = []) as -> by (apply nil_length_inv; rewrite Hp3, length_app in Hl3; lia). rewrite app_nil_r in Hp3.
  exists xs, h1, ys, h2. split_and!; [done..|].
  assert (sorted (xs ++ ys ++ zs)) as Hsorted.
  { apply StronglySorted_app_2; [|done|].
    - intros a b Ha Hb. apply Hx1; [done|]. rewrite Hp2, Hp3. set_solver.
    - apply StronglySorted_app_2; [|done|done]. intros a b Ha Hb. apply Hx2; [done|]. by rewrite Hp3. }
  assert (xs ++ ys ++ zs ≡ₚ concat Ls) as Hperm by (by rewrite <-Hp3, <-Hp2, <-Hp1, Hp, Harr).
  destruct (merge_tops (from + size) As Ls _ Htops Hsorted Hperm) as (s & Hs & Hss & Htake).
  exists s. split_and!; [done..|]. rewrite take_drop_commute, Htake, <-take_drop_commute.
  rewrite Hp1, length_app in Hl1.
  destruct (decide (from ≤ length xs)) as [Hf|Hf].
  - assert (length xs = from) as <- by lia. rewrite drop_app_length.
    assert (length h1 = length ys + length h2) as Hlen by (by rewrite Hp2, length_app).
    destruct (decide (size ≤ length ys)) as [Hz|Hz].
    + rewrite take_app_le by done. by rewrite take_ge by lia.
    + assert (length h2 = 0) as ->%nil_length_inv by lia. apply Permutation_nil_l in Hp3 as <-.
      by rewrite app_nil_r, take_ge by lia.
  - assert (length h1 = 0) as ->%nil_length_inv by lia. apply Permutation_nil_l, symmetry, app_eq_nil in Hp2 as [-> ->].
    apply Permutation_nil_l in Hp3 as <-. by rewrite app_nil_r, drop_ge, take_nil by lia.
Qed.
End merge.

(** Pages of pairs that are compared by one of their parts. *)
Section pages.
Context {A B : Type} (less : A → A → bool) (f : A → B) (g : B → A) (gf : ∀ a, g (f a) = a).

Lemma is_page_fmap from size all hits :
  is_page less from size all hits → is_page (λ a b, less (g a) (g b)) from size (f <$> all) (f <$> hits).
Proof.
  intros (xs & Hp & Hs & ->). exists (f <$> xs). split_and!; [by rewrite Hp| |by rewrite fmap_take, fmap_drop].
  apply (sorted_fmap (λ a b, less (g a) (g b))). unfold sorted in Hs. revert Hs. clear -gf.
  induction 1 as [|x xs Hs IH Hall]; constructor; [done|]. by setoid_rewrite gf.
Qed.

Lemma is_page_fmap_inv from size all hits :
  is_page (λ a b, less (g a) (g b)) from size (f <$> all) hits →
  ∃ ms, hits = f <$> ms ∧ is_page less from size all ms.
Proof.
  intros (xs & Hp & Hs & ->). destruct (Permutation_map_inv _ _ Hp) as (ms & -> & Hms).
  exists (take size (drop from ms)). split; [by rewrite fmap_take, fmap_drop|].
  exists ms. split_and!; [done| |done]. apply (proj1 (sorted_fmap (λ a b, less (g a) (g b)) f ms)) in Hs. clear Hp Hms. unfold sorted.
  induction Hs as [|x xs Hs IH Hall]; constructor; [done|]. by setoid_rewrite gf in Hall.
Qed.
End pages.
