(* ===== verification/HNSWCache.v ===== *)
(** The in-memory part of a vector segment (pkg/core/hnsw_segment.go,
    [updateCache] and [deleteCache]): the vectors of the documents changed by
    unapplied logs, kept contiguously in one slice so that they can be searched
    exhaustively, with the position of every document. *)
From S2P Require Import Prelude Hash Strconv Shards VectorStore.

(** * Slices *)

(** [l[lo:hi]], and [copy(l[lo:hi], src)]. *)
Definition slice {A} (lo hi : nat) (l : list A) : res (list A) :=
  if decide (lo ≤ hi ≤ length l) then Ok (take (hi - lo) (drop lo l)) else Panic PSlice.

Definition copy_slice {A} (lo hi : nat) (src l : list A) : res (list A) :=
  if decide (lo ≤ hi ≤ length l) then
    let n := Nat.min (hi - lo) (length src) in
    Ok (take lo l ++ take n src ++ drop (lo + n) l)
  else Panic PSlice.

(** [l[i] = x]. *)
Definition store {A} (i : nat) (x : A) (l : list A) : res (list A) :=
  if decide (i < length l) then Ok (<[i := x]> l) else Panic PIndex.

Definition load_at {A} (i : nat) (l : list A) : res A :=
  match l !! i with Some x => Ok x | None => Panic PIndex end.

(** * The cache *)

Record vcache := mkCache { docIDs : list Z; docVectors : list Z; docIDIndex : gmap Z nat }.

Definition empty_cache : vcache := mkCache [] [] ∅.

Section cache.
Context (dimensions : nat).
Local Abbreviation d := dimensions.

Definition updateCache (docID : Z) (v : vector) (c : vcache) : res vcache :=
  match docIDIndex c !! docID with
  | Some i =>
      vs ← copy_slice (i * d) ((i + 1) * d) v (docVectors c);
      mret (mkCache (docIDs c) vs (docIDIndex c))
  | None =>
      let ids := docIDs c ++ [docID] in
      mret (mkCache ids (docVectors c ++ v) (<[docID := length ids - 1]> (docIDIndex c)))
  end.

Definition deleteCache (docID : Z) (c : vcache) : res vcache :=
  match docIDIndex c !! docID with
  | None => mret c
  | Some i =>
      match length (docIDs c) with
      | O => Panic PIndex
      | S j =>
          c1 ← (if decide (i = j) then mret c
                else
                  last ← load_at j (docIDs c);
                  ids ← store i last (docIDs c);
                  vj ← slice (j * d) ((j + 1) * d) (docVectors c);
                  vs ← copy_slice (i * d) ((i + 1) * d) vj (docVectors c);
                  mret (mkCache ids vs (<[last := i]> (docIDIndex c))));
          ids ← slice 0 j (docIDs c1);
          vs ← slice 0 (j * d) (docVectors c1);
          mret (mkCache ids vs (delete docID (docIDIndex c1)))
      end
  end.

(** ** The invariant *)

(** One vector of [dimensions] entries per document, and the positions of the
    documents are the inverse of the list of documents. *)
Record cache_wf (c : vcache) (vs : list vector) : Prop := {
  wf_flat : docVectors c = concat vs;
  wf_dim : Forall (λ v : vector, length v = d) vs;
  wf_len : length vs = length (docIDs c);
  wf_index : ∀ x i, docIDIndex c !! x = Some i ↔ docIDs c !! i = Some x
}.

Definition cache_ok (c : vcache) : Prop := ∃ vs, cache_wf c vs.

(** The vector of a document. *)
Definition cached (c : vcache) (x : Z) : option vector :=
  (λ i, take d (drop (i * d) (docVectors c))) <$> docIDIndex c !! x.

Lemma empty_cache_wf : cache_wf empty_cache [].
Proof. split; [done..|]. intros x i. cbn. by rewrite lookup_empty. Qed.

Lemma length_concat_dim vs : Forall (λ v : vector, length v = d) vs → length (concat vs) = length vs * d.
Proof. induction 1 as [|v vs Hv _ IH]; [done|]. cbn [concat length]. rewrite length_app, IH, Hv. lia. Qed.

Lemma take_concat_dim j vs :
  Forall (λ v : vector, length v = d) vs → take (j * d) (concat vs) = concat (take j vs).
Proof.
  intros Hvs. revert j. induction Hvs as [|v vs Hv _ IH]; intros j; [cbn [concat]; by rewrite !take_nil|].
  destruct j as [|j]; [by rewrite Nat.mul_0_l|]. cbn [concat take].
  replace (S j * d) with (length v + j * d) by lia. by rewrite take_app_add, IH.
Qed.

Lemma drop_concat_dim j vs :
  Forall (λ v : vector, length v = d) vs → drop (j * d) (concat vs) = concat (drop j vs).
Proof.
  intros Hvs. revert j. induction Hvs as [|v vs Hv _ IH]; intros j; [cbn [concat]; by rewrite !drop_nil|].
  destruct j as [|j]; [by rewrite Nat.mul_0_l, !drop_0|]. cbn [concat drop].
  replace (S j * d) with (length v + j * d) by lia. by rewrite drop_app_add, IH.
Qed.

Lemma vec_at_concat i v vs :
  Forall (λ v : vector, length v = d) vs → vs !! i = Some v → take d (drop (i * d) (concat vs)) = v.
Proof.
  intros Hvs Hi. rewrite drop_concat_dim by done. rewrite (drop_S _ _ _ Hi). cbn [concat].
  rewrite Forall_forall in Hvs. rewrite <-(Hvs v) by (by eapply list_elem_of_lookup_2).
  by rewrite take_app_length.
Qed.

Lemma slice_prefix {A} j (l : list A) : j ≤ length l → slice 0 j l = Ok (take j l).
Proof. intros Hj. unfold slice. rewrite decide_True by lia. by rewrite drop_0, Nat.sub_0_r. Qed.

Lemma slice_concat i v vs :
  Forall (λ v : vector, length v = d) vs → vs !! i = Some v → slice (i * d) ((i + 1) * d) (concat vs) = Ok v.
Proof.
  intros Hvs Hi. unfold slice. rewrite length_concat_dim by done.
  pose proof (lookup_lt_Some _ _ _ Hi) as Hlt. rewrite decide_True by nia.
  replace ((i + 1) * d - i * d) with d by lia. by rewrite (vec_at_concat i v).
Qed.

Lemma copy_slice_concat i v vs :
  Forall (λ v : vector, length v = d) vs → i < length vs → length v = d →
  copy_slice (i * d) ((i + 1) * d) v (concat vs) = Ok (concat (<[i := v]> vs)).
Proof.
  intros Hvs Hi Hv. unfold copy_slice. rewrite length_concat_dim by done.
  rewrite decide_True by nia. f_equal. cbv zeta.
  replace (Nat.min ((i + 1) * d - i * d) (length v)) with d by lia.
  rewrite take_concat_dim by done. replace (i * d + d) with (S i * d) by lia.
  rewrite drop_concat_dim by done. rewrite insert_take_drop by done.
  rewrite concat_app. cbn [concat]. by rewrite (take_ge v d) by lia.
Qed.

Lemma cached_wf c vs x : cache_wf c vs → cached c x = docIDIndex c !! x ≫= λ i, vs !! i.
Proof.
  intros [Hf Hd Hl Hi]. unfold cached. destruct (docIDIndex c !! x) as [i|] eqn:Hx; [|done]. cbn.
  apply Hi in Hx. apply lookup_lt_Some in Hx. rewrite <-Hl in Hx.
  apply lookup_lt_is_Some in Hx as [v Hv]. by rewrite Hf, (vec_at_concat i v), Hv.
Qed.

Lemma index_inj c vs x y i :
  cache_wf c vs → docIDIndex c !! x = Some i → docIDIndex c !! y = Some i → x = y.
Proof. intros Hwf Hx%(wf_index _ _ Hwf) Hy%(wf_index _ _ Hwf). congruence. Qed.

(** Setting the vector of a document never panics, keeps the invariant and
    changes that document only. *)
Lemma updateCache_wf c vs x v :
  cache_wf c vs → length v = d →
  ∃ c' vs', updateCache x v c = Ok c' ∧ cache_wf c' vs' ∧
    ∀ y, cached c' y = if decide (y = x) then Some v else cached c y.
Proof.
  intros Hwf Hv. pose proof Hwf as [Hf Hd Hl Hi]. unfold updateCache.
  destruct (docIDIndex c !! x) as [i|] eqn:Hx.
  - assert (i < length vs) as Hlt by (rewrite Hl; by eapply lookup_lt_Some, Hi).
    rewrite Hf, copy_slice_concat by done. cbn [mbind res_bind].
    set (c' := mkCache _ _ _).
    assert (cache_wf c' (<[i := v]> vs)) as Hwf'.
    { split; [done|by apply Forall_insert|by rewrite length_insert|exact Hi]. }
    exists c', (<[i := v]> vs). split_and!; [done..|]. intros y. rewrite (cached_wf c' _ y Hwf'), (cached_wf c vs y Hwf).
    change (docIDIndex c') with (docIDIndex c).
    destruct (decide (y = x)) as [->|Hne].
    + rewrite Hx. cbn. by rewrite list_lookup_insert_eq.
    + destruct (docIDIndex c !! y) as [j|] eqn:Hy; [|done]. cbn.
      rewrite list_lookup_insert_ne; [done|]. intros ->. apply Hne. by eapply index_inj.
  - set (c' := mkCache _ _ _).
    assert (docIDIndex c' = <[x := length (docIDs c)]> (docIDIndex c)) as Hidx.
    { unfold c'. cbn [docIDIndex]. f_equal. rewrite length_app. cbn. lia. }
    assert (cache_wf c' (vs ++ [v])) as Hwf'.
    { split.
      - unfold c'. cbn [docVectors]. rewrite Hf, concat_app. cbn. by rewrite app_nil_r.
      - apply Forall_app. split; [done|]. by apply Forall_singleton.
      - unfold c'. cbn [docIDs]. rewrite !length_app, Hl. done.
      - intros y i. rewrite Hidx. unfold c'. cbn [docIDs].
        rewrite lookup_insert_Some, lookup_app_Some, list_lookup_singleton_Some, Hi. split.
        + intros [[-> <-]|[_ ?]]; [right|by left]. rewrite Nat.sub_diag. split; [lia|done].
        + intros [?|(Hle & Heq & ->)]; [right|left; split; [done|lia]]. split; [|done].
          intros ->. apply Hi in H. congruence. }
    exists c', (vs ++ [v]). split_and!; [done..|]. intros y. rewrite (cached_wf c' _ y Hwf'), (cached_wf c vs y Hwf), Hidx.
    destruct (decide (y = x)) as [->|Hne].
    + rewrite lookup_insert_eq. cbn. rewrite <-Hl. by rewrite list_lookup_middle.
    + rewrite lookup_insert_ne by done. destruct (docIDIndex c !! y) as [j|] eqn:Hy; [|done]. cbn.
      apply lookup_app_l. rewrite Hl. by eapply lookup_lt_Some, Hi.
Qed.

(** The positions after the last document has taken the place of a deleted
    one, at position [i]. *)
Lemma swap_index (idx : gmap Z nat) (ids : list Z) x last i j :
  (∀ y k, idx !! y = Some k ↔ ids !! k = Some y) → length ids = S j →
  ids !! i = Some x → ids !! j = Some last → ∀ y k,
  delete x (<[last := i]> idx) !! y = Some k ↔ take j (<[i := last]> ids) !! k = Some y.
Proof.
  intros Hi Hlen Hx Hlast y k.
  assert (i < S j) as Hij by (rewrite <-Hlen; by eapply lookup_lt_Some).
  assert (∀ y k k', ids !! k = Some y → ids !! k' = Some y → k = k') as Hinj.
  { intros z k1 k2 H1%Hi H2%Hi. congruence. }
  rewrite lookup_delete_Some, lookup_insert_Some, Hi, lookup_take_Some.
  rewrite list_lookup_insert_Some. split.
  - intros (Hyx & [[<- <-]|[Hyl Hk]]).
    + assert (i ≠ j) by (intros ->; congruence). split; [left; split_and!; [done..|lia]|lia].
    + assert (k ≠ j) by (intros ->; congruence). assert (k ≠ i) by (intros ->; congruence).
      apply lookup_lt_Some in Hk as Hlt. split; [right|lia]. done.
  - intros ([(<- & <- & _)|[Hki Hk]] & Hkj); split.
    + intros ->. assert (i = j) by (by eapply Hinj). lia.
    + by left.
    + intros <-. apply Hki. by eapply Hinj.
    + right. split; [|done]. intros <-. assert (k = j) by (by eapply Hinj). lia.
Qed.

(** Deleting a document never panics, keeps the invariant and removes that
    document only. *)
Lemma deleteCache_wf c vs x :
  cache_wf c vs →
  ∃ c' vs', deleteCache x c = Ok c' ∧ cache_wf c' vs' ∧
    ∀ y, cached c' y = if decide (y = x) then None else cached c y.
Proof.
  intros Hwf. pose proof Hwf as [Hf Hd Hl Hi]. unfold deleteCache.
  destruct (docIDIndex c !! x) as [i|] eqn:Hx.
  2:{ exists c, vs. split_and!; [done..|]. intros y. case_decide; [subst|done].
      unfold cached. by rewrite Hx. }
  pose proof (proj1 (Hi x i) Hx) as Hxi. pose proof (lookup_lt_Some _ _ _ Hxi) as Hlt.
  destruct (length (docIDs c)) as [|j] eqn:Hlen; [lia|].
  destruct (lookup_lt_is_Some_2 (docIDs c) j) as [last Hlast]; [lia|].
  destruct (lookup_lt_is_Some_2 vs j) as [vj Hvj]; [lia|].
  assert (length vj = d) as Hvjd by (by eapply (Forall_lookup_1 _ _ _ _ Hd)).
  match goal with |- context [mbind _ ?m] => assert (m =
    Ok (mkCache (<[i := last]> (docIDs c)) (concat (<[i := vj]> vs)) (<[last := i]> (docIDIndex c)))) as -> end.
  { destruct (decide (i = j)) as [->|Hij].
    - rewrite !list_insert_id by done. rewrite insert_id by (by apply Hi).
      rewrite <-Hf. by destruct c.
    - unfold load_at. rewrite Hlast. cbn [mbind res_bind]. unfold store. rewrite decide_True by lia.
      cbn [mbind res_bind]. rewrite Hf, (slice_concat j vj) by done. cbn [mbind res_bind].
      rewrite copy_slice_concat by (try done; lia). done. }
  assert (Forall (λ v : vector, length v = d) (<[i := vj]> vs)) as Hd' by (by apply Forall_insert).
  cbn [mbind res_bind docIDs docVectors docIDIndex]. rewrite (slice_prefix j) by (rewrite length_insert; lia).
  cbn [mbind res_bind]. rewrite (slice_prefix (j * d)) by (rewrite length_concat_dim, length_insert by done; nia).
  cbn [mbind res_bind]. rewrite take_concat_dim by done.
  set (c' := mkCache _ _ _).
  assert (cache_wf c' (take j (<[i := vj]> vs))) as Hwf'.
  { split; [done|by apply Forall_take| |].
    - unfold c'. cbn [docIDs]. rewrite !length_take, !length_insert. lia.
    - by apply swap_index. }
  exists c', (take j (<[i := vj]> vs)). split_and!; [done..|]. intros y.
  rewrite (cached_wf c' _ y Hwf'), (cached_wf c vs y Hwf). unfold c'. cbn [docIDIndex].
  case_decide as Hyx; [subst; by rewrite lookup_delete_eq|]. rewrite lookup_delete_ne by done.
  destruct (decide (y = last)) as [->|Hyl].
  - rewrite lookup_insert_eq, (proj2 (Hi last j) Hlast). cbn.
    assert (i ≠ j) by (intros ->; congruence).
    rewrite lookup_take_lt by lia. rewrite list_lookup_insert_eq by lia. done.
  - rewrite lookup_insert_ne by done. destruct (docIDIndex c !! y) as [k|] eqn:Hy; [|done]. cbn.
    apply Hi in Hy. assert (k ≠ j) by (intros ->; congruence). assert (k ≠ i) by (intros ->; congruence).
    apply lookup_lt_Some in Hy. rewrite lookup_take_lt, list_lookup_insert_ne by lia. done.
Qed.
End cache.
