(* ===== verification/HNSWSegment.v ===== *)
(** pkg/core/hnsw_segment.go: a segment of vectors.  Writes are appended to a
    log in the segment's bluge index and kept in memory; a background build
    applies the log to the document rows, builds an HNSW index (usearch) from
    them and then drops the applied log rows. *)
From S2P Require Import Prelude Hash Strconv Shards Runs VectorStore HNSWCache.

(** * float32 *)

(** The order of Go's [<] on float32 bit patterns: false on a NaN, and the two
    zeros are equal. *)
Definition f32_nan (x : Z) : bool := (0x7f800000 <? Z.land x 0x7fffffff)%Z.
Definition f32_key (x : Z) : Z := if decide (x < 2 ^ 31)%Z then x else (2 ^ 31 - x)%Z.
Definition f32_lt (x y : Z) : bool :=
  negb (f32_nan x) && negb (f32_nan y) && (f32_key x <? f32_key y)%Z.

(** * usearch, the HNSW library *)

(** What is used of unum-cloud/usearch: an index over 64-bit keys with the
    squared Euclidean metric, its serialised form, and the exhaustive search
    of a matrix of vectors.  An approximate search promises only that what it
    returns is in the index; the exhaustive one returns the nearest rows. *)
Class Usearch (Ix File : Type) := {
  ix_keys : Ix → gset Z;
  L2sq : vector → vector → Z;
  NewIndex : Z → res Ix;
  Reserve : Ix → Z → res Ix;
  Add : Ix → Z → vector → res Ix;
  Contains : Ix → Z → bool + string;
  Ix_Search : Ix → vector → Z → res (list Z);
  Save : Ix → res File;
  Load : Ix → File → res Ix;
  usearch_ExactSearch : vector → vector → nat → nat → nat → res (list nat * list Z);
  NewIndex_keys : ∀ n ix, NewIndex n = Ok ix → ix_keys ix = ∅;
  Reserve_keys : ∀ ix n ix', Reserve ix n = Ok ix' → ix_keys ix' = ix_keys ix;
  Add_keys : ∀ ix k v ix', Add ix k v = Ok ix' → ix_keys ix' = {[k]} ∪ ix_keys ix;
  Contains_keys : ∀ ix k b, Contains ix k = inl b → b = bool_decide (k ∈ ix_keys ix);
  Search_keys : ∀ ix q n ks, Ix_Search ix q n = Ok ks → NoDup ks ∧ ∀ k, k ∈ ks → k ∈ ix_keys ix;
  Load_Save : ∀ ix f ix0 ix', Save ix = Ok f → Load ix0 f = Ok ix' → ix_keys ix' = ix_keys ix;
  ExactSearch_spec : ∀ vs q dim limit keys dists,
    Forall (λ v : vector, length v = dim) vs → length q = dim → 0 < limit ≤ length vs →
    usearch_ExactSearch (concat vs) q (length vs) dim limit = Ok (keys, dists) →
    length keys = limit ∧ NoDup keys ∧
    (∀ i, i ∈ keys → i < length vs) ∧
    dists = (λ i, L2sq (nth i vs []) q) <$> keys ∧
    StronglySorted (λ x y, f32_lt y x = false) dists ∧
    ∀ i j, i ∈ keys → j < length vs → j ∉ keys → f32_lt (L2sq (nth j vs []) q) (L2sq (nth i vs []) q) = false
}.

(** * The segment *)

Section segment.
Context {W Ix File : Type} {bluge : Bluge W sdoc} {breader : BlugeReader W} {us : Usearch Ix File}.

(** The fields of [HNSWSegment], and what it has on disk: the bluge index
    [stored_vec] and the file [hnsw]. *)
Record seg := mkSeg {
  loaded : bool; writer_open : bool; hnswLogID : Z; latestLogID : Z;
  cache : vcache; docTS : gmap Z Z; index : option Ix;
  disk : W; hnsw_file : option File
}.

Definition set_loaded (b : bool) (s : seg) : seg :=
  mkSeg b (writer_open s) (hnswLogID s) (latestLogID s) (cache s) (docTS s) (index s) (disk s) (hnsw_file s).
Definition set_open (b : bool) (s : seg) : seg :=
  mkSeg (loaded s) b (hnswLogID s) (latestLogID s) (cache s) (docTS s) (index s) (disk s) (hnsw_file s).
Definition set_hnswLogID (n : Z) (s : seg) : seg :=
  mkSeg (loaded s) (writer_open s) n (latestLogID s) (cache s) (docTS s) (index s) (disk s) (hnsw_file s).
Definition set_latestLogID (n : Z) (s : seg) : seg :=
  mkSeg (loaded s) (writer_open s) (hnswLogID s) n (cache s) (docTS s) (index s) (disk s) (hnsw_file s).
Definition set_cache (c : vcache) (s : seg) : seg :=
  mkSeg (loaded s) (writer_open s) (hnswLogID s) (latestLogID s) c (docTS s) (index s) (disk s) (hnsw_file s).
Definition set_docTS (m : gmap Z Z) (s : seg) : seg :=
  mkSeg (loaded s) (writer_open s) (hnswLogID s) (latestLogID s) (cache s) m (index s) (disk s) (hnsw_file s).
Definition set_ix (ix : option Ix) (s : seg) : seg :=
  mkSeg (loaded s) (writer_open s) (hnswLogID s) (latestLogID s) (cache s) (docTS s) ix (disk s) (hnsw_file s).
Definition set_disk (w : W) (s : seg) : seg :=
  mkSeg (loaded s) (writer_open s) (hnswLogID s) (latestLogID s) (cache s) (docTS s) (index s) w (hnsw_file s).
Definition set_file (f : option File) (s : seg) : seg :=
  mkSeg (loaded s) (writer_open s) (hnswLogID s) (latestLogID s) (cache s) (docTS s) (index s) (disk s) f.

(** [newHNSWSegment], on what is already on disk. *)
Definition newHNSWSegment (w : W) (f : option File) : seg :=
  mkSeg false false 0 0 empty_cache ∅ None w f.

(** What the segment takes from outside: its dimensions, the configuration,
    the outcome of the calls that touch files, and the iteration order of Go
    maps. *)
Record env := mkEnv {
  dimensions : nat;
  StorageType : string;
  HNSWMaxLogs : Z;
  open_err : option string;
  exists_err : option string;
  load_err : option string;
  temp_err : option string;
  save_err : option string;
  row_order : map_order Z HNSWLogRow;
  delta_order : map_order Z Z;
  doc_order : set_order Z
}.

Context (e : env).

Definition on_cache (f : vcache → res vcache) : M seg unit := λ s,
  match f (cache s) with
  | Ok c => (Ok tt, set_cache c s)
  | Err x => (Err x, s)
  | Panic p => (Panic p, s)
  end.

(** [seg.writer.Reader()]; without a writer the call panics. *)
Definition get_reader : M seg W :=
  s ← get;
  if writer_open s then _ ← wrap "failed to get reader" (fails (Reader (disk s))); mret (disk s)
  else crash PNilDeref.

(** [writer.Batch(batch)]. *)
Definition write_batch (ops : list vop) : M seg unit :=
  s ← get;
  if writer_open s then
    let '(r, w) := Shards.Batch (disk s) (op_bluge <$> ops) in
    _ ← modify (set_disk w); wrap "failed to write bluge batch" (lift r)
  else crash PNilDeref.

(** ** Loading *)

Definition loadLogIDs (w : W) : M seg unit :=
  id ← wrap "failed to read hnsw log id" (lift (readLogID w "hnsw_log_id"));
  _ ← modify (set_hnswLogID id);
  id ← wrap "failed to read latest log id" (lift (readLogID w "latest_log_id"));
  modify (set_latestLogID id).

(** The newest row of each document. *)
Definition newest_step (logs : gmap Z HNSWLogRow) (row : HNSWLogRow) : gmap Z HNSWLogRow :=
  match logs !! row_DocID row with
  | Some r => if decide (row_ID r < row_ID row)%Z then <[row_DocID row := row]> logs else logs
  | None => <[row_DocID row := row]> logs
  end.
Definition newest : list HNSWLogRow → gmap Z HNSWLogRow := foldl newest_step ∅.

Definition cache_row (row : HNSWLogRow) : M seg unit :=
  _ ← on_cache (if row_DocDel row then deleteCache (dimensions e) (row_DocID row)
                else updateCache (dimensions e) (row_DocID row) (row_Vector row));
  modify (λ s, set_docTS (<[row_DocID row := row_ID row]> (docTS s)) s).

Definition loadLogs (w : W) : M seg unit :=
  '(rows, err) ← lift (readHNSWLogRows w);
  _ ← fails err;
  forM (λ kr, cache_row (snd kr)) (range (row_order e) (newest rows)).

Definition newIndex : M seg Ix :=
  wrap "failed to create index" (lift (NewIndex (Z.of_nat (dimensions e)))).

Definition loadHNSW : M seg unit :=
  _ ← wrap "failed to check if file exists" (fails (exists_err e));
  s ← get;
  match hnsw_file s with
  | None => mret tt
  | Some f =>
      _ ← wrap "failed to load file" (fails (load_err e));
      ix ← newIndex;
      ix ← wrap "failed to load hnsw" (lift (Load ix f));
      modify (set_ix (Some ix))
  end.

Definition known_storage (t : string) : bool := bool_decide (t ∈ ["disk"; "s3"; "oss"]).

Definition load : M seg unit :=
  s ← get;
  if loaded s then mret tt
  else if known_storage (StorageType e) then
    _ ← (if writer_open s then mret tt
         else (_ ← wrap "failed to open bluge writer" (fails (open_err e)); modify (set_open true)));
    w ← get_reader;
    _ ← wrap "failed to load log ids" (loadLogIDs w);
    _ ← wrap "failed to load logs" (loadLogs w);
    _ ← wrap "failed to load hnsw" loadHNSW;
    modify (set_loaded true)
  else raise ("invalid storage type: " +:+ StorageType e).

(** ** Batches *)

(** What a batch does to one document: deletions first, then additions. *)
Definition batch_changes (addIDs : list Z) (vectors : list vector) (delIDs : list Z) : list change :=
  ((λ x, (x, None)) <$> delIDs) ++ zip_with (λ x v, (x, Some v)) addIDs vectors.

(** The log rows of the changes, numbered from the latest log id on. *)
Definition log_step (st : Z * gmap Z Z * list vop) (c : change) : Z * gmap Z Z * list vop :=
  let '(latest, ts, ops) := st in
  let latest := int64 (latest + 1) in
  (latest, <[fst c := latest]> ts, ops ++ [PutLog latest c]).

Definition log_changes (latest : Z) (cs : list change) : Z * gmap Z Z * list vop :=
  foldl log_step (latest, ∅, []) cs.

(** [countDelta]: by how much the batch changes the number of documents. *)
Definition delta_map (addIDs delIDs : list Z) : gmap Z Z :=
  foldl (λ m x, <[x := 1%Z]> m) (foldl (λ m x, <[x := (-1)%Z]> m) ∅ delIDs) addIDs.

Definition delta_step (s : seg) (delta : Z) (dc : Z * Z) : res Z :=
  let '(docID, count) := dc in
  let removal := Ok (if decide (count < 0)%Z then delta + count else delta)%Z in
  let addition := Ok (if decide (0 < count)%Z then delta + count else delta)%Z in
  match docIDIndex (cache s) !! docID with
  | Some _ => removal
  | None =>
      match docTS s !! docID with
      | Some _ => addition
      | None =>
          match index s with
          | None => addition
          | Some ix =>
              match Contains ix (wrap64 docID) with
              | inl true => removal
              | inl false => addition
              | inr x => Err ("failed to check if index contains docID: " +:+ x)
              end
          end
      end
  end.

Definition countDelta (addIDs delIDs : list Z) (s : seg) : res Z :=
  foldM (delta_step s) 0%Z (range (delta_order e) (delta_map addIDs delIDs)).

Definition wrong_dimension (n : nat) : string := "wrong dimension for vector: " +:+ pretty n.

Definition check_batch (addIDs : list Z) (vectors : list vector) : M seg unit :=
  if decide (length addIDs = length vectors) then
    forM (λ v : vector, if decide (length v = dimensions e) then mret tt
                        else raise (wrong_dimension (length v))) vectors
  else raise "invalid parameters: size of docIDs and vectors not equal".

(** An error of [countDelta] is only logged. *)
Definition logged_count (r : res Z) : M seg Z :=
  match r with Err _ => mret 0%Z | r => lift r end.

(** [Batch] under the lock. *)
Definition Batch_locked (addIDs : list Z) (vectors : list vector) (delIDs : list Z) : M seg Z :=
  _ ← check_batch addIDs vectors;
  s ← get;
  let '(latest, ts, ops) := log_changes (latestLogID s) (batch_changes addIDs vectors delIDs) in
  _ ← write_batch (ops ++ [PutLatest latest]);
  s ← get;
  count ← logged_count (countDelta addIDs delIDs s);
  _ ← modify (set_latestLogID latest);
  _ ← forM (λ x, on_cache (deleteCache (dimensions e) x)) delIDs;
  _ ← forM (λ xv, on_cache (updateCache (dimensions e) (fst xv) (snd xv))) (zip addIDs vectors);
  _ ← modify (λ s, set_docTS (ts ∪ docTS s) s);
  mret count.

(** Beyond the threshold of unapplied logs the lock is given back while the
    rate limiter waits; the limiter itself cannot fail on a background
    context, so the batch is the same afterwards. *)
Definition Batch (addIDs : list Z) (vectors : list vector) (delIDs : list Z) : M seg Z :=
  _ ← wrap "failed to load" load;
  Batch_locked addIDs vectors delIDs.

Definition NeedRebuildHNSW : M seg bool := λ s,
  match load s with
  | (Ok _, s) => (Ok (HNSWMaxLogs e <? int64 (latestLogID s - hnswLogID s))%Z, s)
  | (Err _, s) => (Ok false, s)
  | (Panic p, s) => (Panic p, s)
  end.

(** ** The background build *)

(** [applyLogs]: the reader and the latest log id are taken together, the
    batch is written after the lock is released. *)
Definition apply_ops_of (latest : Z) (rows : list HNSWLogRow) : list vop :=
  (λ kr, let row := snd kr in
         if row_DocDel row then DelDoc (row_DocID row) else PutDoc (row_DocID row) (row_Vector row))
  <$> range (row_order e) (newest (filter (λ r, ¬ (latest < row_ID r)%Z) rows)).

Definition apply_read : M seg (Z * list vop) :=
  w ← get_reader;
  s ← get;
  '(rows, err) ← lift (readHNSWLogRows w);
  _ ← fails err;
  mret (latestLogID s, apply_ops_of (latestLogID s) rows).

Definition applyLogs : M seg Z :=
  '(logID, ops) ← apply_read;
  _ ← write_batch ops;
  mret logID.

(** [buildHNSW]: the index is filled from the document rows, saved to a
    temporary file, and the file moved to the storage. *)
Definition add_row (ix : Ix) (row : HNSWDocRow) : res Ix :=
  match Add ix (wrap64 (drow_ID row)) (drow_Vector row) with
  | Err x => Err ("failed to add index: " +:+ x)
  | r => r
  end.

Definition build_read : M seg (Ix * File) :=
  w ← get_reader;
  ix ← newIndex;
  size ← wrap "failed to count hnsw doc rows" (lift (countHNSWDocRows w));
  ix ← wrap "failed to reserve index" (lift (Reserve ix size));
  '(rows, err) ← lift (readHNSWDocRows w);
  ix ← lift (foldM add_row ix rows);
  _ ← fails err;
  _ ← wrap "failed to create temp file" (fails (temp_err e));
  f ← wrap "failed to save index" (lift (Save ix));
  mret (ix, f).

Definition build_save (f : File) : M seg unit :=
  _ ← wrap "failed to save index to storage" (fails (save_err e));
  modify (set_file (Some f)).

Definition buildHNSW : M seg Ix :=
  '(ix, f) ← build_read;
  _ ← build_save f;
  mret ix.

(** [cleanLogs]: the log rows up to [logID] are deleted in one batch, then
    the memory is brought up to date. *)
Definition clean_read (logID : Z) : M seg (list vop * gset Z) :=
  w ← get_reader;
  '(rows, err) ← lift (readHNSWLogRows w);
  let old := filter (λ r, ¬ (logID < row_ID r)%Z) rows in
  _ ← fails err;
  mret ((DelLog ∘ row_ID <$> old) ++ [PutHnsw logID], list_to_set (row_DocID <$> old)).

Definition clean_doc (logID docID : Z) : M seg unit :=
  s ← get;
  if decide (default 0%Z (docTS s !! docID) ≤ logID)%Z then
    _ ← on_cache (deleteCache (dimensions e) docID);
    modify (λ s, set_docTS (delete docID (docTS s)) s)
  else mret tt.

Definition clean_mem (logID : Z) (docs : gset Z) (ix : Ix) : M seg unit :=
  _ ← modify (set_hnswLogID logID);
  _ ← forM (clean_doc logID) (srange (doc_order e) docs);
  modify (set_ix (Some ix)).

Definition cleanLogs (logID : Z) (ix : Ix) : M seg unit :=
  '(ops, docs) ← clean_read logID;
  _ ← write_batch ops;
  clean_mem logID docs ix.

Definition BuildHNSW : M seg unit :=
  _ ← wrap "failed to load" load;
  logID ← wrap "failed to apply logs" applyLogs;
  ix ← wrap "failed to build hnsw" buildHNSW;
  wrap "failed to clean logs" (cleanLogs logID ix).

Definition Close : M seg unit := modify (λ s, set_open false (set_ix None s)).
End segment.
