(* ===== verification/HNSWRefine.v ===== *)
(** What a vector segment stores, as a map from document ids to vectors, and
    that batches, the phases of the background build, crashes and reloads keep
    the rows on disk, the memory and the HNSW index in agreement with it. *)
From S2P Require Import Prelude Hash Strconv Shards Runs VectorStore HNSWCache HNSWSegment.

(** * The newest change of a document *)

Definition no_log (logs : gmap Z change) (x : Z) : Prop :=
  ∀ i c, logs !! i = Some c → fst c ≠ x.

Definition newest_log (logs : gmap Z change) (x i : Z) (c : change) : Prop :=
  logs !! i = Some c ∧ fst c = x ∧ ∀ j c', logs !! j = Some c' → fst c' = x → (j ≤ i)%Z.

(** The log rows up to a log id. *)
Definition upto (n : Z) (logs : gmap Z change) : gmap Z change :=
  filter (λ ic, ¬ (n < fst ic)%Z) logs.

Lemma newest_log_fun logs x i j c c' :
  newest_log logs x i c → newest_log logs x j c' → i = j ∧ c = c'.
Proof.
  intros (Hi & Hx & Hmi) (Hj & Hx' & Hmj).
  assert (i = j) as -> by (apply (Z.le_antisymm); eauto). split; congruence.
Qed.

Lemma newest_log_some logs x i c : newest_log logs x i c → no_log logs x → False.
Proof. intros (Hi & Hx & _) Hno. by eapply Hno. Qed.

Lemma lookup_upto n logs i c : upto n logs !! i = Some c ↔ logs !! i = Some c ∧ (i ≤ n)%Z.
Proof. unfold upto. rewrite map_lookup_filter_Some. cbn. split; intros [? ?]; split; try done; lia. Qed.

(** [newest] on the rows of a table finds the newest change of each document. *)
Definition rows_of (rows : list HNSWLogRow) (logs : gmap Z change) : Prop :=
  NoDup (row_ID <$> rows) ∧ ∀ r, r ∈ rows ↔ ∃ i c, logs !! i = Some c ∧ r = log_row i c.

Lemma newest_snoc rows r : newest (rows ++ [r]) = newest_step (newest rows) r.
Proof. unfold newest. by rewrite foldl_app. Qed.

Lemma newest_max rows x :
  match newest rows !! x with
  | Some r => r ∈ rows ∧ row_DocID r = x ∧ ∀ r', r' ∈ rows → row_DocID r' = x → (row_ID r' ≤ row_ID r)%Z
  | None => ∀ r', r' ∈ rows → row_DocID r' ≠ x
  end.
Proof.
  induction rows as [|r rows IH] using rev_ind.
  - cbn. rewrite lookup_empty. intros r' []%elem_of_nil.
  - rewrite newest_snoc. unfold newest_step.
    assert (∀ r', r' ∈ rows ++ [r] ↔ r' ∈ rows ∨ r' = r) as Hel
      by (intros; by rewrite elem_of_app, list_elem_of_singleton).
    destruct (decide (row_DocID r = x)) as [Hr|Hr].
    + rewrite Hr. destruct (newest rows !! x) as [r0|] eqn:E.
      * destruct IH as (Hin & Hd & Hmax). case_decide as Hlt.
        -- rewrite lookup_insert_eq. split_and!; [apply Hel; by right|done|].
           intros r' [Hr'| ->]%Hel Hd'; [specialize (Hmax r' Hr' Hd'); lia|lia].
        -- rewrite E. split_and!; [apply Hel; by left|done|]. intros r' [Hr'| ->]%Hel Hd'; [by apply Hmax|lia].
      * rewrite lookup_insert_eq. split_and!; [apply Hel; by right|done|]. intros r' [Hr'| ->]%Hel Hd'; [|lia].
        by destruct (IH r' Hr').
    + assert (newest_step (newest rows) r !! x = newest rows !! x) as Hsame.
      { unfold newest_step. repeat case_match; by rewrite ?lookup_insert_ne by done. }
      unfold newest_step in Hsame. rewrite Hsame. destruct (newest rows !! x) as [r0|].
      * destruct IH as (Hin & Hd & Hmax). split_and!; [apply Hel; by left|done|].
        intros r' [Hr'| ->]%Hel Hd'; [by apply Hmax|done].
      * intros r' [Hr'| ->]%Hel; [by apply IH|done].
Qed.

Lemma newest_spec rows logs x :
  rows_of rows logs →
  match newest rows !! x with
  | Some r => ∃ i c, r = log_row i c ∧ newest_log logs x i c
  | None => no_log logs x
  end.
Proof.
  intros [_ Hrows]. pose proof (newest_max rows x) as Hm. destruct (newest rows !! x) as [r|].
  - destruct Hm as (Hin & Hd & Hmax). apply Hrows in Hin as (i & c & Hc & ->).
    exists i, c. split; [done|]. split_and!; [done|done|]. intros j c' Hj Hx.
    apply (Hmax (log_row j c')); [apply Hrows; eauto|done].
  - intros i c Hc. apply (Hm (log_row i c)). apply Hrows. eauto.
Qed.

Lemma rows_of_filter rows logs n :
  rows_of rows logs → rows_of (filter (λ r, ¬ (n < row_ID r)%Z) rows) (upto n logs).
Proof.
  intros [Hnd Hrows]. split; [by apply NoDup_fmap_filter|]. intros r.
  rewrite list_elem_of_filter, Hrows. setoid_rewrite lookup_upto. split.
  - intros (Hle & i & c & Hc & ->). cbn in Hle. exists i, c. split_and!; [done|lia|done].
  - intros (i & c & [Hc Hle] & ->). cbn. split; [lia|]. eauto.
Qed.

(** * What a segment stores *)

(** The newest change of a document, or else its document row. *)
Definition holds (t : tables) (x : Z) (o : option vector) : Prop :=
  (∃ i c, newest_log (t_logs t) x i c ∧ o = snd c) ∨ (no_log (t_logs t) x ∧ o = t_docs t !! x).

Definition stores (t : tables) (m : gmap Z vector) : Prop := ∀ x, holds t x (m !! x).

Definition apply_change (m : gmap Z vector) (c : change) : gmap Z vector :=
  match snd c with Some v => <[fst c := v]> m | None => delete (fst c) m end.

Lemma lookup_apply_change m c x :
  apply_change m c !! x = if decide (x = fst c) then snd c else m !! x.
Proof.
  unfold apply_change. destruct c as [y [v|]]; cbn; case_decide; subst;
    by rewrite ?lookup_insert_eq, ?lookup_delete_eq, ?lookup_insert_ne, ?lookup_delete_ne by congruence.
Qed.

(** What a batch means: the deletions, then the additions. *)
Definition batch_spec (addIDs : list Z) (vectors : list vector) (delIDs : list Z) (m : gmap Z vector)
    : gmap Z vector :=
  foldl apply_change m (batch_changes addIDs vectors delIDs).

(** ** One more log row *)

Lemma newest_insert logs n c x :
  (∀ i c', logs !! i = Some c' → (i < n)%Z) → fst c = x → newest_log (<[n := c]> logs) x n c.
Proof.
  intros Hb Hx. split_and!; [by rewrite lookup_insert_eq|done|].
  intros j c' [[<- _]|[_ Hj]]%lookup_insert_Some _; [lia|]. apply Hb in Hj. lia.
Qed.

Lemma newest_insert_ne logs n c x i c' :
  (∀ i c', logs !! i = Some c' → (i < n)%Z) → fst c ≠ x →
  newest_log (<[n := c]> logs) x i c' ↔ newest_log logs x i c'.
Proof.
  intros Hb Hx. unfold newest_log. split.
  - intros ([[_ <-]|[Hne Hi]]%lookup_insert_Some & Hxc & Hmax); [done|]. split_and!; [done..|].
    intros j cj Hj Hxj. apply (Hmax j cj); [|done]. rewrite lookup_insert_ne; [done|].
    intros <-. apply Hb in Hj. lia.
  - intros (Hi & Hxc & Hmax). split_and!; [|done|].
    + rewrite lookup_insert_ne; [done|]. intros <-. apply Hb in Hi. lia.
    + intros j cj [[_ <-]|[_ Hj]]%lookup_insert_Some Hxj; [done|]. by eapply Hmax.
Qed.

Lemma no_log_insert_ne logs n c x :
  (∀ i c', logs !! i = Some c' → (i < n)%Z) → fst c ≠ x →
  no_log (<[n := c]> logs) x ↔ no_log logs x.
Proof.
  intros Hb Hx. unfold no_log. split.
  - intros Hno i ci Hi. apply (Hno i). rewrite lookup_insert_ne; [done|]. intros <-.
    apply Hb in Hi. lia.
  - intros Hno i ci [[_ <-]|[_ Hi]]%lookup_insert_Some; [done|by eapply Hno].
Qed.

Lemma stores_insert t m n c :
  (∀ i c', t_logs t !! i = Some c' → (i < n)%Z) → stores t m →
  stores (mkTables (<[n := c]> (t_logs t)) (t_docs t) (t_latest t) (t_hnsw t)) (apply_change m c).
Proof.
  intros Hb Hm x. unfold holds. cbn [t_logs t_docs]. rewrite lookup_apply_change.
  case_decide as Hx.
  - left. exists n, c. split; [|done]. by apply newest_insert.
  - specialize (Hm x). destruct Hm as [(i & ci & Hn & ->)|[Hno ->]].
    + left. exists i, ci. split; [|done]. by apply newest_insert_ne.
    + right. split; [|done]. by apply no_log_insert_ne.
Qed.

(** * The invariant *)

Section refine.
Context {W Ix File : Type} {bluge : Bluge W sdoc} {breader : BlugeReader W} {us : Usearch Ix File}.
Context (e : env).

(** The background build between two of its steps. *)
Inductive phase : Type :=
  | Idle
  | LogsRead (logID : Z) (ops : list vop)
  | LogsApplied (logID : Z)
  | IndexBuilt (logID : Z) (ix : Ix) (f : File)
  | IndexSaved (logID : Z) (ix : Ix)
  | CleanRead (logID : Z) (ix : Ix) (ops : list vop) (docs : gset Z)
  | LogsDropped (logID : Z) (ix : Ix) (docs : gset Z).

Definition latest_of (t : tables) : Z := default 0%Z (t_latest t).

Definition has_dim (v : vector) : Prop := length v = dimensions e.
Definition change_dim (c : change) : Prop := ∀ v, snd c = Some v → has_dim v.

(** The documents whose rows are already dropped but which the memory still
    answers for. *)
Definition stale (ph : phase) (x n : Z) : Prop :=
  match ph with LogsDropped logID _ docs => (n ≤ logID)%Z ∧ x ∈ docs | _ => False end.

(** The memory agrees with the rows, document by document. *)
Record coherent (t : tables) (ph : phase) (ts : gmap Z Z) (cf : Z → option vector) : Prop := {
  coh_ts : ∀ x n, ts !! x = Some n →
    (∃ c, newest_log (t_logs t) x n c ∧ cf x = snd c) ∨
    (stale ph x n ∧ no_log (t_logs t) x ∧ cf x = t_docs t !! x);
  coh_cache : ∀ x v, cf x = Some v → is_Some (ts !! x)
}.

(** ... and knows of every document with a log row. *)
Definition complete (t : tables) (ts : gmap Z Z) : Prop :=
  ∀ x i c, newest_log (t_logs t) x i c → ts !! x = Some i.

Record bounded (t : tables) (latest : Z) : Prop := {
  bnd_latest : (0 ≤ latest)%Z;
  bnd_logs : ∀ i c, t_logs t !! i = Some c → (0 < i ≤ latest)%Z ∧ change_dim c;
  bnd_docs : ∀ x v, t_docs t !! x = Some v → has_dim v
}.

(** Membership in the HNSW index agrees with the document rows on the
    documents that satisfy [P]. *)
Definition covers (K : gset Z) (t : tables) (P : Z → Prop) : Prop :=
  ∀ x, is_int64 x → P x → (wrap64 x ∈ K ↔ is_Some (t_docs t !! x)).

Definition keys_of (ix : option Ix) : gset Z := match ix with Some ix => ix_keys ix | None => ∅ end.

Definition file_keys (f : option File) (K : gset Z) : Prop :=
  match f with None => K = ∅ | Some f => ∃ ix, Save ix = Ok f ∧ ix_keys ix = K end.

Definition applied (logID : Z) (t : tables) : Prop :=
  (0 ≤ logID ≤ latest_of t)%Z ∧ ∀ x i c, newest_log (upto logID (t_logs t)) x i c → t_docs t !! x = snd c.

Definition all_docs (x : Z) : Prop := True.

Definition saved (ix : Ix) (f : option File) : Prop := ∃ f', f = Some f' ∧ Save ix = Ok f'.

(** What each phase has established. *)
Definition phase_ok (ph : phase) (t : tables) (f : option File) : Prop :=
  match ph with
  | Idle => True
  | LogsRead logID ops =>
      (0 ≤ logID ≤ latest_of t)%Z ∧ Forall op_ok ops ∧ NoDup (op_key <$> ops) ∧
      Forall (λ o, match o with PutDoc _ v => has_dim v | DelDoc _ => True | _ => False end) ops ∧
      (∀ x i c, newest_log (upto logID (t_logs t)) x i c → ∀ t0, t_docs (apply_ops t0 ops) !! x = snd c) ∧
      (∀ x, no_log (upto logID (t_logs t)) x → ∀ t0, t_docs (apply_ops t0 ops) !! x = t_docs t0 !! x)
  | LogsApplied logID => applied logID t
  | IndexBuilt logID ix f' => applied logID t ∧ Save ix = Ok f' ∧ covers (ix_keys ix) t all_docs
  | IndexSaved logID ix => applied logID t ∧ saved ix f ∧ covers (ix_keys ix) t all_docs
  | CleanRead logID ix ops docs =>
      applied logID t ∧ saved ix f ∧ covers (ix_keys ix) t all_docs ∧ is_int64 logID ∧
      (∀ i c, upto logID (t_logs t) !! i = Some c → fst c ∈ docs) ∧
      ∃ ids, ops = (DelLog <$> ids) ++ [PutHnsw logID] ∧ NoDup ids ∧
             ∀ i, i ∈ ids ↔ is_Some (upto logID (t_logs t) !! i)
  | LogsDropped logID ix docs =>
      (logID ≤ latest_of t)%Z ∧ saved ix f ∧ covers (ix_keys ix) t all_docs ∧
      ∀ i c, t_logs t !! i = Some c → (logID < i)%Z
  end.

(** The segment and the build in progress store the map [m]. *)
Record inv_at (s : seg) (ph : phase) (m : gmap Z vector) (t : tables) : Prop := {
  inv_rep : represents (disk s) t;
  inv_stores : stores t m;
  inv_bounded : bounded t (latest_of t);
  inv_cache : cache_ok (dimensions e) (cache s);
  inv_coh : coherent t ph (docTS s) (cached (dimensions e) (cache s));
  inv_file : ∃ K, file_keys (hnsw_file s) K ∧ covers K t (no_log (t_logs t));
  inv_loaded : loaded s = true →
    latestLogID s = latest_of t ∧ writer_open s = true ∧ complete t (docTS s) ∧
    covers (keys_of (index s)) t (λ x, docTS s !! x = None);
  inv_fresh : loaded s = false → index s = None;
  inv_phase_loaded : ph ≠ Idle → loaded s = true;
  inv_phase : phase_ok ph t (hnsw_file s)
}.

Definition inv (s : seg) (ph : phase) (m : gmap Z vector) : Prop := ∃ t, inv_at s ph m t.

(** A fresh segment on an empty disk. *)
Lemma inv_new : inv (newHNSWSegment new_index None) Idle ∅.
Proof.
  exists no_rows. split; cbn; try done.
  - apply represents_new.
  - intros x. right. split; [|by rewrite !lookup_empty]. intros i c. cbn. by rewrite lookup_empty.
  - exists []. apply empty_cache_wf.
  - exists ∅. split; [done|]. intros x _ _. cbn. rewrite lookup_empty. split; [set_solver|by intros []].
Qed.

(** A crash loses the memory and the build. *)
Lemma inv_restart s ph m : inv s ph m → inv (newHNSWSegment (disk s) (hnsw_file s)) Idle m.
Proof.
  intros [t [Hr Hs Hb Hc Hco Hf Hl Hfr Hpl Hp]]. exists t. split; cbn; try done.
  - exists []. apply empty_cache_wf.
Qed.

(** ** Batches *)

Definition cf_change (cf : Z → option vector) (c : change) : Z → option vector :=
  λ x, if decide (x = fst c) then snd c else cf x.

Record log_inv (t : tables) (ph : phase) (ts : gmap Z Z) (cf : Z → option vector) (m : gmap Z vector)
    (latest : Z) : Prop := {
  li_stores : stores t m;
  li_coh : coherent t ph ts cf;
  li_complete : complete t ts;
  li_bounded : bounded t latest
}.

Lemma log_inv_step t ph ts cf m n c :
  log_inv t ph ts cf m n → change_dim c →
  log_inv (apply_op t (PutLog (n + 1) c)) ph (<[fst c := (n + 1)%Z]> ts) (cf_change cf c)
          (apply_change m c) (n + 1).
Proof.
  intros [Hs [Hts Hcf] Hcomp [H0 Hlogs Hdocs]] Hdim.
  assert (∀ i c', t_logs t !! i = Some c' → (i < n + 1)%Z) as Hb
    by (intros i c' Hi; destruct (Hlogs i c' Hi); lia).
  split; cbn [apply_op].
  - by apply stores_insert.
  - split; cbn [t_logs t_docs]; unfold cf_change.
    + intros x k Hk. destruct (decide (x = fst c)) as [->|Hx].
      * rewrite lookup_insert_eq in Hk. simplify_eq. left. exists c. split; [|done]. by apply newest_insert.
      * rewrite lookup_insert_ne in Hk by congruence.
        destruct (Hts x k Hk) as [(c' & Hn & Heq)|(Hst & Hno & Heq)].
        -- left. exists c'. split; [|done]. by apply newest_insert_ne.
        -- right. split_and!; [done| |done]. by apply no_log_insert_ne.
    + intros x v. destruct (decide (x = fst c)) as [->|Hx]; [rewrite lookup_insert_eq; by eauto|].
      rewrite lookup_insert_ne by congruence. apply Hcf.
  - intros x i c' Hn. cbn [t_logs] in Hn. destruct (decide (fst c = x)) as [<-|Hx].
    + rewrite lookup_insert_eq. f_equal.
      by destruct (newest_log_fun _ _ _ _ _ _ (newest_insert (t_logs t) (n + 1) c (fst c) Hb eq_refl) Hn).
    + rewrite lookup_insert_ne by done. apply newest_insert_ne in Hn; [by eapply Hcomp|done..].
  - split; cbn [t_logs t_docs]; [lia| |done].
    intros i c' [[<- <-]|[_ Hi]]%lookup_insert_Some; [split; [lia|done]|].
    destruct (Hlogs i c' Hi). split; [lia|done].
Qed.

Lemma apply_ops_app t ops ops' : apply_ops t (ops ++ ops') = apply_ops (apply_ops t ops) ops'.
Proof. apply foldl_app. Qed.

(** The keys of log rows numbered up to [n]. *)
Definition log_keys (n : Z) (ops : list vop) : Prop :=
  Forall op_ok ops ∧ NoDup (op_key <$> ops) ∧ ∀ o, o ∈ ops → ∃ i c, o = PutLog i c ∧ (0 < i ≤ n)%Z.

Lemma log_fold cs : ∀ t ph ts0 ts cf m n n' ops ts' ops',
  foldl log_step (n, ts0, ops) cs = (n', ts', ops') →
  log_inv (apply_ops t ops) ph (ts0 ∪ ts) cf m n → log_keys n ops →
  Forall change_ok cs → Forall change_dim cs → (n + Z.of_nat (length cs) < 2 ^ 63)%Z →
  n' = (n + Z.of_nat (length cs))%Z ∧ log_keys n' ops' ∧
  log_inv (apply_ops t ops') ph (ts' ∪ ts) (foldl cf_change cf cs) (foldl apply_change m cs) n' ∧
  ∃ new, ops' = ops ++ new ∧ ∀ o, o ∈ new → ∃ i c, o = PutLog i c ∧ (n < i)%Z.
Proof.
  induction cs as [|c cs IH]; intros t ph ts0 ts cf m n n' ops ts' ops' Hfold Hinv Hkeys Hok Hdim Hlt.
  - cbn in *. simplify_eq. split_and!; [lia|done..|]. exists []. rewrite app_nil_r. split; [done|set_solver].
  - apply Forall_cons in Hok as [Hc Hok]. apply Forall_cons in Hdim as [Hd Hdim]. cbn [length] in Hlt.
    pose proof (bnd_latest _ _ (li_bounded _ _ _ _ _ _ Hinv)) as H0.
    cbn [foldl] in Hfold. unfold log_step at 2 in Hfold. rewrite int64_small in Hfold by lia.
    destruct Hkeys as (Hopok & Hnd & Hlog).
    apply (IH t ph _ ts (cf_change cf c) (apply_change m c)) in Hfold as (-> & Hk' & Hi' & new & -> & Hnew).
    + split_and!; [cbn [length]; lia|done|done|]. rewrite <-app_assoc. eexists. split; [done|].
      intros o [->|Ho]%elem_of_cons; [by exists (n + 1)%Z, c; split; [done|lia]|].
      destruct (Hnew o Ho) as (i & c' & -> & Hi). exists i, c'. split; [done|lia].
    + rewrite apply_ops_app, <-insert_union_l. cbn [apply_ops foldl]. by apply log_inv_step.
    + split_and!.
      * apply Forall_app. split; [done|]. apply Forall_singleton. split; [|done]. unfold is_int64. lia.
      * rewrite fmap_app. apply NoDup_app. split_and!; [done| |by apply NoDup_singleton].
        intros k (o & -> & Ho)%list_elem_of_fmap Hk%list_elem_of_singleton.
        destruct (Hlog o Ho) as (i & c' & -> & Hi). cbn in Hk. simplify_eq. lia.
      * intros o [Ho|Ho%list_elem_of_singleton]%elem_of_app.
        -- destruct (Hlog o Ho) as (i & c' & -> & Hi). exists i, c'. split; [done|lia].
        -- exists (n + 1)%Z, c. split; [done|lia].
    + done.
    + done.
    + lia.
Qed.

Definition cache_op (c : change) : vcache → res vcache :=
  match snd c with
  | Some v => updateCache (dimensions e) (fst c) v
  | None => deleteCache (dimensions e) (fst c)
  end.

Local Abbreviation cached := (cached (dimensions e)).
Local Abbreviation cache_ok := (cache_ok (dimensions e)).

Lemma cache_op_ok c ca :
  cache_ok ca → change_dim c →
  ∃ ca', cache_op c ca = Ok ca' ∧ cache_ok ca' ∧ ∀ x, cached ca' x = cf_change (cached ca) c x.
Proof.
  intros [vs Hwf] Hd. destruct c as [x [v|]]; unfold cache_op, cf_change; cbn [fst snd].
  - destruct (updateCache_wf _ _ _ x v Hwf (Hd v eq_refl)) as (ca' & vs' & -> & Hwf' & Hc).
    exists ca'. split_and!; [done|by exists vs'|done].
  - destruct (deleteCache_wf _ _ _ x Hwf) as (ca' & vs' & -> & Hwf' & Hc).
    exists ca'. split_and!; [done|by exists vs'|done].
Qed.

Lemma foldl_cf_ext cs : ∀ cf cf', (∀ x, cf x = cf' x) → ∀ x, foldl cf_change cf cs x = foldl cf_change cf' cs x.
Proof.
  induction cs as [|c cs IH]; intros cf cf' Heq x; [done|]. cbn. apply IH. intros y.
  unfold cf_change. case_decide; [done|apply Heq].
Qed.

(** Running changes over the cache never panics and changes nothing else. *)
Lemma forM_cache {A} (g : A → change) l : ∀ s : @seg W Ix File,
  cache_ok (cache s) → Forall (λ a, change_dim (g a)) l →
  ∃ ca, forM (λ a, on_cache (cache_op (g a))) l s = (Ok tt, set_cache ca s) ∧ cache_ok ca ∧
    ∀ x, cached ca x = foldl cf_change (cached (cache s)) (g <$> l) x.
Proof.
  induction l as [|a l IH]; intros s Hok Hd.
  - exists (cache s). split_and!; [by destruct s|done|done].
  - apply Forall_cons in Hd as [Ha Hd].
    destruct (cache_op_ok (g a) _ Hok Ha) as (ca & Hop & Hok' & Hca).
    destruct (IH (set_cache ca s) Hok' Hd) as (ca' & Hf & Hok'' & Hca').
    exists ca'. split_and!; [|done|].
    + cbn [forM]. unfold mbind, M_bind, on_cache at 1. rewrite Hop. by rewrite Hf.
    + intros x. rewrite Hca', fmap_cons. cbn [foldl cache set_cache]. by apply foldl_cf_ext.
Qed.

Lemma coherent_ext t ph ts cf cf' :
  (∀ x, cf' x = cf x) → coherent t ph ts cf → coherent t ph ts cf'.
Proof.
  intros Heq [H1 H2]. split; [intros x n; rewrite Heq; apply H1|intros x v; rewrite Heq; apply H2].
Qed.

(** A later table: new log rows above [latest_of t] only. *)
Record later (t t' : tables) : Prop := {
  lt_docs : t_docs t' = t_docs t;
  lt_latest : (latest_of t ≤ latest_of t')%Z;
  lt_old : ∀ i, (i ≤ latest_of t)%Z → t_logs t' !! i = t_logs t !! i
}.

Lemma puts_logs n ops : ∀ t,
  (∀ o, o ∈ ops → ∃ i c, o = PutLog i c ∧ (n < i)%Z) →
  t_docs (apply_ops t ops) = t_docs t ∧ t_latest (apply_ops t ops) = t_latest t ∧
  ∀ i, (i ≤ n)%Z → t_logs (apply_ops t ops) !! i = t_logs t !! i.
Proof.
  induction ops as [|o ops IH]; intros t Hops; [done|]. cbn [apply_ops foldl].
  destruct (Hops o) as (i & c & -> & Hi); [by left|].
  destruct (IH (apply_op t (PutLog i c))) as (Hd & Hl & Ho); [intros o Ho; apply Hops; by right|].
  rewrite Hd, Hl. split_and!; [done..|]. intros j Hj. rewrite Ho by done. cbn.
  by rewrite lookup_insert_ne by lia.
Qed.

Lemma upto_later t t' n : later t t' → (n ≤ latest_of t)%Z → upto n (t_logs t') = upto n (t_logs t).
Proof.
  intros [_ _ Hold] Hn. apply map_eq. intros i. apply option_eq. intros c. rewrite !lookup_upto.
  split; intros [Hc Hi]; (split; [|done]); by rewrite <-Hc, Hold by lia.
Qed.

Lemma covers_later K t t' (P Q : Z → Prop) :
  later t t' → (∀ x, Q x → P x) → covers K t P → covers K t' Q.
Proof. intros Hl HQ Hc x Hx Hq. rewrite (lt_docs _ _ Hl). auto. Qed.

Lemma applied_later n t t' : later t t' → applied n t → applied n t'.
Proof.
  intros Hl [Hn Ha]. pose proof (lt_latest _ _ Hl). split; [lia|]. intros x i c.
  rewrite (upto_later t t'), (lt_docs _ _ Hl) by (done || lia). apply Ha.
Qed.

Lemma phase_later ph t t' f : later t t' → phase_ok ph t f → phase_ok ph t' f.
Proof.
  intros Hl. pose proof (lt_latest _ _ Hl) as Hlat.
  assert (∀ ix, covers (ix_keys ix) t all_docs → covers (ix_keys ix) t' all_docs) as Hcov
    by (intros ix; by apply covers_later).
  pose proof (λ n, applied_later n _ _ Hl) as Happ.
  destruct ph; cbn; try (by naive_solver).
  - intros (Hn & Hrest). rewrite (upto_later t t') by (done || lia). split; [lia|done].
  - intros ([Hn Ha] & Hs & Hc & Hi & Hdocs & Hops). rewrite (upto_later t t') by (done || lia).
    split_and!; [by apply Happ|done|by apply Hcov|done..].
  - intros (Hn & Hs & Hc & Hlogs). split_and!; [lia|done|by apply Hcov|].
    intros i c Hi. destruct (decide (i ≤ latest_of t)%Z); [|lia].
    rewrite (lt_old _ _ Hl) in Hi by done. by eapply Hlogs.
Qed.

Lemma no_log_later t t' n x :
  later t t' → bounded t n → n = latest_of t → no_log (t_logs t') x → no_log (t_logs t) x.
Proof.
  intros Hl Hb -> Hno i c Hi. apply (Hno i). destruct (bnd_logs _ _ Hb i c Hi).
  by rewrite (lt_old _ _ Hl) by lia.
Qed.

(** ** What the memory knows about a document *)

Lemma mem_view s ph m t x :
  inv_at s ph m t → loaded s = true →
  match docTS s !! x with
  | Some _ => m !! x = cached (cache s) x
  | None => m !! x = t_docs t !! x ∧ cached (cache s) x = None
  end.
Proof.
  intros Hinv Hl. destruct (inv_loaded _ _ _ _ Hinv Hl) as (_ & _ & Hcomp & _).
  destruct (inv_coh _ _ _ _ Hinv) as [Hts Hcf]. pose proof (inv_stores _ _ _ _ Hinv x) as Hx.
  destruct (docTS s !! x) as [n|] eqn:E.
  - destruct (Hts x n E) as [(c & Hn & ->)|(_ & Hno & ->)].
    + destruct Hx as [(i & c' & Hn' & ->)|[Hno _]].
      * by destruct (newest_log_fun _ _ _ _ _ _ Hn Hn') as [_ ->].
      * by destruct (newest_log_some _ _ _ _ Hn Hno).
    + destruct Hx as [(i & c' & Hn' & _)|[_ ->]]; [|done]. by destruct (newest_log_some _ _ _ _ Hn' Hno).
  - split.
    + destruct Hx as [(i & c & Hn & _)|[_ ->]]; [|done]. apply Hcomp in Hn. congruence.
    + destruct (cached (cache s) x) as [v|] eqn:Hv; [|done]. apply Hcf in Hv as [? ?]. congruence.
Qed.

Lemma cached_index ca x : is_Some (docIDIndex ca !! x) ↔ is_Some (cached ca x).
Proof. unfold HNSWCache.cached. by rewrite fmap_is_Some. Qed.

(** ** The number of documents *)

Definition delta_of (m : gmap Z vector) (xc : Z * Z) : Z :=
  if decide (snd xc < 0)%Z then match m !! fst xc with Some _ => (-1)%Z | None => 0%Z end
  else match m !! fst xc with Some _ => 0%Z | None => 1%Z end.

Lemma delta_step_spec s ph m t delta x c n :
  inv_at s ph m t → loaded s = true → is_int64 x → (c = 1 ∨ c = -1)%Z →
  delta_step s delta (x, c) = Ok n → n = (delta + delta_of m (x, c))%Z.
Proof.
  intros Hinv Hl Hx Hc. pose proof (mem_view _ _ _ _ x Hinv Hl) as Hv.
  destruct (inv_loaded _ _ _ _ Hinv Hl) as (_ & _ & _ & Hcov). unfold delta_step, delta_of. cbn [fst snd].
  destruct (docIDIndex (cache s) !! x) as [i|] eqn:Hi.
  - destruct (proj1 (cached_index (cache s) x)) as [v Hcv]; [by eauto|].
    destruct (docTS s !! x); [|destruct Hv; congruence].
    rewrite Hv, Hcv. intros [= <-]. destruct Hc as [-> | ->]; repeat case_decide; lia.
  - assert (cached (cache s) x = None) as Hcn.
    { apply eq_None_not_Some. rewrite <-cached_index, Hi. by intros []. }
    destruct (docTS s !! x) as [k|] eqn:Hts.
    + rewrite Hv, Hcn. intros [= <-]. destruct Hc as [-> | ->]; repeat case_decide; lia.
    + destruct Hv as [-> _]. specialize (Hcov x Hx Hts).
      assert (∀ b, b = bool_decide (wrap64 x ∈ keys_of (index s)) →
                   match t_docs t !! x with Some _ => true | None => false end = b) as Hb.
      { intros b ->. destruct (t_docs t !! x); case_bool_decide as Hk; try done.
        - exfalso. apply Hk, Hcov. eauto.
        - apply Hcov in Hk as [? ?]. done. }
      destruct (index s) as [ix|].
      * destruct (Contains ix (wrap64 x)) as [[]|] eqn:Hct; [..|done];
          apply Contains_keys, Hb in Hct; destruct (t_docs t !! x); try done;
          intros [= <-]; destruct Hc as [-> | ->]; repeat case_decide; lia.
      * specialize (Hb false ltac:(cbn; rewrite bool_decide_false by set_solver; done)).
        destruct (t_docs t !! x); [done|]. intros [= <-]; destruct Hc as [-> | ->]; repeat case_decide; lia.
Qed.

Definition sumZ (l : list Z) : Z := foldr Z.add 0%Z l.

Lemma foldM_sum {A} (f : Z → A → res Z) (g : A → Z) l : ∀ a n,
  (∀ a x n, x ∈ l → f a x = Ok n → n = (a + g x)%Z) → foldM f a l = Ok n → n = (a + sumZ (g <$> l))%Z.
Proof.
  induction l as [|x l IH]; intros a n Hf; cbn [foldM]; [intros [= <-]; cbn; lia|].
  destruct (f a x) as [a'| |] eqn:E; cbn [mbind res_bind]; [|done..]. intros Hn.
  apply Hf in E as ->; [|by left]. apply IH in Hn as ->; [rewrite fmap_cons; cbn [sumZ foldr]; unfold sumZ; lia|]. intros ??? Hin. apply Hf. by right.
Qed.

Lemma size_delta l : ∀ m m' : gmap Z vector,
  NoDup l.*1 → (∀ x c, (x, c) ∈ l → c = 1%Z ∧ is_Some (m' !! x) ∨ c = (-1)%Z ∧ m' !! x = None) →
  (∀ x, x ∉ l.*1 → is_Some (m' !! x) ↔ is_Some (m !! x)) →
  Z.of_nat (size m') = (Z.of_nat (size m) + sumZ (delta_of m <$> l))%Z.
Proof.
  induction l as [|[x c] l IH]; intros m m' Hnd Hl Hout.
  - cbn. rewrite Z.add_0_r. f_equal. rewrite <-!size_dom. f_equal. apply set_eq. intros x.
    rewrite !elem_of_dom. apply Hout. cbn. set_solver.
  - cbn in Hnd. apply NoDup_cons in Hnd as [Hx Hnd].
    set (m1 := if decide (c < 0)%Z then delete x m
               else match m !! x with Some _ => m | None => <[x := []]> m end).
    assert (∀ y, y ≠ x → m1 !! y = m !! y) as Hm1.
    { intros y Hy. unfold m1. case_decide; [by rewrite lookup_delete_ne|].
      destruct (m !! x); [done|by rewrite lookup_insert_ne]. }
    rewrite (IH m1 m' Hnd); [|intros y d Hy; apply Hl; by right|].
    + assert (delta_of m1 <$> l = delta_of m <$> l) as ->.
      { apply list_fmap_ext. intros _ [y d] Hy%list_elem_of_lookup_2. unfold delta_of. cbn [fst].
        rewrite Hm1; [done|]. intros ->. apply Hx. apply list_elem_of_fmap. by exists (x, d). }
      rewrite fmap_cons. cbn [sumZ foldr]. rewrite Z.add_assoc. f_equal.
      unfold m1, delta_of. cbn [fst snd]. case_decide.
      * rewrite map_size_delete. destruct (m !! x) eqn:E; [|by rewrite Z.add_0_r].
        assert (size m ≠ 0) by (intros Hz; apply map_size_empty_inv in Hz; subst; by rewrite lookup_empty in E). lia.
      * destruct (m !! x) eqn:E; [lia|]. rewrite map_size_insert, E. lia.
    + intros y Hy. destruct (decide (y = x)) as [->|Hyx].
      * unfold m1. destruct (Hl x c) as [[-> Hs]|[-> Hs]]; [by left|..].
        -- rewrite decide_False by lia. destruct (m !! x) eqn:E; [rewrite E; by split; eauto|rewrite lookup_insert_eq; by split; eauto].
        -- rewrite decide_True by lia. by rewrite Hs, lookup_delete_eq.
      * rewrite Hm1 by done. apply Hout. cbn. set_solver.
Qed.

Lemma lookup_foldl_const {A} (a : A) l : ∀ (m : gmap Z A) x,
  foldl (λ m y, <[y := a]> m) m l !! x = if decide (x ∈ l) then Some a else m !! x.
Proof.
  induction l as [|y l IH]; intros m x; cbn [foldl]; [by rewrite decide_False by set_solver|].
  rewrite IH. destruct (decide (x = y)) as [->|Hne].
  - rewrite lookup_insert_eq. rewrite (decide_True (P := y ∈ y :: l)) by set_solver. by case_decide.
  - rewrite lookup_insert_ne by done. by do 2 case_decide; set_solver.
Qed.

Lemma lookup_delta_map add del x :
  delta_map add del !! x = if decide (x ∈ add) then Some 1%Z
                           else if decide (x ∈ del) then Some (-1)%Z else None.
Proof. unfold delta_map. by rewrite !lookup_foldl_const, lookup_empty. Qed.

Lemma foldl_deletes del : ∀ m x,
  foldl apply_change m ((λ y, (y, None)) <$> del) !! x = if decide (x ∈ del) then None else m !! x.
Proof.
  induction del as [|y del IH]; intros m x; [by rewrite decide_False by set_solver|].
  rewrite fmap_cons. cbn [foldl]. rewrite IH, lookup_apply_change. cbn [fst snd].
  repeat case_decide; try done; set_solver.
Qed.

Lemma foldl_adds add : ∀ vs m x, length add = length vs →
  (x ∈ add → is_Some (foldl apply_change m (zip_with (λ y v, (y, Some v)) add vs) !! x)) ∧
  (x ∉ add → foldl apply_change m (zip_with (λ y v, (y, Some v)) add vs) !! x = m !! x).
Proof.
  induction add as [|y add IH]; intros [|v vs] m x Hlen; try done; [by split; [set_solver|]|].
  cbn [zip_with foldl]. injection Hlen as Hlen.
  destruct (IH vs (apply_change m (y, Some v)) x Hlen) as [H1 H2]. split.
  - intros Hx. destruct (decide (x ∈ add)) as [Hin|Hni]; [by apply H1|].
    rewrite H2, lookup_apply_change by done. rewrite decide_True; [by eauto|]. set_solver.
  - intros Hx. rewrite H2, lookup_apply_change by set_solver. rewrite decide_False; [done|]. set_solver.
Qed.

(** The counted difference is the change in the number of documents. *)
Lemma countDelta_size s ph m t add vs del n :
  inv_at s ph m t → loaded s = true → Forall is_int64 add → Forall is_int64 del → length add = length vs →
  countDelta e add del s = Ok n → Z.of_nat (size (batch_spec add vs del m)) = (Z.of_nat (size m) + n)%Z.
Proof.
  intros Hinv Hl Hadd Hdel Hlen Hn. unfold countDelta in Hn.
  assert (∀ x c, (x, c) ∈ range (delta_order e) (delta_map add del) →
    is_int64 x ∧ (c = 1%Z ∧ x ∈ add ∨ c = (-1)%Z ∧ x ∉ add ∧ x ∈ del)) as Hr.
  { intros x c Hx. rewrite range_elem, lookup_delta_map in Hx. rewrite Forall_forall in Hadd, Hdel.
    repeat case_decide; simplify_eq; naive_solver. }
  apply (foldM_sum _ (delta_of m)) in Hn.
  2:{ intros a [x c] k Hx. apply (delta_step_spec _ ph _ t); [done..|by apply (Hr x c)|].
      destruct (Hr x c Hx) as [_ [[-> _]|[-> _]]]; auto. }
  subst n. rewrite Z.add_0_l. apply size_delta.
  - apply range_nodup.
  - intros x c Hx. destruct (Hr x c Hx) as [_ [[-> Hin]|(-> & Hni & Hin)]]; [left|right]; (split; [done|]);
      unfold batch_spec, batch_changes; rewrite foldl_app; destruct (foldl_adds add vs
        (foldl apply_change m ((λ y, (y, None)) <$> del)) x Hlen) as [H1 H2]; [by apply H1|].
    rewrite H2, foldl_deletes by done. by rewrite decide_True.
  - intros x Hx. assert (x ∉ add ∧ x ∉ del) as [Hna Hnd].
    { assert (delta_map add del !! x = None) as Hd.
      { apply eq_None_not_Some. intros [c Hc]. apply Hx, list_elem_of_fmap. exists (x, c).
        split; [done|]. by apply range_elem. }
      rewrite lookup_delta_map in Hd. repeat case_decide; done. }
    unfold batch_spec, batch_changes. rewrite foldl_app.
    destruct (foldl_adds add vs (foldl apply_change m ((λ y, (y, None)) <$> del)) x Hlen) as [_ H2].
    by rewrite H2, foldl_deletes, decide_False by done.
Qed.

(** ** Writing *)

Lemma check_batch_inv (s : @seg W Ix File) add vs r s' :
  check_batch e add vs s = (r, s') →
  s' = s ∧ (r = Ok tt → length add = length vs ∧ Forall has_dim vs).
Proof.
  unfold check_batch. case_decide as Hlen; [|by intros [= <- <-]].
  assert (∀ r s', forM (λ v : vector, if decide (length v = dimensions e) then mret tt
      else raise (wrong_dimension (length v))) vs s = (r, s') → s' = s ∧ (r = Ok tt → Forall has_dim vs)) as Hf.
  { clear Hlen. induction vs as [|v vs IH]; intros r0 s0; cbn [forM]; [intros [= <- <-]; by split|].
    unfold mbind, M_bind. case_decide as Hv; [|by intros [= <- <-]]. cbn.
    intros [-> H]%IH. split; [done|]. intros Hr. constructor; [done|]. by apply H. }
  intros [-> Hd]%Hf. split; [done|]. intros Hr. split; [done|]. by apply Hd.
Qed.

Lemma write_batch_inv (s : @seg W Ix File) t ops r s' :
  represents (disk s) t → writer_open s = true → Forall op_ok ops → NoDup (op_key <$> ops) →
  write_batch ops s = (r, s') →
  ∃ w, s' = set_disk w s ∧
    (r = Ok tt ∧ represents w (apply_ops t ops) ∨ r ≠ Ok tt ∧ represents w t).
Proof.
  intros Hrep Hopen Hok Hnd. unfold write_batch, mbind, M_bind, get. rewrite Hopen.
  destruct (Shards.Batch (disk s) (op_bluge <$> ops)) as [r0 w] eqn:HB. unfold modify, wrap, lift.
  intros Heq. exists w. destruct (decide (r0 = Ok tt)) as [->|Hne].
  - simplify_eq. split; [done|]. left. split; [done|]. by eapply write_represents.
  - assert (represents w t) as Hrep' by (eapply represents_ext; [by eapply Batch_failed|done]).
    destruct r0 as [[]|err|p]; simplify_eq; (split; [done|]); right; done.
Qed.

Lemma inv_set_disk s ph m t w : inv_at s ph m t → represents w t → inv_at (set_disk w s) ph m t.
Proof. intros [Hr Hs Hb Hc Hco Hf Hl Hfr Hpl Hp] Hw. by split. Qed.

Lemma latest_PutLatest t ops n :
  apply_ops t (ops ++ [PutLatest n]) =
  mkTables (t_logs (apply_ops t ops)) (t_docs (apply_ops t ops)) (Some n) (t_hnsw (apply_ops t ops)).
Proof. by rewrite apply_ops_app. Qed.

Definition batch_ok (add : list Z) (vs : list vector) (del : list Z) : Prop :=
  Forall is_int64 add ∧ Forall is_int64 del ∧ Forall (Forall is_float32) vs.

Lemma batch_changes_ok add vs del :
  batch_ok add vs del → Forall has_dim vs →
  Forall change_ok (batch_changes add vs del) ∧ Forall change_dim (batch_changes add vs del).
Proof.
  intros (Ha & Hd & Hv) Hdim. unfold batch_changes. rewrite !Forall_app, !Forall_fmap. split_and!.
  - eapply Forall_impl; [exact Hd|]. intros x Hx. by split.
  - clear Hd Hdim. revert vs Hv. induction Ha as [|x add Hx Ha IH]; intros [|v vs] Hv; constructor.
    + apply Forall_cons in Hv as [Hv _]. by split.
    + apply IH. by apply Forall_cons in Hv as [_ ?].
  - apply Forall_true. intros x v. done.
  - clear Ha Hd Hv. revert add. induction Hdim as [|v vs Hv Hvs IH]; intros [|x add]; constructor.
    + intros v' [= <-]. done.
    + apply IH.
Qed.

Lemma length_batch_changes add vs del :
  length add = length vs → length (batch_changes add vs del) = length add + length del.
Proof. intros Hl. unfold batch_changes. rewrite length_app, length_fmap, length_zip_with. lia. Qed.

(** The rows a batch writes, and the memory it leaves. *)
Lemma batch_tables s ph m t cs n ts ops :
  inv_at s ph m t → loaded s = true → Forall change_ok cs → Forall change_dim cs →
  (latestLogID s + Z.of_nat (length cs) < 2 ^ 63)%Z →
  log_changes (latestLogID s) cs = (n, ts, ops) →
  let ops := ops ++ [PutLatest n] in
  Forall op_ok ops ∧ NoDup (op_key <$> ops) ∧ later t (apply_ops t ops) ∧ latest_of (apply_ops t ops) = n ∧
  log_inv (apply_ops t ops) ph (ts ∪ docTS s) (foldl cf_change (cached (cache s)) cs)
          (foldl apply_change m cs) n.
Proof.
  intros Hinv Hl Hok Hdim Hlt Hlog.
  destruct (inv_loaded _ _ _ _ Hinv Hl) as (Hlat & _ & Hcomp & _).
  pose proof (bnd_latest _ _ (inv_bounded _ _ _ _ Hinv)) as H0. rewrite <-Hlat in H0.
  apply (log_fold cs t ph ∅ (docTS s) (cached (cache s)) m) in Hlog
    as (-> & (Hopok & Hnd & Hkeys) & Hli & new & Hnew & Hn); [|..|done|done|done].
  2:{ split; rewrite ?map_empty_union; [apply Hinv|apply Hinv|done|]. rewrite Hlat. apply Hinv. }
  2:{ split_and!; [constructor|constructor|set_solver]. }
  cbv zeta. rewrite latest_PutLatest. cbn [app] in Hnew. subst new.
  destruct (puts_logs _ _ t Hn) as (Hd & Hla & Hold). split_and!.
  - apply Forall_app. split; [done|]. apply Forall_singleton. cbn. unfold is_int64. lia.
  - rewrite fmap_app. apply NoDup_app. split_and!; [done| |by apply NoDup_singleton].
    intros k (o & -> & Ho)%list_elem_of_fmap Hk%list_elem_of_singleton.
    by destruct (Hkeys o Ho) as (i & c & -> & _).
  - split; cbn [t_docs t_logs latest_of t_latest]; unfold latest_of; cbn; [done|unfold latest_of in Hlat; lia|].
    intros i Hi. apply Hold. rewrite Hlat. exact Hi.
  - done.
  - destruct Hli as [H1 H2 H3 H4]. split; [exact H1| | |].
    + destruct H2. by split.
    + exact H3.
    + destruct H4. by split.
Qed.

Lemma changes_zip (add : list Z) : ∀ vs : list vector,
  (λ xv : Z * vector, (fst xv, Some (snd xv))) <$> zip add vs = zip_with (λ x v, (x, Some v)) add vs.
Proof. induction add as [|x add IH]; intros [|v vs]; [done..|]. cbn. by rewrite <-IH. Qed.

(** A batch under the lock either stores its changes, and counts them, or
    fails and leaves what is stored. *)
Lemma Batch_locked_inv s ph m add vs del r s' :
  inv s ph m → loaded s = true → batch_ok add vs del →
  (latestLogID s + Z.of_nat (length add + length del) < 2 ^ 63)%Z →
  Batch_locked e add vs del s = (r, s') →
  loaded s' = true ∧
  match r with
  | Ok n => inv s' ph (batch_spec add vs del m) ∧
            (is_ok (countDelta e add del s) = true →
             Z.of_nat (size (batch_spec add vs del m)) = (Z.of_nat (size m) + n)%Z)
  | _ => inv s' ph m
  end.
Proof.
  intros [t Hinv] Hl Hbok Hlt. unfold Batch_locked. unfold mbind, M_bind at 1.
  destruct (check_batch e add vs s) as [r0 s0] eqn:Hck.
  apply check_batch_inv in Hck as [-> Hck].
  destruct r0 as [[]| |]; [|intros [= <- <-]; split; [done|by exists t]..].
  destruct (Hck eq_refl) as [Hlen Hdim].
  destruct (batch_changes_ok add vs del Hbok Hdim) as [Hcok Hcdim].
  unfold get, M_bind at 1.
  destruct (log_changes (latestLogID s) (batch_changes add vs del)) as [[n ts] ops] eqn:Hlog.
  rewrite <-(length_batch_changes add vs del Hlen) in Hlt.
  destruct (batch_tables s ph m t _ n ts ops Hinv Hl Hcok Hcdim Hlt Hlog) as (Hok & Hnd & Hlater & Hlat & Hli).
  unfold M_bind at 1. destruct (write_batch (ops ++ [PutLatest n]) s) as [r1 s1] eqn:Hw.
  destruct (inv_loaded _ _ _ _ Hinv Hl) as (_ & Hopen & _ & Hcov).
  apply (write_batch_inv s t) in Hw as (w & -> & [[-> Hrep]|[Hne Hrep]]); [| |exact (inv_rep _ _ _ _ Hinv)|done..].
  2:{ destruct r1 as [[]| |]; [done|intros [= <- <-]; (split; [done|]; exists t; by apply inv_set_disk)..]. }
  unfold M_bind at 1.
  assert (∃ k, logged_count (countDelta e add del (set_disk w s)) (set_disk w s) = (Ok k, set_disk w s) ∧
    (is_ok (countDelta e add del s) = true → countDelta e add del s = Ok k)) as (k & Hk & Hkc).
  { change (countDelta e add del (set_disk w s)) with (countDelta e add del s).
    assert (is_panic (countDelta e add del s) = false) as Hnp.
    { apply foldM_no_panic. intros a [x c] _. unfold delta_step. repeat case_match; done. }
    destruct (countDelta e add del s) as [k| |]; [by exists k|by exists 0%Z|done]. }
  unfold M_bind at 1. rewrite Hk. unfold M_bind at 1, modify at 1.
  unfold M_bind at 1.
  destruct (forM_cache (λ x, (x, None)) del (set_latestLogID n (set_disk w s))) as (ca1 & Hf1 & Hok1 & Hc1);
    [apply Hinv|by apply Forall_true; intros x v|].
  unfold cache_op in Hf1. cbn [fst snd] in Hf1. rewrite Hf1. unfold M_bind at 1.
  destruct (forM_cache (λ xv : Z * vector, (fst xv, Some (snd xv))) (zip add vs)
              (set_cache ca1 (set_latestLogID n (set_disk w s)))) as (ca2 & Hf2 & Hok2 & Hc2); [done| |].
  { clear -Hdim. revert add. induction Hdim as [|v vs Hv _ IH]; intros [|x add]; constructor; [|apply IH].
    intros v' [= <-]. exact Hv. }
  unfold cache_op in Hf2. cbn [fst snd] in Hf2. rewrite Hf2. unfold M_bind, modify. intros [= <- <-]. split; [done|]. split.
  2:{ intros Hok'. destruct Hbok as (Ha & Hd & _).
      exact (countDelta_size s ph m t add vs del k Hinv Hl Ha Hd Hlen (Hkc Hok')). }
  exists (apply_ops t (ops ++ [PutLatest n])). destruct Hli as [Hs Hco Hcomp Hb].
  split; cbn [disk cache docTS hnsw_file loaded latestLogID writer_open index]; try done.
  - by rewrite Hlat.
  - eapply coherent_ext; [|exact Hco]. intros x. rewrite Hc2. unfold batch_changes. rewrite foldl_app.
    rewrite changes_zip.
    apply foldl_cf_ext. intros y. apply Hc1.
  - destruct (inv_file _ _ _ _ Hinv) as (K & HK & Hcv). exists K. split; [done|].
    eapply covers_later; [done| |done]. intros x. eapply no_log_later; [done|apply Hinv|done].
  - intros _. split_and!; [done..|]. eapply covers_later; [done| |exact Hcov].
    intros x Hx. by apply lookup_union_None in Hx as [_ ?].
  - cbn. congruence.
  - eapply phase_later; [done|]. apply Hinv.
Qed.
End refine.
