(* ===== verification/HNSWBuild.v ===== *)
(** The loading of a vector segment and the phases of its background build,
    each step shown to keep what the segment stores, and the system of batches,
    builds, crashes and reloads they make up. *)
From S2P Require Import Prelude Hash Strconv Shards Runs VectorStore HNSWCache HNSWSegment HNSWRefine.

Section build.
Context {W Ix File : Type} {bluge : Bluge W sdoc} {breader : BlugeReader W} {us : Usearch Ix File}.
Context (e : env).

Local Abbreviation cached := (cached (dimensions e)).
Local Abbreviation cache_ok := (cache_ok (dimensions e)).
Local Abbreviation seg := (@seg W Ix File).
Local Abbreviation inv_at := (inv_at (W := W) (Ix := Ix) (File := File) e).
Local Abbreviation inv := (inv (W := W) (Ix := Ix) (File := File) e).
Local Abbreviation Idle := (Idle (Ix := Ix) (File := File)).

Lemma get_reader_runs (s : seg) (P : W → seg → Prop) (E : seg → Prop) :
  P (disk s) s → E s → runs get_reader s P E.
Proof.
  intros HP HE. unfold get_reader. do 2 run. destruct (writer_open s); [|done].
  do 3 run; [intros _; by run|done].
Qed.

(** ** Loading *)

(** What an unloaded segment relies on. *)
Lemma inv_unloaded s s' m t :
  inv_at s Idle m t → disk s' = disk s → cache s' = cache s → docTS s' = docTS s →
  hnsw_file s' = hnsw_file s → loaded s' = false → index s' = None → inv_at s' Idle m t.
Proof.
  intros [Hr Hs Hb Hc Hco Hf Hl Hfr Hpl Hp] H1 H2 H3 H4 H5 H6. split; rewrite ?H1, ?H2, ?H3, ?H4, ?H5, ?H6; done.
Qed.

Lemma loadLogIDs_runs s t (P : unit → seg → Prop) (E : seg → Prop) :
  represents (disk s) t →
  (∀ h l, l = latest_of t → P tt (set_latestLogID l (set_hnswLogID h s))) →
  (∀ h l, E (set_latestLogID l (set_hnswLogID h s))) → runs (loadLogIDs (disk s)) s P E.
Proof.
  intros Hrep HP HE. unfold loadLogIDs.
  do 3 run; [|specialize (HE (hnswLogID s) (latestLogID s)); by destruct s].
  intros h _. do 5 run; [|specialize (HE h (latestLogID s)); by destruct s].
  intros l Hl. run. apply HP. apply (readLogID_spec _ t KLatest) in Hl; [done|by left|done].
Qed.

(** The rows put into the memory. *)
Lemma cache_rows_runs t l : ∀ (s : seg) (P : unit → seg → Prop) E,
  represents (disk s) t → bounded e t (latest_of t) → cache_ok (cache s) → coherent t Idle (docTS s) (cached (cache s)) →
  (∀ x r, (x, r) ∈ l → ∃ i c, r = log_row i c ∧ newest_log (t_logs t) x i c) →
  (∀ ca ts, cache_ok ca → coherent t Idle ts (cached ca) →
            (∀ x, is_Some (docTS s !! x) ∨ x ∈ l.*1 → is_Some (ts !! x)) → P tt (set_docTS ts (set_cache ca s))) →
  runs (forM (λ kr : Z * HNSWLogRow, cache_row e (snd kr)) l) s P E.
Proof.
  induction l as [|[x r] l IH]; intros s P E Hrep Hb Hok Hcoh Hl HP; cbn [forM].
  - run. specialize (HP (cache s) (docTS s) Hok Hcoh). destruct s. apply HP. intros y [?|?]; [done|set_solver].
  - destruct (Hl x r) as (i & c & -> & Hn); [by left|]. run.
    destruct Hn as (Hi & <- & Hmax). destruct (bnd_logs _ _ _ Hb i c Hi) as [_ Hdim].
    destruct (cache_op_ok e c (cache s) Hok Hdim) as (ca & Hop & Hok' & Hca).
    assert (cache_row e (log_row i c) s
            = (Ok tt, set_docTS (<[fst c := i]> (docTS s)) (set_cache ca s))) as Hrow.
    { unfold cache_row, mbind, M_bind, on_cache. unfold cache_op in Hop. cbn [log_row row_DocDel row_DocID row_Vector].
      destruct c as [x [v|]]; cbn [fst snd] in *; [rewrite bool_decide_false by done|rewrite bool_decide_true by done];
        cbn [default from_option id] in *; cbv beta iota; by rewrite Hop. }
    unfold runs at 1. cbn [snd]. rewrite Hrow. apply IH; [done|done|done| |intros; apply Hl; by right|].
    + destruct Hcoh as [Hts Hcf]. cbn [docTS set_docTS cache set_cache].
      split; setoid_rewrite Hca; unfold cf_change.
      * intros y n. destruct (decide (y = fst c)) as [->|Hy].
        -- rewrite lookup_insert_eq. intros [= <-]. left. exists c. done.
        -- rewrite lookup_insert_ne by congruence. apply Hts.
      * intros y v. destruct (decide (y = fst c)) as [->|Hy]; [rewrite lookup_insert_eq; by eauto|].
        rewrite lookup_insert_ne by congruence. apply Hcf.
    + intros ca' ts' Hok'' Hco' Hts'. apply (HP ca' ts'); [done..|]. intros y Hy. apply Hts'. cbn [docTS set_docTS].
      destruct (decide (y = fst c)) as [->|Hne]; [left; rewrite lookup_insert_eq; by eauto|].
      rewrite lookup_insert_ne by congruence. destruct Hy as [Hy|Hy]; [by left|right]. cbn in Hy.
      by apply elem_of_cons in Hy as [?|?].
Qed.

Lemma loadLogs_runs (s : seg) t (P : unit → seg → Prop) (E : seg → Prop) :
  represents (disk s) t → bounded e t (latest_of t) → cache_ok (cache s) →
  coherent t Idle (docTS s) (cached (cache s)) →
  (∀ ca ts, cache_ok ca → coherent t Idle ts (cached ca) → complete t ts →
            P tt (set_docTS ts (set_cache ca s))) →
  E s → runs (loadLogs e (disk s)) s P E.
Proof.
  intros Hrep Hb Hok Hcoh HP HE. unfold loadLogs. do 2 run; [|done]. intros [rows err] Hrows.
  do 2 run; [|done]. intros ->. apply readHNSWLogRows_spec with (t := t) in Hrows; [|done].
  pose proof (λ x, newest_spec rows (t_logs t) x Hrows) as Hnew.
  apply (cache_rows_runs t); [done..| |].
  - intros x r Hx%range_elem. specialize (Hnew x). by rewrite Hx in Hnew.
  - intros ca ts Hok' Hco Hts. apply HP; [done..|]. intros x i c Hn.
    destruct (Hts x) as [n Hx].
    + right. specialize (Hnew x). destruct (newest rows !! x) as [r|] eqn:Hr.
      * apply list_elem_of_fmap. exists (x, r). split; [done|]. by apply range_elem.
      * by destruct (newest_log_some _ _ _ _ Hn Hnew).
    + rewrite Hx. f_equal. destruct (coh_ts _ _ _ _ Hco x n Hx) as [(c' & Hn' & _)|[[] _]].
      by destruct (newest_log_fun _ _ _ _ _ _ Hn Hn').
Qed.

Lemma loadHNSW_runs (s : seg) K (P : unit → seg → Prop) (E : seg → Prop) :
  index s = None → file_keys (hnsw_file s) K →
  (∀ ix, keys_of ix = K → P tt (set_ix ix s)) → E s → runs (loadHNSW e) s P E.
Proof.
  intros Hix HK HP HE. unfold loadHNSW. do 3 run; [intros _|done]. do 2 run.
  destruct (hnsw_file s) as [f|] eqn:Hf.
  - destruct HK as (ix & Hsave & <-). do 3 run; [intros _|done]. run. unfold newIndex. do 2 run; [|done].
    intros ix0 _. do 3 run; [|done]. intros ix' Hl. run. apply HP. cbn. by eapply Load_Save.
  - run. cbn in HK. subst K. specialize (HP None eq_refl). by destruct s; cbn in *; subst.
Qed.

(** Loading changes nothing that is stored, and makes the memory complete. *)
Lemma load_runs (s : seg) m :
  inv s Idle m → loaded s = false →
  runs (load e) s (λ _ s', inv s' Idle m ∧ loaded s' = true ∧ disk s' = disk s)
                  (λ s', inv s' Idle m ∧ loaded s' = false ∧ disk s' = disk s).
Proof.
  intros [t Hinv] Hl. unfold load. do 2 run. rewrite Hl.
  assert (inv s Idle m ∧ loaded s = false ∧ disk s = disk s) as HE by (by split; [exists t|]).
  destruct (known_storage (StorageType e)); [|by run].
  pose proof (inv_fresh _ _ _ _ _ Hinv Hl) as Hix.
  assert (∀ s' : seg, disk s' = disk s → cache s' = cache s → docTS s' = docTS s →
    hnsw_file s' = hnsw_file s → loaded s' = false → index s' = None →
    inv s' Idle m ∧ loaded s' = false ∧ disk s' = disk s) as HE'.
  { intros s' H1 H2 H3 H4 H5 H6. split; [|done]. exists t. by eapply inv_unloaded. }
  run. eapply runs_mono with (P := λ _ s', s' = set_open true s) (E := λ s', s' = s); [| |by intros ? ->].
  { destruct (writer_open s) eqn:Ho; [run; by destruct s; cbn in *; subst|]. do 3 run; [intros _; by run|done]. }
  intros _ s' ->. run. apply get_reader_runs; [|by apply HE'].
  do 2 run. apply (loadLogIDs_runs _ t); [apply Hinv| |intros; by apply HE'].
  intros h l Hlat. do 2 run.
  apply (loadLogs_runs (set_latestLogID l (set_hnswLogID h (set_open true s))) t);
    [apply Hinv..| |by apply HE'].
  intros ca ts Hok Hco Hcomp. destruct (inv_file _ _ _ _ _ Hinv) as (K & HK & Hcov).
  assert (covers K t (λ x, ts !! x = None)) as Hcov'.
  { intros x Hx Hts. apply Hcov; [done|]. destruct (inv_stores _ _ _ _ _ Hinv x) as [(i & c & Hn & _)|[? _]]; [|done].
    apply Hcomp in Hn. congruence. }
  do 2 run. apply (loadHNSW_runs _ K); [done|done| |].
  - intros ix Hkeys. run. split; [|done]. exists t.
    split; cbn [disk cache docTS hnsw_file loaded latestLogID writer_open index set_loaded set_ix set_docTS set_cache];
      try apply Hinv; try done.
    intros _. split_and!; [done..|]. by rewrite Hkeys.
  - split; [|done]. exists t. split; cbn; try apply Hinv; try done. all: intros; congruence.
Qed.

(** ** Applying the logs *)

Lemma newest_or_none (logs : gmap Z change) x : no_log logs x ∨ ∃ i c, newest_log logs x i c.
Proof.
  set (rows := (λ ic, log_row (fst ic) (snd ic)) <$> map_to_list logs).
  assert (rows_of rows logs) as Hrows.
  { split.
    - unfold rows. rewrite <-list_fmap_compose. apply NoDup_fst_map_to_list.
    - intros r. unfold rows. rewrite list_elem_of_fmap. split.
      + intros ([i c] & -> & Hi%elem_of_map_to_list). eauto.
      + intros (i & c & Hi & ->). exists (i, c). split; [done|]. by apply elem_of_map_to_list. }
  pose proof (newest_spec rows logs x Hrows) as Hn.
  destruct (newest rows !! x); [right|by left]. destruct Hn as (i & c & _ & Hn). eauto.
Qed.

Lemma no_log_upto n logs x : no_log logs x → no_log (upto n logs) x.
Proof. intros Hno i c [Hi _]%lookup_upto. by eapply Hno. Qed.

(** Moving the build on, the segment unchanged. *)
Lemma inv_phase_change s ph ph' m t :
  inv_at s ph m t → loaded s = true → (∀ x n, ¬ stale ph x n) → phase_ok e ph' t (hnsw_file s) →
  inv_at s ph' m t.
Proof.
  intros [Hr Hs Hb Hc [Hts Hcf] Hf Hl Hfr Hpl Hp] Hld Hst Hp'. split; try done.
  split; [|done]. intros x n Hx. destruct (Hts x n Hx) as [?|[Hsx _]]; [by left|]. by destruct (Hst x n).
Qed.

(** The change a log row stands for, and the row operation that applies it. *)
Definition row_change (r : HNSWLogRow) : change :=
  (row_DocID r, if row_DocDel r then None else Some (row_Vector r)).
Definition doc_op (c : change) : vop :=
  match snd c with Some v => PutDoc (fst c) v | None => DelDoc (fst c) end.

Lemma row_change_log i c : row_change (log_row i c) = c.
Proof.
  unfold row_change, log_row. destruct c as [x [v|]]; cbn [row_DocID row_DocDel row_Vector fst snd].
  - by rewrite bool_decide_false.
  - by rewrite bool_decide_true.
Qed.

Lemma apply_ops_of_changes n rows :
  apply_ops_of e n rows =
  doc_op ∘ row_change ∘ snd <$> range (row_order e) (newest (filter (λ r, ¬ (n < row_ID r)%Z) rows)).
Proof.
  unfold apply_ops_of. apply list_fmap_ext. intros _ [x r] _. cbn. unfold doc_op, row_change. cbn.
  by destruct (row_DocDel r).
Qed.

Lemma doc_ops_tables cs : ∀ t,
  t_logs (apply_ops t (doc_op <$> cs)) = t_logs t ∧ t_latest (apply_ops t (doc_op <$> cs)) = t_latest t ∧
  t_docs (apply_ops t (doc_op <$> cs)) = foldl apply_change (t_docs t) cs.
Proof.
  induction cs as [|c cs IH]; intros t; [done|]. rewrite fmap_cons. cbn [apply_ops foldl].
  destruct (IH (apply_op t (doc_op c))) as (H1 & H2 & H3). unfold apply_ops in *. rewrite H1, H2, H3.
  destruct c as [x [v|]]; done.
Qed.

Lemma foldl_changes_lookup cs : ∀ (m : gmap Z vector) x,
  NoDup cs.*1 →
  (∀ o, (x, o) ∈ cs → foldl apply_change m cs !! x = o) ∧
  (x ∉ cs.*1 → foldl apply_change m cs !! x = m !! x).
Proof.
  induction cs as [|c cs IH]; intros m x Hnd; [split; [intros o []%elem_of_nil|done]|].
  rewrite fmap_cons in *. apply NoDup_cons in Hnd as [Hc Hnd]. cbn [foldl].
  destruct (IH (apply_change m c) x Hnd) as [H1 H2]. split.
  - intros o [<-|Ho]%elem_of_cons; [|by apply H1].
    rewrite H2 by done. rewrite lookup_apply_change. by rewrite decide_True.
  - intros Hx. rewrite H2, lookup_apply_change by set_solver. rewrite decide_False; [done|set_solver].
Qed.

(** The batch that applies the logs up to [n] describes exactly their newest
    changes. *)
Lemma apply_ops_phase t rows n f :
  tables_ok t → bounded e t (latest_of t) → rows_of rows (t_logs t) → (0 ≤ n ≤ latest_of t)%Z →
  phase_ok (Ix := Ix) (File := File) e (LogsRead n (apply_ops_of e n rows)) t f.
Proof.
  intros Htok Hb Hrows Hn. rewrite apply_ops_of_changes.
  set (rs := range (row_order e) _).
  assert (∀ x r, (x, r) ∈ rs → ∃ i c, r = log_row i c ∧ newest_log (upto n (t_logs t)) x i c) as Hrs.
  { intros x r Hx%range_elem. pose proof (newest_spec _ _ x (rows_of_filter _ _ n Hrows)) as Hx'.
    by rewrite Hx in Hx'. }
  assert (∀ x i c, newest_log (upto n (t_logs t)) x i c → (x, log_row i c) ∈ rs) as Hrs'.
  { intros x i c Hnl. apply range_elem. pose proof (newest_spec _ _ x (rows_of_filter _ _ n Hrows)) as Hx.
    destruct (newest _ !! x) as [r|]; [|by destruct (newest_log_some _ _ _ _ Hnl Hx)].
    destruct Hx as (i' & c' & -> & Hn'). by destruct (newest_log_fun _ _ _ _ _ _ Hnl Hn') as [-> ->]. }
  set (cs := row_change ∘ snd <$> rs).
  assert (∀ c, c ∈ cs → ∃ i, newest_log (upto n (t_logs t)) (fst c) i c) as Hcs.
  { intros c ([x r] & -> & Hin)%list_elem_of_fmap. destruct (Hrs x r Hin) as (i & c' & -> & Hnl).
    exists i. cbn. rewrite row_change_log. by destruct Hnl as (? & <- & ?). }
  assert (cs.*1 = rs.*1) as Hfst.
  { unfold cs. rewrite <-list_fmap_compose. apply list_fmap_ext. intros _ [x r] Hin%list_elem_of_lookup_2.
    destruct (Hrs x r Hin) as (i & c' & -> & (_ & <- & _)). done. }
  assert (NoDup cs.*1) as Hnd by (rewrite Hfst; apply range_nodup).
  replace (doc_op ∘ row_change ∘ snd <$> rs) with (doc_op <$> cs) by (unfold cs; by rewrite <-list_fmap_compose).
  cbn [phase_ok]. split; [done|]. split_and!.
  - apply Forall_fmap, Forall_forall. intros c Hc. destruct (Hcs c Hc) as (i & Hi%lookup_upto & _).
    destruct (ok_logs _ Htok i c (proj1 Hi)) as [_ [Hx Hv]]. unfold doc_op. cbn. by destruct (snd c).
  - rewrite <-list_fmap_compose. rewrite (list_fmap_ext (op_key ∘ doc_op) (KDoc ∘ fst) cs).
    + rewrite list_fmap_compose. apply NoDup_fmap_2; [intros ?? [=]; done|done].
    + intros _ [x [v|]] _; done.
  - apply Forall_fmap, Forall_forall. intros c Hc. destruct (Hcs c Hc) as (i & Hi%lookup_upto & _).
    destruct (bnd_logs _ _ _ Hb i c (proj1 Hi)) as [_ Hd]. unfold doc_op. cbn.
    destruct (snd c) as [v|] eqn:E; [|done]. by apply Hd.
  - intros x i c Hnl t0. destruct (doc_ops_tables cs t0) as (_ & _ & ->).
    apply foldl_changes_lookup; [done|]. apply list_elem_of_fmap. exists (x, log_row i c).
    split; [|by apply Hrs']. cbn. rewrite row_change_log. destruct Hnl as (_ & <- & _). by destruct c.
  - intros x Hno t0. destruct (doc_ops_tables cs t0) as (_ & _ & ->).
    apply foldl_changes_lookup; [done|]. intros ([y o] & Hy & Hc)%list_elem_of_fmap. cbn in Hy. subst y.
    destruct (Hcs _ Hc) as (i & Hnl). by eapply newest_log_some.
Qed.

Lemma apply_read_runs (s : seg) m :
  inv s Idle m → loaded s = true →
  runs (apply_read e) s (λ r s', s' = s ∧ inv s (LogsRead (fst r) (snd r)) m) (λ s', s' = s).
Proof.
  intros [t Hinv] Hl. unfold apply_read. run. apply get_reader_runs; [|done]. do 2 run.
  do 2 run; [|done]. intros [rows err] Hrows. do 2 run; [|done]. intros ->. run. split; [done|]. cbn [fst snd].
  exists t. eapply inv_phase_change; [done|done|by intros ?? []|].
  destruct (inv_loaded _ _ _ _ _ Hinv Hl) as (-> & _).
  pose proof (bnd_latest _ _ _ (inv_bounded _ _ _ _ _ Hinv)).
  apply apply_ops_phase; [apply (inv_rep _ _ _ _ _ Hinv)|apply Hinv| |lia].
  eapply readHNSWLogRows_spec; [apply Hinv|done].
Qed.

Lemma doc_only_ops ops t :
  Forall (λ o, match o with PutDoc _ v => has_dim e v | DelDoc _ => True | _ => False end) ops →
  t_logs (apply_ops t ops) = t_logs t ∧ t_latest (apply_ops t ops) = t_latest t.
Proof.
  intros Hops. revert t. induction Hops as [|o ops Ho _ IH]; intros t; [done|]. cbn [apply_ops foldl].
  destruct (IH (apply_op t o)) as [H1 H2]. unfold apply_ops in *. rewrite H1, H2. by destruct o.
Qed.

Lemma apply_write_runs (s : seg) m n ops :
  inv s (LogsRead n ops) m → loaded s = true →
  runs (write_batch ops) s (λ _ s', inv s' (LogsApplied n) m ∧ loaded s' = true ∧ latestLogID s' = latestLogID s)
                           (λ s', inv s' Idle m ∧ loaded s' = true).
Proof.
  intros [t Hinv] Hl. destruct (inv_phase _ _ _ _ _ Hinv) as (Hn & Hok & Hnd & Hdoc & Hch & Hsame).
  destruct (inv_loaded _ _ _ _ _ Hinv Hl) as (Hlat & Hopen & Hcomp & Hcov).
  unfold runs. destruct (write_batch ops s) as [r s'] eqn:Hw.
  apply (write_batch_inv s t) in Hw as (w & -> & [[-> Hrep]|[Hne Hrep]]); [| |apply (inv_rep _ _ _ _ _ Hinv)|done..].
  2:{ assert (inv (set_disk w s) Idle m) as HI.
      { exists t. apply (inv_phase_change _ (LogsRead n ops)); [by apply inv_set_disk|done|by intros ?? []|done]. }
      by destruct r as [[]| |]. }
  split; [|done]. destruct (doc_only_ops ops t Hdoc) as [Hlogs Hlate].
  assert (∀ x, no_log (t_logs t) x → t_docs (apply_ops t ops) !! x = t_docs t !! x) as Hkeep
    by (intros x Hx; by apply Hsame, no_log_upto).
  assert (latest_of (apply_ops t ops) = latest_of t) as Hlt by (unfold latest_of; by rewrite Hlate).
  exists (apply_ops t ops). split; cbn [disk cache docTS hnsw_file loaded latestLogID writer_open index set_disk];
    rewrite ?Hlogs, ?Hlt; try done.
  - intros x. unfold holds. rewrite Hlogs.
    destruct (inv_stores _ _ _ _ _ Hinv x) as [?|[Hno ->]]; [by left|right]. by rewrite Hkeep.
  - destruct (inv_bounded _ _ _ _ _ Hinv) as [H0 Hbl Hbd]. split; [done|by rewrite Hlogs|].
    intros x v. destruct (newest_or_none (upto n (t_logs t)) x) as [Hno|(i & c & Hnl)].
    + rewrite Hsame by done. apply Hbd.
    + rewrite (Hch _ _ _ Hnl). intros Hv. destruct Hnl as (Hi%lookup_upto & _).
      destruct (Hbl i c (proj1 Hi)) as [_ Hd]. by apply Hd.
  - apply Hinv.
  - destruct (inv_coh _ _ _ _ _ Hinv) as [Hts Hcf]. split; [|done]. rewrite Hlogs.
    intros x k Hx. destruct (Hts x k Hx) as [?|[[] _]]. by left.
  - destruct (inv_file _ _ _ _ _ Hinv) as (K & HK & HKc). exists K. split; [done|].
    intros x Hx Hno. rewrite Hkeep by done. by apply HKc.
  - intros _. split_and!; [done|done| |].
    + intros x i c. rewrite Hlogs. apply Hcomp.
    + intros x Hx Hts. rewrite Hkeep; [by apply Hcov|].
      destruct (newest_or_none (t_logs t) x) as [?|(i & c & Hnl)]; [done|]. apply Hcomp in Hnl. congruence.
  - cbn. congruence.
  - split; [by rewrite Hlt|]. intros x i c. rewrite Hlogs. intros Hnl. by eapply Hch.
Qed.

(** ** Building the index *)

Lemma wrap64_inj x y : is_int64 x → is_int64 y → wrap64 x = wrap64 y → x = y.
Proof.
  unfold is_int64, wrap64. intros Hx Hy Heq.
  assert ((x - y) mod 2 ^ 64 = 0)%Z as Hm by (rewrite Zminus_mod, Heq, Z.sub_diag; done).
  apply Z.mod_divide in Hm as [k Hk]; [|lia]. nia.
Qed.

Lemma add_rows_keys rows : ∀ ix ix' : Ix,
  foldM add_row ix rows = Ok ix' →
  ∀ k, k ∈ ix_keys ix' ↔ k ∈ ix_keys ix ∨ ∃ r, r ∈ rows ∧ k = wrap64 (drow_ID r).
Proof.
  induction rows as [|r rows IH]; intros ix ix'; cbn [foldM].
  - intros [= ->] k. split; [by left|]. intros [?|(r & []%elem_of_nil & _)]; done.
  - destruct (add_row ix r) as [ix1| |] eqn:Hr; cbn [mbind res_bind]; [|done..].
    unfold add_row in Hr. destruct (Add ix (wrap64 (drow_ID r)) (drow_Vector r)) eqn:Ha; simplify_eq.
    intros Hf k. rewrite (IH _ _ Hf k), (Add_keys _ _ _ _ Ha), elem_of_union, elem_of_singleton.
    setoid_rewrite elem_of_cons. naive_solver.
Qed.

Lemma build_read_runs (s : seg) m n :
  inv s (LogsApplied n) m → loaded s = true →
  runs (build_read e) s (λ r s', s' = s ∧ inv s (IndexBuilt n (fst r) (snd r)) m) (λ s', s' = s).
Proof.
  intros [t Hinv] Hl. unfold build_read. run. apply get_reader_runs; [|done].
  run. unfold newIndex. do 2 run; [|done]. intros ix0 Hnew.
  do 3 run; [|done]. intros size _. do 3 run; [|done]. intros ix1 Hres. do 2 run; [|done]. intros [rows err] Hrows.
  do 2 run; [|done]. intros ix Hadd. do 2 run; [|done]. intros ->. do 3 run; [intros _|done].
  do 3 run; [|done]. intros f Hsave. run. split; [done|]. cbn [fst snd]. exists t.
  eapply inv_phase_change; [done|done|by intros ?? []|].
  split_and!; [apply (inv_phase _ _ _ _ _ Hinv)|done|]. intros x Hx _.
  destruct (readHNSWDocRows_spec _ t _ (inv_rep _ _ _ _ _ Hinv) Hrows) as [_ Hdocs].
  rewrite (add_rows_keys _ _ _ Hadd), (Reserve_keys _ _ _ Hres), (NewIndex_keys _ _ Hnew). split.
  - intros [[]%not_elem_of_empty|([d v] & Hin & Hw)]. apply Hdocs in Hin as Hd.
    destruct (ok_docs _ (rep_ok _ _ (inv_rep _ _ _ _ _ Hinv)) d v Hd).
    apply wrap64_inj in Hw; [subst; by eauto|done..].
  - intros [v Hv]. right. exists (mkDocRow x v). split; [by apply Hdocs|done].
Qed.

Lemma build_save_runs (s : seg) m n ix f :
  inv s (IndexBuilt n ix f) m → loaded s = true →
  runs (build_save e f) s (λ _ s', inv s' (IndexSaved n ix) m ∧ loaded s' = true ∧ latestLogID s' = latestLogID s)
                          (λ s', s' = s).
Proof.
  intros [t Hinv] Hl. unfold build_save. do 3 run; [intros _|done]. run. split; [|done]. exists t.
  destruct (inv_phase _ _ _ _ _ Hinv) as (Happ & Hsave & Hcov).
  destruct Hinv as [Hr Hs Hb Hc [Hts Hcf] Hf Hld Hfr Hpl Hp]. split; try done.
  - exists (ix_keys ix). split; [by exists ix|]. intros x Hx _. by apply Hcov.
  - split_and!; [done|by exists f|done].
Qed.

(** ** Dropping the applied logs *)

Lemma clean_read_runs (s : seg) m n ix :
  inv s (IndexSaved n ix) m → loaded s = true → is_int64 n →
  runs (clean_read n) s (λ r s', s' = s ∧ inv s (CleanRead n ix (fst r) (snd r)) m) (λ s', s' = s).
Proof.
  intros [t Hinv] Hl Hn64. unfold clean_read. run. apply get_reader_runs; [|done].
  do 2 run; [|done]. intros [rows err] Hrows. do 2 run; [|done]. intros ->. run. split; [done|]. cbn [fst snd].
  exists t. destruct (inv_phase _ _ _ _ _ Hinv) as (Happ & Hsave & Hcov).
  eapply inv_phase_change; [done|done|by intros ?? []|].
  apply (readHNSWLogRows_spec _ t) in Hrows; [|apply (inv_rep _ _ _ _ _ Hinv)].
  destruct (rows_of_filter _ _ n Hrows) as [Hnd Hold].
  split_and!; [done..| |].
  - intros i c Hi. apply elem_of_list_to_set, list_elem_of_fmap. exists (log_row i c).
    split; [done|]. apply Hold. eauto.
  - exists (row_ID <$> filter (λ r, ¬ (n < row_ID r)%Z) rows). rewrite <-list_fmap_compose. split_and!; [done..|].
    intros i. rewrite list_elem_of_fmap. split.
    + intros (r & -> & (j & c & Hj & ->)%Hold). eauto.
    + intros [c Hc]. exists (log_row i c). split; [done|]. apply Hold. eauto.
Qed.

Lemma del_logs_tables ids n : ∀ t,
  let t' := apply_ops t ((DelLog <$> ids) ++ [PutHnsw n]) in
  t_docs t' = t_docs t ∧ t_latest t' = t_latest t ∧
  ∀ i, t_logs t' !! i = if decide (i ∈ ids) then None else t_logs t !! i.
Proof.
  induction ids as [|j ids IH]; intros t; [done|]. rewrite fmap_cons. cbn [app apply_ops foldl].
  destruct (IH (apply_op t (DelLog j))) as (H1 & H2 & H3). unfold apply_ops in *. cbv zeta.
  rewrite H1, H2. split_and!; [done..|]. intros i. rewrite H3. cbn.
  destruct (decide (i = j)) as [->|Hne]; [rewrite lookup_delete_eq|rewrite lookup_delete_ne by done];
    repeat case_decide; try done; set_solver.
Qed.

(** The table once the log rows up to [n] are gone. *)
Record dropped (n : Z) (t t' : tables) : Prop := {
  dr_docs : t_docs t' = t_docs t;
  dr_latest : t_latest t' = t_latest t;
  dr_logs : ∀ i c, t_logs t' !! i = Some c ↔ t_logs t !! i = Some c ∧ (n < i)%Z
}.

Lemma dropped_newest n t t' x i c :
  dropped n t t' → newest_log (t_logs t) x i c →
  if decide (n < i)%Z then newest_log (t_logs t') x i c
  else no_log (t_logs t') x ∧ newest_log (upto n (t_logs t)) x i c.
Proof.
  intros [_ _ Hl] (Hi & Hx & Hmax). case_decide as Hn; [|split].
  - split_and!; [by apply Hl|done|]. intros j cj [Hj _]%Hl. by apply Hmax.
  - intros j cj [Hj Hlt]%Hl Hxj. specialize (Hmax j cj Hj Hxj). lia.
  - split_and!; [apply lookup_upto; split; [done|lia]|done|]. intros j cj [Hj _]%lookup_upto. by apply Hmax.
Qed.

Lemma dropped_newest_inv n t t' x i c :
  dropped n t t' → newest_log (t_logs t') x i c → newest_log (t_logs t) x i c.
Proof.
  intros [_ _ Hl] (Hi & Hx & Hmax). apply Hl in Hi as [Hi Hn]. split_and!; [done..|].
  intros j cj Hj Hxj. destruct (decide (n < j)%Z); [|lia]. eapply Hmax; [by apply Hl|done].
Qed.

Lemma dropped_no_log n t t' x : dropped n t t' → no_log (t_logs t) x → no_log (t_logs t') x.
Proof. intros [_ _ Hl] Hno i c [Hi _]%Hl. by eapply Hno. Qed.

Lemma clean_write_runs (s : seg) m n ix ops docs :
  inv s (CleanRead n ix ops docs) m → loaded s = true →
  runs (write_batch ops) s (λ _ s', inv s' (LogsDropped n ix docs) m ∧ loaded s' = true ∧ latestLogID s' = latestLogID s)
                           (λ s', inv s' Idle m ∧ loaded s' = true).
Proof.
  intros [t Hinv] Hl.
  destruct (inv_phase _ _ _ _ _ Hinv) as ([Hn Happ] & Hsave & Hcovx & Hn64 & Hdocs & ids & -> & Hnd & Hids).
  destruct (inv_loaded _ _ _ _ _ Hinv Hl) as (Hlat & Hopen & Hcomp & Hcov).
  unfold runs. destruct (write_batch _ s) as [r s'] eqn:Hw.
  apply (write_batch_inv s t) in Hw as (w & -> & [[-> Hrep]|[Hne Hrep]]); [| |apply (inv_rep _ _ _ _ _ Hinv)|done|..].
  2:{ assert (inv (set_disk w s) Idle m) as HI.
      { exists t. eapply (inv_phase_change _ (CleanRead n ix _ docs)); [by apply inv_set_disk|done|by intros ?? []|done]. }
      by destruct r as [[]| |]. }
  2:{ apply Forall_app. split; [|by apply Forall_singleton]. apply Forall_fmap, Forall_forall.
      intros i [c [Hc _]%lookup_upto]%Hids. cbn.
      apply (ok_logs _ (rep_ok _ _ (inv_rep _ _ _ _ _ Hinv)) i c Hc). }
  2:{ rewrite fmap_app, <-list_fmap_compose. apply NoDup_app. split_and!; [|set_solver|by apply NoDup_singleton].
      apply NoDup_fmap_2; [intros ?? [=]; done|done]. }
  split; [|done]. set (t' := apply_ops t _) in *.
  assert (dropped n t t') as Hdr.
  { destruct (del_logs_tables ids n t) as (H1 & H2 & H3). split; [done..|]. intros i c. unfold t'. rewrite H3.
    specialize (Hids i). case_decide as Hi.
    - split; [done|]. intros [Hc Hlt]. apply Hids in Hi as [c' [_ Hle]%lookup_upto]. lia.
    - split; [|tauto]. intros Hc. split; [done|]. apply Z.lt_nge. intros Hle. apply Hi, Hids.
      exists c. by apply lookup_upto. }
  assert (latest_of t' = latest_of t) as Hlt by (unfold latest_of; by rewrite (dr_latest _ _ _ Hdr)).
  pose proof (dr_docs _ _ _ Hdr) as Hd.
  exists t'. split; cbn [disk cache docTS hnsw_file loaded latestLogID writer_open index set_disk];
    rewrite ?Hlt; try done.
  - intros x. unfold holds. rewrite Hd.
    destruct (inv_stores _ _ _ _ _ Hinv x) as [(i & c & Hnl & ->)|[Hno ->]].
    + pose proof (dropped_newest _ _ _ _ _ _ Hdr Hnl) as Hnl'. case_decide.
      * left. by exists i, c.
      * right. destruct Hnl' as [Hno Hup]. split; [done|]. by rewrite (Happ _ _ _ Hup).
    + right. split; [by eapply dropped_no_log|done].
  - destruct (inv_bounded _ _ _ _ _ Hinv) as [H0 Hbl Hbd]. split; [done| |by rewrite Hd].
    intros i c [Hi _]%(dr_logs _ _ _ Hdr). by apply Hbl.
  - apply Hinv.
  - destruct (inv_coh _ _ _ _ _ Hinv) as [Hts Hcf]. split; [|done]. rewrite Hd.
    intros x k Hx. destruct (Hts x k Hx) as [(c & Hnl & Hcx)|[[] _]].
    pose proof (dropped_newest _ _ _ _ _ _ Hdr Hnl) as Hnl'. case_decide; [left; by exists c|right].
    destruct Hnl' as [Hno Hup]. split_and!; [|done|by rewrite Hcx, (Happ _ _ _ Hup)].
    split; [lia|]. destruct Hup as (Hup & <- & _). by eapply Hdocs.
  - destruct Hsave as (f & Hf & Hsv). exists (ix_keys ix). rewrite Hf. split; [by exists ix|].
    intros x Hx _. rewrite Hd. by apply Hcovx.
  - intros _. split_and!; [done|done| |].
    + intros x i c Hnl. eapply Hcomp. by eapply dropped_newest_inv.
    + intros x Hx Hts. rewrite Hd. by apply Hcov.
  - cbn. congruence.
  - split_and!; [rewrite Hlt; lia|done| |].
    + intros x Hx _. rewrite Hd. by apply Hcovx.
    + intros i c [_ ?]%(dr_logs _ _ _ Hdr). done.
Qed.

(** The loop over the documents of the dropped rows. *)
Lemma clean_docs_runs t n (ix : Ix) docs l : ∀ (s : seg) (P : unit → seg → Prop) E,
  cache_ok (cache s) → coherent t (LogsDropped (File := File) n ix docs) (docTS s) (cached (cache s)) →
  complete t (docTS s) → (∀ i c, t_logs t !! i = Some c → (n < i)%Z) →
  (∀ ca ts, cache_ok ca → coherent t (LogsDropped (File := File) n ix docs) ts (cached ca) → complete t ts →
            (∀ x k, x ∈ l → ts !! x = Some k → (n < k)%Z) →
            (∀ x k, ts !! x = Some k → docTS s !! x = Some k) → P tt (set_docTS ts (set_cache ca s))) →
  runs (forM (clean_doc e n) l) s P E.
Proof.
  induction l as [|x l IH]; intros s P E Hok Hcoh Hcomp Hlogs HP; cbn [forM].
  - run. specialize (HP (cache s) (docTS s) Hok Hcoh Hcomp). destruct s. apply HP; [by intros ?? ?%elem_of_nil|done].
  - run. unfold clean_doc at 1. do 2 run. case_decide as Hle.
    + destruct (cache_op_ok e (x, None) (cache s) Hok) as (ca & Hop & Hok' & Hca); [by intros ?|].
      run. unfold runs at 1, on_cache. unfold cache_op in Hop. cbn [fst snd] in Hop. rewrite Hop. run.
      destruct Hcoh as [Hts Hcf]. apply IH; cbn [cache docTS set_docTS set_cache]; [done| | |done|].
      * split; setoid_rewrite Hca; unfold cf_change; cbn [fst snd].
        -- intros y k Hy. apply lookup_delete_Some in Hy as [Hne Hy].
           rewrite decide_False by congruence. by apply Hts.
        -- intros y v. case_decide as Hy; [done|]. rewrite lookup_delete_ne by congruence. apply Hcf.
      * intros y i c Hnl. specialize (Hcomp y i c Hnl). apply lookup_delete_Some. split; [|done].
        intros ->. rewrite Hcomp in Hle. cbn in Hle. destruct Hnl as (Hi & _). apply Hlogs in Hi. lia.
      * intros ca' ts' Hok'' Hco' Hcomp' Hgt Hsub. apply (HP ca' ts'); [done..| |].
        -- intros y k [->|Hy]%elem_of_cons Hk; [|by eapply Hgt].
           apply Hsub in Hk. by rewrite lookup_delete_eq in Hk.
        -- intros y k Hk. apply Hsub in Hk. by apply lookup_delete_Some in Hk as [_ ?].
    + run. apply IH; [done..|]. intros ca' ts' Hok'' Hco' Hcomp' Hgt Hsub. apply (HP ca' ts'); [done..| |done].
      intros y k [->|Hy]%elem_of_cons Hk; [|by eapply Hgt]. apply Hsub in Hk. rewrite Hk in Hle. cbn in Hle. lia.
Qed.

Lemma clean_mem_runs (s : seg) m n ix docs :
  inv s (LogsDropped n ix docs) m → loaded s = true →
  runs (clean_mem e n docs ix) s
    (λ _ s', loaded s' = true ∧ hnswLogID s' = n ∧ latestLogID s' = latestLogID s ∧
             ∃ t, inv_at s' Idle m t ∧ ∀ i c, t_logs t !! i = Some c → (n < i)%Z) (λ _, False).
Proof.
  intros [t Hinv] Hl. destruct (inv_phase _ _ _ _ _ Hinv) as (Hn & Hsave & Hcovx & Hlogs).
  destruct (inv_loaded _ _ _ _ _ Hinv Hl) as (Hlat & Hopen & Hcomp & Hcov).
  unfold clean_mem. do 2 run. run. apply (clean_docs_runs t n ix docs); [apply Hinv|apply Hinv|done|done|].
  intros ca ts Hok Hco Hcomp' Hgt Hsub. run. split_and!; [done..|]. exists t. split; [|done].
  split; cbn [disk cache docTS hnsw_file loaded latestLogID writer_open index set_docTS set_cache set_ix set_hnswLogID];
    try apply Hinv; try done.
  - destruct Hco as [Hts Hcf]. split; [|done]. intros x k Hx.
    destruct (Hts x k Hx) as [?|[[Hle Hd] _]]; [by left|]. exfalso.
    specialize (Hgt x k). rewrite srange_elem in Hgt. specialize (Hgt Hd Hx). lia.
  - intros _. split_and!; [done..|]. intros x Hx _. by apply Hcovx.
  - congruence.
Qed.
End build.
