(* ===== verification/HNSWSystem.v ===== *)
(** A vector segment as a system: batches from clients, one background build,
    loads and crashes, in any order; and that at every point it stores the map
    its successful batches describe. *)
From S2P Require Import Prelude Hash Strconv Shards Runs VectorStore HNSWCache HNSWSegment HNSWRefine HNSWBuild.

(** The invariant depends on the environment through the dimensions only. *)
Lemma inv_env {W Ix File} {bluge : Bluge W sdoc} {us : Usearch Ix File} (e e' : env) (s : @seg W Ix File) ph m :
  dimensions e = dimensions e' → inv e s ph m → inv e' s ph m.
Proof.
  intros Hd [t [Hr Hs [Hb1 Hb2 Hb3] Hc Hco Hf Hl Hfr Hpl Hp]]. exists t.
  split; rewrite <-?Hd; try done.
  - split; unfold change_dim, has_dim; rewrite <-?Hd; done.
  - destruct ph; cbn in *; unfold has_dim in *; rewrite <-?Hd; done.
Qed.

Section system.
Context {W Ix File : Type} {bluge : Bluge W sdoc} {breader : BlugeReader W} {us : Usearch Ix File}.
Context (dim : nat).
Local Abbreviation seg := (@seg W Ix File).
Local Abbreviation phase := (@phase Ix File).

(** A batch: the documents to add with their vectors, and to delete. *)
Record batch := mkBatch { b_add : list Z; b_vectors : list vector; b_del : list Z }.

Definition spec_of (b : batch) : gmap Z vector → gmap Z vector :=
  batch_spec (b_add b) (b_vectors b) (b_del b).

(** The arguments are Go values, and the log ids stay below 2^63. *)
Definition admissible (s : seg) (b : batch) : Prop :=
  batch_ok (b_add b) (b_vectors b) (b_del b) ∧
  (latestLogID s + Z.of_nat (length (b_add b) + length (b_del b)) < 2 ^ 63)%Z.

(** One step of the background build: the next call of [BuildHNSW], and where
    its outcome leaves the build.  A failed call ends the build. *)
Inductive build_step (e : env) : seg → phase → seg → phase → Prop :=
  | bs_apply_read s n ops s' :
      apply_read e s = (Ok (n, ops), s') → build_step e s Idle s' (LogsRead n ops)
  | bs_apply_write s n ops s' :
      write_batch ops s = (Ok tt, s') → build_step e s (LogsRead n ops) s' (LogsApplied n)
  | bs_build_read s n ix f s' :
      build_read e s = (Ok (ix, f), s') → build_step e s (LogsApplied n) s' (IndexBuilt n ix f)
  | bs_build_save s n ix f s' :
      build_save e f s = (Ok tt, s') → build_step e s (IndexBuilt n ix f) s' (IndexSaved n ix)
  | bs_clean_read s n ix ops docs s' :
      clean_read n s = (Ok (ops, docs), s') → build_step e s (IndexSaved n ix) s' (CleanRead n ix ops docs)
  | bs_clean_write s n ix ops docs s' :
      write_batch ops s = (Ok tt, s') → build_step e s (CleanRead n ix ops docs) s' (LogsDropped n ix docs)
  | bs_clean_mem s n ix docs s' :
      clean_mem e n docs ix s = (Ok tt, s') → build_step e s (LogsDropped n ix docs) s' Idle
  | bs_read_failed s ph : (∀ n ix docs, ph ≠ LogsDropped n ix docs) → build_step e s ph s Idle
  | bs_write_failed s n ops r s' :
      write_batch ops s = (r, s') → r ≠ Ok tt → build_step e s (LogsRead n ops) s' Idle
  | bs_clean_failed s n ix ops docs r s' :
      write_batch ops s = (r, s') → r ≠ Ok tt → build_step e s (CleanRead n ix ops docs) s' Idle.

(** The whole system; the environment (faults, iteration orders) may differ
    from step to step.  The label is the batch that took effect, if any. *)
Inductive step : seg → phase → option batch → seg → phase → Prop :=
  | step_load e s r s' :
      dimensions e = dim → loaded s = false → load e s = (r, s') → step s Idle None s' Idle
  | step_batch e s ph b n s' :
      dimensions e = dim → loaded s = true → admissible s b →
      Batch_locked e (b_add b) (b_vectors b) (b_del b) s = (Ok n, s') → step s ph (Some b) s' ph
  | step_batch_failed e s ph b r s' :
      dimensions e = dim → loaded s = true → admissible s b →
      Batch_locked e (b_add b) (b_vectors b) (b_del b) s = (r, s') → is_ok r = false → step s ph None s' ph
  | step_build e s ph s' ph' :
      dimensions e = dim → loaded s = true → build_step e s ph s' ph' → step s ph None s' ph'
  | step_crash s ph :
      step s ph None (newHNSWSegment (disk s) (hnsw_file s)) Idle.

(** The states reached from a new segment, with the batches that took effect. *)
Inductive reachable : list batch → seg → phase → Prop :=
  | reach_new : reachable [] (newHNSWSegment new_index None) Idle
  | reach_step bs s ph o s' ph' :
      reachable bs s ph → step s ph o s' ph' →
      reachable (bs ++ match o with Some b => [b] | None => [] end) s' ph'.

(** What the batches say should be stored. *)
Definition content (bs : list batch) : gmap Z vector := foldl (λ m b, spec_of b m) ∅ bs.

Definition inv_dim (s : seg) (ph : phase) (m : gmap Z vector) : Prop :=
  ∀ e, dimensions e = dim → inv e s ph m.

Lemma idle_of s ph m e :
  inv e s ph m → loaded s = true → (∀ n ix docs, ph ≠ LogsDropped n ix docs) → inv e s Idle m.
Proof.
  intros [t Hinv] Hl Hph. exists t. eapply inv_phase_change; [done|done| |done].
  intros x k Hst. destruct ph; try done. by eapply Hph.
Qed.

Lemma latest_int64 e s ph m t : inv_at e s ph m t → is_int64 (latest_of t).
Proof.
  intros Hinv. unfold latest_of. destruct (t_latest t) as [n|] eqn:Hn; cbn.
  - by apply (ok_latest _ (rep_ok _ _ (inv_rep _ _ _ _ _ Hinv))).
  - unfold is_int64. lia.
Qed.

Lemma build_step_inv e s ph s' ph' m :
  inv e s ph m → loaded s = true → build_step e s ph s' ph' → inv e s' ph' m.
Proof.
  intros Hinv Hl Hstep. destruct Hstep as [s n ops s' H|s n ops s' H|s n ix f s' H|s n ix f s' H|s n ix ops docs s' H
    |s n ix ops docs s' H|s n ix docs s' H|s ph Hph|s n ops r s' H Hne|s n ix ops docs r s' H Hne].
  - destruct (runs_inv _ _ _ _ _ _ (apply_read_runs e s m Hinv Hl) H) as [-> ?]. done.
  - by destruct (runs_inv _ _ _ _ _ _ (apply_write_runs e s m n ops Hinv Hl) H).
  - by destruct (runs_inv _ _ _ _ _ _ (build_read_runs e s m n Hinv Hl) H) as [-> ?].
  - by destruct (runs_inv _ _ _ _ _ _ (build_save_runs e s m n ix f Hinv Hl) H).
  - assert (is_int64 n) as Hn.
    { destruct Hinv as [t Hinv]. destruct (inv_phase _ _ _ _ _ Hinv) as ([Hn Ha] & _).
      pose proof (latest_int64 _ _ _ _ _ Hinv).
      unfold is_int64 in *. lia. }
    by destruct (runs_inv _ _ _ _ _ _ (clean_read_runs e s m n ix Hinv Hl Hn) H) as [-> ?].
  - by destruct (runs_inv _ _ _ _ _ _ (clean_write_runs e s m n ix ops docs Hinv Hl) H).
  - destruct (runs_inv _ _ _ _ _ _ (clean_mem_runs e s m n ix docs Hinv Hl) H) as (_ & _ & _ & t & Hi & _).
    by exists t.
  - by eapply idle_of.
  - pose proof (runs_inv _ _ _ _ _ _ (apply_write_runs e s m n ops Hinv Hl) H) as Hr.
    destruct r as [[]| |]; [done|by destruct Hr..].
  - pose proof (runs_inv _ _ _ _ _ _ (clean_write_runs e s m n ix ops docs Hinv Hl) H) as Hr.
    destruct r as [[]| |]; [done|by destruct Hr..].
Qed.

(** Every reachable state stores the content of its batches. *)
Lemma reachable_inv bs s ph : reachable bs s ph → inv_dim s ph (content bs).
Proof.
  induction 1 as [|bs s ph o s' ph' Hr IH Hstep]; intros e0 He0; [apply inv_new|].
  assert (∀ e, dimensions e = dim → dimensions e = dimensions e0) as Hdim by congruence.
  destruct Hstep as [e s r s' He Hl H|e s ph b n s' He Hl [Hb Hlt] H|e s ph b r s' He Hl [Hb Hlt] H Hok
    |e s ph s' ph' He Hl H|s ph]; rewrite ?app_nil_r; try (apply (inv_env e); [by apply Hdim|]).
  - pose proof (runs_inv _ _ _ _ _ _ (load_runs e s _ (IH e He) Hl) H) as Hi. by destruct r; destruct Hi.
  - destruct (Batch_locked_inv e s ph _ _ _ _ _ _ (IH e He) Hl Hb Hlt H) as [_ [Hi _]].
    unfold content. rewrite foldl_app. exact Hi.
  - destruct (Batch_locked_inv e s ph _ _ _ _ _ _ (IH e He) Hl Hb Hlt H) as [_ Hi]. by destruct r.
  - eapply build_step_inv; [by apply IH|done|done].
  - eapply inv_restart. by apply IH.
Qed.

(** ** A whole build *)

Lemma apply_read_latest e (s : seg) n ops s' : apply_read e s = (Ok (n, ops), s') → n = latestLogID s.
Proof.
  intros Hr. assert (runs (apply_read e) s (λ r _, fst r = latestLogID s) (λ _, True)) as H.
  { unfold apply_read. run. apply get_reader_runs; [|done]. do 2 run. do 2 run; [|done]. intros [rows err] _.
    do 2 run; [|done]. intros _. by run. }
  by apply (runs_inv _ _ _ _ _ _ H) in Hr.
Qed.

(** A build that is not interleaved with batches ends with every log applied
    and dropped, nothing left in memory, and an index of what is stored. *)
Record built (s : seg) (m : gmap Z vector) : Prop := {
  built_docTS : docTS s = ∅;
  built_cache : docIDs (cache s) = [];
  built_ids : hnswLogID s = latestLogID s;
  built_index : ∀ x, is_int64 x → wrap64 x ∈ keys_of (index s) ↔ is_Some (m !! x)
}.

Lemma built_of e s m t n :
  inv_at e s Idle m t → loaded s = true → (∀ i c, t_logs t !! i = Some c → (n < i)%Z) →
  hnswLogID s = n → latestLogID s = n → built s m.
Proof.
  intros Hinv Hl Hlogs Hh Hlat. destruct (inv_loaded _ _ _ _ _ Hinv Hl) as (Hlat' & _ & _ & Hcov).
  assert (∀ x, no_log (t_logs t) x) as Hno.
  { intros x i c Hi _. apply Hlogs in Hi as Hgt.
    destruct (bnd_logs _ _ _ (inv_bounded _ _ _ _ _ Hinv) i c Hi). lia. }
  assert (docTS s = ∅) as Hts.
  { apply map_empty. intros x. destruct (docTS s !! x) as [k|] eqn:E; [|done].
    destruct (coh_ts _ _ _ _ (inv_coh _ _ _ _ _ Hinv) x k E) as [(c & Hnl & _)|[[] _]].
    by destruct (newest_log_some _ _ _ _ Hnl (Hno x)). }
  split; [done| |congruence|].
  - destruct (inv_cache _ _ _ _ _ Hinv) as [vs Hwf]. destruct (docIDs (cache s)) as [|x l] eqn:E; [done|].
    assert (docIDIndex (cache s) !! x = Some 0) as Hx by (apply (wf_index _ _ _ Hwf); by rewrite E).
    destruct (coh_cache _ _ _ _ (inv_coh _ _ _ _ _ Hinv) x (take (dimensions e) (drop (0 * dimensions e) (docVectors (cache s)))))
      as [k Hk]; [unfold cached; by rewrite Hx|]. by rewrite Hts, lookup_empty in Hk.
  - intros x Hx. rewrite (Hcov x Hx) by (by rewrite Hts, lookup_empty).
    destruct (inv_stores _ _ _ _ _ Hinv x) as [(i & c & Hnl & _)|[_ ->]]; [|done].
    by destruct (newest_log_some _ _ _ _ Hnl (Hno x)).
Qed.

Lemma BuildHNSW_built e s m :
  inv e s Idle m → loaded s = true →
  runs (BuildHNSW e) s (λ _ s', loaded s' = true ∧ inv e s' Idle m ∧ built s' m ∧ latestLogID s' = latestLogID s)
                       (λ _, True).
Proof.
  intros Hinv Hl. assert (load e s = (Ok tt, s)) as Hld by (unfold load, mbind, M_bind, get; by rewrite Hl).
  unfold BuildHNSW. do 2 run. unfold runs at 1. rewrite Hld.
  assert (is_int64 (latestLogID s)) as Hn64.
  { destruct Hinv as [t Hinv]. destruct (inv_loaded _ _ _ _ _ Hinv Hl) as (-> & _). by eapply latest_int64. }
  do 2 run. unfold applyLogs. run. unfold runs at 1. destruct (apply_read e s) as [[[n ops]| |] s1] eqn:E1; [|done..].
  apply apply_read_latest in E1 as Hn. subst n.
  destruct (runs_inv _ _ _ _ _ _ (apply_read_runs e s m Hinv Hl) E1) as [-> Hinv1]. cbn [fst snd] in Hinv1.
  run. eapply runs_mono; [by apply apply_write_runs| |done]. intros _ s2 (Hinv2 & Hl2 & Hla2). run.
  do 2 run. unfold buildHNSW. run. eapply runs_mono; [by apply build_read_runs| |done].
  intros [ix f] s3 [-> Hinv3]. run. eapply runs_mono; [by apply build_save_runs| |done].
  intros _ s4 (Hinv4 & Hl4 & Hla4). do 2 run. unfold cleanLogs. run.
  eapply runs_mono; [by apply clean_read_runs| |done]. intros [ops' docs] s5 [-> Hinv5]. cbn [fst snd] in Hinv5.
  run. eapply runs_mono; [by apply (clean_write_runs e s4 m (latestLogID s) ix ops' docs)| |done].
  intros _ s6 (Hinv6 & Hl6 & Hla6). eapply runs_mono; [by apply clean_mem_runs| |done].
  intros _ s7 (Hl7 & Hh7 & Hla7 & t & Hinv7 & Hlogs). split_and!; [done|by exists t| |congruence].
  eapply built_of; [done|done|done|done|congruence].
Qed.
End system.
