(* ===== verification/HNSWSearch.v ===== *)
(** The searches of a vector segment (pkg/core/hnsw_segment.go): exhaustive over
    the cache, approximate over the HNSW index with exact distances from the
    document rows, and the merge of the two. *)
From S2P Require Import Prelude Hash Strconv Shards Runs VectorStore HNSWCache HNSWSegment.

(** Document ids and their distances, two parallel slices. *)
Abbreviation found := (list Z * list Z)%type.

Section search.
Context {W Ix File : Type} {bluge : Bluge W sdoc} {breader : BlugeReader W} {us : Usearch Ix File}.
Context (e : env).
Local Abbreviation seg := (@seg W Ix File).
Local Abbreviation dim := (dimensions e).

Definition wrap_err {A} (msg : string) (r : res A) : res A :=
  match r with Err x => Err (msg +:+ ": " +:+ x) | r => r end.

Definition ExactSearch (ids : list Z) (vectors query : vector) (dimensions k : nat) : res found :=
  if decide (dimensions = 0) then Panic PDivZero
  else
    let count := length vectors / dimensions in
    let limit := Nat.min k count in
    if decide (limit = 0) then Ok ([], [])
    else
      '(keys, distances) ← usearch_ExactSearch vectors query count dimensions limit;
      docIDs ← foldM (λ acc key, x ← load_at key ids; mret (acc ++ [x])) [] keys;
      mret (docIDs, distances).

Definition searchCache (query : vector) (k : nat) (s : seg) : res found :=
  wrap_err "failed to exact search" (ExactSearch (docIDs (cache s)) (docVectors (cache s)) query dim k).

Definition searchDocsByIDs (query : vector) (k : nat) (ids : list Z) (s : seg) : res found :=
  if writer_open s then
    match Reader (disk s) with
    | Some x => Err ("failed to get reader: " +:+ x)
    | None =>
        (* the iterator's error is not looked at *)
        '(rows, _) ← readHNSWDocRowsByIDs (disk s) ids;
        let rows := filter (λ r, docTS s !! drow_ID r = None) rows in
        wrap_err "failed to exact search"
          (ExactSearch (drow_ID <$> rows) (concat (drow_Vector <$> rows)) query dim k)
    end
  else Panic PNilDeref.

(** [if len(docIDs) > int(k) { docIDs = docIDs[:k]; ... }]. *)
Definition truncate (k : nat) (r : found) : found :=
  if decide (k < length (fst r)) then (take k (fst r), take k (snd r)) else r.

Definition searchHNSW (query : vector) (k : nat) (s : seg) : res found :=
  match index s with
  | None => Ok ([], [])
  | Some ix =>
      let limit := wrap64 (int64 (Z.of_nat k + Z.of_nat (size (docTS s)))) in
      keys ← wrap_err "failed to search" (Ix_Search ix query limit);
      let ids := filter (λ x, docTS s !! x = None) (int64 <$> keys) in
      r ← wrap_err "failed to search docs by IDs" (searchDocsByIDs query k ids s);
      mret (truncate k r)
  end.

(** The vectors of the cached documents among [ids]. *)
Definition byids_step (c : vcache) (acc : list Z * vector) (id : Z) : res (list Z * vector) :=
  let '(ids, vec) := acc in
  match docIDIndex c !! id with
  | Some i => v ← slice (i * dim) ((i + 1) * dim) (docVectors c); mret (ids ++ [id], vec ++ v)
  | None => mret (ids, vec)
  end.

Definition searchCacheByIDs (query : vector) (k : nat) (ids : list Z) (s : seg) : res found :=
  '(found_ids, vec) ← foldM (byids_step (cache s)) ([], []) ids;
  wrap_err "failed to exact search" (ExactSearch found_ids vec query dim k).

(** The merge of two results: [i] and [j] are the next positions. *)
Fixpoint merge_loop (fuel : nat) (i j : nat) (ids1 distances1 ids2 distances2 : list Z) (acc : found) : res found :=
  match fuel with
  | O => Ok acc
  | S fuel =>
      let '(docIDs, distances) := acc in
      if decide (i = length ids1) then Ok (docIDs ++ drop j ids2, distances ++ drop j distances2)
      else if decide (j = length ids2) then Ok (docIDs ++ drop i ids1, distances ++ drop i distances1)
      else
        d1 ← load_at i distances1; d2 ← load_at j distances2;
        if f32_lt d1 d2 then
          x ← load_at i ids1;
          merge_loop fuel (i + 1) j ids1 distances1 ids2 distances2 (docIDs ++ [x], distances ++ [d1])
        else
          x ← load_at j ids2;
          merge_loop fuel i (j + 1) ids1 distances1 ids2 distances2 (docIDs ++ [x], distances ++ [d2])
  end.

Definition merge_found (r1 r2 : found) : res found :=
  merge_loop (length (fst r1) + length (fst r2) + 1) 0 0 (fst r1) (snd r1) (fst r2) (snd r2) ([], []).

(** [k = max(k, 0)]. *)
Definition limit_of (k : Z) : nat := Z.to_nat (Z.max k 0).

Definition Search_locked (query : vector) (k : Z) (s : seg) : res found :=
  if decide (length query = dim) then
    let k := limit_of k in
    r1 ← wrap_err "failed to search cache" (searchCache query k s);
    r2 ← wrap_err "failed to search hnsw" (searchHNSW query k s);
    r ← merge_found r1 r2;
    mret (truncate k r)
  else Err (wrong_dimension (length query)).

Definition SearchByIDs_locked (query : vector) (k : Z) (ids : list Z) (s : seg) : res found :=
  if decide (length query = dim) then
    let k := limit_of k in
    r1 ← wrap_err "failed to search cache" (searchCacheByIDs query k ids s);
    r2 ← wrap_err "failed to search docs by IDs" (searchDocsByIDs query k ids s);
    r ← merge_found r1 r2;
    mret (truncate k r)
  else Err (wrong_dimension (length query)).

Definition Search (query : vector) (k : Z) : M seg found :=
  _ ← wrap "failed to load" (load e); s ← get; lift (Search_locked query k s).

Definition SearchByIDs (query : vector) (k : Z) (ids : list Z) : M seg found :=
  _ ← wrap "failed to load" (load e); s ← get; lift (SearchByIDs_locked query k ids s).
End search.

(** * The nearest of a list of candidates *)

(** A candidate: a document and its distance. *)
Abbreviation cand := (Z * Z)%type.

Definition nearer (a b : cand) : Prop := f32_lt (snd b) (snd a) = false.

(** [sel] are [k] nearest of the candidates [cs], in order. *)
Record topk (k : nat) (sel cs : list cand) : Prop := {
  topk_sorted : StronglySorted nearer sel;
  topk_split : ∃ rest, cs ≡ₚ sel ++ rest ∧ length sel = Nat.min k (length cs) ∧
                       ∀ a b, a ∈ sel → b ∈ rest → nearer a b
}.

Definition numbers (cs : list cand) : Prop := ∀ c, c ∈ cs → f32_nan (snd c) = false.

Lemma nearer_key a b :
  f32_nan (snd a) = false → f32_nan (snd b) = false → nearer a b ↔ (f32_key (snd a) ≤ f32_key (snd b))%Z.
Proof.
  intros Ha Hb. unfold nearer, f32_lt. rewrite Ha, Hb. cbn. rewrite Z.ltb_ge. done.
Qed.

Fixpoint pmerge (l1 : list cand) : list cand → list cand :=
  fix go (l2 : list cand) : list cand :=
    match l1, l2 with
    | [], _ => l2
    | _, [] => l1
    | a :: l1', b :: l2' => if f32_lt (snd a) (snd b) then a :: pmerge l1' l2 else b :: go l2'
    end.

Lemma pmerge_nil_l l2 : pmerge [] l2 = l2.
Proof. by destruct l2. Qed.
Lemma pmerge_nil_r l1 : pmerge l1 [] = l1.
Proof. by destruct l1. Qed.
Lemma pmerge_cons a l1 b l2 :
  pmerge (a :: l1) (b :: l2) =
  if f32_lt (snd a) (snd b) then a :: pmerge l1 (b :: l2) else b :: pmerge (a :: l1) l2.
Proof. done. Qed.

Lemma pmerge_perm l1 : ∀ l2, pmerge l1 l2 ≡ₚ l1 ++ l2.
Proof.
  induction l1 as [|a l1 IH1]; intros l2; [by rewrite pmerge_nil_l|].
  induction l2 as [|b l2 IH2]; [by rewrite pmerge_nil_r, app_nil_r|].
  rewrite pmerge_cons. destruct (f32_lt (snd a) (snd b)).
  - by rewrite IH1.
  - rewrite IH2. rewrite (Permutation_middle (a :: l1) l2 b). done.
Qed.

Lemma pmerge_sorted l1 : ∀ l2,
  numbers (l1 ++ l2) → StronglySorted nearer l1 → StronglySorted nearer l2 →
  StronglySorted nearer (pmerge l1 l2).
Proof.
  induction l1 as [|a l1 IH1]; intros l2; [by rewrite pmerge_nil_l|].
  induction l2 as [|b l2 IH2]; [by rewrite pmerge_nil_r|]. intros Hnum H1 H2.
  rewrite pmerge_cons. apply StronglySorted_inv in H1 as HS1. destruct HS1 as [HS1 Ha].
  apply StronglySorted_inv in H2 as HS2. destruct HS2 as [HS2 Hb].
  rewrite Forall_forall in Ha, Hb.
  assert (f32_nan (snd a) = false) as Hna by (apply Hnum; set_solver).
  assert (f32_nan (snd b) = false) as Hnb by (apply Hnum; set_solver).
  destruct (f32_lt (snd a) (snd b)) eqn:Hlt.
  - constructor; [apply IH1; [intros c Hc; apply Hnum; set_solver|done..]|].
    apply Forall_forall. intros c. rewrite pmerge_perm. intros [Hc|Hc]%elem_of_app; [by apply Ha|].
    assert (f32_nan (snd c) = false) as Hnc by (apply Hnum; set_solver).
    assert (nearer b c) as Hbc.
    { apply elem_of_cons in Hc as [->|Hc]; [|by apply Hb]. apply nearer_key; done || lia. }
    rewrite nearer_key in Hbc |- * by done. unfold f32_lt in Hlt. rewrite Hna, Hnb in Hlt. cbn in Hlt. lia.
  - constructor; [apply IH2; [intros c Hc; apply Hnum; set_solver|done..]|].
    apply Forall_forall. intros c. rewrite pmerge_perm. intros [Hc|Hc]%elem_of_app; [|by apply Hb].
    assert (f32_nan (snd c) = false) as Hnc by (apply Hnum; set_solver).
    assert (nearer a c) as Hac.
    { apply elem_of_cons in Hc as [->|Hc]; [|by apply Ha]. apply nearer_key; done || lia. }
    assert (nearer b a) as Hba by exact Hlt.
    rewrite nearer_key in Hac, Hba |- * by done. lia.
Qed.

Lemma load_at_fmap {A} (f : cand → A) i (p : list cand) c :
  p !! i = Some c → load_at i (f <$> p) = Ok (f c).
Proof. intros Hp. unfold load_at. by rewrite list_lookup_fmap, Hp. Qed.

(** The loop over indices computes the merge of the lists; its fuel suffices. *)
Lemma merge_loop_spec p1 p2 fuel : ∀ i j acc,
  i ≤ length p1 → j ≤ length p2 → (length p1 - i) + (length p2 - j) < fuel →
  merge_loop fuel i j p1.*1 p1.*2 p2.*1 p2.*2 acc =
  Ok (fst acc ++ (pmerge (drop i p1) (drop j p2)).*1, snd acc ++ (pmerge (drop i p1) (drop j p2)).*2).
Proof.
  induction fuel as [|fuel IH]; intros i j [ids ds] Hi Hj Hf; [lia|]. cbn [merge_loop fst snd].
  rewrite !length_fmap. case_decide as Hi'.
  { rewrite (drop_ge p1) by lia. rewrite pmerge_nil_l, !fmap_drop. done. }
  case_decide as Hj'.
  { rewrite (drop_ge p2) by lia. rewrite pmerge_nil_r, !fmap_drop. done. }
  destruct (lookup_lt_is_Some_2 p1 i) as [a Ha]; [lia|]. destruct (lookup_lt_is_Some_2 p2 j) as [b Hb]; [lia|].
  rewrite (load_at_fmap snd i p1 a Ha), (load_at_fmap snd j p2 b Hb). cbn [mbind res_bind].
  rewrite (drop_S _ _ _ Ha), (drop_S _ _ _ Hb), pmerge_cons.
  destruct (f32_lt (snd a) (snd b)).
  - rewrite (load_at_fmap fst i p1 a Ha). cbn [mbind res_bind]. rewrite IH by lia. cbn [fst snd].
    rewrite <-!app_assoc, <-(drop_S _ _ _ Hb). replace (i + 1) with (S i) by lia. done.
  - rewrite (load_at_fmap fst j p2 b Hb). cbn [mbind res_bind]. rewrite IH by lia. cbn [fst snd].
    rewrite <-!app_assoc, <-(drop_S _ _ _ Ha). replace (j + 1) with (S j) by lia. done.
Qed.

Lemma merge_found_spec p1 p2 :
  merge_found (p1.*1, p1.*2) (p2.*1, p2.*2) = Ok ((pmerge p1 p2).*1, (pmerge p1 p2).*2).
Proof.
  unfold merge_found. cbn [fst snd]. rewrite merge_loop_spec; rewrite ?length_fmap; [done|lia..].
Qed.

Lemma truncate_spec k (p : list cand) : truncate k (p.*1, p.*2) = ((take k p).*1, (take k p).*2).
Proof.
  unfold truncate. cbn [fst snd]. rewrite length_fmap. case_decide.
  - by rewrite !fmap_take.
  - by rewrite take_ge by lia.
Qed.

Lemma StronglySorted_app_elem {A} (R : A → A → Prop) l1 l2 x y :
  StronglySorted R (l1 ++ l2) → x ∈ l1 → y ∈ l2 → R x y.
Proof.
  induction l1 as [|a l1 IH]; intros Hs Hx Hy; [by apply elem_of_nil in Hx|].
  cbn in Hs. apply StronglySorted_inv in Hs as [Hs Ha]. rewrite Forall_forall in Ha.
  apply elem_of_cons in Hx as [->|Hx]; [apply Ha; apply elem_of_app; by right|by apply IH].
Qed.

Lemma StronglySorted_take {A} (R : A → A → Prop) k l : StronglySorted R l → StronglySorted R (take k l).
Proof.
  intros Hs. revert k. induction Hs as [|a l _ IH Ha]; intros [|k]; cbn; try by constructor.
  constructor; [apply IH|]. by apply Forall_take.
Qed.

(** An element left out of a full selection is no nearer than the merged
    prefix: the selection alone already fills it. *)
Lemma merged_before k sel1 l b a :
  numbers l → numbers [b] → NoDup l → StronglySorted nearer l → length sel1 = k → NoDup sel1 →
  (∀ x, x ∈ sel1 → x ∈ l) → (∀ x, x ∈ sel1 → nearer x b) → a ∈ take k l → nearer a b.
Proof.
  intros Hnum Hnb Hnd Hs Hlen Hnd1 Hsub Hnear Ha.
  assert (f32_nan (snd b) = false) as Hb by (apply Hnb; by left).
  assert (f32_nan (snd a) = false) as Hna by (apply Hnum; by eapply elem_of_take_weaken).
  apply nearer_key; [done..|]. apply Z.le_ngt. intros Hlt.
  assert (∀ x, x ∈ sel1 → x ∈ take k l) as Hall.
  { intros x Hx. specialize (Hsub x Hx) as Hxl. rewrite <-(take_drop k l) in Hxl.
    apply elem_of_app in Hxl as [?|Hd]; [done|]. exfalso.
    rewrite <-(take_drop k l) in Hs. pose proof (StronglySorted_app_elem _ _ _ a x Hs Ha Hd) as Hax.
    assert (f32_nan (snd x) = false) as Hnx by (by apply Hnum, Hsub).
    specialize (Hnear x Hx). rewrite nearer_key in Hax, Hnear by done. lia. }
  assert (sel1 ≡ₚ take k l) as Hp.
  { apply submseteq_length_Permutation; [by apply NoDup_submseteq|]. rewrite length_take. lia. }
  rewrite <-Hp in Ha. specialize (Hnear a Ha). rewrite nearer_key in Hnear by done. lia.
Qed.

Lemma topk_sel k sel cs : topk k sel cs → ∀ c, c ∈ sel → c ∈ cs.
Proof. intros [_ (rest & Hp & _)] c Hc. rewrite Hp. apply elem_of_app. by left. Qed.

(** The nearest of two lists, from the nearest of each. *)
Lemma topk_merge k sel1 cs1 sel2 cs2 :
  numbers (cs1 ++ cs2) → NoDup (cs1 ++ cs2) → topk k sel1 cs1 → topk k sel2 cs2 →
  topk k (take k (pmerge sel1 sel2)) (cs1 ++ cs2).
Proof.
  intros Hnum Hnd Ht1 Ht2. pose proof (topk_sel _ _ _ Ht1) as Hin1. pose proof (topk_sel _ _ _ Ht2) as Hin2.
  destruct Ht1 as [Hs1 (r1 & Hp1 & Hl1 & Hn1)]. destruct Ht2 as [Hs2 (r2 & Hp2 & Hl2 & Hn2)].
  assert (numbers (sel1 ++ sel2)) as Hnsel.
  { intros c [Hc|Hc]%elem_of_app; apply Hnum, elem_of_app; auto. }
  pose proof (pmerge_sorted sel1 sel2 Hnsel Hs1 Hs2) as Hs. pose proof (pmerge_perm sel1 sel2) as Hp.
  assert (cs1 ++ cs2 ≡ₚ (sel1 ++ sel2) ++ (r1 ++ r2)) as Hsplit.
  { rewrite Hp1, Hp2. rewrite <-!app_assoc. apply Permutation_app_head. rewrite !app_assoc.
    apply Permutation_app_tail. apply Permutation_app_comm. }
  assert (NoDup (sel1 ++ sel2)) as Hnds by (rewrite Hsplit in Hnd; by apply NoDup_app in Hnd as [? _]).
  assert (numbers (pmerge sel1 sel2)) as Hnm by (intros c Hc; apply Hnsel; by rewrite <-Hp).
  apply NoDup_app in Hnds as Hnds'. destruct Hnds' as (Hnd1 & _ & Hnd2).
  assert (length (pmerge sel1 sel2) = length sel1 + length sel2) as Hlen by (by rewrite Hp, length_app).
  assert (NoDup (pmerge sel1 sel2)) as Hndm by (by rewrite Hp).
  pose proof (Permutation_length Hp1) as Hpl1. pose proof (Permutation_length Hp2) as Hpl2.
  rewrite length_app in Hpl1, Hpl2.
  split; [by apply StronglySorted_take|].
  exists (drop k (pmerge sel1 sel2) ++ (r1 ++ r2)). split_and!.
  - rewrite Hsplit, <-Hp, (app_assoc (take _ _)), take_drop. done.
  - rewrite length_take, Hlen, length_app. lia.
  - intros a b Ha [Hb|[Hb|Hb]%elem_of_app]%elem_of_app.
    + rewrite <-(take_drop k (pmerge sel1 sel2)) in Hs. by eapply StronglySorted_app_elem.
    + apply (merged_before k sel1 (pmerge sel1 sel2)); try done.
      * intros c ->%list_elem_of_singleton. apply Hnum, elem_of_app. left. rewrite Hp1. apply elem_of_app. by right.
      * destruct r1; [by apply elem_of_nil in Hb|]. cbn in Hpl1. lia.
      * intros x Hx. rewrite Hp. apply elem_of_app. by left.
      * intros x Hx. by apply Hn1.
    + apply (merged_before k sel2 (pmerge sel1 sel2)); try done.
      * intros c ->%list_elem_of_singleton. apply Hnum, elem_of_app. right. rewrite Hp2. apply elem_of_app. by right.
      * destruct r2; [by apply elem_of_nil in Hb|]. cbn in Hpl2. lia.
      * intros x Hx. rewrite Hp. apply elem_of_app. by right.
      * intros x Hx. by apply Hn2.
Qed.

Lemma StronglySorted_fmap_inv {A B} (R : B → B → Prop) (f : A → B) l :
  StronglySorted R (f <$> l) → StronglySorted (λ a b, R (f a) (f b)) l.
Proof.
  induction l as [|a l IH]; [constructor|]. rewrite fmap_cons. intros [Hs Ha]%StronglySorted_inv.
  constructor; [by apply IH|]. rewrite Forall_fmap in Ha. exact Ha.
Qed.

Section exact.
Context {Ix File : Type} {us : Usearch Ix File}.

(** The candidates of an exhaustive search. *)
Definition candidates (ids : list Z) (vs : list vector) (q : vector) : list cand :=
  zip ids ((λ v, L2sq v q) <$> vs).

Definition cand_at (ids : list Z) (vs : list vector) (q : vector) (i : nat) : cand :=
  (nth i ids 0%Z, L2sq (nth i vs []) q).

Lemma candidates_seq ids vs q :
  length ids = length vs → candidates ids vs q = cand_at ids vs q <$> seq 0 (length vs).
Proof.
  revert vs. induction ids as [|x ids IH]; intros [|v vs] Hlen; try done.
  injection Hlen as Hlen. unfold candidates. cbn [length seq fmap list_fmap zip zip_with].
  f_equal. rewrite <-fmap_S_seq. change (zip_with pair ids ((λ v0, L2sq v0 q) <$> vs)) with (candidates ids vs q).
  rewrite IH by done. rewrite <-list_fmap_compose. done.
Qed.

Lemma docIDs_loop (ids : list Z) keys : ∀ acc r,
  foldM (λ acc key, x ← load_at key ids; mret (acc ++ [x])) acc keys = Ok r →
  r = acc ++ ((λ i, nth i ids 0%Z) <$> keys).
Proof.
  induction keys as [|i keys IH]; intros acc r; cbn [foldM]; [intros [= <-]; by rewrite app_nil_r|].
  destruct (load_at i ids) as [x| |] eqn:Hx; cbn [mbind res_bind]; [|done..].
  unfold load_at in Hx. destruct (ids !! i) as [x'|] eqn:Hi; simplify_eq.
  intros ->%IH. rewrite <-app_assoc, fmap_cons. cbn. do 2 f_equal.
  symmetry. apply nth_lookup_Some with (d := 0%Z) in Hi. done.
Qed.

Lemma ExactSearch_topk ids vs q d k r :
  d ≠ 0 → Forall (λ v : vector, length v = d) vs → length q = d → length ids = length vs →
  ExactSearch ids (concat vs) q d k = Ok r →
  ∃ sel, r = (sel.*1, sel.*2) ∧ topk k sel (candidates ids vs q).
Proof.
  intros Hd Hvs Hq Hlen. unfold ExactSearch. rewrite decide_False by done. cbv zeta.
  rewrite (length_concat_dim d) by done. rewrite Nat.div_mul by done.
  assert (length (candidates ids vs q) = length vs) as Hlc
    by (rewrite candidates_seq by done; by rewrite length_fmap, length_seq).
  case_decide as Hlim.
  { intros [= <-]. exists []. split; [done|]. split; [constructor|]. exists (candidates ids vs q).
    split_and!; [done|cbn; lia|by intros a b ?%elem_of_nil]. }
  destruct (usearch_ExactSearch _ _ _ _ _) as [[keys dists]| |] eqn:E; cbn [mbind res_bind]; [|done..].
  apply ExactSearch_spec in E as (Hk & Hnd & Hlt & -> & Hs & Hfar); [|done|done|lia].
  destruct (foldM _ _ keys) as [docs| |] eqn:F; cbn [mbind res_bind]; [|done..]. intros [= <-].
  apply docIDs_loop in F as ->. cbn [app]. exists (cand_at ids vs q <$> keys). split; [|split].
  - by rewrite <-!list_fmap_compose.
  - apply (StronglySorted_fmap_inv (λ x y, f32_lt y x = false) snd). rewrite <-list_fmap_compose. exact Hs.
  - exists (cand_at ids vs q <$> filter (λ i, i ∉ keys) (seq 0 (length vs))). split_and!.
    + rewrite candidates_seq by done. rewrite (seq_split keys (length vs)) at 1 by done. by rewrite fmap_app.
    + rewrite length_fmap, Hlc. lia.
    + intros a b (i & -> & Hi)%list_elem_of_fmap (j & -> & [Hj Hjs]%list_elem_of_filter)%list_elem_of_fmap.
      unfold nearer. cbn [snd cand_at]. apply Hfar; [done| |done]. apply elem_of_seq in Hjs. lia.
Qed.
End exact.
