(* ===== verification/HNSWTheorems.v ===== *)
(** What clients of a vector segment can rely on (pkg/core/hnsw_segment.go): the
    stored content, the counts and the searches, in every state that batches,
    builds, crashes and loads can reach. *)
From S2P Require Import Prelude Hash Strconv Shards Runs VectorStore HNSWCache HNSWSegment HNSWRefine HNSWBuild HNSWSystem HNSWSearch.

Lemma topk_perm k sel cs cs' : cs ≡ₚ cs' → topk k sel cs → topk k sel cs'.
Proof.
  intros Hp [Hs (rest & Hr & Hl & Hn)]. split; [done|]. exists rest. rewrite <-Hp. done.
Qed.

Section theorems.
Context {W Ix File : Type} {bluge : Bluge W sdoc} {breader : BlugeReader W} {us : Usearch Ix File}.
Context (e : env).
Local Abbreviation seg := (@seg W Ix File).
Local Abbreviation dim := (dimensions e).

(** The candidates among [ids] when the content is [m]. *)
Definition cands (m : Z → option vector) (q : vector) (ids : list Z) : list cand :=
  omap (λ x, (λ v, (x, L2sq v q)) <$> m x) ids.

Lemma elem_of_cands m q ids x d :
  (x, d) ∈ cands m q ids ↔ x ∈ ids ∧ ∃ v, m x = Some v ∧ d = L2sq v q.
Proof.
  unfold cands. rewrite list_elem_of_omap. split.
  - intros (y & Hy & Hm). apply fmap_Some in Hm as (v & Hv & [= -> ->]). eauto.
  - intros (Hx & v & Hv & ->). exists x. split; [done|]. by rewrite Hv.
Qed.

Lemma NoDup_cands m q ids : NoDup ids → NoDup (cands m q ids).*1.
Proof.
  induction 1 as [|x ids Hx _ IH]; [constructor|]. unfold cands in *. cbn.
  destruct (m x) as [v|]; cbn; [|done]. apply NoDup_cons. split; [|done].
  intros ([y d] & Hy & Hin)%list_elem_of_fmap. cbn in Hy. subst y. apply Hx.
  by apply elem_of_cands in Hin as [? _].
Qed.

Lemma cands_zip ids vs q (m : Z → option vector) :
  length ids = length vs → (∀ i x v, ids !! i = Some x → vs !! i = Some v → m x = Some v) →
  candidates ids vs q = cands m q ids.
Proof.
  revert vs. induction ids as [|x ids IH]; intros [|v vs] Hlen Hm; try done.
  injection Hlen as Hlen. unfold candidates, cands in *. cbn.
  rewrite (Hm 0 x v) by done. cbn. f_equal. apply IH; [done|]. intros i. apply (Hm (S i)).
Qed.

(** The cache, searched exhaustively. *)
Lemma searchCache_topk q k (s : seg) r :
  dim ≠ 0 → length q = dim → cache_ok dim (cache s) → searchCache e q k s = Ok r →
  ∃ sel, r = (sel.*1, sel.*2) ∧ topk k sel (cands (cached dim (cache s)) q (docIDs (cache s))).
Proof.
  intros Hd Hq [vs Hwf] Hr. pose proof Hwf as [Hf Hdim Hl Hi]. unfold searchCache in Hr. rewrite Hf in Hr.
  destruct (ExactSearch _ _ _ _ _) as [r'| |] eqn:E; cbn in Hr; simplify_eq.
  apply ExactSearch_topk in E as (sel & -> & Ht); [|done..]. exists sel. split; [done|].
  rewrite (cands_zip _ _ _ (cached dim (cache s))) in Ht; [done|done|].
  intros i x v Hx Hv. rewrite (cached_wf _ _ _ _ Hwf). apply Hi in Hx. by rewrite Hx.
Qed.

Lemma byids_loop c vs ids : cache_wf dim c vs → ∀ acc avs,
  ∃ ids' vs', foldM (byids_step e c) (acc, concat avs) ids = Ok (acc ++ ids', concat (avs ++ vs')) ∧
    length ids' = length vs' ∧ Forall (λ v : vector, length v = dim) vs' ∧
    ∀ q, candidates ids' vs' q = cands (cached dim c) q ids.
Proof.
  intros Hwf. pose proof Hwf as [Hf Hdim Hl Hi]. induction ids as [|x ids IH]; intros acc avs.
  - exists [], []. rewrite !app_nil_r. done.
  - cbn [foldM]. unfold cands. cbn [omap list_omap]. rewrite (cached_wf _ _ _ x Hwf).
    unfold byids_step at 2. destruct (docIDIndex c !! x) as [i|] eqn:Hx; cbn [mbind res_bind option_bind].
    + pose proof (proj1 (Hi x i) Hx) as Hxi. apply lookup_lt_Some in Hxi. rewrite <-Hl in Hxi.
      apply lookup_lt_is_Some in Hxi as [v Hv]. rewrite Hf, (slice_concat dim i v) by done.
      cbn [mbind res_bind]. destruct (IH (acc ++ [x]) (avs ++ [v])) as (ids' & vs' & Hfold & Hlen & Hvs & Hc).
      exists (x :: ids'), (v :: vs'). rewrite concat_app in Hfold. cbn [concat] in Hfold. rewrite app_nil_r in Hfold.
      unfold mret, res_ret. cbn [mbind res_bind]. rewrite Hfold, <-!app_assoc. split_and!; [done|cbn; lia| |].
      * constructor; [|done]. by eapply (Forall_lookup_1 _ _ _ _ Hdim).
      * intros q. rewrite Hv. cbn. unfold candidates in *. cbn. f_equal. apply Hc.
    + unfold mret, res_ret. cbn [mbind res_bind]. destruct (IH acc avs) as (ids' & vs' & H). exists ids', vs'. exact H.
Qed.

Lemma searchCacheByIDs_topk q k ids (s : seg) r :
  dim ≠ 0 → length q = dim → cache_ok dim (cache s) → searchCacheByIDs e q k ids s = Ok r →
  ∃ sel, r = (sel.*1, sel.*2) ∧ topk k sel (cands (cached dim (cache s)) q ids).
Proof.
  intros Hd Hq [vs Hwf]. unfold searchCacheByIDs. 
  destruct (byids_loop (cache s) vs ids Hwf [] []) as (ids' & vs' & Hf & Hlen & Hvs & Hc). cbn [concat] in Hf.
  rewrite Hf. cbn [mbind res_bind app].
  destruct (ExactSearch _ _ _ _ _) as [r'| |] eqn:E; cbn; intros; simplify_eq.
  apply ExactSearch_topk in E as (sel & -> & Ht); [|done..]. exists sel. by rewrite Hc in Ht.
Qed.

Lemma candidates_rows rows q :
  candidates (drow_ID <$> rows) (drow_Vector <$> rows) q = (λ r, (drow_ID r, L2sq (drow_Vector r) q)) <$> rows.
Proof. unfold candidates. induction rows as [|r rows IH]; cbn; [done|]. f_equal. exact IH. Qed.

(** The document rows, searched exhaustively, when they can be read. *)
Lemma searchDocsByIDs_topk q k ids (s : seg) ph m t rows0 r :
  dim ≠ 0 → length q = dim → inv_at e s ph m t → Forall is_int64 ids →
  readHNSWDocRowsByIDs (disk s) ids = Ok (rows0, None) → searchDocsByIDs e q k ids s = Ok r →
  ∃ sel cs, r = (sel.*1, sel.*2) ∧ topk k sel cs ∧ NoDup cs.*1 ∧
    ∀ x d, (x, d) ∈ cs ↔ x ∈ ids ∧ docTS s !! x = None ∧ ∃ v, t_docs t !! x = Some v ∧ d = L2sq v q.
Proof.
  intros Hd Hq Hinv Hids Hrows. unfold searchDocsByIDs. destruct (writer_open s); [|done].
  destruct (Reader (disk s)); [done|]. rewrite Hrows. cbn [mbind res_bind].
  destruct (readHNSWDocRowsByIDs_spec _ t _ _ (inv_rep _ _ _ _ _ Hinv) Hids Hrows) as [Hnd Hin].
  set (rows := filter _ rows0). intros Hr.
  destruct (ExactSearch _ _ _ _ _) as [r'| |] eqn:E; cbn in Hr; simplify_eq.
  assert (∀ x v, mkDocRow x v ∈ rows ↔ x ∈ ids ∧ docTS s !! x = None ∧ t_docs t !! x = Some v) as Hel.
  { intros x v. unfold rows. rewrite list_elem_of_filter, Hin. cbn. tauto. }
  apply ExactSearch_topk in E as (sel & -> & Ht); [|done| |done|by rewrite !length_fmap].
  2:{ apply Forall_fmap, Forall_forall. intros [x v] (_ & _ & Hv)%Hel. cbn.
      apply (bnd_docs _ _ _ (inv_bounded _ _ _ _ _ Hinv) x v Hv). }
  rewrite candidates_rows in Ht. eexists sel, _. split_and!; [done|exact Ht| |].
  - rewrite <-list_fmap_compose. by apply NoDup_fmap_filter.
  - intros x d. rewrite list_elem_of_fmap. split.
    + intros ([y v] & [= -> ->] & (H1 & H2 & H3)%Hel). eauto.
    + intros (H1 & H2 & v & H3 & ->). exists (mkDocRow x v). split; [done|]. by apply Hel.
Qed.

Lemma NoDup_fst_NoDup (cs : list cand) : NoDup cs.*1 → NoDup cs.
Proof. apply NoDup_fmap_1. Qed.

(** Two disjoint sources that together make up the candidates. *)
Lemma cands_split m cs1 cs2 q ids :
  NoDup ids → NoDup cs1.*1 → NoDup cs2.*1 → (∀ x d d', (x, d) ∈ cs1 → (x, d') ∈ cs2 → False) →
  (∀ x d, (x, d) ∈ cs1 ∨ (x, d) ∈ cs2 ↔ x ∈ ids ∧ ∃ v, m x = Some v ∧ d = L2sq v q) →
  cs1 ++ cs2 ≡ₚ cands m q ids.
Proof.
  intros Hids H1 H2 Hdis Hel. apply NoDup_Permutation.
  - apply NoDup_app. split_and!; [by apply NoDup_fst_NoDup| |by apply NoDup_fst_NoDup].
    intros [x d] Hx Hx'. by eapply Hdis.
  - by apply NoDup_fst_NoDup, NoDup_cands.
  - intros [x d]. rewrite elem_of_app, Hel, elem_of_cands. done.
Qed.

(** A finished search: the merge, cut to [k]. *)
Lemma merge_finish sel1 sel2 cs1 cs2 k (r : found) :
  topk k sel1 cs1 → topk k sel2 cs2 → numbers (cs1 ++ cs2) → NoDup (cs1 ++ cs2) →
  (r ← merge_found (sel1.*1, sel1.*2) (sel2.*1, sel2.*2); mret (truncate k r)) = Ok r →
  ∃ sel, r = (sel.*1, sel.*2) ∧ topk k sel (cs1 ++ cs2).
Proof.
  intros H1 H2 Hnum Hnd. rewrite merge_found_spec. cbn [mbind res_bind]. rewrite truncate_spec. intros [= <-].
  eexists. split; [done|]. by apply topk_merge.
Qed.

Lemma wrap_err_ok {A} msg (r : res A) a : wrap_err msg r = Ok a → r = Ok a.
Proof. by destruct r. Qed.

(** Reading document rows by id does not fail in this state. *)
Definition readable (s : seg) : Prop :=
  ∀ ids, Forall is_int64 ids → ∃ rows, readHNSWDocRowsByIDs (disk s) ids = Ok (rows, None).

Lemma searchDocs_content q k ids (s : seg) ph m r :
  dim ≠ 0 → length q = dim → inv e s ph m → loaded s = true → readable s → Forall is_int64 ids →
  searchDocsByIDs e q k ids s = Ok r →
  ∃ sel cs, r = (sel.*1, sel.*2) ∧ topk k sel cs ∧ NoDup cs.*1 ∧
    ∀ x d, (x, d) ∈ cs ↔ x ∈ ids ∧ docTS s !! x = None ∧ ∃ v, m !! x = Some v ∧ d = L2sq v q.
Proof.
  intros Hd Hq [t Hinv] Hl Hread Hids Hr. destruct (Hread ids Hids) as [rows Hrows].
  destruct (searchDocsByIDs_topk q k ids s ph m t rows r) as (sel & cs & -> & Ht & Hnd & Hel); try done.
  exists sel, cs. split_and!; [done..|]. intros x d. rewrite Hel.
  pose proof (mem_view e s ph m t x Hinv Hl) as Hv. split; intros (H1 & H2 & v & H3 & ->);
    rewrite H2 in Hv; destruct Hv as [Hv _]; (split_and!; [done..|]); exists v; split; congruence.
Qed.

Lemma mem_cached (s : seg) ph m x v :
  inv e s ph m → loaded s = true → (cached dim (cache s) x = Some v ↔ is_Some (docTS s !! x) ∧ m !! x = Some v).
Proof.
  intros [t Hinv] Hl. pose proof (mem_view e s ph m t x Hinv Hl) as Hv.
  destruct (docTS s !! x); [rewrite Hv; naive_solver|]. destruct Hv as [_ ->].
  split; [done|]. by intros [[? ?] _].
Qed.

(** C6: A search restricted to a list of documents returns exactly the [k]
    nearest of those the segment stores, with their true distances, in order:
    in every reachable state, whatever part of the documents is still only in
    the log. *)
Theorem SearchByIDs_exact bs (s : seg) ph q k ids r :
  reachable dim bs s ph → loaded s = true → dim ≠ 0 → readable s → Forall is_int64 ids → NoDup ids →
  (∀ x v, x ∈ ids → content bs !! x = Some v → f32_nan (L2sq v q) = false) →
  SearchByIDs_locked e q k ids s = Ok r →
  ∃ sel, r = (sel.*1, sel.*2) ∧ topk (limit_of k) sel (cands (λ x, content bs !! x) q ids).
Proof.
  intros Hreach Hl Hd Hread Hids Hnd Hnum. unfold SearchByIDs_locked. case_decide as Hq; [|done]. cbv zeta.
  pose proof (reachable_inv dim bs s ph Hreach e eq_refl) as Hinv. pose proof Hinv as [t Hinv_at].
  destruct (wrap_err _ (searchCacheByIDs _ _ _ _ _)) as [r1| |] eqn:E1; cbn [mbind res_bind]; [|done..].
  destruct (wrap_err _ (searchDocsByIDs _ _ _ _ _)) as [r2| |] eqn:E2; cbn [mbind res_bind]; [|done..].
  apply wrap_err_ok, searchCacheByIDs_topk in E1 as (sel1 & -> & Ht1); [|done|done|apply Hinv_at].
  apply wrap_err_ok in E2. eapply searchDocs_content in E2 as (sel2 & cs2 & -> & Ht2 & Hnd2 & Hel); [|done..].
  assert (cands (cached dim (cache s)) q ids ++ cs2 ≡ₚ cands (λ x, content bs !! x) q ids) as Hp.
  { apply cands_split; [done|by apply NoDup_cands|done| |].
    - intros x d d' (_ & v & [[n Hts] _]%(mem_cached s ph _ x v Hinv Hl) & _)%elem_of_cands (_ & Hn & _)%Hel. congruence.
    - intros x d. rewrite elem_of_cands, Hel. split.
      + intros [(Hx & v & [_ Hv]%(mem_cached s ph _ x v Hinv Hl) & ->)|(Hx & _ & v & Hv & ->)]; eauto.
      + intros (Hx & v & Hv & ->). destruct (docTS s !! x) as [n|] eqn:Hts; [left|right]; (split; [done|]).
        * exists v. split; [|done]. apply (mem_cached s ph _ x v Hinv Hl). rewrite Hts. eauto.
        * split; [done|]. eauto. }
  intros Hm. apply (merge_finish _ _ _ _ _ _ Ht1 Ht2) in Hm as (sel & -> & Ht).
  - exists sel. split; [done|]. by eapply topk_perm.
  - intros [x d]. rewrite Hp. intros (Hx & v & Hv & ->)%elem_of_cands. by eapply Hnum.
  - rewrite Hp. by apply NoDup_fst_NoDup, NoDup_cands.
Qed.

Lemma NoDup_docIDs c : cache_ok dim c → NoDup (docIDs c).
Proof.
  intros [vs Hwf]. apply NoDup_alt. intros i j x Hi Hj.
  apply (wf_index _ _ _ Hwf) in Hi, Hj. congruence.
Qed.

Lemma elem_of_docIDs c x : cache_ok dim c → x ∈ docIDs c ↔ is_Some (cached dim c x).
Proof.
  intros [vs Hwf]. rewrite list_elem_of_lookup. unfold cached. rewrite fmap_is_Some. split.
  - intros [i Hi]. exists i. by apply (wf_index _ _ _ Hwf).
  - intros [i Hi]. exists i. by apply (wf_index _ _ _ Hwf).
Qed.

Lemma searchHNSW_content q k (s : seg) ph m r :
  dim ≠ 0 → length q = dim → inv e s ph m → loaded s = true → readable s → searchHNSW e q k s = Ok r →
  ∃ sel cs, r = (sel.*1, sel.*2) ∧ topk k sel cs ∧ NoDup cs.*1 ∧
    ∀ x d, (x, d) ∈ cs → docTS s !! x = None ∧ ∃ v, m !! x = Some v ∧ d = L2sq v q.
Proof.
  intros Hd Hq Hinv Hl Hread. unfold searchHNSW. destruct (index s) as [ix|].
  2:{ intros [= <-]. exists [], []. split_and!; [done| |constructor|by intros ?? ?%elem_of_nil].
      split; [constructor|]. exists []. split_and!; [done|by rewrite Nat.min_0_r|by intros ?? ?%elem_of_nil]. }
  destruct (wrap_err _ (Ix_Search _ _ _)) as [keys| |]; cbn [mbind res_bind]; [|done..].
  destruct (wrap_err _ (searchDocsByIDs _ _ _ _ _)) as [r2| |] eqn:E2; cbn [mbind res_bind]; [|done..].
  apply wrap_err_ok in E2.
  eapply searchDocs_content in E2 as (sel & cs & -> & Ht & Hnd & Hel); [|done..|].
  2:{ apply Forall_forall. intros x [_ (k' & -> & _)%list_elem_of_fmap]%list_elem_of_filter. apply int64_range. }
  rewrite truncate_spec. intros [= <-]. exists sel, cs.
  assert (length sel ≤ k) as Hlen by (destruct Ht as [_ (? & _ & -> & _)]; lia).
  rewrite take_ge by lia. split_and!; [done..|]. intros x d (_ & ? & ?)%Hel. done.
Qed.

(** An unrestricted search returns at most [k] stored documents, each
    once, with their true distances, in order; and a document whose newest
    change has not reached the HNSW index is left out only when [k] documents
    that are no farther are returned. *)
Theorem Search_sound bs (s : seg) ph q k r :
  reachable dim bs s ph → loaded s = true → dim ≠ 0 → readable s →
  (∀ x v, content bs !! x = Some v → f32_nan (L2sq v q) = false) →
  Search_locked e q k s = Ok r →
  ∃ sel : list cand, r = (sel.*1, sel.*2) ∧ length sel ≤ limit_of k ∧ NoDup sel.*1 ∧ StronglySorted nearer sel ∧
    (∀ x d, (x, d) ∈ sel → ∃ v, content bs !! x = Some v ∧ d = L2sq v q) ∧
    (∀ x v, is_Some (docTS s !! x) → content bs !! x = Some v →
       (x, L2sq v q) ∈ sel ∨ length sel = limit_of k ∧ ∀ a, a ∈ sel → nearer a (x, L2sq v q)).
Proof.
  intros Hreach Hl Hd Hread Hnum. unfold Search_locked. case_decide as Hq; [|done]. cbv zeta.
  pose proof (reachable_inv dim bs s ph Hreach e eq_refl) as Hinv. pose proof Hinv as [t Hinv_at].
  pose proof (inv_cache _ _ _ _ _ Hinv_at) as Hcok.
  destruct (wrap_err _ (searchCache _ _ _ _)) as [r1| |] eqn:E1; cbn [mbind res_bind]; [|done..].
  destruct (wrap_err _ (searchHNSW _ _ _ _)) as [r2| |] eqn:E2; cbn [mbind res_bind]; [|done..].
  apply wrap_err_ok, searchCache_topk in E1 as (sel1 & -> & Ht1); [|done..].
  apply wrap_err_ok in E2. eapply searchHNSW_content in E2 as (sel2 & cs2 & -> & Ht2 & Hnd2 & Hel); [|done..].
  set (cs1 := cands _ _ _) in Ht1.
  assert (∀ x d, (x, d) ∈ cs1 ↔ is_Some (docTS s !! x) ∧ ∃ v, content bs !! x = Some v ∧ d = L2sq v q) as Hel1.
  { intros x d. unfold cs1. rewrite elem_of_cands, elem_of_docIDs by done. split.
    - intros (_ & v & [? ?]%(mem_cached s ph _ x v Hinv Hl) & ->). eauto.
    - intros (Hts & v & Hv & ->). assert (cached dim (cache s) x = Some v) as Hc by (by apply (mem_cached s ph _ x v Hinv Hl)).
      split; [by eauto|]. eauto. }
  assert (NoDup (cs1 ++ cs2).*1) as Hnd.
  { rewrite fmap_app. apply NoDup_app. split_and!; [by apply NoDup_cands, NoDup_docIDs| |done].
    intros x ([? d] & -> & [[n Hn] _]%Hel1)%list_elem_of_fmap ([? d'] & Heq & [Hno _]%Hel)%list_elem_of_fmap.
    cbn in *. subst. congruence. }
  assert (∀ x d, (x, d) ∈ cs1 ++ cs2 → ∃ v, content bs !! x = Some v ∧ d = L2sq v q) as Hall.
  { intros x d [[_ ?]%Hel1|[_ ?]%Hel]%elem_of_app; done. }
  intros Hm. apply (merge_finish _ _ _ _ _ _ Ht1 Ht2) in Hm as (sel & -> & Ht).
  2:{ intros [x d] (v & Hv & ->)%Hall. by eapply Hnum. }
  2:{ by apply NoDup_fst_NoDup. }
  pose proof (topk_sel _ _ _ Ht) as Hsel. destruct Ht as [Hs (rest & Hp & Hlen & Hn)].
  exists sel. split_and!; [done|lia| |done|intros x d Hx; by apply Hall, Hsel|].
  - rewrite Hp, fmap_app in Hnd. by apply NoDup_app in Hnd as [? _].
  - intros x v Hts Hv. assert ((x, L2sq v q) ∈ sel ++ rest) as Hin.
    { rewrite <-Hp. apply elem_of_app. left. apply Hel1. eauto. }
    apply elem_of_app in Hin as [?|Hrest]; [by left|right]. split; [|intros a Ha; by apply Hn].
    apply Permutation_length in Hp. rewrite !length_app in Hp. rewrite length_app in Hlen. destruct rest; [by apply elem_of_nil in Hrest|]. cbn in Hp. lia.
Qed.

(** What a loaded segment answers for a document: the cache if the document
    is in [docTS], its document row otherwise. *)
Definition answer (s : seg) (t : tables) (x : Z) : option vector :=
  match docTS s !! x with Some _ => cached dim (cache s) x | None => t_docs t !! x end.

(** One row of [dimensions] entries per document, no document twice, and every
    position of the index within bounds. *)
Definition rectangular (c : vcache) : Prop :=
  length (docVectors c) = length (docIDs c) * dim ∧ NoDup (docIDs c) ∧
  ∀ y i, docIDIndex c !! y = Some i → i < length (docIDs c).

(** C3: In every reachable state - after any interleaving of batches, build
    steps, failed calls, crashes and reloads - the rows on disk stand for
    exactly the successful batches applied in order, and a loaded segment
    answers for every document accordingly: from the cache if the document is
    in [docTS], from its document row otherwise. *)
Theorem segment_refines_map bs (s : seg) ph :
  reachable dim bs s ph →
  ∃ t, represents (disk s) t ∧ stores t (content bs) ∧
    (loaded s = true → ∀ x, answer s t x = content bs !! x).
Proof.
  intros Hreach. destruct (reachable_inv dim bs s ph Hreach e eq_refl) as [t Hinv]. exists t.
  split_and!; [apply Hinv|apply Hinv|]. intros Hl x. pose proof (mem_view e s ph _ t x Hinv Hl) as Hv.
  unfold answer. destruct (docTS s !! x); [done|]. by destruct Hv.
Qed.

(** The number a batch returns is by how much it changes the number of
    stored documents. *)
Theorem batch_counts bs (s s' : seg) ph b n :
  reachable dim bs s ph → loaded s = true → admissible s b →
  is_ok (countDelta e (b_add b) (b_del b) s) = true →
  Batch_locked e (b_add b) (b_vectors b) (b_del b) s = (Ok n, s') →
  Z.of_nat (size (content (bs ++ [b]))) = (Z.of_nat (size (content bs)) + n)%Z.
Proof.
  intros Hreach Hl [Hb Hlt] Hok HB. pose proof (reachable_inv dim bs s ph Hreach e eq_refl) as Hinv.
  destruct (Batch_locked_inv e s ph _ _ _ _ _ _ Hinv Hl Hb Hlt HB) as [_ [_ Hc]].
  unfold content at 1. rewrite foldl_app. by apply Hc.
Qed.

(** The cache of a reachable segment is rectangular: one row of
    [dimensions] entries per document, every position of the index within
    bounds, and no document twice; so setting or deleting any document cannot
    panic. *)
Theorem cache_in_bounds bs (s : seg) ph x v :
  reachable dim bs s ph →
  rectangular (cache s) ∧ is_ok (deleteCache dim x (cache s)) = true ∧
  (length v = dim → is_ok (updateCache dim x v (cache s)) = true).
Proof.
  intros Hreach. destruct (reachable_inv dim bs s ph Hreach e eq_refl) as [t Hinv].
  pose proof (inv_cache _ _ _ _ _ Hinv) as Hok. pose proof Hok as [vs Hwf]. unfold rectangular. split_and!.
  - rewrite (wf_flat _ _ _ Hwf), (length_concat_dim dim), (wf_len _ _ _ Hwf); [done|apply Hwf].
  - by apply NoDup_docIDs.
  - intros y i Hy%(wf_index _ _ _ Hwf). by eapply lookup_lt_Some.
  - by destruct (deleteCache_wf _ _ _ x Hwf) as (c' & vs' & -> & _).
  - intros Hv. by destruct (updateCache_wf _ _ _ x v Hwf Hv) as (c' & vs' & -> & _).
Qed.

(** A build that runs without batches in between leaves no pending log:
    nothing in memory, the log counters equal (so no further rebuild is due),
    an HNSW index over exactly the stored documents, and the same content. *)
Theorem build_completes bs (s s' : seg) :
  reachable dim bs s Idle → loaded s = true → (0 ≤ HNSWMaxLogs e)%Z →
  BuildHNSW e s = (Ok tt, s') →
  docTS s' = ∅ ∧ docIDs (cache s') = [] ∧ NeedRebuildHNSW e s' = (Ok false, s') ∧
  (∀ x, is_int64 x → wrap64 x ∈ keys_of (index s') ↔ is_Some (content bs !! x)) ∧
  ∃ t, represents (disk s') t ∧ stores t (content bs).
Proof.
  intros Hreach Hl Hmax HB. pose proof (reachable_inv dim bs s Idle Hreach e eq_refl) as Hinv.
  destruct (runs_inv _ _ _ _ _ _ (BuildHNSW_built e s _ Hinv Hl) HB) as (Hl' & [t Hinv'] & [H1 H2 H3 H4] & _).
  split_and!; [done..| |done|exists t; by split; apply Hinv'].
  unfold NeedRebuildHNSW, load, mbind, M_bind, get. rewrite Hl'. cbn. rewrite H3, Z.sub_diag.
  replace (HNSWMaxLogs e <? int64 0)%Z with false; [done|]. symmetry. apply Z.ltb_ge. exact Hmax.
Qed.

(** What a batch of row operations writes is what the readers give back:
    the log rows and the document rows of the updated tables, each once. *)
Theorem rows_roundtrip (w w' : W) t ops logs docs :
  represents w t → Forall op_ok ops → NoDup (op_key <$> ops) →
  Shards.Batch w (op_bluge <$> ops) = (Ok tt, w') →
  readHNSWLogRows w' = Ok (logs, None) → readHNSWDocRows w' = Ok (docs, None) →
  (∀ r, r ∈ logs ↔ ∃ i c, t_logs (apply_ops t ops) !! i = Some c ∧ r = log_row i c) ∧
  (∀ x v, mkDocRow x v ∈ docs ↔ t_docs (apply_ops t ops) !! x = Some v) ∧
  NoDup (row_ID <$> logs) ∧ NoDup (drow_ID <$> docs).
Proof.
  intros Hrep Hok Hnd HB Hl Hd. pose proof (write_represents w t ops w' Hrep Hok Hnd HB) as Hrep'.
  destruct (readHNSWLogRows_spec _ _ _ Hrep' Hl) as [H1 H2].
  destruct (readHNSWDocRows_spec _ _ _ Hrep' Hd) as [H3 H4]. done.
Qed.

(** An error while reading the document rows is swallowed: if the
    iteration fails before its first row, a search by ids reports success and
    silently leaves out every document that is not in the cache. *)
Theorem failed_rows_are_swallowed (s : seg) q k ids err :
  dim ≠ 0 → writer_open s = true → Reader (disk s) = None →
  readHNSWDocRowsByIDs (disk s) ids = Ok ([], Some err) →
  searchDocsByIDs e q k ids s = Ok ([], []).
Proof.
  intros Hd Ho Hr Hrows. unfold searchDocsByIDs. rewrite Ho, Hr, Hrows. cbn.
  unfold ExactSearch. rewrite decide_False by done. cbn. rewrite Nat.Div0.div_0_l, Nat.min_0_r. done.
Qed.
End theorems.

(** * A concrete segment *)

(** Indexes as sets of keys, and an exhaustive search by sorting. *)
Definition mem_L2 (v q : vector) : Z :=
  Z.min (foldr Z.add 0%Z (zip_with (λ a b, (a - b) * (a - b))%Z v q)) 0x7f7fffff.

Definition mem_le (f : nat → Z) (i j : nat) : Prop := (f i ≤ f j)%Z.
#[local] Instance mem_le_dec f : RelDecision (mem_le f).
Proof. intros i j. unfold mem_le. apply _. Defined.
#[local] Instance mem_le_total f : Total (mem_le f).
Proof. intros i j. unfold mem_le. lia. Qed.
#[local] Instance mem_le_trans f : Transitive (mem_le f).
Proof. intros i j k. unfold mem_le. lia. Qed.

Definition mem_dist (flat q : vector) (dim i : nat) : Z := mem_L2 (take dim (drop (i * dim) flat)) q.

Definition mem_exact (flat q : vector) (count dim limit : nat) : res (list nat * list Z) :=
  let f := mem_dist flat q dim in
  let keys := take limit (merge_sort (mem_le f) (seq 0 count)) in
  Ok (keys, f <$> keys).

Lemma mem_L2_range v q : (0 ≤ mem_L2 v q ≤ 0x7f7fffff)%Z.
Proof.
  unfold mem_L2. split; [|lia]. apply Z.min_glb; [|lia].
  revert q. induction v as [|a v IH]; intros [|b q]; cbn [zip_with foldr]; [lia..|].
  apply Z.add_nonneg_nonneg; [apply Z.square_nonneg|apply IH].
Qed.

Lemma mem_lt v q v' q' : f32_lt (mem_L2 v q) (mem_L2 v' q') = false ↔ (mem_L2 v' q' ≤ mem_L2 v q)%Z.
Proof.
  assert (∀ z, (0 ≤ z ≤ 0x7f7fffff)%Z → f32_nan z = false ∧ f32_key z = z) as Hz.
  { intros z Hz. split.
    - unfold f32_nan. apply Z.ltb_ge. change 0x7fffffff%Z with (Z.ones 31). rewrite Z.land_ones by lia.
      rewrite Z.mod_small; lia.
    - unfold f32_key. rewrite decide_True; [done|]. lia. }
  destruct (Hz _ (mem_L2_range v q)) as [H1 H2]. destruct (Hz _ (mem_L2_range v' q')) as [H3 H4].
  unfold f32_lt. rewrite H1, H2, H3, H4. cbn. apply Z.ltb_ge.
Qed.

Lemma mem_exact_spec vs q dim limit keys dists :
  Forall (λ v : vector, length v = dim) vs → 0 < limit ≤ length vs →
  mem_exact (concat vs) q (length vs) dim limit = Ok (keys, dists) →
  length keys = limit ∧ NoDup keys ∧ (∀ i, i ∈ keys → i < length vs) ∧
  dists = (λ i, mem_L2 (nth i vs []) q) <$> keys ∧
  StronglySorted (λ x y, f32_lt y x = false) dists ∧
  ∀ i j, i ∈ keys → j < length vs → j ∉ keys → f32_lt (mem_L2 (nth j vs []) q) (mem_L2 (nth i vs []) q) = false.
Proof.
  intros Hvs Hlim [= <- <-]. set (f := mem_dist (concat vs) q dim). set (l := merge_sort (mem_le f) (seq 0 (length vs))).
  assert (l ≡ₚ seq 0 (length vs)) as Hp by apply merge_sort_Permutation.
  assert (StronglySorted (mem_le f) l) as Hs by apply (StronglySorted_merge_sort (mem_le f)).
  assert (∀ i, i ∈ take limit l → i < length vs) as Hlt.
  { intros i Hi%elem_of_take_weaken. rewrite Hp in Hi. apply elem_of_seq in Hi. lia. }
  assert (∀ i, i < length vs → f i = mem_L2 (nth i vs []) q) as Hf.
  { intros i Hi. unfold f, mem_dist. apply lookup_lt_is_Some in Hi as [v Hv].
    rewrite (vec_at_concat dim i v) by done. by erewrite nth_lookup_Some. }
  split_and!.
  - rewrite length_take, Hp, length_seq. lia.
  - assert (NoDup l) as Hnd by (rewrite Hp; apply NoDup_seq).
    rewrite <-(take_drop limit l) in Hnd. by apply NoDup_app in Hnd as [? _].
  - done.
  - apply list_fmap_ext. intros _ i Hi%list_elem_of_lookup_2. by apply Hf, Hlt.
  - apply (StronglySorted_take _ limit) in Hs. clear -Hs. induction Hs as [|i l' _ IH Hi]; [constructor|].
    cbn. constructor; [done|]. apply Forall_fmap. eapply Forall_impl; [exact Hi|].
    intros j Hj. cbn. apply mem_lt. exact Hj.
  - intros i j Hi Hj Hnj. apply mem_lt. rewrite <-!Hf by auto. rewrite <-(take_drop limit l) in Hs.
    eapply (StronglySorted_app_elem _ _ _ i j Hs); [done|].
    assert (j ∈ l) as Hjl by (rewrite Hp; apply elem_of_seq; lia).
    rewrite <-(take_drop limit l) in Hjl. by apply elem_of_app in Hjl as [?|?].
Qed.

#[refine] Instance mem_usearch : Usearch (gset Z) (gset Z) := {|
  ix_keys ix := ix;
  L2sq := mem_L2;
  NewIndex _ := Ok ∅;
  Reserve ix _ := Ok ix;
  Add ix k _ := Ok ({[k]} ∪ ix);
  Contains ix k := inl (bool_decide (k ∈ ix));
  Ix_Search ix _ _ := Ok (elements ix);
  Save ix := Ok ix;
  Load _ f := Ok f;
  usearch_ExactSearch := mem_exact
|}.
Proof.
  - by intros n ix [= <-].
  - by intros ix n ix' [= <-].
  - by intros ix k v ix' [= <-].
  - by intros ix k b [= <-].
  - intros ix q n ks [= <-]. split; [apply NoDup_elements|]. intros k. by rewrite elem_of_elements.
  - by intros ix f ix0 ix' [= <-] [= <-].
  - intros vs q dim limit keys dists Hvs _ Hlim H.
    exact (mem_exact_spec vs q dim limit keys dists Hvs Hlim H).
Defined.

Module Demo.
Definition e : env :=
  mkEnv 2 "disk" 10 None None None None None map_order_default map_order_default set_order_default.
Abbreviation segment := (@seg (list sdoc) (gset Z) (gset Z)).

(** Three documents are added, their logs are applied to the document rows,
    and while that build is running one is deleted and another added. *)
Definition b1 : batch := mkBatch [1; 2; 3]%Z [[0; 0]; [3; 4]; [10; 10]]%Z [].
Definition b2 : batch := mkBatch [4]%Z [[1; 1]]%Z [1]%Z.
Definition s0 : segment := newHNSWSegment new_index None.
Definition s1 : segment := snd (load e s0).
Definition s2 : segment := snd (Batch_locked e (b_add b1) (b_vectors b1) (b_del b1) s1).
Definition ops : list vop := match fst (apply_read e s2) with Ok (_, ops) => ops | _ => [] end.
Definition s3 : segment := snd (write_batch ops s2).
Definition s4 : segment := snd (Batch_locked e (b_add b2) (b_vectors b2) (b_del b2) s3).
Definition s5 : segment := snd (BuildHNSW e s2).

Lemma batches_ok : admissible s1 b1 ∧ admissible s3 b2.
Proof.
  split; (split; [split_and!; repeat constructor; unfold is_int64, is_float32; lia|vm_compute; done]).
Qed.

Lemma reach2 : reachable 2 [b1] s2 Idle.
Proof.
  apply (reach_step _ [] s1 Idle (Some b1)).
  - apply (reach_step _ [] s0 Idle None); [constructor|]. apply (step_load 2 e s0 (Ok tt) s1); vm_compute; reflexivity.
  - apply (step_batch 2 e s1 Idle b1 3%Z s2); [reflexivity|vm_compute; reflexivity|apply batches_ok|vm_compute; reflexivity].
Qed.

Lemma reach3 : reachable 2 [b1] s3 (LogsApplied 3).
Proof.
  apply (reach_step _ [b1] s2 (LogsRead 3 ops) None).
  - apply (reach_step _ [b1] s2 Idle None); [apply reach2|].
    apply (step_build 2 e s2 Idle s2 (LogsRead 3 ops)); [reflexivity|vm_compute; reflexivity|]. apply bs_apply_read. vm_compute. reflexivity.
  - apply (step_build 2 e s2 (LogsRead 3 ops) s3 (LogsApplied 3)); [reflexivity|vm_compute; reflexivity|]. apply bs_apply_write. vm_compute. reflexivity.
Qed.

Lemma batch2 : Batch_locked e (b_add b2) (b_vectors b2) (b_del b2) s3 = (Ok 0%Z, s4).
Proof. vm_compute. reflexivity. Qed.

Lemma reach4 : reachable 2 [b1; b2] s4 (LogsApplied 3).
Proof.
  apply (reach_step _ [b1] s3 (LogsApplied 3) (Some b2)); [apply reach3|].
  apply (step_batch 2 e s3 (LogsApplied 3) b2 0%Z s4); [reflexivity|vm_compute; reflexivity|apply batches_ok|exact batch2].
Qed.

Lemma visit_whole (ds : list sdoc) : snd (visit ((λ d, (stored d, None)) <$> ds) None) = None.
Proof. induction ds as [|d ds IH]; [done|]. cbn. by destruct (visit _ None). Qed.

Lemma mem_readable (w : list sdoc) t ids :
  represents w t → Forall is_int64 ids → ∃ rows, readHNSWDocRowsByIDs w ids = Ok (rows, None).
Proof.
  intros Hrep Hids. unfold readHNSWDocRowsByIDs, read_rows.
  set (q := QShould ((λ id : Z, "doc/" +:+ FormatInt id) <$> ids)).
  destruct (SearchAndVisitStoredFields w (NewAllMatches q)) as [fs o] eqn:E.
  assert (o = None) as ->.
  { change o with (snd (fs, o)). rewrite <-E. apply visit_whole. }
  apply search_complete in E as (ds & Hf & ->). cbn [rq_query rq_limit] in *.
  destruct (select_rows w t q ds Hrep Hf) as [_ Hds].
  set (f := λ d, match parse_doc_row (stored d) with Ok r => r | _ => mkDocRow 0 [] end).
  exists (f <$> ds). apply parse_rows_ok. intros d (k & Hk & Hq & Hr)%Hds. destruct k as [i|x| |]; cbn in Hq;
    rewrite bool_decide_eq_true in Hq; apply list_elem_of_fmap in Hq as (y & Hy & _); try done.
  cbn in Hr. apply fmap_Some in Hr as (v & Hv & ->). destruct (ok_docs _ (rep_ok _ _ Hrep) x v Hv).
  unfold f. by rewrite parse_doc_doc.
Qed.

Lemma readable4 : readable s4.
Proof.
  intros ids Hids. destruct (reachable_inv 2 _ _ _ reach4 e eq_refl) as [t Hinv].
  by apply (mem_readable _ t); [apply (inv_rep _ _ _ _ _ Hinv)|].
Qed.

Lemma mem_numbers v q : f32_nan (mem_L2 v q) = false.
Proof.
  pose proof (mem_L2_range v q). unfold f32_nan. apply Z.ltb_ge. change 0x7fffffff%Z with (Z.ones 31).
  rewrite Z.land_ones by lia. rewrite Z.mod_small; lia.
Qed.

Lemma segment_refines_map_witness : ∃ t, represents (disk s4) t ∧ stores t (content [b1; b2]).
Proof.
  destruct (segment_refines_map e [b1; b2] s4 (LogsApplied 3) reach4) as (t & H1 & H2 & _). exists t. exact (conj H1 H2).
Defined.

Lemma batch_counts_witness :
  Z.of_nat (size (content ([b1] ++ [b2]))) = (Z.of_nat (size (content [b1])) + 0)%Z.
Proof.
  refine (batch_counts e [b1] s3 s4 (LogsApplied 3) b2 0%Z reach3 _ (proj2 batches_ok) _ batch2); vm_compute; reflexivity.
Defined.

Lemma cache_in_bounds_witness : length (docVectors (cache s4)) = length (docIDs (cache s4)) * 2.
Proof. exact (proj1 (proj1 (cache_in_bounds e [b1; b2] s4 (LogsApplied 3) 1 [0; 0]%Z reach4))). Defined.

Lemma build_completes_witness : docTS s5 = ∅.
Proof.
  refine (proj1 (build_completes e [b1] s2 s5 reach2 _ _ _)); [vm_compute; reflexivity|cbn; lia|vm_compute; reflexivity].
Defined.

Lemma SearchByIDs_exact_witness : ∃ sel,
  SearchByIDs_locked e [0; 0]%Z 2 [1; 2; 3; 4]%Z s4 = Ok (sel.*1, sel.*2) ∧
  topk 2 sel (cands (λ x, content [b1; b2] !! x) [0; 0]%Z [1; 2; 3; 4]%Z).
Proof.
  destruct (SearchByIDs_locked e [0; 0]%Z 2 [1; 2; 3; 4]%Z s4) as [r| |] eqn:Hr; [|vm_compute in Hr; discriminate Hr..].
  destruct (SearchByIDs_exact e [b1; b2] s4 (LogsApplied 3) [0; 0]%Z 2 [1; 2; 3; 4]%Z r reach4) as (sel & -> & Ht).
  - vm_compute. reflexivity.
  - cbn. lia.
  - exact readable4.
  - repeat constructor; unfold is_int64; lia.
  - apply (bool_decide_unpack _). vm_compute. exact I.
  - intros. apply mem_numbers.
  - exact Hr.
  - exists sel. split; [reflexivity|exact Ht].
Defined.

Lemma Search_sound_witness : ∃ sel : list cand,
  Search_locked e [0; 0]%Z 2 s4 = Ok (sel.*1, sel.*2) ∧ StronglySorted nearer sel.
Proof.
  destruct (Search_locked e [0; 0]%Z 2 s4) as [r| |] eqn:Hr; [|vm_compute in Hr; discriminate Hr..].
  destruct (Search_sound e [b1; b2] s4 (LogsApplied 3) [0; 0]%Z 2 r reach4) as (sel & -> & _ & _ & Hs & _).
  - vm_compute. reflexivity.
  - cbn. lia.
  - exact readable4.
  - intros. apply mem_numbers.
  - exact Hr.
  - exists sel. split; [reflexivity|exact Hs].
Defined.

Definition put_ops : list vop := [PutLog 1 (7, Some [5; 6])%Z; PutDoc 9 [1; 2]%Z; PutLatest 1].

Lemma rows_roundtrip_witness : mkDocRow 9 [1; 2]%Z ∈ [mkDocRow 9 [1; 2]%Z] ∧ NoDup (row_ID <$> [log_row 1 (7, Some [5; 6])]%Z).
Proof.
  destruct (rows_roundtrip (W := list sdoc) [] (mem_write [] (op_bluge <$> put_ops)) no_rows put_ops
    [log_row 1 (7, Some [5; 6])]%Z [mkDocRow 9 [1; 2]%Z]) as (_ & Hd & Hnd & _).
  - exact (represents_new (bluge := mem_store)).
  - repeat constructor; unfold is_int64, is_float32; cbn; lia.
  - apply (bool_decide_unpack _). vm_compute. exact I.
  - reflexivity.
  - vm_compute. reflexivity.
  - vm_compute. reflexivity.
  - split; [apply Hd; vm_compute; reflexivity|exact Hnd].
Defined.

(** A store whose searches fail. *)
#[refine] Definition bad_reader : BlugeReader (list sdoc) := {|
  Reader _ := None;
  VectorStore.Search _ _ := ([], Some "i/o error");
  CountMatches _ _ := Err "i/o error"
|}.
Proof.
  - done.
  - intros w r f []%elem_of_nil.
  - done.
  - apply (Count_contents (BlugeReader := mem_reader)).
  - by intros w ops r w' [= <- <-].
Defined.

Lemma failed_rows_are_swallowed_witness :
  searchDocsByIDs (breader := bad_reader) e [0; 0]%Z 2 [2; 3]%Z s4 = Ok ([], []).
Proof.
  refine (failed_rows_are_swallowed (breader := bad_reader) e s4 [0; 0]%Z 2 [2; 3]%Z "i/o error" _ _ _ _);
    [cbn; lia|vm_compute; reflexivity|reflexivity|reflexivity].
Defined.
End Demo.
