(* ===== verification/IvfSegment.v ===== *)
(** pkg/core/ivfpq_segment.go: a segment of a flat or ivf_pq index.  Its vectors
    are documents of a bluge index; while the segment grows, searches compare
    all of them, through a cache; a sealed segment has a FAISS index as well,
    which finds candidates whose exact distances are then computed. *)
From Stdlib Require Import Floats.SpecFloat.
From S2P Require Import Prelude Hash Strconv Base62 Shards Runs VectorStore Float32 HNSWCache HNSWSegment HNSWSearch.

(** * Vectors as 16-bit floats *)

(** What is used of x448/float16: conversions between bit patterns. *)
Class Float16 := {
  Fromfloat32 : Z → Z;
  Frombits_Float32 : Z → Z;
  Fromfloat32_range : ∀ x, (0 ≤ Fromfloat32 x < 2 ^ 16)%Z
}.

Definition VectorToFloat16Bytes `{Float16} (v : vector) : list Z := concat (put_le 2 <$> (Fromfloat32 <$> v)).

Definition Float16BytesToVector `{Float16} (bts : list Z) : vector :=
  (λ i, Frombits_Float32 (get_le (take 2 (drop (2 * i) bts)))) <$> seq 0 (length bts / 2).

(** * FAISS *)

(** What is used of FAISS: an index over 64-bit ids with its serialised form,
    and the exhaustive search of a matrix.  An index holds the ids it was
    given, with repetitions; a search of the index promises nothing; the
    exhaustive search gives the nearest rows, filled up with -1. *)
Class Faiss (FIx FFile : Type) := {
  fx_ids : FIx → list Z;
  fvec_L2 : vector → vector → Z;
  IndexFactory : nat → string → res FIx;
  Train : FIx → vector → res FIx;
  AddWithIDs : FIx → vector → list Z → res FIx;
  RemoveIDs : FIx → list Z → res FIx;
  Ntotal : FIx → Z;
  SetIndexParameter : FIx → string → Z → option string;
  F_Search : FIx → vector → Z → res (list Z);
  WriteIndex : FIx → res FFile;
  ReadIndex : FFile → res FIx;
  knn_L2sqr : vector → vector → nat → nat → nat → list Z * list Z;
  IndexFactory_ids : ∀ d s ix, IndexFactory d s = Ok ix → fx_ids ix = [];
  Train_ids : ∀ ix v ix', Train ix v = Ok ix' → fx_ids ix' = fx_ids ix;
  AddWithIDs_ids : ∀ ix v ids ix', AddWithIDs ix v ids = Ok ix' → fx_ids ix' ≡ₚ fx_ids ix ++ ids;
  RemoveIDs_ids : ∀ ix ids ix', RemoveIDs ix ids = Ok ix' → fx_ids ix' ≡ₚ filter (.∉ ids) (fx_ids ix);
  Ntotal_ids : ∀ ix, Ntotal ix = Z.of_nat (length (fx_ids ix));
  Read_Write : ∀ ix f ix', WriteIndex ix = Ok f → ReadIndex f = Ok ix' → fx_ids ix' ≡ₚ fx_ids ix;
  knn_spec : ∀ vs q dim k,
    Forall (λ v : vector, length v = dim) vs → length q = dim → 0 < k →
    ∃ (sel : list nat) (rest : list Z),
      knn_L2sqr q (concat vs) (length vs) k dim =
        (((λ i, fvec_L2 (nth i vs []) q) <$> sel) ++ rest,
         (Z.of_nat <$> sel) ++ replicate (k - length sel) (-1)%Z) ∧
      length rest = k - length sel ∧ length sel = Nat.min k (length vs) ∧ NoDup sel ∧ (∀ i, i ∈ sel → i < length vs) ∧
      ∀ i j, i ∈ sel → j < length vs → j ∉ sel →
        f32_lt (fvec_L2 (nth j vs []) q) (fvec_L2 (nth i vs []) q) = false
}.

(** How [bluge.OpenReader] ends. *)
Inductive opening := Opened | PathNotExists | NoSnapshot (err : string) | OpenFailed (err : string).

(** The file system behind a bluge index: the outcome of the [n]th attempt to
    open a reader, and the error of starting a search.  A path that does not exist belongs to an empty index
    that was never written. *)
Class VecDisk (W : Type) {bluge : Bluge W sdoc} := {
  OpenReader : W → nat → opening;
  SearchFails : W → request → option string;
  OpenReader_new : ∀ w n, OpenReader w n = PathNotExists → ∀ id, contents w id = [];
  OpenReader_written : ∀ w ops w' n, Shards.Batch w ops = (Ok tt, w') → OpenReader w' n ≠ PathNotExists
}.

(** * The segment *)

Definition StatusGrowing : string := "growing".
Definition StatusSealed : string := "sealed".
Definition internalVecField : string := "vec".

Record VectorSegment := mkRef { Id : nat; Status : string; RefCount : Z }.

Record segBatch := mkBatch { b_addIds : list Z; b_addVectors : list vector; b_deleteIds : list Z }.

Section segment.
Context {W Ix File FIx FFile : Type} {bluge : Bluge W sdoc} {breader : BlugeReader W} {vdisk : VecDisk W}
        {us : Usearch Ix File} {fs : Faiss FIx FFile} {f16 : Float16}.

(** The fields of [IVFPQSegment], and what it has on disk: the bluge index
    [stored_vec] and the file [faiss].  A slice is [None] when it is nil. *)
Record IVFPQSegment := mkIVF {
  s_ref : VectorSegment; s_index : option FIx; s_cache : option vector; s_ids : option (list Z);
  s_writer : bool; s_writerRefCount : Z; s_closeTime : Z; s_disk : W; s_file : option FFile
}.

Definition set_ref (r : VectorSegment) (s : IVFPQSegment) : IVFPQSegment :=
  mkIVF r (s_index s) (s_cache s) (s_ids s) (s_writer s) (s_writerRefCount s) (s_closeTime s) (s_disk s) (s_file s).
Definition set_index (x : option FIx) (s : IVFPQSegment) : IVFPQSegment :=
  mkIVF (s_ref s) x (s_cache s) (s_ids s) (s_writer s) (s_writerRefCount s) (s_closeTime s) (s_disk s) (s_file s).
Definition set_caches (c : option vector) (i : option (list Z)) (s : IVFPQSegment) : IVFPQSegment :=
  mkIVF (s_ref s) (s_index s) c i (s_writer s) (s_writerRefCount s) (s_closeTime s) (s_disk s) (s_file s).
Definition set_writer (b : bool) (s : IVFPQSegment) : IVFPQSegment :=
  mkIVF (s_ref s) (s_index s) (s_cache s) (s_ids s) b (s_writerRefCount s) (s_closeTime s) (s_disk s) (s_file s).
Definition add_writerRef (n : Z) (s : IVFPQSegment) : IVFPQSegment :=
  mkIVF (s_ref s) (s_index s) (s_cache s) (s_ids s) (s_writer s) (s_writerRefCount s + n) (s_closeTime s) (s_disk s) (s_file s).
Definition set_closeTime (t : Z) (s : IVFPQSegment) : IVFPQSegment :=
  mkIVF (s_ref s) (s_index s) (s_cache s) (s_ids s) (s_writer s) (s_writerRefCount s) t (s_disk s) (s_file s).
Definition set_sdisk (w : W) (s : IVFPQSegment) : IVFPQSegment :=
  mkIVF (s_ref s) (s_index s) (s_cache s) (s_ids s) (s_writer s) (s_writerRefCount s) (s_closeTime s) w (s_file s).
Definition set_sfile (f : option FFile) (s : IVFPQSegment) : IVFPQSegment :=
  mkIVF (s_ref s) (s_index s) (s_cache s) (s_ids s) (s_writer s) (s_writerRefCount s) (s_closeTime s) (s_disk s) f.

Definition set_Count (n : Z) (s : IVFPQSegment) : IVFPQSegment :=
  set_ref (mkRef (Id (s_ref s)) (Status (s_ref s)) n) s.
Definition set_Status (st : string) (s : IVFPQSegment) : IVFPQSegment :=
  set_ref (mkRef (Id (s_ref s)) st (RefCount (s_ref s))) s.

(** The index the segment belongs to, the configuration, the clock, and the
    outcome of the calls that touch files, by segment. *)
Record ienv := mkIenv {
  Name : string; Dims : nat; M_ : nat; NBits : nat; UseFloat16 : bool;
  Storage : string; IvfPqThreshold : Z; now : Z; conv_oob : nat → Z;
  mkdir_err : nat → option string; writer_err : nat → option string; count_err : nat → option string;
  tmp_err : nat → option string; savefile_err : nat → option string; loadfile_err : nat → option string;
  selector_err : nat → option string; space_err : nat → option string
}.

Context (e : ienv).

Definition doc_of (id : Z) (vec : vector) : sdoc :=
  mkSdoc (Encode id)
    [(internalVecField, if UseFloat16 e then VectorToFloat16Bytes vec else VectorToBytes vec)].

Definition vec_of (value : list Z) : vector :=
  if UseFloat16 e then Float16BytesToVector value else BytesToVector value.

Definition getName (s : IVFPQSegment) : string := Name e +:+ "_" +:+ pretty (Id (s_ref s)).

Definition failing (err : nat → option string) : M IVFPQSegment unit :=
  s ← get; fails (err (Id (s_ref s))).

(** ** Files *)

(** The loop of [openVecStoreReader] over three attempts. *)
Fixpoint open_attempts (s : IVFPQSegment) (n attempt : nat) (err : string) : res (option W) :=
  match n with
  | O => Err err
  | S n =>
      match OpenReader (s_disk s) attempt with
      | Opened => Ok (Some (s_disk s))
      | PathNotExists => Ok None
      | NoSnapshot err => open_attempts s n (S attempt) err
      | OpenFailed err => Err ("open " +:+ getName s +:+ " err: " +:+ err)
      end
  end.

Definition openVecStoreReader : M IVFPQSegment (option W) :=
  s ← get;
  if known_storage (Storage e) then lift (open_attempts s 3 0 "")
  else raise ("invalid storage type: " +:+ Storage e).

Definition openVecStoreWriter : M IVFPQSegment unit :=
  s ← get;
  if s_writer s then modify (add_writerRef 1)
  else if known_storage (Storage e) then
    _ ← failing (writer_err e);
    _ ← modify (set_writer true);
    modify (add_writerRef 1)
  else raise ("invalid storage type: " +:+ Storage e).

Definition closeVecStoreWriter : M IVFPQSegment unit :=
  _ ← modify (set_closeTime (now e)); modify (add_writerRef (-1)).

(** [writer.Batch(batch)] between [openVecStoreWriter] and the deferred
    [closeVecStoreWriter]. *)
Definition write_store (msg : string) (ops : list (bop sdoc)) : M IVFPQSegment unit :=
  _ ← openVecStoreWriter;
  deferred closeVecStoreWriter
    (s ← get;
     let '(r, w) := Shards.Batch (s_disk s) ops in
     _ ← modify (set_sdisk w);
     wrap msg (lift r)).

Definition TryCloseIdleWriter (idleThreshold : Z) : M IVFPQSegment bool :=
  s ← get;
  if negb (s_writerRefCount s =? 0)%Z || negb (s_writer s) || (now e - s_closeTime s <=? idleThreshold)%Z
  then mret false
  else (_ ← modify (set_writer false); mret true).

Definition saveFaissIndex : M IVFPQSegment unit :=
  _ ← failing (tmp_err e);
  s ← get;
  match s_index s with
  | None => crash PNilDeref
  | Some ix =>
      f ← lift (WriteIndex ix);
      _ ← failing (savefile_err e);
      modify (set_sfile (Some f))
  end.

Definition loadFaissIndexFile : M IVFPQSegment unit :=
  _ ← failing (loadfile_err e);
  s ← get;
  match s_file s with
  | None => raise "load vec index err: get object err"
  | Some f => ix ← lift (ReadIndex f); modify (set_index (Some ix))
  end.

(** [openIVFPQSegment] on what is on disk; an error leaves no segment. *)
Definition open_steps (ref : VectorSegment) : M IVFPQSegment unit :=
  _ ← wrap "open seg bluge store err" (failing (mkdir_err e));
  if decide (Status ref = StatusSealed) then wrap "open seg faiss index err" loadFaissIndexFile
  else mret tt.

Definition openIVFPQSegment (ref : VectorSegment) (w : W) (f : option FFile) : res IVFPQSegment :=
  match open_steps ref (mkIVF ref None None None false 0 0 w f) with
  | (Ok _, seg) => Ok seg
  | (Err x, _) => Err x
  | (Panic p, _) => Panic p
  end.

(** ** Writing *)

Definition addVectors (vectors : list vector) (ids : list Z) : M IVFPQSegment unit :=
  s ← get;
  if decide (Status (s_ref s) = StatusGrowing) then
    docs ← lift (foldM (λ acc iv, id ← load_at (fst iv) ids; mret (acc ++ [doc_of id (snd iv)]))
                       [] (imap pair vectors));
    write_store "add vectors to bluge err" (BInsert <$> docs)
  else raise "cannot add vectors to a non-Growing segment".

Definition removeIDs (ids : list Z) : M IVFPQSegment unit :=
  s ← get;
  _ ← (if decide (Status (s_ref s) = StatusSealed) then
         _ ← failing (selector_err e);
         match s_index s with
         | None => crash PNilDeref
         | Some ix =>
             ix ← wrap "remove seg faiss index err" (lift (RemoveIDs ix ids));
             modify (set_index (Some ix))
         end
       else mret tt);
  write_store "remove seg bluge index err" ((λ id, BDelete (Encode id)) <$> ids).

(** A visit that takes the first [_id]; it stops there, before any error. *)
Definition visit_id (m : fields * option string) : res string :=
  match list_find (λ fv : string * list Z, fst fv = "_id") (fst m), snd m with
  | Some (_, (_, value)), _ => Ok (of_bytes value)
  | None, Some err => Err err
  | None, None => Ok ""
  end.

(** [dmi.Next] may fail; the loop then ends as if there were no more matches. *)
Definition GetExistsIds (ids : list Z) : M IVFPQSegment (list Z) :=
  r ← openVecStoreReader;
  match r with
  | None => mret []
  | Some w =>
      let req := NewAllMatches (QShould (Encode <$> ids)) in
      _ ← fails (SearchFails w req);
      let '(ms, _) := VectorStore.Search w req in
      lift (foldM (λ acc m, id ← visit_id m; mret (acc ++ [Decode (conv_oob e) id])) [] ms)
  end.

Definition freeCache : M IVFPQSegment unit := modify (set_caches None None).

Definition save : M IVFPQSegment unit :=
  s ← get;
  if decide (Status (s_ref s) = StatusSealed) then
    match s_index s with
    | None => crash PNilDeref
    | Some ix => _ ← modify (set_Count (Ntotal ix)); saveFaissIndex
    end
  else
    _ ← freeCache;
    r ← openVecStoreReader;
    match r with
    | None => mret tt
    | Some w => _ ← failing (count_err e); modify (set_Count (Count w))
    end.

Definition seg_Batch (batch : segBatch) : M IVFPQSegment unit :=
  _ ← (if decide (b_deleteIds batch = []) then mret tt else removeIDs (b_deleteIds batch));
  _ ← (if decide (b_addVectors batch = []) then mret tt else addVectors (b_addVectors batch) (b_addIds batch));
  save.

(** The FAISS index and an open writer are given back as well; the fields
    that point to them are kept. *)
Definition seg_Free : M IVFPQSegment unit := freeCache.

(** ** Reading *)

(** [append] to a slice that may be nil. *)
Definition append {A} (s : option (list A)) (xs : list A) : option (list A) :=
  match s, xs with None, [] => None | _, _ => Some (default [] s ++ xs) end.

(** A visit for the id and the vector: it stops once it has both. *)
Fixpoint visit_vec (fs : fields) (id : string) (vec : option vector) : string * option vector * bool :=
  match fs with
  | [] => (id, vec, false)
  | (f, value) :: fs =>
      if decide (f = "_id") then
        match vec with
        | None => visit_vec fs (of_bytes value) None
        | Some _ => (of_bytes value, vec, true)
        end
      else if decide (f = internalVecField) then
        if decide (id = "") then visit_vec fs id (Some (vec_of value)) else (id, Some (vec_of value), true)
      else visit_vec fs id vec
  end.

(** The loop of [getVectors]; an error comes with what was read before it. *)
Fixpoint collect (ms : list (fields * option string)) (vectors : option vector) (ids : option (list Z))
    : option vector * option (list Z) * option string :=
  match ms with
  | [] => (vectors, ids, None)
  | (f, err) :: ms =>
      let '(id, vec, stopped) := visit_vec f "" None in
      match (if stopped then None else err) with
      | Some x => (vectors, ids, Some x)
      | None => collect ms (append vectors (default [] vec)) (append ids [Decode (conv_oob e) id])
      end
  end.

Definition getVectors (count : Z) (req : request)
    : M IVFPQSegment (option vector * option (list Z) * option string) := λ s,
  match openVecStoreReader s with
  | (Ok None, s) => (Ok (Some [], Some [], None), s)
  | (Ok (Some w), s) =>
      match SearchFails w req with
      | Some x => (Ok (None, None, Some x), s)
      | None =>
          let '(ms, _) := VectorStore.Search w req in
          let empty {A} : option (list A) := if (0 <? count)%Z then Some [] else None in
          (Ok (collect ms empty empty), s)
      end
  | (Err x, s) => (Ok (None, None, Some x), s)
  | (Panic p, s) => (Panic p, s)
  end.

Definition getAllVectors : M IVFPQSegment (option vector * option (list Z) * option string) :=
  s ← get; getVectors (RefCount (s_ref s)) (NewAllMatches QAll).

Definition is_nil {A} (s : option (list A)) : bool := match s with None => true | _ => false end.

(** The fields are assigned before the error is looked at. *)
Definition getVecCaches : M IVFPQSegment (option (list Z) * option vector) :=
  s ← get;
  if negb (is_nil (s_cache s)) && negb (is_nil (s_ids s)) then mret (s_ids s, s_cache s)
  else
    '(vectors, ids, err) ← getAllVectors;
    _ ← modify (set_caches vectors ids);
    match err with
    | Some x => raise x
    | None => mret (ids, vectors)
    end.

(** [faiss_wrapper.Knn]: the addresses of the first elements are taken. *)
Definition Knn (query base : vector) (nb k dim : nat) : res (list Z * list Z) :=
  if decide (query = [] ∨ base = [] ∨ k = 0) then Panic PIndex else Ok (knn_L2sqr query base nb k dim).

(** The results of the search up to the first -1. *)
Fixpoint flat_results (baseIds : list Z) (found : list (Z * Z)) (result : gmap string Z) : res (gmap string Z) :=
  match found with
  | [] => Ok result
  | (id, dis) :: found =>
      if decide (id = -1)%Z then Ok result
      else if decide (id < 0)%Z then Panic PIndex
      else x ← load_at (Z.to_nat id) baseIds; flat_results baseIds found (<[Encode x := dis]> result)
  end.

Definition flatSearch (baseIds : list Z) (base query : vector) (k dim : nat) : res (gmap string Z) :=
  '(distances, ids) ← Knn query base (length baseIds) k dim;
  flat_results baseIds (zip ids distances) ∅.

Definition searchFlat (vec : vector) (k : nat) : M IVFPQSegment (gmap string Z) :=
  '(ids, xb) ← getVecCaches;
  match default [] xb, default [] ids with
  | [], _ | _, [] => mret ∅
  | xb, ids => lift (flatSearch ids xb vec k (Dims e))
  end.

(** The exact distance of the [i]th vector that was read. *)
Definition real_distance (vec vectors : vector) (result : gmap string Z) (iid : nat * Z) : res (gmap string Z) :=
  let '(i, id) := iid in
  realVector ← slice (i * Dims e) ((i + 1) * Dims e) vectors;
  dis ← L2Distance vec realVector;
  mret (<[Encode id := dis]> result).

Definition searchIvfPq (vec : vector) (k : nat) (nprobe : Z) : M IVFPQSegment (gmap string Z) :=
  _ ← failing (space_err e);
  s ← get;
  match s_index s with
  | None => crash PNilDeref
  | Some ix =>
      _ ← fails (SetIndexParameter ix "nprobe" nprobe);
      ids ← lift (F_Search ix vec (Z.of_nat k));
      let docIds := Encode <$> filter (λ id, id ≠ -1)%Z ids in
      if decide (docIds = []) then mret ∅
      else
        '(vectors, ids, err) ← getVectors (RefCount (s_ref s)) (NewAllMatches (QShould docIds));
        match err with
        | Some x => raise x
        | None => lift (foldM (real_distance vec (default [] vectors)) ∅ (imap pair (default [] ids)))
        end
  end.

Definition seg_Search (vec : vector) (k : nat) (nprobe : Z) : M IVFPQSegment (gmap string Z) :=
  s ← get;
  if decide (Status (s_ref s) = StatusGrowing) then searchFlat vec k else searchIvfPq vec k nprobe.

Record DocDistance := mkDist { DocID : string; Distance : Z }.

Definition seg_SearchByIDs (vec : vector) (k : nat) (filter : list string) : M IVFPQSegment (list DocDistance) :=
  '(vectors, ids, err) ← getVectors (-1) (NewAllMatches (QShould filter));
  match err with
  | Some x => raise x
  | None =>
      '(docIDs, distances) ← wrap "failed to exact search"
        (lift (ExactSearch (default [] ids) (default [] vectors) vec (Dims e) k));
      lift (foldM (λ acc ix, d ← load_at (fst ix) distances; mret (acc ++ [mkDist (Encode (snd ix)) d]))
                  [] (imap pair docIDs))
  end.

(** ** Sealing *)

(** [int(4 * math.Sqrt(float64(n)))]. *)
Definition f64_trunc (f : spec_float) : Z :=
  match f with
  | S754_finite s m ex => cond_Zopp s (if decide (0 ≤ ex)%Z then Zpos m * 2 ^ ex else Zpos m / 2 ^ (- ex))%Z
  | _ => 0%Z
  end.
Definition nlist_of (n : nat) : Z :=
  f64_trunc (SFmul 53 1024 (binary_normalize 53 1024 4 0 false)
                           (SFsqrt 53 1024 (binary_normalize 53 1024 (Z.of_nat n) 0 false))).

Definition factory_string (n : nat) : string :=
  "IVF" +:+ FormatInt (nlist_of n) +:+ ",PQ" +:+ pretty (M_ e) +:+ "x" +:+ pretty (NBits e).

Definition Seal : M IVFPQSegment unit :=
  '(ids, vectors) ← getVecCaches;
  match default [] vectors, default [] ids with
  | [], _ | _, [] => mret tt
  | vectors, ids =>
      ix ← lift (IndexFactory (Dims e) (factory_string (length ids)));
      ix ← lift (Train ix vectors);
      ix ← lift (AddWithIDs ix vectors ids);
      _ ← modify (set_index (Some ix));
      _ ← saveFaissIndex;
      _ ← modify (set_Status StatusSealed);
      freeCache
  end.

(** ** Recall *)

(** [vectors[i*dim:(i+1)*dim]] for [i < n]: the slice has capacity [n*dim], so
    what was not read is zero. *)
Definition getQueryVectors (n : nat) : M IVFPQSegment (list vector) :=
  '(vectors, _, err) ← getVectors (Z.of_nat n) (NewTopNSearch n QAll);
  match err with
  | Some x => raise x
  | None =>
      let whole := default [] vectors ++ replicate (n * Dims e - length (default [] vectors)) 0%Z in
      mret ((λ i, take (Dims e) (drop (i * Dims e) whole)) <$> seq 0 n)
  end.

Definition recall_query (xb : vector) (idb : list Z) (k : nat) (nprobe : Z) (q : vector)
    : M IVFPQSegment (nat * nat) :=
  results ← searchIvfPq q k nprobe;
  flatRes ← lift (flatSearch idb xb q k (Dims e));
  mret (size (dom results ∩ dom flatRes), size flatRes).

Fixpoint recall_loop (xb : vector) (idb : list Z) (k : nat) (nprobe : Z) (xq : list vector) (correct total : nat)
    : M IVFPQSegment (nat * nat) :=
  match xq with
  | [] => mret (correct, total)
  | q :: xq =>
      '(c, t) ← recall_query xb idb k nprobe q;
      recall_loop xb idb k nprobe xq (correct + c) (total + t)
  end.

(** The recall as a float32 bit pattern. *)
Definition Recall (count k : nat) (nprobe : Z) : M IVFPQSegment Z :=
  s ← get;
  if decide (Status (s_ref s) = StatusGrowing) then mret (to_bits (f32_of_int 1))
  else
    xq ← getQueryVectors count;
    '(xb, idb, err) ← getAllVectors;
    match err with
    | Some x => raise x
    | None =>
        '(correct, total) ← recall_loop (default [] xb) (default [] idb) k nprobe xq 0 0;
        mret (to_bits (f32_div (f32_of_int (Z.of_nat correct)) (f32_of_int (Z.of_nat total))))
    end.
End segment.
