(* ===== verification/IvfIndex.v ===== *)
(** pkg/core/vec_index.go: the flat index, with one segment, and the ivf_pq
    index, with a growing segment and any number of full ones; the listing of
    stored segments (pkg/core/vector/vec_storage.go). *)
From Stdlib Require Import Floats.SpecFloat.
From S2P Require Import Prelude Hash Strconv Base62 Shards Runs VectorStore Float32 Heap HNSWCache HNSWSegment HNSWSearch IvfSegment.

(** * Listing the stored segments *)

Definition VecPrefix : string := "vec_index".

(** [strconv.ParseInt(s, 16, 64)]. *)
Definition hex_digit (c : ascii) : option Z :=
  let n := Z.of_N (N_of_ascii c) in
  if decide (48 ≤ n ≤ 57)%Z then Some (n - 48)%Z
  else if decide (97 ≤ n ≤ 102)%Z then Some (n - 87)%Z
  else if decide (65 ≤ n ≤ 70)%Z then Some (n - 55)%Z
  else None.

Fixpoint hex_loop (s : string) (n : Z) : res Z :=
  match s with
  | EmptyString => Ok n
  | String c s =>
      match hex_digit c with
      | None => Err ErrSyntax
      | Some d => if decide (2 ^ 64 ≤ n * 16 + d)%Z then Err ErrRange else hex_loop s (n * 16 + d)
      end
  end.

Definition ParseInt16 (s : string) : res Z :=
  let '(neg, body) := match s with
    | String "+" b => (false, b)
    | String "-" b => (true, b)
    | _ => (false, s)
    end%char in
  match body with
  | EmptyString => Err ErrSyntax
  | _ =>
      un ← hex_loop body 0;
      if neg : bool then if decide (2 ^ 63 < un)%Z then Err ErrRange else Ok (- un)%Z
      else if decide (2 ^ 63 ≤ un)%Z then Err ErrRange else Ok un
  end.

(** A file below the directory of an index, as the names on its path:
    [$segment_id], [stored_vec] and the file, or deeper. *)
Definition seg_of_path (f : list string) : string :=
  match reverse f with _ :: _ :: d :: _ => d | _ => "." end.

Definition list_step (ids : gset Z) (f : list string) : res (gset Z) :=
  if decide (last f = Some "index.index") then Ok ids
  else
    let idStr := seg_of_path f in
    match ParseInt16 idStr with
    | Ok id => Ok ({[id]} ∪ ids)
    | Err x => Err ("got invalid dir name " +:+ idStr +:+ ", parse seg id err: " +:+ x)
    | Panic p => Panic p
    end.

Definition ListVecSegments (list_files : string → res (list (list string))) (name : string) : res (gset Z) :=
  files ← list_files (VecPrefix +:+ "/" +:+ name);
  foldM list_step ∅ files.

(** * Indexes *)

(** An element of the heap of [searchSegments]. *)
Record vecSearchRes := mkRes { sr_id : string; sr_dis : Z }.
Definition sr_less (a b : vecSearchRes) : bool := f32_lt (sr_dis a) (sr_dis b).

(** [cmp.Compare(a, b) < 0] on float32: a NaN is below every number. *)
Definition f32_cmp_lt (a b : Z) : bool := (f32_nan a && negb (f32_nan b)) || f32_lt a b.

Definition ErrVecIndexCorruption : string := "index file is corrupted".

Section index.
Context {W Ix File FIx FFile : Type} {bluge : Bluge W sdoc} {breader : BlugeReader W} {vdisk : VecDisk W}
        {us : Usearch Ix File} {fs : Faiss FIx FFile} {f16 : Float16}.
Local Abbreviation IVFPQSegment := (@IVFPQSegment W FIx FFile).

(** What is in memory of an open segment. *)
Record smem := mkMem {
  m_index : option FIx; m_cache : option vector; m_ids : option (list Z);
  m_writer : bool; m_writerRefCount : Z; m_closeTime : Z
}.

(** The metadata of the index ([v.ref]), its open segments, and what is stored
    under its name by segment id.  A segment shares its [VectorSegment] with
    the metadata, at the same position. *)
Record IvfPqIndex := mkIvf {
  Segments : list VectorSegment; CurrentSegmentId : nat; IndexCount : Z;
  segments : list (option smem); stores : gmap nat W; files : gmap nat FFile
}.

Definition set_segments (l : list (option smem)) (v : IvfPqIndex) : IvfPqIndex :=
  mkIvf (Segments v) (CurrentSegmentId v) (IndexCount v) l (stores v) (files v).
Definition set_IndexCount (n : Z) (v : IvfPqIndex) : IvfPqIndex :=
  mkIvf (Segments v) (CurrentSegmentId v) n (segments v) (stores v) (files v).

Definition store_of (v : IvfPqIndex) (id : nat) : W := default new_index (stores v !! id).

(** The segment at a position: its metadata, memory and files together. *)
Definition seg_view (v : IvfPqIndex) (r : VectorSegment) (m : smem) : IVFPQSegment :=
  mkIVF r (m_index m) (m_cache m) (m_ids m) (m_writer m) (m_writerRefCount m) (m_closeTime m)
    (store_of v (Id r)) (files v !! Id r).

Definition mem_of (s : IVFPQSegment) : smem :=
  mkMem (s_index s) (s_cache s) (s_ids s) (s_writer s) (s_writerRefCount s) (s_closeTime s).

Definition put_seg (i : nat) (id : nat) (s : IVFPQSegment) (v : IvfPqIndex) : IvfPqIndex :=
  mkIvf (<[i := s_ref s]> (Segments v)) (CurrentSegmentId v) (IndexCount v)
    (<[i := Some (mem_of s)]> (segments v)) (<[id := s_disk s]> (stores v))
    (match s_file s with Some f => <[id := f]> (files v) | None => delete id (files v) end).

(** A method of the segment at position [i]. *)
Definition on_seg {A} (i : nat) (m : M IVFPQSegment A) : M IvfPqIndex A := λ v,
  match Segments v !! i, segments v !! i with
  | Some r, Some (Some mem) => let '(x, s) := m (seg_view v r mem) in (x, put_seg i (Id r) s v)
  | _, _ => (Panic PNilDeref, v)
  end.

(** The parts of the environment that concern the index as a whole. *)
Record venv := mkVenv {
  seg_env : ienv;
  storeName : string;
  list_files : string → res (list (list string));
  count_at : string → nat → res (res Z);
  meta_err : option string;
  batch_order : map_order nat segBatch;
  res_order : map_order string Z;
  arrival : shuffle vecSearchRes;
  dist_sorter : sorter (λ a b, f32_cmp_lt (Distance a) (Distance b))
}.

Context (e : venv).
Local Abbreviation ie := (seg_env e).

(** ** Opening *)

(** [openIVFPQSegment(v, i)] and [v.segments[i] = seg]. *)
Definition open_at (i : nat) : M IvfPqIndex unit :=
  v ← get;
  match Segments v !! i with
  | None => crash PIndex
  | Some r =>
      s ← lift (openIVFPQSegment ie r (store_of v (Id r)) (files v !! Id r));
      modify (λ v, set_segments (<[i := Some (mem_of s)]> (segments v)) v)
  end.

Definition load_at_pos (i : nat) : M IvfPqIndex unit :=
  v ← get;
  match segments v !! i with
  | None => crash PIndex
  | Some (Some _) => mret tt
  | Some None => open_at i
  end.

Definition loadCurrentSegment : M IvfPqIndex unit :=
  v ← get; load_at_pos (CurrentSegmentId v).

Definition loadSegments (ids : list Z) : M IvfPqIndex (list nat) :=
  _ ← forM (λ id, v ← get;
                  if decide (Z.of_nat (length (segments v)) < id ∨ id < 0)%Z then
                    raise ("invalid segment id: " +:+ FormatInt id +:+ ", current segments length is "
                           +:+ pretty (length (segments v)))
                  else load_at_pos (Z.to_nat id)) ids;
  mret (Z.to_nat <$> ids).

Definition loadAllSegments : M IvfPqIndex unit :=
  v ← get; _ ← loadSegments (Z.of_nat <$> seq 0 (length (Segments v))); mret tt.

(** The copy of the slice names every segment; a position that was not loaded
    is nil. *)
Definition copySegments : M IvfPqIndex (list nat) :=
  _ ← loadAllSegments; v ← get; mret (seq 0 (length (segments v))).

(** ** Batches *)

Fixpoint getDelBatches (segs : list nat) (delIds : list Z) (delBatch : gmap nat segBatch)
    : M IvfPqIndex (gmap nat segBatch) :=
  match segs with
  | [] => mret delBatch
  | segId :: segs =>
      ids ← on_seg segId (GetExistsIds ie delIds);
      getDelBatches segs delIds
        (if decide (ids = []) then delBatch else <[segId := mkBatch [] [] ids]> delBatch)
  end.

Definition processDel (deleteIds : list Z) : M IvfPqIndex unit :=
  if decide (deleteIds = []) then mret tt
  else
    segs ← copySegments;
    delBatches ← getDelBatches segs deleteIds ∅;
    forM (λ ib, on_seg (fst ib) (seg_Batch ie (snd ib))) (range (batch_order e) delBatches).

Definition checkNewSeg : M IvfPqIndex unit :=
  v ← get;
  match Segments v !! CurrentSegmentId v with
  | None => crash PIndex
  | Some r =>
      if decide (IvfPqThreshold ie ≤ RefCount r)%Z then
        modify (λ v, mkIvf (Segments v ++ [mkRef (S (CurrentSegmentId v)) StatusGrowing 0])
                           (S (CurrentSegmentId v)) (IndexCount v) (segments v ++ [None]) (stores v) (files v))
      else mret tt
  end.

Definition processAdd (addVectors : list vector) (addIds : list Z) : M IvfPqIndex unit :=
  _ ← loadCurrentSegment;
  v ← get;
  _ ← on_seg (CurrentSegmentId v) (seg_Batch ie (mkBatch addIds addVectors []));
  checkNewSeg.

(** The total is an int64. *)
Definition total_count (refs : list VectorSegment) : Z :=
  foldl (λ total r, int64 (total + RefCount r)) 0%Z refs.

Definition ivf_Batch (addVectors : list vector) (addIds deleteIds : list Z) : M IvfPqIndex unit :=
  _ ← processDel deleteIds;
  _ ← processAdd addVectors addIds;
  modify (λ v, set_IndexCount (total_count (Segments v)) v).

(** ** Searching *)

(** Every segment is searched, by goroutines that send what they find to the
    one that owns the heap; the error of one does not stop the others. *)
Fixpoint search_all (vec : vector) (k : nat) (nprobe : Z) (segs : list nat)
    : M IvfPqIndex (list vecSearchRes * option string) := λ v,
  match segs with
  | [] => (Ok ([], None), v)
  | i :: segs =>
      match on_seg i (seg_Search ie vec k nprobe) v with
      | (Panic p, v) => (Panic p, v)
      | (Ok mp, v) =>
          ('(docs, err) ← search_all vec k nprobe segs;
           mret (((λ kd, mkRes (fst kd) (snd kd)) <$> range (res_order e) mp) ++ docs, err)) v
      | (Err x, v) => ('(docs, _) ← search_all vec k nprobe segs; mret (docs, Some x)) v
      end
  end.

Fixpoint pop_loop (n : nat) (h : list vecSearchRes) (result : gmap string Z) : res (gmap string Z) :=
  match n with
  | O => Ok result
  | S n => '(r, h) ← Pop sr_less h; pop_loop n h (<[sr_id r := sr_dis r]> result)
  end.

Definition searchSegments (vec : vector) (segs : list nat) (k : nat) (nprobe : Z) : M IvfPqIndex (gmap string Z) :=
  '(docs, err) ← search_all vec k nprobe segs;
  let heap := foldl (λ h d, Push sr_less d h) [] (shuf (arrival e) docs) in
  match err with
  | Some x => raise x
  | None => lift (pop_loop (Nat.min k (length heap)) heap ∅)
  end.

Definition ivf_Search (vec : vector) (k : nat) (nprobe : Z) : M IvfPqIndex (gmap string Z) :=
  segs ← copySegments; searchSegments vec segs k nprobe.

Definition PartialSearch (vec : vector) (k : nat) (nprobe : Z) (ids : list Z) : M IvfPqIndex (gmap string Z) :=
  segs ← loadSegments ids; searchSegments vec segs k nprobe.

Fixpoint byids_all (vec : vector) (k : nat) (docIDs : list string) (segs : list nat) (distances : list DocDistance)
    : M IvfPqIndex (list DocDistance) :=
  match segs with
  | [] => mret distances
  | i :: segs =>
      result ← on_seg i (seg_SearchByIDs ie vec k docIDs);
      byids_all vec k docIDs segs (distances ++ result)
  end.

Definition ivf_SearchByIDs (vec : vector) (k : nat) (docIDs : list string) : M IvfPqIndex (list DocDistance) :=
  segs ← copySegments;
  distances ← byids_all vec k docIDs segs [];
  let distances := sort_slice (dist_sorter e) distances in
  mret (if decide (k < length distances) then take k distances else distances).

(** ** Sealing and recall *)

Definition needs_seal (v : IvfPqIndex) (r : VectorSegment) : bool :=
  bool_decide (Status r = StatusGrowing) && bool_decide (Id r ≠ CurrentSegmentId v)
  && (IvfPqThreshold ie <=? RefCount r)%Z.

Definition SealSeg : M IvfPqIndex unit :=
  v ← get;
  let needSealSegIds := Id <$> filter (λ r, needs_seal v r = true) (Segments v) in
  if decide (needSealSegIds = []) then mret tt
  else
    segs ← loadSegments (Z.of_nat <$> needSealSegIds);
    forM (λ i, _ ← wrap "seal segemnt error" (on_seg i (Seal ie));
               wrap "seal segemnt error" (fails (meta_err e))) segs.

Fixpoint recall_all (count k : nat) (nprobe : Z) (segs : list nat) (total : spec_float) : M IvfPqIndex spec_float :=
  match segs with
  | [] => mret total
  | i :: segs =>
      val ← wrap "recall segemnt error" (on_seg i (Recall ie count k nprobe));
      recall_all count k nprobe segs (f32_add total (of_bits val))
  end.

Definition ivf_Recall (count k : nat) (nprobe : Z) : M IvfPqIndex Z :=
  segs ← copySegments;
  total ← recall_all count k nprobe segs (S754_zero false);
  mret (to_bits (f32_div total (f32_of_int (Z.of_nat (length segs))))).

(** ** Making an index from its metadata *)

Record VecIndex := mkVecIndex { vi_Segments : list VectorSegment; vi_CurrentSegmentId : nat; vi_Count : Z }.

(** The unrecorded segments, from [CurrentSegmentId + 1] on. *)
Definition unrecorded (m : VecIndex) (ids : gset Z) : list nat :=
  seq (S (vi_CurrentSegmentId m)) (size ids - S (vi_CurrentSegmentId m)).

Definition stored_ref (id : nat) : res VectorSegment :=
  if known_storage (Storage ie) then
    match count_at e (Name ie) id with
    | Ok (Ok count) => Ok (mkRef id StatusGrowing count)
    | Ok (Err x) => Err ("get vec segment count err: " +:+ x)
    | Err x => Err ("open vector index err: " +:+ x)
    | Ok (Panic p) | Panic p => Panic p
    end
  else Err ("invalid storage type: " +:+ Storage ie).

(** The metadata after the check; an error leaves what was appended before it. *)
Definition checkStoredSegments (m : VecIndex) : res VecIndex :=
  ids ← ListVecSegments (list_files e) (Name ie);
  if decide (Forall (λ r, Z.of_nat (Id r) ∈ ids ∨ Id r = vi_CurrentSegmentId m) (vi_Segments m)) then
    if decide (size ids = length (vi_Segments m)) then Ok m
    else
      refs ← foldM (λ refs id, r ← stored_ref id; mret (refs ++ [r])) (vi_Segments m) (unrecorded m ids);
      match meta_err e with
      | Some x => Err x
      | None => Ok (mkVecIndex refs (vi_CurrentSegmentId m) (vi_Count m))
      end
  else Err ErrVecIndexCorruption.

(** [MakeVecIndex] for an ivf_pq index, on what is stored. *)
Definition MakeIvfPqIndex (m : VecIndex) (st : gmap nat W) (fl : gmap nat FFile) : res IvfPqIndex :=
  m ← checkStoredSegments m;
  Ok (mkIvf (vi_Segments m) (vi_CurrentSegmentId m) (vi_Count m) (replicate (length (vi_Segments m)) None) st fl).

(** ** The flat index *)

(** One segment; its metadata is the first of the index. *)
Record FlatIndex := mkFlat {
  f_Segments : list VectorSegment; f_Count : Z; f_seg : option smem; f_store : W; f_file : option FFile
}.

Definition flat_view (f : FlatIndex) (r : VectorSegment) (m : smem) : IVFPQSegment :=
  mkIVF r (m_index m) (m_cache m) (m_ids m) (m_writer m) (m_writerRefCount m) (m_closeTime m) (f_store f) (f_file f).

Definition on_flat {A} (m : M IVFPQSegment A) : M FlatIndex A := λ f,
  match f_Segments f !! 0, f_seg f with
  | Some r, Some mem =>
      let '(x, s) := m (flat_view f r mem) in
      (x, mkFlat (<[0 := s_ref s]> (f_Segments f)) (f_Count f) (Some (mem_of s)) (s_disk s) (s_file s))
  | _, _ => (Panic PNilDeref, f)
  end.

Definition loadSegment : M FlatIndex unit :=
  f ← get;
  match f_seg f, f_Segments f !! 0 with
  | Some _, _ => mret tt
  | None, None => crash PIndex
  | None, Some r =>
      s ← lift (openIVFPQSegment ie r (f_store f) (f_file f));
      modify (λ f, mkFlat (f_Segments f) (f_Count f) (Some (mem_of s)) (f_store f) (f_file f))
  end.

Definition flat_Batch (addVectors : list vector) (addIds deleteIds : list Z) : M FlatIndex unit :=
  _ ← loadSegment;
  _ ← on_flat (seg_Batch ie (mkBatch addIds addVectors deleteIds));
  modify (λ f, mkFlat (f_Segments f) (default 0%Z (RefCount <$> f_Segments f !! 0)) (f_seg f) (f_store f) (f_file f)).

Definition flat_Search (vec : vector) (k : nat) : M FlatIndex (gmap string Z) :=
  _ ← loadSegment; on_flat (seg_Search ie vec k 0).

Definition flat_SearchByIDs (vec : vector) (k : nat) (docIDs : list string) : M FlatIndex (list DocDistance) :=
  _ ← loadSegment; on_flat (seg_SearchByIDs ie vec k docIDs).
End index.
