(* ===== verification/IvfRefine.v ===== *)
(** What a flat or ivf_pq segment stores: the rows behind its bluge index, the
    invariant that ties the metadata, the cache and the FAISS index to them, and
    the effect of its operations on the rows. *)
From Stdlib Require Import Floats.SpecFloat.
From S2P Require Import Prelude Hash Strconv Base62 Shards Runs VectorStore Float32 HNSWCache HNSWSegment HNSWSearch IvfSegment.

(** A stored vector: its document id and the vector as it was given. *)
Abbreviation row := (Z * vector)%type.

Definition is_id (x : Z) : Prop := (0 ≤ x < 2 ^ 63)%Z.

Lemma Encode_inj x y : is_id x → is_id y → Encode x = Encode y → x = y.
Proof.
  intros Hx Hy Heq. apply (f_equal (Decode (λ _, 0%Z))) in Heq. by rewrite !Decode_Encode in Heq.
Qed.

Lemma filter_fmap {A B} (f : A → B) (P : B → Prop) `{∀ x, Decision (P x)} (l : list A) :
  filter P (f <$> l) = f <$> filter (λ a, P (f a)) l.
Proof. induction l as [|a l IH]; [done|]. rewrite fmap_cons, !filter_cons, IH. by case_decide. Qed.

Lemma filter_ext_in {A} (P Q : A → Prop) `{∀ x, Decision (P x), ∀ x, Decision (Q x)} (l : list A) :
  (∀ x, x ∈ l → P x ↔ Q x) → filter P l = filter Q l.
Proof.
  induction l as [|a l IH]; intros Heq; [done|]. rewrite !filter_cons, IH by (intros; apply Heq; by right).
  destruct (Heq a) as [H1 H2]; [by left|]. repeat case_decide; tauto.
Qed.

(** Reading fixed-width integers back. *)
Definition chunks (n : nat) (bts : list Z) : list Z :=
  (λ i, get_le (take n (drop (n * i) bts))) <$> seq 0 (length bts / n).

Lemma chunks_put n (xs : list Z) :
  0 < n → Forall (λ x, 0 ≤ x < 256 ^ Z.of_nat n)%Z xs → chunks n (concat (put_le n <$> xs)) = xs.
Proof.
  intros Hn. unfold chunks. induction 1 as [|x xs Hx _ IH]; [by rewrite Nat.Div0.div_0_l|].
  rewrite fmap_cons. cbn [concat]. rewrite length_app, length_put_le.
  replace ((n + length (concat (put_le n <$> xs))) / n) with (S (length (concat (put_le n <$> xs)) / n)).
  2:{ replace (n + _) with (length (concat (put_le n <$> xs)) + 1 * n) by lia. rewrite Nat.div_add; lia. }
  cbn [seq]. rewrite fmap_cons. f_equal.
  - rewrite Nat.mul_0_r, drop_0, take_app_length' by (by rewrite length_put_le). by apply get_put_le.
  - rewrite <-IH at 2. rewrite <-fmap_S_seq, <-list_fmap_compose. apply list_fmap_ext. intros _ i _. cbn [compose].
    replace (n * S i) with (length (put_le n x) + n * i) by (rewrite length_put_le; lia). by rewrite drop_app_add.
Qed.

#[local] Opaque Encode Decode.

Section refine.
Context {W Ix File FIx FFile : Type} {bluge : Bluge W sdoc} {breader : BlugeReader W} {vdisk : VecDisk W}
        {us : Usearch Ix File} {fs : Faiss FIx FFile} {f16 : Float16}.
Context (e : ienv).
Local Abbreviation IVFPQSegment := (@IVFPQSegment W FIx FFile).

(** * Rows *)

(** What is read back of a vector. *)
Definition as_stored (v : vector) : vector :=
  if UseFloat16 e then Frombits_Float32 ∘ Fromfloat32 <$> v else v.

Lemma vec_of_stored v :
  Forall is_float32 v →
  vec_of e (if UseFloat16 e then VectorToFloat16Bytes v else VectorToBytes v) = as_stored v.
Proof.
  intros Hv. unfold vec_of, as_stored. destruct (UseFloat16 e); [|by apply BytesToVector_VectorToBytes].
  unfold Float16BytesToVector, VectorToFloat16Bytes. set (b := concat _).
  transitivity (Frombits_Float32 <$> chunks 2 b); [by unfold chunks; rewrite <-list_fmap_compose|].
  unfold b. rewrite chunks_put; [by rewrite <-list_fmap_compose|lia|].
  apply Forall_fmap, Forall_forall. intros x _. apply Fromfloat32_range.
Qed.

Definition row_doc (r : row) : sdoc := doc_of e (fst r) (snd r).

Lemma row_doc_id r : sd_id (row_doc r) = Encode (fst r).
Proof. reflexivity. Qed.

Definition row_ok (r : row) : Prop := is_id (fst r) ∧ length (snd r) = Dims e ∧ Forall is_float32 (snd r).

(** The index holds exactly the documents of the rows. *)
Definition holds (w : W) (rows : list row) : Prop :=
  ∀ id, contents w id = filter (λ d, sd_id d = id) (row_doc <$> rows).

Lemma holds_new : holds new_index [].
Proof. intros id. by rewrite new_index_empty. Qed.

Lemma holds_empty w rows : holds w rows → (∀ id, contents w id = []) → rows = [].
Proof.
  intros Hh He. destruct rows as [|r rows]; [done|]. specialize (Hh (sd_id (row_doc r))).
  rewrite He, fmap_cons, filter_cons in Hh. by rewrite decide_True in Hh.
Qed.

Lemma holds_Count w rows : holds w rows → Count w = Z.of_nat (length rows).
Proof. intros Hh. rewrite (Count_contents w (row_doc <$> rows)); [by rewrite length_fmap|]. intros id. by rewrite Hh. Qed.

Lemma filter_docs (P : string → Prop) `{∀ x, Decision (P x)} (rows : list row) id :
  filter (λ d, sd_id d = id) (row_doc <$> filter (λ r, P (Encode (fst r))) rows) =
  if decide (P id) then filter (λ d, sd_id d = id) (row_doc <$> rows) else [].
Proof.
  rewrite !filter_fmap, list_filter_filter. case_decide as Hid.
  - f_equal. apply list_filter_iff. intros r. split; [by intros [??]|]. intros Hr. split; [done|].
    rewrite row_doc_id in Hr. by rewrite Hr.
  - rewrite filter_none; [done|]. intros r _ [Hr HP]. rewrite row_doc_id in Hr. by rewrite Hr in HP.
Qed.

Definition without (ids : list Z) (rows : list row) : list row := filter (λ r, fst r ∉ ids) rows.

#[global] Instance without_proper ids : Proper ((≡ₚ) ==> (≡ₚ)) (without ids).
Proof. intros l l' Hl. unfold without. by rewrite Hl. Qed.

Lemma holds_delete w rows ids w' :
  holds w rows → Forall row_ok rows → Forall is_id ids →
  Shards.Batch w ((λ id, BDelete (Encode id)) <$> ids) = (Ok tt, w') → holds w' (without ids rows).
Proof.
  intros Hh Hok Hids HB id. rewrite (Batch_contents _ _ _ HB id).
  assert (removed ((λ id, BDelete (bdoc := sdoc) (Encode id)) <$> ids) = Encode <$> ids) as ->
    by (clear; induction ids as [|x ids IH]; [done|]; cbn; by f_equal).
  assert (added ((λ id, BDelete (bdoc := sdoc) (Encode id)) <$> ids) = []) as ->
    by (clear; induction ids as [|x ids IH]; [done|exact IH]).
  rewrite filter_nil, app_nil_r, Hh.
  assert (without ids rows = filter (λ r, Encode (fst r) ∉ Encode <$> ids) rows) as ->.
  { unfold without. apply filter_ext_in. intros r Hr. rewrite Forall_forall in Hok. rewrite Forall_forall in Hids.
    destruct (Hok r Hr) as [Hx _]. split.
    - intros Hn (y & Heq & Hy)%list_elem_of_fmap. apply Encode_inj in Heq as Heq; [|done|by apply Hids]. congruence.
    - intros Hn Hin. apply Hn. by apply list_elem_of_fmap_2. }
  symmetry. etransitivity; [exact (filter_docs (λ s, s ∉ Encode <$> ids) rows id)|]. repeat case_decide; done.
Qed.

Lemma holds_insert w rows new w' :
  holds w rows → Shards.Batch w (BInsert <$> (row_doc <$> new)) = (Ok tt, w') → holds w' (rows ++ new).
Proof.
  intros Hh HB id. rewrite (Batch_contents _ _ _ HB id), fmap_app, filter_app, Hh.
  assert (removed (BInsert <$> (row_doc <$> new)) = []) as -> by (clear; induction new as [|r new IH]; [done|exact IH]).
  assert (added (BInsert <$> (row_doc <$> new)) = row_doc <$> new) as ->
    by (clear; induction new as [|r new IH]; [done|]; cbn; by f_equal).
  rewrite decide_False by apply not_elem_of_nil. f_equal. apply list_filter_iff. intros d. by rewrite sdoc_id.
Qed.

(** A search of the index that does not fail. *)
Definition clean (w : W) : Prop :=
  ∀ q, ∃ ms, VectorStore.Search w (NewAllMatches q) = (ms, None) ∧ Forall (λ m, snd m = None) ms.

(** It gives every row that matches, once. *)
Lemma search_rows w rows q :
  clean w → holds w rows →
  ∃ rs, VectorStore.Search w (NewAllMatches q) = ((λ r, (stored (row_doc r), None)) <$> rs, None) ∧
        rs ≡ₚ filter (λ r, q_matches q (Encode (fst r)) = true) rows.
Proof.
  intros Hc Hh. destruct (Hc q) as (ms & Hs & Hn). destruct (Search_complete _ _ _ Hs Hn) as (ds & Hds & Hms).
  assert (ds ≡ₚ row_doc <$> filter (λ r, q_matches q (Encode (fst r)) = true) rows) as Hp.
  { apply same_docs_perm. intros id. etransitivity; [exact (filter_docs (λ s, q_matches q s = true) rows id)|].
    rewrite (Hds id). cbn [rq_query]. rewrite Hh. destruct (q_matches q id); [by rewrite decide_True|by rewrite decide_False]. }
  apply Permutation_map_inv in Hp as (rs & -> & Hp). exists rs. split; [|by symmetry].
  rewrite Hs. f_equal. cbn [rq_limit] in Hms. clear -Hn Hms.
  revert ms Hn Hms. induction rs as [|r rs IH]; intros [|[f err] ms] Hn Hms; try done.
  cbn in Hms. injection Hms as -> Hms. apply Forall_cons in Hn as [Hm Hn]. cbn in Hm. subst err. cbn. f_equal. by apply IH.
Qed.

(** * The invariant of a segment *)

(** The ids and vectors of the rows, in some order. *)
Definition caches_of (rows : list row) (ids : list Z) (c : vector) : Prop :=
  ∃ rs, rs ≡ₚ rows ∧ ids = rs.*1 ∧ c = concat (as_stored <$> rs.*2).

Definition faiss_of (rows : list row) (ix : FIx) : Prop := fx_ids ix ≡ₚ rows.*1.

Record seg_inv (s : IVFPQSegment) (rows : list row) : Prop := {
  si_holds : holds (s_disk s) rows;
  si_rows : Forall row_ok rows;
  si_count : RefCount (s_ref s) = Z.of_nat (length rows);
  si_cache : ∀ c ids, s_cache s = Some c → s_ids s = Some ids → caches_of rows ids c;
  si_status : Status (s_ref s) = StatusGrowing ∨
    Status (s_ref s) = StatusSealed ∧ s_cache s = None ∧
    (∀ ix, s_index s = Some ix → faiss_of rows ix) ∧
    ∃ f ix, s_file s = Some f ∧ WriteIndex ix = Ok f ∧ faiss_of rows ix
}.

(** States that differ only in what a writer changes. *)
Record written (s : IVFPQSegment) (w : W) (s' : IVFPQSegment) : Prop := {
  wr_ref : s_ref s' = s_ref s;
  wr_index : s_index s' = s_index s;
  wr_cache : s_cache s' = s_cache s;
  wr_ids : s_ids s' = s_ids s;
  wr_file : s_file s' = s_file s;
  wr_disk : s_disk s' = w
}.

Lemma write_store_runs msg ops (s : IVFPQSegment) (P : unit → IVFPQSegment → Prop) :
  (∀ w s', Shards.Batch (s_disk s) ops = (Ok tt, w) → written s w s' → P tt s') →
  runs (write_store e msg ops) s P (λ _, True).
Proof.
  intros HP. unfold write_store. run.
  assert (∀ s1, s_disk s1 = s_disk s → written s (s_disk s) s1 →
    runs (deferred (closeVecStoreWriter e) (s ← get; let '(r, w) := Shards.Batch (s_disk s) ops in
                                           _ ← modify (set_sdisk w); wrap msg (lift r))) s1 P (λ _, True)) as Hgo.
  { intros s1 Hd [H1 H2 H3 H4 H5 _]. unfold runs, deferred, get, mbind, M_bind. rewrite Hd.
    destruct (Shards.Batch (s_disk s) ops) as [[[]|x|p] w] eqn:HB; cbn; [|done..].
    apply (HP w); [done|]. by split. }
  unfold openVecStoreWriter. run. run. destruct (s_writer s); [run; by apply Hgo|].
  destruct (known_storage _); [|by run]. run. unfold failing. run. run. run; [|done]. intros _.
  do 3 run. by apply Hgo.
Qed.

Lemma open_reader_runs (s : IVFPQSegment) (P : option W → IVFPQSegment → Prop) :
  P (Some (s_disk s)) s → (∀ n, OpenReader (s_disk s) n = PathNotExists → P None s) →
  runs (openVecStoreReader e) s P (λ _, True).
Proof.
  intros HS HN. unfold openVecStoreReader. run. run. destruct (known_storage _); [|by run]. run; [|done].
  assert (∀ n a err r, open_attempts e s n a err = Ok r → P r s) as Hgo; [|intros r; apply Hgo].
  induction n as [|n IH]; intros a err r Hr; cbn [open_attempts] in Hr; [done|].
  destruct (OpenReader (s_disk s) a) eqn:E; simplify_eq; [done|by eapply HN|by eapply IH].
Qed.

(** ** Batches *)

Record batch_ok (b : segBatch) : Prop := {
  bo_len : length (b_addIds b) = length (b_addVectors b);
  bo_rows : Forall row_ok (zip (b_addIds b) (b_addVectors b));
  bo_del : Forall is_id (b_deleteIds b)
}.

(** What a batch does to the rows. *)
Definition apply_batch (b : segBatch) (rows : list row) : list row :=
  without (b_deleteIds b) rows ++ zip (b_addIds b) (b_addVectors b).

Lemma Forall_without ids rows : Forall row_ok rows → Forall row_ok (without ids rows).
Proof. rewrite !Forall_forall. intros H r [_ Hr]%list_elem_of_filter. by apply H. Qed.

Lemma without_nil rows : without [] rows = rows.
Proof.
  unfold without. induction rows as [|r rows IH]; [done|]. rewrite filter_cons_True by apply not_elem_of_nil. by f_equal.
Qed.

Lemma build_docs vectors : ∀ pre ids acc n,
  length pre = n → length ids = length vectors →
  foldM (λ acc iv, id ← load_at (fst iv) (pre ++ ids); mret (acc ++ [doc_of e id (snd iv)])) acc
        (imap (λ i, pair (n + i)) vectors) = Ok (acc ++ (row_doc <$> zip ids vectors)).
Proof.
  induction vectors as [|v vs IH]; intros pre ids acc n Hpre Hl.
  { destruct ids; [|done]. cbn. by rewrite app_nil_r. }
  destruct ids as [|x ids]; [done|]. cbn [imap foldM fst snd]. rewrite Nat.add_0_r.
  assert (load_at n (pre ++ x :: ids) = Ok x) as -> by (unfold load_at; by rewrite list_lookup_middle).
  cbn [mbind res_bind].
  specialize (IH (pre ++ [x]) ids (acc ++ [doc_of e x v]) (S n)). rewrite <-!app_assoc in IH. cbn [app] in IH.
  rewrite (imap_ext _ (λ i, pair (S n + i))) by (intros; cbn; f_equal; lia).
  etransitivity; [apply IH; [rewrite length_app; cbn; lia|by injection Hl]|done].
Qed.

Lemma removeIDs_runs ids (s : IVFPQSegment) rows (P : unit → IVFPQSegment → Prop) :
  holds (s_disk s) rows → Forall row_ok rows → Forall is_id ids →
  (∀ w s1 s', holds w (without ids rows) → written s1 w s' →
     (∃ ops, Shards.Batch (s_disk s) ops = (Ok tt, w)) →
     s_ref s1 = s_ref s → s_cache s1 = s_cache s → s_ids s1 = s_ids s →
     (Status (s_ref s) = StatusSealed → ∃ ix ix', s_index s = Some ix ∧ s_index s1 = Some ix' ∧
        (faiss_of rows ix → faiss_of (without ids rows) ix')) → P tt s') →
  runs (removeIDs e ids) s P (λ _, True).
Proof.
  intros Hh Hok Hids HP. unfold removeIDs. do 3 run.
  assert (∀ s1, s_disk s1 = s_disk s → s_ref s1 = s_ref s → s_cache s1 = s_cache s → s_ids s1 = s_ids s →
     (Status (s_ref s) = StatusSealed → ∃ ix ix', s_index s = Some ix ∧ s_index s1 = Some ix' ∧
        (faiss_of rows ix → faiss_of (without ids rows) ix')) →
     runs (write_store e "remove seg bluge index err" ((λ id, BDelete (Encode id)) <$> ids)) s1 P (λ _, True)) as Hw.
  { intros s1 Hd H1 H2 H3 H4. apply write_store_runs. intros w s' HB Hwr. rewrite Hd in HB.
    eapply (HP w s1); eauto. by eapply holds_delete. }
  case_decide as Hst; [|by run; apply Hw].
  run. unfold failing. run. run. run; [|done]. intros _. destruct (s_index s) as [ix|] eqn:Hix; [|done].
  run. run. run; [|done]. intros ix' Hrm. run. apply Hw; try done. intros _. exists ix, ix'. split_and!; [done..|]. intros Hf.
  unfold faiss_of in *. rewrite (RemoveIDs_ids _ _ _ Hrm). rewrite Hf. unfold without. by rewrite filter_fmap.
Qed.

Lemma addVectors_runs vectors ids (s : IVFPQSegment) rows (P : unit → IVFPQSegment → Prop) :
  holds (s_disk s) rows → length ids = length vectors →
  (∀ w s', holds w (rows ++ zip ids vectors) → written s w s' → (∃ ops, Shards.Batch (s_disk s) ops = (Ok tt, w)) →
     Status (s_ref s) = StatusGrowing → P tt s') →
  runs (addVectors e vectors ids) s P (λ _, True).
Proof.
  intros Hh Hl HP. unfold addVectors. run. run. case_decide as Hst; [|by run]. run. run; [|done].
  intros docs Hd. pose proof (build_docs vectors [] ids [] 0 eq_refl Hl) as Hb. cbn [app] in Hb.
  rewrite (imap_ext _ pair) in Hb by done. rewrite Hd in Hb. injection Hb as ->.
  apply write_store_runs. intros w s' HB Hwr. apply (HP w); eauto using holds_insert.
Qed.

(** [save] makes the metadata and the files agree with the rows. *)
Definition saveable (s : IVFPQSegment) (rows : list row) : Prop :=
  Status (s_ref s) = StatusGrowing ∧
    (RefCount (s_ref s) = Z.of_nat (length rows) ∨ ∀ n, OpenReader (s_disk s) n ≠ PathNotExists) ∨
  Status (s_ref s) = StatusSealed ∧ s_cache s = None ∧ ∀ ix, s_index s = Some ix → faiss_of rows ix.

(** The same segment in the same state of its life. *)
Definition same_seg (s s' : IVFPQSegment) : Prop :=
  Id (s_ref s') = Id (s_ref s) ∧ Status (s_ref s') = Status (s_ref s).

Lemma save_runs (s : IVFPQSegment) rows :
  holds (s_disk s) rows → Forall row_ok rows → saveable s rows →
  runs (save e) s (λ _ s', seg_inv s' rows ∧ same_seg s s') (λ _, True).
Proof.
  intros Hh Hok [[Hst Hc]|(Hst & Hca & Hix)]; unfold save; run; run.
  - rewrite decide_False by (rewrite Hst; done). unfold freeCache. run. run. run. apply open_reader_runs; cbn [set_caches s_disk].
    + run. unfold failing. run. run. run; [|done]. intros _. run. split; [|done].
      split; cbn; try done; [by apply holds_Count|by left].
    + intros n Hn. run. split; [|done]. split; cbn; try done; [|by left]. destruct Hc as [?|Hc]; [done|]. by apply Hc in Hn.
  - rewrite decide_True by done. destruct (s_index s) as [ix|] eqn:Hs; [|done]. specialize (Hix ix eq_refl).
    run. run. unfold saveFaissIndex, failing. do 3 run. run; [|done]. intros _. run. run. cbn [set_Count set_ref s_index].
    rewrite Hs. run. run; [|done]. intros f Hf. do 3 run. run; [|done]. intros _. run.
    split; [|done]. split; cbn; try done.
    + rewrite Ntotal_ids, Hix, length_fmap. done.
    + rewrite Hca. done.
    + right. split_and!; [done..| |]; [intros ?; rewrite Hs; by intros [= <-]|]. by exists f, ix.
Qed.

Lemma seg_Batch_runs b (s : IVFPQSegment) rows :
  seg_inv s rows → batch_ok b →
  runs (seg_Batch e b) s (λ _ s', seg_inv s' (apply_batch b rows) ∧ same_seg s s') (λ _, True).
Proof.
  intros [Hh Hok Hcnt Hca Hst] [Hlen Hrows Hdel]. unfold seg_Batch, apply_batch. run.
  assert (∀ s1, holds (s_disk s1) (without (b_deleteIds b) rows) → same_seg s s1 →
    saveable s1 (without (b_deleteIds b) rows) →
    runs (_ ← (if decide (b_addVectors b = []) then mret tt else addVectors e (b_addVectors b) (b_addIds b)); save e) s1
      (λ _ s', seg_inv s' (without (b_deleteIds b) rows ++ zip (b_addIds b) (b_addVectors b)) ∧ same_seg s s') (λ _, True)) as Hadd.
  { intros s1 Hh1 [Hid1 Hst1] Hsv1. run. case_decide as Hnil.
    - run. rewrite Hnil, zip_with_nil_r, app_nil_r. eapply runs_mono; [apply (save_runs s1 (without (b_deleteIds b) rows)); [done|by apply Forall_without|done]| |done].
      intros _ s' [? [??]]. split; [done|]. split; congruence.
    - eapply addVectors_runs; [done..|]. intros w s' Hw [H1 H2 H3 H4 H5 H6] [ops HB] Hg.
      eapply runs_mono; [apply save_runs| |done].
      + by rewrite H6.
      + apply Forall_app. split; [by apply Forall_without|done].
      + left. rewrite H1, H6. split; [done|]. right. intros n. by eapply OpenReader_written.
      + intros _ s2 [? [??]]. split; [done|]. rewrite H1 in *. split; congruence. }
  destruct (decide (b_deleteIds b = [])) as [Hnil|Hnil].
  - run. apply Hadd; rewrite ?Hnil, ?without_nil; [done|done|].
    destruct Hst as [?|(? & ? & ? & _)]; [left|right]; auto.
  - eapply removeIDs_runs; [done..|]. intros w s1 s' Hw [H1 H2 H3 H4 H5 H6] [ops HB] Hr1 Hc1 Hi1 Hix.
    apply Hadd; rewrite ?H6; [done|split; by rewrite H1, Hr1|]. unfold saveable. rewrite H1, H2, H3, H6, Hr1, Hc1.
    destruct Hst as [Hg|(Hs & Hcn & Hfx & _)]; [left|right].
    + split; [done|]. right. intros n. by eapply OpenReader_written.
    + split_and!; [done..|]. destruct (Hix Hs) as (ix & ix' & H & -> & Hf). intros ? [= <-]. by apply Hf, Hfx.
Qed.

(** ** Reading *)

Lemma visit_id_row r : visit_id (stored (row_doc r), None) = Ok (Encode (fst r)).
Proof. unfold visit_id, stored. cbn [list_find fst snd]. rewrite decide_True by done. by rewrite of_bytes_bytes. Qed.

Lemma exists_loop rs : ∀ acc, Forall row_ok rs →
  foldM (λ acc m, id ← visit_id m; mret (acc ++ [Decode (conv_oob e) id])) acc
        ((λ r, (stored (row_doc r), None)) <$> rs) = Ok (acc ++ rs.*1).
Proof.
  induction rs as [|r rs IH]; intros acc Hok; [cbn; by rewrite app_nil_r|].
  apply Forall_cons in Hok as [[Hr _] Hok]. rewrite !fmap_cons. cbn [foldM]. rewrite visit_id_row. cbn [mbind res_bind].
  rewrite Decode_Encode by exact Hr. etransitivity; [by apply IH|]. by rewrite <-app_assoc.
Qed.

Lemma Forall_perm_filter (P : row → Prop) `{∀ r, Decision (P r)} rs rows :
  rs ≡ₚ filter P rows → Forall row_ok rows → Forall row_ok rs.
Proof. intros ->. rewrite !Forall_forall. intros H1 r [_ Hr]%list_elem_of_filter. by apply H1. Qed.

(** [GetExistsIds] gives the ids of the rows among those asked for. *)
Lemma GetExistsIds_runs ids (s : IVFPQSegment) rows :
  seg_inv s rows → clean (s_disk s) → Forall is_id ids →
  runs (GetExistsIds e ids) s (λ xs s', s' = s ∧ ∀ x, x ∈ xs ↔ x ∈ ids ∧ x ∈ rows.*1) (λ _, True).
Proof.
  intros Hinv Hc Hids. unfold GetExistsIds. run. apply open_reader_runs.
  - cbv zeta. run. run; [|done]. intros _. destruct (search_rows _ _ (QShould (Encode <$> ids)) Hc (si_holds _ _ Hinv)) as (rs & -> & Hp).
    run; [|done]. rewrite exists_loop by (by eapply Forall_perm_filter; [|apply Hinv]).
    intros xs [= <-]. split; [done|]. intros x. cbn [app]. rewrite Hp. clear Hp. pose proof (si_rows _ _ Hinv) as Hok.
    rewrite Forall_forall in Hok. rewrite Forall_forall in Hids. split.
    + intros (r & -> & [Hq Hr]%list_elem_of_filter)%list_elem_of_fmap. cbn [q_matches] in Hq.
      apply bool_decide_eq_true in Hq as (y & Heq & Hy)%list_elem_of_fmap.
      apply Encode_inj in Heq as <-; [|by apply Hok|by apply Hids]. split; [done|]. by apply list_elem_of_fmap_2.
    + intros [Hx (r & -> & Hr)%list_elem_of_fmap]. apply list_elem_of_fmap_2, list_elem_of_filter. split; [|done].
      cbn [q_matches]. apply bool_decide_eq_true. by apply list_elem_of_fmap_2.
  - intros n Hn. run. split; [done|]. intros x.
    rewrite (holds_empty _ _ (si_holds _ _ Hinv) (OpenReader_new _ _ Hn)). set_solver.
Qed.

Lemma visit_vec_row r :
  row_ok r → ∃ stopped, visit_vec e (stored (row_doc r)) "" None = (Encode (fst r), Some (as_stored (snd r)), stopped).
Proof.
  intros (_ & _ & Hv). unfold stored, row_doc, doc_of. cbn [sd_id sd_fields visit_vec].
  rewrite decide_True by done. rewrite (decide_False (P := internalVecField = "_id")) by done.
  rewrite (decide_True (P := internalVecField = internalVecField)) by done. rewrite of_bytes_bytes, vec_of_stored by done.
  case_decide; eauto.
Qed.

Lemma default_append {A} (s : option (list A)) xs : default [] (append s xs) = default [] s ++ xs.
Proof. destruct s, xs; cbn; by rewrite ?app_nil_r. Qed.

Lemma collect_rows rs : ∀ vs xs, Forall row_ok rs →
  ∃ vs' xs', collect e ((λ r, (stored (row_doc r), None)) <$> rs) vs xs = (vs', xs', None) ∧
    default [] vs' = default [] vs ++ concat (as_stored <$> rs.*2) ∧ default [] xs' = default [] xs ++ rs.*1.
Proof.
  induction rs as [|r rs IH]; intros vs xs Hok; [exists vs, xs; cbn; by rewrite !app_nil_r|].
  apply Forall_cons in Hok as [Hr Hok]. destruct (visit_vec_row r Hr) as [st Hv].
  destruct (IH (append vs (as_stored (snd r))) (append xs [fst r]) Hok) as (vs' & xs' & Hc & H1 & H2).
  exists vs', xs'. rewrite !fmap_cons. cbn [collect concat]. rewrite Hv.
  replace (if st then None else None : option string) with (None : option string) by (by destruct st).
  cbn [default from_option id]. rewrite Decode_Encode by apply Hr. rewrite Hc, H1, H2, !default_append, <-!app_assoc. done.
Qed.

(** A read gives the rows that match, or an error. *)
Lemma getVectors_runs count q (s : IVFPQSegment) rows (P : _ → IVFPQSegment → Prop) :
  seg_inv s rows → clean (s_disk s) →
  (∀ vs xs rs, rs ≡ₚ filter (λ r, q_matches q (Encode (fst r)) = true) rows →
     default [] vs = concat (as_stored <$> rs.*2) → default [] xs = rs.*1 → P (vs, xs, None) s) →
  (∀ vs xs x, P (vs, xs, Some x) s) →
  runs (getVectors e count (NewAllMatches q)) s P (λ _, True).
Proof.
  intros Hinv Hc HP HE. unfold runs, getVectors.
  pose proof (open_reader_runs s (λ o s', s' = s ∧ (o = Some (s_disk s) ∨ o = None ∧ rows = []))) as Ho.
  unfold runs in Ho. assert (∃ o, openVecStoreReader e s = (o, s)) as [o Hs].
  { unfold openVecStoreReader, mbind, M_bind, get. destruct (known_storage _); eexists; reflexivity. }
  rewrite Hs in *. destruct o as [o|x|p]; [|done..].
  destruct Ho as [_ [->|[-> ->]]].
  - split; [done|by left].
  - intros n Hn. split; [done|]. right. split; [done|]. by eapply holds_empty, OpenReader_new; [apply Hinv|].
  - destruct (SearchFails _ _); [by apply HE|].
    destruct (search_rows _ _ q Hc (si_holds _ _ Hinv)) as (rs & -> & Hp).
    destruct (collect_rows rs (if (0 <? count)%Z then Some [] else None) (if (0 <? count)%Z then Some [] else None))
      as (vs' & xs' & -> & H1 & H2); [by eapply Forall_perm_filter; [|apply Hinv]|].
    eapply HP; [done|by rewrite H1; destruct (0 <? count)%Z|by rewrite H2; destruct (0 <? count)%Z].
  - by apply (HP _ _ []).
Qed.

Lemma getVecCaches_runs (s : IVFPQSegment) rows :
  seg_inv s rows → clean (s_disk s) → Status (s_ref s) = StatusGrowing →
  runs (getVecCaches e) s
    (λ r s', seg_inv s' rows ∧ s_ref s' = s_ref s ∧ s_disk s' = s_disk s ∧ caches_of rows (default [] (fst r)) (default [] (snd r)))
    (λ _, True).
Proof.
  intros Hinv Hc Hg. unfold getVecCaches. run. run. destruct (negb _ && negb _) eqn:Hn.
  - run. split_and!; [done..|]. apply andb_true_iff in Hn as [H1 H2].
    destruct (s_cache s) as [c|] eqn:Ec; [|done]. destruct (s_ids s) as [ids|] eqn:Ei; [|done].
    by apply (si_cache _ _ Hinv).
  - run. unfold getAllVectors. run. run. eapply getVectors_runs; [done..| |intros; by do 3 run].
    intros vs xs rs Hp H1 H2. do 3 run. cbn [fst snd].
    assert (caches_of rows (default [] xs) (default [] vs)) as Hco.
    { exists rs. split_and!; [|done..]. rewrite Hp. clear. induction rows as [|r rows IH]; [done|].
      rewrite filter_cons_True by done. by rewrite IH. }
    split_and!; [|done..]. destruct Hinv as [? ? ? _ _]. split; cbn; try done; [|by left].
    intros c ids -> ->. done.
Qed.

(** ** Sealing and opening *)

(** Sealing keeps the rows; a segment with vectors is sealed afterwards. *)
Lemma Seal_runs (s : IVFPQSegment) rows :
  seg_inv s rows → clean (s_disk s) → Status (s_ref s) = StatusGrowing →
  runs (Seal e) s
    (λ _ s', seg_inv s' rows ∧ Id (s_ref s') = Id (s_ref s) ∧ s_disk s' = s_disk s ∧
             (Status (s_ref s') = StatusSealed ∨ Status (s_ref s') = StatusGrowing ∧ concat (as_stored <$> rows.*2) = []))
    (λ _, True).
Proof.
  intros Hinv Hc Hg. unfold Seal. run. eapply runs_mono; [by apply getVecCaches_runs| |done].
  intros [ids vs] s1 (Hinv1 & Href & Hd & (rs & Hp & Hi & Hv)). cbn [fst snd] in *.
  assert (default [] vs = [] → concat (as_stored <$> rows.*2) = []) as Hnil.
  { rewrite Hv. intros Hn%(f_equal length). apply nil_length_inv. rewrite length_concat_fmap in *.
    etransitivity; [|exact Hn]. by rewrite Hp. }
  assert (default [] ids = [] → concat (as_stored <$> rows.*2) = []) as Hnil'.
  { rewrite Hi. intros Hn%fmap_nil_inv. apply Hnil. by rewrite Hv, Hn. }
  destruct (default [] vs) as [|x vs'] eqn:Ev; [run; rewrite Href, Hd; by auto 10|].
  destruct (default [] ids) as [|y ids'] eqn:Ei; [run; rewrite Href, Hd; by auto 10|].
  run. run; [|done]. intros ix0 H0. run. run; [|done]. intros ix1 H1. run. run; [|done]. intros ix H2.
  assert (faiss_of rows ix) as Hfx.
  { unfold faiss_of. rewrite (AddWithIDs_ids _ _ _ _ H2), (Train_ids _ _ _ H1), (IndexFactory_ids _ _ _ H0). cbn [app].
    rewrite Hi. by rewrite Hp. }
  run. run. unfold saveFaissIndex, failing. run. do 3 run. run; [|done]. intros _. run. run. cbn [set_index s_index].
  run. run; [|done]. intros f Hf. do 3 run. run; [|done]. intros _. run. do 2 run. unfold freeCache. run.
  cbn. rewrite Href, Hd. split_and!; [|done|done|by left]. destruct Hinv1 as [? ? ? _ _].
  split; cbn; try done. right. split_and!; [done..| |]; [by intros ? [= <-]|]. by exists f, ix.
Qed.

(** The memory of a segment that is not open. *)
Definition closed_seg (r : VectorSegment) (w : W) (f : option FFile) : IVFPQSegment :=
  mkIVF r None None None false 0 0 w f.

Lemma open_inv r w f s rows :
  openIVFPQSegment e r w f = Ok s → seg_inv (closed_seg r w f) rows →
  seg_inv s rows ∧ s_ref s = r ∧ s_disk s = w ∧ s_file s = f.
Proof.
  intros Ho Hinv. unfold openIVFPQSegment in Ho.
  assert (runs (open_steps e r) (closed_seg r w f)
            (λ _ s, seg_inv s rows ∧ s_ref s = r ∧ s_disk s = w ∧ s_file s = f) (λ _, True)) as Hr.
  2:{ unfold runs, closed_seg in Hr. destruct (open_steps e r _) as [[] s0]; simplify_eq. done. }
  clear Ho. unfold open_steps. run. run. unfold failing. run. run. run; [|done]. intros _.
  case_decide as Hst; [|by run].
  run. unfold loadFaissIndexFile, failing. run. run. run. run; [|done]. intros _. run. run. cbn [closed_seg s_file].
  destruct f as [f|]; [|done]. run. run; [|done]. intros ix Hix. run. cbn. split_and!; [|done..].
  destruct Hinv as [? ? ? ? Hs]. split; try done. cbn in Hs |- *. destruct Hs as [Hs|(? & ? & _ & f' & ix' & [= <-] & Hw & Hf)].
  { rewrite Hs in Hst. done. }
  right. split_and!; [done..| |by exists f, ix']. intros ? [= <-]. unfold faiss_of in *. by rewrite (Read_Write _ _ _ Hw Hix).
Qed.
End refine.
