(* ===== verification/IvfSystem.v ===== *)
(** What a flat or ivf_pq index stores: the rows of its segments, the invariant
    of the whole, and what a batch and a sealing do to them. *)
From Stdlib Require Import Floats.SpecFloat.
From S2P Require Import Prelude Hash Strconv Base62 Shards Runs VectorStore Float32 Heap HNSWCache HNSWSegment HNSWSearch IvfSegment IvfIndex IvfRefine.

#[local] Opaque Encode Decode.

Section system.
Context {W Ix File FIx FFile : Type} {bluge : Bluge W sdoc} {breader : BlugeReader W} {vdisk : VecDisk W}
        {us : Usearch Ix File} {fs : Faiss FIx FFile} {f16 : Float16}.
Context (e : venv).
Local Abbreviation ie := (seg_env e).
Local Abbreviation IVFPQSegment := (@IVFPQSegment W FIx FFile).
Local Abbreviation IvfPqIndex := (@IvfPqIndex W FIx FFile).
Local Abbreviation seg_inv := (seg_inv (W := W) (FIx := FIx) (FFile := FFile) ie).

Definition no_mem : smem (FIx := FIx) := mkMem None None None false 0 0.

(** The segment at a position, open or not. *)
Definition slot (v : IvfPqIndex) (r : VectorSegment) (o : option smem) : IVFPQSegment :=
  seg_view v r (default no_mem o).

(** The index holds [rowss], one list of rows per segment. *)
Record ivf_inv (v : IvfPqIndex) (rowss : list (list row)) : Prop := {
  iv_refs : length (Segments v) = length rowss;
  iv_segs : length (segments v) = length rowss;
  iv_cur : S (CurrentSegmentId v) = length rowss;
  iv_ids : ∀ i r, Segments v !! i = Some r → Id r = i;
  iv_growing : ∀ r, Segments v !! CurrentSegmentId v = Some r → Status r = StatusGrowing;
  iv_seg : ∀ i r o rows, Segments v !! i = Some r → segments v !! i = Some o → rowss !! i = Some rows →
    seg_inv (slot v r o) rows;
  iv_fresh : ∀ i, length rowss ≤ i → holds ie (store_of v i) []
}.

(** Searches of the stores do not fail. *)
Definition clean_index (v : IvfPqIndex) : Prop := ∀ i, i < length (Segments v) → clean (store_of v i).

Lemma seg_inv_ext (s s' : IVFPQSegment) rows :
  s_disk s' = s_disk s → s_ref s' = s_ref s → s_index s' = s_index s → s_cache s' = s_cache s →
  s_ids s' = s_ids s → s_file s' = s_file s → seg_inv s rows → seg_inv s' rows.
Proof. intros H1 H2 H3 H4 H5 H6 [? ? ? ? ?]. split; rewrite ?H1, ?H2, ?H3, ?H4, ?H5, ?H6; done. Qed.

(** The same stores, as far as a search can see, and the same current segment. *)
Definition frame (v v' : IvfPqIndex) : Prop :=
  CurrentSegmentId v' = CurrentSegmentId v ∧ ∀ j, store_of v' j = store_of v j.

Lemma frame_refl v : frame v v.
Proof. done. Qed.
Lemma frame_trans v1 v2 v3 : frame v1 v2 → frame v2 v3 → frame v1 v3.
Proof. intros [H1 H2] [H3 H4]. split; [congruence|]. intros j. by rewrite H4. Qed.

Lemma frame_clean v v' rowss :
  ivf_inv v rowss → ivf_inv v' rowss → frame v v' → clean_index v → clean_index v'.
Proof.
  intros Hi Hi' [_ Hs] Hc i Hlt. rewrite Hs. apply Hc. rewrite (iv_refs _ _ Hi). by rewrite <-(iv_refs _ _ Hi').
Qed.

(** Replacing a segment keeps the others. *)
Lemma put_seg_inv v rowss i r o s rows :
  ivf_inv v rowss → Segments v !! i = Some r → segments v !! i = Some o →
  seg_inv s rows → Id (s_ref s) = i → (i = CurrentSegmentId v → Status (s_ref s) = StatusGrowing) →
  ivf_inv (put_seg i (Id r) s v) (<[i := rows]> rowss).
Proof.
  intros Hinv Hr Ho Hs Hid Hg. rewrite (iv_ids _ _ Hinv _ _ Hr).
  pose proof (lookup_lt_Some _ _ _ Hr) as Hi1. pose proof (lookup_lt_Some _ _ _ Ho) as Hi2.
  destruct Hinv as [Hl1 Hl2 Hc Hids Hgr Hseg Hfr]. split; cbn; rewrite ?length_insert; try done.
  - intros j r' [(-> & <- & _)|[_ Hj]]%list_lookup_insert_Some; [done|by apply Hids].
  - intros r' [(Heq & <- & _)|[_ Hj]]%list_lookup_insert_Some; [by apply Hg|by apply Hgr].
  - intros j r' o' rows'. destruct (decide (j = i)) as [->|Hne].
    + rewrite !list_lookup_insert_eq by lia. intros [= <-] [= <-] [= <-].
      eapply seg_inv_ext; [..|exact Hs]; try done; cbn; rewrite Hid.
      * unfold store_of. cbn. by rewrite lookup_insert_eq.
      * destruct (s_file s); [by rewrite lookup_insert_eq|by rewrite lookup_delete_eq].
    + rewrite !list_lookup_insert_ne by done. intros Hr' Ho' Hrows'.
      eapply seg_inv_ext; [..|exact (Hseg j r' o' rows' Hr' Ho' Hrows')]; try done; cbn; rewrite (Hids j r' Hr').
      * unfold store_of. cbn. by rewrite lookup_insert_ne.
      * destruct (s_file s); [by rewrite lookup_insert_ne|by rewrite lookup_delete_ne].
  - intros j Hj. unfold store_of. cbn. rewrite lookup_insert_ne by lia. by apply Hfr.
Qed.

(** A method of a segment, from what it does to the segment. *)
Lemma on_seg_runs {A} i (m : M IVFPQSegment A) v rowss (P : A → IvfPqIndex → Prop) :
  ivf_inv v rowss →
  (∀ r o rows, Segments v !! i = Some r → segments v !! i = Some o → rowss !! i = Some rows →
     seg_inv (slot v r o) rows →
     runs m (slot v r o) (λ a s', P a (put_seg i (Id r) s' v)) (λ _, True)) →
  runs (on_seg i m) v P (λ _, True).
Proof.
  intros Hinv HP. unfold runs, on_seg. destruct (Segments v !! i) as [r|] eqn:Hr; [|done].
  destruct (segments v !! i) as [[mem|]|] eqn:Ho; [|done..].
  destruct (lookup_lt_is_Some_2 rowss i) as [rows Hrows].
  { rewrite <-(iv_refs _ _ Hinv). by eapply lookup_lt_Some. }
  specialize (HP r (Some mem) rows eq_refl eq_refl Hrows (iv_seg _ _ Hinv _ _ _ _ Hr Ho Hrows)).
  unfold runs, slot in HP. cbn [default from_option id] in HP. destruct (m (seg_view v r mem)) as [[] s]; done.
Qed.

(** ** Loading *)

Lemma load_at_pos_runs i v rowss :
  ivf_inv v rowss → runs (load_at_pos e i) v (λ _ v', ivf_inv v' rowss ∧ frame v v' ∧ Segments v' = Segments v) (λ _, True).
Proof.
  intros Hinv. unfold load_at_pos. run. run. destruct (segments v !! i) as [[m|]|] eqn:Ho; [by run| |done].
  unfold open_at. run. run. destruct (Segments v !! i) as [r|] eqn:Hr; [|done]. run. run; [|done]. intros s Hs. run.
  split_and!; [|done..]. destruct (lookup_lt_is_Some_2 rowss i) as [rows Hrows].
  { rewrite <-(iv_refs _ _ Hinv). by eapply lookup_lt_Some. }
  pose proof (iv_seg _ _ Hinv _ _ _ _ Hr Ho Hrows) as Hseg. apply (open_inv _ _ _ _ _ _ Hs) in Hseg as (Hseg & H1 & H2 & H3).
  destruct Hinv as [Hl1 Hl2 Hc Hids Hgr Hall Hfr]. split; cbn; rewrite ?length_insert; try done.
  intros j r' o' rows' Hr' [(-> & <- & _)|[_ Ho']]%list_lookup_insert_Some Hrows'; [|by eapply Hall].
  simplify_eq. eapply seg_inv_ext; [..|exact Hseg]; done.
Qed.

Lemma loadSegments_runs ids : ∀ v rowss,
  ivf_inv v rowss →
  runs (loadSegments e ids) v (λ segs v', ivf_inv v' rowss ∧ frame v v' ∧ Segments v' = Segments v ∧ segs = Z.to_nat <$> ids) (λ _, True).
Proof.
  intros v rowss Hinv. unfold loadSegments. run.
  assert (∀ l v, ivf_inv v rowss → runs (forM (λ id, v ← get;
       if decide (Z.of_nat (length (segments v)) < id ∨ id < 0)%Z then
         raise ("invalid segment id: " +:+ FormatInt id +:+ ", current segments length is "
                +:+ pretty (length (segments v)))
       else load_at_pos e (Z.to_nat id)) l) v (λ _ v', ivf_inv v' rowss ∧ frame v v' ∧ Segments v' = Segments v) (λ _, True)) as Hgo.
  { clear v Hinv. induction l as [|id l IH]; intros v Hinv; cbn [forM]; [by run|]. run. run. run.
    case_decide; [by run|]. eapply runs_mono; [by apply load_at_pos_runs| |done]. intros _ v1 (Hinv1 & Hf1 & Hs1).
    eapply runs_mono; [by apply IH| |done]. intros _ v2 (Hinv2 & Hf2 & Hs2). split_and!; [done|by eapply frame_trans|congruence]. }
  eapply runs_mono; [by apply Hgo| |done]. intros _ v' (? & ? & ?). by run.
Qed.

Lemma copySegments_runs v rowss :
  ivf_inv v rowss →
  runs (copySegments e) v
    (λ segs v', ivf_inv v' rowss ∧ frame v v' ∧ Segments v' = Segments v ∧ segs = seq 0 (length rowss)) (λ _, True).
Proof.
  intros Hinv. unfold copySegments, loadAllSegments. do 4 run. eapply runs_mono; [by apply loadSegments_runs| |done].
  intros segs v' (Hinv' & Hf & Hs & _). do 4 run. split_and!; [done..|]. by rewrite (iv_segs _ _ Hinv').
Qed.

(** ** Deletions *)

(** What is deleted from a segment with these rows. *)
Definition del_for (delIds : list Z) (rows : list row) (o : option segBatch) : Prop :=
  ∃ ids, (∀ x, x ∈ ids ↔ x ∈ delIds ∧ x ∈ rows.*1) ∧
         o = if decide (ids = []) then None else Some (mkBatch [] [] ids).

Lemma getDelBatches_runs delIds segs : ∀ acc v rowss,
  ivf_inv v rowss → clean_index v → Forall is_id delIds → NoDup segs → (∀ i, i ∈ segs → acc !! i = None) →
  runs (getDelBatches e segs delIds acc) v
    (λ m v', ivf_inv v' rowss ∧ frame v v' ∧
       ∀ i rows, rowss !! i = Some rows → if decide (i ∈ segs) then del_for delIds rows (m !! i) else m !! i = acc !! i)
    (λ _, True).
Proof.
  induction segs as [|i segs IH]; intros acc v rowss Hinv Hc Hids Hnd Hacc; cbn [getDelBatches].
  { run. split_and!; [done..|]. intros i rows _. by rewrite decide_False by apply not_elem_of_nil. }
  apply NoDup_cons in Hnd as [Hni Hnd]. run. eapply on_seg_runs; [done|]. intros r o rows Hr Ho Hrows Hseg.
  pose proof (iv_ids _ _ Hinv _ _ Hr) as Hid.
  eapply runs_mono; [apply GetExistsIds_runs; [exact Hseg| |done]| |done].
  { cbn. rewrite Hid. apply Hc. by eapply lookup_lt_Some. }
  intros xs s' [-> Hxs]. set (v1 := put_seg i (Id r) _ v).
  assert (ivf_inv v1 rowss) as Hinv1.
  { rewrite <-(list_insert_id rowss i rows) by done. eapply put_seg_inv; try done. intros ->. by apply (iv_growing _ _ Hinv). }
  assert (frame v v1) as Hf1.
  { split; [done|]. intros j. unfold v1, store_of at 1. cbn. destruct (decide (j = Id r)) as [->|Hj].
    - by rewrite lookup_insert_eq.
    - by rewrite lookup_insert_ne. }
  eapply runs_mono; [apply IH; try done; [by apply (frame_clean v v1 rowss)|]| |done].
  { intros j Hj. case_decide; [apply Hacc; by right|]. rewrite lookup_insert_ne by (by intros ->). apply Hacc. by right. }
  intros m v2 (Hinv2 & Hf2 & Hm). split_and!; [done|by eapply frame_trans|]. intros j rows' Hj. specialize (Hm j rows' Hj).
  destruct (decide (j ∈ segs)) as [Hin|Hin]; [rewrite decide_True by (by right); done|].
  destruct (decide (j = i)) as [->|Hji].
  - rewrite decide_True by left. simplify_eq. exists xs. split; [done|]. rewrite Hm.
    case_decide; [apply Hacc; by left|by rewrite lookup_insert_eq].
  - rewrite decide_False by (by intros [?|?]%elem_of_cons). rewrite Hm. case_decide; [done|by rewrite lookup_insert_ne].
Qed.

Lemma del_for_without delIds rows ids :
  (∀ x, x ∈ ids ↔ x ∈ delIds ∧ x ∈ rows.*1) → without ids rows = without delIds rows.
Proof.
  intros Hids. unfold without. apply filter_ext_in. intros r Hr. rewrite Hids.
  assert (fst r ∈ rows.*1) by (by apply list_elem_of_fmap_2). tauto.
Qed.

(** Deleting from one segment after the other. *)
Lemma delete_loop_runs delIds l : ∀ v rowss,
  ivf_inv v rowss → Forall is_id delIds → NoDup l.*1 →
  (∀ i b rows, (i, b) ∈ l → rowss !! i = Some rows → del_for delIds rows (Some b)) →
  runs (forM (λ ib, on_seg (fst ib) (seg_Batch ie (snd ib))) l) v
    (λ _ v', ivf_inv v' (foldl (λ c i, alter (without delIds) i c) rowss l.*1)) (λ _, True).
Proof.
  induction l as [|[i b] l IH]; intros v rowss Hinv Hids Hnd Hl; cbn [forM]; [by run|].
  rewrite fmap_cons in Hnd. apply NoDup_cons in Hnd as [Hni Hnd]. cbn [fst snd] in *. run.
  eapply on_seg_runs; [done|]. intros r o rows Hr Ho Hrows Hseg.
  destruct (Hl i b rows) as (ids & Hx & Heq); [by left|done|]. case_decide as Hnil; [done|]. injection Heq as ->.
  pose proof (iv_ids _ _ Hinv _ _ Hr) as Hid.
  eapply runs_mono; [apply seg_Batch_runs; [exact Hseg|]| |done].
  { split; cbn; [done|constructor|]. rewrite Forall_forall in Hids |- *. intros x [Hd _]%Hx. by apply Hids. }
  intros _ s' [Hs' [Hi' Hst']]. unfold apply_batch in Hs'. cbn [b_deleteIds b_addIds b_addVectors zip zip_with] in Hs'.
  rewrite app_nil_r, (del_for_without delIds rows ids Hx) in Hs'.
  rewrite fmap_cons. cbn [foldl fst].
  assert (alter (without delIds) i rowss = <[i := without delIds rows]> rowss) as ->.
  { apply list_eq. intros j. destruct (decide (j = i)) as [->|Hne].
    - rewrite list_lookup_alter_eq, Hrows, list_lookup_insert_eq by (by eapply lookup_lt_Some). done.
    - by rewrite list_lookup_alter_ne, list_lookup_insert_ne by done. }
  apply IH; [|done|done|].
  - eapply put_seg_inv; try done; [by rewrite Hi'; cbn|]. intros ->. rewrite Hst'. cbn. by apply (iv_growing _ _ Hinv).
  - intros j b' rows' Hin. rewrite list_lookup_insert_ne; [by apply Hl; right|].
    intros ->. apply Hni. by apply (list_elem_of_fmap_2 fst _ (_, b')).
Qed.

Lemma foldl_alter_lookup {A} (f : A → A) l : ∀ (c : list A) j, NoDup l →
  foldl (λ c i, alter f i c) c l !! j = if decide (j ∈ l) then f <$> c !! j else c !! j.
Proof.
  induction l as [|i l IH]; intros c j Hnd; cbn [foldl]; [by rewrite decide_False by apply not_elem_of_nil|].
  apply NoDup_cons in Hnd as [Hni Hnd]. rewrite IH by done. destruct (decide (j = i)) as [->|Hne].
  - rewrite decide_False by done. rewrite decide_True by left. by rewrite list_lookup_alter_eq.
  - rewrite list_lookup_alter_ne by done. destruct (decide (j ∈ l)); [rewrite decide_True by (by right)|rewrite decide_False by (by intros [?|?]%elem_of_cons)]; done.
Qed.

Lemma without_none ids rows : (∀ x, x ∈ ids → x ∉ rows.*1) → without ids rows = rows.
Proof.
  intros Hn. rewrite <-(without_nil rows) at 2. unfold without. apply filter_ext_in. intros r Hr.
  split; [intros _; apply not_elem_of_nil|]. intros _ Hin. apply (Hn _ Hin). by apply list_elem_of_fmap_2.
Qed.

Lemma processDel_runs delIds v rowss :
  ivf_inv v rowss → clean_index v → Forall is_id delIds →
  runs (processDel e delIds) v (λ _ v', ivf_inv v' (without delIds <$> rowss)) (λ _, True).
Proof.
  intros Hinv Hc Hids. unfold processDel. case_decide as Hnil.
  { run. rewrite Hnil. replace (without [] <$> rowss) with rowss; [done|].
    rewrite (list_fmap_ext _ id) by (intros; apply without_nil). by rewrite list_fmap_id. }
  run. eapply runs_mono; [by apply copySegments_runs| |done]. intros segs v1 (Hinv1 & Hf1 & _ & ->). run.
  eapply runs_mono; [apply getDelBatches_runs; try done; [by apply (frame_clean v v1 rowss)|apply NoDup_seq]| |done].
  intros m v2 (Hinv2 & _ & Hm).
  assert (∀ i rows, rowss !! i = Some rows → del_for delIds rows (m !! i)) as Hdel.
  { intros i rows Hi. specialize (Hm i rows Hi). rewrite decide_True in Hm; [done|].
    apply elem_of_seq. apply lookup_lt_Some in Hi. lia. }
  eapply runs_mono; [apply (delete_loop_runs delIds); try done; [apply range_nodup|]| |done].
  { intros i b rows Hib Hi. apply range_elem in Hib. rewrite <-Hib. by apply Hdel. }
  intros [] v3 Hinv3. cbn beta in Hinv3.
  replace (without delIds <$> rowss) with (foldl (λ c i, alter (without delIds) i c) rowss (range (batch_order e) m).*1); [done|].
  apply list_eq. intros i. rewrite foldl_alter_lookup by apply range_nodup. rewrite list_lookup_fmap.
  destruct (rowss !! i) as [rows|] eqn:Hi; [|by case_decide]. case_decide as Hin; [done|]. cbn. f_equal.
  destruct (Hdel i rows Hi) as (ids & Hx & Heq). case_decide as Hids0.
  - symmetry. apply without_none. intros x Hx1 Hx2. assert (x ∈ ids) as Hbad by (by apply Hx). rewrite Hids0 in Hbad. by apply not_elem_of_nil in Hbad.
  - exfalso. apply Hin. apply (list_elem_of_fmap_2 fst _ (i, mkBatch [] [] ids)). by apply range_elem.
Qed.

(** ** Additions *)

Lemma checkNewSeg_runs v rowss :
  ivf_inv v rowss →
  runs (checkNewSeg e) v (λ _ v', ∃ more, ivf_inv v' (rowss ++ more) ∧ concat more = []) (λ _, True).
Proof.
  intros Hinv. unfold checkNewSeg. run. run. destruct (Segments v !! CurrentSegmentId v) as [r|] eqn:Hr; [|done].
  case_decide; run; [|exists []; by rewrite app_nil_r].
  exists [[]]. split; [|done]. destruct Hinv as [Hl1 Hl2 Hc Hids Hgr Hseg Hfr].
  split; cbn; rewrite ?length_app; cbn; try lia.
  - intros i r' [Hi|[Hge Hi]]%lookup_app_Some; [by apply Hids|]. apply list_lookup_singleton_Some in Hi as [Hi <-]. cbn. lia.
  - intros r'. rewrite lookup_app_r by lia. replace (_ - _) with 0 by lia. by intros [= <-].
  - intros i r' o rows [Hi|[Hge Hi]]%lookup_app_Some.
    + apply lookup_lt_Some in Hi as Hlt. rewrite !lookup_app_l by lia. by apply Hseg.
    + apply list_lookup_singleton_Some in Hi as [Hi <-]. rewrite !lookup_app_r by lia.
      replace (i - length (segments v)) with 0 by lia. replace (i - length rowss) with 0 by lia. intros [= <-] [= <-].
      split; cbn; try done; [|by left]. apply Hfr. lia.
  - intros i Hi. apply Hfr. lia.
Qed.

Lemma concat_insert {A} (ls : list (list A)) i l l' :
  ls !! i = Some l → concat (<[i := l ++ l']> ls) ≡ₚ concat ls ++ l'.
Proof.
  revert i. induction ls as [|x ls IH]; intros [|i] Hi; cbn in *; simplify_eq.
  - rewrite <-!app_assoc. apply Permutation_app_head, Permutation_app_comm.
  - rewrite (IH i Hi). by rewrite app_assoc.
Qed.

Lemma processAdd_runs addVectors addIds v rowss :
  ivf_inv v rowss → length addIds = length addVectors → Forall (row_ok ie) (zip addIds addVectors) →
  runs (processAdd e addVectors addIds) v
    (λ _ v', ∃ rowss', ivf_inv v' rowss' ∧ concat rowss' ≡ₚ concat rowss ++ zip addIds addVectors) (λ _, True).
Proof.
  intros Hinv Hlen Hrows. unfold processAdd, loadCurrentSegment. do 3 run.
  eapply runs_mono; [by apply load_at_pos_runs| |done]. intros _ v1 [Hinv1 _]. do 3 run.
  eapply on_seg_runs; [done|]. intros r o rows Hr Ho Hi Hseg. pose proof (iv_ids _ _ Hinv1 _ _ Hr) as Hid.
  eapply runs_mono; [apply seg_Batch_runs; [exact Hseg|by split; cbn]| |done].
  intros _ s' [Hs' [Hi' Hst']]. unfold apply_batch in Hs'. cbn [b_deleteIds b_addIds b_addVectors] in Hs'.
  rewrite without_nil in Hs'. cbn [s_ref slot seg_view] in Hi', Hst'.
  eapply runs_mono; [apply checkNewSeg_runs| |done].
  - eapply put_seg_inv; try done; [congruence|]. intros _. rewrite Hst'. by apply (iv_growing _ _ Hinv1).
  - intros _ v2 (more & Hinv2 & Hmore). eexists. split; [exact Hinv2|].
    rewrite concat_app, Hmore, app_nil_r. by apply concat_insert.
Qed.

Lemma concat_without ids (rowss : list (list row)) : concat (without ids <$> rowss) = without ids (concat rowss).
Proof. induction rowss as [|rows rowss IH]; [done|]. cbn. unfold without in *. by rewrite filter_app, IH. Qed.

Lemma total_count_sum refs : total_count refs = int64 (foldr (λ r n, RefCount r + n)%Z 0%Z refs).
Proof.
  unfold total_count. assert (∀ t, int64 t = t → foldl (λ total r, int64 (total + RefCount r)) t refs =
    int64 (t + foldr (λ r n, RefCount r + n)%Z 0%Z refs)) as Hgo.
  { induction refs as [|r refs IH]; intros t Ht; cbn [foldl foldr]; [by rewrite Z.add_0_r, Ht|].
    rewrite IH by apply int64_small, int64_range. rewrite int64_add_l. f_equal. lia. }
  by rewrite Hgo.
Qed.

(** The counts of the metadata add up to the number of rows. *)
Lemma counts_rows v rowss :
  ivf_inv v rowss → foldr (λ r n, RefCount r + n)%Z 0%Z (Segments v) = Z.of_nat (length (concat rowss)).
Proof.
  intros Hinv. assert (Forall2 (λ r rows, RefCount r = Z.of_nat (length rows)) (Segments v) rowss) as HF.
  { apply Forall2_same_length_lookup. split; [apply Hinv|]. intros i r rows Hr Hrows.
    destruct (lookup_lt_is_Some_2 (segments v) i) as [o Ho].
    { rewrite (iv_segs _ _ Hinv). by eapply lookup_lt_Some. }
    apply (si_count _ _ _ (iv_seg _ _ Hinv _ _ _ _ Hr Ho Hrows)). }
  clear Hinv. induction HF as [|r rows refs rowss' Hr _ IH]; [done|]. cbn. rewrite length_app, Hr, IH. lia.
Qed.

Lemma ivf_Batch_runs addVectors addIds deleteIds v rowss :
  ivf_inv v rowss → clean_index v → Forall is_id deleteIds →
  length addIds = length addVectors → Forall (row_ok ie) (zip addIds addVectors) →
  runs (ivf_Batch e addVectors addIds deleteIds) v
    (λ _ v', ∃ rowss', ivf_inv v' rowss' ∧ concat rowss' ≡ₚ without deleteIds (concat rowss) ++ zip addIds addVectors ∧
       IndexCount v' = int64 (Z.of_nat (length (concat rowss')))) (λ _, True).
Proof.
  intros Hinv Hc Hids Hlen Hrows. unfold ivf_Batch. run. eapply runs_mono; [by apply processDel_runs| |done].
  intros [] v1 Hinv1. cbn beta in Hinv1. run. eapply runs_mono; [by apply processAdd_runs| |done].
  intros _ v2 (rowss2 & Hinv2 & Hp). run. exists rowss2. split_and!.
  - destruct Hinv2 as [? ? ? ? ? ? ?]. by split.
  - by rewrite Hp, concat_without.
  - cbn. by rewrite total_count_sum, (counts_rows _ _ Hinv2).
Qed.

(** ** Sealing *)

(** Nothing to build a FAISS index from. *)
Definition no_vectors (rows : list row) : Prop := concat (as_stored ie <$> rows.*2) = [].

Lemma seal_loop_runs rowss l : ∀ v,
  ivf_inv v rowss → clean_index v → NoDup l →
  (∀ i r, i ∈ l → Segments v !! i = Some r → Status r = StatusGrowing ∧ i ≠ CurrentSegmentId v) →
  runs (forM (λ i, _ ← wrap "seal segemnt error" (on_seg i (Seal ie));
                   wrap "seal segemnt error" (fails (meta_err e))) l) v
    (λ _ v', ivf_inv v' rowss ∧ frame v v' ∧
       ∀ i r, Segments v' !! i = Some r →
         (i ∉ l → Segments v !! i = Some r) ∧
         (i ∈ l → Status r = StatusSealed ∨ ∃ rows, rowss !! i = Some rows ∧ no_vectors rows)) (λ _, True).
Proof.
  induction l as [|i l IH]; intros v Hinv Hc Hnd Hl; cbn [forM].
  { run. split_and!; [done..|]. intros i r Hr. split; [done|]. by intros ?%not_elem_of_nil. }
  apply NoDup_cons in Hnd as [Hni Hnd]. do 3 run. eapply on_seg_runs; [done|]. intros r o rows Hr Ho Hrows Hseg.
  pose proof (iv_ids _ _ Hinv _ _ Hr) as Hid. destruct (Hl i r) as [Hg Hcur]; [by left|done|].
  eapply runs_mono; [apply Seal_runs; [exact Hseg| |done]| |done].
  { cbn. rewrite Hid. apply Hc. by eapply lookup_lt_Some. }
  intros _ s' (Hs' & Hid' & Hd' & Hst'). run. run; [|done]. intros _. cbn in Hid', Hd'.
  set (v1 := put_seg i (Id r) s' v).
  assert (ivf_inv v1 rowss) as Hinv1.
  { rewrite <-(list_insert_id rowss i rows) by done. eapply put_seg_inv; try done. congruence. }
  assert (frame v v1) as Hf1.
  { split; [done|]. intros j. unfold v1, store_of at 1. cbn. destruct (decide (j = Id r)) as [->|Hj].
    - by rewrite lookup_insert_eq, Hd'.
    - by rewrite lookup_insert_ne. }
  eapply runs_mono; [apply (IH v1); try done; [by apply (frame_clean v v1 rowss)|]| |done].
  { intros j r' Hj. cbn. rewrite list_lookup_insert_ne by (by intros ->). apply Hl. by right. }
  intros _ v2 (Hinv2 & Hf2 & Hall). split_and!; [done|by eapply frame_trans|]. intros j r2 Hr2.
  destruct (Hall j r2 Hr2) as [H1 H2]. split.
  - intros Hnj. rewrite <-H1 by (intros ?; apply Hnj; by right). cbn. rewrite list_lookup_insert_ne; [done|].
    intros ->. apply Hnj. left.
  - intros [->|Hj]%elem_of_cons; [|by apply H2]. specialize (H1 Hni). cbn in H1.
    rewrite list_lookup_insert_eq in H1 by (by eapply lookup_lt_Some). injection H1 as <-.
    destruct Hst' as [?|[_ Hnv]]; [by left|]. right. eauto.
Qed.

Lemma SealSeg_runs v rowss :
  ivf_inv v rowss → clean_index v →
  runs (SealSeg e) v
    (λ _ v', ivf_inv v' rowss ∧
       ∀ i r rows, Segments v' !! i = Some r → rowss !! i = Some rows → ¬ no_vectors rows → needs_seal e v' r = false)
    (λ _, True).
Proof.
  intros Hinv Hc. unfold SealSeg. do 2 run. cbv zeta.
  set (need := filter (λ r, needs_seal e v r = true) (Segments v)).
  assert (∀ i r, Segments v !! i = Some r → i ∈ Id <$> need ↔ needs_seal e v r = true) as Hneed.
  { intros i r Hr. rewrite list_elem_of_fmap. split.
    - intros (r' & Hi & [Hn [j Hj]%list_elem_of_lookup]%list_elem_of_filter).
      rewrite (iv_ids _ _ Hinv _ _ Hj) in Hi. subst j. congruence.
    - intros Hn. exists r. split; [by rewrite (iv_ids _ _ Hinv _ _ Hr)|]. apply list_elem_of_filter. split; [done|].
      by eapply list_elem_of_lookup_2. }
  case_decide as Hnil.
  { run. split; [done|]. intros i r rows Hr _ _. destruct (needs_seal e v r) eqn:En; [|done].
    apply (Hneed i r Hr) in En. rewrite Hnil in En. by apply not_elem_of_nil in En. }
  run. eapply runs_mono; [by apply loadSegments_runs| |done]. intros segs v1 (Hinv1 & Hf1 & Hs1 & ->).
  assert (needs_seal e v1 = needs_seal e v) as Hns by (unfold needs_seal; by destruct Hf1 as [-> _]).
  rewrite <-list_fmap_compose. rewrite (list_fmap_ext _ id) by (intros; apply Nat2Z.id). rewrite list_fmap_id.
  eapply runs_mono; [apply (seal_loop_runs rowss); try done; [by apply (frame_clean v v1 rowss)| |]| |done].
  - apply NoDup_fmap_filter. apply NoDup_alt. intros i j n. rewrite !list_lookup_fmap_Some.
    intros (r & -> & Hr) (r' & Heq & Hr'). rewrite (iv_ids _ _ Hinv _ _ Hr), (iv_ids _ _ Hinv _ _ Hr') in Heq. done.
  - intros i r Hi Hr. rewrite Hs1 in Hr. apply (Hneed i r Hr) in Hi. unfold needs_seal in Hi.
    rewrite !andb_true_iff, !bool_decide_eq_true in Hi. destruct Hi as [[Hg Hcur] _].
    rewrite (iv_ids _ _ Hinv _ _ Hr) in Hcur. by destruct Hf1 as [-> _].
  - intros _ v2 (Hinv2 & Hf2 & Hall). split; [done|]. intros i r rows Hr Hrows Hnv.
    destruct (Hall i r Hr) as [H1 H2]. destruct (decide (i ∈ Id <$> need)) as [Hi|Hi].
    + destruct (H2 Hi) as [Hst|(rows' & ? & ?)]; [|by simplify_eq]. unfold needs_seal. by rewrite Hst.
    + specialize (H1 Hi). rewrite Hs1 in H1. replace (needs_seal e v2) with (needs_seal e v).
      * destruct (needs_seal e v r) eqn:En; [|done]. by apply (Hneed i r H1) in En.
      * rewrite <-Hns. unfold needs_seal. by destruct Hf2 as [-> _].
Qed.
End system.
