(* ===== verification/IvfSearch.v ===== *)
(** The search of an ivf_pq index (pkg/core/vec_index.go, ivfpq_segment.go): the
    nearest of each segment, gathered in a heap, give the nearest of all. *)
From Stdlib Require Import Floats.SpecFloat.
From S2P Require Import Prelude Hash Strconv Base62 Shards Runs VectorStore Float32 Heap HNSWCache HNSWSegment HNSWSearch IvfSegment IvfIndex IvfRefine IvfSystem.

#[local] Opaque Encode Decode.

(** A candidate: a document id as it is shown, and a distance. *)
Abbreviation scand := (string * Z)%type.

(** [sel] are [k] nearest of [cs]. *)
Definition nearest (k : nat) (sel cs : list scand) : Prop :=
  ∃ rest, cs ≡ₚ sel ++ rest ∧ length sel = Nat.min k (length cs) ∧
          ∀ a b, a ∈ sel → b ∈ rest → f32_lt (snd b) (snd a) = false.

Definition is_number (c : scand) : Prop := f32_nan (snd c) = false.

Lemma f32_lt_key x y :
  f32_nan x = false → f32_nan y = false → f32_lt x y = (f32_key x <? f32_key y)%Z.
Proof. intros Hx Hy. unfold f32_lt. by rewrite Hx, Hy. Qed.

Lemma nearest_perm k sel sel' cs cs' :
  sel ≡ₚ sel' → cs ≡ₚ cs' → nearest k sel cs → nearest k sel' cs'.
Proof.
  intros H1 H2 (rest & Hp & Hl & Hn). exists rest. rewrite <-H1, <-H2. split_and!; [done..|].
  intros a b Ha. apply Hn. by rewrite H1.
Qed.

Lemma nearest_sub k sel cs : nearest k sel cs → sel ⊆ cs.
Proof. intros (rest & -> & _) a Ha. apply elem_of_app. by left. Qed.

(** * The nearest of several lists *)

(** One list of candidates added: what is left out of its selection is no
    nearer than the final selection. *)
Lemma nearest_left_out k sel all sel1 b a :
  Forall is_number (b :: all) → NoDup all → NoDup sel1 → nearest k sel all → sel1 ⊆ all → length sel1 = k →
  (∀ c, c ∈ sel1 → f32_lt (snd b) (snd c) = false) → a ∈ sel → f32_lt (snd b) (snd a) = false.
Proof.
  intros Hnum Hnd Hnd1 (rest & Hp & Hl & Hn) Hsub Hlen Hb Ha. apply Forall_cons in Hnum as [Hnb Hnum].
  rewrite Forall_forall in Hnum. unfold is_number in *.
  assert (∀ c, c ∈ sel ∨ c ∈ rest → f32_nan (snd c) = false) as Hno.
  { intros c Hc. apply Hnum. rewrite Hp. by apply elem_of_app. }
  destruct (decide (a ∈ sel1)) as [|Hna]; [by apply Hb|].
  assert (∃ c, c ∈ sel1 ∧ c ∈ rest) as (c & Hc1 & Hc2).
  { destruct (decide (Exists (.∈ rest) sel1)) as [Hex|Hnone]; [by apply Exists_exists in Hex|]. exfalso.
    assert (∀ c, c ∈ sel1 → c ∈ sel) as Hss.
    { intros c Hc. specialize (Hsub c Hc). rewrite Hp in Hsub. apply elem_of_app in Hsub as [?|?]; [done|].
      exfalso. apply Hnone, Exists_exists. eauto. }
    assert (sel1 ≡ₚ sel) as Heq.
    { apply submseteq_length_Permutation; [by apply NoDup_submseteq|]. lia. }
    by rewrite Heq in Hna. }
  specialize (Hb c Hc1). specialize (Hn a c Ha Hc2).
  rewrite f32_lt_key in Hb, Hn |- * by auto. lia.
Qed.

(** The nearest of the selections are the nearest of everything. *)
Lemma nearest_concat k sels css sel :
  Forall2 (nearest k) sels css → Forall is_number (concat css) → NoDup (concat css) →
  nearest k sel (concat sels) → nearest k sel (concat css).
Proof.
  intros HF Hnum Hnd Hsel.
  assert (∃ rests, concat css ≡ₚ concat sels ++ concat rests ∧
    ∀ b, b ∈ concat rests → ∃ s, s ⊆ concat sels ∧ NoDup s ∧ length s = k ∧ ∀ c, c ∈ s → f32_lt (snd b) (snd c) = false)
    as (rests & Hp & Hrest).
  { clear Hsel Hnum. induction HF as [|s cs sels css Hs HF IH]; [exists []; split; [done|by intros ? ?%not_elem_of_nil]|].
    cbn in Hnd. apply NoDup_app in Hnd as (Hnd1 & _ & Hnd2). destruct (IH Hnd2) as (rests & Hp & Hr).
    pose proof Hs as (r & Hpr & Hlen & Hn). exists (r :: rests). cbn [concat]. split.
    - rewrite Hpr, Hp, <-!app_assoc. apply Permutation_app_head. rewrite !app_assoc.
      apply Permutation_app_tail, Permutation_app_comm.
    - intros b [Hb|Hb]%elem_of_app.
      + exists s. split_and!; [intros c Hc; apply elem_of_app; by left| | |].
        * rewrite Hpr in Hnd1. by apply NoDup_app in Hnd1 as [? _].
        * apply Permutation_length in Hpr. rewrite length_app in Hpr. destruct r; [by apply not_elem_of_nil in Hb|].
          cbn in Hpr. lia.
        * intros c Hc. by apply Hn.
      + destruct (Hr b Hb) as (s' & Hs' & ?). exists s'. split; [|done]. intros c Hc. apply elem_of_app. right. by apply Hs'. }
  rewrite Hp in Hnd. apply NoDup_app in Hnd as (Hnds & _ & _). pose proof Hsel as (rest & Hps & Hlen & Hn).
  exists (rest ++ concat rests). split_and!.
  - rewrite Hp, Hps. by rewrite <-app_assoc.
  - rewrite Hlen. pose proof (Permutation_length Hp) as Hl. rewrite length_app in Hl.
    destruct (concat rests) as [|b bs] eqn:Eb; [cbn in Hl; lia|].
    destruct (Hrest b) as (s & Hs & Hnd' & Hk & _); [left|].
    apply NoDup_submseteq, submseteq_length in Hs; [|done]. lia.
  - intros a b Ha [Hb|Hb]%elem_of_app; [by apply Hn|]. destruct (Hrest b Hb) as (s & Hs & Hnd' & Hk & Hc).
    eapply (nearest_left_out k sel (concat sels) s); try done.
    rewrite Forall_forall in Hnum |- *. intros c [->|Hc']%elem_of_cons; apply Hnum; rewrite Hp; apply elem_of_app; auto.
Qed.

(** * The heap *)

Definition sr_key (r : vecSearchRes) : Z := f32_key (sr_dis r).
Definition sr_number (r : vecSearchRes) : Prop := f32_nan (sr_dis r) = false.
Definition sr_pair (r : vecSearchRes) : scand := (sr_id r, sr_dis r).

Lemma sr_less_key a b : sr_number a → sr_number b → sr_less a b = (sr_key a <? sr_key b)%Z.
Proof. apply f32_lt_key. Qed.

Lemma push_all docs : ∀ h,
  Forall sr_number (docs ++ h) → ordered sr_key (length h) h →
  let h' := foldl (λ h d, Push sr_less d h) h docs in
  ordered sr_key (length h') h' ∧ h' ≡ₚ docs ++ h.
Proof.
  induction docs as [|d docs IH]; intros h Hn Ho; cbn [foldl]; [done|]. apply Forall_cons in Hn as [Hd Hn].
  apply Forall_app in Hn as Hn'. destruct Hn' as [_ Hh].
  destruct (Push_ordered sr_less sr_key sr_number sr_less_key d h Hh Hd Ho) as [Ho' Hp'].
  destruct (IH (Push sr_less d h)) as [Ho2 Hp2]; [|done|].
  - rewrite Hp', <-Permutation_middle. by constructor.
  - split; [done|]. rewrite Hp2, Hp'. by rewrite <-Permutation_middle.
Qed.

Definition add_result (m : gmap string Z) (r : vecSearchRes) : gmap string Z := <[sr_id r := sr_dis r]> m.

Lemma pop_loop_least n : ∀ h m,
  Forall sr_number h → ordered sr_key (length h) h → n ≤ length h →
  ∃ sel h', pop_loop n h m = Ok (foldl add_result m sel) ∧ h ≡ₚ sel ++ h' ∧ length sel = n ∧
            ∀ a b, a ∈ sel → b ∈ h' → (sr_key a ≤ sr_key b)%Z.
Proof.
  induction n as [|n IH]; intros h m Hn Ho Hl; cbn [pop_loop].
  { exists [], h. split_and!; [done..|]. by intros ? ? ?%not_elem_of_nil. }
  destruct (Pop_least sr_less sr_key sr_number sr_less_key h Hn Ho) as (x & h1 & Hpop & Hp & Ho1 & Hmin); [intros ->; cbn in Hl; lia|].
  rewrite Hpop. cbn [mbind res_bind]. rewrite Hp in Hn. apply Forall_cons in Hn as [Hx Hn].
  pose proof (Permutation_length Hp) as Hlen. cbn in Hlen.
  destruct (IH h1 (add_result m x)) as (sel & h' & Hr & Hp1 & Hs & Hle); [done|done|lia|].
  exists (x :: sel), h'. split_and!; [exact Hr|by rewrite Hp, Hp1|cbn; lia|].
  intros a b [->|Ha]%elem_of_cons Hb; [|by apply Hle]. apply Hmin. rewrite Hp, Hp1. right. apply elem_of_app. by right.
Qed.

Lemma results_list sel : ∀ m,
  NoDup (sr_id <$> sel) → (∀ r, r ∈ sel → m !! sr_id r = None) →
  map_to_list (foldl add_result m sel) ≡ₚ (sr_pair <$> sel) ++ map_to_list m.
Proof.
  induction sel as [|r sel IH]; intros m Hnd Hm; cbn [foldl]; [done|].
  rewrite fmap_cons in Hnd. apply NoDup_cons in Hnd as [Hr Hnd]. rewrite IH; [|done|].
  - unfold add_result. rewrite map_to_list_insert by (apply Hm; left). rewrite fmap_cons. cbn [app].
    by rewrite <-Permutation_middle.
  - intros r' Hr'. unfold add_result. rewrite lookup_insert_ne; [apply Hm; by right|].
    intros Heq. apply Hr. rewrite Heq. by apply list_elem_of_fmap_2.
Qed.

(** What the heap gives: the [k] nearest of what was pushed. *)
Lemma heap_nearest k docs pushed :
  pushed ≡ₚ docs → Forall sr_number docs → NoDup (sr_id <$> docs) →
  let heap := foldl (λ h d, Push sr_less d h) [] pushed in
  ∃ m, pop_loop (Nat.min k (length heap)) heap ∅ = Ok m ∧ nearest k (map_to_list m) (sr_pair <$> docs).
Proof.
  intros Hp Hn Hnd. destruct (push_all pushed []) as [Ho Hh].
  { rewrite app_nil_r. by rewrite Hp. }
  { intros i Hi. cbn in Hi. lia. }
  cbv zeta. set (heap := foldl _ _ _) in *. rewrite app_nil_r, Hp in Hh.
  destruct (pop_loop_least (Nat.min k (length heap)) heap ∅) as (sel & h' & -> & Hsp & Hl & Hle); [by rewrite Hh|done|lia|].
  eexists. split; [done|]. rewrite Hh in Hsp.
  assert (map_to_list (foldl add_result ∅ sel) ≡ₚ sr_pair <$> sel) as Hm.
  { rewrite results_list; [by rewrite map_to_list_empty, app_nil_r| |done].
    rewrite Hsp, fmap_app in Hnd. by apply NoDup_app in Hnd as [? _]. }
  eapply (nearest_perm k (sr_pair <$> sel) _ (sr_pair <$> docs)); [by symmetry|done|].
  exists (sr_pair <$> h'). split_and!.
  - rewrite Hsp. by rewrite fmap_app.
  - rewrite !length_fmap, Hl. by rewrite Hh.
  - intros a b (ra & -> & Ha)%list_elem_of_fmap (rb & -> & Hb)%list_elem_of_fmap. cbn.
    rewrite Forall_forall in Hn. specialize (Hle ra rb Ha Hb). unfold sr_key in Hle.
    rewrite f32_lt_key; [lia|apply Hn; rewrite Hsp; apply elem_of_app; by right|apply Hn; rewrite Hsp; apply elem_of_app; by left].
Qed.

(** * Searching the segments *)

Section search.
Context {W Ix File FIx FFile : Type} {bluge : Bluge W sdoc} {breader : BlugeReader W} {vdisk : VecDisk W}
        {us : Usearch Ix File} {fs : Faiss FIx FFile} {f16 : Float16}.
Context (e : venv).
Local Abbreviation ie := (seg_env e).
Local Abbreviation IVFPQSegment := (@IVFPQSegment W FIx FFile).
Local Abbreviation IvfPqIndex := (@IvfPqIndex W FIx FFile).
Local Abbreviation seg_inv := (seg_inv (W := W) (FIx := FIx) (FFile := FFile) ie).
Local Abbreviation ivf_inv := (ivf_inv (W := W) (FIx := FIx) (FFile := FFile) e).

(** The candidate a row makes for a query. *)
Definition cand_of (q : vector) (r : row) : scand := (Encode (fst r), fvec_L2 (as_stored ie (snd r)) q).

Lemma length_as_stored v : length (as_stored ie v) = length v.
Proof. unfold as_stored. destruct (UseFloat16 ie); by rewrite ?length_fmap. Qed.

Lemma flat_results_spec ids sel : ∀ ds rest n m,
  (∀ i, i ∈ sel → i < length ids) → length ds = length sel →
  flat_results ids (zip ((Z.of_nat <$> sel) ++ replicate n (-1)%Z) (ds ++ rest)) m =
  Ok (foldl add_result m (zip_with (λ i d, mkRes (Encode (nth i ids 0%Z)) d) sel ds)).
Proof.
  induction sel as [|i sel IH]; intros ds rest n m Hlt Hl.
  - destruct ds; [|done]. cbn [fmap list_fmap app zip_with foldl]. destruct n, rest; done.
  - destruct ds as [|d ds]; [done|]. cbn [fmap list_fmap app zip zip_with flat_results foldl].
    rewrite !decide_False by lia. rewrite Nat2Z.id.
    assert (load_at i ids = Ok (nth i ids 0%Z)) as ->.
    { unfold load_at. destruct (lookup_lt_is_Some_2 ids i) as [x Hx]; [apply Hlt; left|]. rewrite Hx. f_equal. symmetry. by apply nth_lookup_Some. }
    cbn [mbind res_bind]. apply IH; [intros j Hj; apply Hlt; by right|]. by injection Hl.
Qed.

Lemma nth_seq {A} (d : A) l : (λ i, nth i l d) <$> seq 0 (length l) = l.
Proof.
  induction l as [|x l IH]; [done|]. cbn [length seq]. rewrite fmap_cons. cbn [nth]. f_equal.
  rewrite <-fmap_S_seq, <-list_fmap_compose. exact IH.
Qed.

(** The exhaustive search of some rows gives their nearest. *)
Lemma flatSearch_nearest q k rs m :
  Forall (row_ok ie) rs → NoDup rs.*1 → length q = Dims ie →
  flatSearch rs.*1 (concat (as_stored ie <$> rs.*2)) q k (Dims ie) = Ok m →
  nearest k (map_to_list m) (cand_of q <$> rs).
Proof.
  intros Hok Hnd Hq. unfold flatSearch, Knn. case_decide as Hk; [done|]. cbn [mbind res_bind].
  set (vs := as_stored ie <$> rs.*2).
  assert (length rs.*1 = length vs) as Hlen by (unfold vs; by rewrite !length_fmap).
  destruct (knn_spec vs q (Dims ie) k) as (sel & rest & Hknn & Hrest & Hl & Hnds & Hlt & Hnear); [|done|lia|].
  { apply Forall_fmap, Forall_fmap. eapply Forall_impl; [exact Hok|]. intros r (_ & Hr & _). cbn. by rewrite length_as_stored. }
  rewrite Hlen, Hknn. rewrite flat_results_spec; [|by rewrite Hlen|by rewrite length_fmap]. intros [= <-].
  set (cand := λ i, cand_of q (nth i rs (0%Z, []))).
  assert (∀ i, i < length vs → nth i rs.*1 0%Z = fst (nth i rs (0%Z, [])) ∧ nth i vs [] = as_stored ie (snd (nth i rs (0%Z, []))))
    as Hnth.
  { intros i Hi. unfold vs in *. rewrite !length_fmap in Hi. destruct (lookup_lt_is_Some_2 rs i Hi) as [r Hr].
    rewrite (nth_lookup_Some _ _ _ _ Hr). split; apply nth_lookup_Some; by rewrite !list_lookup_fmap, Hr. }
  assert (zip_with (λ i d, mkRes (Encode (nth i rs.*1 0%Z)) d) sel ((λ i, fvec_L2 (nth i vs []) q) <$> sel) =
          (λ i, mkRes (fst (cand i)) (snd (cand i))) <$> sel) as ->.
  { clear -Hnth Hlt. induction sel as [|i sel IH]; [done|]. rewrite !fmap_cons. cbn [zip_with].
    destruct (Hnth i) as [H1 H2]; [apply Hlt; left|]. rewrite H1, H2. f_equal. apply IH. intros j Hj. apply Hlt. by right. }
  assert (∀ i j, i < length vs → j < length vs → fst (cand i) = fst (cand j) → i = j) as Hinj.
  { intros i j Hi Hj Heq. unfold vs in Hi, Hj. rewrite !length_fmap in Hi, Hj.
    destruct (lookup_lt_is_Some_2 rs i Hi) as [r Hr], (lookup_lt_is_Some_2 rs j Hj) as [r' Hr'].
    unfold cand in Heq. rewrite (nth_lookup_Some _ _ _ _ Hr), (nth_lookup_Some _ _ _ _ Hr') in Heq.
    rewrite Forall_forall in Hok. apply Encode_inj in Heq; [|by apply Hok, list_elem_of_lookup_2 with i|by apply Hok, list_elem_of_lookup_2 with j].
    eapply (NoDup_lookup rs.*1 i j (fst r)); [done|by rewrite list_lookup_fmap, Hr|rewrite list_lookup_fmap, Hr'; cbn; congruence]. }
  eapply (nearest_perm k (cand <$> sel) _ (cand <$> seq 0 (length vs))); [|..].
  - symmetry. rewrite results_list; [rewrite map_to_list_empty, app_nil_r, <-list_fmap_compose| |done].
    + rewrite (list_fmap_ext _ cand); [done|]. intros _ i _. unfold sr_pair. cbn. done.
    + rewrite <-list_fmap_compose. apply NoDup_fmap_2_strong; [|done]. intros i j Hi Hj Heq. apply Hinj; auto.
  - replace (length vs) with (length rs) by (unfold vs; by rewrite !length_fmap). unfold cand.
    transitivity (cand_of q <$> ((λ i, nth i rs (0%Z, [])) <$> seq 0 (length rs))); [by rewrite <-list_fmap_compose|].
    by rewrite nth_seq.
  - exists (cand <$> filter (.∉ sel) (seq 0 (length vs))). split_and!.
    + rewrite <-fmap_app. by rewrite <-seq_split.
    + rewrite !length_fmap, length_seq. done.
    + intros a b (i & -> & Hi)%list_elem_of_fmap (j & -> & [Hj Hj']%list_elem_of_filter)%list_elem_of_fmap.
      apply elem_of_seq in Hj' as [_ Hj']. specialize (Hnear i j Hi ltac:(lia) Hj). unfold cand, cand_of. cbn [snd].
      destruct (Hnth i) as [_ <-]; [by apply Hlt|]. destruct (Hnth j) as [_ <-]; [lia|]. done.
Qed.

Lemma nearest_nil k : nearest k [] [].
Proof. exists []. split_and!; [done|by rewrite Nat.min_0_r|by intros ? ? ?%not_elem_of_nil]. Qed.

Lemma searchFlat_runs q k (s : IVFPQSegment) rows :
  seg_inv s rows → clean (s_disk s) → Status (s_ref s) = StatusGrowing →
  NoDup rows.*1 → length q = Dims ie → Dims ie ≠ 0 →
  runs (searchFlat ie q k) s
    (λ m s', seg_inv s' rows ∧ s_ref s' = s_ref s ∧ s_disk s' = s_disk s ∧ nearest k (map_to_list m) (cand_of q <$> rows))
    (λ _, True).
Proof.
  intros Hinv Hc Hg Hnd Hq Hd. unfold searchFlat. run. eapply runs_mono; [by apply getVecCaches_runs| |done].
  intros [ids xb] s1 (Hinv1 & Href & Hdisk & (rs & Hp & Hi & Hx)). cbn [fst snd] in *. rewrite Hi, Hx. clear Hi Hx.
  assert (Forall (row_ok ie) rs) as Hok by (rewrite Hp; apply Hinv1).
  assert (concat (as_stored ie <$> rs.*2) = [] → rs = []) as Hnil.
  { destruct rs as [|r rs]; [done|]. cbn. intros [Hv _]%app_eq_nil. apply Forall_cons in Hok as [(_ & Hr & _) _].
    apply (f_equal length) in Hv. rewrite length_as_stored in Hv. cbn in Hv. lia. }
  assert (rs = [] → nearest k (map_to_list (∅ : gmap string Z)) (cand_of q <$> rows)) as Hempty.
  { intros ->. apply Permutation_nil in Hp. subst rows. rewrite map_to_list_empty. apply nearest_nil. }
  assert (runs (lift (flatSearch rs.*1 (concat (as_stored ie <$> rs.*2)) q k (Dims ie))) s1
    (λ m s', seg_inv s' rows ∧ s_ref s' = s_ref s ∧ s_disk s' = s_disk s ∧ nearest k (map_to_list m) (cand_of q <$> rows))
    (λ _, True)) as Hgo.
  { run; [|done]. intros m Hm. split_and!; [done..|]. eapply nearest_perm; [done| |eapply flatSearch_nearest; try done].
    - by rewrite Hp.
    - by rewrite Hp. }
  destruct (concat (as_stored ie <$> rs.*2)) as [|x xs]; [cbv iota; run; split_and!; by auto|].
  destruct rs as [|r rs]; [|exact Hgo]. cbn. split_and!; by auto.
Qed.

Definition all_growing (v : IvfPqIndex) : Prop := ∀ i r, Segments v !! i = Some r → Status r = StatusGrowing.

(** The segments one after the other. *)
Lemma search_all_runs q k nprobe rowss segs : ∀ v,
  ivf_inv v rowss → clean_index v → all_growing v → (∀ rows, rows ∈ rowss → NoDup rows.*1) →
  length q = Dims ie → Dims ie ≠ 0 →
  runs (search_all e q k nprobe segs) v
    (λ de v', snd de = None → ivf_inv v' rowss ∧ (∃ sels, sr_pair <$> fst de ≡ₚ concat sels ∧
       Forall2 (λ i sel, ∃ rows, rowss !! i = Some rows ∧ nearest k sel (cand_of q <$> rows)) segs sels))
    (λ _, True).
Proof.
  induction segs as [|i segs IH]; intros v Hinv Hc Hg Hnd Hq Hd.
  { intros _. split; [done|]. exists []. by split. }
  unfold runs. cbn [search_all].
  assert (runs (on_seg i (seg_Search ie q k nprobe)) v
    (λ m v', ivf_inv v' rowss ∧ clean_index v' ∧ all_growing v' ∧
       ∃ rows, rowss !! i = Some rows ∧ nearest k (map_to_list m) (cand_of q <$> rows))
    (λ _, True)) as Hseg.
  { eapply on_seg_runs; [done|]. intros r o rows Hr Ho Hrows Hseg. pose proof (iv_ids _ _ _ Hinv _ _ Hr) as Hid.
    pose proof (Hg i r Hr) as Hgr.
    unfold seg_Search. run. run. rewrite decide_True by done.
    eapply runs_mono; [apply searchFlat_runs; [exact Hseg| |done| |done|done]| |done].
    - cbn. rewrite Hid. apply Hc. by eapply lookup_lt_Some.
    - apply Hnd. by eapply list_elem_of_lookup_2.
    - intros m s' (Hs' & Href & Hdisk & Hm). cbn in Href, Hdisk.
      assert (ivf_inv (put_seg i (Id r) s' v) rowss) as Hinv'.
      { rewrite <-(list_insert_id rowss i rows) by done. eapply put_seg_inv; try done; by rewrite Href. }
      split_and!; [done| | |eauto].
      + apply (frame_clean e v _ rowss); try done. split; [done|]. intros j. unfold store_of at 1. cbn.
        destruct (decide (j = Id r)) as [->|Hj]; [by rewrite lookup_insert_eq, Hdisk|by rewrite lookup_insert_ne].
      + intros j r' [(-> & <- & _)|[_ Hj]]%list_lookup_insert_Some; [by rewrite Href|by eapply Hg]. }
  unfold runs in Hseg. destruct (on_seg i _ v) as [[m|x|p] v1]; [| |done].
  - destruct Hseg as (Hinv1 & Hc1 & Hg1 & rows & Hrows & Hm). specialize (IH v1 Hinv1 Hc1 Hg1 Hnd Hq Hd).
    unfold runs in IH. unfold mbind, M_bind. destruct (search_all e q k nprobe segs v1) as [[[docs err]|y|p] v2]; [|done..].
    cbn [mret M_ret fst snd]. intros Herr. destruct (IH Herr) as [Hinv2 (sels & Hp & HF)]. split; [done|].
    exists (map_to_list m :: sels). cbn [concat]. split; [|by constructor; eauto].
    rewrite fmap_app, Hp. apply Permutation_app_tail. rewrite <-list_fmap_compose.
    rewrite (list_fmap_ext _ id) by (by intros ? []). rewrite list_fmap_id. apply range_perm.
  - unfold mbind, M_bind. destruct (search_all e q k nprobe segs v1) as [[[docs err]|y|p] v2]; [|done..]. by intros [=].
Qed.

Lemma NoDup_rows_in (rowss : list (list row)) rows : NoDup (concat rowss).*1 → rows ∈ rowss → NoDup rows.*1.
Proof.
  intros Hnd Hin. induction rowss as [|r rowss IH]; [by apply not_elem_of_nil in Hin|]. cbn in Hnd.
  rewrite fmap_app in Hnd. apply NoDup_app in Hnd as (H1 & _ & H2). apply elem_of_cons in Hin as [->|Hin]; auto.
Qed.

Lemma ivf_rows_ok v rowss : ivf_inv v rowss → Forall (row_ok ie) (concat rowss).
Proof.
  intros Hinv. apply Forall_forall. intros r Hr. rewrite <-(list_fmap_id rowss) in Hr.
  apply elem_of_concat_fmap in Hr as (rows & [i Hi]%list_elem_of_lookup & Hr). pose proof (lookup_lt_Some _ _ _ Hi) as Hlt.
  destruct (lookup_lt_is_Some_2 (Segments v) i) as [rf Hrf]; [by rewrite (iv_refs _ _ _ Hinv)|].
  destruct (lookup_lt_is_Some_2 (segments v) i) as [o Ho]; [by rewrite (iv_segs _ _ _ Hinv)|].
  pose proof (si_rows _ _ _ (iv_seg _ _ _ Hinv _ _ _ _ Hrf Ho Hi)) as Hok. rewrite Forall_forall in Hok. by apply Hok.
Qed.

Lemma NoDup_cands_ids q rows : NoDup rows.*1 → Forall (row_ok ie) rows → NoDup (cand_of q <$> rows).*1.
Proof.
  intros Hnd Hok. rewrite <-list_fmap_compose. rewrite (list_fmap_ext _ (Encode ∘ fst)) by done.
  rewrite (list_fmap_compose fst Encode). apply NoDup_fmap_2_strong; [|done].
  rewrite Forall_forall in Hok. intros x y (r & -> & Hr)%list_elem_of_fmap (r' & -> & Hr')%list_elem_of_fmap.
  apply Encode_inj; by apply Hok.
Qed.

Lemma nearest_concat_sub k sels css : Forall2 (nearest k) sels css → ∃ rest, concat css ≡ₚ concat sels ++ rest.
Proof.
  induction 1 as [|s cs sels css (r & Hp & _) _ [rest IH]]; [by exists []|]. exists (r ++ rest). cbn [concat].
  rewrite Hp, IH, <-!app_assoc. apply Permutation_app_head. rewrite !app_assoc. apply Permutation_app_tail, Permutation_app_comm.
Qed.

(** The search of all segments, when all of them grow. *)
Lemma ivf_Search_runs q k nprobe v rowss :
  ivf_inv v rowss → clean_index v → all_growing v → NoDup (concat rowss).*1 →
  length q = Dims ie → Dims ie ≠ 0 → Forall is_number (cand_of q <$> concat rowss) →
  runs (ivf_Search e q k nprobe) v
    (λ m v', ivf_inv v' rowss ∧ nearest k (map_to_list m) (cand_of q <$> concat rowss)) (λ _, True).
Proof.
  intros Hinv Hc Hg Hnd Hq Hd Hnum. unfold ivf_Search. run. eapply runs_mono; [by apply copySegments_runs| |done].
  intros segs v1 (Hinv1 & Hf1 & Hs1 & ->). unfold searchSegments. run.
  eapply runs_mono; [apply (search_all_runs q k nprobe rowss); try done| |done].
  - by apply (frame_clean e v v1 rowss).
  - intros i r. rewrite Hs1. apply Hg.
  - intros rows Hin. eapply NoDup_rows_in; done.
  - intros [docs [x|]] v2 Hpost; cbn [fst snd] in Hpost; [done|]. destruct (Hpost eq_refl) as [Hinv2 (sels & Hp & HF)].
    set (css := (λ rows : list row, cand_of q <$> rows) <$> rowss).
    assert (concat css = cand_of q <$> concat rowss) as Hcss.
    { unfold css. clear. induction rowss as [|rows rowss IH]; [done|]. cbn. by rewrite IH, fmap_app. }
    assert (Forall2 (nearest k) sels css) as HF2.
    { unfold css. clear -HF. apply Forall2_same_length_lookup in HF as [Hl HF]. rewrite length_seq in Hl.
      apply Forall2_same_length_lookup. split; [by rewrite length_fmap|]. intros i sel cs Hsel Hcs.
      apply list_lookup_fmap_Some in Hcs as (rows & -> & Hrows). apply lookup_lt_Some in Hrows as Hlt.
      destruct (HF i i sel) as (rows' & Hr' & Hn); [by rewrite lookup_seq_lt|done|]. by simplify_eq. }
    assert (NoDup (concat css).*1) as Hndc by (rewrite Hcss; by apply NoDup_cands_ids, (ivf_rows_ok v)).
    assert (NoDup (sr_id <$> docs) ∧ Forall sr_number docs) as [Hnd2 Hn2].
    { destruct (nearest_concat_sub k sels css HF2) as [rest Hrest].
      assert (NoDup (sr_pair <$> docs).*1) as Hnd2.
      { rewrite Hp. rewrite Hrest, fmap_app in Hndc. by apply NoDup_app in Hndc as [? _]. }
      rewrite <-list_fmap_compose in Hnd2. split; [exact Hnd2|].
      apply Forall_forall. intros r Hr. rewrite Forall_forall in Hnum.
      assert (sr_pair r ∈ cand_of q <$> concat rowss) as Hin.
      { rewrite <-Hcss, Hrest, <-Hp. apply elem_of_app. left. by apply list_elem_of_fmap_2. }
      exact (Hnum _ Hin). }
    destruct (heap_nearest k docs (shuf (arrival e) docs)) as (m & Hm & Hnear); [apply shuf_perm|done..|].
    cbv zeta in Hm. rewrite Hm. run; [|done]. intros ? [= <-]. split; [done|]. rewrite <-Hcss.
    eapply nearest_concat; [done|by rewrite Hcss|by eapply NoDup_fmap_1|]. eapply nearest_perm; [done|exact Hp|done].
Qed.
End search.
