(* ===== verification/IvfTheorems.v ===== *)
(** The flat and ivf_pq indexes: what they hold after any sequence of
    operations, what a search returns, what sealing achieves, and where opening
    and partial searches fail; with stores in memory as an instance. *)
From Stdlib Require Import Floats.SpecFloat.
From S2P Require Import Prelude Hash Strconv Base62 Shards Runs VectorStore Float32 Heap HNSWCache HNSWSegment HNSWSearch HNSWTheorems IvfSegment IvfIndex IvfRefine IvfSystem IvfSearch.

#[local] Opaque Encode Decode.

Section theorems.
Context {W Ix File FIx FFile : Type} {bluge : Bluge W sdoc} {breader : BlugeReader W} {vdisk : VecDisk W}
        {us : Usearch Ix File} {fs : Faiss FIx FFile} {f16 : Float16}.
Local Abbreviation IvfPqIndex := (@IvfPqIndex W FIx FFile).

(** * Sequences of operations *)

(** The metadata of a new ivf_pq index: one growing segment. *)
Definition new_meta : VecIndex := mkVecIndex [mkRef 0 StatusGrowing 0] 0 0.

Definition new_ivf : IvfPqIndex := mkIvf [mkRef 0 StatusGrowing 0] 0 0 [None] ∅ ∅.

(** The metadata an index saves. *)
Definition meta_of (v : IvfPqIndex) : VecIndex := mkVecIndex (Segments v) (CurrentSegmentId v) (IndexCount v).

(** The index after some batches, with sealings and reopenings in between; the
    stores can be read whenever a batch or a sealing starts. *)
Inductive ivf_reaches (ie : ienv) : list segBatch → IvfPqIndex → Prop :=
  | R_new : ivf_reaches ie [] new_ivf
  | R_batch e bs b v v' :
      seg_env e = ie → ivf_reaches ie bs v → clean_index v → batch_ok ie b →
      ivf_Batch e (b_addVectors b) (b_addIds b) (b_deleteIds b) v = (Ok tt, v') →
      ivf_reaches ie (bs ++ [b]) v'
  | R_seal e bs v v' :
      seg_env e = ie → ivf_reaches ie bs v → clean_index v → SealSeg e v = (Ok tt, v') → ivf_reaches ie bs v'
  | R_reopen e bs v v' :
      seg_env e = ie → ivf_reaches ie bs v → checkStoredSegments e (meta_of v) = Ok (meta_of v) →
      MakeIvfPqIndex e (meta_of v) (stores v) (files v) = Ok v' → ivf_reaches ie bs v'.

(** The rows some batches leave. *)
Definition rows_after (bs : list segBatch) : list row := foldl (λ rows b, apply_batch b rows) [] bs.

Lemma new_inv e : ivf_inv e new_ivf [[]].
Proof.
  split; cbn; try done.
  - by intros [|i] r [= <-].
  - by intros r [= <-].
  - intros [|i] r o rows [= <-] [= <-] [= <-]. split; cbn; try done; [|by left]. apply holds_new.
  - intros i _. apply holds_new.
Qed.

Lemma ivf_inv_env e e' (v : IvfPqIndex) rowss : seg_env e = seg_env e' → ivf_inv e v rowss → ivf_inv e' v rowss.
Proof. intros Heq [? ? ? ? ? ? ?]. split; rewrite <-?Heq; done. Qed.

(** An index that is opened again holds what it held. *)
Lemma reopen_inv e (v v' : IvfPqIndex) rowss :
  checkStoredSegments e (meta_of v) = Ok (meta_of v) →
  MakeIvfPqIndex e (meta_of v) (stores v) (files v) = Ok v' → ivf_inv e v rowss → ivf_inv e v' rowss.
Proof.
  intros Hck Hm [Hl1 Hl2 Hc Hids Hg Hseg Hfr]. unfold MakeIvfPqIndex in Hm. rewrite Hck in Hm. cbn in Hm. injection Hm as <-.
  split; cbn; rewrite ?length_replicate; try done.
  intros i r o rows Hr Ho Hrows. apply lookup_replicate in Ho as [-> _].
  destruct (lookup_lt_is_Some_2 (segments v) i) as [o' Ho']; [rewrite Hl2; by eapply lookup_lt_Some|].
  destruct (Hseg i r o' rows Hr Ho' Hrows) as [H1 H2 H3 H4 H5]. split; cbn in *; try done.
  destruct H5 as [?|(? & ? & ? & ?)]; [by left|right]. split_and!; done.
Qed.

Lemma rows_after_snoc bs b : rows_after (bs ++ [b]) = apply_batch b (rows_after bs).
Proof. unfold rows_after. by rewrite foldl_app. Qed.

Lemma reaches_rows e bs (v : IvfPqIndex) :
  ivf_reaches (seg_env e) bs v → ∃ rowss, ivf_inv e v rowss ∧ concat rowss ≡ₚ rows_after bs.
Proof.
  remember (seg_env e) as ie eqn:Hie. induction 1 as
    [|e' bs b v v' He _ (rowss & Hinv & Hp) Hc [Hb1 Hb2 Hb3] HB|e' bs v v' He _ (rowss & Hinv & Hp) Hc HS
     |e' bs v v' He _ (rowss & Hinv & Hp) Hck Hm].
  - exists [[]]. split; [apply new_inv|done].
  - apply (ivf_inv_env e e') in Hinv; [|congruence]. subst ie.
    pose proof (runs_inv _ _ _ _ _ _ (ivf_Batch_runs e' _ _ _ v rowss Hinv Hc Hb3 Hb1 ltac:(by rewrite He)) HB)
      as (rowss' & Hinv' & Hp' & _).
    exists rowss'. split; [by apply (ivf_inv_env e' e)|]. rewrite rows_after_snoc. unfold apply_batch. by rewrite Hp', Hp.
  - apply (ivf_inv_env e e') in Hinv; [|congruence].
    pose proof (runs_inv _ _ _ _ _ _ (SealSeg_runs e' v rowss Hinv Hc) HS) as [Hinv' _].
    exists rowss. split; [|done]. apply (ivf_inv_env e' e); [congruence|done].
  - exists rowss. split; [|done]. apply (ivf_inv_env e' e); [congruence|]. eapply reopen_inv; [done..|].
    apply (ivf_inv_env e e'); [congruence|done].
Qed.

(** C4: After any sequence of successful batches, with sealings and
    reopenings in between, the segments of an ivf_pq index hold together exactly
    the rows the batches left (deleted ids removed, then the vectors added), each
    in the segment at the position its metadata names, with the right counts;
    only the last segment is current, and it is growing. *)
Theorem ivf_refines_rows e bs (v : IvfPqIndex) :
  ivf_reaches (seg_env e) bs v →
  ∃ rowss, concat rowss ≡ₚ rows_after bs ∧
    length (segments v) = length rowss ∧ S (CurrentSegmentId v) = length rowss ∧
    (∀ r, Segments v !! CurrentSegmentId v = Some r → Status r = StatusGrowing) ∧
    Forall2 (λ r rows, holds (seg_env e) (store_of v (Id r)) rows ∧ RefCount r = Z.of_nat (length rows))
            (Segments v) rowss ∧
    Id <$> Segments v = seq 0 (length rowss).
Proof.
  intros Hr. destruct (reaches_rows e bs v Hr) as (rowss & Hinv & Hp). exists rowss.
  split_and!; [done|apply Hinv|apply Hinv|apply Hinv| |].
  - apply Forall2_same_length_lookup. split; [apply Hinv|]. intros i r rows Hi Hrows.
    destruct (lookup_lt_is_Some_2 (segments v) i) as [o Ho]; [rewrite (iv_segs _ _ _ Hinv); by eapply lookup_lt_Some|].
    destruct (iv_seg _ _ _ Hinv i r o rows Hi Ho Hrows) as [Hh _ Hc _ _]. done.
  - rewrite <-(iv_refs _ _ _ Hinv). apply list_eq. intros i. rewrite list_lookup_fmap.
    destruct (Segments v !! i) as [r|] eqn:Hi; cbn.
    + rewrite lookup_seq_lt by (by eapply lookup_lt_Some). by rewrite (iv_ids _ _ _ Hinv _ _ Hi).
    + symmetry. apply lookup_ge_None_2. rewrite length_seq. by apply lookup_ge_None_1.
Qed.

(** After a successful batch the count in the metadata of the index is
    the number of vectors it holds, as long as that is an int64. *)
Theorem ivf_batch_count e bs b (v v' : IvfPqIndex) :
  ivf_reaches (seg_env e) bs v → clean_index v → batch_ok (seg_env e) b →
  ivf_Batch e (b_addVectors b) (b_addIds b) (b_deleteIds b) v = (Ok tt, v') →
  (Z.of_nat (length (rows_after (bs ++ [b]))) < 2 ^ 63)%Z →
  IndexCount v' = Z.of_nat (length (rows_after (bs ++ [b]))).
Proof.
  intros Hr Hc Hb HB Hlt. destruct (reaches_rows e bs v Hr) as (rowss & Hinv & Hp). pose proof Hb as [Hb1 Hb2 Hb3].
  pose proof (runs_inv _ _ _ _ _ _ (ivf_Batch_runs e _ _ _ v rowss Hinv Hc Hb3 Hb1 Hb2) HB) as (rowss' & Hinv' & Hp' & Hn).
  assert (length (concat rowss') = length (rows_after (bs ++ [b]))) as Hlen.
  { apply Permutation_length. rewrite rows_after_snoc. unfold apply_batch. by rewrite Hp', Hp. }
  rewrite Hn, Hlen. apply int64_small. lia.
Qed.

(** C7: A search of an index whose segments are all growing returns the [k]
    nearest of all its vectors, with the distances FAISS computes: nothing that
    is left out is nearer than anything that is returned. *)
Theorem ivf_search_nearest e bs (v v' : IvfPqIndex) q k nprobe m :
  ivf_reaches (seg_env e) bs v → clean_index v → all_growing v → NoDup (rows_after bs).*1 →
  length q = Dims (seg_env e) → Dims (seg_env e) ≠ 0 →
  Forall is_number (cand_of e q <$> rows_after bs) →
  ivf_Search e q k nprobe v = (Ok m, v') →
  nearest k (map_to_list m) (cand_of e q <$> rows_after bs).
Proof.
  intros Hr Hc Hg Hnd Hq Hd Hnum HS. destruct (reaches_rows e bs v Hr) as (rowss & Hinv & Hp).
  rewrite <-Hp in Hnd, Hnum.
  pose proof (runs_inv _ _ _ _ _ _ (ivf_Search_runs e q k nprobe v rowss Hinv Hc Hg Hnd Hq Hd Hnum) HS) as [_ Hn].
  eapply nearest_perm; [done| |exact Hn]. by rewrite Hp.
Qed.

(** A successful sealing leaves no full growing segment but the current
    one. *)
Theorem seal_completes e bs (v v' : IvfPqIndex) :
  ivf_reaches (seg_env e) bs v → clean_index v → (0 < IvfPqThreshold (seg_env e))%Z → Dims (seg_env e) ≠ 0 →
  SealSeg e v = (Ok tt, v') →
  Forall (λ r, Status r = StatusGrowing → Id r ≠ CurrentSegmentId v' → (RefCount r < IvfPqThreshold (seg_env e))%Z)
         (Segments v').
Proof.
  intros Hr Hc Ht Hd HS. destruct (reaches_rows e bs v Hr) as (rowss & Hinv & Hp).
  pose proof (runs_inv _ _ _ _ _ _ (SealSeg_runs e v rowss Hinv Hc) HS) as [Hinv' Hn].
  apply Forall_lookup. intros i r Hi Hg Hcur.
  destruct (lookup_lt_is_Some_2 rowss i) as [rows Hrows]; [rewrite <-(iv_refs _ _ _ Hinv'); by eapply lookup_lt_Some|].
  destruct (lookup_lt_is_Some_2 (segments v') i) as [o Ho]; [rewrite (iv_segs _ _ _ Hinv'); by eapply lookup_lt_Some|].
  destruct (iv_seg _ _ _ Hinv' i r o rows Hi Ho Hrows) as [_ Hok Hcnt _ _]. cbn in Hcnt.
  destruct rows as [|[x vec] rows]; [cbn in Hcnt; lia|]. specialize (Hn i r _ Hi Hrows).
  apply Z.nle_gt. intros Hle. assert (needs_seal e v' r = true) as Hns.
  { unfold needs_seal. rewrite !bool_decide_true by done. cbn. by apply Z.leb_le. }
  rewrite Hn in Hns; [done|]. intros Hnv. apply Forall_cons in Hok as [(_ & Hv & _) _]. cbn in Hv.
  unfold no_vectors in Hnv. cbn in Hnv. apply app_eq_nil in Hnv as [Hnv _]. apply (f_equal length) in Hnv.
  rewrite length_as_stored in Hnv. cbn in Hnv. lia.
Qed.

(** Opening an ivf_pq index looks for its segments under the name of the
    index, but they are stored under its store name: when nothing is stored
    under the name itself, an index with more than one segment is reported
    corrupted. *)
Theorem reopen_reports_corruption e bs (v : IvfPqIndex) :
  ivf_reaches (seg_env e) bs v → 1 < length (Segments v) →
  list_files e (VecPrefix +:+ "/" +:+ Name (seg_env e)) = Ok [] →
  MakeIvfPqIndex e (meta_of v) (stores v) (files v) = Err ErrVecIndexCorruption (A := IvfPqIndex).
Proof.
  intros Hr Hlen Hfiles. destruct (reaches_rows e bs v Hr) as (rowss & Hinv & _).
  unfold MakeIvfPqIndex, checkStoredSegments, ListVecSegments. rewrite Hfiles. cbn [mbind res_bind foldM].
  rewrite decide_False; [done|]. rewrite Forall_lookup. intros HF. cbn in HF.
  destruct (lookup_lt_is_Some_2 (Segments v) 0) as [r Hr0]; [lia|]. destruct (HF 0 r Hr0) as [Hin|Hcur]; [set_solver|].
  rewrite (iv_ids _ _ _ Hinv _ _ Hr0) in Hcur. pose proof (iv_cur _ _ _ Hinv). rewrite (iv_refs _ _ _ Hinv) in Hlen. lia.
Qed.

(** The bound check of a partial search lets the number of segments pass
    as a segment id; the search then panics. *)
Theorem partial_search_panics e bs (v : IvfPqIndex) q k nprobe ids :
  ivf_reaches (seg_env e) bs v →
  PartialSearch e q k nprobe (Z.of_nat (length (Segments v)) :: ids) v = (Panic PIndex, v).
Proof.
  intros Hr. destruct (reaches_rows e bs v Hr) as (rowss & Hinv & _).
  unfold PartialSearch, loadSegments, mbind, M_bind. cbn [forM]. unfold mbind, M_bind, get.
  rewrite decide_False by (rewrite (iv_refs _ _ _ Hinv), (iv_segs _ _ _ Hinv); lia).
  unfold load_at_pos, mbind, M_bind, get. rewrite Nat2Z.id.
  rewrite (lookup_ge_None_2 (segments v)) by (rewrite (iv_refs _ _ _ Hinv), (iv_segs _ _ _ Hinv); lia). done.
Qed.

(** * The flat index *)

(** The rows of a flat index. *)
Definition flat_inv (ie : ienv) (f : FlatIndex (W := W) (FIx := FIx) (FFile := FFile)) (rows : list row) : Prop :=
  ∃ r, f_Segments f = [r] ∧ seg_inv ie (flat_view f r (default no_mem (f_seg f))) rows.

Lemma loadSegment_runs e f rows :
  flat_inv (seg_env e) f rows → runs (loadSegment e) f (λ _ f', flat_inv (seg_env e) f' rows) (λ _, True).
Proof.
  intros (r & Hs & Hinv). unfold loadSegment. run. run. destruct (f_seg f) as [m|] eqn:Hm.
  - run. exists r. by rewrite Hm.
  - rewrite Hs. cbn [lookup list_lookup]. run. run; [|done]. intros s Ho. run.
    destruct (open_inv _ _ _ _ _ rows Ho Hinv) as (Hinv' & H1 & H2 & H3).
    exists r. cbn. split; [done|]. destruct Hinv' as [? ? ? ? ?]. split; cbn in *; by rewrite <-?H1, <-?H2, <-?H3.
Qed.

(** A successful batch on a flat index deletes the given ids and then adds
    the given vectors, and its count is the number of vectors it holds. *)
Theorem flat_batch_rows e b f f' rows :
  flat_inv (seg_env e) f rows → batch_ok (seg_env e) b →
  flat_Batch e (b_addVectors b) (b_addIds b) (b_deleteIds b) f = (Ok tt, f') →
  flat_inv (seg_env e) f' (apply_batch b rows) ∧ f_Count f' = Z.of_nat (length (apply_batch b rows)).
Proof.
  intros Hf Hb HB. cut (runs (flat_Batch e (b_addVectors b) (b_addIds b) (b_deleteIds b)) f
    (λ _ f', flat_inv (seg_env e) f' (apply_batch b rows) ∧ f_Count f' = Z.of_nat (length (apply_batch b rows))) (λ _, True)).
  { intros Hr. exact (runs_inv _ _ _ _ _ _ Hr HB). }
  clear HB. unfold flat_Batch. run. eapply runs_mono; [by apply loadSegment_runs| |done].
  intros [] f1 (r & Hs & Hinv). run. unfold runs at 1, on_flat. rewrite Hs. cbn [lookup list_lookup].
  destruct (f_seg f1) as [m|] eqn:Hm; [|done]. cbn [default from_option id] in Hinv.
  pose proof (seg_Batch_runs (seg_env e) (mkBatch (b_addIds b) (b_addVectors b) (b_deleteIds b)) _ rows Hinv) as Hrun.
  destruct Hb as [Hb1 Hb2 Hb3]. specialize (Hrun ltac:(by split)). unfold runs in Hrun.
  destruct (seg_Batch _ _ _) as [[[]| |] s']; [|done..]. destruct Hrun as [Hinv' _].
  run. cbn. split; [|apply Hinv']. exists (s_ref s'). split; [done|]. cbn. destruct Hinv' as [? ? ? ? ?]. by split.
Qed.
End theorems.

(** * An index in memory *)

#[refine] Instance mem_disk : VecDisk (list sdoc) := {| OpenReader _ _ := Opened; SearchFails _ _ := None |}.
Proof. all: done. Defined.

(** The sixteen upper bits. *)
#[refine] Instance mem_f16 : Float16 := {|
  Fromfloat32 x := (Z.shiftr x 16 mod 2 ^ 16)%Z;
  Frombits_Float32 x := Z.shiftl x 16
|}.
Proof. intros x. apply Z.mod_pos_bound. lia. Defined.

Definition mem_knn (q base : vector) (nb k dim : nat) : list Z * list Z :=
  match mem_exact base q nb dim (Nat.min k nb) with
  | Ok (keys, dists) => (dists ++ replicate (k - length keys) 0x7f7fffff%Z,
                         (Z.of_nat <$> keys) ++ replicate (k - length keys) (-1)%Z)
  | _ => ([], [])
  end.

#[refine] Instance mem_faiss : Faiss (list Z) (list Z) := {|
  fx_ids ix := ix;
  fvec_L2 := mem_L2;
  IndexFactory _ _ := Ok [];
  Train ix _ := Ok ix;
  AddWithIDs ix _ ids := Ok (ix ++ ids);
  RemoveIDs ix ids := Ok (filter (.∉ ids) ix);
  Ntotal ix := Z.of_nat (length ix);
  SetIndexParameter _ _ _ := None;
  F_Search ix _ k := Ok (take (Z.to_nat k) ix);
  WriteIndex ix := Ok ix;
  ReadIndex f := Ok f;
  knn_L2sqr := mem_knn
|}.
Proof.
  - by intros d s ix [= <-].
  - by intros ix v ix' [= <-].
  - by intros ix v ids ix' [= <-].
  - by intros ix ids ix' [= <-].
  - done.
  - by intros ix f ix' [= <-] [= <-].
  - intros vs q dim k Hvs Hq Hk. unfold mem_knn.
    destruct (mem_exact (concat vs) q (length vs) dim (Nat.min k (length vs))) as [[keys dists]| |] eqn:E; [|done..].
    destruct (decide (length vs = 0)) as [H0|H0].
    + rewrite H0 in E. rewrite Nat.min_0_r in E. injection E as <- <-. exists [], (replicate k 0x7f7fffff%Z). rewrite H0.
      cbn [length fmap list_fmap app]. rewrite Nat.sub_0_r, length_replicate, Nat.min_0_r.
      split_and!; [done..|constructor| |]; by intros ? ?%not_elem_of_nil || (intros ? ? ?%not_elem_of_nil).
    + apply mem_exact_spec in E as (Hlen & Hnd & Hlt & -> & _ & Hnear); [|done|lia].
      exists keys, (replicate (k - length keys) 0x7f7fffff%Z). rewrite length_replicate. split_and!; done || lia.
Defined.

Module IvfDemo.
Definition ie : ienv :=
  mkIenv "docs/embedding" 2 1 8 false "disk" 2 100 (λ _, 0%Z)
    (λ _, None) (λ _, None) (λ _, None) (λ _, None) (λ _, None) (λ _, None) (λ _, None) (λ _, None).

Definition dist_le (a b : DocDistance) : Prop := f32_cmp_lt (Distance b) (Distance a) = false.
#[local] Instance dist_le_dec : RelDecision dist_le.
Proof. intros a b. unfold dist_le. apply _. Defined.
#[local] Instance dist_le_total : Total dist_le.
Proof.
  intros [? x] [? y]. unfold dist_le, f32_cmp_lt, f32_lt. cbn. destruct (f32_nan x), (f32_nan y); cbn; auto. lia.
Qed.
#[local] Instance dist_le_trans : Transitive dist_le.
Proof.
  intros [? x] [? y] [? z]. unfold dist_le, f32_cmp_lt, f32_lt. cbn.
  destruct (f32_nan x), (f32_nan y), (f32_nan z); cbn; try done. lia.
Qed.

Definition dist_sorter : sorter (λ a b : DocDistance, f32_cmp_lt (Distance a) (Distance b)) :=
  Sorter (merge_sort dist_le) (merge_sort_Permutation dist_le) (StronglySorted_merge_sort dist_le).

Definition e : venv :=
  mkVenv ie "Jq/8d" (λ _, Ok []) (λ _ _, Err "no such file") None map_order_rev map_order_rev shuffle_rev dist_sorter.

Abbreviation index := (@IvfPqIndex (list sdoc) (list Z) (list Z)).
Definition run_batch (b : segBatch) (v : index) : res unit * index :=
  ivf_Batch e (b_addVectors b) (b_addIds b) (b_deleteIds b) v.

(** Segments are full with two vectors: the second batch goes to a second
    segment, and deletes a vector of the first. *)
Definition b1 : segBatch := mkBatch [10; 20]%Z [[1; 1]; [5; 5]]%Z [].
Definition b2 : segBatch := mkBatch [30]%Z [[2; 2]]%Z [20; 77]%Z.
Definition v1 : index := snd (run_batch b1 new_ivf).
Definition v2 : index := snd (run_batch b2 v1).

Lemma mem_clean w : clean (W := list sdoc) w.
Proof. intros q. eexists. split; [reflexivity|]. apply Forall_fmap, Forall_forall. done. Qed.
Lemma mem_clean_index (v : index) : clean_index v.
Proof. intros i _. apply mem_clean. Qed.

Lemma b1_ok : batch_ok ie b1.
Proof. split; [reflexivity| |]; repeat constructor; unfold is_id, is_float32; cbn; try lia; done. Qed.
Lemma b2_ok : batch_ok ie b2.
Proof. split; [reflexivity| |]; repeat constructor; unfold is_id, is_float32; cbn; try lia; done. Qed.

Lemma reach1 : ivf_reaches ie [b1] v1.
Proof.
  apply (R_batch ie e [] b1 new_ivf); [reflexivity|apply R_new|apply mem_clean_index|exact b1_ok|]. vm_compute. reflexivity.
Qed.
Lemma ivf_reach2 : ivf_reaches ie [b1; b2] v2.
Proof.
  apply (R_batch ie e [b1] b2 v1); [reflexivity|exact reach1|apply mem_clean_index|exact b2_ok|]. vm_compute. reflexivity.
Qed.

Lemma ivf_refines_rows_witness :
  rows_after [b1; b2] = [(10, [1; 1]); (30, [2; 2])]%Z ∧ Id <$> Segments v2 = [0; 1] ∧
  ∃ rowss, concat rowss ≡ₚ rows_after [b1; b2] ∧ length (segments v2) = length rowss.
Proof.
  split; [vm_compute; reflexivity|]. split; [vm_compute; reflexivity|].
  destruct (ivf_refines_rows e [b1; b2] v2 ivf_reach2) as (rowss & Hp & Hl & _). exists rowss. split; [exact Hp|exact Hl].
Defined.

Lemma ivf_batch_count_witness : IndexCount v2 = 2%Z.
Proof.
  refine (ivf_batch_count e [b1] b2 v1 v2 reach1 (mem_clean_index v1) b2_ok _ _); [vm_compute; reflexivity|].
  vm_compute. reflexivity.
Defined.

Definition m2 : gmap string Z := match fst (ivf_Search e [2; 1]%Z 1 0 v2) with Ok m => m | _ => ∅ end.

Lemma ivf_search_nearest_witness :
  length (map_to_list m2) = 1 ∧ nearest 1 (map_to_list m2) (cand_of e [2; 1]%Z <$> rows_after [b1; b2]).
Proof.
  split; [vm_compute; reflexivity|].
  refine (ivf_search_nearest e [b1; b2] v2 (snd (ivf_Search e [2; 1]%Z 1 0 v2)) [2; 1]%Z 1 0 m2 ivf_reach2
            (mem_clean_index v2) _ _ eq_refl _ _ _).
  - intros [|[|i]] r Hr; vm_compute in Hr; [injection Hr as <-; reflexivity..|discriminate Hr].
  - apply (bool_decide_unpack _). vm_compute. exact I.
  - cbn. lia.
  - repeat constructor; vm_compute; reflexivity.
  - vm_compute. reflexivity.
Defined.

(** A third batch fills the second segment; then the full segments are sealed. *)
Definition b3 : segBatch := mkBatch [40; 50]%Z [[3; 3]; [4; 4]]%Z [].
Definition v3 : index := snd (run_batch b3 v2).
Definition v4 : index := snd (SealSeg e v3).

Lemma b3_ok : batch_ok ie b3.
Proof. split; [reflexivity| |]; repeat constructor; unfold is_id, is_float32; cbn; try lia; done. Qed.
Lemma ivf_reach3 : ivf_reaches ie [b1; b2; b3] v3.
Proof.
  apply (R_batch ie e [b1; b2] b3 v2); [reflexivity|exact ivf_reach2|apply mem_clean_index|exact b3_ok|]. vm_compute. reflexivity.
Qed.

Lemma seal_completes_witness :
  Status <$> Segments v4 = [StatusGrowing; StatusSealed; StatusGrowing] ∧
  Forall (λ r, Status r = StatusGrowing → Id r ≠ CurrentSegmentId v4 → (RefCount r < 2)%Z) (Segments v4).
Proof.
  split; [vm_compute; reflexivity|].
  refine (seal_completes e [b1; b2; b3] v3 v4 ivf_reach3 (mem_clean_index v3) _ _ _); [cbn; lia|cbn; lia|].
  vm_compute. reflexivity.
Defined.

Lemma reopen_reports_corruption_witness :
  MakeIvfPqIndex e (meta_of v2) (stores v2) (files v2) = Err ErrVecIndexCorruption (A := index).
Proof.
  refine (reopen_reports_corruption e [b1; b2] v2 ivf_reach2 _ _); [|reflexivity]. apply Nat.ltb_lt. vm_compute. reflexivity.
Defined.

Lemma partial_search_panics_witness : PartialSearch e [2; 1]%Z 1 0 [2]%Z v2 = (Panic PIndex, v2).
Proof. exact (partial_search_panics e [b1; b2] v2 [2; 1]%Z 1 0 [] ivf_reach2). Defined.

Definition f0 : FlatIndex (W := list sdoc) (FIx := list Z) (FFile := list Z) := mkFlat [mkRef 0 StatusGrowing 0] 0 None [] None.

Lemma flat_batch_rows_witness :
  f_Count (snd (flat_Batch e (b_addVectors b1) (b_addIds b1) (b_deleteIds b1) f0)) = 2%Z.
Proof.
  assert (flat_inv ie f0 []) as Hf.
  { exists (mkRef 0 StatusGrowing 0). split; [reflexivity|]. split; try done; by left. }
  assert (flat_Batch e (b_addVectors b1) (b_addIds b1) (b_deleteIds b1) f0 =
          (Ok tt, snd (flat_Batch e (b_addVectors b1) (b_addIds b1) (b_deleteIds b1) f0))) as HB by (vm_compute; reflexivity).
  exact (proj2 (flat_batch_rows e b1 f0 _ [] Hf b1_ok HB)).
Defined.
End IvfDemo.
