(* ===== verification/HNSWIndex.v ===== *)
(** pkg/core/vec_index.go: the hnsw index, one HNSW segment with its count in
    the metadata of the index. *)
From S2P Require Import Prelude Hash Strconv Base62 Shards Runs VectorStore HNSWCache HNSWSegment HNSWRefine HNSWBuild HNSWSystem HNSWSearch HNSWTheorems IvfSegment.

#[local] Opaque Encode Decode.

Section index.
Context {W Ix File : Type} {bluge : Bluge W sdoc} {breader : BlugeReader W} {us : Usearch Ix File}.
Local Abbreviation seg := (@seg W Ix File).

Record HNSWIndex := mkHNSW { h_segment : seg; h_Count : Z }.

Definition on_segment {A} (m : M seg A) : M HNSWIndex A := λ h,
  let '(r, s) := m (h_segment h) in (r, mkHNSW s (h_Count h)).

(** What saving the metadata gives, and the conversion [base62.Decode] leaves open. *)
Context (e : env) (meta_err : option string) (conv_oob : nat → Z).

(** [index.Batch]; the outcome says whether a build was asked for. *)
Definition hnsw_Batch (vectors : list vector) (addIds deleteIds : list Z) : M HNSWIndex bool :=
  count ← wrap "failed to batch segment" (on_segment (HNSWSegment.Batch e addIds vectors deleteIds));
  _ ← modify (λ h, mkHNSW (h_segment h) (int64 (h_Count h + count)));
  _ ← wrap "failed to save vec index meta" (fails meta_err);
  on_segment (NeedRebuildHNSW e).

(** The loop of [BuildHNSW]: [None] while it still runs. *)
Fixpoint hnsw_BuildHNSW (fuel : nat) (s : seg) : option (res unit * seg) :=
  match fuel with
  | O => None
  | S fuel =>
      match NeedRebuildHNSW e s with
      | (Ok true, s) =>
          match wrap "failed to build hnsw" (BuildHNSW e) s with
          | (Ok _, s) => hnsw_BuildHNSW fuel s
          | r => Some r
          end
      | (Ok false, s) => Some (Ok tt, s)
      | (Err x, s) => Some (Err x, s)
      | (Panic p, s) => Some (Panic p, s)
      end
  end.

Definition hnsw_Search (vec : vector) (k : Z) : M HNSWIndex (gmap string Z) :=
  '(ids, distances) ← wrap "failed to search segment" (on_segment (HNSWSearch.Search e vec k));
  lift (foldM (λ (hash : gmap string Z) iid, d ← load_at (fst iid) distances; mret (<[Encode (snd iid) := d]> hash))
              ∅ (imap pair ids)).

Definition hnsw_SearchByIDs (vec : vector) (k : Z) (docIDs : list string) : M HNSWIndex (list DocDistance) :=
  '(matchedIDs, distances) ← wrap "failed to search segment by ids"
     (on_segment (HNSWSearch.SearchByIDs e vec k (Decode conv_oob <$> docIDs)));
  lift (foldM (λ acc iid, d ← load_at (fst iid) distances; mret (acc ++ [mkDist (Encode (snd iid)) d]))
              [] (imap pair matchedIDs)).

(** * Theorems *)

Lemma load_loaded (s : seg) : loaded s = true → load e s = (Ok tt, s).
Proof. intros Hl. unfold load, mbind, M_bind, get. by rewrite Hl. Qed.

Lemma Batch_loaded addIDs vectors delIDs (s : seg) :
  loaded s = true → HNSWSegment.Batch e addIDs vectors delIDs s = Batch_locked e addIDs vectors delIDs s.
Proof. intros Hl. unfold HNSWSegment.Batch, mbind, M_bind, wrap. by rewrite (load_loaded s Hl). Qed.

Lemma NeedRebuild_loaded (s : seg) :
  loaded s = true → NeedRebuildHNSW e s = (Ok (HNSWMaxLogs e <? int64 (latestLogID s - hnswLogID s))%Z, s).
Proof. intros Hl. unfold NeedRebuildHNSW. by rewrite (load_loaded s Hl). Qed.

(** C38: The loop that rebuilds the HNSW index while too many logs are pending
    ends after at most one build when no batch comes in between, with the
    outcome of that build; more rounds would change nothing. *)
Theorem build_loop_terminates bs (s : seg) fuel :
  reachable (dimensions e) bs s Idle → loaded s = true → (0 ≤ HNSWMaxLogs e)%Z → 2 ≤ fuel →
  ∃ r s', hnsw_BuildHNSW fuel s = Some (r, s') ∧ hnsw_BuildHNSW 2 s = Some (r, s') ∧
    (r = Ok tt → NeedRebuildHNSW e s' = (Ok false, s') ∧
                 ∃ t, represents (disk s') t ∧ stores t (content bs)).
Proof.
  intros Hreach Hl Hmax Hfuel. pose proof (reachable_inv _ bs s Idle Hreach e eq_refl) as Hinv.
  destruct fuel as [|[|fuel]]; [lia..|]. cbn [hnsw_BuildHNSW]. rewrite (NeedRebuild_loaded s Hl).
  destruct (HNSWMaxLogs e <? int64 (latestLogID s - hnswLogID s))%Z eqn:Hneed.
  - pose proof (BuildHNSW_built e s _ Hinv Hl) as Hb. unfold runs in Hb. unfold wrap.
    destruct (BuildHNSW e s) as [[[]|x|p] s1]; [|by exists (Err ("failed to build hnsw: " +:+ x)), s1|by exists (Panic p), s1].
    destruct Hb as (Hl1 & [t Hinv1] & [_ _ Hids _] & _). rewrite (NeedRebuild_loaded s1 Hl1), Hids, Z.sub_diag.
    replace (HNSWMaxLogs e <? int64 0)%Z with false by (symmetry; apply Z.ltb_ge; exact Hmax).
    exists (Ok tt), s1. split_and!; [done..|]. intros _. split.
    + rewrite (NeedRebuild_loaded s1 Hl1), Hids, Z.sub_diag. f_equal. f_equal. apply Z.ltb_ge. exact Hmax.
    + exists t. split; apply Hinv1.
  - exists (Ok tt), s. split_and!; [done..|]. intros _. destruct Hinv as [t Hinv]. split.
    + by rewrite (NeedRebuild_loaded s Hl), Hneed.
    + exists t. split; apply Hinv.
Qed.

(** A successful batch keeps the count in the metadata of an hnsw index
    equal to the number of stored documents. *)
Theorem hnsw_count_exact bs (h h' : HNSWIndex) ph b asked :
  reachable (dimensions e) bs (h_segment h) ph → loaded (h_segment h) = true → admissible (h_segment h) b →
  is_ok (countDelta e (b_add b) (b_del b) (h_segment h)) = true →
  h_Count h = Z.of_nat (size (content bs)) → (Z.of_nat (size (content (bs ++ [b]))) < 2 ^ 63)%Z →
  hnsw_Batch (b_vectors b) (b_add b) (b_del b) h = (Ok asked, h') →
  h_Count h' = Z.of_nat (size (content (bs ++ [b]))) ∧ reachable (dimensions e) (bs ++ [b]) (h_segment h') ph.
Proof.
  intros Hreach Hl Hb Hok Hcnt Hlt HB. pose proof Hb as [Hbo Hids].
  pose proof (reachable_inv _ bs _ ph Hreach e eq_refl) as Hinv.
  cut (runs (hnsw_Batch (b_vectors b) (b_add b) (b_del b)) h (λ _ h', h_Count h' = Z.of_nat (size (content (bs ++ [b]))) ∧
         reachable (dimensions e) (bs ++ [b]) (h_segment h') ph) (λ _, True)).
  { intros Hr. exact (runs_inv _ _ _ _ _ _ Hr HB). }
  clear HB. unfold hnsw_Batch. do 2 run. unfold runs at 1, on_segment at 1. rewrite (Batch_loaded _ _ _ _ Hl).
  destruct (Batch_locked e (b_add b) (b_vectors b) (b_del b) (h_segment h)) as [[n| |] s1] eqn:EB; [|done..].
  assert (reachable (dimensions e) (bs ++ [b]) s1 ph) as Hreach1.
  { apply (reach_step _ bs (h_segment h) ph (Some b) s1 ph Hreach). by eapply step_batch. }
  destruct (Batch_locked_inv e _ ph _ _ _ _ _ _ Hinv Hl Hbo Hids EB) as [Hl1 [_ Hc]]. specialize (Hc Hok).
  change (batch_spec (b_add b) (b_vectors b) (b_del b)) with (spec_of b) in Hc.
  assert (content (bs ++ [b]) = spec_of b (content bs)) as Hsnoc by (unfold content; by rewrite foldl_app).
  do 5 run; [|done]. intros _. unfold runs, on_segment. cbn [h_segment h_Count].
  rewrite (NeedRebuild_loaded s1) by (by rewrite Hl1). cbn. split; [|done].
  rewrite Hcnt, Hsnoc in *. rewrite int64_small by lia. lia.
Qed.
End index.

(** * The segment of [HNSWTheorems.Demo] behind an index *)

Module IndexDemo.
(** Every pending log calls for a build. *)
Definition e0 : env :=
  mkEnv 2 "disk" 0 None None None None None map_order_default map_order_default set_order_default.

Definition rebuilt : Demo.segment :=
  match hnsw_BuildHNSW e0 2 Demo.s2 with Some (_, s) => s | None => Demo.s2 end.

Lemma build_loop_terminates_witness : hnsw_BuildHNSW e0 9 Demo.s2 = Some (Ok tt, rebuilt) ∧ docTS rebuilt = ∅.
Proof.
  destruct (build_loop_terminates e0 [Demo.b1] Demo.s2 9 Demo.reach2) as (r & s' & H9 & H2 & _).
  - vm_compute. reflexivity.
  - cbn. lia.
  - lia.
  - assert (hnsw_BuildHNSW e0 2 Demo.s2 = Some (Ok tt, rebuilt)) as Hb by (vm_compute; reflexivity).
    split; [|vm_compute; reflexivity]. transitivity (Some (r, s')); [exact H9|]. transitivity (hnsw_BuildHNSW e0 2 Demo.s2); [exact (eq_sym H2)|exact Hb].
Defined.

Definition h3 : HNSWIndex (W := list sdoc) (Ix := gset Z) (File := gset Z) := mkHNSW Demo.s3 3.
Definition h4 : HNSWIndex := snd (hnsw_Batch Demo.e None (b_vectors Demo.b2) (b_add Demo.b2) (b_del Demo.b2) h3).

Lemma hnsw_count_exact_witness : h_Count h4 = Z.of_nat (size (content [Demo.b1; Demo.b2])).
Proof.
  refine (proj1 (hnsw_count_exact Demo.e None [Demo.b1] h3 h4 _ Demo.b2 false Demo.reach3 _ (proj2 Demo.batches_ok) _ _ _ _));
    vm_compute; reflexivity.
Defined.
End IndexDemo.
