(* ===== verification/VecManager.v ===== *)
(** pkg/core/vec_index_manager.go: the cache of open vector indexes.  Opening
    and freeing an index are serialised per name by a channel in [ready]; users
    count references; a background collection frees what nobody uses, and
    deleting an index waits until nobody does.  Each locked region is one step
    of a goroutine, what happens between two locked regions another. *)
From S2P Require Import Prelude.

(** * State *)

(** Everything is about one name: the maps [cache] and [ready] are only accessed
    under the name of the call.  Index objects and channels are numbered. *)
Inductive pc :=
  | GTop                          (* [GetVectorIndex], top of the loop *)
  | GWait (ch : nat)              (* [<-ready] *)
  | GWork (ch : nat)              (* [getVectorIndex] *)
  | GPub (ch o : nat)             (* opened, about to publish *)
  | GFail (ch : nat)
  | Got (o : nat)                 (* in use *)
  | Closing (o : nat) (wait : bool)  (* [CloseVectorIndex], about to reduce *)
  | Polling (o : nat)             (* the loop of a waiting close *)
  | Freeing (o ch : nat)          (* about to call [Free] *)
  | Finishing (ch : nat)          (* freed, about to close the channel *)
  | DTop                          (* [deleteVecIndexFromIndex] *)
  | GcTop                         (* [execGC] *)
  | Done.

Record state := mkState {
  cache : option nat;
  ready : option nat;
  closed : gset nat;
  next : nat;
  refs : gmap nat Z;
  freed : gmap nat nat;
  threads : gmap nat pc
}.

Definition initial : state := mkState None None ∅ 0 ∅ ∅ ∅.

Definition refCount (s : state) (o : nat) : Z := default 0%Z (refs s !! o).
Definition free_count (s : state) (o : nat) : nat := default 0 (freed s !! o).

(** [AddRef] and [ReduceRef]. *)
Definition add_ref (o : nat) (n : Z) (s : state) : state :=
  mkState (cache s) (ready s) (closed s) (next s) (<[o := (refCount s o + n)%Z]> (refs s)) (freed s) (threads s).

Definition set_pc (t : nat) (p : pc) (s : state) : state :=
  mkState (cache s) (ready s) (closed s) (next s) (refs s) (freed s) (<[t := p]> (threads s)).

(** A new channel in [ready], and perhaps the index out of the cache. *)
Definition take_channel (drop : bool) (s : state) : nat * state :=
  (next s, mkState (if drop then None else cache s) (Some (next s)) (closed s) (S (next s)) (refs s) (freed s) (threads s)).

(** [close(ready); delete(ready, name)]. *)
Definition release (ch : nat) (s : state) : state :=
  mkState (cache s) None ({[ch]} ∪ closed s) (next s) (refs s) (freed s) (threads s).

(** * The steps of a goroutine *)

Definition get_locked (s : state) : pc * state :=
  match cache s with
  | Some o => (Got o, add_ref o 1 s)
  | None =>
      match ready s with
      | Some ch => (GWait ch, s)
      | None => let '(ch, s) := take_channel false s in (GWork ch, s)
      end
  end.

(** [getVectorIndex]: a new object with one reference, or an error. *)
Definition work (ch : nat) (ok : bool) (s : state) : pc * state :=
  if ok then
    let o := next s in
    (GPub ch o, mkState (cache s) (ready s) (closed s) (S o) (<[o := 1%Z]> (refs s)) (freed s) (threads s))
  else (GFail ch, s).

Definition publish (ch o : nat) (s : state) : pc * state :=
  (Got o, mkState (Some o) None ({[ch]} ∪ closed s) (next s) (refs s) (freed s) (threads s)).

Definition reduce (o : nat) (wait : bool) (s : state) : pc * state :=
  (if wait then Polling o else Done, add_ref o (-1) s).

(** One round of the loop of a waiting close. *)
Definition poll (o : nat) (s : state) : pc * state :=
  if decide (refCount s o = 0%Z) then
    match ready s with
    | Some _ => (Done, s)
    | None => let '(ch, s) := take_channel true s in (Freeing o ch, s)
    end
  else (Polling o, s).

Definition free (o ch : nat) (s : state) : pc * state :=
  (Finishing ch,
   mkState (cache s) (ready s) (closed s) (next s) (refs s) (<[o := S (free_count s o)]> (freed s)) (threads s)).

(** [execGC]; [expired] is whether the index was not accessed for an hour. *)
Definition gc (expired : bool) (s : state) : pc * state :=
  match cache s with
  | Some o =>
      if bool_decide (refCount s o = 0%Z) && expired then
        match ready s with
        | Some _ => (Done, s)
        | None => let '(ch, s) := take_channel true s in (Freeing o ch, s)
        end
      else (Done, s)
  | None => (Done, s)
  end.

Definition delete_locked (s : state) : pc * state :=
  match cache s with
  | Some o => (Closing o true, add_ref o 1 s)
  | None => (Done, s)
  end.

(** A goroutine's next step; [b] is what the environment decides: the outcome
    of opening, whether a user closes and waits, whether an index has expired. *)
Definition move (p : pc) (b : bool) (s : state) : option (pc * state) :=
  match p with
  | GTop => Some (get_locked s)
  | GWait ch => if decide (ch ∈ closed s) then Some (GTop, s) else None
  | GWork ch => Some (work ch b s)
  | GPub ch o => Some (publish ch o s)
  | GFail ch => Some (Done, release ch s)
  | Got o => Some (Closing o b, s)
  | Closing o w => Some (reduce o w s)
  | Polling o => Some (poll o s)
  | Freeing o ch => Some (free o ch s)
  | Finishing ch => Some (Done, release ch s)
  | DTop => Some (delete_locked s)
  | GcTop => Some (gc b s)
  | Done => None
  end.

Inductive action := Start (p : pc) | Run (b : bool).

Definition is_start (p : pc) : bool := match p with GTop | DTop | GcTop => true | _ => false end.

Definition exec (t : nat) (a : action) (s : state) : option state :=
  match a, threads s !! t with
  | Start p, None => if is_start p then Some (set_pc t p s) else None
  | Run b, Some p => '(p', s') ← move p b s; Some (set_pc t p' s')
  | _, _ => None
  end.

Definition polling (p : pc) : bool := match p with Polling _ => true | _ => false end.

(** Nobody is in the loop of a waiting close. *)
Definition no_poller (s : state) : Prop := ∀ t p, threads s !! t = Some p → polling p = false.

(** Steps that start polling or collecting. *)
Definition intrusive (p : pc) : bool := match p with Closing _ true | GcTop => true | _ => false end.

Inductive step : state → state → Prop :=
  | step_exec t a s s' : exec t a s = Some s' → step s s'.

(** Steps of a system in which no close starts waiting, and no collection
    runs, while another close waits. *)
Inductive calm_step : state → state → Prop :=
  | calm_exec t a s s' :
      exec t a s = Some s' → (∀ p, threads s !! t = Some p → intrusive p = true → no_poller s) → calm_step s s'.

Definition reachable (s : state) : Prop := rtc step initial s.
Definition calm_reachable (s : state) : Prop := rtc calm_step initial s.

Fixpoint run_trace (tr : list (nat * action)) (s : state) : option state :=
  match tr with
  | [] => Some s
  | (t, a) :: tr => s' ← exec t a s; run_trace tr s'
  end.

Lemma run_trace_rtc tr : ∀ s s', run_trace tr s = Some s' → rtc step s s'.
Proof.
  induction tr as [|[t a] tr IH]; intros s s'; cbn; [by intros [= ->]|].
  intros (s1 & H1 & H2)%bind_Some. eapply rtc_l; [by econstructor|by apply IH].
Qed.

(** * Without overlapping waits *)

(** How many goroutines are at a position of some kind. *)
Definition count (P : pc → bool) (m : gmap nat pc) : nat :=
  length (filter (λ tp : nat * pc, P (snd tp) = true) (map_to_list m)).

Definition b2n (b : bool) : nat := if b then 1 else 0.

Lemma count_new P m t p : m !! t = None → count P (<[t := p]> m) = b2n (P p) + count P m.
Proof.
  intros Ht. unfold count. rewrite map_to_list_insert by done. rewrite filter_cons. cbn [snd].
  destruct (P p); cbn; [by rewrite decide_True|by rewrite decide_False].
Qed.

Lemma count_move P m t p q : m !! t = Some q → count P (<[t := p]> m) + b2n (P q) = count P m + b2n (P p).
Proof.
  intros Ht. rewrite <-(insert_id m t q Ht) at 2. rewrite <-(insert_delete_eq m t p), <-(insert_delete_eq m t q).
  rewrite !count_new by apply lookup_delete_eq. lia.
Qed.

Lemma count_zero P m : count P m = 0 → ∀ t p, m !! t = Some p → P p = false.
Proof.
  intros Hc t p Ht. destruct (P p) eqn:Hp; [|done]. unfold count in Hc. apply nil_length_inv in Hc.
  assert ((t, p) ∈ filter (λ tp : nat * pc, P (snd tp) = true) (map_to_list m)) as Hin.
  { apply list_elem_of_filter. split; [done|]. by apply elem_of_map_to_list. }
  rewrite Hc in Hin. by apply not_elem_of_nil in Hin.
Qed.

(** The goroutine counts as a reference to [o]. *)
Definition refers (o : nat) (p : pc) : bool :=
  match p with GPub _ o' | Got o' | Closing o' _ => bool_decide (o' = o) | _ => false end.

(** The channel a goroutine has installed and not yet closed. *)
Definition owns (p : pc) : option nat :=
  match p with GWork ch | GPub ch _ | GFail ch | Freeing _ ch | Finishing ch => Some ch | _ => None end.

(** The object a goroutine relies on being the cached one. *)
Definition uses (p : pc) : option nat := match p with Got o | Closing o _ | Polling o => Some o | _ => None end.

(** The object a goroutine is about to publish or free. *)
Definition handles (p : pc) : option nat := match p with GPub _ o | Freeing o _ => Some o | _ => None end.

(** What the position of one goroutine says about the shared state. *)
Definition pc_ok (s : state) (p : pc) : Prop :=
  (∀ ch, owns p = Some ch → ready s = Some ch) ∧ (∀ o, uses p = Some o → cache s = Some o) ∧
  (∀ o, handles p = Some o → free_count s o = 0 ∧ o < next s).

Record inv (s : state) : Prop := {
  inv_pc : ∀ t p, threads s !! t = Some p → pc_ok s p;
  inv_one : ∀ t1 t2 p1 p2, threads s !! t1 = Some p1 → threads s !! t2 = Some p2 →
    is_Some (owns p1) → is_Some (owns p2) → t1 = t2;
  inv_ready : is_Some (ready s) → cache s = None;
  inv_cache : ∀ o, cache s = Some o → free_count s o = 0 ∧ o < next s;
  inv_refs : ∀ o, refCount s o = Z.of_nat (count (refers o) (threads s));
  inv_freed : ∀ o, free_count s o ≤ 1;
  inv_fresh : ∀ o, next s ≤ o → refCount s o = 0%Z ∧ free_count s o = 0;
  inv_polling : count polling (threads s) ≤ 1
}.

Lemma inv_start : inv initial.
Proof.
  split; cbn; intros *; rewrite ?lookup_empty; try done; unfold refCount, free_count, count; cbn;
    rewrite ?lookup_empty, ?map_to_list_empty; cbn; try done; lia.
Qed.
Lemma lookup_set_thread t p s t' q :
  threads (set_pc t p s) !! t' = Some q ↔ (t' = t ∧ q = p) ∨ (t' ≠ t ∧ threads s !! t' = Some q).
Proof. cbn. rewrite lookup_insert_Some. naive_solver. Qed.

(** The shared state a move of [t] from [q] to [p] leaves. *)
Record moved (t : nat) (q p : pc) (s s' : state) : Prop := {
  mv_threads : threads s' = threads s;
  mv_self : pc_ok s' p;
  mv_others : ∀ t' p', t' ≠ t → threads s !! t' = Some p' → pc_ok s' p';
  mv_owner : is_Some (owns p) → ∀ t' p', t' ≠ t → threads s !! t' = Some p' → owns p' = None;
  mv_ready : is_Some (ready s') → cache s' = None;
  mv_cache : ∀ o, cache s' = Some o → free_count s' o = 0 ∧ o < next s';
  mv_refs : ∀ o, (refCount s' o + Z.of_nat (b2n (refers o q)) = refCount s o + Z.of_nat (b2n (refers o p)))%Z;
  mv_freed : ∀ o, free_count s' o ≤ 1;
  mv_fresh : ∀ o, next s' ≤ o → refCount s' o = 0%Z ∧ free_count s' o = 0;
  mv_polling : polling p = true → polling q = true ∨ no_poller s
}.

Lemma no_poller_count s : no_poller s → count polling (threads s) = 0.
Proof.
  intros Hn. unfold count. rewrite filter_none; [done|]. intros [t p] Hin Hp. apply elem_of_map_to_list in Hin.
  cbn in Hp. by rewrite (Hn t p Hin) in Hp.
Qed.

Lemma moved_inv t q p s s' : inv s → threads s !! t = Some q → moved t q p s s' → inv (set_pc t p s').
Proof.
  intros Hinv Ht [Hth Hself Hoth Hown Hrdy Hca Href Hfr Hfresh Hpoll].
  split; try done.
  - intros t' p'. rewrite lookup_set_thread, Hth. intros [[-> ->]|[Hne Ht']]; [exact Hself|exact (Hoth t' p' Hne Ht')].
  - intros t1 t2 p1 p2. rewrite !lookup_set_thread, Hth. intros [[-> ->]|[Hn1 H1]] [[-> ->]|[Hn2 H2]] Ho1 Ho2; [done| | |].
    + rewrite (Hown Ho1 _ _ Hn2 H2) in Ho2. by destruct Ho2.
    + rewrite (Hown Ho2 _ _ Hn1 H1) in Ho1. by destruct Ho1.
    + by eapply (inv_one _ Hinv).
  - intros o. cbn. rewrite Hth. specialize (Href o). pose proof (count_move (refers o) _ _ p _ Ht) as Hm.
    rewrite (inv_refs _ Hinv o) in Href. change (refCount (set_pc t p s') o) with (refCount s' o). lia.
  - cbn. rewrite Hth. pose proof (count_move polling _ _ p _ Ht) as Hm. pose proof (inv_polling _ Hinv) as Hle.
    destruct (polling p) eqn:Hp; cbn in Hm; [|lia]. destruct (Hpoll eq_refl) as [Hq|Hn]; [rewrite Hq in Hm; cbn in Hm; lia|].
    rewrite (no_poller_count s Hn) in Hm. lia.
Qed.

(** A move that leaves the shared state alone. *)
Lemma moved_local t q p s :
  inv s → threads s !! t = Some q → pc_ok s p → owns p = None → (∀ o, refers o p = refers o q) →
  (polling p = true → polling q = true) → moved t q p s s.
Proof.
  intros Hinv Ht Hp Hown Href Hpoll. split; try apply Hinv; try done.
  - intros t' p' _ Ht'. by apply (inv_pc _ Hinv t').
  - rewrite Hown. by intros [? ?].
  - intros o. rewrite Href. lia.
  - auto.
Qed.

(** References do not matter to the positions. *)
Lemma moved_ref t q p s o n :
  inv s → threads s !! t = Some q → pc_ok s p → owns p = None → o < next s →
  (∀ o', Z.of_nat (b2n (refers o' p)) = Z.of_nat (b2n (refers o' q)) + if decide (o' = o) then n else 0)%Z →
  (polling p = true → polling q = true ∨ no_poller s) → moved t q p s (add_ref o n s).
Proof.
  intros Hinv Ht Hp Hown Ho Href Hpoll.
  assert (∀ o', refCount (add_ref o n s) o' = (refCount s o' + if decide (o' = o) then n else 0)%Z) as Hrc.
  { intros o'. unfold refCount, add_ref. cbn. case_decide as Heq; [subst; by rewrite lookup_insert_eq|].
    rewrite lookup_insert_ne by done. lia. }
  split; try apply Hinv; try done.
  - intros t' p' _ Ht'. exact (inv_pc _ Hinv t' p' Ht').
  - rewrite Hown. by intros [? ?].
  - intros o'. rewrite Hrc, Href. lia.
  - intros o' Ho'. rewrite Hrc. rewrite decide_False by (cbn in Ho'; lia). rewrite Z.add_0_r. by apply (inv_fresh _ Hinv).
Qed.
(** Nobody owns a channel when none is installed. *)
Lemma no_owner s t p : inv s → ready s = None → threads s !! t = Some p → owns p = None.
Proof.
  intros Hinv Hr Ht. destruct (owns p) as [ch|] eqn:Ho; [|done]. destruct (inv_pc _ Hinv t p Ht) as [H _].
  rewrite (H ch Ho) in Hr. done.
Qed.

Lemma only_owner s t q t' p' :
  inv s → threads s !! t = Some q → is_Some (owns q) → t' ≠ t → threads s !! t' = Some p' → owns p' = None.
Proof.
  intros Hinv Ht Hq Hne Ht'. destruct (owns p') as [ch|] eqn:Ho; [|done]. exfalso. apply Hne.
  eapply (inv_one _ Hinv t' t p' q); [done..|rewrite Ho; by eauto|done].
Qed.

(** An owner gives its channel back. *)
Lemma moved_release t q p ch s :
  inv s → threads s !! t = Some q → owns q = Some ch → owns p = None → uses p = None → handles p = None →
  (∀ o, refers o p = refers o q) → polling p = false → moved t q p s (release ch s).
Proof.
  intros Hinv Ht Hq Hp Hu Hh Href Hpoll. split; try apply Hinv; try done; cbn.
  - split_and!; [by rewrite Hp|by rewrite Hu|by rewrite Hh].
  - intros t' p' Hne Ht'. destruct (inv_pc _ Hinv t' p' Ht') as (_ & H2 & H3). split_and!; [|done..].
    rewrite (only_owner s t q t' p'); [done..|rewrite Hq; by eauto|done|done].
  - rewrite Hp. by intros [? ?].
  - by intros [? ?].
  - intros o. rewrite Href. change (refCount (release ch s) o) with (refCount s o). lia.
  - by rewrite Hpoll.
Qed.

(** The cached index, without references and pollers, is taken out of the cache to be freed. *)
Lemma moved_take t q o s :
  inv s → threads s !! t = Some q → cache s = Some o → refCount s o = 0%Z →
  (∀ o', refers o' q = false) → (∀ t' p', t' ≠ t → threads s !! t' = Some p' → polling p' = false) →
  moved t q (Freeing o (next s)) s (snd (take_channel true s)).
Proof.
  intros Hinv Ht Hc Hr0 Hq Hpoll.
  assert (ready s = None) as Hr.
  { destruct (ready s) as [ch|] eqn:E; [|done]. rewrite (inv_ready _ Hinv) in Hc by (rewrite E; by eauto). done. }
  assert (∀ t' p', t' ≠ t → threads s !! t' = Some p' → uses p' = None) as Huse.
  { intros t' p' Hne Ht'. destruct (uses p') as [o'|] eqn:Hu; [|done].
    destruct (inv_pc _ Hinv t' p' Ht') as (_ & H2 & _). specialize (H2 o' Hu). assert (o' = o) as -> by congruence.
    assert (count (refers o) (threads s) = 0) as Hz by (pose proof (inv_refs _ Hinv o); lia).
    pose proof (count_zero _ _ Hz t' p' Ht') as Hno. pose proof (Hpoll t' p' Hne Ht') as Hnp.
    destruct p'; cbn in Hu, Hno, Hnp; simplify_eq; by rewrite bool_decide_true in Hno. }
  destruct (inv_cache _ Hinv o Hc) as [Hf Hlt].
  split; try apply Hinv; try done; cbn.
  - split_and!; [by intros ? [= <-]|done|]. intros ? [= <-]. unfold free_count in *. cbn. split; [done|lia].
  - intros t' p' Hne Ht'. destruct (inv_pc _ Hinv t' p' Ht') as (H1 & _ & H3).
    split_and!; [by rewrite (no_owner s t' p')|by rewrite (Huse t' p')|].
    intros o' Ho'. destruct (H3 o' Ho') as [Hf' Hlt']. unfold free_count in *. cbn. split; [done|lia].
  - intros _ t' p' _ Ht'. by apply (no_owner s t' p').
  - intros o'. rewrite Hq. unfold refCount. cbn. lia.
  - intros o' Ho'. apply (inv_fresh _ Hinv). lia.
Qed.
Lemma uses_lt s t p o : inv s → threads s !! t = Some p → uses p = Some o → cache s = Some o ∧ o < next s.
Proof.
  intros Hinv Ht Hu. destruct (inv_pc _ Hinv t p Ht) as (_ & H & _). specialize (H o Hu). split; [done|].
  by apply (inv_cache _ Hinv).
Qed.

Lemma two_pollers s t t' p p' :
  inv s → t' ≠ t → threads s !! t = Some p → threads s !! t' = Some p' → polling p = true → polling p' = true → False.
Proof.
  intros Hinv Hne Ht Ht' Hp Hp'. pose proof (inv_polling _ Hinv) as Hle.
  pose proof (count_move polling _ _ Done _ Ht) as Hm. rewrite Hp in Hm. cbn in Hm.
  assert (count polling (<[t := Done]> (threads s)) = 0) as Hz by lia.
  assert (polling p' = false) as Hf; [|congruence]. apply (count_zero _ _ Hz t'). by rewrite lookup_insert_ne.
Qed.

Ltac plain_pc := unfold pc_ok; split_and!; cbn; try done; intros ? Heq; injection Heq as <-; try done.

Lemma get_moved t s p s' : inv s → threads s !! t = Some GTop → get_locked s = (p, s') → moved t GTop p s s'.
Proof.
  intros Hinv Ht. unfold get_locked. destruct (cache s) as [o|] eqn:Hc.
  { intros [= <- <-]. apply moved_ref; try done.
    - plain_pc.
    - by apply (inv_cache _ Hinv).
    - intros o'. cbn. destruct (decide (o' = o)) as [->|Hne]; [by rewrite bool_decide_true|by rewrite bool_decide_false]. }
  destruct (ready s) as [ch|] eqn:Hr; intros [= <- <-]; [apply moved_local; try done; plain_pc|].
  split; try apply Hinv; try done; cbn.
  - intros t' p' _ Ht'. destruct (inv_pc _ Hinv t' p' Ht') as (_ & H2 & H3).
    split_and!; [by rewrite (no_owner s t' p')|done|]. intros o Ho. destruct (H3 o Ho). split; [done|cbn; lia].
  - intros _ t' p' _ Ht'. by apply (no_owner s t' p').
  - intros o Ho. congruence.
  - intros o Ho. apply (inv_fresh _ Hinv). lia.
Qed.

Lemma work_moved t ch b s p s' :
  inv s → threads s !! t = Some (GWork ch) → work ch b s = (p, s') → moved t (GWork ch) p s s'.
Proof.
  intros Hinv Ht. pose proof (inv_pc _ Hinv _ _ Ht) as (Hr & _ & _). specialize (Hr ch eq_refl). unfold work.
  assert (∀ t' p', t' ≠ t → threads s !! t' = Some p' → owns p' = None) as Hothers.
  { intros t' p'. apply (only_owner s t (GWork ch)); cbn; by eauto. }
  destruct b; intros [= <- <-].
  - destruct (inv_fresh _ Hinv (next s)) as [Hrc Hfc]; [done|].
    split; try apply Hinv; try done; cbn.
    + plain_pc. split; [exact Hfc|cbn; lia].
    + intros t' p' _ Ht'. destruct (inv_pc _ Hinv t' p' Ht') as (H1 & H2 & H3). split_and!; [done..|].
      intros o Ho. destruct (H3 o Ho). split; [done|cbn; lia].
    + intros o Ho. destruct (inv_cache _ Hinv o Ho). split; [done|cbn; lia].
    + intros o. unfold refCount at 1. cbn. destruct (decide (o = next s)) as [->|Hne].
      * rewrite lookup_insert_eq, bool_decide_true by done. cbn. lia.
      * rewrite lookup_insert_ne, bool_decide_false by done. cbn. unfold refCount. lia.
    + intros o Ho. unfold refCount, free_count. cbn. rewrite lookup_insert_ne by lia. apply (inv_fresh _ Hinv). lia.
  - split; try apply Hinv; try done.
    + plain_pc.
    + intros t' p' _ Ht'. by apply (inv_pc _ Hinv t').
Qed.

Lemma publish_moved t ch o s p s' :
  inv s → threads s !! t = Some (GPub ch o) → publish ch o s = (p, s') → moved t (GPub ch o) p s s'.
Proof.
  intros Hinv Ht. pose proof (inv_pc _ Hinv _ _ Ht) as (Hr & _ & Hh). specialize (Hr ch eq_refl). specialize (Hh o eq_refl).
  assert (cache s = None) as Hc by (apply (inv_ready _ Hinv); rewrite Hr; by eauto). intros [= <- <-].
  split; try apply Hinv; try done; cbn.
  - intros t' p' Hne Ht'. destruct (inv_pc _ Hinv t' p' Ht') as (H1 & H2 & H3). split_and!; [| |done].
    + rewrite (only_owner s t (GPub ch o) t' p'); cbn; by eauto.
    + intros o' Ho'. specialize (H2 o' Ho'). congruence.
  - by intros [? ?].
  - by intros [? ?].
  - by intros ? [= <-].
Qed.

Lemma free_moved t o ch s p s' :
  inv s → threads s !! t = Some (Freeing o ch) → free o ch s = (p, s') → moved t (Freeing o ch) p s s'.
Proof.
  intros Hinv Ht. pose proof (inv_pc _ Hinv _ _ Ht) as (Hr & _ & Hh). specialize (Hr ch eq_refl).
  destruct (Hh o eq_refl) as [Hf Hlt]. intros [= <- <-].
  assert (cache s = None) as Hc by (apply (inv_ready _ Hinv); rewrite Hr; by eauto).
  assert (∀ t' p', t' ≠ t → threads s !! t' = Some p' → owns p' = None) as Hothers.
  { intros t' p'. apply (only_owner s t (Freeing o ch)); cbn; by eauto. }
  assert (∀ o', o' ≠ o → free_count (snd (free o ch s)) o' = free_count s o') as Hfne.
  { intros o' Hne. unfold free_count. cbn. by rewrite lookup_insert_ne. }
  split; try apply Hinv; try done; cbn.
  - plain_pc.
  - intros t' p' Hne Ht'. destruct (inv_pc _ Hinv t' p' Ht') as (H1 & H2 & _). split_and!; [done..|].
    intros o' Ho'. specialize (Hothers t' p' Hne Ht'). destruct p'; done.
  - intros o'. by rewrite Hc.
  - intros o'. destruct (decide (o' = o)) as [->|Hne].
    + unfold free_count at 1. cbn. rewrite lookup_insert_eq. cbn. lia.
    + specialize (Hfne o' Hne). cbn in Hfne. rewrite Hfne. apply (inv_freed _ Hinv).
  - intros o' Ho'. specialize (Hfne o' ltac:(lia)). cbn in Hfne. rewrite Hfne. by apply (inv_fresh _ Hinv).
Qed.

Lemma move_inv t q b s p s' :
  inv s → threads s !! t = Some q → move q b s = Some (p, s') → (intrusive q = true → no_poller s) →
  inv (set_pc t p s').
Proof.
  intros Hinv Ht Hm Hcalm. apply (moved_inv t q p s s' Hinv Ht).
  destruct q as [|ch|ch|ch o|ch|o|o w|o|o ch|ch| | |]; cbn [move] in Hm.
  - apply (inj Some) in Hm. by apply get_moved.
  - case_decide; simplify_eq. apply moved_local; try done; plain_pc.
  - apply (inj Some) in Hm. by apply (work_moved t ch b).
  - apply (inj Some) in Hm. by apply publish_moved.
  - injection Hm as <- <-. by apply moved_release.
  - injection Hm as <- <-. destruct (uses_lt s t _ o Hinv Ht eq_refl) as [Hc _]. apply moved_local; try done; plain_pc.
  - apply (inj Some) in Hm. unfold reduce in Hm. injection Hm as <- <-. destruct (uses_lt s t _ o Hinv Ht eq_refl) as [Hc Hlt].
    apply moved_ref; try done.
    + destruct w; plain_pc.
    + by destruct w.
    + intros o'. destruct w; cbn; (destruct (decide (o' = o)) as [->|Hne]; [by rewrite bool_decide_true|by rewrite bool_decide_false]).
    + destruct w; [|done]. intros _. right. by apply Hcalm.
  - apply (inj Some) in Hm. destruct (uses_lt s t _ o Hinv Ht eq_refl) as [Hc Hlt]. unfold poll in Hm. case_decide as Hr0.
    + destruct (ready s) as [ch|] eqn:Hr; [injection Hm as <- <-; apply moved_local; try done; plain_pc|].
      cbn in Hm. injection Hm as <- <-. apply (moved_take t (Polling o) o s); try done.
      intros t' p' Hne Ht'. destruct (polling p') eqn:Hp; [|done]. exfalso. by apply (two_pollers s t t' (Polling o) p').
    + injection Hm as <- <-. apply moved_local; try done; plain_pc.
  - apply (inj Some) in Hm. by apply free_moved.
  - injection Hm as <- <-. by apply moved_release.
  - apply (inj Some) in Hm. unfold delete_locked in Hm. destruct (cache s) as [o|] eqn:Hc; injection Hm as <- <-.
    + apply moved_ref; try done.
      * plain_pc.
      * by apply (inv_cache _ Hinv).
      * intros o'. cbn. destruct (decide (o' = o)) as [->|Hne]; [by rewrite bool_decide_true|by rewrite bool_decide_false].
    + apply moved_local; try done; plain_pc.
  - apply (inj Some) in Hm. unfold gc in Hm.
    assert (moved t GcTop Done s s) as Hdone by (apply moved_local; try done; plain_pc).
    destruct (cache s) as [o|] eqn:Hc; [|by injection Hm as <- <-].
    destruct (bool_decide _ && b) eqn:Hcond; [|by injection Hm as <- <-].
    destruct (ready s) as [ch|]; [by injection Hm as <- <-|]. apply andb_true_iff in Hcond as [Hr0%bool_decide_eq_true _].
    cbn in Hm. injection Hm as <- <-. apply (moved_take t GcTop o s); try done.
    intros t' p' _ Ht'. by apply (Hcalm eq_refl t').
  - done.
Qed.
Lemma start_inv t p s : inv s → threads s !! t = None → is_start p = true → inv (set_pc t p s).
Proof.
  intros [Hpc Hone Hrdy Hca Href Hfr Hfresh Hpoll] Ht Hp.
  assert (owns p = None ∧ uses p = None ∧ handles p = None ∧ polling p = false ∧ ∀ o, refers o p = false)
    as (Ho & Hu & Hh & Hpl & Hre) by (by destruct p).
  split; try done.
  - intros t' p' [[-> ->]|[_ Ht']]%lookup_set_thread; [split_and!; [by rewrite Ho|by rewrite Hu|by rewrite Hh]|exact (Hpc t' p' Ht')].
  - intros t1 t2 p1 p2 [[-> ->]|[Hn1 H1]]%lookup_set_thread [[-> ->]|[Hn2 H2]]%lookup_set_thread Ho1 Ho2;
      [done|rewrite Ho in Ho1; by destruct Ho1|rewrite Ho in Ho2; by destruct Ho2|by eapply Hone].
  - intros o. cbn. rewrite count_new, Hre by done. apply Href.
  - cbn. by rewrite count_new, Hpl by done.
Qed.

Lemma calm_inv s : calm_reachable s → inv s.
Proof.
  unfold calm_reachable. revert s. apply (rtc_ind_r inv initial); [exact inv_start|].
  intros s1 s2 _ [t a s' s'' Hex Hcalm] Hinv. unfold exec in Hex.
  destruct a as [p|b], (threads s' !! t) as [q|] eqn:Ht; try done.
  - destruct (is_start p) eqn:Hp; [|done]. injection Hex as <-. by apply start_inv.
  - apply bind_Some in Hex as ([p s3] & Hm & [= <-]). eapply move_inv; [done..|]. by apply Hcalm.
Qed.

(** C33: As long as no close starts to wait, and no collection runs, while
    another close waits, no index object is freed twice, an object somebody uses
    is never freed, and everybody who uses the index uses the one cached object. *)
Theorem used_index_is_not_freed s :
  calm_reachable s →
  (∀ o, free_count s o ≤ 1) ∧
  ∀ t o, threads s !! t = Some (Got o) → cache s = Some o ∧ free_count s o = 0 ∧ (0 < refCount s o)%Z.
Proof.
  intros Hr. pose proof (calm_inv s Hr) as Hinv. split; [apply Hinv|]. intros t o Ht.
  destruct (uses_lt s t (Got o) o Hinv Ht eq_refl) as [Hc _]. split_and!; [done|by apply (inv_cache _ Hinv)|].
  rewrite (inv_refs _ Hinv). destruct (count (refers o) (threads s)) eqn:Hz; [|lia].
  pose proof (count_zero _ _ Hz t (Got o) Ht) as Hf. cbn in Hf. by rewrite bool_decide_true in Hf.
Qed.

(** A trace that starts no wait and no collection at all is calm. *)
Definition no_intrusion (t : nat) (s : state) : bool :=
  match threads s !! t with Some p => negb (intrusive p) | None => true end.

Fixpoint calm_trace (tr : list (nat * action)) (s : state) : option state :=
  match tr with
  | [] => Some s
  | (t, a) :: tr => if no_intrusion t s then s' ← exec t a s; calm_trace tr s' else None
  end.

Lemma calm_trace_rtc tr : ∀ s s', calm_trace tr s = Some s' → rtc calm_step s s'.
Proof.
  induction tr as [|[t a] tr IH]; intros s s'; cbn; [by intros [= ->]|]. destruct (no_intrusion t s) eqn:Hn; [|done].
  intros (s1 & H1 & H2)%bind_Some. eapply rtc_l; [|by apply IH]. apply (calm_exec t a); [done|].
  intros p Hp Hi. unfold no_intrusion in Hn. by rewrite Hp, Hi in Hn.
Qed.

(** Two users share the object one of them opened. *)
Definition shared : list (nat * action) :=
  [ (0, Start GTop); (1, Start GTop); (0, Run true); (1, Run true); (0, Run true); (0, Run true);
    (1, Run true); (1, Run true) ].

Lemma used_index_is_not_freed_witness :
  ∃ s, threads s !! 0 = Some (Got 1) ∧ threads s !! 1 = Some (Got 1) ∧ free_count s 1 = 0 ∧ cache s = Some 1.
Proof.
  destruct (calm_trace shared initial) as [s|] eqn:E; [|vm_compute in E; discriminate E].
  exists s. assert (calm_reachable s) as Hr by (exact (calm_trace_rtc shared initial s E)).
  assert (threads s !! 0 = Some (Got 1)) as H0 by (vm_compute in E; injection E as <-; reflexivity).
  assert (threads s !! 1 = Some (Got 1)) as H1 by (vm_compute in E; injection E as <-; reflexivity).
  destruct (proj2 (used_index_is_not_freed s Hr) 0 1 H0) as (Hc & Hf & _).
  split; [exact H0|]. split; [exact H1|]. split; [exact Hf|exact Hc].
Defined.

(** * Overlapping waits *)

(** Two deletions of the same index while it is in use. *)
Definition double_free : list (nat * action) :=
  [ (0, Start GTop); (0, Run true); (0, Run true); (0, Run true);           (* 0 opens object 1 *)
    (1, Start DTop); (1, Run true); (1, Run true); (1, Run true);           (* 1 deletes: waits, 0 still uses it *)
    (2, Start DTop); (2, Run true); (2, Run true); (2, Run true);           (* 2 deletes: waits as well *)
    (0, Run false); (0, Run false);                                         (* 0 closes *)
    (1, Run true); (1, Run true); (1, Run true);                            (* 1 frees it *)
    (3, Start GTop); (3, Run true); (3, Run true); (3, Run true);           (* 3 opens it anew *)
    (2, Run true); (2, Run true) ].                                         (* 2 finds no references left *)

(** Two closes that wait for the same index free it twice, and the second
    one takes a newer index of the same name, which is in use, out of the cache. *)
Theorem waiting_closes_double_free :
  ∃ s o o', reachable s ∧ free_count s o = 2 ∧ threads s !! 3 = Some (Got o') ∧ o' ≠ o ∧ cache s = None.
Proof.
  destruct (run_trace double_free initial) as [s|] eqn:E; [|vm_compute in E; discriminate E].
  exists s, 1, 4. assert (reachable s) as Hr by (by eapply run_trace_rtc). vm_compute in E. injection E as <-.
  split_and!; [exact Hr|reflexivity..|done|reflexivity].
Qed.
