(* ===== verification/Query.v ===== *)
(** pkg/uquery/query: from the query DSL, decoded JSON, to a query of the
    engine, and to the terms whose statistics a unified search needs. *)
From stdpp Require Import functions.
From Stdlib Require Import SpecFloat.
From S2P Require Import Prelude Hash Strconv Value Document.
Import Meta.

(** * Analyzers *)

(** An analyzer is known by how it was made: one of the index settings, one of
    the names of [QueryAnalyzer], or bluge's own standard analyzer. *)
Inductive analyzer := Custom (name : string) | Builtin (name : string) | BlugeStandard.

#[global] Instance analyzer_eq_dec : EqDecision analyzer.
Proof. solve_decision. Defined.

(** * Queries of the engine *)

Inductive operator := OpOr | OpAnd.

(** The constructors of bluge with the settings made on them; an optional
    setting that was not made is [None].  A nil query inside of a boolean query
    is [None], too. *)
#[local] Unset Elimination Schemes.
Inductive bquery : Type :=
  | QMatchAll
  | QMatchNone
  | QTerm (field term : string) (boost : option float64)
  | QPrefix (field term : string) (boost : option float64)
  | QWildcard (field term : string) (boost : option float64)
  | QRegexp (field term : string) (boost : option float64)
  | QFuzzy (field term : string) (fuzziness prefix : option Z) (boost : option float64)
  | QMatch (field query : string) (zer : option analyzer) (op : option operator)
      (fuzziness prefix : option Z) (boost : option float64)
  | QMatchPhrase (field query : string) (zer : option analyzer) (boost : option float64)
  | QNumericRange (field : string) (min max : float64) (minInclusive maxInclusive : bool) (boost : option float64)
  | QDateRange (field : string) (min max : Z) (minInclusive maxInclusive : bool) (boost : option float64)
  | QBool (musts shoulds mustNots : list (option bquery)) (minShould : option Z) (boost : option float64)
  | QOther (id : nat).
#[local] Set Elimination Schemes.

Record Term := NewTerm { t_field : string; t_value : string }.

(** * What the code takes from libraries *)

(** [strconv.ParseFloat] returns a number beside an error as well;
    [time.ParseInLocation] can be called without a location; analysing a text
    gives its terms; the syntax of query strings and the coding of numbers as
    terms belong to bluge. *)
Class QueryLib := {
  ParseFloat_value : string → float64;
  ParseNilLocation : string → string → res Z;
  Analyze : analyzer → string → list string;
  ParseQueryString : string → analyzer → gmap string analyzer → res bquery;
  prefix_coded : float64 → string
}.

(** * Errors (pkg/errors/error.go) *)

Definition error_new (typ reason : string) : string := "type: " +:+ typ +:+ ", reason: " +:+ reason.
Definition error_cause (typ reason cause : string) : string :=
  error_new typ reason +:+ ", cause: " +:+ cause.
Definition parsing {A} (reason : string) : res A := Err (error_new "parsing_exception" reason).
Definition xcontent {A} (reason : string) : res A := Err (error_new "x_content_parse_exception" reason).

(** [errors.New(typ, reason).Cause(err)] around a call. *)
Definition caused {A} (typ reason : string) (r : res A) : res A :=
  match r with Err e => Err (error_cause typ reason e) | _ => r end.

(** The verb [%T]. *)
Definition type_name (v : value) : string :=
  match v with
  | VNil => "<nil>"
  | VBool _ => "bool"
  | VFloat _ => "float64"
  | VInt _ => "int"
  | VInt64 _ => "int64"
  | VUint64 _ => "uint64"
  | VStr _ => "string"
  | VArr _ => "[]interface {}"
  | VMap _ => "map[string]interface {}"
  end.

Definition to_lower (c : ascii) : ascii :=
  let n := nat_of_ascii c in if decide (65 ≤ n ≤ 90) then ascii_of_nat (n + 32) else c.
Fixpoint ToLower (s : string) : string :=
  match s with EmptyString => EmptyString | String c s => String (to_lower c) (ToLower s) end.

Definition is_nil (v : value) : bool := match v with VNil => true | _ => false end.

(** The verb [%q] of a name. *)
Definition quoted (s : string) : string := let q := String (ascii_of_nat 34) "" in q +:+ s +:+ q.

(** [v.(T)] without a second result. *)
Definition assert_as {A} (cast : value → option A) (v : value) : res A :=
  match cast v with Some a => Ok a | None => Panic PTypeAssert end.

(** * Options of a query *)

(** The structs of pkg/meta/query_dsl.go a query is read into, as functions from
    the names of their fields: texts, numbers, [interface{}] values, and the
    list of fields.  What is never set has the zero value of its type. *)
Record params := mkParams {
  p_str : string → string;
  p_num : string → float64;
  p_any : string → value;
  p_strs : list string
}.

Definition zero : float64 := S754_zero false.

(** [new(meta.X)]; most queries then set [Boost] to -1. *)
Definition new_params (boost : float64) : params :=
  mkParams (λ _, "") (<["boost" := boost]> (λ _, zero)) (λ _, VNil) [].
Definition minus_one : float64 := float_of_Z (-1).

Definition set_str (k s : string) (p : params) : params :=
  mkParams (<[k := s]> (p_str p)) (p_num p) (p_any p) (p_strs p).
Definition set_num (k : string) (x : float64) (p : params) : params :=
  mkParams (p_str p) (<[k := x]> (p_num p)) (p_any p) (p_strs p).
Definition set_any (k : string) (v : value) (p : params) : params :=
  mkParams (p_str p) (p_num p) (<[k := v]> (p_any p)) (p_strs p).
Definition add_str (s : string) (p : params) : params :=
  mkParams (p_str p) (p_num p) (p_any p) (p_strs p ++ [s]).

(** How one case of a [switch k] over the keys of an object stores its value:
    [v.(string)], [zutils.ToString(v)], [v.(float64)], [zutils.ToFloat64(v)]
    into a number or an interface, [v.(bool)], [v] itself, the elements of an
    array, nothing, or an error. *)
Inductive kind :=
  | KString | KToString | KFloat | KToFloat | KToFloatAny | KBool | KAny | KStrings | KNoop
  | KRefuse (reason : string).

(** The cases of a [switch], and what its default does: nothing or an error. *)
Record spec := mkSpec { cases : list (string * kind); otherwise : option (string → string) }.

(** [value.Boost >= 0], [x > 0]. *)
Definition at_least_zero (x : float64) : bool :=
  match SFcompare x zero with Some Lt | None => false | _ => true end.
Definition above_zero (x : float64) : bool :=
  match SFcompare x zero with Some Gt => true | _ => false end.

Definition the_boost (p : params) : option float64 :=
  if at_least_zero (p_num p "boost") then Some (p_num p "boost") else None.

Section query.
Context {lib : GoLib} {qlib : QueryLib}.

(** The first results of [zutils.ToString] and [zutils.ToFloat64], the error
    dropped. *)
Definition ToStr (v : value) : string :=
  match ToString FormatFloat Sprint v with Ok s => s | _ => "" end.
Definition ToNum (v : value) : float64 :=
  match ToFloat64 ParseFloat v with
  | Ok x => x
  | _ => match v with VStr s => ParseFloat_value s | _ => zero end
  end.

Definition set_option (kd : kind) (k : string) (v : value) (p : params) : res params :=
  match kd with
  | KString => s ← assert_as as_string v; Ok (set_str k s p)
  | KToString => Ok (set_str k (ToStr v) p)
  | KFloat => x ← assert_as as_float v; Ok (set_num k x p)
  | KToFloat => Ok (set_num k (ToNum v) p)
  | KToFloatAny => Ok (set_any k (VFloat (ToNum v)) p)
  | KBool => b ← assert_as as_bool v; Ok (set_any k (VBool b) p)
  | KAny => Ok (set_any k v p)
  | KStrings => match v with
                | VArr vs => foldM (λ p v, s ← assert_as as_string v; Ok (add_str s p)) p vs
                | _ => Ok p
                end
  | KNoop => Ok p
  | KRefuse reason => parsing reason
  end.

(** One turn of [for k, v := range query { switch strings.ToLower(k) ... }]. *)
Definition option_turn (sp : spec) (p : params) (kv : string * value) : res params :=
  let k := ToLower kv.1 in
  match assoc k (cases sp) with
  | Some kd => set_option kd k kv.2 p
  | None => match otherwise sp with None => Ok p | Some e => parsing (e k) end
  end.
Definition read_options (sp : spec) (p : params) (m : list (string * value)) : res params :=
  foldM (option_turn sp) p m.

(** The shape [{field: text}] or [{field: {options}}]: the field, and the text
    stored as the option [text]. *)
Definition read_single (name text : string) (sp : spec) (p : params) (query : list (string * value))
    : res (string * params) :=
  match query with
  | [] => Ok ("", p)
  | [(field, v)] =>
      match v with
      | VStr s => Ok (field, set_str text s p)
      | VMap m => p ← read_options sp p m; Ok (field, p)
      | _ => xcontent ("[" +:+ name +:+ "] " +:+ field +:+ " doesn't support values of type: " +:+ type_name v)
      end
  | _ => parsing ("[" +:+ name +:+ "] query doesn't support multiple fields")
  end.

(** * Choice of the analyzer (pkg/uquery/analysis/analyzer.go) *)

Context (analyzers : gset string) (mappings : Mappings).

Definition builtin_analyzers : list string :=
  ["standard"; "simple"; "keyword"; "web"; "regexp"; "pattern"; "stop"; "whitespace"; "gse_standard";
   "gse_search"; "ar"; "arabic"; "cjk"; "ckb"; "sorani"; "da"; "danish"; "de"; "german"; "en"; "english";
   "es"; "spanish"; "fa"; "persian"; "fi"; "finnish"; "fr"; "french"; "hi"; "hindi"; "hu"; "hungarian";
   "it"; "italian"; "nl"; "dutch"; "no"; "norwegian"; "pt"; "portuguese"; "ro"; "romanian"; "ru"; "russian";
   "sv"; "swedish"; "tr"; "turkish"].

Definition QueryAnalyzer (name : string) : res analyzer :=
  let name := if decide (name = "") then "default" else name in
  if decide (name ∈ analyzers) then Ok (Custom name)
  else if decide (name ∈ builtin_analyzers) then Ok (Builtin name)
  else parsing ("[analyzer] unknown analyzer [" +:+ name +:+ "]").

Definition query_analyzer (name : string) : option analyzer :=
  match QueryAnalyzer name with Ok z => Some z | _ => None end.

(** The index analyzer and the search analyzer of a field. *)
Definition QueryAnalyzerForField (field : string) : option analyzer * option analyzer :=
  if decide (field = "") then (None, None) else
  match mappings !! field with
  | Some v =>
      if decide (Type_ v ≠ "text") then (None, None)
      else (query_analyzer (Meta.Analyzer v), query_analyzer (SearchAnalyzer v))
  | None => (query_analyzer "", query_analyzer "")
  end.

Definition field_analyzer (field : string) : option analyzer :=
  let '(indexZer, searchZer) := QueryAnalyzerForField field in
  match searchZer with Some z => Some z | None => indexZer end.

(** The choice the match queries share: the analyzer named in the query, which
    must exist, or the one of the field. *)
Definition choose_analyzer (name field : string) : res (option analyzer) :=
  if decide (name ≠ "") then z ← QueryAnalyzer name; Ok (Some z) else Ok (field_analyzer field).

Definition or_standard (z : option analyzer) : analyzer := default BlugeStandard z.

(** * minimum_should_match (match.go) *)

(** [int(math.Floor(x))]. *)
Definition float_floor (x : float64) : option Z :=
  match x with
  | S754_zero _ => Some 0%Z
  | S754_finite s m e =>
      let z := if s then Zneg m else Zpos m in
      Some (if (0 <=? e)%Z then Z.shiftl z e else Z.shiftr z (- e))
  | _ => None
  end.
Definition int_of_floor (x : float64) : Z :=
  match float_floor x with
  | Some z => if decide (- 2 ^ 63 ≤ z < 2 ^ 63)%Z then z else (- 2 ^ 63)%Z
  | None => (- 2 ^ 63)%Z
  end.

(** [int(float64(a) * float64(b) / 100)]. *)
Definition percent (a b : Z) : Z :=
  int64_of_float (SFdiv 53 1024 (SFmul 53 1024 (float_of_Z a) (float_of_Z b)) (float_of_Z 100)).

Definition getPartValue (termCount : Z) (part : string) : res Z :=
  if contains_char "%" part then
    match ParseInt (String.substring 0 (String.length part - 1) part) with
    | Ok proportion =>
        if decide (proportion < 0)%Z then Ok (int64 (termCount - percent termCount (int64 (- proportion))))
        else Ok (percent termCount proportion)
    | Err e => Err ("cannot parse a percent value: " +:+ e)
    | Panic p => Panic p
    end
  else
    match ParseInt part with
    | Ok count => if decide (count < 0)%Z then Ok (int64 (termCount + count)) else Ok count
    | Err e => Err ("cannot parse a int value: " +:+ e)
    | Panic p => Panic p
    end.

(** [(\d+)<([-+]?\d+%?)], the leftmost match and its two groups. *)
Definition is_digit (c : ascii) : bool := match digit_of c with Some _ => true | None => false end.
Fixpoint span_digits (s : string) : string * string :=
  match s with
  | String c s' => if is_digit c then let '(d, r) := span_digits s' in (String c d, r) else ("", s)
  | EmptyString => ("", "")
  end.
Definition match_sign (s : string) : string * string :=
  match s with
  | String c s' => if decide (c = "-"%char ∨ c = "+"%char) then (String c "", s') else ("", s)
  | EmptyString => ("", "")
  end.
Definition match_here (s : string) : option (string * string) :=
  let '(lhs, r) := span_digits s in
  if decide (lhs = "") then None else
  match r with
  | String "<" r =>
      let '(sign, r) := match_sign r in
      let '(digits, r) := span_digits r in
      if decide (digits = "") then None
      else Some (lhs, sign +:+ digits +:+ match r with String "%" _ => "%" | _ => "" end)
  | _ => None
  end.
Fixpoint FindStringSubmatch (s : string) : option (string * string) :=
  match match_here s with
  | Some m => Some m
  | None => match s with String _ s' => FindStringSubmatch s' | EmptyString => None end
  end.

(** A condition [n<m]: above [n] clauses, [m] of them must match. *)
Record combination := mkCombination { condition : Z; count : Z }.

Definition parse_condition (subCount : Z) (m : string * string) : res combination :=
  match ParseInt m.1 with
  | Ok c =>
      match getPartValue subCount m.2 with
      | Ok n => Ok (mkCombination c n)
      | Err e => Err ("cannot parse the clauses count: " +:+ e)
      | Panic p => Panic p
      end
  | Err e => Err ("cannot parse the condition value: " +:+ e)
  | Panic p => Panic p
  end.

Definition cond_less (a b : combination) : bool := (condition a <? condition b)%Z.

(** The loop over the sorted conditions. *)
Fixpoint first_condition (subCount : Z) (cs : list combination) : option Z :=
  match cs with
  | [] => None
  | c :: cs =>
      if decide (subCount ≤ condition c)%Z then Some subCount
      else match cs with
           | [] => Some (count c)
           | next :: _ => if decide (subCount ≤ condition next)%Z then Some (count c)
                          else first_condition subCount cs
           end
  end.

(** The deferred function: a result stays between 1 and the number of clauses. *)
Definition clamp (subCount : Z) (r : res Z) : res Z :=
  match r with
  | Ok n => Ok (if decide (n ≤ 1)%Z then 1%Z else if decide (subCount ≤ n)%Z then subCount else n)
  | _ => r
  end.

Context (sort_conditions : sorter cond_less).

Definition invalid_minimum (xs : list string) : string := "invalid MinimumShould value: [" +:+ Join " " xs +:+ "]".

(** [calculateMin] of a [[]string]. *)
Definition calculateMin_list (subCount : Z) (xs : list string) : res Z :=
  if decide (subCount = 0%Z) then Ok 1%Z else
  clamp subCount
    (conditions ← foldM (λ acc str,
         match FindStringSubmatch str with
         | Some m => c ← parse_condition subCount m; Ok (acc ++ [c])
         | None => Err (invalid_minimum xs)
         end) [] xs;
     match first_condition subCount (sort_slice sort_conditions conditions) with
     | Some n => Ok n
     | None => Err (invalid_minimum xs)
     end).

Definition calculateMin (subCount : Z) (v : value) : res Z :=
  if decide (subCount = 0%Z) then Ok 1%Z else
  let number m := Ok (if decide (m < 0)%Z then int64 (subCount + m) else m) in
  clamp subCount
    match v with
    | VInt m | VInt64 m => number m
    | VFloat x => number (int_of_floor x)
    | VStr x =>
        let combinations := Split " " x in
        if decide (1 < length combinations) then calculateMin_list subCount combinations
        else match getPartValue subCount x with
             | Ok n => Ok n
             | Panic p => Panic p
             | Err _ =>
                 match FindStringSubmatch x with
                 | Some m => c ← parse_condition subCount m;
                             Ok (if decide (subCount ≤ condition c)%Z then subCount else count c)
                 | None => Err ("invalid MinimumShould value: " +:+ x)
                 end
             end
    | _ => Err "invalid MinimumShouldMatch value"
    end.

(** * Fuzziness (fuzzy.go) *)

(** The first result of [zutils.ToInt] of a text, the error dropped: a number
    out of range is cut to the largest or smallest int64. *)
Definition Atoi_value (s : string) : Z :=
  match Atoi s with
  | Ok z => z
  | Err e => if decide (e = ErrRange)
             then if decide (String.get 0 s = Some "-"%char) then (- 2 ^ 63)%Z else (2 ^ 63 - 1)%Z
             else 0%Z
  | Panic _ => 0%Z
  end.

Definition longest (terms : list string) : Z :=
  foldl (λ n t, if decide (n < Z.of_nat (String.length t))%Z then Z.of_nat (String.length t) else n) 0%Z terms.

Definition TrimPrefix (pre s : string) : string :=
  if String.prefix pre s then String.substring (String.length pre) (String.length s - String.length pre) s else s.

Definition ParseFuzziness (fuzziness : value) (query : string) (zer : option analyzer) : Z :=
  let val := ToUpper (ToStr fuzziness) in
  if negb (String.prefix "AUTO" val) then Atoi_value val else
  let n := longest (Analyze (or_standard zer) query) in
  let level n1 n2 := if decide (n2 ≤ n)%Z then 2%Z else if decide (n1 ≤ n)%Z then 1%Z else 0%Z in
  if contains_char ":" val && contains_char "," val then
    match Split "," (TrimPrefix "AUTO:" val) with
    | [a; b] => let n1 := Atoi_value a in let n2 := Atoi_value b in
                if decide (n1 < 2 ∨ n2 ≤ n1)%Z then 0%Z else level n1 n2
    | _ => level 3%Z 6%Z
    end
  else level 3%Z 6%Z.

(** The fuzziness set on a query, if any. *)
Definition the_fuzziness (p : params) (query : string) (zer : option analyzer) : option Z :=
  match p_any p "fuzziness" with
  | VNil => None
  | f => let v := ParseFuzziness f query zer in if decide (0 < v)%Z then Some v else None
  end.
Definition the_prefix (p : params) : option Z :=
  let x := p_num p "prefix_length" in if above_zero x then Some (int64_of_float x) else None.

(** * Queries of one field *)

Definition PrefixQuery (query : list (string * value)) : res (option bquery) :=
  '(field, p) ← read_single "prefix" "value"
      (mkSpec [("value", KString); ("boost", KFloat)] None) (new_params minus_one) query;
  Ok (Some (QPrefix field (p_str p "value") (the_boost p))).

Definition WildcardQuery (query : list (string * value)) : res (option bquery) :=
  '(field, p) ← read_single "wildcard" "value"
      (mkSpec [("value", KString); ("boost", KFloat)] None) (new_params minus_one) query;
  Ok (Some (QWildcard field (p_str p "value") (the_boost p))).

Definition RegexpQuery (query : list (string * value)) : res (option bquery) :=
  '(field, p) ← read_single "regexp" "value"
      (mkSpec [("value", KString); ("flags", KString); ("boost", KFloat)] None) (new_params minus_one) query;
  Ok (Some (QRegexp field (p_str p "value") (the_boost p))).

Definition FuzzyQuery (query : list (string * value)) : res (option bquery) :=
  '(field, p) ← read_single "fuzzy" "value"
      (mkSpec [("value", KToString); ("fuzziness", KAny); ("prefix_length", KToFloat); ("boost", KToFloat)] None)
      (new_params minus_one) query;
  let zer := field_analyzer field in
  Ok (Some (QFuzzy field (p_str p "value") (the_fuzziness p (p_str p "value") zer) (the_prefix p) (the_boost p))).

(** ** match *)

Definition match_spec : spec :=
  mkSpec [("query", KToString); ("analyzer", KToString); ("operator", KToString); ("fuzziness", KAny);
          ("prefix_length", KToFloat); ("boost", KToFloat); ("minimum_should_match", KAny)] None.

Definition genQueryWithMinimumShouldMatch (ana : option analyzer) (field : string) (p : params)
    (minimumShouldMatch : value) : res bquery :=
  let ana := or_standard ana in
  let fuzziness := the_fuzziness p (p_str p "query") (Some ana) in
  let boost := default (float_of_Z 1) (the_boost p) in
  let tokens := Analyze ana (p_str p "query") in
  if decide (tokens = []) then Ok QMatchNone else
  let tqs := (λ t, Some match fuzziness with
                        | Some f => QFuzzy field t (Some f) (Some (int64_of_float (p_num p "prefix_length"))) (Some boost)
                        | None => QTerm field t (Some boost)
                        end) <$> tokens in
  minValue ← calculateMin (Z.of_nat (length tokens)) minimumShouldMatch;
  Ok (QBool [] tqs [] (Some minValue) (Some boost)).

Definition the_operator (name : string) (p : params) : res (option operator) :=
  let op := ToUpper (p_str p "operator") in
  if decide (p_str p "operator" = "") then Ok None
  else if decide (op = "OR") then Ok (Some OpOr)
  else if decide (op = "AND") then Ok (Some OpAnd)
  else Err (error_new "illegal_argument_exception" ("[" +:+ name +:+ "] unknown operator " +:+ op)).

Definition MatchQuery (query : list (string * value)) : res (option bquery) :=
  '(field, p) ← read_single "match" "query" match_spec (new_params minus_one) query;
  zer ← choose_analyzer (p_str p "analyzer") field;
  let msm := p_any p "minimum_should_match" in
  if negb (is_nil msm) && bool_decide (p_str p "operator" = "" ∨ ToUpper (p_str p "operator") = "OR") then
    q ← genQueryWithMinimumShouldMatch zer field p msm; Ok (Some q)
  else
    op ← the_operator "match" p;
    Ok (Some (QMatch field (p_str p "query") zer op
                (the_fuzziness p (p_str p "query") zer) (the_prefix p) (the_boost p))).

(** ** match_phrase, match_phrase_prefix, match_bool_prefix *)

Definition phrase_spec : spec := mkSpec [("query", KString); ("analyzer", KString); ("boost", KFloat)] None.

Definition MatchPhraseQuery (query : list (string * value)) : res (option bquery) :=
  '(field, p) ← read_single "match_phrase" "query" phrase_spec (new_params minus_one) query;
  zer ← choose_analyzer (p_str p "analyzer") field;
  Ok (Some (QMatchPhrase field (p_str p "query") zer (the_boost p))).

Definition MatchPhrasePrefixQuery (query : list (string * value)) : res (option bquery) :=
  '(field, p) ← read_single "match_phrase_prefix" "query" phrase_spec (new_params minus_one) query;
  zer ← choose_analyzer (p_str p "analyzer") field;
  let zer := or_standard zer in
  let tokens := Analyze zer (p_str p "query") in
  let musts :=
    match reverse tokens with
    | [] => []
    | [t] => [Some (QPrefix field t None)]
    | t :: ts => [Some (QPrefix field t None);
                  Some (QMatchPhrase field (TrimSpace (Join " " (reverse ts))) (Some zer) None)]
    end in
  Ok (Some (QBool musts [] [] None (the_boost p))).

Definition MatchBoolPrefixQuery (query : list (string * value)) : res (option bquery) :=
  '(field, p) ← read_single "match_bool_prefix" "query" phrase_spec (new_params minus_one) query;
  zer ← choose_analyzer (p_str p "analyzer") field;
  let tokens := Analyze (or_standard zer) (p_str p "query") in
  let shoulds := imap (λ i t, Some (if decide (i = length tokens - 1) then QPrefix field t None
                                    else QTerm field t None)) tokens in
  Ok (Some (QBool [] shoulds [] None (the_boost p))).

(** ** term *)

(** The value of a term query and its options. *)
Definition read_term (query : list (string * value)) : res (string * params) :=
  let p := new_params minus_one in
  match query with
  | [] => Ok ("", p)
  | [(field, v)] =>
      match v with
      | VStr _ | VFloat _ | VBool _ => Ok (field, set_any "value" v p)
      | VMap m =>
          p ← read_options (mkSpec [("value", KAny); ("case_insensitive", KBool); ("boost", KFloat)] None) p m;
          Ok (field, p)
      | _ => xcontent ("[term] doesn't support values of type: " +:+ type_name v)
      end
  | _ => parsing "[term] query doesn't support multiple fields"
  end.

Definition term_error (what e : string) : string :=
  error_new "x_content_parse_exception" ("[term] convert value to " +:+ what +:+ " error: " +:+ e).

Definition TermQueryNumeric (field : string) (v : value) (boost : option float64) : res bquery :=
  match ToFloat64 ParseFloat v with
  | Ok val => Ok (QNumericRange field val val true true boost)
  | Err e => Err (term_error "numeric" e)
  | Panic p => Panic p
  end.
Definition TermQueryBool (field : string) (v : value) (boost : option float64) : res bquery :=
  match ToBool v with
  | Ok val => Ok (QTerm field (FormatBool val) boost)
  | Err e => Err (term_error "boolean" e)
  | Panic p => Panic p
  end.
Definition TermQueryText (field : string) (v : value) (boost : option float64) : res bquery :=
  match ToString FormatFloat Sprint v with
  | Ok val => Ok (QTerm field val boost)
  | Err e => Err (term_error "string" e)
  | Panic p => Panic p
  end.

Definition TermQuery (query : list (string * value)) : res (option bquery) :=
  '(field, p) ← read_term query;
  let prop := fst (GetProperty mappings field) in
  let v := p_any p "value" in
  q ← (if decide (Type_ prop = "numeric") then TermQueryNumeric field v (the_boost p)
       else if decide (Type_ prop = "bool") then TermQueryBool field v (the_boost p)
       else TermQueryText field v (the_boost p));
  Ok (Some q).

(** ** terms, ids *)

(** The value of a terms query: from JSON, or a [[]string] made by [IdsQuery]. *)
Inductive terms_value := TStrings (vs : list string) | TJson (v : value).

Record terms := mkTerms {
  ts_field : string; ts_strs : list string; ts_floats : list float64; ts_ints : list Z; ts_bools : list bool;
  ts_boost : float64
}.

Definition terms_elem (t : terms) (v : value) : res terms :=
  match v with
  | VStr s => Ok (mkTerms (ts_field t) (ts_strs t ++ [s]) (ts_floats t) (ts_ints t) (ts_bools t) (ts_boost t))
  | VFloat x => Ok (mkTerms (ts_field t) (ts_strs t) (ts_floats t ++ [x]) (ts_ints t) (ts_bools t) (ts_boost t))
  | VInt z => Ok (mkTerms (ts_field t) (ts_strs t) (ts_floats t) (ts_ints t ++ [z]) (ts_bools t) (ts_boost t))
  | VBool b => Ok (mkTerms (ts_field t) (ts_strs t) (ts_floats t) (ts_ints t) (ts_bools t ++ [b]) (ts_boost t))
  | _ => xcontent ("[term] doesn't support values of type: " +:+ type_name v)
  end.

Definition terms_values (t : terms) (field : string) (v : terms_value) : res terms :=
  match v with
  | TStrings vs => Ok (mkTerms field vs (ts_floats t) (ts_ints t) (ts_bools t) (ts_boost t))
  | TJson (VArr vs) =>
      foldM terms_elem (mkTerms field (ts_strs t) (ts_floats t) (ts_ints t) (ts_bools t) (ts_boost t)) vs
  | TJson v => xcontent ("[terms] doesn't support values of type: " +:+ type_name v)
  end.

(** One key of a terms query; only the parser of queries knows [boost]. *)
Definition terms_turn (with_boost : bool) (t : terms) (kv : string * terms_value) : res terms :=
  if with_boost && bool_decide (ToLower kv.1 = "boost") then
    match kv.2 with
    | TJson (VFloat x) => Ok (mkTerms (ts_field t) (ts_strs t) (ts_floats t) (ts_ints t) (ts_bools t) x)
    | _ => Panic PTypeAssert
    end
  else terms_values t kv.1 kv.2.

Definition read_terms (with_boost : bool) (query : list (string * terms_value)) : res terms :=
  if decide (2 < length query) then parsing "[terms] query doesn't support multiple fields"
  else foldM (terms_turn with_boost) (mkTerms "" [] [] [] [] minus_one) query.

Definition TermsQuery (query : list (string * terms_value)) : res (option bquery) :=
  t ← read_terms true query;
  let add one := λ acc v, q ← one (ts_field t) v (Some zero); Ok (acc ++ [Some q]) in
  shoulds ← foldM (add TermQueryText) [] (VStr <$> ts_strs t);
  shoulds ← foldM (add TermQueryNumeric) shoulds (VFloat <$> ts_floats t);
  shoulds ← foldM (add TermQueryNumeric) shoulds (VInt <$> ts_ints t);
  shoulds ← foldM (add TermQueryBool) shoulds (VBool <$> ts_bools t);
  Ok (Some (QBool [] shoulds [] None (if at_least_zero (ts_boost t) then Some (ts_boost t) else None))).

Definition strings_of (vs : list value) : res (list string) :=
  foldM (λ acc v, s ← assert_as as_string v; Ok (acc ++ [s])) [] vs.

(** The ids of an ids query: an array, or an array under the key [value]. *)
Definition ids_option (acc : list string) (kv : string * value) : res (list string) :=
  let k := ToLower kv.1 in
  if decide (k = "value") then
    match kv.2 with
    | VArr vs => strings_of vs
    | v => xcontent ("[ids] " +:+ k +:+ " doesn't support values of type: " +:+ type_name v)
    end
  else Ok acc.

Definition read_ids (query : list (string * value)) : res (list string) :=
  match query with
  | [] => Ok []
  | [(k, v)] =>
      match v with
      | VArr vs => strings_of vs
      | VMap m => foldM ids_option [] m
      | _ => xcontent ("[ids] " +:+ k +:+ " doesn't support values of type: " +:+ type_name v)
      end
  | _ => parsing "[ids] query doesn't support multiple fields"
  end.

Definition IdsQuery (query : list (string * value)) : res (option bquery) :=
  ids ← read_ids query; TermsQuery [("_id", TStrings ids)].

(** * Queries of several fields *)

(** ** multi_match *)

(** The loop over the fields: the analyzer found for one field stays in the
    variable for the fields after it. *)
Fixpoint multi_match_fields (query : string) (op : operator) (zer : option analyzer) (fields : list string)
    : list (option bquery) :=
  match fields with
  | [] => []
  | field :: fields =>
      let zer := match zer with Some z => Some z | None => field_analyzer field end in
      Some (QMatch field query zer (Some op) None None None) :: multi_match_fields query op zer fields
  end.

Definition MultiMatchQuery (query : list (string * value)) : res (option bquery) :=
  p ← read_options
        (mkSpec [("query", KString); ("analyzer", KString); ("fields", KStrings); ("boost", KFloat); ("type", KString);
                 ("operator", KString); ("minimum_should_match", KAny)] None) (new_params minus_one) query;
  let zer := if decide (p_str p "analyzer" ≠ "") then query_analyzer (p_str p "analyzer") else None in
  op ← the_operator "multi_match" p;
  minShould ← match p_any p "minimum_should_match" with
              | VNil => Ok None
              | msm =>
                  match calculateMin (Z.of_nat (length (p_strs p))) msm with
                  | Ok n => Ok (Some n)
                  | Err e => xcontent ("[multi_match] unsupported MinimumShouldMatch value: " +:+ e)
                  | Panic pp => Panic pp
                  end
              end;
  Ok (Some (QBool [] (multi_match_fields (p_str p "query") (default OpOr op) zer (p_strs p)) []
              minShould (the_boost p))).

(** ** query_string *)

(** The text and keyword fields of the mappings, in the order of a traversal. *)
Context (order : map_order string Property).

Definition query_string_fields : list string :=
  omap (λ kp, if decide (Type_ kp.2 = "text" ∨ Type_ kp.2 = "keyword") then Some kp.1 else None)
       (range order mappings).

Definition query_string_analyzer (field : string) : option analyzer :=
  if decide (Type_ (fst (GetProperty mappings field)) = "keyword") then Some (Builtin "keyword")
  else field_analyzer field.

Definition QueryStringQuery (query : list (string * value)) : res (option bquery) :=
  p ← read_options
        (mkSpec [("query", KString); ("analyzer", KString); ("fields", KStrings); ("default_field", KString);
                 ("default_operator", KString); ("boost", KFloat); ("analyze_wildcard", KNoop)]
                (Some (λ k, "[query_string] unsupported children " +:+ k))) (new_params zero) query;
  let zer := or_standard (query_analyzer (p_str p "analyzer")) in
  let fields := if decide (p_strs p = []) then query_string_fields else p_strs p in
  let options := foldl (λ m f, match query_string_analyzer f with Some z => <[f := z]> m | None => m end)
                       (∅ : gmap string analyzer) fields in
  q ← ParseQueryString (p_str p "query") zer options; Ok (Some q).

Definition SimpleQueryStringQuery : list (string * value) → res (option bquery) := QueryStringQuery.

(** ** range *)

(** The bound of a numeric range: only positive numbers count. *)
Definition positive_any (v : value) : option float64 :=
  match v with VFloat x => if above_zero x then Some x else None | _ => None end.

Definition MaxInt64_float : float64 := float_of_Z (2 ^ 63 - 1).

Definition RangeQueryNumeric (field : string) (query : list (string * value)) : res (option bquery) :=
  p ← read_options
        (mkSpec [("gt", KToFloatAny); ("gte", KToFloatAny); ("lt", KToFloatAny); ("lte", KToFloatAny);
                 ("boost", KToFloat)] None) (new_params minus_one) query;
  let bound k := positive_any (p_any p k) in
  let '(min, minInclusive) := match bound "gte" with
                              | Some x => (x, true)
                              | None => (default zero (bound "gt"), false)
                              end in
  let '(max, maxInclusive) := match bound "lte" with
                              | Some x => (x, true)
                              | None => (default zero (bound "lt"), false)
                              end in
  let max := if float_is_zero max then MaxInt64_float else max in
  Ok (Some (QNumericRange field min max minInclusive maxInclusive (the_boost p))).

Definition time_spec : spec :=
  mkSpec [("gt", KAny); ("gte", KAny); ("lt", KAny); ("lte", KAny); ("format", KToString); ("time_zone", KToString);
          ("boost", KToFloat)] None.

(** [time.UnixMilli] as nanoseconds since 1970; [time.Time{}]. *)
Definition UnixMilli (ms : Z) : Z := (ms * 1000000)%Z.
Definition zero_time : Z := ((-62135596800) * seconds)%Z.

Definition parse_in (format text : string) (zone : option location) : res Z :=
  match zone with
  | Some z => match ParseInLocation format text z with inl t => Ok t | inr e => Err e end
  | None => ParseNilLocation format text
  end.

(** The time a bound of a range stands for. *)
Definition range_time (field k format : string) (zone : option location) (v : value) : res Z :=
  let r := if decide (format = "epoch_millis") then
             x ← ToFloat64 ParseFloat v; Ok (UnixMilli (int64_of_float x))
           else parse_in format (ToStr v) zone in
  match r with
  | Err e => xcontent ("[range] " +:+ field +:+ " range." +:+ k +:+ " format err " +:+ e)
  | _ => r
  end.
(** A bound that is nil leaves the time as it is. *)
Definition range_bound (field k format : string) (zone : option location) (v : value) (t : Z) : res Z :=
  if is_nil v then Ok t else range_time field k format zone v.

(** The format and the zone of a range: from the query, the field, or the
    defaults. *)
Definition range_format (field : string) (p : params) : string :=
  let prop := fst (GetProperty mappings field) in
  if decide (p_str p "format" ≠ "") then p_str p "format"
  else if decide (Format prop ≠ "") then Format prop else RFC3339.
Definition range_zone (field : string) (p : params) : res (option location) :=
  let prop := fst (GetProperty mappings field) in
  if decide (p_str p "time_zone" ≠ "") then
    match ParseTimeZone LoadLocation (p_str p "time_zone") with
    | Ok z => Ok (Some z)
    | Err e => xcontent ("[range] " +:+ field +:+ " time_zone parse err " +:+ e)
    | Panic pp => Panic pp
    end
  else if decide (TimeZone prop ≠ "") then
    Ok match ParseTimeZone LoadLocation (TimeZone prop) with Ok z => Some z | _ => None end
  else Ok (Some UTC).

Context (now : Z).

Definition RangeQueryTime (field : string) (query : list (string * value)) : res (option bquery) :=
  p ← read_options time_spec (new_params minus_one) query;
  zone ← range_zone field p;
  let format := range_format field p in
  let bound k t := range_bound field k format zone (p_any p k) t in
  min ← bound "gt" zero_time;
  min ← bound "gte" min;
  max ← bound "lt" zero_time;
  max ← bound "lte" max;
  let max := if IsZero max then now else max in
  Ok (Some (QDateRange field min max (negb (is_nil (p_any p "gte"))) (negb (is_nil (p_any p "lte"))) (the_boost p))).

Definition RangeQuery (query : list (string * value)) : res (option bquery) :=
  match query with
  | [] => Ok None
  | [(field, v)] =>
      match v with
      | VMap vv =>
          let prop := fst (GetProperty mappings field) in
          if decide (Type_ prop = "numeric") then RangeQueryNumeric field vv
          else if decide (Type_ prop = "date" ∨ Type_ prop = "time") then RangeQueryTime field vv
          else xcontent ("[range] " +:+ field +:+ " only support values of [numeric, time], got " +:+ quoted (Type_ prop))
      | _ => parsing ("[range] query doesn't support values of type: " +:+ type_name v)
      end
  | _ => parsing "[range] query doesn't support multiple fields"
  end.

(** * The query DSL *)

(** Queries that are not supported: boosting, combined_fields, exists,
    terms_set, and the geo queries. *)
Definition not_supported (name : string) (query : list (string * value)) : res (option bquery) :=
  Err (error_new "not_implemented" ("[" +:+ name +:+ "] query doesn't support")).
Definition MatchAllQuery (query : list (string * value)) : res (option bquery) := Ok (Some QMatchAll).
Definition MatchNoneQuery (query : list (string * value)) : res (option bquery) := Ok (Some QMatchNone).

Definition as_terms (query : list (string * value)) : list (string * terms_value) := prod_map id TJson <$> query.

(** The cases of the switch of [Query], [bool] apart. *)
Definition leaf_queries : list (string * (list (string * value) → res (option bquery))) :=
  [("boosting", not_supported "boosting"); ("match", MatchQuery); ("match_bool_prefix", MatchBoolPrefixQuery);
   ("match_phrase", MatchPhraseQuery); ("match_phrase_prefix", MatchPhrasePrefixQuery);
   ("multi_match", MultiMatchQuery); ("match_all", MatchAllQuery); ("match_none", MatchNoneQuery);
   ("combined_fields", not_supported "combined_fields"); ("query_string", QueryStringQuery);
   ("simple_query_string", SimpleQueryStringQuery); ("exists", not_supported "exists"); ("ids", IdsQuery);
   ("range", RangeQuery); ("regexp", RegexpQuery); ("prefix", PrefixQuery); ("fuzzy", FuzzyQuery);
   ("wildcard", WildcardQuery); ("term", TermQuery); ("terms", TermsQuery ∘ as_terms);
   ("terms_set", not_supported "terms_set"); ("geo_bounding_box", not_supported "geo_bounding_box");
   ("geo_distance", not_supported "geo_distance"); ("geo_polygon", not_supported "geo_polygon");
   ("geo_shape", not_supported "geo_shape")].

(** ** bool *)

Record bool_query := mkBool {
  b_musts : list (option bquery); b_shoulds : list (option bquery); b_mustNots : list (option bquery);
  b_minimum : value
}.
Definition AddMust (q : option bquery) (b : bool_query) : bool_query :=
  mkBool (b_musts b ++ [q]) (b_shoulds b) (b_mustNots b) (b_minimum b).
Definition AddShould (q : option bquery) (b : bool_query) : bool_query :=
  mkBool (b_musts b) (b_shoulds b ++ [q]) (b_mustNots b) (b_minimum b).
Definition AddMustNot (q : option bquery) (b : bool_query) : bool_query :=
  mkBool (b_musts b) (b_shoulds b) (b_mustNots b ++ [q]) (b_minimum b).

(** The sub-queries under one key: an object, or an array of objects, each added
    in turn; [typ] is the type of the errors. *)
Definition subqueries {S} (Query : value → res (option bquery)) (k typ : string)
    (add : option bquery → S → S) (v : value) (s : S) : res S :=
  let sub s v := q ← caused typ ("[" +:+ k +:+ "] failed to parse field") (Query v); Ok (add q s) in
  match v with
  | VMap _ => sub s v
  | VArr vs => foldM (λ s v, match v with VMap _ => sub s v | _ => Panic PTypeAssert end) s vs
  | _ => xcontent ("[bool] " +:+ k +:+ " doesn't support values of type: " +:+ type_name v)
  end.

Definition bool_turn (Query : value → res (option bquery)) (b : bool_query) (kv : string * value) : res bool_query :=
  let k := ToLower kv.1 in
  if decide (k = "should") then subqueries Query k "x_content_parse_exception" AddShould kv.2 b
  else if decide (k = "must") then subqueries Query k "x_content_parse_exception" AddMust kv.2 b
  else if decide (k = "must_not") then subqueries Query k "x_content_parse_exception" AddMustNot kv.2 b
  else if decide (k = "filter") then
    musts ← subqueries Query k "parsing_exception" (λ q qs, qs ++ [q]) kv.2 [];
    Ok (AddMust (Some (QBool musts [] [] None (Some zero))) b)
  else if decide (k = "minimum_should_match") then
    Ok (mkBool (b_musts b) (b_shoulds b) (b_mustNots b) kv.2)
  else xcontent ("[bool] unknown field [" +:+ k +:+ "]").

Definition bool_finish (b : bool_query) : res (option bquery) :=
  minShould ← match b_minimum b with
              | VNil => Ok None
              | msm => match calculateMin (Z.of_nat (length (b_shoulds b))) msm with
                       | Ok n => Ok (Some n)
                       | Err e => xcontent ("[bool] unsupported MinimumShouldMatch value: " +:+ e)
                       | Panic p => Panic p
                       end
              end;
  Ok (Some (QBool (b_musts b) (b_shoulds b) (b_mustNots b) minShould None)).

Definition BoolQuery (Query : value → res (option bquery)) (query : list (string * value)) : res (option bquery) :=
  b ← foldM (bool_turn Query) (mkBool [] [] [] VNil) query; bool_finish b.

(** ** Query *)

(** The switch over the name of a query. *)
Definition named_query (Query : value → res (option bquery)) (k : string) (v : list (string * value))
    : res (option bquery) :=
  let failed := caused "x_content_parse_exception" ("[" +:+ k +:+ "] failed to parse field") in
  if decide (k = "bool") then failed (BoolQuery Query v)
  else match assoc k leaf_queries with
       | Some h => failed (h v)
       | None => parsing ("[" +:+ k +:+ "] query doesn't support")
       end.

(** One turn of the loop over the keys: the query so far and the last key. *)
Definition query_turn (Query : value → res (option bquery)) (st : option bquery * string) (kt : string * value)
    : res (option bquery * string) :=
  if decide (is_Some (fst st) ∧ snd st ≠ "") then
    parsing ("[" +:+ snd st +:+ "] malformed query, excepted [END_OBJECT] but found [FIELD_NAME] " +:+ kt.1)
  else
    let k := ToLower kt.1 in
    match kt.2 with
    | VMap v => subq ← named_query Query k v; Ok (subq, k)
    | t => parsing ("[" +:+ k +:+ "] query doesn't support value type " +:+ type_name t)
    end.

Fixpoint Query (query : value) : res (option bquery) :=
  match query with
  | VNil => Ok (Some QMatchAll)
  | VMap q => st ← foldM (query_turn Query) (None, "") q; Ok (fst st)
  | _ => Err (error_new "invalid_argument" "query must be a map[string]interface{}")
  end.

(** * Terms of a query, for unified statistics *)

Definition analyzed (field : string) (zer : option analyzer) (query : string) : list Term :=
  NewTerm field <$> Analyze (or_standard zer) query.

Definition MatchQueryTerms (query : list (string * value)) : res (list Term) :=
  let refuse k := (k, KRefuse ("[match] unified search unsupport [" +:+ k +:+ "]")) in
  '(field, p) ← read_single "match" "query"
      (mkSpec [("query", KToString); ("analyzer", KToString); refuse "fuzziness"; refuse "prefix_length"] None)
      (new_params zero) query;
  zer ← choose_analyzer (p_str p "analyzer") field;
  Ok (analyzed field zer (p_str p "query")).

Definition MatchPhraseQueryTerms (query : list (string * value)) : res (list Term) :=
  '(field, p) ← read_single "match_phrase" "query" (mkSpec [("query", KString); ("analyzer", KString)] None)
      (new_params zero) query;
  zer ← choose_analyzer (p_str p "analyzer") field;
  Ok (analyzed field zer (p_str p "query")).

(** The analyzer of a field is looked up and then not used: every field is
    analysed by the standard analyzer. *)
Definition MultiMatchQueryTerms (query : list (string * value)) : res (list Term) :=
  p ← read_options (mkSpec [("query", KString); ("analyzer", KString); ("fields", KStrings)] None)
        (new_params zero) query;
  Ok (concat ((λ field, analyzed field None (p_str p "query")) <$> p_strs p)).

Definition TermQueryTerms (query : list (string * value)) : res (list Term) :=
  '(field, p) ← read_term query;
  let prop := fst (GetProperty mappings field) in
  let v := p_any p "value" in
  let term what (r : res string) :=
    match r with Ok s => Ok [NewTerm field s] | Err e => Err (term_error what e) | Panic pp => Panic pp end in
  if decide (Type_ prop = "numeric") then term "numeric" (prefix_coded <$> ToFloat64 ParseFloat v)
  else if decide (Type_ prop = "bool") then term "numeric" (FormatBool <$> ToBool v)
  else term "string" (ToString FormatFloat Sprint v).

Definition TermsQueryTerms (query : list (string * terms_value)) : res (list Term) :=
  t ← read_terms false query;
  Ok (NewTerm (ts_field t) <$>
        ts_strs t ++ (prefix_coded <$> ts_floats t) ++ (prefix_coded ∘ float_of_Z <$> ts_ints t)
        ++ (FormatBool <$> ts_bools t)).

Definition IdsQueryTerms (query : list (string * value)) : res (list Term) :=
  ids ← read_ids query; Ok (map (NewTerm "_id") ids).

Definition no_terms (query : list (string * value)) : res (list Term) := Ok [].
Definition refused (typ name : string) (query : list (string * value)) : res (list Term) :=
  Err (error_new typ ("[" +:+ name +:+ "] query doesn't support in unified search")).
Definition terms_not_supported (name : string) (query : list (string * value)) : res (list Term) :=
  Err (error_new "not_implemented" ("[" +:+ name +:+ "] query doesn't support")).
Definition MatchBoolPrefixQueryTerms (query : list (string * value)) : res (list Term) :=
  xcontent "[match_bool_prefix] doesn't support in unified search".

Definition leaf_terms : list (string * (list (string * value) → res (list Term))) :=
  [("boosting", terms_not_supported "boosting"); ("match", MatchQueryTerms);
   ("match_bool_prefix", MatchBoolPrefixQueryTerms); ("match_phrase", MatchPhraseQueryTerms);
   ("match_phrase_prefix", refused "parsing_exception" "match_phrase_prefix");
   ("multi_match", MultiMatchQueryTerms); ("match_all", no_terms); ("match_none", no_terms);
   ("combined_fields", terms_not_supported "combined_fields");
   ("query_string", refused "not_implemented" "query_string");
   ("simple_query_string", refused "not_implemented" "query_string"); ("exists", terms_not_supported "exists");
   ("ids", IdsQueryTerms); ("range", refused "parsing_exception" "range");
   ("regexp", refused "parsing_exception" "regexp"); ("prefix", refused "parsing_exception" "prefix");
   ("fuzzy", refused "parsing_exception" "fuzzy"); ("wildcard", refused "parsing_exception" "wildcard");
   ("term", TermQueryTerms); ("terms", TermsQueryTerms ∘ as_terms);
   ("terms_set", terms_not_supported "terms_set"); ("geo_bounding_box", terms_not_supported "geo_bounding_box");
   ("geo_distance", terms_not_supported "geo_distance"); ("geo_polygon", terms_not_supported "geo_polygon");
   ("geo_shape", terms_not_supported "geo_shape")].

(** The sub-queries of a boolean query that affect the score; filters do not. *)
Definition bool_terms_turn (QueryTerms : value → res (list Term)) (result : list Term) (kv : string * value)
    : res (list Term) :=
  let k := ToLower kv.1 in
  if decide (k ∈ ["should"; "must"; "must_not"]) then
    let sub result v :=
      terms ← caused "x_content_parse_exception" ("[" +:+ k +:+ "] failed to parse field") (QueryTerms v);
      Ok (result ++ terms) in
    match kv.2 with
    | VMap _ => sub result kv.2
    | VArr vs => foldM (λ result v, match v with VMap _ => sub result v | _ => Panic PTypeAssert end) result vs
    | v => xcontent ("[bool] " +:+ k +:+ " doesn't support values of type: " +:+ type_name v)
    end
  else Ok result.
Definition BoolQueryTerms (QueryTerms : value → res (list Term)) (query : list (string * value)) : res (list Term) :=
  foldM (bool_terms_turn QueryTerms) [] query.

Definition terms_query_turn (QueryTerms : value → res (list Term)) (st : list Term * string) (kt : string * value)
    : res (list Term * string) :=
  if decide (fst st ≠ [] ∧ snd st ≠ "") then
    parsing ("[" +:+ snd st +:+ "] malformed query, excepted [END_OBJECT] but found [FIELD_NAME] " +:+ kt.1)
  else
    let k := ToLower kt.1 in
    match kt.2 with
    | VMap v =>
        terms ← (if decide (k = "bool") then
                   caused "x_content_parse_exception" ("[" +:+ k +:+ "] failed to parse field") (BoolQueryTerms QueryTerms v)
                 else match assoc k leaf_terms with
                      | Some h => caused "x_content_parse_exception" ("[" +:+ k +:+ "] failed to parse field") (h v)
                      | None => parsing ("[" +:+ k +:+ "] query doesn't support")
                      end);
        Ok (terms, k)
    | t => parsing ("[" +:+ k +:+ "] query doesn't support value type " +:+ type_name t)
    end.

(** [QueryTerms]. *)
Fixpoint QueryTerms (query : value) : res (list Term) :=
  match query with
  | VNil => Ok []
  | VMap q => st ← foldM (terms_query_turn QueryTerms) ([], "") q; Ok (fst st)
  | _ => Err (error_new "invalid_argument" "query must be a map[string]interface{}")
  end.
End query.

(** * What an accepted query consists of *)

Section accepted.
Context {lib : GoLib} {qlib : QueryLib} (analyzers : gset string) (mappings : Mappings)
  (sort_conditions : sorter cond_less) (order : map_order string Property) (now : Z).
Notation Query := (Query analyzers mappings sort_conditions order now).
Notation named_query := (named_query analyzers mappings sort_conditions order now Query).

(** Every entry of an accepted query is accepted; at most one gives a query,
    and that is the result. *)
Lemma query_entries st q st' :
  (is_Some (fst st) → snd st ≠ "") →
  foldM (query_turn analyzers mappings sort_conditions order now Query) st q = Ok st' →
  (q ≠ [] → fst st = None) ∧
  ∀ k t, (k, t) ∈ q → ∃ m r, t = VMap m ∧ named_query (ToLower k) m = Ok r ∧ (r = None ∨ r = fst st').
Proof.
  revert st. induction q as [|[k t] q IH]; intros st Hst H; cbn [foldM] in H.
  { split; [done|]. by intros k t []%elem_of_nil. }
  destruct (query_turn _ _ _ _ _ _ st (k, t)) as [st1| |] eqn:E; cbn in H; try done.
  unfold query_turn in E. cbn [fst snd] in E. case_decide as Hd; [done|].
  assert (fst st = None) as Hnone.
  { destruct (fst st) eqn:Es; [|done]. exfalso. apply Hd. split; [by eexists|]. by apply Hst. }
  split; [done|]. destruct t; try done.
  destruct (named_query (ToLower k) m) as [r| |] eqn:Hn; cbn in E; try done. injection E as <-.
  assert (is_Some r → ToLower k ≠ "") as Hk by (intros Hs Hk; by rewrite Hk in Hn).
  destruct (IH (r, ToLower k)) as [Hr Hall]; [done|done|]. cbn [fst] in Hr.
  intros k0 t0 [He|Hin]%elem_of_cons; [|by apply Hall]. simplify_eq. exists m, r. split_and!; [done|done|].
  destruct q; [right; by simplify_eq/=|left; by apply Hr].
Qed.

Lemma Query_entries q r k t :
  Query (VMap q) = Ok r → (k, t) ∈ q →
  ∃ m r', t = VMap m ∧ named_query (ToLower k) m = Ok r' ∧ (r' = None ∨ r' = r).
Proof.
  cbn [Query.Query]. destruct (foldM _ _ _) as [st| |] eqn:E; cbn; [|done..]. intros [= <-] Hin.
  apply query_entries in E as [_ Hall]; [eauto|]. by intros [? ?].
Qed.

(** ** Clauses of a boolean query *)

(** [u] is the clause [v], or one of the clauses in the array [v]. *)
Definition clause (u v : value) : Prop :=
  match v with VMap _ => u = v | VArr vs => u ∈ vs | _ => False end.

Lemma subqueries_inv {S} (P : S → Prop) (add : option bquery → S → S) Q k typ v s s' :
  P s → (∀ q s, P s → P (add q s)) → subqueries Q k typ add v s = Ok s' → P s'.
Proof.
  intros Hs Ha. unfold subqueries, caused. destruct v as [| | | | | | |vs|m]; try done.
  - apply (foldM_inv P); [done|]. intros s0 v s1 _ H0. destruct v; try done.
    destruct (Q _); cbn; intros; simplify_eq. by apply Ha.
  - destruct (Q _); cbn; intros; simplify_eq. by apply Ha.
Qed.

Section clauses.
Context {S : Type} (add : option bquery → S → S) (mem : option bquery → S → Prop).
Context (mem_add : ∀ q s, mem q (add q s)) (mem_keep : ∀ q q' s, mem q s → mem q (add q' s)).

Lemma subqueries_mem Q k typ v s s' :
  subqueries Q k typ add v s = Ok s' →
  (∀ q, mem q s → mem q s') ∧ ∀ u, clause u v → ∃ q, Q u = Ok q ∧ mem q s'.
Proof.
  unfold subqueries, caused. destruct v as [| | | | | | |vs|m]; try done.
  - revert s. induction vs as [|v vs IH]; intros s; cbn [foldM].
    { intros [= ->]. split; [done|]. by intros u []%elem_of_nil. }
    destruct v; try done. destruct (Q _) as [q| |] eqn:Hq; cbn; try done. intros [Hk Hc]%IH.
    split; [by auto|]. intros u [->|Hu]%elem_of_cons; [|by apply Hc]. eauto.
  - destruct (Q _) as [q| |] eqn:Hq; cbn; try done. intros [= <-]. split; [by auto|]. intros u ->. eauto.
Qed.
End clauses.

(** The clauses that a document must match are among the musts: directly, or
    inside of the query of a filter. *)
Definition must_clause (k : string) (u : value) (musts : list (option bquery)) : Prop :=
  (ToLower k = "must" → ∃ q, Query u = Ok q ∧ q ∈ musts) ∧
  (ToLower k = "filter" → ∃ q qs, Query u = Ok q ∧ q ∈ qs ∧ Some (QBool qs [] [] None (Some zero)) ∈ musts).

Lemma must_clause_mono k u ms ms' : (∀ q, q ∈ ms → q ∈ ms') → must_clause k u ms → must_clause k u ms'.
Proof. intros Hs [Hm Hf]. split; [intros (q & ? & ?)%Hm|intros (q & qs & ? & ? & ?)%Hf]; eauto 6. Qed.

Lemma bool_turn_musts b k v b' :
  bool_turn Query b (k, v) = Ok b' →
  (∀ q, q ∈ b_musts b → q ∈ b_musts b') ∧ ∀ u, clause u v → must_clause k u (b_musts b').
Proof.
  unfold bool_turn, must_clause. cbn [fst snd]. intros H.
  case_decide; [|case_decide; [|case_decide; [|case_decide as Hf; [|case_decide]]]].
  - assert (b_musts b' = b_musts b) as ->.
    { revert H. by apply (subqueries_inv (λ s, b_musts s = b_musts b)). }
    split; [done|]. intros u _. split; intros; congruence.
  - apply (subqueries_mem AddMust (λ q s, q ∈ b_musts s)) in H as [Hk Hc]; [|set_solver..].
    split; [done|]. intros u Hu. split; [|intros; congruence]. by intros _; apply Hc.
  - assert (b_musts b' = b_musts b) as ->.
    { revert H. by apply (subqueries_inv (λ s, b_musts s = b_musts b)). }
    split; [done|]. intros u _. split; intros; congruence.
  - destruct (subqueries _ _ _ _ _ _) as [qs| |] eqn:E; cbn in H; simplify_eq. cbn.
    apply (subqueries_mem _ (λ q qs, q ∈ qs)) in E as [_ Hc]; [|set_solver..].
    split; [set_solver|]. intros u Hu. split; [intros; congruence|].
    intros _. destruct (Hc u Hu) as (q & ? & ?). exists q, qs. split_and!; [done|done|set_solver].
  - simplify_eq/=. split; [done|]. intros u _. split; intros; congruence.
  - done.
Qed.

Lemma bool_turns_musts b m b' :
  foldM (bool_turn Query) b m = Ok b' →
  (∀ q, q ∈ b_musts b → q ∈ b_musts b') ∧
  ∀ k v u, (k, v) ∈ m → clause u v → must_clause k u (b_musts b').
Proof.
  revert b. induction m as [|[k v] m IH]; intros b; cbn [foldM].
  { intros [= ->]. split; [done|]. by intros k v u []%elem_of_nil. }
  destruct (bool_turn Query b (k, v)) as [b1| |] eqn:E; cbn; try done.
  intros [Hk Hc]%IH. apply bool_turn_musts in E as [Hk1 Hc1]. split; [by auto|].
  intros k0 v0 u [He|Hin]%elem_of_cons Hu; [|by eapply Hc]. simplify_eq.
  apply (must_clause_mono _ _ (b_musts b1)); auto.
Qed.

(** The query of an accepted [bool]. *)
Lemma BoolQuery_musts m r :
  BoolQuery sort_conditions Query m = Ok r →
  ∃ ms ss ns mn, r = Some (QBool ms ss ns mn None) ∧
  ∀ k v u, (k, v) ∈ m → clause u v → must_clause k u ms.
Proof.
  unfold BoolQuery. destruct (foldM _ _ _) as [b| |] eqn:E; cbn; try done.
  apply bool_turns_musts in E as [_ Hc]. unfold bool_finish.
  destruct (match b_minimum b with VNil => _ | _ => _ end) as [mn| |]; cbn; try done.
  intros [= <-]. by exists (b_musts b), (b_shoulds b), (b_mustNots b), mn.
Qed.

Lemma caused_ok {A} typ reason (r : res A) a : caused typ reason r = Ok a → r = Ok a.
Proof. by destruct r. Qed.
End accepted.

(** The size of a value, for inductions that go from a query to its clauses. *)
Fixpoint vsize (v : value) : nat :=
  match v with
  | VArr vs => S (sum_list_with vsize vs)
  | VMap m => S (sum_list_with (λ kv, vsize kv.2) m)
  | _ => 0
  end.

Lemma sum_list_with_elem {A} (f : A → nat) x xs : x ∈ xs → f x ≤ sum_list_with f xs.
Proof. induction 1; cbn; lia. Qed.
Lemma vsize_clause u v : clause u v → vsize u ≤ vsize v.
Proof.
  destruct v as [| | | | | | |vs|m]; cbn [clause]; try done; [|by intros ->].
  intros Hu. cbn. pose proof (sum_list_with_elem vsize u vs Hu). lia.
Qed.
Lemma vsize_entry k v m : (k, v) ∈ m → vsize v < vsize (VMap m).
Proof. intros Hin. cbn. pose proof (sum_list_with_elem (λ kv : string * value, vsize kv.2) _ _ Hin). cbn in *. lia. Qed.

(** Conditions can be sorted. *)
Definition condition_sorter : sorter cond_less.
Proof.
  refine (Sorter (λ l, reverse (sort_slice (key_sorter condition) l)) _ _).
  - intros l. by rewrite reverse_Permutation, sort_slice_perm.
  - intros l. pose proof (sort_slice_sorted (key_sorter condition) l) as Hs. revert Hs.
    induction (sort_slice (key_sorter condition) l) as [|c cs IH]; [constructor|].
    intros [Hs Hall]%StronglySorted_inv. rewrite reverse_cons.
    apply StronglySorted_app_2; [|by apply IH|repeat constructor].
    intros a b Ha Hb. apply list_elem_of_singleton in Hb as ->. rewrite elem_of_reverse in Ha.
    rewrite Forall_forall in Hall. exact (Hall a Ha).
Defined.
