(* ===== verification/QueryTheorems.v ===== *)
(** The query parser (pkg/uquery/query): what it accepts, the number of clauses
    that must match, and where it does not do what the DSL means. *)
From stdpp Require Import functions.
From Stdlib Require Import SpecFloat Wf_nat.
From S2P Require Import Prelude Hash Strconv Value Document Query.
Import Meta.

(** * Queries without nil *)

(** The engine calls every clause of a boolean query: a query is complete when
    no clause in it is nil. *)
Fixpoint complete (q : bquery) : bool :=
  let clauses := forallb (λ o, match o with Some q => complete q | None => false end) in
  match q with
  | QBool musts shoulds mustNots _ _ => clauses musts && clauses shoulds && clauses mustNots
  | _ => true
  end.
Definition all_complete (qs : list (option bquery)) : Prop := Forall (λ o, ∃ q, o = Some q ∧ complete q = true) qs.

(** An object that names a query, and so do the clauses of its boolean queries;
    a range names a field. *)
Fixpoint names_query (v : value) : bool :=
  match v with
  | VNil => true
  | VMap q =>
      bool_decide (q ≠ []) &&
      forallb (λ kt, match kt.2 with
                     | VMap m =>
                         if decide (ToLower kt.1 = "bool") then
                           forallb (λ kv, if decide (ToLower kv.1 ∈ ["should"; "must"; "must_not"; "filter"])
                                          then match kv.2 with
                                               | VMap _ => names_query kv.2
                                               | VArr vs => forallb names_query vs
                                               | _ => true
                                               end
                                          else true) m
                         else if decide (ToLower kt.1 = "range") then bool_decide (m ≠ [])
                         else true
                     | _ => true
                     end) q
  | _ => true
  end.

Lemma all_complete_forallb qs :
  forallb (λ o, match o with Some q => complete q | None => false end) qs = true ↔ all_complete qs.
Proof.
  unfold all_complete. rewrite forallb_forall, Forall_forall. split.
  - intros H o Ho%list_elem_of_In%H. destruct o; [eauto|done].
  - intros H o (q & -> & Hq)%list_elem_of_In%H. done.
Qed.
Lemma complete_bool ms ss ns mn b :
  complete (QBool ms ss ns mn b) = true ↔ all_complete ms ∧ all_complete ss ∧ all_complete ns.
Proof.
  cbn [complete]. rewrite !andb_true_iff, !all_complete_forallb. tauto.
Qed.
Lemma all_complete_snoc qs q : all_complete qs → complete q = true → all_complete (qs ++ [Some q]).
Proof. intros H Hq. apply Forall_app. split; [done|]. constructor; [eauto|constructor]. Qed.

Section complete.
Context {lib : GoLib} {qlib : QueryLib} (analyzers : gset string) (mappings : Mappings)
  (sort_conditions : sorter cond_less) (order : map_order string Property) (now : Z).
Context (query_string_complete : ∀ s z m q, ParseQueryString s z m = Ok q → complete q = true).
Notation parse := (Query.Query analyzers mappings sort_conditions order now).

(** A handler whose queries are complete. *)
Definition yields_complete (r : res (option bquery)) : Prop :=
  ∀ o, r = Ok o → ∃ q, o = Some q ∧ complete q = true.

Lemma yields_bind {A} (r : res A) (f : A → res (option bquery)) :
  (∀ a, r = Ok a → yields_complete (f a)) → yields_complete (r ≫= f).
Proof. intros H o. destruct r as [a| |] eqn:E; cbn; try done. by apply H. Qed.
Lemma yields_ok q : complete q = true → yields_complete (Ok (Some q)).
Proof. intros H o [= <-]. eauto. Qed.
Lemma yields_err e : yields_complete (Err e).
Proof. by intros o. Qed.
Lemma yields_panic p : yields_complete (Panic p).
Proof. by intros o. Qed.

Lemma all_complete_fmap {A} (f : A → bquery) xs :
  (∀ x, complete (f x) = true) → all_complete ((λ x, Some (f x)) <$> xs).
Proof. intros H. apply Forall_fmap, Forall_true. intros x. cbn. eauto. Qed.
Lemma all_complete_imap {A} (f : nat → A → bquery) xs :
  (∀ i x, complete (f i x) = true) → all_complete (imap (λ i x, Some (f i x)) xs).
Proof.
  intros H. apply Forall_forall. intros o (i & x & -> & _)%elem_of_lookup_imap_1. eauto.
Qed.

Ltac yields :=
  repeat first [ apply yields_bind; intros ? _ | apply yields_ok; reflexivity | apply yields_err | apply yields_panic
               | case_match ].

Lemma MatchQuery_complete m : yields_complete (MatchQuery analyzers mappings sort_conditions m).
Proof.
  unfold MatchQuery. apply yields_bind. intros [field p] _. apply yields_bind. intros zer _.
  case_match; [|yields]. apply yields_bind. intros q Hq. apply yields_ok. revert Hq.
  unfold genQueryWithMinimumShouldMatch. destruct (decide (Analyze _ _ = [])); [intros; by simplify_eq|].
  destruct (calculateMin _ _ _); cbn; try done. intros ?; simplify_eq. apply complete_bool.
  split_and!; [constructor| |constructor]. apply all_complete_fmap. intros t. by case_match.
Qed.

Lemma MatchPhrasePrefixQuery_complete m : yields_complete (MatchPhrasePrefixQuery analyzers mappings m).
Proof.
  unfold MatchPhrasePrefixQuery. apply yields_bind. intros [field p] _. apply yields_bind. intros zer _.
  apply yields_ok, complete_bool. split_and!; [|constructor..]. repeat case_match; repeat constructor; eauto.
Qed.

Lemma MatchBoolPrefixQuery_complete m : yields_complete (MatchBoolPrefixQuery analyzers mappings m).
Proof.
  unfold MatchBoolPrefixQuery. apply yields_bind. intros [field p] _. apply yields_bind. intros zer _.
  apply yields_ok, complete_bool. split_and!; [constructor| |constructor].
  apply all_complete_imap. intros i t. by case_decide.
Qed.

Lemma multi_match_fields_complete q op zer fs : all_complete (multi_match_fields analyzers mappings q op zer fs).
Proof. revert zer. induction fs as [|f fs IH]; intros zer; cbn; constructor; [eauto|apply IH]. Qed.

Lemma MultiMatchQuery_complete m : yields_complete (MultiMatchQuery analyzers mappings sort_conditions m).
Proof.
  unfold MultiMatchQuery. do 3 (apply yields_bind; intros ? _). apply yields_ok, complete_bool.
  split_and!; [constructor|apply multi_match_fields_complete|constructor].
Qed.

(** Terms give clauses one by one. *)
Lemma add_terms_complete (one : string → value → option float64 → res bquery) field acc acc' vs :
  (∀ v q, one field v (Some zero) = Ok q → complete q = true) → all_complete acc →
  foldM (λ acc v, q ← one field v (Some zero); Ok (acc ++ [Some q])) acc vs = Ok acc' → all_complete acc'.
Proof.
  intros Hone Hacc. apply (foldM_inv all_complete); [done|]. intros a v a' _ Ha.
  destruct (one field v (Some zero)) eqn:E; cbn; intros; simplify_eq. apply all_complete_snoc; eauto.
Qed.

Lemma term_query_complete (field : string) (v : value) (b : option float64) q :
  TermQueryText field v b = Ok q ∨ TermQueryNumeric field v b = Ok q ∨ TermQueryBool field v b = Ok q →
  complete q = true.
Proof.
  unfold TermQueryText, TermQueryNumeric, TermQueryBool.
  intros [H|[H|H]]; revert H; case_match; intros; by simplify_eq.
Qed.

Lemma TermsQuery_complete m : yields_complete (TermsQuery m).
Proof.
  unfold TermsQuery. do 5 (apply yields_bind; intros ? ?). apply yields_ok, complete_bool.
  split_and!; [constructor| |constructor].
  repeat (eapply add_terms_complete; [| |eassumption]; [eauto 7 using term_query_complete|]). constructor.
Qed.

Lemma TermQuery_complete m : yields_complete (TermQuery mappings m).
Proof.
  unfold TermQuery. apply yields_bind. intros [field p] _. apply yields_bind. intros q Hq. apply yields_ok.
  revert Hq. repeat case_decide; intros; eapply term_query_complete; eauto.
Qed.

Lemma RangeQuery_complete m : m ≠ [] → yields_complete (RangeQuery mappings now m).
Proof.
  intros Hm. unfold RangeQuery, RangeQueryNumeric, RangeQueryTime. destruct m as [|[f v] [|]]; [done|yields|yields].
Qed.

Lemma leaf_complete k h m :
  assoc k (leaf_queries analyzers mappings sort_conditions order now) = Some h → (k = "range" → m ≠ []) →
  yields_complete (h m).
Proof.
  assert (Forall (λ kh : string * _, ∀ m, (kh.1 = "range" → m ≠ []) → yields_complete (kh.2 m))
            (leaf_queries analyzers mappings sort_conditions order now)) as Hall.
  { unfold leaf_queries. repeat (apply Forall_cons; split); [..|by apply Forall_nil]; intros m' Hm; cbn [fst snd] in *;
      try (by apply yields_err).
    - apply MatchQuery_complete.
    - apply MatchBoolPrefixQuery_complete.
    - unfold MatchPhraseQuery. yields.
    - apply MatchPhrasePrefixQuery_complete.
    - apply MultiMatchQuery_complete.
    - by apply yields_ok.
    - by apply yields_ok.
    - unfold QueryStringQuery. apply yields_bind. intros p _. apply yields_bind. intros q Hq. apply yields_ok. eauto.
    - unfold SimpleQueryStringQuery, QueryStringQuery. apply yields_bind. intros p _. apply yields_bind.
      intros q Hq. apply yields_ok. eauto.
    - unfold IdsQuery. apply yields_bind. intros ids _. apply TermsQuery_complete.
    - by apply RangeQuery_complete, Hm.
    - unfold RegexpQuery. yields.
    - unfold PrefixQuery. yields.
    - unfold FuzzyQuery. yields.
    - unfold WildcardQuery. yields.
    - apply TermQuery_complete.
    - apply TermsQuery_complete. }
  rewrite Forall_forall in Hall. intros Hk Hm. apply (Hall (k, h)); [|done]. clear -Hk.
  induction (leaf_queries analyzers mappings sort_conditions order now) as [|[k' h'] l IH]; [done|]. cbn in Hk.
  case_decide; simplify_eq; [left|right; auto].
Qed.

Lemma subqueries_complete {S} (P : S → Prop) (add : option bquery → S → S) k typ v s s' :
  (∀ u, clause u v → names_query u = true → yields_complete (parse u)) →
  match v with VMap _ => names_query v | VArr vs => forallb names_query vs | _ => true end = true →
  (∀ q s, P s → complete q = true → P (add (Some q) s)) → P s →
  subqueries parse k typ add v s = Ok s' → P s'.
Proof.
  intros Hu Hv Ha Hs. unfold subqueries, caused. destruct v as [| | | | | | |vs|m]; try done.
  - apply (foldM_inv P); [done|]. intros s0 v s1 Hin H0. rewrite forallb_forall in Hv.
    pose proof (Hu v Hin (Hv v ltac:(by apply list_elem_of_In))) as Hy. destruct v; try done.
    destruct (parse _) as [o| |] eqn:E; cbn; intros; simplify_eq. destruct (Hy o eq_refl) as (q & -> & Hq). by apply Ha.
  - pose proof (Hu _ eq_refl Hv) as Hy. destruct (parse _) as [o| |] eqn:E; cbn; intros; simplify_eq.
    destruct (Hy o eq_refl) as (q & -> & Hq). by apply Ha.
Qed.

(** The clauses gathered so far are complete. *)
Definition clauses_complete (b : bool_query) : Prop :=
  all_complete (b_musts b) ∧ all_complete (b_shoulds b) ∧ all_complete (b_mustNots b).

Lemma bool_turn_complete b k v b' :
  (∀ u, clause u v → names_query u = true → yields_complete (parse u)) →
  (ToLower k ∈ ["should"; "must"; "must_not"; "filter"] →
   match v with VMap _ => names_query v | VArr vs => forallb names_query vs | _ => true end = true) →
  clauses_complete b → bool_turn parse b (k, v) = Ok b' → clauses_complete b'.
Proof.
  intros Hu Hv Hb. unfold bool_turn. cbn [fst snd].
  case_decide as H1; [specialize (Hv ltac:(rewrite H1; set_solver))
  |case_decide as H2; [specialize (Hv ltac:(rewrite H2; set_solver))
  |case_decide as H3; [specialize (Hv ltac:(rewrite H3; set_solver))
  |case_decide as H4; [specialize (Hv ltac:(rewrite H4; set_solver))|case_decide as H5]]]].
  - apply (subqueries_complete clauses_complete); try done; intros q s (?&?&?) ?; split_and!; try done; by apply all_complete_snoc.
  - apply (subqueries_complete clauses_complete); try done; intros q s (?&?&?) ?; split_and!; try done; by apply all_complete_snoc.
  - apply (subqueries_complete clauses_complete); try done; intros q s (?&?&?) ?; split_and!; try done; by apply all_complete_snoc.
  - destruct (subqueries _ _ _ _ _ _) as [qs| |] eqn:E; cbn; try done. intros [= <-].
    apply (subqueries_complete all_complete) in E; [|done|done|by intros; apply all_complete_snoc|constructor].
    destruct Hb as (?&?&?). split_and!; try done. apply all_complete_snoc; [done|]. apply complete_bool.
    split_and!; [done|constructor..].
  - intros [= <-]. done.
  - done.
Qed.

Lemma BoolQuery_complete m :
  (∀ k v u, (k, v) ∈ m → clause u v → names_query u = true → yields_complete (parse u)) →
  forallb (λ kv, if decide (ToLower kv.1 ∈ ["should"; "must"; "must_not"; "filter"])
                 then match kv.2 with
                      | VMap _ => names_query kv.2 | VArr vs => forallb names_query vs | _ => true
                      end
                 else true) m = true →
  yields_complete (BoolQuery sort_conditions parse m).
Proof.
  intros Hu Hm. unfold BoolQuery. apply yields_bind. intros b Hb. unfold bool_finish. apply yields_bind.
  intros mn _. apply yields_ok, complete_bool. fold (clauses_complete b).
  revert Hb. apply (foldM_inv clauses_complete); [by repeat constructor|].
  intros b0 [k v] b1 Hin H0 H1. eapply bool_turn_complete; [|intros Hk|exact H0|exact H1].
  - intros u. by apply (Hu k).
  - rewrite forallb_forall in Hm. specialize (Hm (k, v) ltac:(by apply list_elem_of_In)). cbn [fst snd] in Hm.
    by rewrite decide_True in Hm.
Qed.

Lemma named_query_complete k m :
  (∀ k' v u, (k', v) ∈ m → clause u v → names_query u = true → yields_complete (parse u)) →
  names_query (VMap [(k, VMap m)]) = true →
  yields_complete (named_query analyzers mappings sort_conditions order now parse (ToLower k) m).
Proof.
  intros Hu Hn o. cbn [names_query forallb fst snd] in Hn. rewrite bool_decide_true in Hn by done.
  rewrite !andb_true_r, andb_true_l in Hn. unfold named_query. case_decide as Hk.
  - intros Ho%caused_ok. by apply (BoolQuery_complete m Hu).
  - destruct (assoc _ _) as [h|] eqn:Eh; [|done]. intros Ho%caused_ok.
    apply (leaf_complete _ _ m Eh); [|done]. intros Hr. rewrite decide_True in Hn by done.
    by apply bool_decide_eq_true in Hn.
Qed.

Lemma Query_complete v : names_query v = true → yields_complete (parse v).
Proof.
  induction v as [v IH] using (induction_ltof1 _ vsize). unfold ltof in IH. intros Hn r Hr.
  destruct v as [| | | | | | | |q]; try done; [injection Hr as <-; eauto|].
  destruct q as [|[k t] q']; [done|]. set (q := (k, t) :: q') in *.
  assert ((k, t) ∈ q) as Hin by left. pose proof (vsize_entry _ _ _ Hin) as Hlt.
  destruct (Query_entries _ _ _ _ _ _ _ _ _ Hr Hin) as (m & r' & -> & Hm & Hr').
  assert (∃ c, r' = Some c ∧ complete c = true) as (c & -> & Hc).
  { revert r' Hm Hr'. intros r' Hm _. revert r' Hm. apply named_query_complete.
    - intros k' v u Hv Hu Hnu. apply IH; [|done]. pose proof (vsize_entry _ _ _ Hv). pose proof (vsize_clause _ _ Hu). lia.
    - cbn [names_query] in Hn |- *. apply andb_true_iff in Hn as [_ Hn]. unfold q in Hn. cbn [forallb] in Hn |- *.
      apply andb_true_iff in Hn as [Hn _]. rewrite bool_decide_true by done. cbn [fst snd] in *. by rewrite Hn. }
  destruct Hr' as [?| <-]; [done|]. eauto.
Qed.
End complete.

(** C30: What the parser accepts can be executed: when every object that should
    be a query names one (and every range a field), an accepted query is not nil
    and neither is any clause of its boolean queries, at any depth, as long as
    the parser of query strings gives such queries. *)
Theorem accepted_queries_are_complete {lib : GoLib} {qlib : QueryLib} (analyzers : gset string) (mappings : Mappings)
    (sort_conditions : sorter cond_less) (order : map_order string Property) (now : Z) (v : value) (r : option bquery) :
  (∀ s z m q, ParseQueryString s z m = Ok q → complete q = true) →
  names_query v = true → Query.Query analyzers mappings sort_conditions order now v = Ok r →
  ∃ q, r = Some q ∧ complete q = true.
Proof. intros Hqs Hn Hr. by apply (Query_complete analyzers mappings sort_conditions order now Hqs v Hn r). Qed.

(** An empty object in place of a clause is accepted and becomes a nil
    clause, which the engine calls: the query [{bool: {must: {}}}] is parsed
    without an error to a boolean query that is not complete. *)
Theorem empty_clause_is_nil {lib : GoLib} {qlib : QueryLib} (analyzers : gset string) (mappings : Mappings)
    (sort_conditions : sorter cond_less) (order : map_order string Property) (now : Z) :
  Query.Query analyzers mappings sort_conditions order now (VMap [("bool", VMap [("must", VMap [])])]) =
    Ok (Some (QBool [None] [] [] None None)) ∧ complete (QBool [None] [] [] None None) = false.
Proof. split; reflexivity. Qed.

(** * minimum_should_match *)

(** The condition that decides for a number of clauses: the one with the largest
    threshold below it; when every threshold is at least the number, all clauses
    must match. *)
Definition decides (subCount : Z) (cs : list combination) (n : Z) : Prop :=
  (∀ c, c ∈ cs → subCount ≤ condition c)%Z ∧ n = subCount ∨
  ∃ c, c ∈ cs ∧ (condition c < subCount)%Z ∧
       (∀ c', c' ∈ cs → condition c' < subCount → condition c' ≤ condition c)%Z ∧ n = count c.

Lemma first_condition_decides subCount cs :
  cs ≠ [] → StronglySorted (λ a b, cond_less b a = false) cs →
  ∃ n, first_condition subCount cs = Some n ∧ decides subCount cs n.
Proof.
  induction cs as [|c cs IH]; [done|]. intros _ [Hs Hall]%StronglySorted_inv.
  rewrite Forall_forall in Hall. assert (∀ c', c' ∈ cs → condition c ≤ condition c')%Z as Hle.
  { intros c' Hc'. specialize (Hall c' Hc'). by apply Z.ltb_ge in Hall. }
  cbn [first_condition]. case_decide as Hc.
  { exists subCount. split; [done|]. left. split; [|done].
    intros c' [->|Hin%Hle]%elem_of_cons; lia. }
  destruct cs as [|next cs].
  { exists (count c). split; [done|]. right. exists c. split_and!; [left|lia| |done].
    intros c' ->%list_elem_of_singleton. lia. }
  case_decide as Hn.
  - exists (count c). split; [done|]. right. exists c. split_and!; [left|lia| |done].
    intros c' [->|Hin]%elem_of_cons Hlt; [lia|]. exfalso.
    apply StronglySorted_inv in Hs as [_ Hs]. rewrite Forall_forall in Hs.
    apply elem_of_cons in Hin as [->|Hin]; [lia|]. specialize (Hs c' Hin). apply Z.ltb_ge in Hs. lia.
  - destruct IH as (n & Hf & Hd); [done|done|]. exists n. split; [done|].
    destruct Hd as [[Hge ->]|(b & Hb & Hlt & Hmax & ->)].
    + exfalso. specialize (Hge next ltac:(left)). lia.
    + right. exists b. split_and!; [by right|done| |done].
      intros c' [->|Hin]%elem_of_cons Hc'; [by apply Hle|by apply Hmax].
Qed.

Lemma clamp_ok subCount n : (0 < subCount)%Z →
  ∃ m, clamp subCount (Ok n) = Ok m ∧ (1 ≤ m ≤ subCount)%Z ∧ m = (Z.max 1 (Z.min subCount n))%Z.
Proof. intros H. eexists. split; [reflexivity|]. repeat case_decide; lia. Qed.

(** A [minimum_should_match] of several conditions is decided by the one
    with the largest threshold below the number of clauses, and by none (all
    clauses must match) when no threshold is below; the result is always between
    one and the number of clauses.  This holds in whatever order the conditions
    are written and sorted. *)
Theorem minimum_should_match_decides {lib : GoLib} {qlib : QueryLib} (sort_conditions : sorter cond_less)
    (subCount : Z) (x : string) (cs : list combination) :
  (0 < subCount)%Z → 1 < length (Split " " x) →
  Forall2 (λ part c, ∃ m, FindStringSubmatch part = Some m ∧ parse_condition subCount m = Ok c) (Split " " x) cs →
  ∃ n k, calculateMin sort_conditions subCount (VStr x) = Ok n ∧
         decides subCount cs k ∧ n = (Z.max 1 (Z.min subCount k))%Z ∧ (1 ≤ n ≤ subCount)%Z.
Proof.
  intros Hpos Hlen Hcs. unfold calculateMin. rewrite decide_False by lia. rewrite decide_True by done.
  unfold calculateMin_list. rewrite decide_False by lia. generalize (invalid_minimum (Split " " x)) as err. intros err.
  assert (∀ acc, foldM (λ acc str, match FindStringSubmatch str with
                                   | Some m => c ← parse_condition subCount m; Ok (acc ++ [c])
                                   | None => Err err
                                   end) acc (Split " " x) = Ok (acc ++ cs)) as Hfold.
  { clear Hlen. induction Hcs as [|part c parts cs (m & Hm & Hc) _ IH]; intros acc; cbn; [by rewrite app_nil_r|].
    rewrite Hm, Hc. cbn. rewrite IH. by rewrite <-app_assoc. }
  rewrite Hfold. cbn [mbind res_bind app].
  destruct (first_condition_decides subCount (sort_slice sort_conditions cs)) as (k & -> & Hk).
  { intros Hnil. pose proof (sort_slice_perm sort_conditions cs) as Hp. rewrite Hnil in Hp.
    apply Permutation_nil_l in Hp. subst cs. apply Forall2_length in Hcs. cbn in Hcs. lia. }
  { apply sort_slice_sorted. }
  destruct (clamp_ok subCount k Hpos) as (m & -> & Hm & ->).
  destruct (clamp_ok subCount (Z.max 1 (Z.min subCount k)) Hpos) as (m' & -> & Hm' & ->).
  eexists _, k. split; [done|]. split_and!; [|lia..].
  pose proof (sort_slice_perm sort_conditions cs) as Hp. unfold decides in *. by setoid_rewrite Hp in Hk.
Qed.

(** * Where the parser differs from the DSL *)

(** The bounds of a numeric range that are not positive are dropped: a range
    between two negative numbers, or up to one, becomes the range of all
    positive numbers. *)
Theorem negative_bounds_dropped {lib : GoLib} {qlib : QueryLib} (analyzers : gset string) (mappings : Mappings)
    (sort_conditions : sorter cond_less) (order : map_order string Property) (now : Z)
    (field : string) (prop : Property) (x y : float64) :
  mappings !! field = Some prop → Type_ prop = "numeric" → above_zero x = false → above_zero y = false →
  Query.Query analyzers mappings sort_conditions order now
    (VMap [("range", VMap [(field, VMap [("gte", VFloat x); ("lte", VFloat y)])])]) =
  Ok (Some (QNumericRange field zero MaxInt64_float false false None)).
Proof.
  intros Hp Ht Hx Hy.
  assert (RangeQuery mappings now [(field, VMap [("gte", VFloat x); ("lte", VFloat y)])] =
          Ok (Some (QNumericRange field zero MaxInt64_float false false None))) as Hr.
  { unfold RangeQuery, GetProperty. rewrite Hp. cbn [fst default]. rewrite decide_True by done. unfold RangeQueryNumeric.
    match goal with |- context [read_options ?sp ?p ?m] =>
      change (read_options sp p m) with (Ok (set_any "lte" (VFloat y) (set_any "gte" (VFloat x) (new_params minus_one)))) end.
    cbn [mbind res_bind]. set (p := set_any "lte" _ _).
    change (the_boost p) with (@None float64). change (p_any p "gte") with (VFloat x). change (p_any p "lte") with (VFloat y).
    change (p_any p "gt") with VNil. change (p_any p "lt") with VNil. cbn [positive_any]. by rewrite Hx, Hy. }
  cbn [Query.Query foldM]. unfold query_turn. cbn [fst snd]. rewrite decide_False by (by intros [[] ?]).
  unfold named_query. rewrite decide_False by done.
  change (assoc (ToLower "range") (leaf_queries analyzers mappings sort_conditions order now)) with
    (Some (RangeQuery mappings now)). cbn beta iota. by rewrite Hr.
Qed.

(** The clauses of a terms query are made from a struct whose [Boost] is 0 and
    not -1, so that each of them is boosted by 0: terms never affect the score. *)
Theorem terms_never_score {lib : GoLib} (field : string) (strs : list string) (q : bquery) :
  TermsQuery [(field, TStrings strs)] = Ok (Some q) →
  q = QBool [] ((λ s, Some (QTerm field s (Some zero))) <$> strs) [] None None.
Proof.
  unfold TermsQuery.
  unfold read_terms. rewrite decide_False by (cbn; lia). cbn [foldM]. unfold terms_turn. cbn [fst snd andb].
  case_bool_decide; [done|]. cbn [terms_values mbind res_bind ts_floats ts_ints ts_bools ts_boost ts_strs ts_field fmap list_fmap].
  assert (∀ acc, foldM (λ acc v, q0 ← TermQueryText field v (Some zero); Ok (acc ++ [Some q0])) acc (VStr <$> strs) =
                 Ok (acc ++ ((λ s, Some (QTerm field s (Some zero))) <$> strs))) as Hfold.
  { clear. induction strs as [|s strs IH]; intros acc; cbn; [by rewrite app_nil_r|]. rewrite IH. by rewrite <-app_assoc. }
  rewrite Hfold. cbn. by intros [= <-].
Qed.

(** The analyzer found for the first field of a [multi_match] is used for the
    fields after it, whatever their own. *)
Theorem multi_match_keeps_analyzer {lib : GoLib} {qlib : QueryLib} (analyzers : gset string) (mappings : Mappings)
    (query f g : string) (op : operator) (z : analyzer) :
  field_analyzer analyzers mappings f = Some z →
  multi_match_fields analyzers mappings query op None [f; g] =
  [Some (QMatch f query (Some z) (Some op) None None None); Some (QMatch g query (Some z) (Some op) None None None)].
Proof. intros Hf. cbn. by rewrite Hf. Qed.

(** * Concrete runs *)

Module QueryDemo.

#[local] Instance query_lib : GoLib := {|
  FormatFloat _ := "1.5";
  ParseFloat _ := inr "invalid syntax";
  Sprint _ := "<v>";
  ParseInLocation _ s _ := inr "bad date";
  LoadLocation name := inr ("unknown time zone " +:+ name)
|}.
#[local] Instance query_qlib : QueryLib := {|
  ParseFloat_value _ := zero; ParseNilLocation _ _ := Err "no location"; Analyze _ s := Split " " s;
  ParseQueryString _ _ _ := Ok QMatchAll; prefix_coded _ := ""
|}.

Definition demo_fields : Mappings :=
  <["title" := NewProperty "text"]> (<["price" := NewProperty "numeric"]> ∅).

(** A query with nested boolean clauses. *)
Definition demo_query : value :=
  VMap [("bool", VMap
    [("must", VMap [("match_phrase_prefix", VMap [("title", VStr "red apple")])]);
     ("filter", VArr [VMap [("range", VMap [("price", VMap [("gt", VFloat (float_of_Z 3))])])];
                      VMap [("bool", VMap [("must_not", VMap [("terms", VMap [("title", VArr [VStr "a"; VStr "b"])])])])]])])].

Lemma accepted_queries_are_complete_witness :
  ∃ q, Query.Query ∅ demo_fields condition_sorter map_order_default 0 demo_query = Ok (Some q) ∧ complete q = true.
Proof.
  destruct (accepted_queries_are_complete ∅ demo_fields condition_sorter map_order_default 0 demo_query
              (match Query.Query ∅ demo_fields condition_sorter map_order_default 0 demo_query with
               | Ok r => r | _ => None end)) as (q & Hr & Hq).
  - intros s z m q [= <-]. reflexivity.
  - vm_compute. reflexivity.
  - vm_compute. reflexivity.
  - exists q. split; [|exact Hq]. rewrite <-Hr. vm_compute. reflexivity.
Defined.

Lemma minimum_should_match_decides_witness :
  ∃ n k, calculateMin condition_sorter 10 (VStr "9<-3 2<75%") = Ok n ∧
         decides 10 [mkCombination 9 7; mkCombination 2 7] k ∧ n = (Z.max 1 (Z.min 10 k))%Z ∧ (1 ≤ n ≤ 10)%Z.
Proof.
  apply (minimum_should_match_decides condition_sorter 10 "9<-3 2<75%" [mkCombination 9 7; mkCombination 2 7]).
  - lia.
  - vm_compute. lia.
  - change (Split " " "9<-3 2<75%") with ["9<-3"; "2<75%"]. constructor; [|constructor; [|constructor]].
    + exists ("9", "-3"). split; vm_compute; reflexivity.
    + exists ("2", "75%"). split; vm_compute; reflexivity.
Defined.

Lemma negative_bounds_dropped_witness :
  Query.Query ∅ demo_fields condition_sorter map_order_default 0
    (VMap [("range", VMap [("price", VMap [("gte", VFloat (float_of_Z (-9))); ("lte", VFloat (float_of_Z (-1)))])])]) =
  Ok (Some (QNumericRange "price" zero MaxInt64_float false false None)).
Proof.
  apply (negative_bounds_dropped ∅ demo_fields condition_sorter map_order_default 0 "price" (NewProperty "numeric"));
    vm_compute; reflexivity.
Defined.
End QueryDemo.
