(* ===== verification/TimeRange.v ===== *)
(** pkg/uquery/timerange: the range of times a query is restricted to, which
    decides what second shards a search reads; and that the choice loses no
    document the query matches. *)
From stdpp Require Import functions.
From Stdlib Require Import SpecFloat Wf_nat.
From S2P Require Import Prelude Hash Strconv Value Document Shards Query.
Import Meta.

(** * Definitions *)

Section timerange.
Context {lib : GoLib} {qlib : QueryLib}.

(** A loop that ends at the first element for which its body returns. *)
Fixpoint first_range {A} (f : A → res (option (Z * Z))) (xs : list A) : res (Z * Z) :=
  match xs with
  | [] => Ok (0, 0)%Z
  | x :: xs => r ← f x; match r with Some b => Ok b | None => first_range f xs end
  end.

(** ** range.go *)

Definition range_kinds : list (string * kind) :=
  [("gt", KAny); ("gte", KAny); ("lt", KAny); ("lte", KAny); ("format", KString); ("time_zone", KString);
   ("boost", KFloat)].

(** The options of the range; [None] when an unknown one ends the call. *)
Fixpoint range_options (p : params) (m : list (string * value)) : res (option params) :=
  match m with
  | [] => Ok (Some p)
  | (k, v) :: m =>
      let k := ToLower k in
      match assoc k range_kinds with
      | Some kd => p ← set_option kd k v p; range_options p m
      | None => Ok None
      end
  end.

(** A bound of the range; [None] when it cannot be read, which ends the call. *)
Definition time_of (format : string) (zone : location) (v : value) : res (option Z) :=
  if decide (format = "epoch_millis") then
    Ok match ToInt v with Ok n => Some (UnixMilli n) | _ => None end
  else s ← assert_as as_string v;
       Ok match ParseInLocation format s zone with inl t => Some t | inr _ => None end.
Definition bound_of (format : string) (zone : location) (v : value) (t : Z) : res (option Z) :=
  if is_nil v then Ok (Some t) else time_of format zone v.

(** [None] ends the call with (0, 0). *)
Definition bind_opt {A B} (r : res (option A)) (f : A → res (option B)) : res (option B) :=
  o ← r; match o with None => Ok None | Some a => f a end.

Definition read_bounds (format : string) (zone : location) (p : params) : res (option (Z * Z)) :=
  let bound k t := bound_of format zone (p_any p k) t in
  bind_opt (bound "gt" zero_time) (λ lo,
  bind_opt (bound "gte" lo) (λ lo,
  bind_opt (bound "lt" zero_time) (λ hi,
  bind_opt (bound "lte" hi) (λ hi, Ok (Some (lo, hi)))))).

Definition RangeQueryTime (m : list (string * value)) : res (Z * Z) :=
  o ← range_options (new_params zero) m;
  match o with
  | None => Ok (0, 0)%Z
  | Some p =>
      let format := if decide (p_str p "format" ≠ "") then p_str p "format" else RFC3339 in
      match (if decide (p_str p "time_zone" ≠ "") then ParseTimeZone LoadLocation (p_str p "time_zone") else Ok UTC) with
      | Ok zone =>
          b ← read_bounds format zone p;
          Ok match b with Some (lo, hi) => (UnixNano lo, UnixNano hi) | None => (0, 0)%Z end
      | Err _ => Ok (0, 0)%Z
      | Panic pp => Panic pp
      end
  end.

Definition RangeQuery (m : list (string * value)) : res (Z * Z) :=
  first_range (λ fv : string * value,
    if decide (fv.1 = TimeFieldName) then
      match fv.2 with VMap vv => Some <$> RangeQueryTime vv | _ => Ok (Some (0, 0)%Z) end
    else Ok None) m.

(** ** bool.go *)

Definition bounded (r : Z * Z) : bool := ((0 <? r.1) || (0 <? r.2))%Z.

Definition bool_range (Query : value → res (Z * Z)) (kv : string * value) : res (option (Z * Z)) :=
  if decide (ToLower kv.1 ∈ ["should"; "must"; "filter"]) then
    match kv.2 with
    | VMap _ => Some <$> Query kv.2
    | VArr vs =>
        r ← first_range (λ vv, match vv with
                               | VMap _ => r ← Query vv; Ok (if bounded r then Some r else None)
                               | _ => Panic PTypeAssert
                               end) vs;
        Ok (if bounded r then Some r else None)
    | _ => Ok None
    end
  else Ok None.

Definition BoolQuery (Query : value → res (Z * Z)) (m : list (string * value)) : res (Z * Z) :=
  first_range (bool_range Query) m.

(** ** query.go *)

Fixpoint Query (query : value) : res (Z * Z) :=
  match query with
  | VMap q =>
      first_range (λ kt : string * value,
        match kt.2 with
        | VMap m => if decide (ToLower kt.1 = "bool") then Some <$> BoolQuery Query m
                    else if decide (ToLower kt.1 = "range") then Some <$> RangeQuery m
                    else Ok None
        | _ => Ok (Some (0, 0)%Z)
        end) q
  | _ => Ok (0, 0)%Z
  end.
End timerange.

(** * The same query in two traversals *)

(** Go visits the entries of a map in any order, another one in every
    traversal: two values stand for the same query when they differ in the order
    of entries only. *)
Inductive veq : value → value → Prop :=
  | veq_same v : veq v v
  | veq_arr vs ws : Forall2 veq vs ws → veq (VArr vs) (VArr ws)
  | veq_map m m' n : Forall2 (λ a b, a.1 = b.1 ∧ veq a.2 b.2) m m' → m' ≡ₚ n → veq (VMap m) (VMap n).

(** No two keys of an object are equal up to case. *)
Fixpoint distinct_keys (v : value) : bool :=
  match v with
  | VArr vs => forallb distinct_keys vs
  | VMap m => bool_decide (NoDup ((λ kv, ToLower kv.1) <$> m)) && forallb (λ kv, distinct_keys kv.2) m
  | _ => true
  end.

(** No clause of the query is a [should]. *)
Fixpoint no_should (v : value) : bool :=
  match v with
  | VArr vs => forallb no_should vs
  | VMap m => forallb (λ kv, bool_decide (ToLower kv.1 ≠ "should") && no_should kv.2) m
  | _ => true
  end.

(** An atom is the same in every traversal. *)
Definition atom (v : value) : Prop := match v with VArr _ | VMap _ => False | _ => True end.

Lemma veq_atom v w : veq v w → atom w → v = w.
Proof. by destruct 1. Qed.
Lemma veq_nil v w : veq v w → is_nil v = is_nil w.
Proof. by destruct 1. Qed.
Lemma veq_map_l v n : veq v (VMap n) → ∃ m, v = VMap m.
Proof. inversion 1; eauto. Qed.
Lemma veq_arr_inv vs ws : veq (VArr vs) (VArr ws) → Forall2 veq vs ws.
Proof. inversion 1; [|done]. apply Forall_Forall2_diag, Forall_true. apply veq_same. Qed.

(** The entries of a map in one traversal are those of any other. *)
Lemma veq_entry m n k w : veq (VMap m) (VMap n) → (k, w) ∈ n → ∃ v, (k, v) ∈ m ∧ veq v w.
Proof.
  inversion 1 as [|?|m0 m' n0 H2 Hp]; subst; [eauto using veq_same|].
  rewrite <-Hp. intros (i & Hi)%list_elem_of_lookup.
  destruct (Forall2_lookup_r _ _ _ _ _ H2 Hi) as ([k' v] & Hv & Hk & Hvw). cbn in *. subst.
  exists v. split; [by eapply list_elem_of_lookup_2|done].
Qed.
Lemma veq_length m n : veq (VMap m) (VMap n) → length m = length n.
Proof.
  inversion 1 as [|?|m0 m' n0 H2 Hp]; subst; [done|]. by rewrite <-Hp, (Forall2_length _ _ _ H2).
Qed.
Lemma veq_keys m n : veq (VMap m) (VMap n) → (λ kv : string * value, ToLower kv.1) <$> m ≡ₚ (λ kv, ToLower kv.1) <$> n.
Proof.
  inversion 1 as [|?|m0 m' n0 H2 Hp]; subst; [done|]. rewrite <-Hp. apply reflexive_eq. clear -H2.
  induction H2 as [|a b m m' [Hk _] _ IH]; [done|]. rewrite !fmap_cons, IH. by rewrite Hk.
Qed.

Lemma distinct_map m :
  distinct_keys (VMap m) = true → NoDup ((λ kv, ToLower kv.1) <$> m) ∧ ∀ k v, (k, v) ∈ m → distinct_keys v = true.
Proof.
  cbn. rewrite andb_true_iff, bool_decide_eq_true, forallb_forall. intros [Hnd Hall]. split; [done|].
  intros k v Hin. apply (Hall (k, v)). by apply list_elem_of_In.
Qed.
Lemma no_should_map m k v :
  no_should (VMap m) = true → (k, v) ∈ m → ToLower k ≠ "should" ∧ no_should v = true.
Proof.
  cbn. rewrite forallb_forall. intros Hall Hin. apply list_elem_of_In, Hall in Hin.
  by rewrite andb_true_iff, bool_decide_eq_true in Hin.
Qed.

(** * Options do not depend on the traversal *)

(** The value of a key, up to case. *)
Fixpoint assoc_lower (k : string) (m : list (string * value)) : option value :=
  match m with
  | [] => None
  | (k', v) :: m => if decide (ToLower k' = k) then Some v else assoc_lower k m
  end.

Lemma assoc_lower_Some k v m : assoc_lower k m = Some v → ∃ k', (k', v) ∈ m ∧ ToLower k' = k.
Proof.
  induction m as [|[k' v'] m IH]; cbn; [done|]. case_decide; intros; simplify_eq; [exists k'; by split; [left|]|].
  destruct IH as (k0 & ? & ?); [done|]. exists k0. by split; [right|].
Qed.
Lemma assoc_lower_None k v k' m : assoc_lower k m = None → (k', v) ∈ m → ToLower k' ≠ k.
Proof.
  induction m as [|[k0 v0] m IH]; cbn; [by intros _ []%elem_of_nil|]. case_decide; [done|].
  intros Hn [?|?]%elem_of_cons; [by simplify_eq|by apply IH].
Qed.
Lemma assoc_lower_in k v k' m :
  NoDup ((λ kv, ToLower kv.1) <$> m) → (k', v) ∈ m → ToLower k' = k → assoc_lower k m = Some v.
Proof.
  induction m as [|[k0 v0] m IH]; cbn; [by intros _ []%elem_of_nil|].
  intros [Hn Hnd]%NoDup_cons [Heq|Hin]%elem_of_cons Hk.
  - simplify_eq. by rewrite decide_True.
  - rewrite decide_False; [by apply IH|]. intros He. apply Hn.
    rewrite He, <-Hk. apply (list_elem_of_fmap_2 (λ kv, ToLower kv.1) _ _ Hin).
Qed.

(** Two traversals of a map give a key related values. *)
Lemma assoc_lower_veq m n k :
  veq (VMap m) (VMap n) → NoDup ((λ kv, ToLower kv.1) <$> n) →
  option_Forall2 veq (assoc_lower k m) (assoc_lower k n).
Proof.
  intros Hv Hnd. pose proof (veq_keys _ _ Hv) as Hkeys.
  assert (NoDup ((λ kv : string * value, ToLower kv.1) <$> m)) as Hndm by (by rewrite Hkeys).
  destruct (assoc_lower k n) as [w|] eqn:Hn.
  - destruct (assoc_lower_Some _ _ _ Hn) as (k' & Hin & Hk). destruct (veq_entry _ _ _ _ Hv Hin) as (v & Hm & Hvw).
    rewrite (assoc_lower_in k v k' m); [by constructor|done..].
  - destruct (assoc_lower k m) as [v|] eqn:Hm; [|constructor]. exfalso.
    destruct (assoc_lower_Some _ _ _ Hm) as (k' & Hin & Hk).
    apply (list_elem_of_fmap_2 (λ kv, ToLower kv.1)) in Hin. rewrite Hkeys in Hin.
    apply list_elem_of_fmap in Hin as ([k0 w0] & He & Hin). cbn in He.
    apply (assoc_lower_None _ _ _ _ Hn Hin). congruence.
Qed.

Section options.
Context {lib : GoLib} {qlib : QueryLib}.

Lemma add_strs_keeps (vs : list value) p p' k :
  foldM (λ p v, s ← assert_as as_string v; Ok (add_str s p)) p vs = Ok p' →
  p_any p' k = p_any p k ∧ p_str p' k = p_str p k.
Proof.
  intros H. revert H. apply (foldM_inv (λ q, p_any q k = p_any p k ∧ p_str q k = p_str p k)); [done|].
  intros q v q' _ Hq. destruct (assert_as as_string v); cbn; intros; by simplify_eq.
Qed.

(** Setting one option leaves the others. *)
Lemma set_option_other kd k v p p' k' :
  k ≠ k' → set_option kd k v p = Ok p' → p_any p' k' = p_any p k' ∧ p_str p' k' = p_str p k'.
Proof.
  intros Hne. destruct kd; cbn; try (destruct (assert_as _ v); cbn); intros H; simplify_eq; cbn;
    rewrite ?fn_lookup_insert_ne by done; try done.
  destruct v; simplify_eq; try done. by apply (add_strs_keeps _ _ _ k') in H.
Qed.

(** After the loop an option is what its key set it to. *)
Lemma read_options_key sp m p p' k kd :
  NoDup ((λ kv, ToLower kv.1) <$> m) → read_options sp p m = Ok p' → assoc k (cases sp) = Some kd →
  match assoc_lower k m with
  | None => p_any p' k = p_any p k ∧ p_str p' k = p_str p k
  | Some v => ∃ q q', set_option kd k v q = Ok q' ∧ p_any p' k = p_any q' k ∧ p_str p' k = p_str q' k
  end.
Proof.
  intros Hnd H Hk. revert p Hnd H. induction m as [|[k0 v0] m IH]; intros p Hnd H; cbn in *; [by simplify_eq|].
  apply NoDup_cons in Hnd as [Hn Hnd]. destruct (option_turn sp p (k0, v0)) as [p1| |] eqn:E; try done. cbn in H.
  specialize (IH p1 Hnd H). unfold option_turn in E. cbn in E. case_decide as Hd.
  - destruct (assoc_lower k m) as [v|] eqn:Hm.
    + exfalso. apply assoc_lower_Some in Hm as (k' & Hin & Hk'). apply Hn. rewrite Hd, <-Hk'.
      apply (list_elem_of_fmap_2 (λ kv, ToLower kv.1) _ _ Hin).
    + rewrite Hd, Hk in E. exists p, p1. by destruct IH as [-> ->].
  - assert (p_any p1 k = p_any p k ∧ p_str p1 k = p_str p k) as [<- <-]; [|done].
    destruct (assoc (ToLower k0) (cases sp)); [by eapply set_option_other|].
    by destruct (otherwise sp); simplify_eq.
Qed.

Lemma read_options_any sp m p p' k :
  NoDup ((λ kv, ToLower kv.1) <$> m) → read_options sp p m = Ok p' → assoc k (cases sp) = Some KAny →
  p_any p' k = default (p_any p k) (assoc_lower k m).
Proof.
  intros Hnd H Hk. pose proof (read_options_key _ _ _ _ _ _ Hnd H Hk) as Ho.
  destruct (assoc_lower k m) as [v|]; [|by destruct Ho]. destruct Ho as (q & q' & Hs & -> & _).
  cbn in Hs. simplify_eq. cbn. by rewrite fn_lookup_insert.
Qed.

(** When every key is known, the loop of the time range is the common one. *)
Lemma range_options_read p m p' :
  range_options p m = Ok (Some p') → read_options (mkSpec range_kinds None) p m = Ok p'.
Proof.
  revert p. induction m as [|[k v] m IH]; intros p; cbn [range_options read_options foldM]; [by intros [= ->]|].
  unfold option_turn. cbn [fst snd cases otherwise]. destruct (assoc (ToLower k) range_kinds); [|done].
  destruct (set_option _ _ _ _) eqn:E; cbn; try done. apply IH.
Qed.
End options.

(** * The range covers what the query matches *)

(** What is used of bluge's documented meaning of queries: a boolean query
    matches only documents that match its musts, and a date range only documents
    with a time of the field in the range; bounds whose time is zero are open,
    others must be representable in nanoseconds. *)
Class BlugeMatch (D : Type) := {
  matches : D → bquery → bool;
  time_at : D → string → option Z;
  matches_must d ms ss ns mn b q :
    matches d (QBool ms ss ns mn b) = true → Some q ∈ ms → matches d q = true;
  matches_date d f lo hi li hi_i b t :
    matches d (QDateRange f lo hi li hi_i b) = true → time_at d f = Some t →
    (IsZero lo = false → - 2 ^ 63 ≤ lo ≤ t)%Z ∧ (IsZero hi = false → t ≤ hi < 2 ^ 63)%Z ∧ (- 2 ^ 63 ≤ t < 2 ^ 63)%Z
}.

Lemma first_range_inv {A} (f : A → res (option (Z * Z))) xs r :
  first_range f xs = Ok r → r = (0, 0)%Z ∨ ∃ x, x ∈ xs ∧ f x = Ok (Some r).
Proof.
  induction xs as [|x xs IH]; cbn; [intros [= <-]; by left|].
  destruct (f x) as [[b|]| |] eqn:E; cbn; try done.
  - intros [= <-]. right. exists x. by split; [left|].
  - intros [->|(y & ? & ?)]%IH; [by left|]. right. exists y. by split; [right|].
Qed.

Section sound.
Context {lib : GoLib} {qlib : QueryLib} (analyzers : gset string) (mappings : Mappings)
  (sort_conditions : sorter cond_less) (order : map_order string Property) (now : Z).
Context {D : Type} {bm : BlugeMatch D}.
Notation parse := (Query.Query analyzers mappings sort_conditions order now).

(** The two readings of a number, [ToInt] here and [ToFloat64] in the parser,
    agree; they do up to 2^53. *)
Definition exact_number (v : value) : bool :=
  match ToInt v, ToFloat64 ParseFloat v with
  | Ok n, Ok x => (int64_of_float x =? n)%Z
  | _, _ => true
  end.
Fixpoint exact_numbers (v : value) : bool :=
  match v with
  | VArr vs => forallb exact_numbers vs
  | VMap m => forallb (λ kv, exact_numbers kv.2) m
  | v => exact_number v
  end.

(** [@timestamp] is a date without a format or zone of its own. *)
Definition plain_timestamp : Prop :=
  let prop := fst (GetProperty mappings TimeFieldName) in
  (Type_ prop = "date" ∨ Type_ prop = "time") ∧ Format prop = "" ∧ TimeZone prop = "".

(** A range computed for a query: without bounds when there is no query, and
    never narrower than the documents it matches. *)
Definition covers (r : option bquery) (b : Z * Z) : Prop :=
  match r with
  | None => bounded b = false
  | Some q => ∀ d t, matches d q = true → time_at d TimeFieldName = Some t →
                (0 < b.1 → b.1 ≤ t)%Z ∧ (0 < b.2 → t ≤ b.2)%Z
  end.

Lemma covers_unbounded r b : bounded b = false → covers r b.
Proof.
  destruct r; [|done]. unfold bounded. rewrite orb_false_iff, !Z.ltb_ge. intros [??] d t _ _. lia.
Qed.

(** The times read here are those of the parsed query. *)
Lemma bound_agrees field k format zone v w t0 t t' :
  veq v w → exact_numbers w = true →
  range_bound field k format (Some zone) v t0 = Ok t → bound_of format zone w t0 = Ok (Some t') → t = t'.
Proof.
  intros Hv He. unfold range_bound, bound_of. rewrite (veq_nil _ _ Hv).
  destruct (is_nil w) eqn:Hn; [congruence|].
  unfold range_time, time_of. case_decide as Hf.
  - destruct (ToInt w) as [n| |] eqn:Hi; try done. intros Hx [= <-].
    assert (atom w) as Ha by (by destruct w). rewrite (veq_atom _ _ Hv Ha) in Hx.
    assert (exact_number w = true) as Hw by (by destruct w). unfold exact_number in Hw. rewrite Hi in Hw.
    destruct (ToFloat64 ParseFloat w) as [x| |]; cbn in Hx; try done. apply Z.eqb_eq in Hw. congruence.
  - destruct w as [| | | | | |s| |]; try done. cbn. rewrite (veq_atom _ _ Hv I). cbn.
    destruct (ParseInLocation format s zone); congruence.
Qed.

Lemma option_any_agrees m n p1 p2 k :
  veq (VMap m) (VMap n) → NoDup ((λ kv, ToLower kv.1) <$> n) →
  read_options time_spec (new_params minus_one) m = Ok p1 →
  read_options (mkSpec range_kinds None) (new_params zero) n = Ok p2 →
  assoc k (cases time_spec) = Some KAny → assoc k range_kinds = Some KAny →
  veq (p_any p1 k) (p_any p2 k) ∧ (p_any p2 k = VNil ∨ ∃ k', (k', p_any p2 k) ∈ n).
Proof.
  intros Hv Hnd H1 H2 Hk1 Hk2. assert (NoDup ((λ kv : string * value, ToLower kv.1) <$> m)) as Hndm
    by (by rewrite (veq_keys _ _ Hv)).
  rewrite (read_options_any _ _ _ _ _ Hndm H1 Hk1), (read_options_any _ _ _ _ _ Hnd H2 Hk2). cbn.
  pose proof (assoc_lower_veq m n k Hv Hnd) as Ho. destruct (assoc_lower k n) as [w|] eqn:Hn.
  - inversion Ho as [v w' Hvw Heq|]; simplify_eq. cbn. split; [done|]. right.
    destruct (assoc_lower_Some _ _ _ Hn) as (k' & ? & _). eauto.
  - inversion Ho. cbn. split; [apply veq_same|by left].
Qed.

Lemma option_str_agrees m n p1 p2 k :
  veq (VMap m) (VMap n) → NoDup ((λ kv, ToLower kv.1) <$> n) →
  read_options time_spec (new_params minus_one) m = Ok p1 →
  read_options (mkSpec range_kinds None) (new_params zero) n = Ok p2 →
  assoc k (cases time_spec) = Some KToString → assoc k range_kinds = Some KString →
  p_str p1 k = p_str p2 k.
Proof.
  intros Hv Hnd H1 H2 Hk1 Hk2. assert (NoDup ((λ kv : string * value, ToLower kv.1) <$> m)) as Hndm
    by (by rewrite (veq_keys _ _ Hv)).
  pose proof (read_options_key _ _ _ _ _ _ Hndm H1 Hk1) as Ho1.
  pose proof (read_options_key _ _ _ _ _ _ Hnd H2 Hk2) as Ho2.
  pose proof (assoc_lower_veq m n k Hv Hnd) as Ho. destruct (assoc_lower k n) as [w|] eqn:Hn.
  - inversion Ho as [v w' Hvw Heq|]; simplify_eq. rewrite <-Heq in Ho1.
    destruct Ho1 as (q1 & q1' & Hs1 & _ & ->), Ho2 as (q2 & q2' & Hs2 & _ & ->). cbn in Hs1, Hs2.
    destruct w as [| | | | | |s| |]; try done. cbn in Hs2. simplify_eq.
    rewrite (veq_atom _ _ Hvw I). cbn. by rewrite !fn_lookup_insert.
  - inversion Ho as [|Heq]. rewrite <-Heq in Ho1. destruct Ho1 as [_ ->], Ho2 as [_ ->]. done.
Qed.

Lemma exact_entry n k w : exact_numbers (VMap n) = true → (k, w) ∈ n → exact_numbers w = true.
Proof. cbn. rewrite forallb_forall. intros Hall Hin. apply (Hall (k, w)). by apply list_elem_of_In. Qed.

(** The four bounds as the parser reads them. *)
Definition parsed_bounds (format : string) (zone : option location) (p : params) : res (Z * Z) :=
  let bound k t := range_bound TimeFieldName k format zone (p_any p k) t in
  lo ← bound "gt" zero_time; lo ← bound "gte" lo;
  hi ← bound "lt" zero_time; hi ← bound "lte" hi; Ok (lo, hi).

Lemma bounds_agree format zone p1 p2 b b' :
  (∀ k, k ∈ ["gt"; "gte"; "lt"; "lte"] → veq (p_any p1 k) (p_any p2 k) ∧ exact_numbers (p_any p2 k) = true) →
  parsed_bounds format (Some zone) p1 = Ok b → read_bounds format zone p2 = Ok (Some b') → b = b'.
Proof.
  intros Hk. unfold parsed_bounds, read_bounds, bind_opt.
  assert (∀ k t0 t t', k ∈ ["gt"; "gte"; "lt"; "lte"] →
    range_bound TimeFieldName k format (Some zone) (p_any p1 k) t0 = Ok t →
    bound_of format zone (p_any p2 k) t0 = Ok (Some t') → t' = t) as Hone.
  { intros k t0 t t' Hin H1 H2. destruct (Hk k Hin). symmetry. by eapply bound_agrees. }
  destruct (range_bound _ "gt" _ _ _ _) as [t1| |] eqn:E1; cbn [mbind res_bind]; [|done..].
  destruct (range_bound _ "gte" _ _ _ _) as [t2| |] eqn:E2; cbn [mbind res_bind]; [|done..].
  destruct (range_bound _ "lt" _ _ _ _) as [t3| |] eqn:E3; cbn [mbind res_bind]; [|done..].
  destruct (range_bound _ "lte" _ _ _ _) as [t4| |] eqn:E4; cbn [mbind res_bind]; [|done..]. intros [= <-].
  destruct (bound_of _ _ (p_any p2 "gt") _) as [[u1|]| |] eqn:F1; cbn [mbind res_bind]; [|done..].
  rewrite (Hone "gt" _ _ _ ltac:(set_solver) E1 F1).
  destruct (bound_of _ _ (p_any p2 "gte") _) as [[u2|]| |] eqn:F2; cbn [mbind res_bind]; [|done..].
  rewrite (Hone "gte" _ _ _ ltac:(set_solver) E2 F2).
  destruct (bound_of _ _ (p_any p2 "lt") _) as [[u3|]| |] eqn:F3; cbn [mbind res_bind]; [|done..].
  rewrite (Hone "lt" _ _ _ ltac:(set_solver) E3 F3).
  destruct (bound_of _ _ (p_any p2 "lte") _) as [[u4|]| |] eqn:F4; cbn [mbind res_bind]; [|done..].
  rewrite (Hone "lte" _ _ _ ltac:(set_solver) E4 F4). by intros [= <-].
Qed.

Lemma int64_zero_time : (int64 ((-62135596800) * seconds) < 0)%Z.
Proof. by vm_compute. Qed.

(** The date range that the parser makes of the bounds is inside of the range
    that they give in nanoseconds. *)
Lemma date_covers lo hi li hi_i b :
  covers (Some (QDateRange TimeFieldName lo (if IsZero hi then now else hi) li hi_i b)) (UnixNano lo, UnixNano hi).
Proof.
  intros d t Hm Ht. destruct (matches_date _ _ _ _ _ _ _ _ Hm Ht) as (Hlo & Hhi & Hr). cbn [fst snd]. unfold UnixNano.
  split.
  - destruct (IsZero lo) eqn:Hz; [apply Z.eqb_eq in Hz; pose proof int64_zero_time; rewrite Hz; lia|].
    intros _. rewrite int64_small by (specialize (Hlo eq_refl); lia). by apply Hlo.
  - destruct (IsZero hi) eqn:Hz; [apply Z.eqb_eq in Hz; pose proof int64_zero_time; rewrite Hz; lia|].
    rewrite Hz in Hhi. intros _. rewrite int64_small by (specialize (Hhi eq_refl); lia). by apply Hhi.
Qed.

(** The query that the parser makes of the bounds. *)
Lemma RangeQueryTime_parsed m r :
  Query.RangeQueryTime mappings now TimeFieldName m = Ok r →
  ∃ p zone lo hi li hi_i b,
    read_options time_spec (new_params minus_one) m = Ok p ∧ range_zone mappings TimeFieldName p = Ok zone ∧
    parsed_bounds (range_format mappings TimeFieldName p) zone p = Ok (lo, hi) ∧
    r = Some (QDateRange TimeFieldName lo (if IsZero hi then now else hi) li hi_i b).
Proof.
  unfold Query.RangeQueryTime, parsed_bounds.
  destruct (read_options time_spec _ m) as [p| |] eqn:H1; cbn [mbind res_bind]; try done.
  destruct (range_zone _ _ p) as [zone| |] eqn:Hz; cbn [mbind res_bind]; try done.
  destruct (range_bound _ "gt" _ _ _ _) as [t1| |] eqn:E1; cbn [mbind res_bind]; [|done..].
  destruct (range_bound _ "gte" _ _ _ _) as [t2| |] eqn:E2; cbn [mbind res_bind]; [|done..].
  destruct (range_bound _ "lt" _ _ _ _) as [t3| |] eqn:E3; cbn [mbind res_bind]; [|done..].
  destruct (range_bound _ "lte" _ _ _ _) as [t4| |] eqn:E4; cbn [mbind res_bind]; [|done..]. intros [= <-].
  exists p, zone, t2, t4. eexists _, _, _. split_and!; [done|done| |done].
  rewrite E1. cbn. rewrite E2. cbn. rewrite E3. cbn. by rewrite E4.
Qed.

Lemma RangeQueryTime_covers m n r b :
  plain_timestamp → veq (VMap m) (VMap n) → distinct_keys (VMap n) = true → exact_numbers (VMap n) = true →
  Query.RangeQueryTime mappings now TimeFieldName m = Ok r → RangeQueryTime n = Ok b → covers r b.
Proof.
  intros (_ & Hfmt & Hzone) Hv [Hnd _]%distinct_map He
    (p1 & zone & lo & hi & li & hi_i & bo & H1 & Hz & Hp & ->)%RangeQueryTime_parsed.
  unfold RangeQueryTime. destruct (range_options _ n) as [[p2|]| |] eqn:H2; cbn [mbind res_bind]; try done;
    [|intros [= <-]; by apply covers_unbounded].
  apply range_options_read in H2.
  unfold range_zone, range_format in Hz, Hp. rewrite Hfmt in Hp. rewrite Hzone in Hz.
  rewrite (option_str_agrees m n p1 p2 "format" Hv Hnd H1 H2 eq_refl eq_refl) in Hp.
  rewrite (option_str_agrees m n p1 p2 "time_zone" Hv Hnd H1 H2 eq_refl eq_refl) in Hz.
  rewrite (decide_False (P := "" ≠ "")) in Hz by auto. rewrite (decide_False (P := "" ≠ "")) in Hp by auto.
  destruct (if decide (p_str p2 "time_zone" ≠ "") then _ else Ok UTC) as [z| |] eqn:Ez; try done;
    [|intros [= <-]; by apply covers_unbounded].
  assert (zone = Some z) as -> by (case_decide; rewrite ?Ez in Hz; congruence).
  destruct (read_bounds _ z p2) as [[[lo' hi']|]| |] eqn:Hb; cbn [mbind res_bind]; try done; intros [= <-];
    [|by apply covers_unbounded].
  enough ((lo, hi) = (lo', hi')) as [= -> ->] by exact (date_covers _ _ _ _ _).
  eapply bounds_agree; [|done|done]. intros k Hk.
  destruct (option_any_agrees m n p1 p2 k Hv Hnd H1 H2) as [Hveq Hin]; [set_unfold; naive_solver..|].
  split; [done|]. destruct Hin as [->|(k' & Hin)]; [done|by eapply exact_entry].
Qed.

Lemma RangeQuery_covers m n r b :
  plain_timestamp → veq (VMap m) (VMap n) → distinct_keys (VMap n) = true → exact_numbers (VMap n) = true →
  Query.RangeQuery mappings now m = Ok r → RangeQuery n = Ok b → covers r b.
Proof.
  intros Hplain Hv Hd He Hr [->|([f w] & Hin & Hw)]%first_range_inv; [by apply covers_unbounded|]. cbn in Hw.
  case_decide as Hf; [subst f|done]. destruct (veq_entry _ _ _ _ Hv Hin) as (v & Hm & Hvw).
  destruct w as [| | | | | | | |vv]; try (injection Hw as <-; by apply covers_unbounded).
  destruct (veq_map_l _ _ Hvw) as [vv1 ->]. destruct (distinct_map _ Hd) as [_ Hd'].
  destruct m as [|[f1 v1] [|]]; [by apply elem_of_nil in Hm| |done].
  apply list_elem_of_singleton in Hm. simplify_eq. cbn [Query.RangeQuery] in Hr.
  destruct Hplain as (Htype & Hrest). rewrite decide_False in Hr by (destruct Htype; congruence).
  rewrite decide_True in Hr by done. destruct (RangeQueryTime vv) as [b'| |] eqn:Hb; cbn in Hw; simplify_eq.
  by eapply RangeQueryTime_covers; [split| |eapply Hd'|eapply exact_entry|..].
Qed.

(** A clause of an array in one traversal is one in any other. *)
Lemma veq_clause v w u : veq v w → clause u w → ∃ u', clause u' v ∧ veq u' u.
Proof.
  intros Hv Hu. destruct w as [| | | | | | |ws|n]; try done.
  - destruct v as [| | | | | | |vs|]; try by inversion Hv. apply list_elem_of_lookup in Hu as [i Hi].
    destruct (Forall2_lookup_r _ _ _ _ _ (veq_arr_inv _ _ Hv) Hi) as (u' & Hu' & ?).
    exists u'. split; [by eapply list_elem_of_lookup_2|done].
  - destruct (veq_map_l _ _ Hv) as [m ->]. cbn in Hu. subst. by exists (VMap m).
Qed.

(** The clause that gave a boolean query its range. *)
Lemma bool_range_clause Q k w b :
  bool_range Q (k, w) = Ok (Some b) →
  ToLower k ∈ ["should"; "must"; "filter"] ∧ ∃ u, clause u w ∧ Q u = Ok b.
Proof.
  unfold bool_range. cbn [fst snd]. case_decide; [|done]. intros H'. split; [done|].
  destruct w as [| | | | | | |ws|n]; try done.
  - destruct (first_range _ ws) as [b'| |] eqn:E; cbn in H'; try done. destruct (bounded b') eqn:Hb; simplify_eq.
    apply first_range_inv in E as [->|(u & Hu & E)]; [done|]. destruct u; try done. exists (VMap m). split; [done|].
    destruct (Q (VMap m)) as [b1| |]; cbn in E; simplify_eq. by case_match; simplify_eq.
  - destruct (Q (VMap n)) eqn:E; cbn in H'; simplify_eq. by exists (VMap n).
Qed.

(** What is asked of a query: no keys that differ in case only, no [should],
    numbers that both readings take for the same. *)
Definition plain_query (w : value) : bool := distinct_keys w && no_should w && exact_numbers w.

Lemma plain_entry n k w : plain_query (VMap n) = true → (k, w) ∈ n → plain_query w = true ∧ ToLower k ≠ "should".
Proof.
  unfold plain_query. rewrite !andb_true_iff. intros [[Hd Hs] He] Hin.
  destruct (distinct_map _ Hd) as [_ Hd']. destruct (no_should_map _ _ _ Hs Hin) as [Hk Hs'].
  split_and!; [by eapply Hd'|done|by eapply exact_entry|done].
Qed.
Lemma plain_clause u w : plain_query w = true → clause u w → plain_query u = true.
Proof.
  destruct w as [| | | | | | |ws|]; cbn [clause]; try done; [|by intros ? ->].
  unfold plain_query. cbn. rewrite !andb_true_iff, !forallb_forall. intros [[Hd Hs] He] Hu.
  apply list_elem_of_In in Hu. by split_and!; [apply Hd|apply Hs|apply He].
Qed.

Lemma must_clause_covers u ms ss ns mn k b :
  must_clause analyzers mappings sort_conditions order now k u ms → ToLower k ∈ ["must"; "filter"] →
  (∀ r, parse u = Ok r → covers r b) → covers (Some (QBool ms ss ns mn None)) b.
Proof.
  intros [Hm Hf] Hk Hr. assert (∃ q, parse u = Ok q ∧ (∀ q', q = Some q' → ∀ d,
    matches d (QBool ms ss ns mn None) = true → matches d q' = true)) as (q & Hq & Hmust).
  { apply list_elem_of_In in Hk as [Hk|[Hk|[]]]; symmetry in Hk.
    - destruct (Hm Hk) as (q & Hq & Hin). exists q. split; [done|]. intros q' -> d Hd. by eapply matches_must.
    - destruct (Hf Hk) as (q & qs & Hq & Hin & Hqs). exists q. split; [done|]. intros q' -> d Hd.
      eapply matches_must; [|done]. by eapply matches_must. }
  specialize (Hr q Hq). destruct q as [q|]; [|by apply covers_unbounded].
  intros d t Hd. apply Hr. by apply Hmust.
Qed.

Lemma Query_covers w : ∀ v r b,
  plain_timestamp → veq v w → plain_query w = true → parse v = Ok r → Query w = Ok b → covers r b.
Proof.
  induction w as [w IH] using (induction_ltof1 _ vsize). unfold ltof in IH. intros v r b Hplain Hv Hw Hr Hb.
  destruct w as [| | | | | | | |n]; try (injection Hb as <-; by apply covers_unbounded).
  cbn [Query] in Hb. apply first_range_inv in Hb as [->|([k t] & Hin & Ht)]; [by apply covers_unbounded|]. cbn in Ht.
  destruct t as [| | | | | | | |m2]; try (injection Ht as <-; by apply covers_unbounded).
  destruct (plain_entry _ _ _ Hw Hin) as [Hm2 _]. pose proof (vsize_entry _ _ _ Hin) as Hlt.
  destruct (veq_map_l _ _ Hv) as [q ->]. destruct (veq_entry _ _ _ _ Hv Hin) as (t1 & Hq & Hv1).
  destruct (Query_entries _ _ _ _ _ _ _ _ _ Hr Hq) as (m1 & r' & -> & Hn & Hr').
  enough (covers r' b) as Hc by (destruct Hr' as [->| ->]; [by apply covers_unbounded|done]).
  unfold named_query in Hn. case_decide as Hbool; [|case_decide as Hrange; [|done]].
  - destruct (BoolQuery Query m2) as [b'| |] eqn:Hb; cbn in Ht; simplify_eq.
    apply caused_ok, BoolQuery_musts in Hn as (ms & ss & ns & mn & -> & Hc).
    apply first_range_inv in Hb as [->|([k2 w2] & Hin2 & Hb)]; [by apply covers_unbounded|].
    apply bool_range_clause in Hb as (Hk2 & u & Hu & Hb). destruct (plain_entry _ _ _ Hm2 Hin2) as [Hw2 Hs].
    destruct (veq_entry _ _ _ _ Hv1 Hin2) as (v2 & Hin1 & Hv2). destruct (veq_clause _ _ _ Hv2 Hu) as (u1 & Hu1 & Hvu).
    apply (must_clause_covers u1 _ _ _ _ k2); [by eapply Hc|set_solver|]. intros ru Hru.
    pose proof (vsize_clause _ _ Hu). pose proof (vsize_entry _ _ _ Hin2).
    eapply (IH u); [lia|done|done|by eapply plain_clause|done|done].
  - destruct (RangeQuery m2) as [b'| |] eqn:Hb; cbn in Ht; simplify_eq.
    rewrite Hrange in Hn. cbn [assoc leaf_queries] in Hn. repeat (rewrite decide_False in Hn by done).
    rewrite decide_True in Hn by done. apply caused_ok in Hn.
    unfold plain_query in Hm2. rewrite !andb_true_iff in Hm2. destruct Hm2 as [[Hd _] He].
    by eapply RangeQuery_covers.
Qed.
End sound.

(** A search loses no document that its query matches: the second shards
    that [GetSearchers] picks for the range computed from a query include every
    one that holds a match.  The query is free of [should] clauses and of keys
    that differ in case only, [@timestamp] is a date with the default format, the
    shards follow each other in time and record the times of their documents.
    The range and the query are read in two traversals of the same maps, each in
    an order of its own. *)
Theorem search_reads_every_match {lib : GoLib} {qlib : QueryLib} (analyzers : gset string) (mappings : Mappings)
    (sort_conditions : sorter cond_less) (order : map_order string Property) (now : Z)
    {D : Type} {bm : BlugeMatch D} {W : Type} (s : @IndexShard W) (docs : @SecondShard W → list D)
    (v w : value) (q : bquery) (lo hi : Z) x d :
  plain_timestamp mappings → veq v w → plain_query w = true →
  Query.Query analyzers mappings sort_conditions order now v = Ok (Some q) → Query w = Ok (lo, hi) →
  time_ordered s →
  (∀ x d t, x ∈ shards s → d ∈ docs x → time_at d TimeFieldName = Some t →
     (0 < DocTimeMin (stats x) → DocTimeMin (stats x) ≤ t)%Z ∧ (0 < DocTimeMax (stats x) → t ≤ DocTimeMax (stats x))%Z) →
  x ∈ shards s → d ∈ docs x → is_Some (time_at d TimeFieldName) → matches d q = true →
  ID x ∈ GetSearchers s lo hi.
Proof.
  intros Hplain Hv Hw Hq Hr Hord Hrec Hx Hd [t Ht] Hm. apply GetSearchers_iff; [done|].
  exists x. split_and!; [done|done|].
  destruct (Query_covers _ _ _ _ _ _ _ _ _ Hplain Hv Hw Hq Hr d t Hm Ht) as [Hlo Hhi]. cbn in Hlo, Hhi.
  destruct (Hrec x d t Hx Hd Ht) as [Hmin Hmax].
  unfold out_of_range. apply orb_false_iff. rewrite <-!not_true_iff_false, !andb_true_iff, !Z.ltb_lt. lia.
Qed.

(** * Where the range is wrong *)

(** A bound on [@timestamp] from below, as a query. *)
Definition since (v : value) : value := VMap [("range", VMap [(TimeFieldName, VMap [("gte", v)])])].

Section defects.
Context {lib : GoLib} {qlib : QueryLib} (analyzers : gset string) (mappings : Mappings)
  (sort_conditions : sorter cond_less) (order : map_order string Property) (now : Z).
Notation parse := (Query.Query analyzers mappings sort_conditions order now).

Lemma since_parsed v prop t :
  mappings !! TimeFieldName = Some prop → Type_ prop = "date" → TimeZone prop = "" → is_nil v = false →
  range_time TimeFieldName "gte" (if decide (Format prop ≠ "") then Format prop else RFC3339) (Some UTC) v = Ok t →
  parse (since v) = Ok (Some (QDateRange TimeFieldName t now true false None)).
Proof.
  intros Hp Ht Hz Hv Hr. assert (fst (GetProperty mappings TimeFieldName) = prop) as Hprop.
  { unfold GetProperty. by rewrite Hp. }
  assert (Query.RangeQueryTime mappings now TimeFieldName [("gte", v)] =
          Ok (Some (QDateRange TimeFieldName t now true false None))) as Hq.
  { unfold Query.RangeQueryTime.
    change (read_options time_spec (new_params minus_one) [("gte", v)]) with (Ok (set_any "gte" v (new_params minus_one))).
    cbn [mbind res_bind]. set (p := set_any "gte" v (new_params minus_one)).
    change (the_boost p) with (@None float64). change (p_any p "gte") with v.
    change (p_any p "gt") with VNil. change (p_any p "lt") with VNil. change (p_any p "lte") with VNil.
    unfold range_zone, range_format. change (p_str p "format") with "". change (p_str p "time_zone") with "".
    rewrite Hprop, Hz, !(decide_False (P := "" ≠ "")) by auto. cbn [mbind res_bind]. unfold range_bound. rewrite Hv.
    cbn [is_nil mbind res_bind]. rewrite Hr. done. }
  assert (Query.RangeQuery mappings now [(TimeFieldName, VMap [("gte", v)])] =
          Ok (Some (QDateRange TimeFieldName t now true false None))) as Hrq.
  { unfold Query.RangeQuery. rewrite Hprop, Ht. by rewrite decide_False, decide_True by auto. }
  unfold since. cbn [Query.Query foldM]. unfold query_turn. cbn [fst snd]. rewrite decide_False by (by intros [[] ?]).
  unfold named_query. rewrite decide_False by done.
  change (assoc (ToLower "range") (leaf_queries analyzers mappings sort_conditions order now)) with
    (Some (Query.RangeQuery mappings now)). cbn -[Query.RangeQuery TimeFieldName]. by rewrite Hrq.
Qed.

(** What the bound is taken for when the range is computed. *)
Lemma since_range s t :
  ParseInLocation RFC3339 s UTC = inl t → Query (since (VStr s)) = Ok (UnixNano t, UnixNano zero_time).
Proof.
  intros Hs. cbn [Query since first_range]. change (decide (ToLower "range" = "bool")) with (@right ("range" = "bool") _ ltac:(done)).
  cbn -[RangeQuery]. enough (RangeQuery [(TimeFieldName, VMap [("gte", VStr s)])] = Ok (UnixNano t, UnixNano zero_time)) as -> by done.
  unfold RangeQuery. cbn [first_range fst snd]. rewrite decide_True by done. unfold RangeQueryTime.
  change (range_options (new_params zero) [("gte", VStr s)]) with (Ok (Some (set_any "gte" (VStr s) (new_params zero)))).
  cbn [mbind res_bind]. set (p := set_any "gte" (VStr s) (new_params zero)).
  change (p_str p "format") with "". change (p_str p "time_zone") with "". rewrite !decide_False by auto.
  unfold read_bounds. change (p_any p "gte") with (VStr s). change (p_any p "gt") with VNil.
  change (p_any p "lt") with VNil. change (p_any p "lte") with VNil.
  unfold bound_of, time_of. cbn [is_nil]. rewrite decide_False by done. cbn. by rewrite Hs.
Qed.
End defects.

(** One alternative of a [should] is taken for a bound of the whole query:
    in [{bool: {should: [since T, c]}}] the parser keeps both alternatives, but
    the computed range starts at [T], so that a second shard whose documents are
    all older is not read, whatever of it the other alternative matches. *)
Theorem should_narrows_search {lib : GoLib} {qlib : QueryLib} (analyzers : gset string) (mappings : Mappings)
    (sort_conditions : sorter cond_less) (order : map_order string Property) (now : Z)
    (s : string) (T : Z) (prop : Property) (c : value) (q : bquery) {W : Type} (x : @SecondShard W) :
  mappings !! TimeFieldName = Some prop → Type_ prop = "date" → Format prop = "" → TimeZone prop = "" →
  ParseInLocation RFC3339 s UTC = inl T → (0 < T < 2 ^ 63)%Z →
  (∃ m, c = VMap m) → Query.Query analyzers mappings sort_conditions order now c = Ok (Some q) →
  (0 < DocTimeMax (stats x) < T)%Z →
  let query := VMap [("bool", VMap [("should", VArr [since (VStr s); c])])] in
  Query.Query analyzers mappings sort_conditions order now query =
    Ok (Some (QBool [] [Some (QDateRange TimeFieldName T now true false None); Some q] [] None None)) ∧
  ∃ lo hi, Query query = Ok (lo, hi) ∧ out_of_range lo hi x = true.
Proof.
  intros Hp Ht Hf Hz Hs HT [m ->] Hq Hx query.
  assert (Query.Query analyzers mappings sort_conditions order now (since (VStr s)) =
          Ok (Some (QDateRange TimeFieldName T now true false None))) as Hsince.
  { eapply since_parsed; [done..|]. unfold range_time. rewrite Hf, decide_False, decide_False by auto. cbn. by rewrite Hs. }
  split.
  - unfold query. cbn [Query.Query foldM]. unfold query_turn. cbn [fst snd]. rewrite decide_False by (by intros [[] ?]).
    unfold named_query. rewrite decide_True by done. unfold Query.BoolQuery. cbn [foldM]. unfold bool_turn. cbn [fst snd].
    rewrite decide_True by done. unfold subqueries. cbn [foldM]. unfold since in *. cbn beta iota. rewrite Hsince. cbn [caused mbind res_bind].
    rewrite Hq. done.
  - exists (UnixNano T), (UnixNano zero_time). split.
    + unfold query. cbn [Query first_range fst snd]. rewrite decide_True by done. unfold BoolQuery. cbn [first_range].
      unfold bool_range. cbn [fst snd]. rewrite decide_True by (vm_compute; by left). cbn [first_range].
      pose proof (since_range s T Hs) as Hr. unfold since in *. cbn beta iota. rewrite Hr. cbn [mbind res_bind].
      assert (bounded (UnixNano T, UnixNano zero_time) = true) as Hb.
      { unfold bounded, UnixNano. cbn [fst]. rewrite int64_small by lia. apply orb_true_iff. left. apply Z.ltb_lt. lia. }
      by rewrite Hb; cbn; rewrite Hb.
    + unfold out_of_range, UnixNano. rewrite int64_small by lia. apply orb_true_iff. left.
      rewrite !andb_true_iff, !Z.ltb_lt. lia.
Qed.

(** When the mapping of [@timestamp] has the format [epoch_millis], the
    parser accepts a number as a bound, and the computation of the range panics
    on it: it does not look at the mapping and asserts that the bound is a
    string. *)
Theorem number_bound_panics {lib : GoLib} {qlib : QueryLib} (analyzers : gset string) (mappings : Mappings)
    (sort_conditions : sorter cond_less) (order : map_order string Property) (now : Z) (prop : Property) (x : float64) :
  mappings !! TimeFieldName = Some prop → Type_ prop = "date" → Format prop = "epoch_millis" → TimeZone prop = "" →
  Query.Query analyzers mappings sort_conditions order now (since (VFloat x)) =
    Ok (Some (QDateRange TimeFieldName (UnixMilli (int64_of_float x)) now true false None)) ∧
  Query (since (VFloat x)) = Panic PTypeAssert.
Proof.
  intros Hp Ht Hf Hz. split; [|reflexivity]. eapply since_parsed; [done..|].
  unfold range_time. rewrite Hf, (decide_True (P := "epoch_millis" ≠ "")), decide_True by done. done.
Qed.

(** * Concrete runs *)

Module RangeDemo.

(** Three dates are known; documents are their times, matched by the date ranges
    that a query demands. *)
#[local] Instance range_lib : GoLib := {|
  FormatFloat _ := "1.5";
  ParseFloat _ := inr "invalid syntax";
  Sprint _ := "<v>";
  ParseInLocation _ s _ := if decide (s = "2023") then inl 1000%Z else if decide (s = "2024") then inl 2000%Z else
                           inr "bad date";
  LoadLocation name := inr ("unknown time zone " +:+ name)
|}.
#[local] Instance range_qlib : QueryLib := {|
  ParseFloat_value _ := zero; ParseNilLocation _ _ := Err "no location"; Analyze _ s := [s];
  ParseQueryString _ _ _ := Ok QMatchAll; prefix_coded _ := ""
|}.

Fixpoint demo_match (t : Z) (q : bquery) : bool :=
  match q with
  | QMatchNone => false
  | QBool ms _ _ _ _ => forallb (λ o, match o with Some q => demo_match t q | None => true end) ms
  | QDateRange _ lo hi _ _ _ =>
      (IsZero lo || ((- 2 ^ 63 <=? lo) && (lo <=? t))) && (IsZero hi || ((t <=? hi) && (hi <? 2 ^ 63)))
      && ((- 2 ^ 63 <=? t) && (t <? 2 ^ 63))
  | _ => true
  end%Z.

#[local] Program Instance demo_bluge : BlugeMatch Z := {| matches := demo_match; time_at t _ := Some t |}.
Next Obligation.
  intros d ms ss ns mn b q. cbn. rewrite forallb_forall. intros Hall Hin.
  apply list_elem_of_In, Hall in Hin. done.
Qed.
Next Obligation.
  intros d f lo hi li hi_i b t. cbn. rewrite !andb_true_iff, !orb_true_iff, !andb_true_iff, !Z.leb_le, !Z.ltb_lt.
  intros [[Hlo Hhi] Hr] [= <-]. split_and!; [| |lia|lia]; intros Hz; [destruct Hlo|destruct Hhi]; (congruence || lia).
Qed.

Definition demo_timestamp : Mappings := <[TimeFieldName := NewProperty "date"]> ∅.

Definition between : value :=
  VMap [("bool", VMap [("must", VArr [VMap [("range", VMap [(TimeFieldName, VMap [("gte", VStr "2023"); ("lt", VStr "2024")])])]])])].
Definition between_again : value :=
  VMap [("bool", VMap [("must", VArr [VMap [("range", VMap [(TimeFieldName, VMap [("lt", VStr "2024"); ("gte", VStr "2023")])])]])])].

Lemma between_veq : veq between between_again.
Proof.
  unfold between, between_again. eapply veq_map; [|reflexivity].
  constructor; [|constructor]. split; [done|]. cbn. eapply veq_map; [|reflexivity].
  constructor; [|constructor]. split; [done|]. cbn. apply veq_arr. constructor; [|constructor].
  eapply veq_map; [|reflexivity]. constructor; [|constructor]. split; [done|]. cbn.
  eapply veq_map; [|reflexivity]. constructor; [|constructor]. split; [done|]. cbn.
  eapply (veq_map _ [("gte", VStr "2023"); ("lt", VStr "2024")]); [|constructor].
  repeat constructor.
Qed.

Definition demo_second (id lo hi : Z) : @SecondShard (list Z) := mkSecond id (mkStats lo hi 0 0) [lo; hi] true 0.
Definition demo_second_shards : @IndexShard (list Z) :=
  mkShard [demo_second 0 100 900; demo_second 1 900 1500; demo_second 2 1500 3000] zero_stats.

Lemma search_reads_every_match_witness :
  GetSearchers demo_second_shards 1000 2000 = [2; 1]%Z ∧ 1%Z ∈ GetSearchers demo_second_shards 1000 2000.
Proof.
  split; [reflexivity|].
  apply (search_reads_every_match ∅ demo_timestamp condition_sorter map_order_default 5000
           demo_second_shards (λ x, [DocTimeMin (stats x); DocTimeMax (stats x)]) between between_again
           (QBool [Some (QDateRange TimeFieldName 1000 2000 true false None)] [] [] None None)
           1000%Z 2000%Z (demo_second 1 900 1500) 1500%Z).
  - split_and!; [left; reflexivity|reflexivity..].
  - exact between_veq.
  - vm_compute. reflexivity.
  - vm_compute. reflexivity.
  - vm_compute. reflexivity.
  - intros i j x y Hij Hi Hj _. destruct i as [|[|[|]]], j as [|[|[|]]]; cbn in *; simplify_eq; cbn; lia.
  - intros x d t Hx Hd [= <-]. cbn in Hx. apply list_elem_of_In in Hx. apply list_elem_of_In in Hd.
    destruct Hx as [<-|[<-|[<-|[]]]]; destruct Hd as [<-|[<-|[]]]; cbn; lia.
  - right. left.
  - right. left.
  - eexists. reflexivity.
  - vm_compute. reflexivity.
Defined.

Lemma should_narrows_search_witness :
  let c := VMap [("match_all", VMap [])] in
  let query := VMap [("bool", VMap [("should", VArr [since (VStr "2024"); c])])] in
  Query.Query ∅ demo_timestamp condition_sorter map_order_default 5000 query =
    Ok (Some (QBool [] [Some (QDateRange TimeFieldName 2000 5000 true false None); Some QMatchAll] [] None None)) ∧
  ∃ lo hi, Query query = Ok (lo, hi) ∧ out_of_range lo hi (demo_second 0 100 900) = true.
Proof.
  apply (should_narrows_search ∅ demo_timestamp condition_sorter map_order_default 5000 "2024" 2000
           (NewProperty "date") (VMap [("match_all", VMap [])]) QMatchAll (demo_second 0 100 900));
    [reflexivity..|lia|by eexists|reflexivity|cbn; lia].
Defined.

Definition millis_timestamp : Mappings := <[TimeFieldName := set_format (NewProperty "date") "epoch_millis"]> ∅.

Lemma number_bound_panics_witness :
  Query.Query ∅ millis_timestamp condition_sorter map_order_default 5000 (since (VFloat (float_of_Z 7))) =
    Ok (Some (QDateRange TimeFieldName 7000000 5000 true false None)) ∧
  Query (since (VFloat (float_of_Z 7))) = Panic PTypeAssert.
Proof.
  apply (number_bound_panics ∅ millis_timestamp condition_sorter map_order_default 5000
           (set_format (NewProperty "date") "epoch_millis") (float_of_Z 7)); reflexivity.
Defined.
End RangeDemo.
