(* ===== verification/Request.v ===== *)
(** Search requests and what of a document is returned: pkg/uquery/sort, source,
    fields, highlight, query_dsl_parser.go and query_dsl_from_v1.go. *)
From stdpp Require Import functions.
From Stdlib Require Import SpecFloat.
From S2P Require Import Prelude Hash Strconv Value Document Query.
Import Meta.

(** * Sort order (sort.go) *)

(** A key of the order: bluge's syntax for one, or a field with a direction. *)
Inductive sort_key := SortString (s : string) | SortField (field : string) (desc : bool).
Definition SortOrder := list sort_key.

(** The request's field before and after it was read. *)
Inductive sort_arg := SortJson (v : value) | SortParsed (o : SortOrder).

(** The options of one field: only [order] counts, and it never unsets. *)
Definition order_option (desc : bool) (kv : string * value) : res bool :=
  if decide (ToLower kv.1 = "order") then
    s ← assert_as as_string kv.2; Ok (if decide (ToLower s = "desc") then true else desc)
  else Ok desc.

Definition sort_elem (sorts : SortOrder) (v : value) : res SortOrder :=
  match v with
  | VStr s => Ok (sorts ++ [SortString s])
  | VMap [] => Ok sorts
  | VMap [(field, o)] =>
      desc ← match o with
             | VStr s => Ok (bool_decide (ToLower s = "desc"))
             | VMap m => foldM order_option false m
             | _ => Ok false
             end;
      Ok (sorts ++ [SortField field desc])
  | VMap _ => parsing "[sort] field doesn't support multiple values"
  | _ => Ok sorts
  end.

Definition sort_Request (a : sort_arg) : res SortOrder :=
  match a with
  | SortParsed o => Ok o
  | SortJson (VStr s) => Ok [SortString s]
  | SortJson (VArr vs) => foldM sort_elem [] vs
  | SortJson VNil => Ok []
  | SortJson _ => xcontent "[sort] value should be string or array"
  end.

(** * Source (source.go) *)

Record Source := mkSource { Enable : bool; SourceFields : list string }.
Inductive source_arg := SourceJson (v : value) | SourceParsed (s : Source).

Definition source_error : string := "[_source] value should be boolean or []string".

Definition source_Request (a : source_arg) : res Source :=
  match a with
  | SourceParsed s => Ok s
  | SourceJson VNil => Ok (mkSource true [])
  | SourceJson (VBool b) => Ok (mkSource b [])
  | SourceJson (VArr vs) =>
      fs ← foldM (λ fs v, match v with VStr s => Ok (fs ++ [s]) | _ => xcontent source_error end) [] vs;
      Ok (mkSource true fs)
  | SourceJson _ => xcontent source_error
  end.

(** A pattern ends in a star. *)
Definition wildcard (field : string) : bool := bool_decide (String.get (String.length field - 1) field = Some "*"%char).
Definition trim_last (field : string) : string := String.substring 0 (String.length field - 1) field.

(** The entries one requested field adds: the key itself, or else what a pattern
    matches. *)
Definition source_field (ret : gmap string value) (rets : gmap string value) (field : string) : gmap string value :=
  match ret !! field with
  | Some v => <[field := v]> rets
  | None => if wildcard field then filter (λ kv, String.prefix (trim_last field) kv.1 = true) ret ∪ rets else rets
  end.

(** [Response]; [data] is the decoded document, [None] when it cannot be
    decoded, and the result [None] is a nil map. *)
Definition source_Response (s : Source) (data : option (gmap string value)) : option (gmap string value) :=
  if negb (Enable s) then Some ∅ else
  match data with
  | None => None
  | Some ret => if decide (SourceFields s = []) then Some ret
                else Some (foldl (source_field ret) ∅ (SourceFields s))
  end.

(** * Fields (fields.go) *)

Record Field := mkField { f_field : string; f_format : string }.
(** Anything but an array is left as it is. *)
Inductive fields_arg := FieldsJson (v : value) | FieldsParsed (fs : list Field).

Definition field_option (f : Field) (kv : string * value) : res Field :=
  let k := ToLower kv.1 in
  if decide (k = "field") then s ← assert_as as_string kv.2; Ok (mkField s (f_format f))
  else if decide (k = "format") then s ← assert_as as_string kv.2; Ok (mkField (f_field f) s)
  else Ok f.

Definition fields_Request (vs : list value) : res (list Field) :=
  foldM (λ fs v, match v with
                 | VStr s => Ok (fs ++ [mkField s ""])
                 | VMap m => f ← foldM field_option (mkField "" "") m; Ok (fs ++ [f])
                 | _ => xcontent "[fields] value should be string or object"
                 end) [] vs.

Section fields.
Context {lib : GoLib} (format_time : Z → string → string) (mappings : Mappings).

(** The value of a field, formatted when it is a date and a format is asked for.
    [time.Parse] reads a time without a zone as UTC. *)
Definition field_value (f : Field) (k : string) (rv : value) : res value :=
  let prop := fst (GetProperty mappings k) in
  if decide ((Type_ prop = "date" ∨ Type_ prop = "time") ∧ f_format f ≠ "") then
    s ← assert_as as_string rv;
    Ok match ParseInLocation (Format prop) s UTC with
       | inl t => VArr [VStr (format_time t (f_format f))]
       | inr _ => VArr [rv]
       end
  else Ok (VArr [rv]).

Definition fields_field (order : map_order string value) (ret : gmap string value) (results : gmap string value) (f : Field)
    : res (gmap string value) :=
  let field := f_field f in
  match ret !! field with
  | Some rv => x ← field_value f field rv; Ok (<[field := x]> results)
  | None =>
      if wildcard field then
        foldM (λ results kv, if String.prefix (trim_last field) kv.1
                             then x ← field_value f kv.1 kv.2; Ok (<[kv.1 := x]> results) else Ok results)
              results (range order ret)
      else Ok results
  end.

Definition fields_Response (order : map_order string value) (fs : list Field) (data : option (gmap string value))
    : res (option (gmap string value)) :=
  if decide (fs = []) then Ok None else
  match data with
  | None => Ok None
  | Some ret => Some <$> foldM (fields_field order ret) ∅ fs
  end.
End fields.

(** * Highlighting (highlight.go) *)

Record HighlightField := mkHighlightField {
  hf_number : Z; hf_size : Z; hf_pre : list string; hf_post : list string
}.
Record Highlight := mkHighlight {
  h_number : Z; h_size : Z; h_pre : list string; h_post : list string; h_fields : gmap string HighlightField
}.

(** The settings of the request are the defaults of its fields. *)
Definition highlight_Request (h : Highlight) : Highlight :=
  if decide (h_fields h = ∅) then h else
  let n := if decide (h_number h = 0)%Z then 3%Z else h_number h in
  mkHighlight n (h_size h) (h_pre h) (h_post h)
    ((λ f, mkHighlightField
             (if decide (hf_number f = 0 ∧ 0 < n)%Z then n else hf_number f)
             (if decide (hf_size f = 0 ∧ 0 < h_size h)%Z then h_size h else hf_size f)
             (hf_pre f) (hf_post f)) <$> h_fields h).

(** * The request (query_dsl_parser.go) *)

(** [meta.ZincQuery]; of the aggregations only whether there are any. *)
Record ZincQuery := mkZincQuery {
  q_query : value;
  q_aggs : bool;
  q_highlight : option Highlight;
  q_fields : option fields_arg;
  q_source : source_arg;
  q_sort : option sort_arg;
  q_explain : bool;
  q_from : Z;
  q_size : Z
}.

Definition set_size (n : Z) (q : ZincQuery) : ZincQuery :=
  mkZincQuery (q_query q) (q_aggs q) (q_highlight q) (q_fields q) (q_source q) (q_sort q) (q_explain q) (q_from q) n.
Definition set_page (from n : Z) (q : ZincQuery) : ZincQuery :=
  mkZincQuery (q_query q) (q_aggs q) (q_highlight q) (q_fields q) (q_source q) (q_sort q) (q_explain q) from n.
Definition set_highlight (h : option Highlight) (q : ZincQuery) : ZincQuery :=
  mkZincQuery (q_query q) (q_aggs q) h (q_fields q) (q_source q) (q_sort q) (q_explain q) (q_from q) (q_size q).
Definition set_source (s : source_arg) (q : ZincQuery) : ZincQuery :=
  mkZincQuery (q_query q) (q_aggs q) (q_highlight q) (q_fields q) s (q_sort q) (q_explain q) (q_from q) (q_size q).
Definition set_fields (f : option fields_arg) (q : ZincQuery) : ZincQuery :=
  mkZincQuery (q_query q) (q_aggs q) (q_highlight q) f (q_source q) (q_sort q) (q_explain q) (q_from q) (q_size q).
Definition set_sort (s : option sort_arg) (q : ZincQuery) : ZincQuery :=
  mkZincQuery (q_query q) (q_aggs q) (q_highlight q) (q_fields q) (q_source q) s (q_explain q) (q_from q) (q_size q).

(** [bluge.TopNSearch] with the settings made on it; the order [None] is by
    score. *)
Record request := mkRequest {
  r_query : bquery; r_size : Z; r_from : Z; r_order : option SortOrder; r_explain : bool; r_locations : bool; r_aggs : bool
}.

(** The settings and the environment of a request: [agg_err] is the error of
    [aggregation.Request], if any. *)
Record renv := mkRenv { MaxResults : Z; now : Z; agg_err : option string }.

Section request.
Context {lib : GoLib} {qlib : QueryLib} (analyzers : gset string) (mappings : Mappings)
  (sort_conditions : sorter cond_less) (order : map_order string Property) (e : renv).

Definition parse_query (q : ZincQuery) : res bquery :=
  r ← Query.Query analyzers mappings sort_conditions order (now e) (q_query q);
  match r with
  | Some b => Ok b
  | None => Err (error_new "not_implemented" ("[" +:+ Sprint (q_query q) +:+ "] query doesn't support"))
  end.

(** [NormalizeQuery] works on the caller's struct: what was set before an error
    stays set. *)
Definition NormalizeQuery (q : ZincQuery) : res unit * ZincQuery :=
  let q := if decide (MaxResults e < q_size q)%Z then set_size (MaxResults e) q else q in
  match parse_query q with
  | Err err => (Err err, q)
  | Panic p => (Panic p, q)
  | Ok _ =>
      let q := set_highlight (highlight_Request <$> q_highlight q) q in
      match source_Request (q_source q) with
      | Err err => (Err err, q)
      | Panic p => (Panic p, q)
      | Ok s =>
          let q := set_source (SourceParsed s) q in
          let fields := match q_fields q with Some (FieldsJson (VArr vs)) => Some <$> fields_Request vs | _ => Ok None end in
          match fields with
          | Err err => (Err err, q)
          | Panic p => (Panic p, q)
          | Ok fs =>
              let q := match fs with Some fs => set_fields (Some (FieldsParsed fs)) q | None => q end in
              match q_sort q with
              | None => (Ok tt, q)
              | Some a =>
                  match sort_Request a with
                  | Err err => (Err err, q)
                  | Panic p => (Panic p, q)
                  | Ok o => (Ok tt, set_sort (Some (SortParsed o)) q)
                  end
              end
          end
      end
  end.

Definition ParseQueryDSL (q : ZincQuery) : res request :=
  b ← parse_query q;
  match (if q_aggs q then agg_err e else None) with
  | Some err => Err err
  | None =>
      o ← match q_sort q with
          | None => Ok None
          | Some (SortParsed o) => Ok (Some o)
          | Some (SortJson _) => Panic PTypeAssert
          end;
      Ok (mkRequest b (q_size q) (if decide (0 < q_from q)%Z then q_from q else 0%Z) o (q_explain q)
            (bool_decide (is_Some (q_highlight q))) (q_aggs q))
  end.

Lemma highlight_Request_idem h : highlight_Request (highlight_Request h) = highlight_Request h.
Proof.
  unfold highlight_Request at 2 3. case_decide as Hf.
  { unfold highlight_Request. by rewrite decide_True. }
  unfold highlight_Request. cbn. rewrite decide_False by (by rewrite fmap_empty_iff).
  set (n := if decide (h_number h = 0)%Z then 3%Z else h_number h).
  assert (n ≠ 0)%Z as Hn by (unfold n; case_decide; lia). rewrite (decide_False (P := n = 0%Z)) by done.
  f_equal. rewrite <-map_fmap_compose. apply map_fmap_ext. intros k f _. cbn. f_equal; repeat case_decide; lia.
Qed.

(** Normalizing a request again changes nothing. *)
Lemma NormalizeQuery_idem q q' : NormalizeQuery q = (Ok tt, q') → NormalizeQuery q' = (Ok tt, q').
Proof.
  unfold NormalizeQuery. set (q0 := if decide (MaxResults e < q_size q)%Z then set_size (MaxResults e) q else q).
  assert (¬ (MaxResults e < q_size q0)%Z) as Hs by (unfold q0; case_decide; cbn; lia). clearbody q0. revert Hs.
  destruct q0 as [query aggs hl fs src srt ex from size]. unfold parse_query. cbn. intros Hs HN.
  destruct (Query.Query analyzers mappings sort_conditions order (now e) query) as [[b|]| |] eqn:EQ; cbn in HN; try done.
  destruct (source_Request src) as [s| |] eqn:ES; try done.
  assert (∀ fs', match fs' with Some (FieldsJson (VArr _)) => false | _ => true end = true →
    match srt with
    | Some a => match sort_Request a with
                | Ok o => (Ok tt, mkZincQuery query aggs (highlight_Request <$> hl) fs' (SourceParsed s) (Some (SortParsed o)) ex from size)
                | Err err => (Err err, mkZincQuery query aggs (highlight_Request <$> hl) fs' (SourceParsed s) srt ex from size)
                | Panic p => (Panic p, mkZincQuery query aggs (highlight_Request <$> hl) fs' (SourceParsed s) srt ex from size)
                end
    | None => (Ok tt, mkZincQuery query aggs (highlight_Request <$> hl) fs' (SourceParsed s) srt ex from size)
    end = (Ok tt, q') → NormalizeQuery q' = (Ok tt, q')) as Hgen.
  { clear HN. intros fs' Hfs HN. unfold NormalizeQuery, parse_query.
    assert (highlight_Request <$> (highlight_Request <$> hl) = highlight_Request <$> hl) as Hhl.
    { destruct hl; cbn; [|done]. by rewrite highlight_Request_idem. }
    destruct srt as [a|]; [destruct (sort_Request a); try done|]; injection HN as <-; cbn;
      rewrite decide_False by done; cbn; rewrite EQ; cbn; rewrite Hhl;
      by destruct fs' as [[[]|]|]. }
  destruct fs as [[v|]|]; [destruct v as [| | | | | | |vs|]| |]; cbn in HN; try (by (eapply Hgen; [|exact HN])).
  destruct (fields_Request vs) as [fl| |]; cbn in HN; try done. by (eapply Hgen; [|exact HN]).
Qed.
End request.

(** * Requests of the first API (query_dsl_from_v1.go, pkg/meta/v1/types.go) *)

(** An aggregation with its sub-aggregations; of the ranges only the fields
    matter here. *)
#[local] Unset Elimination Schemes.
Inductive AggregationParams := mkAgg {
  a_type : string; a_field : string; a_subs : list (string * AggregationParams)
}.
#[local] Set Elimination Schemes.

Record ZincQueryV1 := mkV1 {
  v1_type : string; v1_max : Z; v1_from : Z; v1_explain : bool; v1_highlight : option Highlight;
  v1_term : string; v1_field : string; v1_start : Z; v1_end : Z;
  v1_aggs : list (string * AggregationParams); v1_sort : option (list string); v1_source : value
}.

(** [t.UnixMilli()]. *)
Definition to_millis (t : Z) : Z := (t / 1000000)%Z.

(** The range on [@timestamp]; Go visits its entries in any order. *)
Definition v1_range (q : ZincQueryV1) : list value :=
  if IsZero (v1_start q) && IsZero (v1_end q) then []
  else [VMap [("range", VMap [("@timestamp", VMap
          ([("format", VStr "epoch_millis")]
           ++ (if IsZero (v1_start q) then [] else [("gte", VInt64 (to_millis (v1_start q)))])
           ++ (if IsZero (v1_end q) then [] else [("lt", VInt64 (to_millis (v1_end q)))])))])]].

Definition v1_match_all : value := VMap [("match_all", VMap [])].

(** The clauses of a search type: the names of V1 and those of the query DSL. *)
Definition v1_clauses (q : ZincQueryV1) : list value :=
  let on name := [VMap [(name, VMap [(v1_field q, VStr (v1_term q))])]] in
  let t := v1_type q in
  if decide (t = "wildcard") then on "wildcard"
  else if decide (t = "fuzzy") then on "fuzzy"
  else if decide (t = "term") then on "term"
  else if decide (t = "daterange") then
    if decide (v1_field q ≠ "" ∧ v1_field q ≠ "@timestamp") then
      [VMap [("range", VMap [(v1_field q, VMap [("gte", VInt64 (to_millis (v1_start q)));
                                                ("lt", VInt64 (to_millis (v1_end q)));
                                                ("format", VStr "epoch_millis")])])]]
    else []
  else if decide (t = "match") then on "match"
  else if decide (t = "matchphrase") then on "match_phrase"
  else if decide (t = "prefix") then on "prefix"
  else if decide (t = "querystring") then [VMap [("query_string", VMap [("query", VStr (v1_term q))])]]
  else [v1_match_all].

Definition v1_query (q : ZincQueryV1) : value :=
  VMap [("bool", VMap [("must", VArr (v1_range q ++ v1_clauses q))])].

Definition v1_agg_types : list string :=
  ["term"; "terms"; "range"; "date_range"; "max"; "min"; "avg"; "weighted_avg"; "sum"; "count"].

(** [covertAggregationFromV1]: a sub-aggregation is stored in the map of a new
    struct, which is nil. *)
Fixpoint covertAggregationFromV1 (a : AggregationParams) : res unit :=
  match a with
  | mkAgg typ field subs =>
      match subs with
      | [] => if decide (typ ∈ v1_agg_types) then Ok tt else Err ("aggregation not supported " +:+ typ)
      | (_, sub) :: _ => _ ← covertAggregationFromV1 sub; Panic (PExplicit "assignment to entry in nil map")
      end
  end.

Definition ParseQueryDSLFromV1 (q : ZincQueryV1) : res ZincQuery :=
  _ ← foldM (λ _ na, covertAggregationFromV1 na.2) tt (v1_aggs q);
  Ok (mkZincQuery (v1_query q) (bool_decide (v1_aggs q ≠ [])) (v1_highlight q) None (SourceJson (v1_source q))
        ((λ fs, SortJson (VArr (VStr <$> fs))) <$> v1_sort q) (v1_explain q) (v1_from q) (v1_max q)).

(** Every search of the first API whose aggregations have sub-aggregations
    panics, or fails because of a name inside of them. *)
Theorem nested_v1_aggregation_panics typ field name sub (subs : list (string * AggregationParams)) :
  covertAggregationFromV1 sub = Ok tt →
  covertAggregationFromV1 (mkAgg typ field ((name, sub) :: subs)) = Panic (PExplicit "assignment to entry in nil map").
Proof. intros Hs. cbn. by rewrite Hs. Qed.
