(* ===== verification/Search.v ===== *)
(** pkg/bluge/search/search.go: a query on one reader, and on several whose
    results a heap merges.  Of a hit the score, highlights and explanation are
    left out, and of the response the aggregations. *)
From stdpp Require Import functions.
From Stdlib Require Import SpecFloat.
From S2P Require Import Prelude Hash Strconv Value Document Heap Merge Query Request.
Import Meta.

(** * Results *)

Record Hit := mkHit {
  hit_index : string; hit_id : string; hit_source : option (gmap string value); hit_fields : option (gmap string value)
}.
Record SearchResponse := mkResponse { r_hits : list Hit; r_total : Z }.

Section search.
(** [M] is a match of the engine: a document with its score and sort values. *)
Context {M : Type}.

(** What the engine gives for a match: its stored fields, and their order by the
    sort keys of a request. *)
Context (stored : M → res (list (string * string))) (sort_less : option SortOrder → M → M → bool).
(** [json.Unmarshal] of a document and the formatting of dates. *)
Context {lib : GoLib} {qlib : QueryLib} (unmarshal : string → option (gmap string value))
  (format_time : Z → string → string) (order_fields : map_order string value).
Context (analyzers : gset string) (mappings : Mappings) (sort_conditions : sorter cond_less)
  (order : map_order string Property) (e : renv).

(** A reader answers a request with its matches, in order, and their number; it
    fails at once, or, with the error given, after the matches it could read. *)
Definition searcher : Type := request → res (list M * option string * Z).

(** ** visitMatchedDoc *)

(** One stored field; the assertions on the request's fields are those of the
    code. *)
Definition visit_field (q : ZincQuery) (h : Hit) (kv : string * string) : res Hit :=
  let '(field, v) := kv in
  if decide (field = "_id") then Ok (mkHit (hit_index h) v (hit_source h) (hit_fields h))
  else if decide (field = "_index") then Ok (mkHit v (hit_id h) (hit_source h) (hit_fields h))
  else if decide (field = "_source") then
    src ← match q_source q with SourceParsed s => Ok s | SourceJson _ => Panic PTypeAssert end;
    fs ← match q_fields q with
         | None => Ok (hit_fields h)
         | Some (FieldsParsed fs) => fields_Response format_time mappings order_fields fs (unmarshal v)
         | Some (FieldsJson _) => Panic PTypeAssert
         end;
    Ok (mkHit (hit_index h) (hit_id h) (source_Response src (unmarshal v)) fs)
  else Ok h.

Definition visitMatchedDoc (q : ZincQuery) (m : M) : res Hit :=
  match stored m with
  | Ok fs => foldM (visit_field q) (mkHit "" "" None None) fs
  | Err err => Err ("search.MultiSearch: error accessing stored fields: " +:+ err)
  | Panic p => Panic p
  end.

(** ** One reader *)

Fixpoint visit_all (q : ZincQuery) (ms : list M) : res (list Hit) :=
  match ms with
  | [] => Ok []
  | m :: ms => h ← visitMatchedDoc q m; hs ← visit_all q ms; Ok (h :: hs)
  end.

Definition getSingleReaderResult (q : ZincQuery) (r : searcher) : res SearchResponse * ZincQuery :=
  match NormalizeQuery analyzers mappings sort_conditions order e q with
  | (Ok _, q) =>
      (req ← ParseQueryDSL analyzers mappings sort_conditions order e q;
       '(ms, next_err, n) ← r req;
       match visit_all q ms, next_err with
       | Ok hs, None => Ok (mkResponse hs n)
       | Ok _, Some err | Err err, _ => Err ("search.MultiSearch: error iterating results: " +:+ err)
       | Panic p, _ => Panic p
       end, q)
  | (Err err, q) => (Err err, q)
  | (Panic p, q) => (Panic p, q)
  end.

(** ** Several readers *)

(** What the goroutine of a reader sends before it ends. *)
Definition reader_docs (q : ZincQuery) (req : request) (r : searcher) : res (list (Hit * M) * Z) :=
  '(ms, next_err, n) ← r req;
  hs ← visit_all q ms;
  match next_err with None => Ok (zip hs ms, n) | Some err => Err err end.

(** All goroutines: their documents and counts, or an error of one of them;
    which one is reported depends on the scheduler. *)
Definition all_readers (pick : list string → string) (q : ZincQuery) (req : request) (rs : list searcher)
    : res (list (list (Hit * M) * Z)) :=
  let outcomes := reader_docs q req <$> rs in
  match omap (λ o, match o with Panic p => Some p | _ => None end) outcomes with
  | p :: _ => Panic p
  | [] =>
      match omap (λ o, match o with Err err => Some err | _ => None end) outcomes with
      | [] => Ok (omap (λ o, match o with Ok x => Some x | _ => None end) outcomes)
      | errs => Err (pick errs)
      end
  end.

(** [DocumentList]: the heap of documents, compared by their matches. *)
Definition doc_less (o : option SortOrder) (a b : Hit * M) : bool := sort_less o a.2 b.2.

(** [Done] drops what comes before the page, then [Next] takes at most [size]. *)
Definition take_page (o : option SortOrder) (from size : Z) (h : list (Hit * M)) : res (list Hit) :=
  '(_, h) ← pop_n (doc_less o) (Nat.min (Z.to_nat from) (length h)) h;
  '(xs, _) ← pop_n (doc_less o) (Nat.min (Z.to_nat size) (length h)) h;
  Ok xs.*1.

(** The size of the page: what the readers sent may raise it, never above what
    was asked for. *)
Definition page_size (maxSize : Z) (sent : list nat) : Z :=
  let size := foldl (λ size n, if decide (size < Z.of_nat n)%Z then Z.of_nat n else size) maxSize sent in
  if decide (maxSize < size)%Z then maxSize else size.

Definition MultiZincSearch (pick : list string → string) (arrival : shuffle (Hit * M)) (q : ZincQuery) (rs : list searcher)
    : res SearchResponse * ZincQuery :=
  match rs with
  | [] => (Ok (mkResponse [] 0), q)
  | [r] => getSingleReaderResult q r
  | _ =>
      let from := q_from q in
      let maxSize := q_size q in
      match NormalizeQuery analyzers mappings sort_conditions order e (set_page 0 (int64 (q_size q + q_from q)) q) with
      | (Ok _, q) =>
          (req ← ParseQueryDSL analyzers mappings sort_conditions order e q;
           rss ← all_readers pick q req rs;
           let docs := concat rss.*1 in
           let heap := foldl (λ h d, Push (doc_less (r_order req)) d h) [] (shuf arrival docs) in
           hits ← take_page (r_order req) from (page_size maxSize (length <$> rss.*1)) heap;
           Ok (mkResponse hits (foldr Z.add 0%Z rss.*2)), q)
      | (Err err, q) => (Err err, q)
      | (Panic p, q) => (Panic p, q)
      end
  end.

(** * The page of a search *)

(** What a reader promises: of the matches [A] of a query, the page of the
    request in its sort order, and their number. *)
Definition serves (A : bquery → list M) (r : searcher) : Prop := ∀ req,
  (0 ≤ r_from req)%Z → (0 ≤ r_size req)%Z →
  ∃ ms, r req = Ok (ms, None, Z.of_nat (length (A (r_query req)))) ∧
    is_page (sort_less (r_order req)) (Z.to_nat (r_from req)) (Z.to_nat (r_size req)) (A (r_query req)) ms.

Lemma normalize_page q q' n :
  NormalizeQuery analyzers mappings sort_conditions order e q = (Ok tt, q') →
  (q_size q ≤ MaxResults e)%Z → (n ≤ MaxResults e)%Z →
  NormalizeQuery analyzers mappings sort_conditions order e (set_page 0 n q) = (Ok tt, set_page 0 n q').
Proof.
  unfold NormalizeQuery. intros HN Hq Hn. cbn [q_size set_page]. rewrite decide_False in HN by lia. rewrite decide_False by lia.
  change (parse_query analyzers mappings sort_conditions order e (set_page 0 n q))
    with (parse_query analyzers mappings sort_conditions order e q).
  destruct (parse_query analyzers mappings sort_conditions order e q); try done.
  cbn [q_highlight q_source q_fields q_sort set_page set_highlight set_source] in *.
  destruct (source_Request (q_source q)); try done.
  destruct (q_fields q) as [[[]|]|]; cbn in *;
    try (destruct (fields_Request _); cbn in *; try done);
    (destruct (q_sort q) as [srt|]; cbn in *; [destruct (sort_Request srt); try done|]; by simplify_eq).
Qed.

Lemma parse_page q req n :
  ParseQueryDSL analyzers mappings sort_conditions order e q = Ok req →
  ParseQueryDSL analyzers mappings sort_conditions order e (set_page 0 n q) =
    Ok (mkRequest (r_query req) n 0 (r_order req) (r_explain req) (r_locations req) (r_aggs req)).
Proof.
  unfold ParseQueryDSL.
  change (parse_query analyzers mappings sort_conditions order e (set_page 0 n q))
    with (parse_query analyzers mappings sort_conditions order e q).
  destruct (parse_query analyzers mappings sort_conditions order e q); cbn; try done.
  destruct (if q_aggs q then agg_err e else None); [done|].
  destruct (q_sort q) as [[]|]; cbn; try done; by intros [= <-].
Qed.

Lemma visit_all_ok q (hit : M → Hit) ms :
  (∀ m, m ∈ ms → visitMatchedDoc q m = Ok (hit m)) → visit_all q ms = Ok (hit <$> ms).
Proof.
  induction ms as [|m ms IH]; intros Hv; [done|]. cbn. rewrite Hv by left. cbn.
  rewrite IH; [done|]. intros m' Hm'. apply Hv. by right.
Qed.

Lemma all_readers_ok pick q req rs os :
  Forall2 (λ r o, reader_docs q req r = Ok o) rs os → all_readers pick q req rs = Ok os.
Proof.
  intros H. unfold all_readers.
  assert (reader_docs q req <$> rs = Ok <$> os) as -> by (induction H; cbn; [done|congruence]).
  assert (omap (λ o, match o with Panic p => Some p | _ => None end) (Ok <$> os) = []) as ->.
  { clear H. by induction os. }
  assert (omap (λ o, match o with Err err => Some err | _ => None end) (Ok <$> os) = []) as ->.
  { clear H. by induction os. }
  f_equal. clear H. induction os; [done|]. cbn. by f_equal.
Qed.

Lemma page_subset {X} (less : X → X → bool) from size all hits : is_page less from size all hits → hits ⊆ all.
Proof.
  intros (xs & <- & _ & ->) x Hx. rewrite <-(take_drop from xs), <-(take_drop size (drop from xs)). set_solver.
Qed.

Lemma zip_hits (hit : M → Hit) ms : zip (hit <$> ms) ms = (λ m, (hit m, m)) <$> ms.
Proof. induction ms as [|m ms IH]; [done|]. cbn. by f_equal. Qed.

Lemma page_size_max maxSize sent : page_size maxSize sent = maxSize.
Proof.
  unfold page_size. cbv zeta.
  assert (∀ size, maxSize ≤ size → maxSize ≤ foldl (λ size n, if decide (size < Z.of_nat n)%Z then Z.of_nat n else size) size sent)%Z as H.
  { induction sent as [|n sent IH]; intros size Hs; [done|]. cbn. apply IH. case_decide; lia. }
  specialize (H maxSize ltac:(lia)). case_decide; lia.
Qed.

Section page.
Context {sort_order : ∀ o, WeakOrder (sort_less o)}.
Context (q q' : ZincQuery) (req : request) (hit : M → Hit).
Hypothesis Hnorm : NormalizeQuery analyzers mappings sort_conditions order e q = (Ok tt, q').
Hypothesis Hreq : ParseQueryDSL analyzers mappings sort_conditions order e q' = Ok req.
Hypothesis Hpage : (0 ≤ q_from q ∧ 0 ≤ q_size q ∧ q_from q + q_size q ≤ MaxResults e < 2 ^ 63)%Z.

#[local] Instance doc_less_order o : WeakOrder (doc_less o).
Proof.
  unfold doc_less. constructor; intros.
  - apply less_irrefl.
  - by eapply less_trans.
  - by eapply less_incomparable.
Qed.

Lemma normalized_page : q_from q' = q_from q ∧ q_size q' = q_size q.
Proof.
  clear Hreq. unfold NormalizeQuery in Hnorm. rewrite decide_False in Hnorm by lia.
  destruct (parse_query analyzers mappings sort_conditions order e q); try done.
  cbn [q_highlight q_source q_fields q_sort set_highlight set_source] in Hnorm.
  destruct (source_Request (q_source q)); try done.
  destruct (q_fields q) as [[[]|]|]; cbn in *;
    try (destruct (fields_Request _); cbn in *; try done);
    (destruct (q_sort q) as [srt|]; cbn in *; [destruct (sort_Request srt); try done|]; by simplify_eq).
Qed.

Lemma request_page : r_from req = q_from q ∧ r_size req = q_size q.
Proof.
  destruct normalized_page as [<- <-]. pose proof Hreq as H. unfold ParseQueryDSL in H.
  destruct (parse_query _ _ _ _ _ _); cbn in H; try done. destruct (if q_aggs q' then _ else _); [done|].
  destruct normalized_page as [Hf _].
  destruct (q_sort q') as [[]|]; cbn in H; simplify_eq; cbn; (split; [case_decide; lia|done]).
Qed.

(** One reader serves the page itself. *)
Lemma single_page A r :
  serves A r → (∀ m, m ∈ A (r_query req) → visitMatchedDoc q' m = Ok (hit m)) →
  ∃ ms, getSingleReaderResult q r = (Ok (mkResponse (hit <$> ms) (Z.of_nat (length (A (r_query req))))), q') ∧
    is_page (sort_less (r_order req)) (Z.to_nat (q_from q)) (Z.to_nat (q_size q)) (A (r_query req)) ms.
Proof.
  intros Hr Hv. destruct request_page as [Hf Hs]. destruct (Hr req) as (ms & Hms & Hp); [lia..|].
  rewrite Hf, Hs in Hp. exists ms. split; [|done]. unfold getSingleReaderResult. rewrite Hnorm, Hreq. cbn. rewrite Hms. cbn.
  rewrite (visit_all_ok q' hit); [done|]. intros m Hm. apply Hv. by eapply page_subset.
Qed.

(** Several readers serve their best results, which the heap merges. *)
Lemma readers_docs As rs :
  let req0 := mkRequest (r_query req) (q_size q + q_from q) 0 (r_order req) (r_explain req) (r_locations req) (r_aggs req) in
  Forall2 serves As rs →
  (∀ A m, A ∈ As → m ∈ A (r_query req) → visitMatchedDoc (set_page 0 (q_size q + q_from q) q') m = Ok (hit m)) →
  ∃ os, Forall2 (λ r o, reader_docs (set_page 0 (q_size q + q_from q) q') req0 r = Ok o) rs os ∧
    os.*2 = (λ A : bquery → list M, Z.of_nat (length (A (r_query req)))) <$> As ∧
    Forall2 (is_page (doc_less (r_order req)) 0 (Z.to_nat (q_from q) + Z.to_nat (q_size q)))
      ((λ A : bquery → list M, (λ m, (hit m, m)) <$> A (r_query req)) <$> As) os.*1.
Proof.
  intros req0. induction 1 as [|A r As rs Hr _ IH]; intros Hv; [by exists []|].
  destruct IH as (os & Hos & Hn & Htops); [intros A' m HA'; apply Hv; by right|].
  destruct (Hr req0) as (ms & Hms & Hp); [cbn; lia..|]. cbn in Hms, Hp.
  exists ((zip (hit <$> ms) ms, Z.of_nat (length (A (r_query req)))) :: os). split_and!.
  - constructor; [|done]. unfold reader_docs. rewrite Hms. cbn. rewrite (visit_all_ok _ hit); [done|].
    intros m Hm. apply (Hv A); [left|]. by eapply page_subset.
  - cbn. by rewrite Hn.
  - cbn. constructor; [|done]. rewrite zip_hits.
    apply (is_page_fmap (sort_less (r_order req)) (λ m, (hit m, m)) snd); [done|].
    by replace (Z.to_nat (q_from q) + Z.to_nat (q_size q)) with (Z.to_nat (q_size q + q_from q)) by lia.
Qed.

Lemma multi_page pick arrival As rs r1 r2 :
  Forall2 serves As (r1 :: r2 :: rs) →
  (∀ A m, A ∈ As → m ∈ A (r_query req) → visitMatchedDoc q' m = Ok (hit m)) →
  ∃ ms q'', MultiZincSearch pick arrival q (r1 :: r2 :: rs) =
      (Ok (mkResponse (hit <$> ms) (foldr Z.add 0%Z ((λ A : bquery → list M, Z.of_nat (length (A (r_query req)))) <$> As))), q'') ∧
    (q_size q ≤ q_size q'')%Z ∧ is_page (sort_less (r_order req)) (Z.to_nat (q_from q)) (Z.to_nat (q_size q)) (concat ((λ A : bquery → list M, A (r_query req)) <$> As)) ms.
Proof.
  intros Hrs Hv. destruct (readers_docs As _ Hrs) as (os & Hos & Hn & Htops); [done|].
  destruct (heap_page (doc_less (r_order req)) _ _ _ os.*1 (shuf arrival (concat os.*1)) Htops)
    as (sk & h1 & hits & h2 & Hsk & Hhits & Hp); [apply shuf_perm|].
  assert (concat ((λ A : bquery → list M, (λ m, (hit m, m)) <$> A (r_query req)) <$> As) =
          (λ m, (hit m, m)) <$> concat ((λ A : bquery → list M, A (r_query req)) <$> As)) as Hc.
  { clear. induction As as [|A As IH]; [done|]. cbn. by rewrite fmap_app, <-IH. }
  rewrite Hc in Hp. apply (is_page_fmap_inv (sort_less (r_order req)) (λ m, (hit m, m)) snd) in Hp
    as (ms & -> & Hp); [|done].
  exists ms, (set_page 0 (q_size q + q_from q) q'). split; [|split; [cbn; lia|exact Hp]]. unfold MultiZincSearch. rewrite int64_small by lia.
  rewrite (normalize_page q q') by (done || lia). rewrite (parse_page q' req) by done. cbn [mbind res_bind].
  rewrite (all_readers_ok _ _ _ _ os) by done. cbn [mbind res_bind r_order].
  rewrite page_size_max. unfold take_page. rewrite Hsk. cbn [mbind res_bind]. rewrite Hhits. cbn [mbind res_bind].
  rewrite Hn. by rewrite <-list_fmap_compose.
Qed.

(** The page of all the readers together, however many there are. *)
Lemma MultiZincSearch_page pick arrival As rs :
  Forall2 serves As rs →
  (∀ A m, A ∈ As → m ∈ A (r_query req) → visitMatchedDoc q' m = Ok (hit m)) →
  ∃ ms q'', MultiZincSearch pick arrival q rs =
      (Ok (mkResponse (hit <$> ms) (Z.of_nat (length (concat ((λ A : bquery → list M, A (r_query req)) <$> As))))), q'') ∧
    (q_size q ≤ q_size q'')%Z ∧ is_page (sort_less (r_order req)) (Z.to_nat (q_from q)) (Z.to_nat (q_size q)) (concat ((λ A : bquery → list M, A (r_query req)) <$> As)) ms.
Proof.
  assert (∀ As : list (bquery → list M), foldr Z.add 0%Z ((λ A : bquery → list M, Z.of_nat (length (A (r_query req)))) <$> As) =
          Z.of_nat (length (concat ((λ A : bquery → list M, A (r_query req)) <$> As)))) as Hsum.
  { induction As0 as [|A As0 IH]; [done|]. cbn. rewrite length_app, IH. lia. }
  intros Hrs Hv. destruct rs as [|r1 [|r2 rs]].
  - apply Forall2_nil_inv_r in Hrs as ->. exists [], q. split_and!; [done..|]. exists []. split_and!; [done|constructor|].
    by rewrite drop_nil, take_nil.
  - apply Forall2_cons_inv_r in Hrs as (A & As' & Hr & ->%Forall2_nil_inv_r & ->).
    destruct (single_page A r1 Hr) as (ms & Hms & Hp); [intros m; apply Hv; left|].
    exists ms, q'. cbn. rewrite app_nil_r, Hms. split_and!; [done| |done]. destruct normalized_page as [_ ->]. done.
  - rewrite <-Hsum. by apply multi_page.
Qed.
End page.

(** A request whose [fields] is not an array is accepted, and then panics on
    the first document that has a source: [NormalizeQuery] leaves the value as it
    is, and [visitMatchedDoc] asserts that it was parsed.  With several readers
    this happens in a goroutine of its own. *)
Theorem fields_not_an_array_panic q q' v m before src after :
  NormalizeQuery analyzers mappings sort_conditions order e q = (Ok tt, q') →
  q_fields q = Some (FieldsJson v) → as_array v = None →
  stored m = Ok (before ++ ("_source", src) :: after) → (∀ kv, kv ∈ before → kv.1 ≠ "_source") →
  visitMatchedDoc q' m = Panic PTypeAssert.
Proof.
  intros HN Hf Hv Hst Hbefore.
  assert (q_fields q' = Some (FieldsJson v) ∧ ∃ s, q_source q' = SourceParsed s) as [Hf' [s Hs]].
  { unfold NormalizeQuery in HN.
    set (q0 := if decide (MaxResults e < q_size q)%Z then set_size (MaxResults e) q else q) in HN.
    assert (q_fields q0 = Some (FieldsJson v)) as Hf0 by (unfold q0; by case_decide). clearbody q0. clear Hf q.
    destruct (parse_query analyzers mappings sort_conditions order e q0); try done. cbn in HN.
    destruct (source_Request (q_source q0)) as [s| |]; try done. rewrite Hf0 in HN.
    destruct v; try done; cbn in HN;
      (destruct (q_sort q0) as [srt|]; [destruct (sort_Request srt); try done|]; injection HN as <-; cbn; by rewrite Hf0; eauto). }
  unfold visitMatchedDoc. rewrite Hst, foldM_app.
  rewrite (foldM_ok (visit_field q') (λ h kv, if decide (kv.1 = "_id") then mkHit (hit_index h) kv.2 (hit_source h) (hit_fields h)
      else if decide (kv.1 = "_index") then mkHit kv.2 (hit_id h) (hit_source h) (hit_fields h) else h) (mkHit "" "" None None) before).
  - cbn. by rewrite Hs, Hf'.
  - intros h [k x] Hin. specialize (Hbefore _ Hin). cbn in *. repeat case_decide; done.
Qed.
End search.

