(* ===== verification/SearchStats.v ===== *)
(** Unified scores: pkg/bluge/search/stats.go (term statistics that are collected
    from many readers and nodes and merged) and [getLocalStatsInfo],
    [getFieldStats] of pkg/core/multi_search.go, [unifiedReader] of
    pkg/core/searcher.go. *)
From S2P Require Import Prelude Query.

(** * Base64 *)

Definition b64_alphabet : string := "ABCDEFGHIJKLMNOPQRSTUVWXYZabcdefghijklmnopqrstuvwxyz0123456789+/".
Definition b64_char (n : nat) : ascii := default "="%char (String.get n b64_alphabet).

(** [base64.StdEncoding.EncodeToString]: three bytes give four characters; the
    last group is padded. *)
Fixpoint base64 (s : string) : string :=
  match s with
  | EmptyString => ""
  | String a EmptyString =>
      let a := nat_of_ascii a in
      String (b64_char (a / 4)) (String (b64_char (a mod 4 * 16)) "==")
  | String a (String b EmptyString) =>
      let a := nat_of_ascii a in let b := nat_of_ascii b in
      String (b64_char (a / 4)) (String (b64_char (a mod 4 * 16 + b / 16)) (String (b64_char (b mod 16 * 4)) "="))
  | String a (String b (String c s)) =>
      let a := nat_of_ascii a in let b := nat_of_ascii b in let c := nat_of_ascii c in
      String (b64_char (a / 4)) (String (b64_char (a mod 4 * 16 + b / 16))
        (String (b64_char (b mod 16 * 4 + c / 64)) (String (b64_char (c mod 64)) (base64 s))))
  end.

(** * Statistics (stats.go) *)

Record TermStats := mkTermStats { Value : string; Freq : Z }.
Record FieldStats := mkFieldStats {
  Terms : gmap string TermStats; Field : string; SumTotalTermFreq : Z; DocCount : Z; TotalDocCount : Z
}.
(** A nil map is an empty one: it is made before it is written. *)
Notation UnifiedStats := (gmap string FieldStats).

Definition set_terms (f : gmap string TermStats → gmap string TermStats) (x : FieldStats) : FieldStats :=
  mkFieldStats (f (Terms x)) (Field x) (SumTotalTermFreq x) (DocCount x) (TotalDocCount x).
Definition add_counts (x f : FieldStats) : FieldStats :=
  mkFieldStats (Terms x) (Field x) (wrap64 (SumTotalTermFreq x + SumTotalTermFreq f))
    (wrap64 (DocCount x + DocCount f)) (wrap64 (TotalDocCount x + TotalDocCount f)).

Definition add_freq (term : string) (freq : Z) (terms : gmap string TermStats) : gmap string TermStats :=
  match terms !! term with
  | Some t => <[term := mkTermStats (Value t) (wrap64 (Freq t + freq))]> terms
  | None => <[term := mkTermStats term freq]> terms
  end.

Definition MergeTerm (field term : string) (freq : Z) (s : UnifiedStats) : UnifiedStats :=
  match s !! field with
  | Some x => <[field := set_terms (add_freq term freq) x]> s
  | None => <[field := mkFieldStats {[term := mkTermStats term freq]} field 0 0 0]> s
  end.

Section merge_stats.
Context (order_terms : map_order string TermStats) (order_fields : map_order string FieldStats).

Definition MergeField (s : UnifiedStats) (f : FieldStats) : UnifiedStats :=
  let s := match s !! Field f with
           | Some x => <[Field f := add_counts x f]> s
           | None => <[Field f := mkFieldStats ∅ (Field f) (SumTotalTermFreq f) (DocCount f) (TotalDocCount f)]> s
           end in
  foldl (λ s kt, MergeTerm (Field f) (Value kt.2) (Freq kt.2) s) s (range order_terms (Terms f)).

Definition Merge (s other : UnifiedStats) : UnifiedStats :=
  foldl (λ s kf, MergeField s kf.2) s (range order_fields other).

(** * Collecting (multi_search.go) *)

(** What a reader answers: the counts of a field, none when the index is empty,
    and the number of documents with a term. *)
Record reader := mkReader {
  CollectionStats : string → res (option (Z * Z * Z));
  GetDocumentFreq : string → string → res Z
}.

(** [FieldStats.Merge] of [segment.CollectionStats]. *)
Definition merge_collection (x : FieldStats) (o : option (Z * Z * Z)) : FieldStats :=
  match o with
  | None => x
  | Some (total, docs, sum) =>
      mkFieldStats (Terms x) (Field x) (wrap64 (SumTotalTermFreq x + sum)) (wrap64 (DocCount x + docs))
        (wrap64 (TotalDocCount x + total))
  end.

Definition getTermFreq (r : reader) (field term : string) : res Z :=
  c ← GetDocumentFreq r term field; Ok (wrap64 (0 + c)).

Definition getFieldStats (r : reader) (field : string) (terms : list Term) : res FieldStats :=
  c ← CollectionStats r field;
  foldM (λ x t, freq ← getTermFreq r (t_field t) (t_value t);
                Ok (set_terms (add_freq (base64 (t_value t)) freq) x))
        (merge_collection (mkFieldStats ∅ field 0 0 0) c) terms.

Definition term_map (terms : list Term) : gmap string (list Term) :=
  foldl (λ m t, <[t_field t := default [] (m !! t_field t) ++ [t]]> m) ∅ terms.

(** The readers in order; opening one can fail, and an index that was never
    written has none.  The order of the fields may differ from reader to
    reader. *)
Definition getLocalStatsInfo (order : nat → map_order string (list Term)) (searchers : list (res (option reader)))
    (terms : list Term) : res UnifiedStats :=
  foldM (λ s (ir : nat * res (option reader)),
           o ← ir.2;
           match o with
           | None => Ok s
           | Some r => foldM (λ s ft, f ← getFieldStats r ft.1 ft.2; Ok (MergeField s f)) s
                             (range (order ir.1) (term_map terms))
           end) ∅ (zip (seq 0 (length searchers)) searchers).
End merge_stats.

(** * Reading with unified statistics (searcher.go) *)

Definition unified_GetDocumentFreq (s : UnifiedStats) (r : reader) (term field : string) : res Z :=
  match x ← s !! field; Terms x !! base64 term with
  | Some t => Ok (Freq t)
  | None => GetDocumentFreq r term field
  end.

Definition unified_CollectionStats (s : UnifiedStats) (r : reader) (field : string) : res (option (Z * Z * Z)) :=
  match s !! field with
  | Some x => Ok (Some (TotalDocCount x, DocCount x, SumTotalTermFreq x))
  | None => CollectionStats r field
  end.

(** * Adding up *)

(** Numbers that may be absent, added modulo 2^64. *)
Definition oadd (a b : option Z) : option Z :=
  match a, b with Some a, Some b => Some (wrap64 (a + b)) | None, o | o, None => o end.
#[global] Arguments oadd : simpl never.
Fixpoint osum {A} (f : A → option Z) (xs : list A) : option Z :=
  match xs with [] => None | x :: xs => oadd (f x) (osum f xs) end.

Lemma wrap64_add_l a b : wrap64 (wrap64 a + b) = wrap64 (a + b).
Proof. unfold wrap64. by rewrite Zplus_mod_idemp_l. Qed.

#[global] Instance oadd_comm : Comm (=) oadd.
Proof. intros [a|] [b|]; unfold oadd; try done. by rewrite Z.add_comm. Qed.
#[global] Instance oadd_assoc : Assoc (=) oadd.
Proof.
  intros [a|] [b|] [c|]; unfold oadd; try done. f_equal.
  rewrite (Z.add_comm a), !wrap64_add_l. f_equal. lia.
Qed.
#[global] Instance oadd_none_l : LeftId (=) None oadd.
Proof. by intros [a|]. Qed.
#[global] Instance oadd_none_r : RightId (=) None oadd.
Proof. by intros [a|]. Qed.

Lemma osum_app {A} (f : A → option Z) xs ys : osum f (xs ++ ys) = oadd (osum f xs) (osum f ys).
Proof. induction xs as [|x xs IH]; cbn; [by rewrite (left_id None oadd)|]. by rewrite IH, (assoc oadd). Qed.

Lemma osum_none {A} (f : A → option Z) xs : (∀ x, x ∈ xs → f x = None) → osum f xs = None.
Proof.
  induction xs as [|x xs IH]; intros Hf; [done|]. cbn. rewrite Hf, (left_id None oadd) by left.
  apply IH. intros y Hy. apply Hf. by right.
Qed.

Lemma osum_ext {A} (f g : A → option Z) xs : (∀ x, x ∈ xs → f x = g x) → osum f xs = osum g xs.
Proof.
  induction xs as [|x xs IH]; intros Hf; [done|]. cbn. rewrite Hf by left. f_equal.
  apply IH. intros y Hy. apply Hf. by right.
Qed.

(** A sum over the entries of a map in which only one key counts. *)
Lemma osum_key {K V} `{Countable K} (o : map_order K V) (m : gmap K V) (k : K) (f : V → option Z) :
  osum (λ kv : K * V, if decide (kv.1 = k) then f kv.2 else None) (range o m) = m !! k ≫= f.
Proof.
  destruct (m !! k) as [v|] eqn:E; cbn.
  - apply (range_elem o) in E as Hin. apply list_elem_of_split in Hin as (l1 & l2 & Hl).
    pose proof (range_nodup o m) as Hnd. rewrite Hl, fmap_app in Hnd. apply NoDup_app in Hnd as (_ & Hd & Hnd).
    rewrite fmap_cons in Hd, Hnd. apply NoDup_cons in Hnd as [Hd2 _].
    rewrite Hl, osum_app. cbn. rewrite decide_True by done.
    rewrite !osum_none; [by rewrite (left_id None oadd), (right_id None oadd)| |].
    + intros [k' v'] Hin. cbn. rewrite decide_False; [done|]. intros ->. apply Hd2. by apply (list_elem_of_fmap_2 fst) in Hin.
    + intros [k' v'] Hin. cbn. rewrite decide_False; [done|]. intros ->.
      apply (list_elem_of_fmap_2 fst) in Hin. apply (Hd _ Hin). left.
  - apply osum_none. intros [k' v'] Hin%(range_elem o). cbn. rewrite decide_False; [done|]. intros ->. congruence.
Qed.

(** * What the statistics say *)

(** The frequency of a term in a field, and one of the counts of a field. *)
Definition freq (s : UnifiedStats) (g u : string) : option Z := x ← s !! g; Freq <$> Terms x !! u.
Definition count (c : FieldStats → Z) (s : UnifiedStats) (g : string) : option Z := c <$> s !! g.

(** Terms are keyed by their value, fields by their name. *)
Definition terms_ok (x : FieldStats) : Prop := ∀ k t, Terms x !! k = Some t → Value t = k.
Definition stats_ok (s : UnifiedStats) : Prop := ∀ g x, s !! g = Some x → Field x = g ∧ terms_ok x.

(** The three counts, which are merged alike. *)
Inductive is_count : (FieldStats → Z) → Prop :=
  | count_sum : is_count SumTotalTermFreq
  | count_docs : is_count DocCount
  | count_total : is_count TotalDocCount.

Lemma add_freq_lookup term n terms u :
  Freq <$> add_freq term n terms !! u =
  if decide (u = term) then oadd (Freq <$> terms !! u) (Some n) else Freq <$> terms !! u.
Proof.
  unfold add_freq. destruct (terms !! term) as [t|] eqn:E; case_decide; subst;
    rewrite ?lookup_insert_eq, ?lookup_insert_ne, ?E by done; done.
Qed.

Lemma add_freq_ok term n x : terms_ok x → terms_ok (set_terms (add_freq term n) x).
Proof.
  intros Hx k t. cbn. unfold add_freq. destruct (Terms x !! term) as [t'|] eqn:E;
    (destruct (decide (k = term)) as [->|]; [rewrite lookup_insert_eq|rewrite lookup_insert_ne by done; apply Hx]);
    intros [= <-]; cbn; [by apply Hx|done].
Qed.

Lemma MergeTerm_freq f term n s g u :
  freq (MergeTerm f term n s) g u = if decide (g = f ∧ u = term) then oadd (freq s g u) (Some n) else freq s g u.
Proof.
  unfold freq, MergeTerm. destruct (decide (g = f)) as [->|Hg].
  - destruct (s !! f) as [x|] eqn:E; rewrite lookup_insert_eq; cbn.
    + rewrite add_freq_lookup. repeat case_decide; naive_solver.
    + destruct (decide (u = term)) as [->|]; [rewrite lookup_singleton_eq|rewrite lookup_singleton_ne by done];
        case_decide; naive_solver.
  - rewrite decide_False by naive_solver. destruct (s !! f); by rewrite lookup_insert_ne by done.
Qed.

Lemma MergeTerm_count c f term n s g :
  is_count c → is_Some (s !! f) → count c (MergeTerm f term n s) g = count c s g.
Proof.
  intros Hc [x Hx]. unfold count, MergeTerm. rewrite Hx. destruct (decide (g = f)) as [->|].
  - rewrite lookup_insert_eq, Hx. by destruct Hc.
  - by rewrite lookup_insert_ne.
Qed.

Lemma MergeTerm_keeps f term n s g : is_Some (s !! g) → is_Some (MergeTerm f term n s !! g).
Proof.
  intros Hg. unfold MergeTerm. destruct (s !! f); destruct (decide (g = f)) as [->|];
    by rewrite ?lookup_insert_eq, ?lookup_insert_ne by done.
Qed.

Lemma MergeTerm_ok f term n s : stats_ok s → stats_ok (MergeTerm f term n s).
Proof.
  intros Hs g x. unfold MergeTerm. destruct (s !! f) as [y|] eqn:E;
    (destruct (decide (g = f)) as [->|]; [rewrite lookup_insert_eq|rewrite lookup_insert_ne by done; apply Hs]); intros [= <-].
  - destruct (Hs _ _ E). split; [done|]. by apply add_freq_ok.
  - split; [done|]. intros k t; cbn; intros [<- <-]%lookup_singleton_Some. done.
Qed.

(** The terms of a field, one after the other. *)
Definition merge_terms (f : string) (s : UnifiedStats) (kts : list (string * TermStats)) : UnifiedStats :=
  foldl (λ s kt, MergeTerm f (Value kt.2) (Freq kt.2) s) s kts.

Lemma merge_terms_freq f kts : ∀ s g u,
  (∀ k t, (k, t) ∈ kts → Value t = k) →
  freq (merge_terms f s kts) g u =
  if decide (g = f) then oadd (freq s g u) (osum (λ kt, if decide (kt.1 = u) then Some (Freq kt.2) else None) kts) else freq s g u.
Proof.
  induction kts as [|[k t] kts IH]; intros s g u Hk; cbn [merge_terms foldl].
  { case_decide; [|done]. cbn. by rewrite (right_id None oadd). }
  fold (merge_terms f). change (foldl _ ?a kts) with (merge_terms f a kts). rewrite IH, MergeTerm_freq by (intros; apply Hk; by right).
  cbn. rewrite (Hk k t) by left. destruct (decide (g = f)) as [->|]; [|by rewrite decide_False by naive_solver].
  destruct (decide (k = u)) as [->|].
  - rewrite decide_True by done. by rewrite (assoc oadd).
  - rewrite decide_False by naive_solver. by rewrite (left_id None oadd).
Qed.

Lemma merge_terms_inv f kts : ∀ s,
  is_Some (s !! f) →
  (∀ c g, is_count c → count c (merge_terms f s kts) g = count c s g) ∧
  (stats_ok s → stats_ok (merge_terms f s kts)).
Proof.
  induction kts as [|[k t] kts IH]; intros s Hf; [done|]. cbn [merge_terms foldl].
  change (foldl _ ?a kts) with (merge_terms f a kts).
  destruct (IH (MergeTerm f (Value t) (Freq t) s)) as [Hc Hok]; [by apply MergeTerm_keeps|]. split.
  - intros c g Hcc. rewrite Hc by done. by apply MergeTerm_count.
  - intros Hs. by apply Hok, MergeTerm_ok.
Qed.

Section laws.
Context (order_terms : map_order string TermStats) (order_fields : map_order string FieldStats).
Notation MergeField := (MergeField order_terms).
Notation Merge := (Merge order_terms order_fields).

Definition with_counts (s : UnifiedStats) (f : FieldStats) : UnifiedStats :=
  match s !! Field f with
  | Some x => <[Field f := add_counts x f]> s
  | None => <[Field f := mkFieldStats ∅ (Field f) (SumTotalTermFreq f) (DocCount f) (TotalDocCount f)]> s
  end.

Lemma MergeField_eq s f : MergeField s f = merge_terms (Field f) (with_counts s f) (range order_terms (Terms f)).
Proof. reflexivity. Qed.

Lemma with_counts_freq s f g u : freq (with_counts s f) g u = freq s g u.
Proof.
  unfold freq, with_counts. destruct (s !! Field f) as [x|] eqn:E; destruct (decide (g = Field f)) as [->|];
    rewrite ?lookup_insert_eq, ?lookup_insert_ne, ?E by done; done.
Qed.

Lemma with_counts_count s f g c :
  is_count c → count c (with_counts s f) g = if decide (g = Field f) then oadd (count c s g) (Some (c f)) else count c s g.
Proof.
  intros Hc. unfold count, with_counts. destruct (s !! Field f) as [x|] eqn:E; case_decide; subst;
    rewrite ?lookup_insert_eq, ?lookup_insert_ne, ?E by done; by destruct Hc.
Qed.

Lemma with_counts_some s f : is_Some (with_counts s f !! Field f).
Proof. unfold with_counts. destruct (s !! Field f); by rewrite lookup_insert_eq. Qed.

Lemma with_counts_ok s f : stats_ok s → stats_ok (with_counts s f).
Proof.
  intros Hs g x. unfold with_counts. destruct (s !! Field f) as [y|] eqn:E;
    (destruct (decide (g = Field f)) as [->|]; [rewrite lookup_insert_eq|rewrite lookup_insert_ne by done; apply Hs]); intros [= <-].
  - destruct (Hs _ _ E). done.
  - by split; [|intros k t].
Qed.

Lemma MergeField_freq s f g u :
  terms_ok f →
  freq (MergeField s f) g u = if decide (g = Field f) then oadd (freq s g u) (Freq <$> Terms f !! u) else freq s g u.
Proof.
  intros Hf. rewrite MergeField_eq, merge_terms_freq, with_counts_freq.
  - case_decide; [|done]. f_equal. rewrite (osum_key order_terms (Terms f) u (λ t, Some (Freq t))). by destruct (Terms f !! u).
  - intros k t Hin%range_elem. by apply Hf.
Qed.

Lemma MergeField_count s f g c :
  is_count c →
  count c (MergeField s f) g = if decide (g = Field f) then oadd (count c s g) (Some (c f)) else count c s g.
Proof.
  intros Hc. rewrite MergeField_eq.
  destruct (merge_terms_inv (Field f) (range order_terms (Terms f)) (with_counts s f)) as [H _];
    [apply with_counts_some|]. rewrite H by done. by apply with_counts_count.
Qed.

Lemma MergeField_ok s f : stats_ok s → stats_ok (MergeField s f).
Proof.
  intros Hs. rewrite MergeField_eq.
  by apply (merge_terms_inv (Field f)); [apply with_counts_some|apply with_counts_ok].
Qed.

(** Merging adds every frequency and every count. *)
Lemma Merge_freq s other g u : stats_ok other → freq (Merge s other) g u = oadd (freq s g u) (freq other g u).
Proof.
  intros Ho. unfold SearchStats.Merge.
  transitivity (oadd (freq s g u) (osum (λ kf : string * FieldStats, if decide (kf.1 = g) then Freq <$> Terms kf.2 !! u else None)
                                        (range order_fields other))).
  2:{ f_equal. rewrite (osum_key order_fields other g (λ f, Freq <$> Terms f !! u)). done. }
  assert (∀ k f, (k, f) ∈ range order_fields other → Field f = k ∧ terms_ok f) as Hr.
  { intros k f Hin%range_elem. by apply Ho. }
  revert s Hr. generalize (range order_fields other) as kfs. induction kfs as [|[k f] kfs IH]; intros s Hr; cbn.
  { by rewrite (right_id None oadd). }
  destruct (Hr k f) as [<- Hf]; [left|]. rewrite IH by (intros; apply Hr; by right).
  rewrite MergeField_freq by done. rewrite (decide_ext (Field f = g) (g = Field f)) by (split; congruence).
  case_decide; [by rewrite (assoc oadd)|by rewrite (left_id None oadd)].
Qed.

Lemma Merge_count s other g c : is_count c → stats_ok other → count c (Merge s other) g = oadd (count c s g) (count c other g).
Proof.
  intros Hc Ho. unfold SearchStats.Merge.
  transitivity (oadd (count c s g) (osum (λ kf : string * FieldStats, if decide (kf.1 = g) then Some (c kf.2) else None)
                                        (range order_fields other))).
  2:{ f_equal. rewrite (osum_key order_fields other g (λ f, Some (c f))). unfold count. by destruct (other !! g). }
  assert (∀ k f, (k, f) ∈ range order_fields other → Field f = k) as Hr.
  { intros k f Hin%range_elem. by apply Ho. }
  revert s Hr. generalize (range order_fields other) as kfs. induction kfs as [|[k f] kfs IH]; intros s Hr; cbn.
  { by rewrite (right_id None oadd). }
  rewrite <-(Hr k f) by left. rewrite IH by (intros; apply Hr; by right).
  rewrite MergeField_count by done. rewrite (decide_ext (Field f = g) (g = Field f)) by (split; congruence).
  case_decide; [by rewrite (assoc oadd)|by rewrite (left_id None oadd)].
Qed.
End laws.

(** * What is collected *)

(** What a reader adds to a term of a field: its document frequency, once for
    every time the term occurs in the query. *)
Definition doc_freq (r : reader) (t : Term) : Z :=
  match GetDocumentFreq r (t_value t) (t_field t) with Ok c => wrap64 c | _ => 0%Z end.
Definition reader_freq (terms : list Term) (g u : string) (r : reader) : option Z :=
  osum (λ t, if decide (base64 (t_value t) = u) then Some (doc_freq r t) else None) (filter (λ t, t_field t = g) terms).
(** What it adds to a count of a field that the query mentions. *)
Definition reader_count (terms : list Term) (c : FieldStats → Z) (g : string) (r : reader) : option Z :=
  if decide (g ∈ t_field <$> terms) then
    Some (c (merge_collection (mkFieldStats ∅ g 0 0 0) match CollectionStats r g with Ok o => o | _ => None end))
  else None.

(** The readers that could be opened. *)
Definition opened (searchers : list (res (option reader))) : list reader :=
  omap (λ o, match o with Ok (Some r) => Some r | _ => None end) searchers.

Lemma getFieldStats_spec r field terms x :
  getFieldStats r field terms = Ok x →
  Field x = field ∧ terms_ok x ∧
  (∀ u, Freq <$> Terms x !! u = osum (λ t, if decide (base64 (t_value t) = u) then Some (doc_freq r t) else None) terms) ∧
  ∀ c, is_count c → c x = c (merge_collection (mkFieldStats ∅ field 0 0 0) match CollectionStats r field with Ok o => o | _ => None end).
Proof.
  unfold getFieldStats. destruct (CollectionStats r field) as [o| |]; cbn [mbind res_bind]; try done.
  set (x0 := merge_collection _ o).
  assert (Field x0 = field ∧ Terms x0 = ∅) as [Hf Ht] by (unfold x0, merge_collection; by destruct o as [[[]]|]).
  assert (terms_ok x0) as Hok by (intros k t; by rewrite Ht).
  enough (∀ x1, foldM (λ x t, freq ← getTermFreq r (t_field t) (t_value t);
             Ok (set_terms (add_freq (base64 (t_value t)) freq) x)) x1 terms = Ok x →
           Field x = Field x1 ∧ (terms_ok x1 → terms_ok x) ∧
           (∀ u, Freq <$> Terms x !! u =
              oadd (Freq <$> Terms x1 !! u) (osum (λ t, if decide (base64 (t_value t) = u) then Some (doc_freq r t) else None) terms)) ∧
           ∀ c, is_count c → c x = c x1) as H.
  { intros (HF & HO & HU & HC)%H. split_and!; [congruence|by apply HO| |done].
    intros u. by rewrite HU, Ht, lookup_empty, (left_id None oadd). }
  clearbody x0. clear. induction terms as [|t terms IH]; intros x1; cbn [foldM].
  { intros [= <-]. split_and!; [done..| |done]. intros u. cbn. by rewrite (right_id None oadd). }
  destruct (getTermFreq r (t_field t) (t_value t)) as [n| |] eqn:E; cbn [mbind res_bind]; try done.
  assert (doc_freq r t = n) as En.
  { unfold getTermFreq in E. unfold doc_freq. destruct (GetDocumentFreq r (t_value t) (t_field t)); by simplify_eq/=. }
  intros (HF & HO & HU & HC)%IH. split_and!.
  - done.
  - intros H1. by apply HO, add_freq_ok.
  - intros u. rewrite HU. cbn. rewrite add_freq_lookup, (decide_ext (base64 (t_value t) = u) (u = base64 (t_value t))) by (split; congruence).
    case_decide; [|by rewrite (left_id None oadd)]. by rewrite En, (assoc oadd).
  - intros c Hc. rewrite HC by done. by destruct Hc.
Qed.

Lemma term_map_lookup terms g :
  term_map terms !! g = if decide (g ∈ t_field <$> terms) then Some (filter (λ t, t_field t = g) terms) else None.
Proof.
  unfold term_map. induction terms as [|t terms IH] using rev_ind; [done|].
  rewrite foldl_snoc. set (m := foldl _ ∅ terms) in *. rewrite fmap_app, filter_app. cbn [fmap list_fmap].
  destruct (decide (t_field t = g)) as [<-|Hg].
  - rewrite lookup_insert_eq, decide_True by set_solver. rewrite IH. f_equal.
    rewrite filter_cons_True, filter_nil by done. case_decide as Hin; [done|]. cbn.
    rewrite (filter_none _ terms); [done|]. intros t' Ht' Heq. apply Hin. rewrite <-Heq. by apply list_elem_of_fmap_2.
  - rewrite lookup_insert_ne, IH by done. rewrite filter_cons_False, filter_nil, app_nil_r by done.
    apply decide_ext. set_solver.
Qed.

Section collected.
Context (order_terms : map_order string TermStats) (terms : list Term).
Notation MergeField := (MergeField order_terms).

(** The fields of one reader, in any order. *)
Lemma reader_turn r kls : ∀ s s',
  foldM (λ s ft, f ← getFieldStats r ft.1 ft.2; Ok (MergeField s f)) s kls = Ok s' →
  (stats_ok s → stats_ok s') ∧
  (∀ g u, freq s' g u = oadd (freq s g u) (osum (λ kl : string * list Term, if decide (kl.1 = g) then
     osum (λ t, if decide (base64 (t_value t) = u) then Some (doc_freq r t) else None) kl.2 else None) kls)) ∧
  ∀ c g, is_count c → count c s' g = oadd (count c s g) (osum (λ kl : string * list Term, if decide (kl.1 = g) then
     Some (c (merge_collection (mkFieldStats ∅ g 0 0 0) match CollectionStats r g with Ok o => o | _ => None end)) else None) kls).
Proof.
  induction kls as [|[k l] kls IH]; intros s s'; cbn.
  { intros [= <-]. split_and!; [done|intros; by rewrite (right_id None oadd)..]. }
  destruct (getFieldStats r k l) as [f| |] eqn:E; cbn; try done.
  apply getFieldStats_spec in E as (<- & Hok & Hfreq & Hcount). intros (HO & HF & HC)%IH. split_and!.
  - intros Hs. by apply HO, MergeField_ok.
  - intros g u. rewrite HF, MergeField_freq, Hfreq by done.
    rewrite (decide_ext (Field f = g) (g = Field f)) by (split; congruence).
    case_decide; [by rewrite (assoc oadd)|by rewrite (left_id None oadd)].
  - intros c g Hc. rewrite HC, MergeField_count, Hcount by done.
    rewrite (decide_ext (Field f = g) (g = Field f)) by (split; congruence).
    case_decide; [subst; by rewrite (assoc oadd)|by rewrite (left_id None oadd)].
Qed.

Lemma reader_adds o r s s' :
  foldM (λ s ft, f ← getFieldStats r ft.1 ft.2; Ok (MergeField s f)) s (range o (term_map terms)) = Ok s' →
  (stats_ok s → stats_ok s') ∧ (∀ g u, freq s' g u = oadd (freq s g u) (reader_freq terms g u r)) ∧
  ∀ c g, is_count c → count c s' g = oadd (count c s g) (reader_count terms c g r).
Proof.
  intros (HO & HF & HC)%reader_turn. split_and!; [done| |].
  - intros g u. rewrite HF. f_equal.
    rewrite (osum_key o (term_map terms) g (osum (λ t, if decide (base64 (t_value t) = u) then Some (doc_freq r t) else None))).
    rewrite term_map_lookup. unfold reader_freq. case_decide as Hg; [done|]. cbn.
    rewrite (filter_none _ terms); [done|]. intros t Ht <-. by apply Hg, list_elem_of_fmap_2.
  - intros c g Hc. rewrite HC by done. f_equal.
    rewrite (osum_key o (term_map terms) g (λ _, Some (c (merge_collection (mkFieldStats ∅ g 0 0 0)
       match CollectionStats r g with Ok o => o | _ => None end)))).
    rewrite term_map_lookup. unfold reader_count. by case_decide.
Qed.

(** The statistics of a node are the sums over its readers. *)
Lemma getLocalStatsInfo_spec order searchers s :
  getLocalStatsInfo order_terms order searchers terms = Ok s →
  stats_ok s ∧ (∀ g u, freq s g u = osum (reader_freq terms g u) (opened searchers)) ∧
  ∀ c g, is_count c → count c s g = osum (reader_count terms c g) (opened searchers).
Proof.
  unfold getLocalStatsInfo. generalize 0 as n. intros n.
  enough (∀ s0, foldM (λ s (ir : nat * res (option reader)), o ← ir.2;
           match o with
           | None => Ok s
           | Some r => foldM (λ s ft, f ← getFieldStats r ft.1 ft.2; Ok (MergeField s f)) s (range (order ir.1) (term_map terms))
           end) s0 (zip (seq n (length searchers)) searchers) = Ok s →
    (stats_ok s0 → stats_ok s) ∧ (∀ g u, freq s g u = oadd (freq s0 g u) (osum (reader_freq terms g u) (opened searchers))) ∧
    ∀ c g, is_count c → count c s g = oadd (count c s0 g) (osum (reader_count terms c g) (opened searchers))) as H.
  { intros (HO & HF & HC)%H. split_and!; [by apply HO| |].
    - intros g u. rewrite HF. unfold freq at 1. by rewrite lookup_empty, (left_id None oadd).
    - intros c g Hc. rewrite HC by done. unfold count at 1. by rewrite lookup_empty, (left_id None oadd). }
  revert n. induction searchers as [|o searchers IH]; intros n s0; cbn.
  { intros [= <-]. split_and!; [done|intros; by rewrite (right_id None oadd)..]. }
  destruct o as [[r|]| |]; cbn; try done; [|apply IH].
  match goal with |- context [foldM ?f s0 ?l] => destruct (foldM f s0 l) as [s1| |] eqn:E; cbn; try done end.
  apply reader_adds in E as (HO1 & HF1 & HC1). intros (HO & HF & HC)%IH. split_and!.
  - auto.
  - intros g u. by rewrite HF, HF1, (assoc oadd).
  - intros c g Hc. by rewrite HC, HC1, (assoc oadd) by done.
Qed.
End collected.

Lemma Merge_ok order_terms order_fields s other : stats_ok s → stats_ok (Merge order_terms order_fields s other).
Proof.
  unfold Merge. generalize (range order_fields other) as kfs. intros kfs. revert s.
  induction kfs as [|kf kfs IH]; intros s Hs; [done|]. cbn. by apply IH, MergeField_ok.
Qed.

Lemma stats_ext s s' :
  stats_ok s → stats_ok s' → (∀ g u, freq s g u = freq s' g u) → (∀ c g, is_count c → count c s g = count c s' g) → s = s'.
Proof.
  intros Hs Hs' Hf Hc. apply map_eq. intros g.
  pose proof (Hc _ g count_sum) as H1. pose proof (Hc _ g count_docs) as H2. pose proof (Hc _ g count_total) as H3.
  specialize (Hf g). unfold freq in Hf. unfold count in H1, H2, H3.
  destruct (s !! g) as [[tm f n1 n2 n3]|] eqn:E, (s' !! g) as [[tm' f' n1' n2' n3']|] eqn:E'; cbn in *; try done.
  destruct (Hs _ _ E) as [Hn Hk], (Hs' _ _ E') as [Hn' Hk']. cbn in *. simplify_eq. f_equal. f_equal.
  apply map_eq. intros u. specialize (Hf u). specialize (Hk u). specialize (Hk' u). cbn in Hk, Hk'.
  destruct (tm !! u) as [[v m]|], (tm' !! u) as [[v' m']|]; cbn in *; simplify_eq; try done.
  pose proof (Hk _ eq_refl). pose proof (Hk' _ eq_refl). cbn in *. by subst.
Qed.

Lemma opened_app xs ys : opened (xs ++ ys) = opened xs ++ opened ys.
Proof. apply omap_app. Qed.

(** C14: Statistics can be collected in parts: what one node collects from its
    readers, merged with what another collects from its own, is what is collected
    from all of these readers together, for every order in which the maps are read,
    when all three collections succeed. These are the statistics that a distributed
    search hands to its nodes; a local search uses those of each reader instead. *)
Theorem stats_of_parts order_terms order_fields o1 o2 o3 xs ys terms s1 s2 s :
  getLocalStatsInfo order_terms o1 xs terms = Ok s1 →
  getLocalStatsInfo order_terms o2 ys terms = Ok s2 →
  getLocalStatsInfo order_terms o3 (xs ++ ys) terms = Ok s →
  Merge order_terms order_fields s1 s2 = s.
Proof.
  intros (H1 & F1 & C1)%getLocalStatsInfo_spec (H2 & F2 & C2)%getLocalStatsInfo_spec (H3 & F3 & C3)%getLocalStatsInfo_spec.
  apply stats_ext; [by apply Merge_ok|done| |].
  - intros g u. by rewrite Merge_freq, F1, F2, F3, opened_app, osum_app.
  - intros c g Hc. by rewrite Merge_count, C1, C2, C3, opened_app, osum_app.
Qed.

(** A term that occurs twice in a query is counted twice: its document frequency
    can exceed the number of documents. *)
Theorem repeated_term_counts_twice order_terms order r t n s :
  GetDocumentFreq r (t_value t) (t_field t) = Ok n → (0 ≤ n < 2 ^ 63)%Z →
  getLocalStatsInfo order_terms order [Ok (Some r)] [t; t] = Ok s →
  freq s (t_field t) (base64 (t_value t)) = Some (2 * n)%Z.
Proof.
  intros Hn Hr (_ & F & _)%getLocalStatsInfo_spec. rewrite F. change (opened _) with [r]. cbn [osum]. unfold reader_freq.
  rewrite !filter_cons_True, filter_nil by done. cbn [osum]. rewrite !decide_True by done.
  rewrite !(right_id None oadd). unfold doc_freq. rewrite Hn, wrap64_small by lia. unfold oadd.
  rewrite wrap64_small by lia. f_equal. lia.
Qed.

Module StatsDemo.
Definition demo_reader (docs freq : Z) : reader :=
  mkReader (λ _, Ok (Some (docs, docs, 10 * docs)%Z)) (λ _ _, Ok freq).

Definition demo_stats (searchers : list (res (option reader))) : res UnifiedStats :=
  getLocalStatsInfo map_order_default (λ _, map_order_default) searchers [NewTerm "title" "go"; NewTerm "body" "go"].

Lemma stats_of_parts_witness :
  ∃ s1 s2 s, demo_stats [Ok (Some (demo_reader 5 2)); Ok None] = Ok s1 ∧ demo_stats [Ok (Some (demo_reader 7 3))] = Ok s2 ∧
    demo_stats [Ok (Some (demo_reader 5 2)); Ok None; Ok (Some (demo_reader 7 3))] = Ok s ∧
    freq s "title" "Z28=" = Some 5%Z ∧ Merge map_order_default map_order_default s1 s2 = s.
Proof.
  eexists _, _, _. split_and!; [vm_compute; reflexivity..|].
  eapply (stats_of_parts _ _ (λ _, map_order_default) (λ _, map_order_default) (λ _, map_order_default)
            [Ok (Some (demo_reader 5 2)); Ok None] [Ok (Some (demo_reader 7 3))]
            [NewTerm "title" "go"; NewTerm "body" "go"]); vm_compute; reflexivity.
Defined.
End StatsDemo.
