(* ===== verification/ShardWal.v ===== *)
(** pkg/core/index_shards_wal.go and the commit path of
    pkg/core/index_document.go: operations on documents are collected per
    second shard and per document, merged, and written to the storage engine;
    the WAL consumer does the same for logged operations, under the protection
    of the redo log. *)
From S2P Require Import Prelude Hash Strconv Base62 RedoLog Value Document Shards.

(** * Merged operations *)

Record walDocument := mkWalDoc { docID : string; actions : list string; wdata : gmap string value }.

Abbreviation walMergeDocs := (gmap Z (gmap string walDocument)).

Definition MaxShardLen (w : walMergeDocs) : nat :=
  max_list ((λ kv, size kv.2) <$> map_to_list w).

(** [Reset] empties the document maps and keeps the shard entries. *)
Definition Reset (w : walMergeDocs) : walMergeDocs := (λ _, ∅) <$> w.

(** The shard number of an operation: an int64, or a float64 when the
    operation went through JSON. *)
Definition shard_of (v : value) : option Z :=
  match v with
  | VFloat x => Some (int64_of_float x)
  | VInt64 z => Some z
  | _ => None
  end.

Definition AddDocument (w : walMergeDocs) (data : gmap string value) : res walMergeDocs :=
  match data !! Meta.ActionFieldName with
  | Some (VStr action) =>
      match data !! Meta.IDFieldName with
      | Some (VStr id) =>
          match default VNil (data !! Meta.ShardFieldName) with
          | v =>
              match shard_of v with
              | None => Panic (PExplicit "invalid shardID type")
              | Some shardID =>
                  let shard := default ∅ (w !! shardID) in
                  let doc := default (mkWalDoc id [] ∅) (shard !! id) in
                  Ok (<[shardID := <[id := mkWalDoc (docID doc) (actions doc ++ [action]) data]> shard]> w)
              end
          end
      | _ => Panic PTypeAssert
      end
  | _ => Panic PTypeAssert
  end.

(** * Vector actions *)

Inductive Action := None_ | Insert | Update | Delete.

#[global] Instance Action_eq_dec : EqDecision Action.
Proof. solve_decision. Defined.

Record VecAction {vec : Type} := mkVecAction {
  DocId : string; Act : Action; vIndex : string; Vector : option vec; Field : string
}.
Arguments VecAction : clear implicits.

(** What the vector indexes promise: a batch of insertions and deletions. *)
Class VecStore (V vec : Type) := {
  VecBatch : string → string → list (option vec) → list Z → list Z → V → res unit * V
}.

Section wal.
Context {W bdoc vec V : Type} {bluge : Bluge W bdoc} {vecstore : VecStore V vec}.
(** [BuildBlugeDocumentFromJSON]: the document and its vectors. *)
Context (build : string → gmap string value → res (bdoc * list (string * vec))).
(** The name of the index and its vector fields, in the order of a traversal. *)
Context (indexName : string) (vec_fields : list string).
Context (open_err : Z → option string) (big_pow : nat → Z).
Context (doc_order : map_order string walDocument) (shard_order : map_order Z (gmap string walDocument)).
Context (vec_order : map_order string (list (VecAction vec))).

(** A first layer shard with the vector indexes of its index. *)
Record St := mkSt { shard : @IndexShard W; vectors : V }.

Definition on_shard {A} (m : M (@IndexShard W) A) : M St A := λ s,
  let '(r, sh) := m (shard s) in (r, mkSt sh (vectors s)).

(** [base62.Decode] of a document id; [big_pow] is its parameter. *)
Definition vec_id (id : string) : Z := Base62.Decode big_pow id.

(** The insertion and deletion lists of one vector index. *)
Definition vec_lists (acts : list (VecAction vec)) : list (option vec) * list Z * list Z :=
  foldl (λ '(ins, ids, dels) act,
    match Act act with
    | Insert => (ins ++ [Vector act], ids ++ [vec_id (DocId act)], dels)
    | Delete => (ins, ids, dels ++ [vec_id (DocId act)])
    | Update => (ins ++ [Vector act], ids ++ [vec_id (DocId act)], dels ++ [vec_id (DocId act)])
    | None_ => (ins, ids, dels)
    end) ([], [], []) acts.

Definition group_actions (acts : list (VecAction vec)) : gmap string (list (VecAction vec)) :=
  foldl (λ m act, let name := path_Join [vIndex act; Field act] in
                  <[name := default [] (m !! name) ++ [act]]> m) ∅ acts.

Definition BatchVectors (acts : list (VecAction vec)) : M St unit :=
  match acts with
  | [] => mret tt
  | _ =>
      forM (λ na, match na.2 with
                  | [] => mret tt
                  | act :: _ =>
                      let '(ins, ids, dels) := vec_lists na.2 in
                      λ s, let '(r, v) := VecBatch (vIndex act) (Field act) ins ids dels (vectors s) in
                           (r, mkSt (shard s) v)
                  end) (range vec_order (group_actions acts))
  end.

(** * Writing *)

(** The table of [WriteToShard]: what the first and last action on a document
    leave to do on the batch, on the other shards, and on the vectors. *)
Definition merge_actions (acts : list string) (id : string) (b : bdoc)
    : res (list (bop bdoc) * list (bop bdoc) * Action) :=
  let single := bool_decide (length acts = 1) in
  let upd := Ok ([BUpdate id b], [BDelete id], Update) in
  let del := Ok ([BDelete id], [BDelete id], Delete) in
  match acts with
  | [] => Panic PIndex
  | firstAction :: _ =>
      let lastAction := List.last acts "" in
      if decide (firstAction = Meta.ActionTypeInsert) then
        if single then Ok ([BInsert b], [], Insert)
        else if decide (lastAction = Meta.ActionTypeInsert) then Ok ([BInsert b], [], Insert)
        else if decide (lastAction = Meta.ActionTypeUpdate) then Ok ([BInsert b], [], Insert)
        else if decide (lastAction = Meta.ActionTypeDelete) then Ok ([], [], None_)
        else if decide (lastAction = Meta.ActionTypeDeleteVecOnly) then Ok ([], [], Delete)
        else Ok ([], [], None_)
      else if decide (firstAction = Meta.ActionTypeUpdate) then
        if single then upd
        else if decide (lastAction = Meta.ActionTypeInsert) then upd
        else if decide (lastAction = Meta.ActionTypeUpdate) then upd
        else if decide (lastAction = Meta.ActionTypeDelete) then del
        else if decide (lastAction = Meta.ActionTypeDeleteVecOnly) then Ok ([], [], Delete)
        else Ok ([], [], None_)
      else if decide (firstAction = Meta.ActionTypeDelete) then
        if single then del
        else if decide (lastAction = Meta.ActionTypeInsert) then upd
        else if decide (lastAction = Meta.ActionTypeUpdate) then upd
        else if decide (lastAction = Meta.ActionTypeDelete) then del
        else if decide (lastAction = Meta.ActionTypeDeleteVecOnly) then Ok ([], [], Delete)
        else Ok ([], [], None_)
      else if decide (firstAction = Meta.ActionTypeDeleteVecOnly) then
        if single then Ok ([], [], Delete)
        else if decide (lastAction = Meta.ActionTypeInsert) then upd
        else if decide (lastAction = Meta.ActionTypeUpdate) then upd
        else if decide (lastAction = Meta.ActionTypeDelete) then del
        else if decide (lastAction = Meta.ActionTypeDeleteVecOnly) then Ok ([], [], Delete)
        else Ok ([], [], None_)
      else Err ("walMergeDocs: invalid action type [" +:+ firstAction +:+ "]")
  end.

(** The vector actions of one document: its own vectors, and for a deletion
    every vector field of the index. *)
Definition vec_actions (id : string) (final : Action) (vecMap : list (string * vec)) : list (VecAction vec) :=
  match final with
  | None_ => []
  | _ =>
      ((λ fv, mkVecAction vec id final indexName (Some fv.2) fv.1) <$> vecMap) ++
      match final with
      | Delete => (λ f, mkVecAction vec id Delete indexName None f) <$> vec_fields
      | _ => []
      end
  end.

(** The loop over the documents of one shard entry. *)
Fixpoint write_docs (docs : list (string * walDocument))
    (batch other : list (bop bdoc)) (vecs : list (VecAction vec))
    : M St (list (bop bdoc) * list (bop bdoc) * list (VecAction vec)) :=
  match docs with
  | [] => mret (batch, other, vecs)
  | (_, doc) :: docs =>
      '(b, vecMap) ← lift (build (docID doc) (wdata doc));
      _ ← on_shard (SetTimestamp (doc_time b));
      '(ops, oops, final) ← lift (merge_actions (actions doc) (doc_id b) b);
      write_docs docs (batch ++ ops) (other ++ oops) (vecs ++ vec_actions (docID doc) final vecMap)
  end.

(** The writers of a shard entry: one, or every one with the last as target.
    The result is the target and the others. *)
Definition get_writers (shardID : Z) : M St (Z * list Z) :=
  if decide (0 ≤ shardID)%Z then (w ← on_shard (GetWriter open_err shardID); mret (w, []))
  else
    ws ← on_shard (GetWriters open_err);
    match last ws with
    | None => crash PIndex
    | Some w => mret (w, take (length ws - 1) ws)
    end.

Definition WriteToShard (w : walMergeDocs) (shardID : Z) (batch : list (bop bdoc)) : M St unit :=
  match w !! shardID with
  | None => mret tt
  | Some docs => λ s,
      let shardID := if decide (shardID = ShardIDNeedLatest) then GetLatestShardID (shard s) else shardID in
      deferred (on_shard (CloseWriter shardID))
        ('(target, others) ← get_writers shardID;
         '(ops, oops, vecs) ← write_docs (range doc_order docs) batch [] [];
         _ ← on_shard (writer_Batch target ops);
         _ ← forM (λ o, on_shard (writer_Batch o oops)) others;
         BatchVectors vecs) s
  end.

(** The loop of [WriteToShardRollback]. *)
Fixpoint rollback_docs (docs : list (string * walDocument)) (batch : list (bop bdoc))
    : M St (list (bop bdoc)) :=
  match docs with
  | [] => mret batch
  | (_, doc) :: docs =>
      '(b, _) ← lift (build (docID doc) (wdata doc));
      _ ← on_shard (SetTimestamp (doc_time b));
      match actions doc with
      | [] => crash PIndex
      | a :: _ => rollback_docs docs (if decide (a = Meta.ActionTypeInsert) then batch ++ [BDelete (doc_id b)] else batch)
      end
  end.

Definition WriteToShardRollback (w : walMergeDocs) (shardID : Z) (batch : list (bop bdoc)) : M St unit :=
  match w !! shardID with
  | None => mret tt
  | Some docs =>
      deferred (on_shard (CloseWriter shardID))
        (if decide (0 ≤ shardID)%Z then
           target ← on_shard (GetWriter open_err shardID);
           ops ← rollback_docs (range doc_order docs) batch;
           on_shard (writer_Batch target ops)
         else mret tt)
  end.

(** [WriteTo]: one shard entry after the other, in the order of the map.  The
    result is the emptied map. *)
Definition WriteTo (w : walMergeDocs) (rollback : bool) : M St walMergeDocs :=
  _ ← forM (λ sd, if rollback then WriteToShardRollback w sd.1 [] else WriteToShard w sd.1 [])
        (range shard_order w);
  mret (Reset w).

(** * Committing without the WAL *)

Fixpoint add_all (w : walMergeDocs) (ops : list (gmap string value)) : res walMergeDocs :=
  match ops with
  | [] => Ok w
  | op :: ops => w' ← AddDocument w op; add_all w' ops
  end.

(** The chunks [opList[i:end]] of a batch size; a size of 0 does not advance. *)
Fixpoint chunks (fuel : nat) (n : nat) {A} (l : list A) : list (list A) :=
  match fuel with
  | O => []
  | S fuel => match l with [] => [] | _ => take n l :: chunks fuel n (drop n l) end
  end.

Definition CommitOperations (BatchSize : nat) (MaxSize : Z) (store_err : option string)
    (opList : list (gmap string value)) : M St unit :=
  docsList ← lift (mapM (M := res) (add_all ∅) (chunks (length opList) BatchSize opList));
  _ ← forM (λ docs, _ ← WriteTo docs false; mret tt) docsList;
  _ ← on_shard (CheckShards open_err MaxSize store_err);
  on_shard UpdateMetadataByShard.

(** * The effect of a merged batch *)

(** The id an operation of a batch is about. *)
Definition op_id (o : bop bdoc) : string :=
  match o with BInsert d => doc_id d | BUpdate id _ | BDelete id => id end.
Definition op_ok (o : bop bdoc) : Prop :=
  match o with BUpdate id d => doc_id d = id | _ => True end.

(** The documents under [id] after a batch, from those before ([Batch_contents]). *)
Definition effect (ops : list (bop bdoc)) (old : list bdoc) (id : string) : list bdoc :=
  (if decide (id ∈ removed ops) then [] else old) ++ filter (λ d, doc_id d = id) (added ops).

Lemma elem_of_removed (ops : list (bop bdoc)) id :
  Forall op_ok ops → id ∈ removed ops → ∃ o, o ∈ ops ∧ op_id o = id.
Proof.
  intros _ (o & Ho & Hr)%list_elem_of_omap. exists o. split; [done|]. destruct o; naive_solver.
Qed.

Lemma added_others (ops : list (bop bdoc)) id :
  Forall op_ok ops → (∀ o, o ∈ ops → op_id o ≠ id) → filter (λ d, doc_id d = id) (added ops) = [].
Proof.
  intros Hok Hne. apply filter_none. intros d (o & Ho & Hd)%list_elem_of_omap Hid.
  apply (Hne o Ho). rewrite Forall_forall in Hok. specialize (Hok o Ho).
  destruct o; cbn in *; simplify_eq; congruence.
Qed.

Lemma removed_others (ops : list (bop bdoc)) id :
  Forall op_ok ops → (∀ o, o ∈ ops → op_id o ≠ id) → id ∉ removed ops.
Proof. intros Hok Hne Hr. destruct (elem_of_removed ops id Hok Hr) as (o & Ho & Hid). by apply (Hne o Ho). Qed.

Lemma removed_app (o1 o2 : list (bop bdoc)) : removed (o1 ++ o2) = removed o1 ++ removed o2.
Proof. apply omap_app. Qed.
Lemma added_app (o1 o2 : list (bop bdoc)) : added (o1 ++ o2) = added o1 ++ added o2.
Proof. apply omap_app. Qed.

Lemma effect_others (ops : list (bop bdoc)) old id :
  Forall op_ok ops → (∀ o, o ∈ ops → op_id o ≠ id) → effect ops old id = old.
Proof.
  intros Hok Hne. unfold effect.
  by rewrite decide_False, added_others, app_nil_r by auto using removed_others.
Qed.

Lemma effect_app_l (o1 o2 : list (bop bdoc)) old id :
  Forall op_ok o1 → (∀ o, o ∈ o1 → op_id o ≠ id) → effect (o1 ++ o2) old id = effect o2 old id.
Proof.
  intros Hok Hne. unfold effect. rewrite removed_app, added_app, filter_app, added_others by done.
  cbn [app]. f_equal. apply decide_ext. rewrite elem_of_app.
  pose proof (removed_others o1 id Hok Hne). tauto.
Qed.

Lemma effect_app_r (o1 o2 : list (bop bdoc)) old id :
  Forall op_ok o2 → (∀ o, o ∈ o2 → op_id o ≠ id) → effect (o1 ++ o2) old id = effect o1 old id.
Proof.
  intros Hok Hne. unfold effect. rewrite removed_app, added_app, filter_app, (added_others o2) by done.
  rewrite app_nil_r. f_equal. apply decide_ext. rewrite elem_of_app.
  pose proof (removed_others o2 id Hok Hne). tauto.
Qed.

(** The operations of one document. *)
Definition doc_ops (kd : string * walDocument) (ops : list (bop bdoc)) : Prop :=
  ∃ b vm oo final, build (docID kd.2) (wdata kd.2) = Ok (b, vm) ∧
    merge_actions (actions kd.2) (doc_id b) b = Ok (ops, oo, final).

Lemma merge_actions_ids acts b ops oo final :
  merge_actions acts (doc_id b) b = Ok (ops, oo, final) →
  Forall op_ok ops ∧ ∀ o, o ∈ ops → op_id o = doc_id b.
Proof.
  unfold merge_actions. destruct acts as [|a acts]; [done|].
  destruct (bool_decide (length (a :: acts) = 1)); intros Hm; repeat case_decide; simplify_eq;
    (split; [repeat constructor|]; intros o Ho; repeat (apply elem_of_cons in Ho as [->|Ho]; [done|]);
     by apply elem_of_nil in Ho).
Qed.

Lemma write_docs_spec docs : ∀ batch other vecs s ops oops vs s',
  write_docs docs batch other vecs s = (Ok (ops, oops, vs), s') →
  shards (shard s') = shards (shard s) ∧ vectors s' = vectors s ∧
  ∃ opss, ops = batch ++ concat opss ∧ Forall2 doc_ops docs opss.
Proof.
  induction docs as [|[k d] docs IH]; intros batch other vecs s ops oops vs s' Hw.
  { cbn [write_docs] in Hw. unfold mret, M_ret in Hw. simplify_eq. split_and!; [done|done|].
    exists []. cbn. rewrite app_nil_r. auto. }
  cbn [write_docs] in Hw. unfold mbind, M_bind, lift in Hw.
  destruct (build (docID d) (wdata d)) as [[b vm]| |] eqn:Hb; try done.
  destruct (on_shard (SetTimestamp (doc_time b)) s) as [[[]| |] s1] eqn:Ht; try done.
  destruct (merge_actions (actions d) (doc_id b) b) as [[[o1 o2] final]| |] eqn:Hm; try done.
  apply IH in Hw as (Hs & Hv & opss & -> & Hf). unfold on_shard, SetTimestamp, modify in Ht.
  simplify_eq. cbn [shard shards set_sstats vectors] in Hs, Hv. split_and!; [done|done|].
  exists (o1 :: opss). rewrite <-app_assoc. split; [done|]. constructor; [|done].
  by exists b, vm, o2, final.
Qed.

(** The document built for an id carries that id. *)
Definition builds_id : Prop := ∀ id data b vm, build id data = Ok (b, vm) → doc_id b = id.

Lemma effect_docs docs opss :
  builds_id → Forall2 doc_ops docs opss → (∀ k d, (k, d) ∈ docs → docID d = k) → NoDup docs.*1 →
  ∀ id old,
  (id ∉ docs.*1 → effect (concat opss) old id = old) ∧
  (∀ d, (id, d) ∈ docs → ∃ o, doc_ops (id, d) o ∧ effect (concat opss) old id = effect o old id).
Proof.
  intros Hbid Hf. induction Hf as [|[k d] o docs opss Ho Hf IH]; intros Hids Hnd id old.
  { split; [|intros d []%elem_of_nil]. intros _. apply effect_others; [constructor|].
    intros o []%elem_of_nil. }
  rewrite fmap_cons, NoDup_cons in Hnd. destruct Hnd as [Hk Hnd]. cbn [fst concat] in *.
  destruct (IH ltac:(intros k' d' Hin; apply Hids; by right) Hnd id old) as [IHn IHs].
  pose proof Ho as (b & vm & oo & final & Hb & Hm). cbn [snd] in Hb, Hm.
  destruct (merge_actions_ids _ _ _ _ _ Hm) as [Hok Hid].
  assert (doc_id b = k) as Hbk.
  { rewrite (Hbid _ _ _ _ Hb). apply Hids. by left. }
  assert (Forall op_ok (concat opss) ∧ ∀ o', o' ∈ concat opss → op_id o' ∈ docs.*1) as [Hcok Hcid].
  { clear -Hf Hbid Hids. induction Hf as [|[k1 d1] o1 docs opss (b1 & vm1 & oo1 & f1 & Hb1 & Hm1) Hf IH].
    - split; [constructor|]. intros o' []%elem_of_nil.
    - destruct (merge_actions_ids _ _ _ _ _ Hm1) as [Hok1 Hid1]. destruct IH as [IH1 IH2].
      { intros k' d' [Heq|Hin]%elem_of_cons; apply Hids; [rewrite Heq; by left|by right; right]. }
      cbn [concat]. split; [by apply Forall_app_2|].
      intros o' [Hin|Hin]%elem_of_app; rewrite fmap_cons; apply elem_of_cons; [left|right; by apply IH2].
      rewrite (Hid1 _ Hin), (Hbid _ _ _ _ Hb1). apply Hids. right. by left. }
  split.
  - intros [Hne Hnin]%not_elem_of_cons. rewrite effect_app_l; [by apply IHn|done|].
    intros o' Hin. rewrite Hid, Hbk by done. cbn [fst] in Hne. congruence.
  - intros d' [Heq|Hin]%elem_of_cons.
    + injection Heq as -> ->. exists o. split; [done|]. apply effect_app_r; [done|].
      intros o' Hin Heq. apply Hk. rewrite <-Heq. by apply Hcid.
    + destruct (IHs d' Hin) as (o' & Ho' & He). exists o'. split; [done|]. rewrite <-He.
      apply effect_app_l; [done|]. intros o1 Ho1. rewrite Hid, Hbk by done. intros ->.
      apply Hk. apply list_elem_of_fmap. by exists (id, d').
Qed.

Definition valid_action (a : string) : Prop :=
  a ∈ [Meta.ActionTypeInsert; Meta.ActionTypeUpdate; Meta.ActionTypeDelete; Meta.ActionTypeDeleteVecOnly].

(** An action that leaves the document in the index. *)
Definition keeps (a : string) : bool :=
  bool_decide (a ∈ [Meta.ActionTypeInsert; Meta.ActionTypeUpdate]).

(** Whether every insertion and every vector-only deletion of a run meets an id
    that has no document at that point; [present]: it has one before the run. *)
Fixpoint orderly (present : bool) (acts : list string) : bool :=
  match acts with
  | [] => true
  | a :: acts =>
      (negb present || negb (bool_decide (a ∈ [Meta.ActionTypeInsert; Meta.ActionTypeDeleteVecOnly]))) &&
      orderly (keeps a) acts
  end.

Definition present (old : list bdoc) : bool := match old with [] => false | _ => true end.

(** What a run of actions on an id whose indexed documents are [old] has to
    satisfy: insertions and vector-only deletions come when the id has no
    document, and a run with a vector-only deletion starts without one. *)
Definition run_ok (acts : list string) (old : list bdoc) : Prop :=
  Forall valid_action acts ∧ orderly (present old) acts = true ∧ (Meta.ActionTypeDeleteVecOnly ∈ acts → old = []).

Lemma last_in (acts : list string) : acts ≠ [] → List.last acts "" ∈ acts.
Proof.
  induction acts as [|a [|a' acts] IH]; [done|by left|]. intros _. right. by apply IH.
Qed.

Lemma effect_nil old id : effect [] old id = old.
Proof. unfold effect. cbn. by rewrite decide_False, app_nil_r by apply not_elem_of_nil. Qed.
Lemma effect_insert b : effect [BInsert b] [] (doc_id b) = [b].
Proof. unfold effect. cbn [removed added omap list_omap]. by rewrite filter_cons_True by done; case_decide. Qed.
Lemma effect_update b old : effect [BUpdate (doc_id b) b] old (doc_id b) = [b].
Proof.
  unfold effect. cbn [removed added omap list_omap].
  by rewrite decide_True, filter_cons_True by (done || by left).
Qed.
Lemma effect_delete old id : effect [BDelete id] old id = [].
Proof. unfold effect. cbn [removed added omap list_omap]. by rewrite decide_True by (by left). Qed.

Lemma merge_effect acts b o oo final old :
  acts ≠ [] → run_ok acts old → merge_actions acts (doc_id b) b = Ok (o, oo, final) →
  effect o old (doc_id b) = if keeps (List.last acts "") then [b] else [].
Proof.
  intros Hne (Hv & Hord & Hdv) Hm. pose proof (last_in acts Hne) as Hlast.
  assert (head acts = Some Meta.ActionTypeInsert ∨ Meta.ActionTypeDeleteVecOnly ∈ acts → old = []) as Hold.
  { intros [Hh|Hd]; [|by apply Hdv]. destruct acts as [|a acts]; [done|]. injection Hh as ->.
    cbn [orderly] in Hord. apply andb_prop in Hord as [Hord _]. by destruct old. }
  assert (List.last acts "" = Meta.ActionTypeDeleteVecOnly → old = []) as Hdvo.
  { intros Heq. apply Hold. right. by rewrite <-Heq. }
  assert (valid_action (List.last acts "")) as Hvl by (by eapply Forall_forall).
  unfold valid_action in Hvl. rewrite !elem_of_cons in Hvl. unfold merge_actions in Hm.
  destruct acts as [|a acts]; [done|]. cbn [head] in Hold.
  assert (bool_decide (length (a :: acts) = 1) = true → List.last (a :: acts) "" = a) as Hsingle.
  { intros Hb%bool_decide_eq_true. destruct acts; [done|discriminate Hb]. }
  set (l := List.last (a :: acts) "") in *. clearbody l.
  set (single := bool_decide (length (a :: acts) = 1)) in *. clearbody single.
  destruct Hvl as [Hl|[Hl|[Hl|[Hl|Hl%elem_of_nil]]]]; [..|done]; subst l;
    repeat (case_decide; try discriminate); destruct single; simplify_eq;
    try (specialize (Hsingle eq_refl); discriminate Hsingle);
    rewrite ?(Hold (or_introl eq_refl)), ?(Hdvo eq_refl);
    rewrite ?effect_insert, ?effect_update, ?effect_delete, ?effect_nil; done.
Qed.

(** * Sequential reference *)

(** Shard number, id and action of an operation. *)
Definition op_view (data : gmap string value) : option (Z * string * string) :=
  match data !! Meta.ActionFieldName, data !! Meta.IDFieldName, shard_of (default VNil (data !! Meta.ShardFieldName)) with
  | Some (VStr a), Some (VStr id), Some sid => Some (sid, id, a)
  | _, _, _ => None
  end.

(** The operations on one document of one shard entry, oldest first. *)
Definition history (ops : list (gmap string value)) (sid : Z) (id : string) : list (string * gmap string value) :=
  omap (λ data, match op_view data with
                | Some (s, i, a) => if decide (s = sid ∧ i = id) then Some (a, data) else None
                | None => None
                end) ops.

Lemma history_id ops sid id :
  history ops sid id ≠ [] → id ∈ omap (λ d, (λ v, v.1.2) <$> op_view d) ops.
Proof.
  destruct (history ops sid id) as [|[a data] h] eqn:Hh; [done|]. intros _.
  assert ((a, data) ∈ history ops sid id) as Hin by (rewrite Hh; by left).
  apply list_elem_of_omap in Hin as (d & Hd & Hv). apply list_elem_of_omap. exists d. split; [done|].
  destruct (op_view d) as [[[s i] a']|]; [|done]. case_decide as Hc; [|done]. destruct Hc as [_ ->]. done.
Qed.

Definition entry (w : walMergeDocs) (sid : Z) (id : string) : option walDocument := default ∅ (w !! sid) !! id.

Lemma AddDocument_entry w data w' :
  AddDocument w data = Ok w' → ∃ s i a, op_view data = Some (s, i, a) ∧
  ∀ sid id, entry w' sid id =
    if decide (s = sid ∧ i = id)
    then let doc := default (mkWalDoc i [] ∅) (entry w s i) in Some (mkWalDoc (docID doc) (actions doc ++ [a]) data)
    else entry w sid id.
Proof.
  unfold AddDocument, op_view.
  destruct (data !! Meta.ActionFieldName) as [[]|] eqn:Ha; try done.
  destruct (data !! Meta.IDFieldName) as [[]|] eqn:Hi; try done.
  destruct (shard_of _) as [sh|] eqn:Hs; try done. intros [= <-].
  eexists _, _, _. split; [done|]. intros sid id. unfold entry. case_decide as Hd.
  - destruct Hd as [-> ->]. by rewrite lookup_insert_eq; cbn; rewrite lookup_insert_eq.
  - destruct (decide (sh = sid)) as [->|Hne]; [|by rewrite lookup_insert_ne].
    rewrite lookup_insert_eq. cbn. rewrite lookup_insert_ne; [done|]. intros ->. by apply Hd.
Qed.

Lemma add_all_app ops1 ops2 : ∀ w, add_all w (ops1 ++ ops2) = add_all w ops1 ≫= λ w', add_all w' ops2.
Proof.
  induction ops1 as [|op ops1 IH]; intros w; [done|]. cbn [app add_all].
  destruct (AddDocument w op); cbn [mbind res_bind]; [apply IH|done|done].
Qed.

Lemma add_all_history ops : ∀ w,
  add_all ∅ ops = Ok w → ∀ sid id, entry w sid id =
    match history ops sid id with
    | [] => None
    | h => Some (mkWalDoc id h.*1 (List.last h.*2 ∅))
    end.
Proof.
  induction ops as [|op ops IH] using rev_ind; intros w Hw sid id.
  { cbn in Hw. simplify_eq. unfold entry. by rewrite lookup_empty. }
  rewrite add_all_app in Hw. destruct (add_all ∅ ops) as [w1| |] eqn:H1; try done. cbn [mbind res_bind add_all] in Hw.
  destruct (AddDocument w1 op) as [w2| |] eqn:H2; try done. cbn in Hw. simplify_eq.
  apply AddDocument_entry in H2 as (s & i & a & Hv & He). rewrite He. unfold history. rewrite omap_app. cbn.
  rewrite Hv. case_decide as Hd.
  - destruct Hd as [-> ->]. rewrite (IH w1 eq_refl). unfold history.
    generalize (omap (M := list) (λ data, match op_view data with
      | Some (s, i, a) => if decide (s = sid ∧ i = id) then Some (a, data) else None
      | None => None end) ops). intros h.
    transitivity (Some (mkWalDoc id ((h ++ [(a, op)]).*1) (List.last (h ++ [(a, op)]).*2 ∅)));
      [|by destruct h]. rewrite !fmap_app. cbn. rewrite List.last_last. by destruct h.
  - rewrite app_nil_r. by apply IH.
Qed.

Lemma BatchVectors_shard acts s r s' : BatchVectors acts s = (r, s') → shard s' = shard s.
Proof.
  unfold BatchVectors. destruct acts as [|a acts]; [by intros [= _ <-]|].
  generalize (range vec_order (group_actions (a :: acts))). intros l. revert s.
  induction l as [|[n [|act nacts]] l IH]; intros s; cbn [forM].
  - by intros [= _ <-].
  - unfold mbind, M_bind, mret, M_ret. apply IH.
  - unfold mbind, M_bind. cbn [snd]. destruct (vec_lists _) as [[ins ids] dels].
    destruct (VecBatch _ _ _ _ _ _) as [[[]| |] v] eqn:Hv.
    + intros Hl. apply IH in Hl. done.
    + by intros [= _ <-].
    + by intros [= _ <-].
Qed.

Lemma writer_Batch_at xs x ys st ops r sh' :
  writer_Batch (Z.of_nat (length xs)) ops (mkShard (xs ++ x :: ys) st) = (r, sh') →
  ∃ w', Batch (index x) ops = (r, w') ∧ sh' = mkShard (xs ++ set_index w' x :: ys) st.
Proof.
  unfold writer_Batch, mbind, M_bind. rewrite get_second_at.
  destruct (Batch (index x) ops) as [r' w'] eqn:Hb. rewrite upd_second_at. unfold lift.
  intros [= <- <-]. eauto.
Qed.

(** The body of [WriteToShard] on the entry of an existing second shard. *)
Lemma write_body xs x ys st v docs s' :
  writer x = true ∨ open_err (Z.of_nat (length xs)) = None →
  deferred (on_shard (CloseWriter (Z.of_nat (length xs))))
    ('(target, others) ← get_writers (Z.of_nat (length xs));
     '(ops, oops, vecs) ← write_docs docs [] [] [];
     _ ← on_shard (writer_Batch target ops);
     _ ← forM (λ o, on_shard (writer_Batch o oops)) others;
     BatchVectors vecs) (mkSt (mkShard (xs ++ x :: ys) st) v) = (Ok tt, s') →
  ∃ opss wr st', Forall2 doc_ops docs opss ∧ Batch (index x) (concat opss) = (Ok tt, wr) ∧
    shard s' = mkShard (xs ++ set_index wr (set_writer true x) :: ys) st'.
Proof.
  intros Hw. unfold deferred, mbind, M_bind, get_writers. rewrite decide_True by lia.
  unfold mbind, M_bind, on_shard at 1. cbn [shard vectors]. rewrite (GetWriter_at open_err) by done.
  cbn [mret M_ret].
  set (x1 := add_ref 1 (set_writer true x)).
  destruct (write_docs docs [] [] [] _) as [[[[ops oops] vecs]| |] s1] eqn:Hd.
  2,3: destruct (on_shard _ s1) as [[[]| |] ?]; congruence.
  apply write_docs_spec in Hd as (Hs1 & Hv1 & opss & -> & Hf). cbn [shard shards app] in *.
  destruct s1 as [[xs1 st1] v1]. cbn [shard shards vectors] in *. subst xs1.
  unfold on_shard at 1. cbn [shard vectors].
  destruct (writer_Batch _ (concat opss) _) as [r sh2] eqn:Hb.
  apply writer_Batch_at in Hb as (wr & Hb & ->).
  destruct r as [[]| |]; cbn [forM mret M_ret].
  2,3: unfold on_shard; cbn [shard vectors]; rewrite CloseWriter_at; congruence.
  destruct (BatchVectors vecs _) as [r3 s3] eqn:Hbv. apply BatchVectors_shard in Hbv. cbn [shard] in Hbv.
  unfold on_shard. destruct s3 as [sh3 v3]. cbn [shard vectors] in *. subst sh3. rewrite CloseWriter_at.
  intros [= -> <-]. exists opss, wr, st1. split_and!; [done| |].
  - by unfold x1 in Hb.
  - cbn [shard]. do 3 f_equal. unfold x1, add_ref, set_index, set_writer. cbn. f_equal. lia.
Qed.

(** When the writer cannot be opened the body fails, and the deferred release
    still runs. *)
Lemma write_body_open_fails xs x ys st v docs e :
  writer x = false → open_err (Z.of_nat (length xs)) = Some e →
  deferred (on_shard (CloseWriter (Z.of_nat (length xs))))
    ('(target, others) ← get_writers (Z.of_nat (length xs));
     '(ops, oops, vecs) ← write_docs docs [] [] [];
     _ ← on_shard (writer_Batch target ops);
     _ ← forM (λ o, on_shard (writer_Batch o oops)) others;
     BatchVectors vecs) (mkSt (mkShard (xs ++ x :: ys) st) v) =
  (Err e, mkSt (mkShard (xs ++ add_ref (-1) x :: ys) st) v).
Proof.
  intros Hx He. unfold deferred, mbind, M_bind, get_writers. rewrite decide_True by lia.
  unfold mbind, M_bind, on_shard. cbn [shard vectors]. rewrite (GetWriter_open_fails open_err) with (e := e) by done.
  cbn [shard vectors]. by rewrite CloseWriter_at.
Qed.

(** The number of the second shard an entry is written to. *)
Definition targets (sid : Z) (xs ys : list (@SecondShard W)) : Prop :=
  sid = Z.of_nat (length xs) ∨ (sid = ShardIDNeedLatest ∧ ys = []).

Lemma targets_shard sid xs x ys st : targets sid xs ys →
  (if decide (sid = ShardIDNeedLatest) then GetLatestShardID (mkShard (xs ++ x :: ys) st) else sid) =
  Z.of_nat (length xs).
Proof.
  intros [Hs|[Hs ->]].
  - rewrite decide_False; [done|]. rewrite Hs. unfold ShardIDNeedLatest. lia.
  - rewrite decide_True by done. by rewrite latest_snoc.
Qed.

(** A successful write of one entry: the contents of its second shard are
    those of the merged operations, id by id; the rest is as before. *)
Lemma WriteToShard_effect w sid docs xs x ys st v s' :
  builds_id → w !! sid = Some docs → (∀ id d, docs !! id = Some d → docID d = id) → targets sid xs ys →
  writer x = true ∨ open_err (Z.of_nat (length xs)) = None →
  WriteToShard w sid [] (mkSt (mkShard (xs ++ x :: ys) st) v) = (Ok tt, s') →
  ∃ x' st', shard s' = mkShard (xs ++ x' :: ys) st' ∧
    ID x' = ID x ∧ stats x' = stats x ∧ writerRefcount x' = writerRefcount x ∧ writer x' = true ∧
    ∀ id, (docs !! id = None → contents (index x') id = contents (index x) id) ∧
          (∀ d, docs !! id = Some d → ∃ o, doc_ops (id, d) o ∧
             contents (index x') id = effect o (contents (index x) id) id).
Proof.
  intros Hbid Hdocs Hids Hsid Hw Hwr. unfold WriteToShard in Hwr. rewrite Hdocs in Hwr.
  cbv zeta in Hwr. cbn [shard] in Hwr. rewrite (targets_shard sid xs x ys st Hsid) in Hwr.
  apply write_body in Hwr as (opss & wr & st' & Hf & Hb & Hs'); [|done].
  eexists _, st'. split; [exact Hs'|]. split_and!; [done..|]. intros id. cbn [set_index index].
  rewrite (Batch_contents _ _ _ Hb id). fold (effect (concat opss) (contents (index x) id) id).
  destruct (effect_docs _ _ Hbid Hf ltac:(intros k d Hin%range_elem; by apply Hids) (range_nodup _ _)
    id (contents (index x) id)) as [Hno Hyes]. split.
  - intros Hn. apply Hno. intros ([k d] & -> & Hin)%list_elem_of_fmap. apply range_elem in Hin.
    cbn [fst] in Hn. congruence.
  - intros d Hd. apply Hyes. by apply range_elem.
Qed.

(** * Operation by operation *)

Lemma AddDocument_view op sid id a :
  op_view op = Some (sid, id, a) → AddDocument ∅ op = Ok {[sid := {[id := mkWalDoc id [a] op]}]}.
Proof.
  unfold op_view, AddDocument. destruct (op !! Meta.ActionFieldName) as [[]|]; try done.
  destruct (op !! Meta.IDFieldName) as [[]|]; try done. destruct (shard_of _); [|done].
  intros [= -> -> ->]. by rewrite lookup_empty; cbn; rewrite lookup_empty.
Qed.

(** The operations written one after the other, each in a batch of its own. *)
Fixpoint write_each (ops : list (gmap string value)) (sid : Z) : M St unit :=
  match ops with
  | [] => mret tt
  | op :: ops => λ s,
      match AddDocument ∅ op with
      | Ok w => (WriteToShard w sid [] ≫= λ _, write_each ops sid) s
      | Err e => (Err e, s)
      | Panic p => (Panic p, s)
      end
  end.

(** What that does to the documents of one id. *)
Fixpoint executes (id : string) (h : list (string * gmap string value)) (old new : list bdoc) : Prop :=
  match h with
  | [] => new = old
  | (a, data) :: h => ∃ o, doc_ops (id, mkWalDoc id [a] data) o ∧ executes id h (effect o old id) new
  end.

Lemma history_cons op ops sid id s i a : op_view op = Some (s, i, a) →
  history (op :: ops) sid id = (if decide (s = sid ∧ i = id) then [(a, op)] else []) ++ history ops sid id.
Proof. intros Hv. unfold history. cbn. rewrite Hv. by case_decide. Qed.

Lemma write_each_executes sid ops : builds_id → ∀ xs x ys st v s', targets sid xs ys →
  writer x = true ∨ open_err (Z.of_nat (length xs)) = None →
  write_each ops sid (mkSt (mkShard (xs ++ x :: ys) st) v) = (Ok tt, s') →
  ∃ x' st', shard s' = mkShard (xs ++ x' :: ys) st' ∧
    ID x' = ID x ∧ stats x' = stats x ∧ writerRefcount x' = writerRefcount x ∧
    ∀ id, executes id (history ops sid id) (contents (index x) id) (contents (index x') id).
Proof.
  intros Hbid. induction ops as [|op ops IH]; intros xs x ys st v s' Ht Hw Hr.
  { cbn in Hr. unfold mret, M_ret in Hr. simplify_eq. by exists x, st. }
  cbn [write_each] in Hr. destruct (AddDocument ∅ op) as [w| |] eqn:Ha; try done.
  destruct (AddDocument_entry _ _ _ Ha) as (s & i & a & Hv & _).
  rewrite (AddDocument_view op s i a Hv) in Ha. injection Ha as <-.
  unfold mbind, M_bind in Hr. destruct (WriteToShard _ sid [] _) as [r s1] eqn:Hw1.
  destruct r as [[]| |]; try done. destruct (decide (s = sid)) as [->|Hne].
  - destruct s1 as [sh1 v1]. eapply (WriteToShard_effect _ sid {[i := mkWalDoc i [a] op]}) in Hw1
      as (x1 & st1 & Hs1 & HID & Hst & Href & Hwr & Hc); [|done|by rewrite lookup_singleton_eq| |done|done].
    2: { intros id' d [<- <-]%lookup_singleton_Some. done. }
    cbn [shard] in Hs1. subst sh1. apply IH in Hr as (x' & st' & Hs' & HID' & Hst' & Href' & He); [|done|by left].
    exists x', st'. split_and!; [done|congruence..|]. intros id. rewrite (history_cons op ops sid id sid i a Hv).
    destruct (Hc id) as [Hno Hyes]. case_decide as Hd.
    + destruct Hd as [_ ->]. destruct (Hyes _ ltac:(by rewrite lookup_singleton_eq)) as (o & Ho & Hco).
      cbn [app executes]. exists o. split; [done|]. rewrite <-Hco. apply He.
    + cbn [app]. rewrite <-Hno; [apply He|]. apply lookup_singleton_ne. naive_solver.
  - unfold WriteToShard in Hw1. rewrite lookup_singleton_ne in Hw1 by done. unfold mret, M_ret in Hw1. simplify_eq.
    apply IH in Hr as (x' & st' & Hs' & HID' & Hst' & Href' & He); [|done|done].
    exists x', st'. split_and!; [done..|]. intros id. rewrite (history_cons op ops sid id s i a Hv).
    rewrite decide_False by naive_solver. apply He.
Qed.

(** The document a run leaves: that of the last operation, when it is an
    insertion or an update. *)
Definition leaves (h : list (string * gmap string value)) (id : string) (old new : list bdoc) : Prop :=
  match h with
  | [] => new = old
  | _ => if keeps (List.last h.*1 "") then ∃ b vm, build id (List.last h.*2 ∅) = Ok (b, vm) ∧ new = [b] else new = []
  end.

Lemma single_effect a b o oo final old : valid_action a → orderly (present old) [a] = true →
  merge_actions [a] (doc_id b) b = Ok (o, oo, final) →
  effect o old (doc_id b) = if keeps a then [b] else [].
Proof.
  intros Ha Hord Hm. apply (merge_effect [a] b o oo final old); [done| |done]. split_and!; [by constructor|done|].
  intros Heq%list_elem_of_singleton. rewrite <-Heq in Hord. by destruct old.
Qed.

(** One by one, an orderly run leaves what its last operation leaves. *)
Lemma executes_leaves id h : builds_id → ∀ old new,
  Forall valid_action h.*1 → orderly (present old) h.*1 = true → executes id h old new → leaves h id old new.
Proof.
  intros Hbid. induction h as [|[a data] h IH]; intros old new Hv Hord Hex; [done|].
  cbn in Hv, Hex. apply Forall_cons in Hv as [Ha Hv]. destruct Hex as (o & (b & vm & oo & fin & Hb & Hm) & Hex).
  cbn [snd docID wdata actions] in Hb, Hm. pose proof (Hbid _ _ _ _ Hb) as Hbi. subst id.
  cbn [fmap list_fmap orderly fst] in Hord. apply andb_prop in Hord as [Ho1 Ho2].
  assert (effect o old (doc_id b) = if keeps a then [b] else []) as He.
  { eapply single_effect; [done| |done]. cbn [orderly]. by rewrite Ho1. }
  rewrite He in Hex. destruct h as [|ad h].
  - cbn [executes] in Hex. subst new. unfold leaves. cbn. destruct (keeps a); eauto.
  - apply IH in Hex; [|done|by destruct (keeps a) eqn:Hk; rewrite ?Hk in Ho2]. exact Hex.
Qed.

Lemma leaves_unique h id old new1 new2 : leaves h id old new1 → leaves h id old new2 → new1 = new2.
Proof. unfold leaves. destruct h; [congruence|]. destruct (keeps _); [|congruence]. intros (b1 & v1 & H1 & ->) (b2 & v2 & H2 & ->). congruence. Qed.

(** A batch of merged operations, id by id. *)
Lemma merged_leaves ops w sid xs x ys st v s' :
  builds_id → add_all ∅ ops = Ok w → targets sid xs ys →
  writer x = true ∨ open_err (Z.of_nat (length xs)) = None →
  (∀ id, run_ok (history ops sid id).*1 (contents (index x) id)) →
  WriteToShard w sid [] (mkSt (mkShard (xs ++ x :: ys) st) v) = (Ok tt, s') →
  ∃ x' st', shard s' = mkShard (xs ++ x' :: ys) st' ∧
    ID x' = ID x ∧ stats x' = stats x ∧ writerRefcount x' = writerRefcount x ∧
    ∀ id, leaves (history ops sid id) id (contents (index x) id) (contents (index x') id).
Proof.
  intros Hbid Hadd Hsid Hw Hrun Hwr. pose proof (add_all_history ops w Hadd) as Hhist.
  destruct (w !! sid) as [docs|] eqn:Hdocs.
  2: { unfold WriteToShard in Hwr. rewrite Hdocs in Hwr. unfold mret, M_ret in Hwr. simplify_eq.
       exists x, st. split_and!; [done..|]. intros id.
       specialize (Hhist sid id). unfold entry in Hhist. rewrite Hdocs in Hhist. cbn in Hhist.
       rewrite lookup_empty in Hhist. unfold leaves. by destruct (history ops sid id). }
  assert (∀ id, docs !! id = match history ops sid id with
    [] => None | h => Some (mkWalDoc id h.*1 (List.last h.*2 ∅)) end) as Hdoc.
  { intros id. rewrite <-Hhist. unfold entry. by rewrite Hdocs. }
  apply (WriteToShard_effect w sid docs) in Hwr as (x' & st' & Hs' & Hid & Hst & Href & _ & Hc); [|done..| |done|done].
  2: { intros id d. rewrite Hdoc. destruct (history ops sid id); [done|]. by intros [= <-]. }
  exists x', st'. split_and!; [done..|]. intros id. destruct (Hc id) as [Hno Hyes]. rewrite Hdoc in Hno, Hyes.
  unfold leaves. destruct (history ops sid id) as [|h0 h] eqn:Hh; [by apply Hno|].
  destruct (Hyes _ eq_refl) as (o & (b & vm & oo & final & Hb & Hm) & ->). cbn [snd docID wdata actions] in Hb, Hm.
  pose proof (Hbid _ _ _ _ Hb) as Hbi.
  specialize (Hrun id). rewrite Hh in Hrun. assert ((h0 :: h).*1 ≠ []) as Hnn by done.
  pose proof (merge_effect _ _ _ _ _ _ (Hnn : (h0 :: h).*1 ≠ []) Hrun Hm) as He. rewrite Hbi in He. rewrite He.
  destruct (keeps _); [|done]. eauto.
Qed.

(** C1: Merging is sequential execution.  Collect any sequence of operations
    with [AddDocument] and write the entry of a second shard (the newest one
    for the marker -1) with [WriteToShard]; or write the operations one after
    the other, each with a [WriteToShard] of its own.  When both succeed, both
    leave the same documents under every id of that second shard: the document
    of the last operation on the id when that is an insertion or an update, none
    when it is a deletion, the former ones when there is no operation; all other
    second shards are untouched and the writer's reference count is back to its
    former value.  The conditions on the operations on one id: an insertion and
    a vector-only deletion come only when the id has no document at that point,
    and where there is a vector-only deletion the id was not indexed before.
    This holds for every order in which the documents are visited and for every
    engine that applies a batch as documented. *)
Theorem merged_batch_is_sequential ops w sid xs x ys st v s1 s2 :
  builds_id → add_all ∅ ops = Ok w →
  targets sid xs ys →
  writer x = true ∨ open_err (Z.of_nat (length xs)) = None →
  (∀ id, run_ok (history ops sid id).*1 (contents (index x) id)) →
  WriteToShard w sid [] (mkSt (mkShard (xs ++ x :: ys) st) v) = (Ok tt, s1) →
  write_each ops sid (mkSt (mkShard (xs ++ x :: ys) st) v) = (Ok tt, s2) →
  ∃ x1 st1 x2 st2, shard s1 = mkShard (xs ++ x1 :: ys) st1 ∧ shard s2 = mkShard (xs ++ x2 :: ys) st2 ∧
    (∀ id, contents (index x1) id = contents (index x2) id ∧
           leaves (history ops sid id) id (contents (index x) id) (contents (index x1) id)) ∧
    ID x1 = ID x ∧ stats x1 = stats x ∧ writerRefcount x1 = writerRefcount x.
Proof.
  intros Hbid Hadd Ht Hw Hrun H1 H2.
  destruct (merged_leaves _ _ _ _ _ _ _ _ _ Hbid Hadd Ht Hw Hrun H1) as (x1 & st1 & Hs1 & HID & Hst & Href & Hl1).
  destruct (write_each_executes _ _ Hbid _ _ _ _ _ _ Ht Hw H2) as (x2 & st2 & Hs2 & _ & _ & _ & Hex).
  exists x1, st1, x2, st2. split_and!; [done|done| |done..]. intros id. split; [|done].
  destruct (Hrun id) as (Hv & Hord & _). eapply leaves_unique; [apply Hl1|]. by apply executes_leaves.
Qed.

(** * A single operation *)

Lemma range_singleton {A} (o : map_order Z A) k v : range o {[k := v]} = [(k, v)].
Proof. apply Permutation_singleton_r. by rewrite range_perm, map_to_list_singleton. Qed.

(** Committing one operation writes the merged effect of its action to the
    second shard it names, and then only rolls over and refreshes statistics. *)
Lemma CommitOperations_one BatchSize MaxSize store_err op sid id a xs x ys st v s' :
  builds_id → op_view op = Some (sid, id, a) → targets sid xs ys → 0 < BatchSize →
  CommitOperations BatchSize MaxSize store_err [op] (mkSt (mkShard (xs ++ x :: ys) st) v) = (Ok tt, s') →
  ∃ wr b vm o oo fin, build id op = Ok (b, vm) ∧ merge_actions [a] (doc_id b) b = Ok (o, oo, fin) ∧
    contents wr id = effect o (contents (index x) id) id ∧
    (∀ id', id' ≠ id → contents wr id' = contents (index x) id') ∧
    grows (mkShard (xs ++ set_index wr x :: ys) st) (shard s').
Proof.
  intros Hbid Hop Hsid Hn. unfold CommitOperations, mbind, M_bind, lift.
  destruct BatchSize as [|n]; [lia|]. cbn [length chunks take drop mapM].
  rewrite take_nil. cbn [add_all]. rewrite (AddDocument_view op sid id a Hop). cbn [mbind res_bind mret res_ret add_all].
  cbn [forM]. unfold mbind, M_bind, WriteTo. unfold mbind, M_bind. rewrite range_singleton. cbn [forM fst].
  unfold mbind, M_bind.
  destruct (WriteToShard _ sid [] _) as [[[]| |] s1] eqn:Hw; [|done|done]. unfold mret, M_ret.
  destruct (decide (writer x = true ∨ open_err (Z.of_nat (length xs)) = None)) as [Hopen|Hopen].
  2: { exfalso. unfold WriteToShard in Hw. rewrite lookup_singleton_eq in Hw. cbv zeta in Hw. cbn [shard] in Hw.
       rewrite (targets_shard sid xs x ys st Hsid) in Hw.
       destruct (writer x) eqn:Hx, (open_err (Z.of_nat (length xs))) as [e|] eqn:He; try (by destruct Hopen; auto).
       rewrite (write_body_open_fails _ _ _ _ _ _ e) in Hw by done. done. }
  eapply (WriteToShard_effect _ sid {[id := mkWalDoc id [a] op]}) in Hw
    as (x' & st' & Hs1 & HID & _ & _ & _ & Hc); [|done|by rewrite lookup_singleton_eq| |done|done].
  2: { intros id' d [<- <-]%lookup_singleton_Some. done. }
  unfold on_shard at 1. rewrite Hs1. pose proof (CheckShards_grows open_err MaxSize store_err (mkShard (xs ++ x' :: ys) st')) as Hg.
  destruct (CheckShards open_err MaxSize store_err _) as [[[]| |] s2]; [|done|done]. cbn [snd] in Hg.
  unfold on_shard. cbn [shard]. pose proof (same_view_UpdateMetadata s2) as Hv.
  destruct (UpdateMetadataByShard s2) as [r3 s3]. cbn [snd] in Hv. intros [= -> <-]. cbn [shard].
  destruct (proj2 (Hc id) _ ltac:(by rewrite lookup_singleton_eq)) as (o & (b & vm & oo & fin & Hb & Hm) & Heff).
  exists (index x'), b, vm, o, oo, fin. split_and!; [done|done|done| |].
  - intros id' Hne. apply Hc. by rewrite lookup_singleton_ne.
  - eapply grows_view; [|symmetry; exact Hv|exact Hg]. unfold view. cbn [shards].
    rewrite !fmap_app, !fmap_cons. cbn. by rewrite HID.
Qed.
End wal.

(** * A concrete setting *)

(** Operations as [CheckDocumentOperation] and [DeleteDocument] build them. *)
Definition demo_op (action id : string) (shard time : Z) : gmap string value :=
  <[Meta.ActionFieldName := VStr action]> (<[Meta.IDFieldName := VStr id]>
    (<[Meta.ShardFieldName := VInt64 shard]> (<[Meta.TimeFieldName := VInt64 time]> ∅))).

Definition demo_build (id : string) (data : gmap string value) : res (demo_doc * list (string * unit)) :=
  match data !! Meta.TimeFieldName with
  | Some (VInt64 t) => Ok ((id, t), [])
  | _ => Err "invalid timestamp data type"
  end.

#[global] Instance demo_vecstore : VecStore unit unit := {| VecBatch _ _ _ _ _ v := (Ok tt, v) |}.

Lemma demo_builds_id : builds_id demo_build.
Proof. intros id data b vm. unfold demo_build. repeat case_match; by intros [= <- _]. Qed.

Definition demo_state (xs : list (@SecondShard (list demo_doc))) (lo hi : Z)
    : @St (list demo_doc) unit := mkSt (mkShard xs (mkStats lo hi 0 0)) tt.

Definition demo_write (w : walMergeDocs) (sid : Z) : M St unit :=
  WriteToShard demo_build "ix" [] (λ _, None) (λ _, 0%Z) map_order_default map_order_default w sid [].

Definition demo_write_to (o : map_order Z (gmap string walDocument)) (w : walMergeDocs) : M St walMergeDocs :=
  WriteTo demo_build "ix" [] (λ _, None) (λ _, 0%Z) map_order_default o map_order_default w false.

Definition demo_ops : list (gmap string value) :=
  [demo_op "insert" "b" 0 10; demo_op "update" "a" 0 11; demo_op "delete" "b" 0 12;
   demo_op "update" "a" 0 13; demo_op "insert" "c" 0 14; demo_op "update" "c" 0 15].

Definition demo_each (ops : list (gmap string value)) (sid : Z) : M St unit :=
  write_each demo_build "ix" [] (λ _, None) (λ _, 0%Z) map_order_default map_order_default ops sid.

Definition demo_start : @SecondShard (list demo_doc) := demo_shard 0 1 9 [("a", 1); ("z", 2)]%Z.

Lemma demo_runs_ok id : run_ok (history demo_ops 0 id).*1 (contents (index demo_start) id).
Proof.
  destruct (decide (id ∈ ["b"; "a"; "c"])) as [Hid|Hid].
  - assert (Forall (λ id, run_ok (history demo_ops 0 id).*1 (contents (index demo_start) id)) ["b"; "a"; "c"]) as Hall.
    { repeat constructor; try (apply (bool_decide_unpack _); vm_compute; exact I).
      all: intros H; exfalso; revert H; apply (bool_decide_unpack _); vm_compute; exact I. }
    rewrite Forall_forall in Hall. by apply Hall.
  - destruct (history demo_ops 0 id) as [|x h] eqn:Hh.
    + split_and!; [constructor|done|intros []%elem_of_nil].
    + exfalso. apply Hid. assert (history demo_ops 0 id ≠ []) as Hne%history_id by by rewrite Hh.
      assert (omap (λ d, (λ v, v.1.2) <$> op_view d) demo_ops = ["b"; "a"; "b"; "a"; "c"; "c"]) as Ho
        by (vm_compute; reflexivity).
      rewrite Ho in Hne. revert Hne. rewrite !elem_of_cons. tauto.
Qed.

Lemma merged_batch_is_sequential_witness :
  ∃ w s1 s2, add_all ∅ demo_ops = Ok w ∧
    demo_write w 0 (demo_state [demo_start] 1 9) = (Ok tt, s1) ∧
    demo_each demo_ops 0 (demo_state [demo_start] 1 9) = (Ok tt, s2) ∧
    ∃ x1 st1 x2 st2, shard s1 = mkShard [x1] st1 ∧ shard s2 = mkShard [x2] st2 ∧
      contents (index x1) "a" = contents (index x2) "a" ∧ contents (index x1) "z" = [("z", 2)]%Z.
Proof.
  destruct (add_all ∅ demo_ops) as [w| |] eqn:Hw;
    [|pose proof (f_equal is_ok Hw) as Hx; vm_compute in Hx; discriminate Hx..].
  destruct (demo_write w 0 (demo_state [demo_start] 1 9)) as [r s1] eqn:Hr.
  assert (r = Ok tt) as ->.
  { assert (match add_all ∅ demo_ops with
            | Ok w => (demo_write w 0 (demo_state [demo_start] 1 9)).1
            | _ => Ok tt end = Ok tt) as Hx by (vm_compute; reflexivity).
    rewrite Hw, Hr in Hx. exact Hx. }
  destruct (demo_each demo_ops 0 (demo_state [demo_start] 1 9)) as [r s2] eqn:Hr2.
  assert (r = Ok tt) as ->.
  { assert ((demo_each demo_ops 0 (demo_state [demo_start] 1 9)).1 = Ok tt) as Hx by (vm_compute; reflexivity).
    rewrite Hr2 in Hx. exact Hx. }
  exists w, s1, s2. split_and!; [done..|].
  destruct (merged_batch_is_sequential demo_build "ix" [] (λ _, None) (λ _, 0%Z) map_order_default
    map_order_default demo_ops w 0 [] demo_start [] (mkStats 1 9 0 0) tt s1 s2
    demo_builds_id Hw (or_introl eq_refl) (or_introl eq_refl) demo_runs_ok Hr Hr2)
    as (x1 & st1 & x2 & st2 & Hs1 & Hs2 & Hc & _).
  exists x1, st1, x2, st2. split_and!; [done|done|apply Hc|]. exact (proj2 (Hc "z")).
Defined.

(** * Behaviours worth knowing *)

(** The documents of second shard [i] under an id. *)
Definition stored {W bdoc V} {bluge : Bluge W bdoc} (s : @St W V) (i : nat) (id : string) : list bdoc :=
  match shards (shard s) !! i with Some x => contents (index x) id | None => [] end.

(** Where the conditions fail, merging and sequential execution part: two
    insertions of an id leave two documents one by one and one merged, and a
    vector-only deletion after an insertion leaves the document one by one and
    removes it merged. *)
Theorem merging_differs :
  let s := demo_state [demo_shard 0 1 9 []%Z] 1 9 in
  let both (ops : list (gmap string value)) :=
    match add_all ∅ ops with
    | Ok w => Ok (stored (demo_write w 0 s).2 0 "a", stored (demo_each ops 0 s).2 0 "a")
    | _ => Err "not added"
    end in
  both [demo_op "insert" "a" 0 10; demo_op "insert" "a" 0 11] = Ok ([("a", 11)], [("a", 10); ("a", 11)])%Z ∧
  both [demo_op "insert" "a" 0 10; demo_op "delete_vec_only" "a" 0 11] = Ok ([], [("a", 10)])%Z.
Proof. split; vm_compute; reflexivity. Qed.

(** The order in which a Go map is visited decides whether a document
    survives.  A deletion (of shard 0) followed by an insertion of the same id
    (marked "newest shard") lands in two entries of the merge map; when the
    newest shard is shard 0 and the entry of the insertion is visited first,
    the deletion removes the new document, in the other order it stays. *)
Theorem WriteTo_order_dependent :
  let s := demo_state [demo_shard 0 1 9 [("a", 1)]%Z] 1 9 in
  let after (o : map_order Z (gmap string walDocument)) :=
    match add_all ∅ [demo_op "delete" "a" 0 10; demo_op "insert" "a" (-1) 11] with
    | Ok w => Ok (stored (demo_write_to o w s).2 0 "a")
    | _ => Err "not added"
    end in
  ∃ o1 o2, after o1 = Ok [("a", 11)]%Z ∧ after o2 = Ok [].
Proof. exists map_order_rev, map_order_default. split; vm_compute; reflexivity. Qed.

(** An update of a document in an older second shard does not extend the
    time range of that shard, only the range collected for the newest one:
    after the write and the refresh of the statistics the shard holds a
    document of time 500, yet a search of 400 to 600 does not read it. *)
Theorem update_escapes_time_range :
  let s := demo_state [demo_shard 0 100 200 [("a", 150)]%Z; demo_shard 1 200 300 []] 200 300 in
  let after := match add_all ∅ [demo_op "update" "a" 0 500] with
               | Ok w => (_ ← demo_write w 0; on_shard UpdateMetadataByShard) s
               | _ => (Err "not added", s)
               end in
  after.1 = Ok tt ∧ stored after.2 0 "a" = [("a", 500)]%Z ∧ GetSearchers (shard after.2) 400 600 = [1]%Z.
Proof. split_and!; vm_compute; reflexivity. Qed.

Section more.
Context {W bdoc vec V : Type} {bluge : Bluge W bdoc} {vecstore : VecStore V vec}.
Context (build : string → gmap string value → res (bdoc * list (string * vec))).
Context (indexName : string) (vec_fields : list string).
Context (open_err : Z → option string) (big_pow : nat → Z).
Context (doc_order : map_order string walDocument) (vec_order : map_order string (list (VecAction vec))).

(** When the writer of a second shard cannot be opened, the write fails
    with that error but the deferred [CloseWriter] still runs: the reference
    count is one lower than before, although no reference was taken. *)
Theorem failed_open_releases_reference w (xs : list (@SecondShard W)) x ys st (v : V) docs e :
  w !! Z.of_nat (length xs) = Some docs → writer x = false → open_err (Z.of_nat (length xs)) = Some e →
  WriteToShard build indexName vec_fields open_err big_pow doc_order vec_order w (Z.of_nat (length xs)) []
    (mkSt (mkShard (xs ++ x :: ys) st) v) =
  (Err e, mkSt (mkShard (xs ++ add_ref (-1) x :: ys) st) v).
Proof.
  intros Hw Hx He. unfold WriteToShard. rewrite Hw. cbv zeta.
  rewrite decide_False by (unfold ShardIDNeedLatest; lia). by apply write_body_open_fails.
Qed.

(** Rolling back the insertions of an interrupted batch does nothing to
    the index: operations that insert carry the marker -1, for which
    [WriteToShardRollback] returns at once, and its deferred [CloseWriter(-1)]
    releases one reference of every second shard without having taken any. *)
Theorem rollback_skips_insertions w (s : @St W V) docs :
  w !! ShardIDNeedLatest = Some docs →
  WriteToShardRollback build open_err doc_order w ShardIDNeedLatest [] s =
  (Ok tt, mkSt (mkShard (add_ref (-1) <$> shards (shard s)) (sstats (shard s))) (vectors s)).
Proof. intros Hw. unfold WriteToShardRollback. rewrite Hw. by destruct s as [[xs st] v]. Qed.
End more.

Definition demo_entry (sid : Z) (action : string) : walMergeDocs :=
  {[sid := {["a" := mkWalDoc "a" [action] (demo_op action "a" sid 5)]}]}.

Lemma failed_open_releases_reference_witness :
  WriteToShard demo_build "ix" [] (λ _, Some "disk error") (λ _, 0%Z) map_order_default map_order_default
    (demo_entry 0 "update") 0 [] (demo_state [new_second 0] 0 0) =
  (Err "disk error", demo_state [add_ref (-1) (new_second 0)] 0 0).
Proof.
  refine (failed_open_releases_reference demo_build "ix" [] (λ _, Some "disk error") (λ _, 0%Z)
    map_order_default map_order_default (demo_entry 0 "update") [] (new_second 0) [] (mkStats 0 0 0 0) tt
    {["a" := mkWalDoc "a" ["update"] (demo_op "update" "a" 0 5)]} "disk error" _ _ _); reflexivity.
Defined.

Lemma rollback_skips_insertions_witness :
  WriteToShardRollback (V := unit) demo_build (λ _, None) map_order_default (demo_entry (-1) "insert")
    ShardIDNeedLatest [] (demo_state [demo_shard 0 1 9 [("a", 5)]%Z] 1 9) =
  (Ok tt, demo_state [add_ref (-1) (demo_shard 0 1 9 [("a", 5)]%Z)] 1 9).
Proof.
  refine (rollback_skips_insertions demo_build (λ _, None) map_order_default (demo_entry (-1) "insert")
    (demo_state [demo_shard 0 1 9 [("a", 5)]%Z] 1 9)
    {["a" := mkWalDoc "a" ["insert"] (demo_op "insert" "a" (-1) 5)]} _); reflexivity.
Defined.
