(* ===== verification/WalConsumer.v ===== *)
(** The WAL consumer and the recovery of pkg/core/index_shards_wal.go
    ([ConsumeWAL], [Rollback], [OpenWAL]) over the redo log. *)
From S2P Require Import Prelude Hash Strconv Base62 RedoLog Value Document Shards ShardWal.

(** What the consumer uses of a write-ahead log (pkg/wal, over a file or a
    database): entries under consecutive ids. *)
Class Wal (L : Type) := {
  LastIndex : L → res Z;
  WalRead : L → Z → res string;
  TruncateFront : L → Z → res unit * L
}.

Definition MaxBatchSize : Z := 10240.

Section consumer.
Context {L W bdoc vec V : Type} {wal : Wal L} {bluge : Bluge W bdoc} {vecstore : VecStore V vec}.
Context (build : string → gmap string value → res (bdoc * list (string * vec))).
Context (indexName : string) (vec_fields : list string) (open_err : Z → option string) (big_pow : nat → Z).
Context (doc_order : map_order string walDocument) (shard_order : map_order Z (gmap string walDocument)).
Context (vec_order : map_order string (list (VecAction vec))).
(** [json.Unmarshal] of an entry, the batch size and shard size limits of the
    configuration, and the I/O errors of the redo log and the metadata. *)
Context (Unmarshal : string → gmap string value + string) (BatchSize : nat) (MaxSize : Z).
Context (redo_err : Z → Z → Z → option (string * list Z)) (store_err : option string).

Record CSt := mkCSt { clog : L; redo : RedoLog.Log; cst : @St W V }.

Definition on_st {A} (m : M (@St W V) A) : M CSt A := λ s,
  let '(r, st) := m (cst s) in (r, mkCSt (clog s) (redo s) st).

Definition write_redo (action minID maxID : Z) : M CSt unit := λ s,
  let '(r, l) := writeRedoLog (redo s) action minID maxID (redo_err action minID maxID) in
  (r, mkCSt (clog s) l (cst s)).

Definition read_redo (action : Z) : M CSt (Z * Z) := λ s, (readRedoLog (redo s) action, s).

Definition unmarshal (e : string) : res (gmap string value) :=
  match Unmarshal e with inl d => Ok d | inr err => Err err end.

(** Read, decode and collect entry [id]. *)
Definition add_entry (docs : walMergeDocs) (id : Z) : M CSt walMergeDocs := λ s,
  (e ← WalRead (clog s) id; d ← unmarshal e; AddDocument docs d, s).

(** Write the collected documents between two marks in the redo log. *)
Definition flush (docs : walMergeDocs) (startID minID : Z) : M CSt walMergeDocs :=
  _ ← write_redo RedoActionRead startID minID;
  docs ← on_st (WriteTo build indexName vec_fields open_err big_pow doc_order shard_order vec_order docs false);
  _ ← write_redo RedoActionWrite startID minID;
  mret docs.

(** The loop over entries [minID], [minID]+1, ... ([n] of them). *)
Fixpoint consume_loop (n : nat) (minID startID : Z) (docs : walMergeDocs) : M CSt (Z * Z * walMergeDocs) :=
  match n with
  | O => mret (minID, startID, docs)
  | S n =>
      docs ← add_entry docs minID;
      if decide (BatchSize ≤ MaxShardLen docs) then
        (docs ← flush docs startID minID; consume_loop n (minID + 1) (minID + 1) docs)
      else consume_loop n (minID + 1) startID docs
  end.

(** The last committed id, 0 when nothing was committed. *)
Definition last_committed : M CSt Z := λ s,
  match readRedoLog (redo s) RedoActionWrite with
  | Ok (_, m) => (Ok m, s)
  | Err e => if decide (e = ErrNotFound) then (Ok 0%Z, s) else (Err e, s)
  | Panic p => (Panic p, s)
  end.

(** [ConsumeWAL] up to the point from which it reports [true]: the id up to
    which the log is consumed, or [None] when there is nothing new. *)
Definition consume : M CSt (option Z) :=
  s ← get;
  maxID ← lift (LastIndex (clog s));
  minID ← last_committed;
  if decide (minID = maxID) then mret None
  else
    let maxID := if decide (MaxBatchSize < wrap64 (maxID - minID))%Z then (minID + MaxBatchSize)%Z else maxID in
    '(next, startID, docs) ← consume_loop (Z.to_nat (maxID - minID)) (minID + 1) (minID + 1) ∅;
    let minID := (next - 1)%Z in
    _ ← (if decide (0 < MaxShardLen docs) then (_ ← flush docs startID minID; mret tt) else mret tt);
    mret (Some minID).

(** The rest: truncate the log, roll over the shards, refresh the statistics.
    Errors here are logged only. *)
Definition finish (minID : Z) : M CSt unit :=
  _ ← (λ s, let '(r, l) := TruncateFront (clog s) minID in (r, mkCSt l (redo s) (cst s)));
  _ ← on_st (on_shard (CheckShards open_err MaxSize store_err));
  on_st (on_shard UpdateMetadataByShard).

Definition ConsumeWAL : M CSt bool := λ s,
  match consume s with
  | (Ok None, s') => (Ok false, s')
  | (Ok (Some minID), s') =>
      match finish minID s' with
      | (Panic p, s'') => (Panic p, s'')
      | (_, s'') => (Ok true, s'')
      end
  | (Err _, s') => (Ok false, s')
  | (Panic p, s') => (Panic p, s')
  end.

(** [Rollback] on opening the WAL. *)
Fixpoint rollback_loop (n : nat) (id : Z) (docs : walMergeDocs) : M CSt walMergeDocs :=
  match n with
  | O => mret docs
  | S n => docs ← add_entry docs id; rollback_loop n (id + 1) docs
  end.

(** An error of the truncation is logged only. *)
Definition truncate_quietly (id : Z) : M CSt unit := λ s,
  let '(_, l) := TruncateFront (clog s) id in (Ok tt, mkCSt l (redo s) (cst s)).

Definition Rollback : M CSt unit := λ s,
  match readRedoLog (redo s) RedoActionRead with
  | Err e => if decide (e = ErrNotFound) then (Ok tt, s) else (Err e, s)
  | Panic p => (Panic p, s)
  | Ok (readMinID, readMaxID) =>
      let wr := match readRedoLog (redo s) RedoActionWrite with
                | Ok m => Ok m
                | Err e => if decide (e = ErrNotFound) then Ok (0%Z, 0%Z) else Err e
                | Panic p => Panic p
                end in
      match wr with
      | Err e => (Err e, s)
      | Panic p => (Panic p, s)
      | Ok (writeMinID, writeMaxID) =>
          if decide (readMinID = writeMinID ∧ readMaxID = writeMaxID) then (Ok tt, s)
          else
            (docs ← rollback_loop (Z.to_nat (readMaxID - readMinID + 1)) readMinID ∅;
             _ ← on_st (WriteTo build indexName vec_fields open_err big_pow doc_order shard_order vec_order docs true);
             truncate_quietly (wrap64 (readMinID - 1))) s
      end
  end.

(** * The marks *)

Lemma MaxShardLen_pos (w : walMergeDocs) :
  0 < MaxShardLen w ↔ ∃ sid docs, w !! sid = Some docs ∧ docs ≠ ∅.
Proof.
  unfold MaxShardLen. assert (∀ l, 0 < max_list l ↔ ∃ n, n ∈ l ∧ 0 < n) as Hm.
  { induction l as [|n l IH]; cbn.
    - split; [lia|intros (n & []%elem_of_nil & _)].
    - setoid_rewrite elem_of_cons. split.
      + intros H. destruct (decide (0 < n)); [eauto|]. destruct (proj1 IH ltac:(lia)) as (m & ? & ?). eauto.
      + intros (m & [->|Hin] & Hpos); [lia|]. assert (0 < max_list l) by (apply IH; eauto). lia. }
  rewrite Hm. split.
  - intros (n & ([sid docs] & -> & Hin)%list_elem_of_fmap & Hpos). apply elem_of_map_to_list in Hin.
    exists sid, docs. split; [done|]. intros ->. cbn [snd] in Hpos. rewrite map_size_empty in Hpos. lia.
  - intros (sid & docs & Hl & Hne). exists (size docs). split.
    + apply list_elem_of_fmap. exists (sid, docs). split; [done|]. by apply elem_of_map_to_list.
    + assert (size docs ≠ 0) by (by rewrite map_size_non_empty_iff). lia.
Qed.

Lemma MaxShardLen_Reset (w : walMergeDocs) : MaxShardLen (Reset w) = 0.
Proof.
  destruct (decide (0 < MaxShardLen (Reset w))) as [H|H]; [|lia].
  apply MaxShardLen_pos in H as (sid & docs & Hl & Hne). unfold Reset in Hl. rewrite lookup_fmap in Hl.
  destruct (w !! sid); cbn in Hl; simplify_eq.
Qed.

Lemma AddDocument_pos w d w' : AddDocument w d = Ok w' → 0 < MaxShardLen w'.
Proof.
  intros Ha. apply AddDocument_entry in Ha as (sid & i & a & _ & He). apply MaxShardLen_pos.
  specialize (He sid i). rewrite decide_True in He by done. unfold entry in He.
  destruct (w' !! sid) as [docs|] eqn:E; cbn in He; [|by rewrite lookup_empty in He].
  exists sid, docs. split; [done|]. intros ->. by rewrite lookup_empty in He.
Qed.

(** Both marks of the redo log name the same range. *)
Definition synced (l : RedoLog.Log) (a b : Z) : Prop :=
  readRedoLog l RedoActionRead = Ok (a, b) ∧ readRedoLog l RedoActionWrite = Ok (a, b).

Definition u64 (z : Z) : Prop := (0 ≤ z < 2 ^ 64)%Z.

Lemma write_redo_ok action a b s s' rs :
  repr (redo s) rs → u64 action → u64 a → u64 b → write_redo action a b s = (Ok tt, s') →
  ∃ rs', repr (redo s') rs' ∧ readRedoLog (redo s') action = Ok (a, b) ∧
    (∀ o, o ≠ action → readRedoLog (redo s') o = readRedoLog (redo s) o) ∧
    clog s' = clog s ∧ cst s' = cst s.
Proof.
  intros Hr Hact Ha Hb. unfold write_redo.
  destruct (redo_err action a b) as [[e file]|].
  { pose proof (writeRedoLog_io_err (redo s) action a b e file) as Hne.
    destruct (writeRedoLog _ _ _ _ _) as [r l]. intros [= -> _]. done. }
  destruct (writeRedoLog_repr (redo s) rs action a b Hr Hact Ha Hb) as (l & rs' & -> & Hr' & Hrd & Ho).
  intros [= <-]. exists rs'. done.
Qed.

Lemma on_st_frame {A} (m : M (@St W V) A) s r s' :
  on_st m s = (r, s') → redo s' = redo s ∧ clog s' = clog s.
Proof. unfold on_st. destruct (m (cst s)). by intros [= _ <-]. Qed.

Lemma flush_ok docs a b s docs' s' rs :
  repr (redo s) rs → u64 a → u64 b → flush docs a b s = (Ok docs', s') →
  MaxShardLen docs' = 0 ∧ clog s' = clog s ∧ ∃ rs', repr (redo s') rs' ∧ synced (redo s') a b.
Proof.
  intros Hr Ha Hb. unfold flush, mbind, M_bind.
  destruct (write_redo RedoActionRead a b s) as [[[]| |] s1] eqn:H1; try done.
  apply (write_redo_ok _ _ _ _ _ _ Hr) in H1 as (rs1 & Hr1 & Hrd1 & _ & Hl1 & _);
    [|unfold u64, RedoActionRead; lia|done|done].
  destruct (on_st _ s1) as [[d2| |] s2] eqn:H2; try done.
  destruct (on_st_frame _ _ _ _ H2) as [Hre2 Hl2].
  destruct (write_redo RedoActionWrite a b s2) as [[[]| |] s3] eqn:H3; try done.
  rewrite <-Hre2 in Hr1.
  apply (write_redo_ok _ _ _ _ _ _ Hr1) in H3 as (rs3 & Hr3 & Hrd3 & Ho3 & Hl3 & _);
    [|unfold u64, RedoActionWrite; lia|done|done].
  intros [= <- <-]. split_and!; [|congruence|].
  - unfold on_st, WriteTo, mbind, M_bind in H2. destruct (forM _ _ _) as [[[]| |] ?]; try done.
    injection H2 as <- _. apply MaxShardLen_Reset.
  - exists rs3. split; [done|]. split; [|done]. rewrite Ho3, Hre2 by done. done.
Qed.

Lemma add_entry_ok docs id s docs' s' :
  add_entry docs id s = (Ok docs', s') → s' = s ∧ 0 < MaxShardLen docs'.
Proof.
  unfold add_entry. destruct (WalRead (clog s) id) as [e| |]; cbn [mbind res_bind]; try done.
  destruct (unmarshal e) as [d| |]; cbn [mbind res_bind]; try done. intros [= Ha <-].
  split; [done|]. by eapply AddDocument_pos.
Qed.

Lemma consume_loop_ok n : ∀ m start docs s m' start' docs' s' rs,
  repr (redo s) rs → (1 ≤ start ≤ m)%Z → u64 (m + Z.of_nat n) →
  (0 < MaxShardLen docs ↔ (start < m)%Z) →
  consume_loop n m start docs s = (Ok (m', start', docs'), s') →
  m' = (m + Z.of_nat n)%Z ∧ (start ≤ start' ≤ m')%Z ∧ (0 < MaxShardLen docs' ↔ (start' < m')%Z) ∧
  clog s' = clog s ∧ (∃ rs', repr (redo s') rs') ∧ ((start' = start ∧ redo s' = redo s) ∨ ∃ a, synced (redo s') a (start' - 1)).
Proof.
  unfold u64. induction n as [|n IH]; intros m start docs s m' start' docs' s' rs Hr Hst Hm Hlen Hc;
    cbn [consume_loop] in Hc.
  { unfold mret, M_ret in Hc. simplify_eq. rewrite Z.add_0_r. split_and!; [done|lia|lia|done|done|by eauto|by left]. }
  unfold mbind, M_bind in Hc. destruct (add_entry docs m s) as [[d1| |] s1] eqn:Ha; try done.
  apply add_entry_ok in Ha as [-> Hpos]. case_decide as Hb.
  - destruct (flush d1 start m s) as [[d2| |] s2] eqn:Hf; try done.
    apply (flush_ok _ _ _ _ _ _ _ Hr) in Hf as (Hz & Hl & rs2 & Hr2 & Hsy); [|unfold u64; lia..].
    apply (IH _ _ _ _ _ _ _ _ _ Hr2) in Hc as (-> & Hs' & Hlen' & Hl' & Hr' & Hd); [|lia..].
    split_and!; [lia|lia|lia|done|congruence|done|]. right. destruct Hd as [[-> Hre]|?]; [|done].
    exists start. rewrite Hre. by replace (m + 1 - 1)%Z with m by lia.
  - apply (IH _ _ _ _ _ _ _ _ _ Hr) in Hc as (-> & Hs' & Hlen' & Hl' & Hr' & Hd); [|lia..].
    split_and!; [lia|lia|lia|done|done|done|done].
Qed.

Lemma MaxShardLen_empty : MaxShardLen ∅ = 0.
Proof. unfold MaxShardLen. by rewrite map_to_list_empty. Qed.

Lemma finish_redo minID s r s' : finish minID s = (r, s') → redo s' = redo s.
Proof.
  unfold finish, mbind, M_bind. destruct (TruncateFront (clog s) minID) as [[[]| |] l];
    [|by intros [= _ <-]..].
  destruct (on_st _ _) as [[[]| |] s1] eqn:H1; apply on_st_frame in H1 as [H1 _];
    [|by intros [= _ <-]..].
  intros H2. apply on_st_frame in H2 as [H2 _]. cbn [redo] in H1. congruence.
Qed.

(** C27: A successful run of the consumer leaves the redo log clean and
    advances it.  From [lo], the last committed id, with [last] the last id of
    the WAL: when [ConsumeWAL] reports that it consumed entries, both marks of
    the redo log name the same range, which ends at the smaller of [last] and
    [lo] + 10240 and lies above [lo]; so opening the WAL after this run rolls
    nothing back, and the next run starts after that id. *)
Theorem ConsumeWAL_commits s s' rs lo last :
  repr (redo s) rs → last_committed s = (Ok lo, s) → LastIndex (clog s) = Ok last →
  (0 ≤ lo ≤ last)%Z → (last < 2 ^ 64 - 1)%Z →
  ConsumeWAL s = (Ok true, s') →
  (lo < last)%Z ∧ ∃ a, synced (redo s') a (Z.min last (lo + MaxBatchSize)) ∧
    Rollback s' = (Ok tt, s') ∧ last_committed s' = (Ok (Z.min last (lo + MaxBatchSize)), s').
Proof.
  intros Hr Hlo Hlast Hrange Hbig. unfold ConsumeWAL.
  destruct (consume s) as [[[minID|]| |] s1] eqn:Hc; try done. intros Hfin.
  enough ((lo < last)%Z ∧ ∃ a, synced (redo s1) a (Z.min last (lo + MaxBatchSize))) as [Hlt (a & Hsy)].
  { split; [done|]. exists a. assert (redo s' = redo s1) as Hre.
    { destruct (finish minID s1) as [r s2] eqn:Hf.
      assert (redo s2 = redo s1) as <- by (eapply finish_redo; exact Hf). destruct r; by simplify_eq. }
    rewrite Hre. destruct Hsy as [Hrd Hwr]. split_and!; [done..| |].
    - unfold Rollback. rewrite Hre, Hrd, Hwr. by rewrite decide_True.
    - unfold last_committed. by rewrite Hre, Hwr. }
  unfold consume, get, mbind, M_bind, lift in Hc. rewrite Hlast, Hlo in Hc.
  case_decide as Heq; [done|]. split; [lia|]. cbv zeta in Hc.
  assert ((if decide (MaxBatchSize < wrap64 (last - lo))%Z then (lo + MaxBatchSize)%Z else last) =
    Z.min last (lo + MaxBatchSize)) as Hhi.
  { clear Hc. rewrite wrap64_small by lia. unfold MaxBatchSize. destruct (decide _); lia. }
  rewrite Hhi in Hc. set (hi := Z.min last (lo + MaxBatchSize)) in *.
  assert (lo < hi < 2 ^ 64 - 1)%Z as Hhi' by (unfold hi, MaxBatchSize; lia). clearbody hi.
  destruct (consume_loop _ _ _ ∅ s) as [[[[next start] docs]| |] s2] eqn:Hl; try done.
  apply (consume_loop_ok _ _ _ _ _ _ _ _ _ _ Hr) in Hl as (Hn & Hst & Hlen & _ & [rs2 Hr2] & Hd);
    [|lia|unfold u64; lia|rewrite MaxShardLen_empty; lia].
  assert (next = hi + 1)%Z as -> by lia. replace (hi + 1 - 1)%Z with hi in Hc by lia.
  clear Hhi. case_decide as Hp.
  - unfold mbind, M_bind in Hc. destruct (flush docs start hi s2) as [[d3| |] s3] eqn:Hf; try done.
    apply (flush_ok _ _ _ _ _ _ _ Hr2) in Hf as (_ & _ & rs3 & _ & Hsy); [|unfold u64; lia..].
    unfold mret, M_ret in Hc. cbv beta iota in Hc. injection Hc as _ <-. by exists start.
  - unfold mret, M_ret in Hc. injection Hc as _ <-. destruct Hd as [[-> _]|(a & Hsy)]; [lia|].
    exists a. by replace hi with (start - 1)%Z by lia.
Qed.
End consumer.

(** * A concrete run *)

(** A log of entries 1, 2, ... *)
#[global] Instance demo_wal : Wal (list string) := {|
  LastIndex l := Ok (Z.of_nat (length l));
  WalRead l id := match l !! Z.to_nat (id - 1) with Some e => Ok e | None => Err "not found" end;
  TruncateFront l id := (Ok tt, l)
|}.

(** Entries that name the document they insert. *)
Definition demo_unmarshal (e : string) : gmap string value + string := inl (demo_op "insert" e (-1) 5).

Definition demo_consume : M (@CSt (list string) (list demo_doc) unit) bool :=
  ConsumeWAL demo_build "ix" [] (λ _, None) (λ _, 0%Z) map_order_default map_order_default map_order_default
    demo_unmarshal 2 100 (λ _ _ _, None) None.

Definition demo_cst : @CSt (list string) (list demo_doc) unit :=
  mkCSt ["a"; "b"; "c"] (RedoLog.mkLog ∅ [] []) (demo_state [new_second 0] 0 0).

Lemma ConsumeWAL_commits_witness :
  ∃ s', demo_consume demo_cst = (Ok true, s') ∧
    stored (cst s') 0 "a" = [("a", 5)]%Z ∧ stored (cst s') 0 "c" = [("c", 5)]%Z ∧
    ∃ a, synced (redo s') a 3.
Proof.
  assert (match demo_consume demo_cst with
          | (Ok true, s') => stored (cst s') 0 "a" = [("a", 5)]%Z ∧ stored (cst s') 0 "c" = [("c", 5)]%Z
          | _ => False
          end) as Hrun by (vm_compute; split; reflexivity).
  destruct (demo_consume demo_cst) as [[[|]| |] s'] eqn:Hc; [|destruct Hrun..].
  exists s'. split; [reflexivity|]. split; [apply Hrun|]. split; [apply Hrun|].
  destruct (ConsumeWAL_commits demo_build "ix" [] (λ _, None) (λ _, 0%Z) map_order_default map_order_default
    map_order_default demo_unmarshal 2 100 (λ _ _ _, None) None demo_cst s' [] 0 3) as (_ & a & Hsy & _).
  - exact RedoLog.repr_empty.
  - vm_compute. reflexivity.
  - reflexivity.
  - lia.
  - lia.
  - exact Hc.
  - by exists a.
Defined.
