(* ===== verification/LruCache.v ===== *)
(** pkg/lru_cache/cache_manager.go: the cache of object-store files on local
    disk.  Handles are shared pointers with a reference count, so the model has
    a heap of cache-file objects, the map from paths to objects, and the disk. *)
From Stdlib Require Import SpecFloat.
From S2P Require Import Prelude Hash Strconv Value.

(** * State *)

(** [refCount] is an unsigned 64-bit counter. *)
Record CacheFile := mkCacheFile { path : string; refCount : Z; size : Z; atime : Z }.

(** [readyMap] holds the paths a download is in progress for. *)
Record LruCache := mkLru {
  heap : gmap nat CacheFile;
  caches : gmap string nat;
  readyMap : gset string;
  maxSize : Z;
  files : gmap string Z
}.

Definition set_heap (f : gmap nat CacheFile → gmap nat CacheFile) (c : LruCache) : LruCache :=
  mkLru (f (heap c)) (caches c) (readyMap c) (maxSize c) (files c).
Definition set_caches (f : gmap string nat → gmap string nat) (c : LruCache) : LruCache :=
  mkLru (heap c) (f (caches c)) (readyMap c) (maxSize c) (files c).
Definition set_ready (f : gset string → gset string) (c : LruCache) : LruCache :=
  mkLru (heap c) (caches c) (f (readyMap c)) (maxSize c) (files c).
Definition set_files (f : gmap string Z → gmap string Z) (c : LruCache) : LruCache :=
  mkLru (heap c) (caches c) (readyMap c) (maxSize c) (f (files c)).

(** [&CacheFile{...}]: a fresh object. *)
Definition alloc (cf : CacheFile) (c : LruCache) : nat * LruCache :=
  let h := fresh (dom (heap c)) in (h, set_heap (insert h cf) c).

Definition zero_file : CacheFile := mkCacheFile "" 0 0 0.
Definition deref (c : LruCache) (h : nat) : CacheFile := default zero_file (heap c !! h).

(** [cf.refCount++; cf.atime = time.Now()]. *)
Definition touch (h : nat) (now : Z) (c : LruCache) : LruCache :=
  set_heap (alter (λ f, mkCacheFile (path f) (wrap64 (refCount f + 1)) (size f) now) h) c.

(** [Close] of a handle. *)
Definition Close (h : nat) (c : LruCache) : LruCache :=
  set_heap (alter (λ f, mkCacheFile (path f) (wrap64 (refCount f - 1)) (size f) (atime f)) h) c.

(** * Eviction *)

Definition total_size (c : LruCache) : Z :=
  foldr (λ ph n, size (deref c ph.2) + n)%Z 0%Z (map_to_list (caches c)).

(** [float64(curSize) <= float64(c.maxSize) * 0.7]; 0.7 is the nearest float64. *)
Definition seven_tenths : float64 := S754_finite false 6305039478318694 (-53).
Definition reached (max cur : Z) : bool :=
  SFleb (float_of_Z cur) (SFmul 53 1024 (float_of_Z max) seven_tenths).

(** The files are sorted by access time. *)
Definition older (c : LruCache) (a b : nat) : bool := (atime (deref c a) <? atime (deref c b))%Z.

(** The eviction loop.  [rm_err] are the paths whose removal fails. *)
Fixpoint evict (rm_err : string → bool) (fs : list nat) (cur : Z) (c : LruCache) : LruCache * Z :=
  match fs with
  | [] => (c, cur)
  | h :: fs =>
      let f := deref c h in
      let referenced := match caches c !! path f with
                        | Some h' => (0 <? refCount (deref c h'))%Z
                        | None => false
                        end in
      if referenced then evict rm_err fs cur c
      else
        let c := set_caches (delete (path f)) c in
        match files c !! path f with
        | None => evict rm_err fs cur c
        | Some _ =>
            if rm_err (path f) then evict rm_err fs cur c
            else
              let c := set_files (delete (path f)) c in
              let cur := (cur - size f)%Z in
              if reached (maxSize c) cur then (c, cur) else evict rm_err fs cur c
        end
  end.

(** [makeRoomForCacheFile] on an undisturbed cache.  [o] is the traversal of
    the map, [srt] the sort. *)
Definition makeRoomForCacheFile (rm_err : string → bool) (o : map_order string nat)
    (c : LruCache) (srt : sorter (older c)) : LruCache :=
  let cur := total_size c in
  if decide (cur < maxSize c)%Z then c
  else (evict rm_err (sort_slice srt (range o (caches c)).*2) cur c).1.

(** * Access *)

Definition GetCacheFile (filePath : string) (now : Z) (c : LruCache) : option nat * LruCache :=
  match caches c !! filePath with
  | None => (None, c)
  | Some h =>
      let c := touch h now c in
      match files c !! filePath with
      | None => (None, set_caches (delete filePath) c)
      | Some _ => (Some h, c)
      end
  end.

(** [CacheFile] after making room, one turn of its loop: a hit, a wait for the
    download in progress, or the start of a download. *)
Inductive cache_begin := Hit (h : nat) | Wait | Download.

Definition CacheFile_begin (filePath : string) (now : Z) (c : LruCache) : cache_begin * LruCache :=
  match caches c !! filePath with
  | Some h => (Hit h, touch h now c)
  | None =>
      if decide (filePath ∈ readyMap c) then (Wait, c)
      else (Download, set_ready (union {[filePath]}) c)
  end.

(** The start of [CacheFile]: the directory, room, and the first turn. *)
Definition CacheFile_start (setup_err : option string) (rm_err : string → bool) (o : map_order string nat)
    (filePath : string) (now : Z) (c : LruCache) (srt : sorter (older c)) : res cache_begin * LruCache :=
  match setup_err with
  | Some e => (Err e, c)
  | None => let '(b, c) := CacheFile_begin filePath now (makeRoomForCacheFile rm_err o c srt) in (Ok b, c)
  end.

(** How the download can end: the temporary file cannot be created; copying or
    renaming it fails; the file is in place but [Sync] or [Close] fails; or all
    is well. *)
Inductive download :=
  | CreateTempFails (e : string)
  | CopyFails (e : string)
  | MoveFails (e : string)
  | SyncFails (e : string) (size : Z)
  | FinishFails (e : string) (size : Z)
  | Done (size : Z).

Definition CacheFile_end (filePath : string) (now : Z) (d : download) (c : LruCache) : res nat * LruCache :=
  let cleanup := set_ready (λ r, r ∖ {[filePath]}) in
  match d with
  (* cleanup() calls tempfile.Name() on the nil file *)
  | CreateTempFails _ => (Panic PNilDeref, c)
  | CopyFails e => (Err ("cache file err: copy temp file err: " +:+ e), cleanup c)
  | MoveFails e => (Err ("cache file err: rename temp file err: " +:+ e), cleanup c)
  | SyncFails e size => (Err ("cache file err: sync temp file err: " +:+ e), cleanup (set_files (insert filePath size) c))
  | FinishFails e size => (Err ("cache file err: close temp file err: " +:+ e), cleanup (set_files (insert filePath size) c))
  | Done size =>
      let c := set_files (insert filePath size) c in
      let '(h, c) := alloc (mkCacheFile filePath 1 size now) c in
      (Ok h, set_ready (λ r, r ∖ {[filePath]}) (set_caches (insert filePath h) c))
  end.

(** The failures of replacing a file: of the rename, or after it, before or
    after the new entry is installed. *)
Inductive replace_err := NoError | RenameFails (e : string) | LaterFails (e : string) | CloseFails (e : string).

(** The part of [UpdateCacheFile] after making room, with the renamed file of
    the given size. *)
Definition replace (filePath : string) (now size : Z) (err : replace_err) (c : LruCache)
    : res unit * LruCache :=
  match err with
  | RenameFails e => (Err ("update cache file err: rename temp file err : " +:+ e), c)
  | LaterFails e | CloseFails e =>
      (Err ("update cache file err: stat file err : " +:+ e), set_files (insert filePath size) c)
  | NoError =>
      let c := set_files (insert filePath size) c in
      let '(h, c) := alloc (mkCacheFile filePath 0 size now) c in
      (Ok tt, set_caches (insert filePath h) c)
  end.

Definition UpdateCacheFile (setup_err : option string) (rm_err : string → bool) (o : map_order string nat)
    (filePath : string) (now size : Z) (err : replace_err) (c : LruCache) (srt : sorter (older c))
    : res unit * LruCache :=
  match setup_err with
  | Some e => (Err e, c)
  | None => replace filePath now size err (makeRoomForCacheFile rm_err o c srt)
  end.

(** [Remove] of a file; [parent_err] is a failure to remove an empty parent. *)
Definition Remove (filePath : string) (err parent_err : option string) (c : LruCache) : res unit * LruCache :=
  let c := set_caches (delete filePath) c in
  match err with
  | Some e => (Err ("remove file " +:+ filePath +:+ " err: " +:+ e), c)
  | None => (match parent_err with Some e => Err e | None => Ok tt end, set_files (delete filePath) c)
  end.

(** [OpenWriter]: the entry is referenced while the file is being written to a
    temporary file. *)
Definition OpenWriter (rm_err : string → bool) (o : map_order string nat) (filePath : string) (now : Z)
    (setup_err temp_err : option string) (c : LruCache) (srt : sorter (older c)) : res nat * LruCache :=
  let c := makeRoomForCacheFile rm_err o c srt in
  match setup_err with
  | Some e => (Err ("open cache writer err: " +:+ e), c)
  | None =>
      let '(h, c) := match caches c !! filePath with
                     | Some h => (h, touch h now c)
                     | None =>
                         let '(h, c) := alloc (mkCacheFile filePath 1 0 now) c in
                         (h, set_caches (insert filePath h) c)
                     end in
      match temp_err with
      | Some e => (Err ("open cache writer err: crate temp file err: " +:+ e), c)
      | None => (Ok h, c)
      end
  end.

(** [Close] of the writer: the temporary file takes the place of the file. *)
Definition tempWriteFile_Close (h : nat) (filePath : string) (now size : Z) (err : replace_err) (c : LruCache)
    : res unit * LruCache :=
  let c := set_caches (delete filePath) (Close h c) in
  match err with
  | RenameFails e => (Err ("close temp write file err: rename err: " +:+ e), c)
  | LaterFails e => (Err e, set_files (insert filePath size) c)
  | NoError | CloseFails _ =>
      let c := set_files (insert filePath size) c in
      let '(h, c) := alloc (mkCacheFile filePath 0 size now) c in
      (match err with CloseFails e => Err e | _ => Ok tt end, set_caches (insert filePath h) c)
  end.

(** * Start-up *)

(** One file met by [filepath.Walk] under the root of the cache, with what the
    walk, the removal and the [Stat] answer. *)
Record walked := mkWalked {
  w_path : string; w_dir : bool; w_ext : string; w_size : Z; w_atime : Z;
  w_err : option string; w_rm_err : option string; w_stat_err : option string
}.

Definition init_turn (fileExt : string → bool) (tempExt : string) (c : LruCache) (w : walked) : res LruCache :=
  match w_err w with
  | Some e => Err e
  | None =>
      if w_dir w then Ok c
      else if String.eqb (w_ext w) tempExt then
        match w_rm_err w with Some e => Err e | None => Ok (set_files (delete (w_path w)) c) end
      else if negb (fileExt (w_ext w)) then Ok c
      else
        match w_stat_err w with
        | Some e => Err e
        | None => let '(h, c) := alloc (mkCacheFile (w_path w) 0 (w_size w) (w_atime w)) c in
                  Ok (set_caches (insert (w_path w) h) c)
        end
  end.

(** [init] over the files of the walk; [createCache] panics on its error. *)
Definition init (fileExt : string → bool) (tempExt : string) (maxSize : Z) (files : gmap string Z)
    (ws : list walked) : res LruCache :=
  match foldM (init_turn fileExt tempExt) (mkLru ∅ ∅ ∅ maxSize files) ws with
  | Err e => Panic (PExplicit ("init cache error: " +:+ e))
  | r => r
  end.

(** * Eviction keeps referenced files and goes by age *)

(** Every entry names an object of its own path. *)
Definition wf (c : LruCache) : Prop :=
  ∀ p h, caches c !! p = Some h → ∃ f, heap c !! h = Some f ∧ path f = p.

Lemma wf_path c p h : wf c → caches c !! p = Some h → path (deref c h) = p.
Proof. intros Hwf (f & Hf & <-)%Hwf. unfold deref. by rewrite Hf. Qed.

Definition referenced (c : LruCache) (p : string) : bool :=
  match caches c !! p with Some h => (0 <? refCount (deref c h))%Z | None => false end.

(** What a run of the loop over [fs] does: a prefix of the files is handled,
    each of which is referenced or gone; nothing else is touched; and it stops
    early only below the target. *)
Lemma evict_spec rm_err fs : ∀ cur c c' cur',
  evict rm_err fs cur c = (c', cur') →
  heap c' = heap c ∧ maxSize c' = maxSize c ∧
  ∃ pre post, fs = pre ++ post ∧ (post = [] ∨ reached (maxSize c) cur' = true) ∧
    (∀ f, f ∈ pre → referenced c (path (deref c f)) = false → caches c' !! path (deref c f) = None) ∧
    (∀ p, (∀ f, f ∈ pre → path (deref c f) = p → referenced c p = true) →
       caches c' !! p = caches c !! p ∧ files c' !! p = files c !! p).
Proof.
  induction fs as [|h fs IH]; intros cur c c' cur' He; cbn [evict] in He.
  { simplify_eq. split_and!; [done|done|]. exists [], []. split_and!; [done|by left| |done].
    intros f []%elem_of_nil. }
  cbv zeta in He. fold (referenced c (path (deref c h))) in He.
  destruct (referenced c (path (deref c h))) eqn:Href.
  - apply IH in He as (Hh & Hm & pre & post & -> & Hpost & Hgone & Hkeep). split_and!; [done|done|].
    exists (h :: pre), post. split_and!; [done|done| |].
    + intros f [->|Hf]%elem_of_cons; [congruence|by apply Hgone].
    + intros p Hp. apply Hkeep. intros f Hf. apply Hp. by right.
  - set (p0 := path (deref c h)) in *.
    assert (∀ c1 cur1, heap c1 = heap c → maxSize c1 = maxSize c → caches c1 = delete p0 (caches c) →
      (∀ p, p ≠ p0 → files c1 !! p = files c !! p) → evict rm_err fs cur1 c1 = (c', cur') →
      heap c' = heap c ∧ maxSize c' = maxSize c ∧
      ∃ pre post, h :: fs = pre ++ post ∧ (post = [] ∨ reached (maxSize c) cur' = true) ∧
        (∀ f, f ∈ pre → referenced c (path (deref c f)) = false → caches c' !! path (deref c f) = None) ∧
        (∀ p, (∀ f, f ∈ pre → path (deref c f) = p → referenced c p = true) →
           caches c' !! p = caches c !! p ∧ files c' !! p = files c !! p)) as Hgo.
    { intros c1 cur1 Hh1 Hm1 Hc1 Hf1 He1. apply IH in He1 as (Hh & Hm & pre & post & -> & Hpost & Hgone & Hkeep).
      assert (∀ f, deref c1 f = deref c f) as Hd by (intros f; unfold deref; by rewrite Hh1).
      assert (∀ p, p ≠ p0 → referenced c1 p = referenced c p) as Hr.
      { intros p Hne. unfold referenced. rewrite Hc1, lookup_delete_ne by done.
        destruct (caches c !! p); [by rewrite Hd|done]. }
      assert (referenced c1 p0 = false) as Hr0 by (unfold referenced; by rewrite Hc1, lookup_delete_eq).
      split_and!; [congruence|congruence|]. exists (h :: pre), post. rewrite Hm1 in Hpost.
      split_and!; [done|done| |].
      - assert (caches c' !! p0 = None) as Hg0.
        { destruct (decide (p0 ∈ (λ f, path (deref c f)) <$> pre)) as [(f & Hp & Hf)%list_elem_of_fmap|Hno].
          - rewrite Hp, <-Hd. apply Hgone; [done|]. by rewrite Hd, <-Hp.
          - rewrite (proj1 (Hkeep p0 ltac:(intros f Hf Hp; exfalso; apply Hno; rewrite Hd in Hp;
              apply list_elem_of_fmap; by exists f))).
            by rewrite Hc1, lookup_delete_eq. }
        intros f [->|Hf]%elem_of_cons Hrf; [done|].
        destruct (decide (path (deref c f) = p0)) as [->|Hne]; [done|].
        rewrite <-Hd. apply Hgone; [done|]. rewrite Hd, Hr by done. done.
      - intros p Hp. assert (p ≠ p0) as Hne.
        { intros ->. pose proof (Hp h ltac:(by left) eq_refl). congruence. }
        destruct (Hkeep p) as [-> ->].
        + intros f Hf Hpf. rewrite Hr by done. rewrite Hd in Hpf. apply (Hp f); [by right|done].
        + rewrite Hc1, lookup_delete_ne by done. auto. }
    cbn [set_caches files] in He. fold p0 in He. destruct (files c !! p0) as [sz|] eqn:Hfile.
    2: { eapply Hgo; [..|exact He]; done. }
    destruct (rm_err p0); [eapply Hgo; [..|exact He]; done|].
    destruct (reached _ _) eqn:Hreach.
    2: { eapply Hgo; [..|exact He]; try done. intros p Hne. cbn. by rewrite lookup_delete_ne. }
    simplify_eq. split_and!; [done|done|]. exists [h], fs. split_and!; [done|by right| |].
    + intros f ->%list_elem_of_singleton _. cbn. by rewrite lookup_delete_eq.
    + intros p Hp. assert (p ≠ p0) as Hne.
      { intros ->. pose proof (Hp h ltac:(by left) eq_refl). congruence. }
      cbn. by rewrite !lookup_delete_ne by done.
Qed.

Lemma total_size_delete c p h :
  caches c !! p = Some h → total_size (set_caches (delete p) c) = (total_size c - size (deref c h))%Z.
Proof.
  intros Hp. unfold total_size. cbn [set_caches caches].
  assert (∀ ph, deref (set_caches (delete p) c) ph = deref c ph) as Hd by done.
  assert (foldr (λ ph n, size (deref c ph.2) + n)%Z 0%Z (map_to_list (caches c)) =
    foldr (λ ph n, size (deref c ph.2) + n)%Z 0%Z ((p, h) :: map_to_list (delete p (caches c)))) as ->.
  { apply (foldr_permutation (=)); [solve_proper|intros; lia|]. symmetry. by apply map_to_list_delete. }
  cbn [foldr snd]. change (λ ph n, size (deref (set_caches (delete p) c) ph.2) + n)%Z
    with (λ (ph : string * nat) n, size (deref c ph.2) + n)%Z. lia.
Qed.

Lemma evict_subset rm_err fs : ∀ cur c c' cur' p h,
  evict rm_err fs cur c = (c', cur') → caches c' !! p = Some h → caches c !! p = Some h.
Proof.
  induction fs as [|f fs IH]; intros cur c c' cur' p h He Hp; cbn [evict] in He; [by simplify_eq|].
  cbv zeta in He. destruct (match caches c !! path (deref c f) with Some _ => _ | None => _ end);
    [by eapply IH|].
  assert (∀ q, delete q (caches c) !! p = Some h → caches c !! p = Some h) as Hd
    by (intros q [_ Hq]%lookup_delete_Some; done).
  cbn [set_caches files] in He. destruct (files c !! _).
  2: { eapply Hd. eapply IH in He; [|done]. exact He. }
  destruct (rm_err _); [eapply Hd; eapply IH in He; [|done]; exact He|].
  destruct (reached _ _); [simplify_eq; cbn in Hp; by apply Hd in Hp|]. eapply Hd. eapply IH in He; [|done]. exact He.
Qed.

(** Without failures the loop's running size is the size of the cache. *)
Lemma evict_size rm_err fs : ∀ c c' cur',
  (∀ p, rm_err p = false) → NoDup fs → (∀ f, f ∈ fs → caches c !! path (deref c f) = Some f) →
  (∀ p h, caches c !! p = Some h → is_Some (files c !! p)) →
  evict rm_err fs (total_size c) c = (c', cur') → cur' = total_size c'.
Proof.
  induction fs as [|h fs IH]; intros c c' cur' Hrm Hnd Hin Hdisk He; cbn [evict] in He; [by simplify_eq|].
  apply NoDup_cons in Hnd as [Hh Hnd]. cbv zeta in He.
  pose proof (Hin h ltac:(by left)) as Hch. rewrite Hch in He.
  destruct (0 <? refCount (deref c h))%Z.
  { eapply IH; [done|done| |done|exact He]. intros f Hf. apply Hin. by right. }
  set (p := path (deref c h)) in *. destruct (Hdisk p h Hch) as [sz Hsz].
  cbn [set_caches files] in He. rewrite Hsz, Hrm in He. unfold p in He. fold p in He.
  rewrite <-(total_size_delete c p h Hch) in He.
  assert (total_size (set_caches (delete p) c) = total_size (set_files (delete p) (set_caches (delete p) c)))
    as Heq by done.
  destruct (reached _ _); [by simplify_eq|]. rewrite Heq in He. eapply IH; [done|done| | |exact He].
  - intros f Hf. cbn [set_files set_caches caches]. change (deref _ f) with (deref c f).
    rewrite lookup_delete_ne; [apply Hin; by right|]. intros Hpf.
    pose proof (Hin f ltac:(by right)) as Hcf. rewrite <-Hpf in Hcf. fold p in Hch. congruence.
  - intros q h'. cbn [set_files set_caches caches files]. intros [Hne Hq]%lookup_delete_Some.
    rewrite lookup_delete_ne by done. by eapply Hdisk.
Qed.

(** The files the loop is given. *)
Lemma snapshot_elem c o (srt : sorter (older c)) f :
  wf c → f ∈ sort_slice srt (range o (caches c)).*2 ↔ caches c !! path (deref c f) = Some f.
Proof.
  intros Hwf. rewrite (sort_slice_perm srt), list_elem_of_fmap. split.
  - intros ([p h] & -> & Hin%range_elem). cbn [snd]. by rewrite (wf_path c p h Hwf Hin).
  - intros Hf. exists (path (deref c f), f). split; [done|]. by apply range_elem.
Qed.

Lemma snapshot_nodup c o (srt : sorter (older c)) : wf c → NoDup (sort_slice srt (range o (caches c)).*2).
Proof.
  intros Hwf. rewrite (sort_slice_perm srt). apply NoDup_fmap_2_strong.
  - intros [p h] [q h'] Hp%range_elem Hq%range_elem. cbn [snd]. intros ->.
    by rewrite <-(wf_path c p h' Hwf Hp), <-(wf_path c q h' Hwf Hq).
  - apply (NoDup_fmap_1 fst). apply range_nodup.
Qed.

Lemma sorted_split {A} (R : A → A → Prop) (pre post : list A) x y :
  StronglySorted R (pre ++ post) → x ∈ pre → y ∈ post → R x y.
Proof.
  induction pre as [|a pre IH]; intros Hs Hx Hy; [by apply elem_of_nil in Hx|].
  cbn in Hs. apply StronglySorted_inv in Hs as [Hs Ha]. apply elem_of_cons in Hx as [->|Hx]; [|by apply IH].
  rewrite Forall_forall in Ha. apply Ha. apply elem_of_app. by right.
Qed.

(** C31: Making room evicts unreferenced files, oldest first, until the cache
    is below 70% of its limit.  On a cache at its limit, for every traversal
    and every sort by access time: (1) a file with a positive reference count
    keeps its entry and its bytes; (2) when a file is evicted, every
    unreferenced file accessed before it is evicted too; (3) when the removals
    succeed, the cache ends below the target or with referenced files only. *)
Theorem makeRoom_evicts_lru rm_err o c srt :
  wf c → (maxSize c ≤ total_size c)%Z →
  let c' := makeRoomForCacheFile rm_err o c srt in
  (∀ p, referenced c p = true → caches c' !! p = caches c !! p ∧ files c' !! p = files c !! p) ∧
  (∀ p q hp hq, caches c !! p = Some hp → caches c !! q = Some hq → referenced c p = false →
     (atime (deref c hp) < atime (deref c hq))%Z → caches c' !! q = None → caches c' !! p = None) ∧
  ((∀ p, rm_err p = false) → (∀ p h, caches c !! p = Some h → is_Some (files c !! p)) →
     reached (maxSize c) (total_size c') = true ∨
     ∀ p h, caches c' !! p = Some h → referenced c p = true).
Proof.
  intros Hwf Hfull c'. unfold c', makeRoomForCacheFile. rewrite decide_False by lia.
  destruct (evict rm_err _ (total_size c) c) as [c1 cur1] eqn:He. cbn [fst].
  pose proof (λ f, snapshot_elem c o srt f Hwf) as Hsnap.
  destruct (evict_spec _ _ _ _ _ _ He) as (_ & _ & pre & post & Hfs & Hpost & Hgone & Hkeep).
  assert (∀ q hq, caches c !! q = Some hq → caches c1 !! q = None → hq ∈ pre) as Hpre.
  { intros q hq Hq Hn. destruct (decide (hq ∈ pre)) as [|Hno]; [done|]. exfalso.
    destruct (Hkeep q) as [Hc _]; [|congruence]. intros f Hf <-.
    assert (caches c !! path (deref c f) = Some f) by (apply Hsnap; rewrite Hfs; apply elem_of_app; by left).
    congruence. }
  assert (∀ p hp, caches c !! p = Some hp → referenced c p = false → hp ∈ pre → caches c1 !! p = None) as Hg.
  { intros p hp Hp Hr Hin. rewrite <-(wf_path c p hp Hwf Hp) in Hr |- *. by apply Hgone. }
  assert (∀ p hp, caches c !! p = Some hp → hp ∈ pre ∨ hp ∈ post) as Hall.
  { intros p hp Hp. rewrite <-elem_of_app, <-Hfs. apply Hsnap. by rewrite (wf_path c p hp Hwf Hp). }
  split_and!.
  - intros p Hp. apply Hkeep. intros f _ _. done.
  - intros p q hp hq Hp Hq Hr Hlt Hn. apply (Hg p hp Hp Hr). destruct (Hall p hp Hp) as [|Hin]; [done|].
    exfalso. pose proof (sort_slice_sorted srt (range o (caches c)).*2) as Hs. rewrite Hfs in Hs.
    pose proof (sorted_split _ _ _ hq hp Hs (Hpre q hq Hq Hn) Hin) as Hle. cbn in Hle.
    unfold older in Hle. lia.
  - intros Hrm Hdisk. destruct Hpost as [->|Hreach].
    + right. intros p h Hp. pose proof (evict_subset _ _ _ _ _ _ _ _ He Hp) as Hcp.
      destruct (referenced c p) eqn:Hr; [done|]. exfalso. destruct (Hall p h Hcp) as [Hin|[]%elem_of_nil].
      by rewrite (Hg p h Hcp Hr Hin) in Hp.
    + left. pose proof (evict_size _ _ _ _ _ Hrm (snapshot_nodup c o srt Hwf) (λ f, proj1 (Hsnap f)) Hdisk He).
      congruence.
Qed.

(** * Handles *)

(** A cache with two files, the older one [a] just opened by a reader. *)
Definition demo_cache : LruCache :=
  mkLru {[0 := mkCacheFile "a" 0 60 1; 1 := mkCacheFile "b" 0 50 2]} {["a" := 0; "b" := 1]} ∅ 100
    {["a" := 60; "b" := 50]}%Z.

Section age_sorter.
Context (c : LruCache).

Definition age_le (a b : nat) : Prop := (atime (deref c a) ≤ atime (deref c b))%Z.
#[local] Instance age_le_dec : RelDecision age_le.
Proof. intros a b. unfold age_le. apply _. Defined.
#[local] Instance age_le_total : Total age_le.
Proof. intros a b. unfold age_le. lia. Qed.
#[local] Instance age_le_trans : Transitive age_le.
Proof. intros x y z. unfold age_le. lia. Qed.

Lemma age_sorted l : StronglySorted (λ a b, older c b a = false) (merge_sort age_le l).
Proof.
  assert (StronglySorted age_le (merge_sort age_le l)) as Hs by apply (StronglySorted_merge_sort age_le).
  induction Hs as [|a l' Hs IH Ha]; constructor; [done|].
  eapply Forall_impl; [exact Ha|]. intros b Hb. unfold age_le in Hb. unfold older. lia.
Qed.

Definition age_sorter : sorter (older c) :=
  Sorter (merge_sort age_le) (merge_sort_Permutation age_le) age_sorted.
End age_sorter.

Lemma demo_cache_wf : wf demo_cache.
Proof.
  intros p h. unfold demo_cache. cbn [caches]. rewrite lookup_insert_Some, lookup_singleton_Some.
  intros [[<- <-]|[_ [<- <-]]]; by eexists.
Qed.

Lemma makeRoom_evicts_lru_witness :
  let c' := makeRoomForCacheFile (λ _, false) map_order_default demo_cache (age_sorter demo_cache) in
  caches c' !! "a" = None ∧ caches c' !! "b" = Some 1 ∧
  (reached (maxSize demo_cache) (total_size c') = true ∨
   ∀ p h, caches c' !! p = Some h → referenced demo_cache p = true).
Proof.
  intros c'. split; [vm_compute; reflexivity|]. split; [vm_compute; reflexivity|].
  destruct (makeRoom_evicts_lru (λ _, false) map_order_default demo_cache (age_sorter demo_cache) demo_cache_wf)
    as (_ & _ & H); [vm_compute; discriminate|].
  apply H; [done|]. intros p h. unfold demo_cache. cbn [caches files].
  rewrite lookup_insert_Some, lookup_singleton_Some. intros [[<- _]|[_ [<- _]]]; by eexists.
Defined.

Lemma deref_touch c h now f :
  heap c !! h = Some f →
  deref (touch h now c) h = mkCacheFile (path f) (wrap64 (refCount f + 1)) (size f) now.
Proof. intros Hf. unfold deref, touch. cbn. by rewrite lookup_alter_eq, Hf. Qed.

Lemma wf_touch c h now : wf c → wf (touch h now c).
Proof.
  intros Hwf p h' Hp. destruct (Hwf p h' Hp) as (f & Hf & Hpath). cbn [touch set_heap heap].
  destruct (decide (h = h')) as [->|Hne]; [|exists f; by rewrite lookup_alter_ne].
  rewrite lookup_alter_eq, Hf. by eexists.
Qed.

(** Evicting changes no object. *)
Lemma makeRoom_heap rm_err o c srt : heap (makeRoomForCacheFile rm_err o c srt) = heap c.
Proof.
  unfold makeRoomForCacheFile. case_decide; [done|].
  destruct (evict _ _ _ _) as [c1 cur1] eqn:He. by destruct (evict_spec _ _ _ _ _ _ He) as [? _].
Qed.

Lemma makeRoom_keeps rm_err o c srt p :
  referenced c p = true →
  caches (makeRoomForCacheFile rm_err o c srt) !! p = caches c !! p ∧
  files (makeRoomForCacheFile rm_err o c srt) !! p = files c !! p.
Proof.
  intros Hr. unfold makeRoomForCacheFile. case_decide; [done|].
  destruct (evict _ _ _ _) as [c1 cur1] eqn:He.
  destruct (evict_spec _ _ _ _ _ _ He) as (_ & _ & pre & post & _ & _ & _ & Hkeep). by apply Hkeep.
Qed.

(** A handle protects its file.  While a handle obtained from
    [GetCacheFile] is open, making room keeps the entry and the bytes of the
    file; closing it brings the reference count back to what it was. *)
Theorem handle_protects_file rm_err o c p now h srt :
  wf c → (∀ h f, heap c !! h = Some f → (0 ≤ refCount f < 2 ^ 64 - 1)%Z) →
  (GetCacheFile p now c).1 = Some h →
  let c2 := makeRoomForCacheFile rm_err o (GetCacheFile p now c).2 srt in
  caches c2 !! p = Some h ∧ files c2 !! p = files c !! p ∧
  refCount (deref (Close h c2) h) = refCount (deref c h).
Proof.
  intros Hwf Hrange Hget c2. unfold c2, GetCacheFile in *. clear c2.
  destruct (caches c !! p) as [h'|] eqn:Hp; [|done]. cbn [touch set_heap files] in *.
  destruct (files c !! p) as [sz|] eqn:Hf; [|done]. cbn [fst snd] in *. simplify_eq.
  destruct (Hwf p h Hp) as (f & Hh & Hpath). pose proof (Hrange h f Hh) as Hr. fold (touch h now c) in *.
  assert (referenced (touch h now c) p = true) as Href.
  { unfold referenced. cbn [touch set_heap caches]. rewrite Hp. fold (touch h now c).
    rewrite (deref_touch c h now f Hh). cbn. rewrite wrap64_small by lia. lia. }
  destruct (makeRoom_keeps rm_err o _ srt p Href) as [-> ->]. split_and!; [done|done|].
  unfold deref at 1, Close. cbn [set_heap heap]. rewrite makeRoom_heap, lookup_alter_eq.
  cbn [touch set_heap heap]. rewrite lookup_alter_eq, Hh. cbn. unfold deref. rewrite Hh. cbn.
  rewrite (wrap64_small (refCount f + 1)) by lia. rewrite Z.add_simpl_r. apply wrap64_small. lia.
Qed.

Lemma handle_protects_file_witness :
  (GetCacheFile "a" 9 demo_cache).1 = Some 0 ∧
  let c2 := makeRoomForCacheFile (λ _, false) map_order_default (GetCacheFile "a" 9 demo_cache).2 (age_sorter _) in
  caches c2 !! "a" = Some 0 ∧ caches c2 !! "b" = None ∧ refCount (deref (Close 0 c2) 0) = 0%Z.
Proof.
  split; [reflexivity|]. intros c2.
  destruct (handle_protects_file (λ _, false) map_order_default demo_cache "a" 9 0
    (age_sorter (GetCacheFile "a" 9 demo_cache).2) demo_cache_wf) as (H1 & _ & H3).
  - intros h f. unfold demo_cache. cbn [heap]. rewrite lookup_insert_Some, lookup_singleton_Some.
    intros [[_ <-]|[_ [_ <-]]]; cbn; lia.
  - reflexivity.
  - split; [exact H1|]. split; [vm_compute; reflexivity|exact H3].
Defined.

(** Replacing a file forgets its readers.  [UpdateCacheFile] (and the
    writer's [Close]) installs a new object with reference count 0 under the
    path, so a file that a reader still holds open can be evicted. *)
Theorem update_unprotects_reader :
  let c := mkLru (heap demo_cache) (caches demo_cache) ∅ 50 (files demo_cache) in
  let '(handle, c1) := GetCacheFile "a" 9 c in
  let c2 := (UpdateCacheFile None (λ _, false) map_order_default "a" 10 60 NoError c1 (age_sorter c1)).2 in
  let c3 := makeRoomForCacheFile (λ _, false) map_order_default c2 (age_sorter _) in
  handle = Some 0 ∧ refCount (deref c3 0) = 1%Z ∧ caches c3 !! "a" = None ∧ files c3 !! "a" = None.
Proof. vm_compute. done. Qed.

(** When the temporary file of a download cannot be created, the clean-up
    itself fails on the nil file: the call panics, the path stays marked as
    being downloaded, and every later request for it waits for good. *)
Theorem create_temp_failure_blocks c p now e :
  caches c !! p = None → p ∉ readyMap c →
  let '(b, c1) := CacheFile_begin p now c in
  let '(r, c2) := CacheFile_end p now (CreateTempFails e) c1 in
  b = Download ∧ r = Panic PNilDeref ∧ ∀ now', CacheFile_begin p now' c2 = (Wait, c2).
Proof.
  intros Hc Hr. unfold CacheFile_begin at 1. rewrite Hc, decide_False by done. cbn.
  split_and!; [done|done|]. intros now'. unfold CacheFile_begin. cbn [set_ready caches readyMap].
  rewrite Hc, decide_True by set_solver. done.
Qed.

Lemma create_temp_failure_blocks_witness :
  let '(b, c1) := CacheFile_begin "x" 1 demo_cache in
  let '(r, c2) := CacheFile_end "x" 1 (CreateTempFails "no space left on device") c1 in
  b = Download ∧ r = Panic PNilDeref ∧ ∀ now', CacheFile_begin "x" now' c2 = (Wait, c2).
Proof.
  apply (create_temp_failure_blocks demo_cache "x" 1 "no space left on device"); [reflexivity|].
  by apply (bool_decide_unpack _).
Defined.
