(* ===== verification/IndexDocument.v ===== *)
(** pkg/core/index_document.go with the id lookups of pkg/core/index_shards.go:
    the operations on documents of an index.  An operation finds the first
    layer shard of the id by rendezvous hashing, looks the id up in its second
    shards, checks the document, and appends the operation to the write-ahead
    log or commits it at once. *)
From Stdlib Require Import SpecFloat.
From S2P Require Import Prelude Hash Strconv Base62 Rendezvous RedoLog Value Document Shards ShardWal.

(** * State *)

Section index_document.
Context {W V : Type} {lib : GoLib}.
Context {bluge : Bluge W Build.document} {vecstore : VecStore V (list spec_float)}.

(** The parts of an index the operations use.  [iwal] holds the open
    write-ahead logs by shard, as the entries appended to them. *)
Record Index := mkIndex {
  iname : string;
  ishards : gmap string (@IndexShard W);
  shardHashing : Rendezvous;
  imappings : Mappings;
  VecIndexes : gmap string SetMappings.VecIndex;
  ivectors : V;
  iwal : gmap string (list string)
}.

Definition set_ishards (f : gmap string (@IndexShard W) → gmap string (@IndexShard W)) (ix : Index) : Index :=
  mkIndex (iname ix) (f (ishards ix)) (shardHashing ix) (imappings ix) (VecIndexes ix) (ivectors ix) (iwal ix).
Definition set_ivectors (v : V) (ix : Index) : Index :=
  mkIndex (iname ix) (ishards ix) (shardHashing ix) (imappings ix) (VecIndexes ix) v (iwal ix).
Definition set_imappings (m : Mappings) (vecs : gmap string SetMappings.VecIndex) (ix : Index) : Index :=
  mkIndex (iname ix) (ishards ix) (shardHashing ix) m vecs (ivectors ix) (iwal ix).
Definition set_iwal (f : gmap string (list string) → gmap string (list string)) (ix : Index) : Index :=
  mkIndex (iname ix) (ishards ix) (shardHashing ix) (imappings ix) (VecIndexes ix) (ivectors ix) (f (iwal ix)).

(** [config.Global]. *)
Record Config := mkConfig {
  EnableWal : bool; BatchSize : nat; MaxSize : Z; EnableTextKeywordMapping : bool
}.

(** What the outside answers during a call: failures of the storage, of the
    searches by second shard and of the log, the clock, which of several
    concurrent searches wins, and the orders of the map loops. *)
Record Env := mkEnv {
  store_err : option string;
  open_err : Z → option string;
  search_fails : Z → bool;
  winner : list Z → Z;
  winner_in : ∀ l, l ≠ [] → winner l ∈ l;
  open_wal : string → res (list string);
  Marshal : gmap string value → string + string;
  wal_err : option string;
  now : Z;
  known_analyzer : string → bool;
  big_pow : nat → Z;
  check_order : map_order string value;
  build_order : map_order string value;
  doc_order : map_order string walDocument;
  shard_order : map_order Z (gmap string walDocument);
  vec_order : map_order string (list (VecAction (list spec_float)));
  field_order : map_order string SetMappings.VecIndex;
  group_order : map_order string (list (gmap string value))
}.

Context (cfg : Config) (env : Env).

Definition ErrorIDNotFound : string := "id not found".

(** * Finding an id *)

(** [GetShardByDocID]; the methods called on a missing shard dereference nil. *)
Definition GetShardByDocID (docID : string) : M Index (string * @IndexShard W) := λ ix,
  match Lookup (shardHashing ix) docID with
  | Ok key => match ishards ix !! key with
              | Some s => (Ok (key, s), ix)
              | None => (Panic PNilDeref, ix)
              end
  | Err e => (Err e, ix)
  | Panic p => (Panic p, ix)
  end.

(** The search for [_id] in one second shard: a failing search is logged and
    counts as no match. *)
Definition search_id (s : @IndexShard W) (docID : string) (id : Z) : bool :=
  negb (search_fails env id) &&
  match shards s !! Z.to_nat id with
  | Some x => match contents (index x) docID with [] => false | _ => true end
  | None => false
  end.

(** [FindShardByDocID]: one search per second shard; a match cancels the
    others, of several that match before that one wins. *)
Definition FindShardByDocID (s : @IndexShard W) (docID : string) : res Z :=
  let shardID := match List.filter (search_id s docID) (GetSearchers s 0 0) with
                 | [] => (-1)%Z
                 | hits => winner env hits
                 end in
  if decide (shardID = (-1)%Z) then Err ErrorIDNotFound else Ok shardID.

(** [FindDocumentByDocID], with the first document of the winning search. *)
Definition FindDocumentByDocID (s : @IndexShard W) (docID : string) : res Build.document :=
  match List.filter (search_id s docID) (GetSearchers s 0 0) with
  | [] => Err ErrorIDNotFound
  | hits => match shards s !! Z.to_nat (winner env hits) with
            | Some x => match contents (index x) docID with d :: _ => Ok d | [] => Err ErrorIDNotFound end
            | None => Err ErrorIDNotFound
            end
  end.

(** * The steps the operations share *)

(** [OpenWAL]: nothing when the log is open; opening it is up to the outside. *)
Definition OpenWAL (key : string) : M Index unit := λ ix,
  if EnableWal cfg then
    match iwal ix !! key with
    | Some _ => (Ok tt, ix)
    | None => match open_wal env key with
              | Ok l => (Ok tt, set_iwal (insert key l) ix)
              | Err e => (Err e, ix)
              | Panic p => (Panic p, ix)
              end
    end
  else (Ok tt, ix).

(** [wal.Write]. *)
Definition wal_Write (key : string) (data : string) : M Index unit := λ ix,
  match wal_err env with
  | Some e => (Err e, ix)
  | None => (Ok tt, set_iwal (alter (λ l, l ++ [data]) key) ix)
  end.

Definition marshal (op : gmap string value) : M Index string :=
  match Marshal env op with inl s => mret s | inr e => raise e end.

(** [CheckDocumentOperation] changes the mappings of the index. *)
Definition check (docID : string) (doc : list (string * value)) (update : bool) (shard : Z)
    : M Index (gmap string value) := λ ix,
  let '(r, m, vecs) := Check.CheckDocumentOperation (EnableTextKeywordMapping cfg) (check_order env) (now env)
    (store_err env) (VecIndexes ix) (imappings ix) docID doc update shard in
  (r, set_imappings m vecs ix).

(** [BuildBlugeDocumentFromJSON] with the mappings of the index. *)
Definition build (ix : Index) (docID : string) (data : gmap string value)
    : res (Build.document * list (string * list spec_float)) :=
  '(d, vecMap) ← Build.BuildBlugeDocumentFromJSON (known_analyzer env) (build_order env) (now env) (iname ix)
    (imappings ix) docID data;
  Ok (d, map_to_list vecMap).

(** [CommitOperations] on the first layer shard [key]. *)
Definition commit (key : string) (ops : list (gmap string value)) : M Index unit := λ ix,
  match ishards ix !! key with
  | None => (Panic PNilDeref, ix)
  | Some s =>
      let '(r, st) := CommitOperations (build ix) (iname ix) (range (field_order env) (VecIndexes ix)).*1
        (open_err env) (big_pow env) (doc_order env) (shard_order env) (vec_order env)
        (BatchSize cfg) (MaxSize cfg) (store_err env) ops (mkSt s (ivectors ix)) in
      (r, set_ivectors (vectors st) (set_ishards (insert key (shard st)) ix))
  end.

(** The test of a document id on an index with vectors. *)
Definition check_id (docID : string) : M Index unit := λ ix,
  if decide (VecIndexes ix ≠ ∅ ∧ Base62.Encode (Base62.Decode (big_pow env) docID) ≠ docID)
  then (Err ("document ID (" +:+ docID +:+ ") is not a valid base62 string"), ix)
  else (Ok tt, ix).

(** The shard of an id to update: an id that is not found is inserted. *)
Definition find_to_update (s : @IndexShard W) (docID : string) (update : bool) : M Index (bool * Z) :=
  if update then
    match FindShardByDocID s docID with
    | Ok id => mret (true, id)
    | Err e => if decide (e = ErrorIDNotFound) then mret (false, ShardIDNeedLatest) else raise e
    | Panic p => crash p
    end
  else mret (false, ShardIDNeedLatest).

(** The end of [CreateDocument] and [UpdateDocument]: log or commit. *)
Definition submit (key docID : string) (doc : list (string * value)) (update : bool) (sid : Z) : M Index unit :=
  if EnableWal cfg then
    _ ← OpenWAL key; op ← check docID doc update sid; data ← marshal op; wal_Write key data
  else
    op ← check docID doc update sid; commit key [op].

(** * The operations *)

Definition CreateDocument (docID : string) (doc : list (string * value)) (update : bool) : M Index unit :=
  '(key, s) ← GetShardByDocID docID;
  '(update, sid) ← find_to_update s docID update;
  _ ← check_id docID;
  submit key docID doc update sid.

Definition UpdateDocument (docID : string) (doc : list (string * value)) (insert : bool) : M Index unit :=
  '(key, s) ← GetShardByDocID docID;
  '(update, sid) ←
    match FindShardByDocID s docID with
    | Ok id => mret (true, id)
    | Err e => if decide (insert = true ∧ e = ErrorIDNotFound) then mret (false, ShardIDNeedLatest) else raise e
    | Panic p => crash p
    end;
  submit key docID doc update sid.

(** The operation [DeleteDocument] logs or commits. *)
Definition delete_op (docID action : string) (sid : Z) : gmap string value :=
  <[Meta.IDFieldName := VStr docID]> (<[Meta.ActionFieldName := VStr action]> {[Meta.ShardFieldName := VInt64 sid]}).

Definition DeleteDocument (docID : string) : M Index unit :=
  '(key, s) ← GetShardByDocID docID;
  ix ← get;
  '(action, sid) ←
    match FindShardByDocID s docID with
    | Ok id => mret (Meta.ActionTypeDelete, id)
    | Err e =>
        if decide (e = ErrorIDNotFound) then
          if decide (VecIndexes ix = ∅) then raise ErrorIDNotFound
          else mret (Meta.ActionTypeDeleteVecOnly, (-1)%Z)
        else raise e
    | Panic p => crash p
    end;
  let data := delete_op docID action sid in
  if EnableWal cfg then (jstr ← marshal data; _ ← OpenWAL key; wal_Write key jstr)
  else commit key [data].

Definition GetDocument (docID : string) : M Index Build.document :=
  '(key, s) ← GetShardByDocID docID;
  _ ← OpenWAL key;
  lift (FindDocumentByDocID s docID).

(** * Bulk operations *)

Record DocOperation := mkDocOperation { Update : bool; DocId : string; Doc : list (string * value) }.

Abbreviation groups := (gmap string (list (gmap string value))).

Definition add_group (g : groups) (key : string) (op : gmap string value) : groups :=
  <[key := default [] (g !! key) ++ [op]]> g.

Fixpoint create_loop (ops : list DocOperation) (g : groups) : M Index groups :=
  match ops with
  | [] => mret g
  | op :: ops =>
      '(key, s) ← GetShardByDocID (DocId op);
      '(update, sid) ← find_to_update s (DocId op) (Update op);
      _ ← check_id (DocId op);
      doc ← check (DocId op) (Doc op) update sid;
      create_loop ops (add_group g key doc)
  end.

(** The commits run concurrently on independent shards; all of them run, and
    the first error is the result. *)
Fixpoint commit_all (gs : list (string * list (gmap string value))) : M Index unit :=
  match gs with
  | [] => mret tt
  | (key, ops) :: gs => λ ix,
      match commit key ops ix with
      | (Panic p, ix) => (Panic p, ix)
      | (Ok _, ix) => commit_all gs ix
      | (Err e, ix) => match commit_all gs ix with
                       | (Panic p, ix) => (Panic p, ix)
                       | (_, ix) => (Err e, ix)
                       end
      end
  end.

Definition CreateDocuments (ops : list DocOperation) : M Index unit :=
  match ops with
  | [] => mret tt
  | _ => g ← create_loop ops ∅; commit_all (range (group_order env) g)
  end.

Fixpoint delete_loop (docIDs : list string) (g : groups) : M Index groups :=
  match docIDs with
  | [] => mret g
  | docID :: docIDs =>
      '(key, s) ← GetShardByDocID docID;
      ix ← get;
      match FindShardByDocID s docID with
      | Ok id => delete_loop docIDs (add_group g key (delete_op docID Meta.ActionTypeDelete id))
      | Err e =>
          if decide (e = ErrorIDNotFound) then
            if decide (VecIndexes ix = ∅) then delete_loop docIDs g
            else delete_loop docIDs (add_group g key (delete_op docID Meta.ActionTypeDeleteVecOnly ShardIDNeedLatest))
          else raise ("index " +:+ iname ix +:+ " find id " +:+ docID +:+ " err: " +:+ e)
      | Panic p => crash p
      end
  end.

Definition DeleteDocuments (docIDs : list string) : M Index unit :=
  g ← delete_loop docIDs ∅; commit_all (range (group_order env) g).
End index_document.

(** * Documents of an id *)

Section theorems.
Context {W V : Type} {lib : GoLib}.
Context {bluge : Bluge W Build.document} {vecstore : VecStore V (list spec_float)}.
(** The engine identifies a document by its [_id] ([bluge.NewDocument(id)]). *)
Context (engine_id : ∀ d : Build.document, doc_id d = Build.d_id d).
Context (cfg : Config) (env : Env).
Implicit Types (s : @IndexShard W) (ix : @Index W V) (xs ys : list (@SecondShard W)).

(** The documents stored under an id in the second shards of a shard. *)
Definition copies s (id : string) : list Build.document := concat ((λ p, contents p.2 id) <$> view s).

(** Second shards are numbered by position, and there is one. *)
Definition numbered s : Prop := shards s ≠ [] ∧ ∀ i p, view s !! i = Some p → p.1 = Z.of_nat i.

Lemma copies_grows s s' id : grows s s' → copies s' id = copies s id.
Proof.
  intros [Hv|Hv]; unfold copies; rewrite Hv; [done|].
  rewrite fmap_app, concat_app. cbn. by rewrite new_index_empty, !app_nil_r.
Qed.

Lemma numbered_grows s s' : numbered s → grows s s' → numbered s'.
Proof.
  intros [Hne Hn] Hg. assert (length (shards s) ≠ 0) as Hlen by (by destruct (shards s)).
  assert (length (shards s') ≠ 0) as Hlen'.
  { rewrite <-length_view. destruct Hg as [Hv|Hv]; rewrite Hv, ?length_app, length_view; lia. }
  assert (shards s' ≠ []) by (by destruct (shards s')).
  split; [done|]. intros i p. destruct Hg as [Hv|Hv]; rewrite Hv; [by apply Hn|].
  rewrite lookup_app. destruct (view s !! i) as [q|] eqn:Hq; [intros [= <-]; by apply Hn|].
  apply lookup_ge_None in Hq. rewrite list_lookup_singleton_Some. intros [Hi <-]. cbn.
  rewrite length_view in *. lia.
Qed.

Lemma view_set_index xs x ys st wr :
  view (mkShard (xs ++ set_index wr x :: ys) st) = view (mkShard xs st) ++ (ID x, wr) :: view (mkShard ys st).
Proof. unfold view. cbn [shards]. by rewrite fmap_app, fmap_cons. Qed.

Lemma view_middle xs x ys st : view (mkShard (xs ++ x :: ys) st) = view (mkShard xs st) ++ (ID x, index x) :: view (mkShard ys st).
Proof. unfold view. cbn [shards]. by rewrite fmap_app, fmap_cons. Qed.

Lemma numbered_set_index xs x ys st st' wr :
  numbered (mkShard (xs ++ x :: ys) st) → numbered (mkShard (xs ++ set_index wr x :: ys) st').
Proof.
  intros [_ Hn]. split; [cbn; by destruct xs|]. intros i p. rewrite view_set_index, lookup_app.
  specialize (Hn i). rewrite view_middle, lookup_app in Hn.
  destruct (view (mkShard xs st) !! i) as [q|] eqn:Hq.
  { change (view (mkShard xs st')) with (view (mkShard xs st)). rewrite Hq. intros [= <-]. by apply Hn. }
  change (view (mkShard xs st')) with (view (mkShard xs st)). rewrite Hq.
  destruct (i - length (view (mkShard xs st))) as [|k]; cbn in *; [|by apply Hn].
  intros [= <-]. by apply (Hn _ eq_refl).
Qed.

Lemma copies_middle xs x ys st id :
  copies (mkShard (xs ++ x :: ys) st) id =
  copies (mkShard xs st) id ++ contents (index x) id ++ copies (mkShard ys st) id.
Proof. unfold copies. by rewrite view_middle, fmap_app, concat_app. Qed.

(** A search without time bounds reads every second shard. *)
Lemma GetSearchers_all s : GetSearchers s 0 0 = ID <$> reverse (shards s).
Proof.
  unfold GetSearchers. induction (reverse (shards s)) as [|x xs IH]; [done|]. cbn [searchers_loop].
  replace (out_of_range 0 0 x) with false by done. rewrite IH.
  replace ((0 <? DocTimeMin (stats x)) && (DocTimeMin (stats x) <? 0))%Z with false by lia. done.
Qed.

Lemma shard_at s i x : shards s !! i = Some x →
  ∃ xs ys, s = mkShard (xs ++ x :: ys) (sstats s) ∧ length xs = i.
Proof.
  intros Hi. exists (take i (shards s)), (drop (S i) (shards s)). split.
  - destruct s as [l st]. cbn in *. f_equal. by rewrite take_drop_middle.
  - rewrite length_take. apply lookup_lt_Some in Hi. lia.
Qed.

Lemma numbered_lookup s x i : numbered s → shards s !! i = Some x → ID x = Z.of_nat i.
Proof.
  intros [_ Hn] Hi. specialize (Hn i (ID x, index x)). cbn in Hn. apply Hn.
  unfold view. by rewrite list_lookup_fmap, Hi.
Qed.

Lemma FindShardByDocID_found s docID id : numbered s → FindShardByDocID env s docID = Ok id →
  ∃ xs x ys, s = mkShard (xs ++ x :: ys) (sstats s) ∧ id = Z.of_nat (length xs) ∧ contents (index x) docID ≠ [].
Proof.
  intros Hn. unfold FindShardByDocID. rewrite GetSearchers_all. case_decide as Hd; [done|].
  destruct (List.filter _ _) as [|h hits] eqn:Hh; [done|]. intros [= <-].
  pose proof (winner_in env (h :: hits) ltac:(done)) as Hin. rewrite <-Hh in Hin |- *.
  apply list_elem_of_In, List.filter_In in Hin as [Hin Hs]. apply list_elem_of_In in Hin.
  apply list_elem_of_fmap in Hin as (x & Hid & Hx). rewrite elem_of_reverse in Hx.
  apply list_elem_of_lookup in Hx as [i Hi]. pose proof (numbered_lookup s x i Hn Hi) as HID.
  destruct (shard_at s i x Hi) as (xs & ys & Hsh & Hlen). exists xs, x, ys. split_and!; [done|congruence|].
  rewrite Hid, HID in Hs. unfold search_id in Hs. rewrite Nat2Z.id, Hi in Hs. apply andb_true_iff in Hs as [_ Hs].
  by destruct (contents (index x) docID).
Qed.

Lemma FindShardByDocID_none s docID e : numbered s → (∀ i, search_fails env i = false) →
  FindShardByDocID env s docID = Err e → e = ErrorIDNotFound ∧ copies s docID = [].
Proof.
  intros Hn Hs. unfold FindShardByDocID. rewrite GetSearchers_all. case_decide as Hd; [|done].
  intros [= <-]. split; [done|].
  destruct (List.filter _ _) as [|h hits] eqn:Hh.
  - apply concat_nil_Forall, Forall_forall. intros l (p & -> & Hp)%list_elem_of_fmap.
    apply list_elem_of_fmap in Hp as (x & -> & Hx). apply list_elem_of_lookup in Hx as [i Hi]. cbn.
    destruct (contents (index x) docID) as [|d ds] eqn:Hc; [done|exfalso].
    assert (ID x ∈ List.filter (search_id env s docID) (ID <$> reverse (shards s))) as Hin; [|by rewrite Hh in Hin; apply elem_of_nil in Hin].
    apply list_elem_of_In, List.filter_In. split.
    + apply list_elem_of_In, list_elem_of_fmap_2, elem_of_reverse. by eapply list_elem_of_lookup_2.
    + unfold search_id. by rewrite Hs, (numbered_lookup s x i Hn Hi), Nat2Z.id, Hi, Hc.
  - exfalso. pose proof (winner_in env (h :: hits) ltac:(done)) as Hin. rewrite Hd, <-Hh in Hin.
    apply list_elem_of_In, List.filter_In in Hin as [Hin _]. apply list_elem_of_In in Hin.
    apply list_elem_of_fmap in Hin as (x & Hid & Hx). rewrite elem_of_reverse in Hx.
    apply list_elem_of_lookup in Hx as [i Hi]. rewrite (numbered_lookup s x i Hn Hi) in Hid. lia.
Qed.

Lemma Build_d_id known o t name m id data d vm :
  Build.BuildBlugeDocumentFromJSON known o t name m id data = Ok (d, vm) → Build.d_id d = id.
Proof.
  unfold Build.BuildBlugeDocumentFromJSON. cbv zeta.
  destruct (foldM _ _ _) as [[fs vs]| |]; [|done|done]. cbn [mbind res_bind].
  match goal with |- context [mbind (M := res) ?f ?m] => destruct m; [|done|done] end. cbn [mbind res_bind].
  by intros [= <- <-].
Qed.

Lemma build_builds_id ix : builds_id (build env ix).
Proof.
  intros id data b vm. unfold build.
  destruct (Build.BuildBlugeDocumentFromJSON _ _ _ _ _ _ _) as [[d vs]| |] eqn:Hb; [|done|done].
  intros [= <- <-]. rewrite engine_id. by eapply Build_d_id.
Qed.

Definition action_of (update : bool) : string := if update then Meta.ActionTypeUpdate else Meta.ActionTypeInsert.

Lemma check_view docID doc update sid ix op ix' :
  check cfg env docID doc update sid ix = (Ok op, ix') →
  op_view op = Some (sid, docID, action_of update) ∧ ishards ix' = ishards ix.
Proof.
  unfold check, Check.CheckDocumentOperation. cbv zeta.
  destruct (Check.check_loop _ _ _) as [[[]| |] st]; [|done|done].
  destruct (if Check.l_update st then _ else _) as [maps vecs].
  destruct (if Check.l_update st then _ else _) as [e|]; [done|].
  match goal with |- context [match ?m with Ok _ => _ | _ => _ end] => destruct m; [|done|done] end.
  intros [= <- <-]. split; [|done]. unfold op_view.
  rewrite !lookup_insert_ne, lookup_insert_eq by done. rewrite !lookup_insert_ne, lookup_insert_eq by done.
  rewrite !lookup_insert_ne, lookup_insert_eq by done. done.
Qed.

Lemma delete_op_view docID action sid : op_view (delete_op docID action sid) = Some (sid, docID, action).
Proof.
  unfold op_view, delete_op. rewrite lookup_insert_ne, lookup_insert_eq by done.
  rewrite lookup_insert_eq, !lookup_insert_ne, lookup_singleton_eq by done. done.
Qed.

(** Committing one operation on a shard of the index. *)
Lemma commit_one key op sid id a xs x ys st ix ix' :
  0 < BatchSize cfg → ishards ix !! key = Some (mkShard (xs ++ x :: ys) st) →
  numbered (mkShard (xs ++ x :: ys) st) → op_view op = Some (sid, id, a) → targets sid xs ys →
  commit cfg env key [op] ix = (Ok tt, ix') →
  ∃ s' b vm o oo fin, ishards ix' = <[key := s']> (ishards ix) ∧ numbered s' ∧
    build env ix id op = Ok (b, vm) ∧ merge_actions [a] (doc_id b) b = Ok (o, oo, fin) ∧
    copies s' id = copies (mkShard xs st) id ++ effect o (contents (index x) id) id ++ copies (mkShard ys st) id ∧
    ∀ id', id' ≠ id → copies s' id' = copies (mkShard (xs ++ x :: ys) st) id'.
Proof.
  intros Hn Hk Hnum Hop Hsid. unfold commit. rewrite Hk.
  destruct (CommitOperations _ _ _ _ _ _ _ _ _ _ _ _ _) as [r st'] eqn:Hc. intros [= -> <-].
  apply (CommitOperations_one _ _ _ _ _ _ _ _ _ _ _ _ sid id a) in Hc
    as (wr & b & vm & o & oo & fin & Hb & Hm & Heff & Hoth & Hg); [|apply build_builds_id|done..].
  exists (shard st'), b, vm, o, oo, fin. split_and!; [done| |done|done| |].
  - eapply numbered_grows; [|exact Hg]. by eapply numbered_set_index.
  - rewrite (copies_grows _ _ _ Hg), copies_middle. by rewrite <-Heff.
  - intros id' Hne. rewrite (copies_grows _ _ _ Hg), !copies_middle. cbn [set_index index]. by rewrite Hoth.
Qed.

(** What the merge table does with one insertion, update or deletion. *)
Lemma effect_action a b o oo fin old :
  merge_actions [a] (doc_id b) b = Ok (o, oo, fin) →
  effect o old (doc_id b) =
    if decide (a = Meta.ActionTypeInsert) then old ++ [b]
    else if decide (a = Meta.ActionTypeUpdate) then [b]
    else if decide (a = Meta.ActionTypeDelete) then [] else old.
Proof.
  unfold merge_actions. cbn [List.last length]. rewrite bool_decide_true by done.
  repeat case_decide; intros; simplify_eq; rewrite ?effect_update, ?effect_delete, ?effect_nil; try done.
  unfold effect. cbn [removed added omap list_omap]. rewrite decide_False by apply not_elem_of_nil.
  by rewrite filter_cons_True by done.
Qed.
(** The first layer shard an id belongs to. *)
Definition home ix (docID key : string) s : Prop :=
  Lookup (shardHashing ix) docID = Ok key ∧ ishards ix !! key = Some s.

Lemma GetShardByDocID_home ix docID key s : home ix docID key s → GetShardByDocID docID ix = (Ok (key, s), ix).
Proof. intros [Hl Hs]. unfold GetShardByDocID. by rewrite Hl, Hs. Qed.

(** The document the operation stores: the submitted one, checked and built. *)
Definition made_from ix docID doc update sid (b : Build.document) : Prop :=
  ∃ op ix1 vm, check cfg env docID doc update sid ix = (Ok op, ix1) ∧ build env ix1 docID op = Ok (b, vm).

(** The result of an operation on one id of one shard. *)
Definition changes ix ix' key s (docID : string) (new : list Build.document) : Prop :=
  ∃ s', ishards ix' = <[key := s']> (ishards ix) ∧ numbered s' ∧ copies s' docID = new ∧
    ∀ id, id ≠ docID → copies s' id = copies s id.

Lemma submit_one key docID doc update sid xs x ys st ix ix' :
  EnableWal cfg = false → 0 < BatchSize cfg → ishards ix !! key = Some (mkShard (xs ++ x :: ys) st) →
  numbered (mkShard (xs ++ x :: ys) st) → targets sid xs ys →
  submit cfg env key docID doc update sid ix = (Ok tt, ix') →
  ∃ b, made_from ix docID doc update sid b ∧
    changes ix ix' key (mkShard (xs ++ x :: ys) st) docID
      (copies (mkShard xs st) docID ++ (if update then [b] else contents (index x) docID ++ [b]) ++
       copies (mkShard ys st) docID).
Proof.
  intros Hwal Hn Hk Hnum Hsid. unfold submit. rewrite Hwal. unfold mbind, M_bind.
  destruct (check cfg env docID doc update sid ix) as [[op| |] ix1] eqn:Hc; [|done|done].
  pose proof (check_view _ _ _ _ _ _ _ Hc) as [Hop Hsh]. intros Hcm.
  apply (commit_one key op sid docID (action_of update) xs x ys st) in Hcm
    as (s' & b & vm & o & oo & fin & Hs' & Hnum' & Hb & Hm & Hcp & Hoth); [|done|congruence|done..].
  exists b. split; [by exists op, ix1, vm|]. exists s'. split_and!; [congruence|done| |done].
  pose proof (build_builds_id ix1 _ _ _ _ Hb) as Hid. rewrite Hcp, <-Hid, (effect_action _ _ _ _ _ _ Hm).
  by destruct update.
Qed.

(** Not found, an operation goes to the newest second shard. *)
Lemma newest s : numbered s → ∃ xs x, s = mkShard (xs ++ [x]) (sstats s) ∧ targets ShardIDNeedLatest xs [].
Proof.
  intros [Hne _]. destruct s as [l st]. cbn in *. destruct (exists_last Hne) as (xs & x & ->).
  exists xs, x. split; [done|by right].
Qed.

(** C11: An upsert leaves exactly one copy.  Without the write-ahead log, and
    when the searches for the id work, [CreateDocument] with update and
    [UpdateDocument] with insert end, if they succeed, with exactly one
    document under the id in its first layer shard: the submitted one, checked
    and built.  This holds whether the id was stored in any of the second
    shards or not, across a roll-over of the shard, for every iteration order;
    no other id of the shard and no other shard changes. *)
Theorem upsert_one_copy ix ix' docID doc key s m :
  EnableWal cfg = false → 0 < BatchSize cfg → (∀ i, search_fails env i = false) →
  home ix docID key s → numbered s → length (copies s docID) ≤ 1 →
  m = CreateDocument cfg env docID doc true ∨ m = UpdateDocument cfg env docID doc true →
  m ix = (Ok tt, ix') →
  ∃ b update sid, made_from ix docID doc update sid b ∧ changes ix ix' key s docID [b].
Proof.
  intros Hwal Hn Hsearch Hhome Hnum Hone Hm Hrun.
  assert (∃ update sid, submit cfg env key docID doc update sid ix = (Ok tt, ix') ∧
    ((∃ xs x ys, s = mkShard (xs ++ x :: ys) (sstats s) ∧ update = true ∧ sid = Z.of_nat (length xs) ∧
        contents (index x) docID ≠ []) ∨
     (update = false ∧ sid = ShardIDNeedLatest ∧ copies s docID = []))) as (update & sid & Hsub & Hcase).
  { destruct (FindShardByDocID env s docID) as [id|e|p] eqn:Hf.
    - apply FindShardByDocID_found in Hf as Hfound; [|done]. exists true, id.
      destruct Hm as [-> | ->]; revert Hrun; [unfold CreateDocument, find_to_update|unfold UpdateDocument];
        unfold mbind, M_bind; rewrite (GetShardByDocID_home _ _ _ _ Hhome), Hf; unfold mret, M_ret;
        [unfold check_id; case_decide; [done|]|]; intros Hrun; (split; [exact Hrun|]); left;
        destruct Hfound as (xs & x & ys & ? & ? & ?); by exists xs, x, ys.
    - apply FindShardByDocID_none in Hf as Hnone; [|done|done]. destruct Hnone as [-> Hnone].
      exists false, ShardIDNeedLatest.
      destruct Hm as [-> | ->]; revert Hrun; [unfold CreateDocument, find_to_update|unfold UpdateDocument];
        unfold mbind, M_bind; rewrite (GetShardByDocID_home _ _ _ _ Hhome), Hf; rewrite decide_True by done;
        unfold mret, M_ret; [unfold check_id; case_decide; [done|]|]; intros Hrun; (split; [exact Hrun|]); by right.
    - unfold FindShardByDocID in Hf. by case_decide. }
  destruct Hhome as [_ Hk]. destruct Hcase as [(xs & x & ys & Hs & -> & -> & Hx)|(-> & -> & Hnone)].
  - rewrite Hs in Hk, Hnum, Hone |- *. apply (submit_one _ _ _ _ _ xs x ys (sstats s)) in Hsub
      as (b & Hb & Hch); [|done..|by left]. exists b, true, (Z.of_nat (length xs)). split; [done|].
    rewrite copies_middle, !length_app in Hone.
    destruct (contents (index x) docID) as [|d ds]; [done|]. cbn [length] in Hone.
    destruct (copies (mkShard xs _) docID), (copies (mkShard ys _) docID); cbn [length] in Hone; try lia. exact Hch.
  - destruct (newest s Hnum) as (xs & x & Hs & Hsid). rewrite Hs in Hk, Hnum, Hnone |- *.
    apply (submit_one _ _ _ _ _ xs x [] (sstats s)) in Hsub as (b & Hb & Hch); [|done..].
    exists b, false, ShardIDNeedLatest. split; [done|]. rewrite copies_middle in Hnone.
    apply app_nil in Hnone as [Hxs [Hx _]%app_nil]. by rewrite Hxs, Hx in Hch.
Qed.

(** C28: A deletion leaves no copy. Without the write-ahead log, with searches that
    work, and when at most one document is stored under the id, a successful
    [DeleteDocument] leaves no document under the id and every other id as it was.
    An id that is not stored is reported, and nothing changes, when the index has no
    vector index; with one the deletion of the vectors is submitted and the call
    succeeds. *)
Theorem delete_no_copy ix ix' r docID key s :
  EnableWal cfg = false → 0 < BatchSize cfg → (∀ i, search_fails env i = false) →
  home ix docID key s → numbered s → length (copies s docID) ≤ 1 →
  DeleteDocument cfg env docID ix = (r, ix') →
  (r = Ok tt → changes ix ix' key s docID []) ∧
  (copies s docID = [] → VecIndexes ix = ∅ → r = Err ErrorIDNotFound ∧ ix' = ix).
Proof.
  intros Hwal Hn Hsearch Hhome Hnum Hone. unfold DeleteDocument, mbind, M_bind.
  rewrite (GetShardByDocID_home _ _ _ _ Hhome). unfold get. rewrite Hwal.
  destruct Hhome as [_ Hk]. destruct (FindShardByDocID env s docID) as [id|e|p] eqn:Hf.
  - apply FindShardByDocID_found in Hf as (xs & x & ys & Hs & -> & Hx); [|done]. unfold mret, M_ret.
    rewrite Hs in Hk, Hnum, Hone |- *. intros Hc. split.
    + intros ->. apply (commit_one _ _ _ _ _ xs x ys (sstats s)) with (1 := Hn) (2 := Hk) (3 := Hnum)
        (4 := delete_op_view _ _ _) (5 := or_introl eq_refl) in Hc
        as (s' & b & vm & o & oo & fin & Hs' & Hnum' & Hb & Hm & Hcp & Hoth).
      exists s'. split_and!; [done|done| |done]. pose proof (build_builds_id ix _ _ _ _ Hb) as Hid.
      rewrite Hcp, <-Hid, (effect_action _ _ _ _ _ _ Hm), Hid. rewrite copies_middle, !length_app in Hone.
      destruct (contents (index x) docID) as [|d ds]; [done|]. cbn [length] in Hone.
      destruct (copies (mkShard xs _) docID), (copies (mkShard ys _) docID); cbn [length] in Hone; try lia. done.
    + intros Hnone. rewrite copies_middle in Hnone. apply app_nil in Hnone as [_ [Hx' _]%app_nil]. done.
  - apply FindShardByDocID_none in Hf as [-> Hnone]; [|done|done]. rewrite decide_True by done.
    destruct (decide (VecIndexes ix = ∅)) as [Hv|Hv].
    { unfold raise. intros [= <- <-]. done. }
    destruct (newest s Hnum) as (xs & x & Hs & Hsid). rewrite Hs in Hk, Hnum, Hnone |- *. unfold mret, M_ret.
    intros Hc. split; [|done]. intros ->.
    apply (commit_one _ _ _ _ _ xs x [] (sstats s)) with (1 := Hn) (2 := Hk) (3 := Hnum)
      (4 := delete_op_view _ _ _) (5 := Hsid) in Hc as (s' & b & vm & o & oo & fin & Hs' & Hnum' & Hb & Hm & Hcp & Hoth).
    exists s'. split_and!; [done|done| |done]. pose proof (build_builds_id ix _ _ _ _ Hb) as Hid.
    rewrite Hcp, <-Hid, (effect_action _ _ _ _ _ _ Hm), Hid. rewrite copies_middle in Hnone. exact Hnone.
  - unfold FindShardByDocID in Hf. by case_decide.
Qed.

(** C40: A failing search makes a second copy.  [FindShardByDocID] logs the
    error of a search and reports "id not found"; when the searches fail, an
    upsert of a stored id therefore inserts, and the shard holds the old and
    the new document under one id. *)
Theorem failed_search_duplicates ix ix' docID doc key s :
  EnableWal cfg = false → 0 < BatchSize cfg → (∀ i, search_fails env i = true) →
  home ix docID key s → numbered s →
  CreateDocument cfg env docID doc true ix = (Ok tt, ix') →
  ∃ b, made_from ix docID doc false ShardIDNeedLatest b ∧ changes ix ix' key s docID (copies s docID ++ [b]).
Proof.
  intros Hwal Hn Hsearch Hhome Hnum. unfold CreateDocument, find_to_update, mbind, M_bind.
  rewrite (GetShardByDocID_home _ _ _ _ Hhome).
  assert (FindShardByDocID env s docID = Err ErrorIDNotFound) as ->.
  { unfold FindShardByDocID. assert (List.filter (search_id env s docID) (GetSearchers s 0 0) = []) as ->; [|done].
    induction (GetSearchers s 0 0) as [|i l IH]; [done|]. cbn. unfold search_id at 1. rewrite Hsearch. exact IH. }
  rewrite decide_True by done. unfold mret, M_ret, check_id. case_decide; [done|]. intros Hsub.
  destruct Hhome as [_ Hk]. destruct (newest s Hnum) as (xs & x & Hs & Hsid). rewrite Hs in Hk, Hnum |- *.
  apply (submit_one _ _ _ _ _ xs x [] (sstats s)) in Hsub as (b & Hb & Hch); [|done..].
  exists b. split; [done|]. rewrite copies_middle, <-app_assoc. cbn. by rewrite app_nil_r in Hch |- *.
Qed.
End theorems.

(** * A concrete index *)

Definition mem_batch (w : list Build.document) (ops : list (bop Build.document)) : list Build.document :=
  filter (λ d, Build.d_id d ∉ removed ops) w ++ added ops.

#[refine] Instance mem_bluge : Bluge (list Build.document) Build.document := {|
  doc_id := Build.d_id;
  doc_time := Build.d_timestamp;
  new_index := [];
  contents w id := filter (λ d, Build.d_id d = id) w;
  DirectorySize w := Z.of_nat (length w);
  Count w := Z.of_nat (length w);
  Batch w ops := (Ok tt, mem_batch w ops)
|}.
Proof.
  - done.
  - intros w ops w' [= <-] id. unfold mem_batch. rewrite filter_app. f_equal.
    rewrite list_filter_filter. case_decide as Hid.
    + apply filter_none. intros d _ [Hd Hn]. subst. done.
    + apply list_filter_iff. intros d. split; [by intros [? _]|]. intros <-. done.
Defined.

#[global] Instance mem_vectors : VecStore unit (list spec_float) := {| VecBatch _ _ _ _ _ v := (Ok tt, v) |}.

Definition first_hit (l : list Z) : Z := hd (-1)%Z l.
Lemma first_hit_in l : l ≠ [] → first_hit l ∈ l.
Proof. destruct l; [done|]. intros _. by left. Qed.

Definition demo_cfg : Config := mkConfig false 100 1000 false.
Definition demo_env (fails : bool) : Env :=
  mkEnv None (λ _, None) (λ _, fails) first_hit first_hit_in (λ _, Ok []) (λ _, inl "") None 7 (λ _, false) (λ _, 0%Z)
    map_order_default map_order_default map_order_default map_order_default map_order_default map_order_default
    map_order_default.

(** Two second shards; document [a] is in the older one. *)
Definition demo_first : @IndexShard (list Build.document) :=
  mkShard [mkSecond 0 zero_stats [Build.mkDocument "a" [] 5] true 0; new_second 1] zero_stats.
Definition demo_index : @Index (list Build.document) unit :=
  mkIndex "ix" {["1" := demo_first]} (Add NewWithHash "1") ∅ ∅ tt ∅.

Lemma demo_numbered : numbered demo_first.
Proof. split; [done|]. intros [|[|i]] p; by intros [= <-]. Qed.
Lemma demo_home : home demo_index "a" "1" demo_first.
Proof. split; reflexivity. Qed.

Lemma upsert_one_copy_witness :
  ∃ ix' b, CreateDocument (lib := Pipeline.demo_lib) demo_cfg (demo_env false) "a" [("n", VBool true)] true demo_index = (Ok tt, ix') ∧
    changes demo_index ix' "1" demo_first "a" [b].
Proof.
  destruct (CreateDocument (lib := Pipeline.demo_lib) demo_cfg (demo_env false) "a" [("n", VBool true)] true demo_index)
    as [r ix'] eqn:He.
  assert (r = Ok tt) as ->. { change r with (r, ix').1. rewrite <-He. vm_compute. reflexivity. }
  destruct (upsert_one_copy (lib := Pipeline.demo_lib) (bluge := mem_bluge) (λ _, eq_refl) demo_cfg (demo_env false) demo_index ix' "a"
    [("n", VBool true)] "1" demo_first _ eq_refl ltac:(cbn; lia) (λ _, eq_refl) demo_home demo_numbered
    ltac:(vm_compute; lia) (or_introl eq_refl) He) as (b & update & sid & _ & Hch).
  exists ix', b. split; [reflexivity|exact Hch].
Defined.

Lemma delete_no_copy_witness :
  ∃ ix', DeleteDocument (lib := Pipeline.demo_lib) demo_cfg (demo_env false) "a" demo_index = (Ok tt, ix') ∧
    changes demo_index ix' "1" demo_first "a" [].
Proof.
  destruct (DeleteDocument (lib := Pipeline.demo_lib) demo_cfg (demo_env false) "a" demo_index) as [r ix'] eqn:He.
  assert (r = Ok tt) as ->. { change r with (r, ix').1. rewrite <-He. vm_compute. reflexivity. }
  destruct (delete_no_copy (lib := Pipeline.demo_lib) (bluge := mem_bluge) (λ _, eq_refl) demo_cfg (demo_env false) demo_index ix' (Ok tt) "a"
    "1" demo_first eq_refl ltac:(cbn; lia) (λ _, eq_refl) demo_home demo_numbered ltac:(vm_compute; lia) He) as [H _].
  exists ix'. split; [reflexivity|]. exact (H eq_refl).
Defined.

Lemma failed_search_duplicates_witness :
  ∃ ix' b, CreateDocument (lib := Pipeline.demo_lib) demo_cfg (demo_env true) "a" [("n", VBool true)] true demo_index = (Ok tt, ix') ∧
    changes demo_index ix' "1" demo_first "a" [Build.mkDocument "a" [] 5; b].
Proof.
  destruct (CreateDocument (lib := Pipeline.demo_lib) demo_cfg (demo_env true) "a" [("n", VBool true)] true demo_index)
    as [r ix'] eqn:He.
  assert (r = Ok tt) as ->. { change r with (r, ix').1. rewrite <-He. vm_compute. reflexivity. }
  destruct (failed_search_duplicates (lib := Pipeline.demo_lib) (bluge := mem_bluge) (λ _, eq_refl) demo_cfg (demo_env true) demo_index ix' "a"
    [("n", VBool true)] "1" demo_first eq_refl ltac:(cbn; lia) (λ _, eq_refl) demo_home demo_numbered He)
    as (b & _ & Hch).
  exists ix', b. split; [reflexivity|]. exact Hch.
Defined.
