(* ===== verification/IndexMgr.v ===== *)
(** pkg/core/indexmgr.go: the cache of open indexes.  Loading, creating,
    storing and deleting an index are serialised per name by a channel in
    [ready]; callers find the index in the cache, wait for the channel, or take
    the lead.  The steps of any number of goroutines on one name are the
    transitions of a state machine: each locked region of the source is one
    step, and what happens between two locked regions is another.  A deletion
    waits, with its channel in [ready], for the users of what it closes: the
    loop that consumes the logs of the shards (index_shards.go,
    index_shards_wallist.go) and the users of the vector indexes
    (vec_index_manager.go), which store the index themselves. *)
From S2P Require Import Prelude.

(** * State *)

(** Everything here is about one index name: every access to the maps [cache]
    and [ready] and to the metadata store uses the name of the call, so the
    entries of other names are not touched.  Stored metadata is abstracted to
    a version; index objects (pointers) and channels are numbered. *)
Inductive op := Get | GetOrCreate | Store (index : nat) (data : nat) | Delete.

(** What a deletion waits for: the log of a shard, until the consumer loop takes
    the message of [IndexShard.Close], and the vector index of a field, until
    its reference count is 0 in [CloseVectorIndex]. *)
Inductive resource := ShardLog (shard : nat) | VecIndex (field : nat).

#[export] Instance resource_eq_dec : EqDecision resource.
Proof. solve_decision. Defined.

#[export] Instance resource_countable : Countable resource.
Proof.
  refine (inj_countable' (λ r, match r with ShardLog n => inl n | VecIndex n => inr n end)
    (λ x, match x with inl n => ShardLog n | inr n => VecIndex n end) _). by intros [].
Defined.

(** Outcome of deleting one vector index: done, already gone, or failed. *)
Inductive vec_outcome := VecDeleted | VecNotExists | VecErr (e : string).

(** The parts of a deletion that wait: [index.Close] of the shards whose log is
    open, and [deleteVecIndexFromIndex] of a field. *)
Inductive task := CloseShards (shards : list nat) | DeleteVec (field : nat) (o : vec_outcome).

(** Outcomes of the calls into the metadata store, the index constructors, the
    index object and the file system; [None] is success, [Some] the text of the
    error.  A failed [Set] or [Delete] leaves the metadata as it was.
    [open_shards] are the shards of the index whose log is open, [vecs] its
    vector fields with what their deletion gives. *)
Record env := mkEnv {
  err_get : option string;
  err_format : option string;
  err_new : option string;
  err_marshal : option string;
  err_set : option string;
  open_shards : list nat;
  err_close : option string;
  vecs : list (nat * vec_outcome);
  err_rm_vec : option string;
  err_rm_files : option string;
  err_delete : option string
}.

Definition works : env := mkEnv None None None None None [] None [] None None None.

(** What a goroutine got. *)
Inductive result := RIndex (index : nat) (existed : bool) | RDone | RError (e : string).

(** Where a goroutine is: at the top of the loop, blocked on a channel, in the
    unlocked middle part with its channel in [ready], there in the waiting
    parts of a deletion, about to publish a success or a failure, or returned. *)
Inductive pc :=
  | Top (o : op)
  | Waiting (o : op) (ch : nat)
  | Working (o : op) (ch : nat)
  | Closing (ch : nat) (e : env) (l : list task)
  | Publish (o : op) (ch : nat) (index : nat) (existed : bool)
  | Fail (o : op) (ch : nat) (e : string)
  | Returned (r : result).

(** [refs]: which goroutine uses which log or vector index. *)
Record state := mkState {
  metadata : option nat;
  cache : option nat;
  ready : option nat;
  closed : gset nat;
  next : nat;
  refs : gset (resource * nat);
  threads : gmap nat pc
}.

Definition set_pc (t : nat) (p : pc) (s : state) : state :=
  mkState (metadata s) (cache s) (ready s) (closed s) (next s) (refs s) (<[t := p]> (threads s)).

Definition initial (metadata : option nat) : state := mkState metadata None None ∅ 0 ∅ ∅.

Definition ErrIndexNotFound : string := "index not found: key not found".
Definition ErrIndexServerMismatch : string := "requested index is not handled by this server".

(** * The locked region at the top of the loops *)

(** [Get], [GetOrCreate] and [Delete] refuse a name that is not assigned to
    this server; [Store] does not ask. *)
Definition checks_assignment (o : op) : bool := match o with Store _ _ => false | _ => true end.

Definition call (o : op) (assigned : bool) : pc :=
  if checks_assignment o && negb assigned then Returned (RError ErrIndexServerMismatch) else Top o.

(** [Get] and [GetOrCreate] look in the cache first; [Store] and [Delete] do
    not.  Then a channel in [ready] is waited for, or a new one is installed. *)
Definition uses_cache (o : op) : bool := match o with Get | GetOrCreate => true | _ => false end.

Definition enter (o : op) (s : state) : pc * state :=
  match (if uses_cache o then cache s else None) with
  | Some index => (Returned (RIndex index true), s)
  | None =>
      match ready s with
      | Some ch => (Waiting o ch, s)
      | None =>
          let ch := next s in
          (Working o ch, mkState (metadata s) (cache s) (Some ch) (closed s) (S ch) (refs s) (threads s))
      end
  end.

(** * Between the locked regions *)

(** A fresh index object built from metadata ([formatIndex], [NewIndex]). *)
Definition new_object (s : state) : nat * state :=
  (next s, mkState (metadata s) (cache s) (ready s) (closed s) (S (next s)) (refs s) (threads s)).

Definition set_metadata (m : option nat) (s : state) : state :=
  mkState m (cache s) (ready s) (closed s) (next s) (refs s) (threads s).

(** [getIndex]; the error is [None] for [ErrIndexNotFound] itself, which
    [deleteIndex] tells apart with [errors.Is]. *)
Definition getIndex (e : env) (s : state) : (nat + option string) * state :=
  match err_get e with
  | Some err => (inr (Some ("failed to get metadata: " +:+ err)), s)
  | None =>
      match metadata s with
      | None => (inr None, s)
      | Some _ =>
          match err_format e with
          | Some err => (inr (Some ("failed to format index: " +:+ err)), s)
          | None => let '(i, s) := new_object s in (inl i, s)
          end
      end
  end.

Definition error_text (e : option string) : string := default ErrIndexNotFound e.

(** [GetQueryIndex] reads without the cache and without a channel. *)
Definition GetQueryIndex (e : env) (s : state) : (nat + option string) * state := getIndex e s.

(** [getOrCreateIndex]; [fresh] is the metadata of a new index. *)
Definition getOrCreateIndex (e : env) (fresh : nat) (s : state) : (nat * bool + string) * state :=
  match err_get e with
  | Some err => (inr ("failed to get metadata: " +:+ err), s)
  | None =>
      match metadata s with
      | Some _ =>
          match err_format e with
          | Some err => (inr ("failed to format index: " +:+ err), s)
          | None => let '(i, s) := new_object s in (inl (i, true), s)
          end
      | None =>
          match err_new e with
          | Some err => (inr err, s)
          | None =>
              let '(i, s) := new_object s in
              match err_marshal e with
              | Some err => (inr err, s)
              | None =>
                  match err_set e with
                  | Some err => (inr ("failed to set metadata: " +:+ err), s)
                  | None => (inl (i, false), set_metadata (Some fresh) s)
                  end
              end
          end
      end
  end.

(** [storeIndex]; [data] is what [checkIndex] and [MarshalJSON] make of the
    object. *)
Definition storeIndex (e : env) (data : nat) (s : state) : option string * state :=
  match err_marshal e with
  | Some err => (Some err, s)
  | None =>
      match err_set e with
      | Some err => (Some ("failed to set metadata: " +:+ err), s)
      | None => (None, set_metadata (Some data) s)
      end
  end.

Definition first_error (l : list (option string)) : option string := foldr (λ x r, match x with Some e => Some e | None => r end) None l.

Definition delete_fails (ch : nat) (err : string) : pc := Fail Delete ch ("failed to delete index: " +:+ err).

(** [deleteIndex] up to its first wait: a cached index is closed first, another
    one is loaded; an unknown index is fine. *)
Definition deleteIndex (e : env) (ch : nat) (s : state) : pc * state :=
  let tasks := (λ x, DeleteVec x.1 x.2) <$> vecs e in
  match cache s with
  | Some _ => (Closing ch e (CloseShards (open_shards e) :: tasks), s)
  | None =>
      match getIndex e s with
      | (inr None, s) => (Publish Delete ch 0 true, s)
      | (inr (Some err), s) => (delete_fails ch ("failed to get index: " +:+ err), s)
      | (inl _, s) => (Closing ch e tasks, s)
      end
  end.

(** What a part waits for.  [CloseVectorIndex] waits before the files are
    removed, so also when that fails; a field without metadata is passed. *)
Definition waits_for (k : task) : list resource :=
  match k with
  | CloseShards l => ShardLog <$> l
  | DeleteVec f VecNotExists => []
  | DeleteVec f _ => [VecIndex f]
  end.

Definition busy (s : state) (r : resource) : bool := bool_decide (r ∈ (elements (refs s)).*1).

Definition task_error (e : env) (k : task) : option string :=
  match k with
  | CloseShards _ => (String.append "failed to close index: ") <$> err_close e
  | DeleteVec _ (VecErr err) => Some ("delete vec index err: " +:+ err)
  | DeleteVec _ _ => None
  end.

(** One part of a deletion, when nobody uses what it waits for; then the files
    and the metadata, which is written by nobody else meanwhile. *)
Definition close_step (ch : nat) (e : env) (l : list task) (s : state) : option (pc * state) :=
  match l with
  | k :: l =>
      if existsb (busy s) (waits_for k) then None
      else Some (match task_error e k with Some err => delete_fails ch err | None => Closing ch e l end, s)
  | [] =>
      Some match first_error [
        (String.append "delete vec index err: ") <$> err_rm_vec e;
        (String.append "remove index err: ") <$> err_rm_files e;
        (String.append "failed to delete metadata: ") <$> err_delete e] with
      | Some err => (delete_fails ch err, s)
      | None => (Publish Delete ch 0 true, set_metadata None s)
      end
  end.

Definition work (o : op) (ch : nat) (e : env) (fresh : nat) (s : state) : pc * state :=
  match o with
  | Get => match getIndex e s with
           | (inl i, s) => (Publish o ch i true, s)
           | (inr err, s) => (Fail o ch ("failed to load index: " +:+ error_text err), s)
           end
  | GetOrCreate => match getOrCreateIndex e fresh s with
                   | (inl (i, ex), s) => (Publish o ch i ex, s)
                   | (inr err, s) => (Fail o ch ("failed to get or create index: " +:+ err), s)
                   end
  | Store i data => match storeIndex e data s with
                    | (None, s) => (Publish o ch i true, s)
                    | (Some err, s) => (Fail o ch ("failed to delete index: " +:+ err), s)
                    end
  | Delete => deleteIndex e ch s
  end.

(** * The locked regions at the end *)

(** [close(ready); delete(mgr.ready, name)]. *)
Definition release (ch : nat) (s : state) : state :=
  mkState (metadata s) (cache s) None ({[ch]} ∪ closed s) (next s) (refs s) (threads s).

Definition set_cache (c : option nat) (s : state) : state :=
  mkState (metadata s) c (ready s) (closed s) (next s) (refs s) (threads s).

Definition publish (o : op) (ch i : nat) (existed : bool) (s : state) : pc * state :=
  let s := release ch s in
  match o with
  | Get | GetOrCreate => (Returned (RIndex i existed), set_cache (Some i) s)
  | Store _ _ =>
      (Returned RDone, match cache s with
                       | Some cached => if decide (cached ≠ i) then set_cache None s else s
                       | None => s
                       end)
  | Delete => (Returned RDone, set_cache None s)
  end.

(** [DropCache]. *)
Definition DropCache (s : state) : option nat * state := (cache s, set_cache None s).

(** * Interleavings *)

Definition set_refs (u : gset (resource * nat)) (s : state) : state :=
  mkState (metadata s) (cache s) (ready s) (closed s) (next s) u (threads s).

(** A goroutine outside the four operations: not started, or between two calls. *)
Definition idle (s : state) (t : nat) : Prop :=
  match threads s !! t with None | Some (Returned _) => True | _ => False end.

(** The consumer loop and the users of vector indexes store and load the index
    they use ([UpdateMetadata], [NewShard], [SaveVecIndexMeta]); none of them
    deletes it. *)
Definition may_call (s : state) (t : nat) (o : op) : Prop :=
  match o with Delete => ∀ r, (r, t) ∉ refs s | _ => True end.

(** [E] restricts the outcomes of the work between the locked regions. *)
Inductive step (E : env → Prop) : state → state → Prop :=
  | step_call t o assigned s : idle s t → may_call s t o → step E s (set_pc t (call o assigned) s)
  | step_enter t o s p s' :
      threads s !! t = Some (Top o) → enter o s = (p, s') → step E s (set_pc t p s')
  | step_wake t o ch s :
      threads s !! t = Some (Waiting o ch) → ch ∈ closed s → step E s (set_pc t (Top o) s)
  | step_work t o ch e fresh s p s' :
      threads s !! t = Some (Working o ch) → E e → work o ch e fresh s = (p, s') → step E s (set_pc t p s')
  | step_close t ch e l s p s' :
      threads s !! t = Some (Closing ch e l) → close_step ch e l s = Some (p, s') → step E s (set_pc t p s')
  | step_publish t o ch i ex s p s' :
      threads s !! t = Some (Publish o ch i ex) → publish o ch i ex s = (p, s') → step E s (set_pc t p s')
  | step_fail t o ch e s :
      threads s !! t = Some (Fail o ch e) → step E s (set_pc t (Returned (RError e)) (release ch s))
  | step_drop s : step E s (DropCache s).2
  | step_use t r s : idle s t → step E s (set_refs ({[(r, t)]} ∪ refs s) s)
  | step_unuse t r s : idle s t → step E s (set_refs (refs s ∖ {[(r, t)]}) s).

Definition any (e : env) : Prop := True.

Definition reachable (m : option nat) (s : state) : Prop := rtc (step any) (initial m) s.

(** * Invariant *)

(** The channel a goroutine has installed and not yet closed. *)
Definition holds (p : pc) : option nat :=
  match p with
  | Working _ ch | Closing ch _ _ | Publish _ ch _ _ | Fail _ ch _ => Some ch
  | _ => None
  end.

Definition pc_op (p : pc) : option op :=
  match p with
  | Top o | Waiting o _ | Working o _ | Publish o _ _ _ | Fail o _ _ => Some o
  | Closing _ _ _ => Some Delete
  | Returned _ => None
  end.

(** What the position of one goroutine says about the shared state. *)
Definition pc_ok (s : state) (p : pc) : Prop :=
  (∀ ch, holds p = Some ch → ready s = Some ch ∧ (∀ o, pc_op p = Some o → uses_cache o = true → cache s = None)) ∧
  match p with
  | Waiting _ ch => ch ∈ closed s ∨ ready s = Some ch
  | Publish Delete _ _ _ => metadata s = None
  | _ => True
  end.

Record inv (s : state) : Prop := {
  inv_pc : ∀ t p, threads s !! t = Some p → pc_ok s p;
  inv_one : ∀ t1 t2 p1 p2, threads s !! t1 = Some p1 → threads s !! t2 = Some p2 →
    is_Some (holds p1) → is_Some (holds p2) → t1 = t2;
  inv_holder : ∀ ch, ready s = Some ch → ∃ t p, threads s !! t = Some p ∧ holds p = Some ch;
  inv_ready : ∀ ch, ready s = Some ch → ch ∉ closed s ∧ ch < next s;
  inv_closed : ∀ ch, ch ∈ closed s → ch < next s
}.

Lemma inv_initial m : inv (initial m).
Proof. split; cbn; intros *; rewrite ?lookup_empty; try done; try set_solver. Qed.

(** Threads other than the one that moves stay where they are. *)
Lemma lookup_set_pc t p s t' q :
  threads (set_pc t p s) !! t' = Some q ↔ (t' = t ∧ q = p) ∨ (t' ≠ t ∧ threads s !! t' = Some q).
Proof. cbn. rewrite lookup_insert_Some. naive_solver. Qed.

(** A move of [t] that neither takes nor gives back a channel. *)
Lemma inv_local t p q s :
  inv s → threads s !! t = Some q ∨ threads s !! t = None ∧ q = Top Get → holds q = None → holds p = None →
  pc_ok s p → inv (set_pc t p s).
Proof.
  intros [Hpc Hone Hhold Hready Hclosed] Hq Hhq Hhp Hp. split; cbn [set_pc ready closed next cache].
  - intros t' q' [[-> ->]|[_ Ht']]%lookup_set_pc; [exact Hp|]. exact (Hpc t' q' Ht').
  - intros t1 t2 p1 p2 [[-> ->]|[Hn1 H1]]%lookup_set_pc [[-> ->]|[Hn2 H2]]%lookup_set_pc Hs1 Hs2;
      [done|rewrite Hhp in Hs1; by destruct Hs1|rewrite Hhp in Hs2; by destruct Hs2|].
    by eapply Hone.
  - intros ch (t' & q' & Ht' & Hch)%Hhold. exists t', q'. split; [|done]. apply lookup_set_pc. right.
    split; [|done]. intros ->. destruct Hq as [Hq|[Hq _]]; simplify_eq; congruence.
  - exact Hready.
  - exact Hclosed.
Qed.

Lemma inv_call t o b s : inv s → idle s t → inv (set_pc t (call o b) s).
Proof.
  intros Hinv Ht. unfold idle in Ht.
  assert (∃ q, (threads s !! t = Some q ∨ threads s !! t = None ∧ q = Top Get) ∧ holds q = None) as (q & Hq & Hh).
  { destruct (threads s !! t) as [[]|] eqn:Hq; try done; eauto. }
  unfold call. destruct (_ && _); (eapply inv_local; [done|done|done|done|split; done]).
Qed.

Lemma inv_enter t o s p s' :
  inv s → threads s !! t = Some (Top o) → enter o s = (p, s') → inv (set_pc t p s').
Proof.
  intros Hinv Ht. unfold enter. destruct (if uses_cache o then cache s else None) as [i|] eqn:Hc.
  { intros [= <- <-]. eapply inv_local; [done|by left|done|done|]. split; done. }
  destruct (ready s) as [ch|] eqn:Hr.
  { intros [= <- <-]. eapply inv_local; [done|by left|done|done|]. split; [done|]. by right. }
  intros [= <- <-]. pose proof Hinv as [Hpc Hone Hhold Hready Hclosed].
  assert (∀ t' q, threads s !! t' = Some q → holds q = None) as Hnone.
  { intros t' q Hq. destruct (holds q) as [ch|] eqn:Hh; [|done].
    destruct (Hpc t' q Hq) as [Hpq _]. destruct (Hpq ch Hh). congruence. }
  split; cbn [set_pc ready closed next cache].
  - intros t' q [[-> ->]|[Hne Hq]]%lookup_set_pc.
    + split; [|done]. intros ch [= <-]. split; [done|]. intros o' [= <-] Hu. cbn. by rewrite Hu in Hc.
    + destruct (Hpc t' q Hq) as [_ Hq2]. split.
      * intros ch Hh. rewrite (Hnone t' q Hq) in Hh. done.
      * destruct q as [ |o' ch'| | |[] ? ? ?| |]; try done. cbn. destruct Hq2 as [|Hq2]; [by left|congruence].
  - intros t1 t2 p1 p2 [[-> ->]|[Hn1 H1]]%lookup_set_pc [[-> ->]|[Hn2 H2]]%lookup_set_pc Hs1 Hs2; [done|..].
    + rewrite (Hnone _ _ H2) in Hs2. by destruct Hs2.
    + rewrite (Hnone _ _ H1) in Hs1. by destruct Hs1.
    + rewrite (Hnone _ _ H1) in Hs1. by destruct Hs1.
  - intros ch [= <-]. exists t, (Working o (next s)). split; [|done]. apply lookup_set_pc. by left.
  - intros ch [= <-]. split; [|lia]. intros Hin%Hclosed. lia.
  - intros ch Hin%Hclosed. lia.
Qed.

(** A step of the holder between the locked regions: it keeps its channel, and
    may change the metadata and create objects. *)
Lemma inv_holder_step t p q s s' ch :
  inv s → threads s !! t = Some q → holds q = Some ch → holds p = Some ch → pc_op p = pc_op q →
  cache s' = cache s → ready s' = ready s → closed s' = closed s → next s ≤ next s' → threads s' = threads s →
  match p with Publish Delete _ _ _ => metadata s' = None | _ => True end →
  inv (set_pc t p s').
Proof.
  intros [Hpc Hone Hhold Hready Hclosed] Ht Hq Hp Hop Hc Hr Hcl Hn Hth Hd.
  split; cbn [set_pc ready closed next cache]; rewrite ?Hr, ?Hcl.
  - intros t' q' Hq'. cbn in Hq'. rewrite Hth in Hq'. apply lookup_insert_Some in Hq' as [[<- <-]|[Hne Hq']].
    + split.
      * intros ch' Hch'. cbn. rewrite Hr, Hc, Hop. apply (Hpc t q Ht). congruence.
      * destruct p as [| | | |[] ? ? ?| |]; done.
    + destruct (Hpc t' q' Hq') as [Hq1 Hq2].
      assert (holds q' = None) as Hnone.
      { destruct (holds q') eqn:Hh; [|done]. exfalso. apply Hne. symmetry.
        apply (Hone t' t q' q); [done|done|by rewrite Hh|by rewrite Hq]. }
      split; [by rewrite Hnone|]. destruct q' as [ |o' ch'| | |[] ? ? ?| |]; try done. cbn. by rewrite Hr, Hcl.
  - intros t1 t2 p1 p2 H1 H2 Hs1 Hs2. cbn in H1, H2. rewrite Hth in H1, H2.
    apply lookup_insert_Some in H1 as [[<- <-]|[Hn1 H1]], H2 as [[<- <-]|[Hn2 H2]]; [done| | |by eapply Hone].
    + eapply (Hone t t2 q p2); [done|done|by rewrite Hq|done].
    + eapply (Hone t1 t p1 q); [done|done|done|by rewrite Hq].
  - intros ch' Hch'. destruct (Hpc t q Ht) as [Hpq _]. destruct (Hpq ch Hq) as [Hrd _].
    exists t, p. split; [cbn; by rewrite lookup_insert_eq|congruence].
  - intros ch' Hch'. destruct (Hready ch' Hch'). split; [done|lia].
  - intros ch' Hin%Hclosed. lia.
Qed.

(** What the work between the locked regions does: it stays in the middle part
    of the same operation, or is about to leave it, and touches neither the
    cache nor the channels. *)
Definition stays_inside (o : op) (ch : nat) (s : state) (p : pc) (s' : state) : Prop :=
  holds p = Some ch ∧ pc_op p = Some o ∧ cache s' = cache s ∧ ready s' = ready s ∧ closed s' = closed s ∧
  next s ≤ next s' ∧ refs s' = refs s ∧ threads s' = threads s ∧
  match p with Publish Delete _ _ _ => metadata s' = None | _ => True end.

Lemma work_inside o ch e fresh s p s' : work o ch e fresh s = (p, s') → stays_inside o ch s p s'.
Proof.
  intros Hw. destruct o; cbn [work] in Hw;
    unfold getIndex, getOrCreateIndex, storeIndex, deleteIndex, getIndex, new_object in Hw;
    repeat case_match; simplify_eq; unfold stays_inside; cbn; split_and!; (done || lia || congruence).
Qed.

Lemma close_inside ch e l s p s' : close_step ch e l s = Some (p, s') → stays_inside Delete ch s p s'.
Proof.
  intros Hc. destruct l as [|k l]; cbn [close_step] in Hc; repeat case_match; simplify_eq;
    unfold stays_inside; cbn; split_and!; (done || lia || congruence).
Qed.

Lemma inv_inside t q o ch s p s' : inv s → threads s !! t = Some q → holds q = Some ch → pc_op q = Some o →
  stays_inside o ch s p s' → inv (set_pc t p s').
Proof. intros Hinv Ht Hh Ho (?&?&?&?&?&?&?&?&?). eapply inv_holder_step; (done || congruence). Qed.

(** The holder closes its channel; the cache may change at will, since no
    other goroutine is in the middle part. *)
Lemma inv_release t p q ch s c :
  inv s → threads s !! t = Some q → holds q = Some ch → holds p = None →
  match p with Waiting _ _ => False | Publish _ _ _ _ => False | _ => True end →
  inv (set_pc t p (set_cache c (release ch s))).
Proof.
  intros [Hpc Hone Hhold Hready Hclosed] Ht Hq Hp Hp2.
  destruct (Hpc t q Ht) as [Hpq _]. destruct (Hpq ch Hq) as [Hrd _].
  assert (∀ t' q', t' ≠ t → threads s !! t' = Some q' → holds q' = None) as Hnone.
  { intros t' q' Hne Hq'. destruct (holds q') eqn:Hh; [|done]. exfalso. apply Hne.
    apply (Hone t' t q' q); [done|done|by rewrite Hh|by rewrite Hq]. }
  split; cbn [set_pc set_cache release ready closed next].
  - intros t' q' [[-> ->]|[Hne Hq']]%lookup_set_pc.
    + split; [by rewrite Hp|]. destruct p; try done.
    + cbn in Hq'. destruct (Hpc t' q' Hq') as [_ Hq2]. split; [by rewrite (Hnone t' q' Hne Hq')|].
      pose proof (Hnone t' q' Hne Hq') as Hn.
      destruct q' as [ |o' ch'| | |o' ? ? ?| |]; try done. cbn. left.
      destruct Hq2 as [?|Hq2]; [by apply elem_of_union_r|].
      apply elem_of_union_l, elem_of_singleton. congruence.
  - intros t1 t2 p1 p2 [[-> ->]|[Hn1 H1]]%lookup_set_pc [[-> ->]|[Hn2 H2]]%lookup_set_pc Hs1 Hs2; [done|..].
    + rewrite Hp in Hs1. by destruct Hs1.
    + rewrite Hp in Hs2. by destruct Hs2.
    + cbn in H1. rewrite (Hnone _ _ Hn1 H1) in Hs1. by destruct Hs1.
  - done.
  - done.
  - intros ch' [->%elem_of_singleton|Hin%Hclosed]%elem_of_union; [|done]. by apply Hready.
Qed.

Lemma publish_returns o ch i ex s : ∃ r c, publish o ch i ex s = (Returned r, set_cache c (release ch s)).
Proof.
  destruct o as [| |j d|]; cbn; [by eauto..| |by eauto].
  destruct (cache s) as [c|] eqn:Hc.
  - case_decide; [by eauto|]. eexists _, (Some c). unfold set_cache, release. cbn. by rewrite Hc.
  - eexists _, None. unfold set_cache, release. cbn. by rewrite Hc.
Qed.

Lemma inv_step E s s' : inv s → step E s s' → inv s'.
Proof.
  intros Hinv Hstep. destruct Hstep as [t o b s Ht Hm|t o s p s' Ht He|t o ch s Ht Hch|t o ch e fresh s p s' Ht HE Hw
    |t ch e l s p s' Ht Hc|t o ch i ex s p s' Ht Hp|t o ch e s Ht|s|t r s Ht|t r s Ht].
  - by apply inv_call.
  - by eapply inv_enter.
  - eapply inv_local; [done|by left|done|done|]. split; done.
  - by eapply inv_inside, work_inside.
  - by eapply inv_inside, close_inside.
  - destruct (publish_returns o ch i ex s) as (r & c & Hp'). rewrite Hp' in Hp. simplify_eq. by eapply inv_release.
  - replace (release ch s) with (set_cache (cache s) (release ch s)) by done. by eapply inv_release.
  - destruct Hinv as [Hpc Hone Hhold Hready Hclosed]. split; cbn; try done.
    intros t p Hp. destruct (Hpc t p Hp) as [H1 H2]. split; [|done].
    intros ch Hch. destruct (H1 ch Hch) as [Hr Hc]. split; [done|]. done.
  - by destruct Hinv.
  - by destruct Hinv.
Qed.

(** Nobody deletes the index while using a part of it. *)
Definition users_ok (s : state) : Prop :=
  ∀ r t p, (r, t) ∈ refs s → threads s !! t = Some p → pc_op p ≠ Some Delete.

Lemma users_move t p s s' : users_ok s → refs s' = refs s → threads s' = threads s →
  (pc_op p = Some Delete → (∃ q, threads s !! t = Some q ∧ pc_op q = Some Delete) ∨ ∀ r, (r, t) ∉ refs s) →
  users_ok (set_pc t p s').
Proof.
  intros Hu Hr Hth Hp r t' p' Hin [[-> ->]|[Hne Hq]]%lookup_set_pc; cbn in Hin; rewrite Hr in Hin.
  - intros [(q & Hq & Ho)|Hn]%Hp; [by eapply Hu|by apply Hn in Hin].
  - rewrite Hth in Hq. by eapply Hu.
Qed.

Lemma users_step E s s' : users_ok s → step E s s' → users_ok s'.
Proof.
  intros Hu Hstep. destruct Hstep as [t o b s Ht Hm|t o s p s' Ht He|t o ch s Ht Hch|t o ch e fresh s p s' Ht HE Hw
    |t ch e l s p s' Ht Hc|t o ch i ex s p s' Ht Hp|t o ch e s Ht|s|t r s Ht|t r s Ht].
  - apply (users_move _ _ s); [done..|]. unfold call. destruct (_ && _); [done|]. intros [= ->]. by right.
  - unfold enter in He. repeat case_match; simplify_eq; (eapply users_move; [exact Hu|done|done|intros [= ->]; eauto]).
  - apply (users_move _ _ s); [done..|]. intros [= ->]. eauto.
  - apply work_inside in Hw as (_ & Ho & _ & _ & _ & _ & Hr & Hth & _). apply (users_move _ _ s); [done..|].
    intros Hd. left. exists (Working o ch). split; [done|]. cbn. congruence.
  - apply close_inside in Hc as (_ & Ho & _ & _ & _ & _ & Hr & Hth & _). apply (users_move _ _ s); [done..|]. eauto.
  - destruct (publish_returns o ch i ex s) as (r & c & Hp'). rewrite Hp' in Hp. simplify_eq. by apply (users_move _ _ s).
  - by apply (users_move _ _ s).
  - done.
  - intros r' t' p [[= -> ->]%elem_of_singleton|Hin]%elem_of_union Hp; [|by eapply Hu].
    cbn in Hp. unfold idle in Ht. rewrite Hp in Ht. by destruct p.
  - intros r' t' p [Hin _]%elem_of_difference Hp. by eapply Hu.
Qed.

Lemma inv_rtc E s s' : inv s → users_ok s → rtc (step E) s s' → inv s' ∧ users_ok s'.
Proof. intros Hinv Hu Hr. induction Hr as [|s1 s2 s3 Hs _ IH]; [done|]. apply IH; [by eapply inv_step|by eapply users_step]. Qed.

Lemma inv_reachable m s : reachable m s → inv s ∧ users_ok s.
Proof. apply inv_rtc; [apply inv_initial|]. intros r t p Hin. by apply elem_of_empty in Hin. Qed.

(** * Progress *)

Section progress.
Context (E : env → Prop) (e0 : env) (HE : E e0).

(** The holder of a channel has returned: whatever is used meanwhile, the other
    goroutines are where they were. *)
Definition finished (t ch : nat) (s s' : state) : Prop :=
  rtc (step E) s s' ∧ (∃ r, threads s' = <[t := Returned r]> (threads s)) ∧ ready s' = None ∧
  closed s' = {[ch]} ∪ closed s ∧ refs s' ⊆ refs s.

Lemma finished_l t ch p s s1 s' : rtc (step E) s (set_pc t p s1) → threads s1 = threads s → closed s1 = closed s →
  refs s1 ⊆ refs s → finished t ch (set_pc t p s1) s' → finished t ch s s'.
Proof.
  intros Hs Hth Hcl Hrf (Hrun & [r Hr] & Hready & Hclosed & Hrefs). split_and!; [by etrans| |done| |].
  - exists r. rewrite Hr. cbn. by rewrite insert_insert_eq, Hth.
  - cbn in Hclosed. by rewrite Hclosed, Hcl.
  - by etrans.
Qed.

Lemma leaving_finishes t p ch s : threads s !! t = Some p → holds p = Some ch →
  match p with Publish _ _ _ _ | Fail _ _ _ => True | _ => False end → ∃ s', finished t ch s s'.
Proof.
  intros Ht Hh Hp. destruct p as [| | | |o ch' i ex|o ch' e|]; try done; injection Hh as ->.
  - destruct (publish_returns o ch i ex s) as (r & c & Hpub). eexists. split; [by eapply rtc_once, step_publish|].
    cbn. split_and!; eauto.
  - eexists. split; [by eapply rtc_once, step_fail|]. cbn. split_and!; eauto.
Qed.

(** Idle users let go of everything. *)
Lemma users_leave s : (∀ r t, (r, t) ∈ refs s → idle s t) → rtc (step E) s (set_refs ∅ s).
Proof.
  destruct s as [m c rd cl n u th]. unfold set_refs. cbn.
  induction u as [|[r t] u Hn IH] using set_ind_L; intros Hidle.
  - apply rtc_refl.
  - eapply rtc_l.
    + eapply (step_unuse E t r). cbn. apply (Hidle r t). set_solver.
    + unfold set_refs. cbn. replace (({[(r, t)]} ∪ u) ∖ {[(r, t)]}) with u by set_solver.
      apply IH. intros r' t' Hin. apply (Hidle r' t'). set_solver.
Qed.

Lemma nobody_busy s : refs s = ∅ → ∀ l, existsb (busy s) l = false.
Proof.
  intros Hu l. induction l as [|r l IH]; cbn; [done|]. rewrite IH, orb_false_r. unfold busy. rewrite Hu.
  apply bool_decide_eq_false_2. set_solver.
Qed.

(** A deletion goes through its parts when nobody uses them. *)
Lemma closing_finishes t ch e l s : threads s !! t = Some (Closing ch e l) → refs s = ∅ → ∃ s', finished t ch s s'.
Proof.
  revert s. induction l as [|k l IH]; intros s Ht Hu.
  - destruct (close_step ch e [] s) as [[p s1]|] eqn:Hc; [|done].
    destruct (close_inside _ _ _ _ _ _ Hc) as (Hh & _ & _ & _ & Hcl & _ & Hr & Hth & _).
    assert (match p with Publish _ _ _ _ | Fail _ _ _ => True | _ => False end) as Hp
      by (cbn in Hc; repeat case_match; by simplify_eq).
    destruct (leaving_finishes t p ch (set_pc t p s1)) as [s' Hs']; [by apply lookup_insert_eq|done..|].
    exists s'. eapply finished_l; [by eapply rtc_once, step_close|done|done|by rewrite Hr|done].
  - assert (close_step ch e (k :: l) s = Some (match task_error e k with Some err => delete_fails ch err | None => Closing ch e l end, s)) as Hc
      by (cbn [close_step]; by rewrite nobody_busy).
    assert (∃ s', finished t ch (set_pc t (match task_error e k with Some err => delete_fails ch err | None => Closing ch e l end) s) s') as [s' Hs'].
    { destruct (task_error e k); [eapply leaving_finishes; [by apply lookup_insert_eq|done..]|].
      apply IH; [by apply lookup_insert_eq|done]. }
    exists s'. eapply finished_l; [by eapply rtc_once, step_close|done..].
Qed.

(** A goroutine in the middle part returns; for a deletion, the users are idle. *)
Lemma holder_finishes t p ch s : threads s !! t = Some p → holds p = Some ch →
  (pc_op p = Some Delete → ∀ r t', (r, t') ∈ refs s → idle s t') → ∃ s', finished t ch s s'.
Proof.
  intros Ht Hh Hidle.
  assert (∀ s1 e l, threads s1 !! t = Some (Closing ch e l) → (∀ r t', (r, t') ∈ refs s1 → idle s1 t') → ∃ s', finished t ch s1 s') as Hclosing.
  { intros s1 e l Ht1 Hid. destruct (closing_finishes t ch e l (set_refs ∅ s1) Ht1 eq_refl) as (s' & Hrun & Hres & Hrd & Hcl & Hrf).
    exists s'. split_and!; [|done..|etrans; [exact Hrf|apply empty_subseteq]]. etrans; [by apply users_leave|done]. }
  destruct p as [o|o ch'|o ch'|ch' e l|o ch' i ex|o ch' e|r]; try done; injection Hh as ->;
    [|by eapply Hclosing; eauto|by eapply leaving_finishes|by eapply leaving_finishes].
  destruct (work o ch e0 0 s) as [p s1] eqn:Hw.
  destruct (work_inside _ _ _ _ _ _ _ Hw) as (Hp & Ho & _ & _ & Hcl & _ & Hr & Hth & _).
  assert (∃ s', finished t ch (set_pc t p s1) s') as [s' Hs'].
  { destruct p as [ | |o' ch'|ch' e l| | |]; try done;
      [exfalso; destruct o; cbn [work] in Hw; unfold deleteIndex in Hw; repeat case_match; by simplify_eq
      | |eapply leaving_finishes; [by apply lookup_insert_eq|done..]|eapply leaving_finishes; [by apply lookup_insert_eq|done..]].
    injection Hp as ->. injection Ho as <-. eapply Hclosing; [by apply lookup_insert_eq|]. cbn [set_pc refs].
    rewrite Hr. intros r t' Hin. specialize (Hidle eq_refl r t' Hin). unfold idle in *. cbn. rewrite Hth.
    destruct (decide (t = t')) as [<-|Hne]; [by rewrite Ht in Hidle|by rewrite lookup_insert_ne]. }
  exists s'. eapply finished_l; [by eapply rtc_once, step_work|done|done|by rewrite Hr|done].
Qed.

(** A goroutine at the top of its loop with no channel installed returns, and
    leaves no channel behind. *)
Definition returns (t : nat) (s s' : state) : Prop :=
  rtc (step E) s s' ∧ (∃ r, threads s' = <[t := Returned r]> (threads s)) ∧ ready s' = None ∧ refs s' ⊆ refs s.

Lemma top_returns t o s : threads s !! t = Some (Top o) → ready s = None →
  (o = Delete → ∀ r t', (r, t') ∈ refs s → idle s t') → ∃ s', returns t s s'.
Proof.
  intros Ht Hr Hidle. destruct (enter o s) as [p s1] eqn:He.
  assert (step E s (set_pc t p s1)) as Hs by by eapply step_enter.
  unfold enter in He. rewrite Hr in He. destruct (if uses_cache o then cache s else None) as [i|]; simplify_eq.
  - eexists. split; [by apply rtc_once|]. cbn. eauto.
  - match type of Hs with step _ _ ?s2 => destruct (holder_finishes t (Working o (next s)) (next s) s2) as (s' & Hrun & [r Hth] & Hrd & _ & Hrf) end;
      [by apply lookup_insert_eq|done| |].
    + intros [= ->] r t' Hin. specialize (Hidle eq_refl r t' Hin). unfold idle in *. cbn.
      destruct (decide (t = t')) as [<-|Hne]; [by rewrite Ht in Hidle|by rewrite lookup_insert_ne].
    + exists s'. split_and!; [by eapply rtc_l| |done|done]. exists r. rewrite Hth. cbn. by rewrite insert_insert_eq.
Qed.

(** The goroutines that have not returned. *)
Definition pending (s : state) : gset nat := dom (filter (λ x, is_Some (pc_op x.2)) (threads s)).

Lemma elem_of_pending s t : t ∈ pending s ↔ ∃ p, threads s !! t = Some p ∧ is_Some (pc_op p).
Proof.
  unfold pending. rewrite elem_of_dom. split.
  - intros [p [Hp Ho]%map_lookup_filter_Some]. by exists p.
  - intros (p & Hp & Ho). exists p. by apply map_lookup_filter_Some.
Qed.

Definition other_call (p : pc) : bool :=
  match pc_op p with None | Some Delete => false | Some _ => true end.

(** With no channel installed every goroutine waits for a closed one, so any of
    them can go to the top and return. *)
Lemma pending_returns t o p s : inv s → threads s !! t = Some p → pc_op p = Some o → ready s = None →
  (o = Delete → ∀ r t', (r, t') ∈ refs s → idle s t') → ∃ s', returns t s s'.
Proof.
  intros Hinv Ht Ho Hr Hidle. destruct (inv_pc s Hinv t p Ht) as [Hh Hp2].
  destruct (holds p) as [ch|] eqn:Hhp; [by destruct (Hh ch eq_refl); congruence|].
  destruct p as [o'|o' ch| | | | |]; try done; injection Ho as ->; [by eapply top_returns|].
  destruct Hp2 as [Hcl|]; [|congruence].
  destruct (top_returns t o (set_pc t (Top o) s)) as (s' & Hrun & [r Hth] & Hrd & Hrf); [by apply lookup_insert_eq|done| |].
  - intros Hd r t' Hin. specialize (Hidle Hd r t' Hin). unfold idle in *. cbn.
    destruct (decide (t = t')) as [<-|Hne]; [by rewrite Ht in Hidle|by rewrite lookup_insert_ne].
  - exists s'. split_and!; [by eapply rtc_l; [eapply step_wake|]| |done|done].
    exists r. rewrite Hth. cbn. by rewrite insert_insert_eq.
Qed.

(** Somebody can go next: a call that is not a deletion, or a deletion once only
    deletions are left, since the users are none of them. *)
Lemma somebody_returns s : inv s → users_ok s → ready s = None → pending s ≠ ∅ →
  ∃ t s', t ∈ pending s ∧ returns t s s'.
Proof.
  intros Hinv Hu Hr Hne.
  destruct (decide (map_Exists (λ _ p, other_call p = true) (threads s))) as [(t & p & Ht & Ho)|Hall].
  - assert (∃ o, pc_op p = Some o ∧ o ≠ Delete) as (o & Hop & Hd)
      by (unfold other_call in Ho; destruct (pc_op p) as [[]|]; naive_solver).
    destruct (pending_returns t o p s) as [s' Hs']; [done..|]. exists t, s'. split; [|done].
    apply elem_of_pending. eauto.
  - apply set_choose_L in Hne as [t (p & Ht & [o Ho])%elem_of_pending].
    destruct (pending_returns t o p s) as [s' Hs']; [done..| |exists t, s'; split; [apply elem_of_pending; eauto|done]].
    intros _ r t' Hin. unfold idle. destruct (threads s !! t') as [p'|] eqn:Ht'; [|done].
    pose proof (Hu r t' p' Hin Ht') as Hn. destruct p' as [o'|o' ?|o' ?| |o' ? ? ?|o' ? ?|]; try done;
      exfalso; apply Hall; eexists t', _; (split; [done|]); unfold other_call; cbn in *; by destruct o'.
Qed.

(** All calls return, one after the other. *)
Lemma all_return s : inv s → users_ok s → ready s = None →
  ∃ s', rtc (step E) s s' ∧ ∀ t p, threads s !! t = Some p → ∃ r, threads s' !! t = Some (Returned r).
Proof.
  remember (size (pending s)) as n eqn:Hn. revert s Hn.
  induction n as [|n IH]; intros s Hn Hinv Hu Hr.
  - exists s. split; [apply rtc_refl|]. intros t p Ht. destruct (pc_op p) as [o|] eqn:Ho.
    + exfalso. symmetry in Hn. apply size_empty_inv in Hn. apply (not_elem_of_empty (C := gset nat) t).
      rewrite <- Hn. apply elem_of_pending. eauto.
    + destruct p; try done. eauto.
  - destruct (somebody_returns s) as (t & s1 & Hin & Hrun & [r Hth] & Hrd & Hrf); [done..| |].
    { intros He. rewrite He, size_empty in Hn. done. }
    destruct (inv_rtc E s s1) as [Hinv1 Hu1]; [done..|].
    destruct (IH s1) as (s' & Hrun' & Hall); [|done..|].
    { replace (pending s1) with (pending s ∖ {[t]}).
      - rewrite size_difference, size_singleton; [lia|set_solver].
      - apply set_eq. intros t'. rewrite elem_of_difference, !elem_of_pending, Hth, elem_of_singleton. split.
        + intros [(p & Hp & Ho) Hne]. exists p. by rewrite lookup_insert_ne.
        + intros (p & [[<- <-]|[Hne Hp]]%lookup_insert_Some & Ho); [by destruct Ho|]. eauto. }
    exists s'. split; [by etrans|]. intros t' p Ht'. destruct (decide (t' = t)) as [->|Hne].
    + apply (Hall t (Returned r)). rewrite Hth. by apply lookup_insert_eq.
    + apply (Hall t' p). by rewrite Hth, lookup_insert_ne.
Qed.

End progress.

(** No deletion is under way while a goroutine that uses a part of the index is
    inside one of the operations. *)
Definition calm (s : state) : Prop :=
  ∀ t p, threads s !! t = Some p → is_Some (holds p) → pc_op p = Some Delete → ∀ r t', (r, t') ∈ refs s → idle s t'.

(** A deletion that waits for a goroutine which waits for the deletion. *)
Definition deadlocked (s : state) (t t' ch : nat) : Prop :=
  ∃ e k l o r, threads s !! t = Some (Closing ch e (k :: l)) ∧ r ∈ waits_for k ∧ (r, t') ∈ refs s ∧
    threads s !! t' = Some (Waiting o ch).

Lemma busy_true s r t l : (r, t) ∈ refs s → r ∈ l → existsb (busy s) l = true.
Proof.
  intros Hin Hr. apply existsb_exists. exists r. split; [by apply list_elem_of_In|]. apply bool_decide_eq_true_2.
  apply list_elem_of_fmap. exists (r, t). by rewrite elem_of_elements.
Qed.

Lemma deadlocked_step E s s' t t' ch : inv s → deadlocked s t t' ch → step E s s' → deadlocked s' t t' ch.
Proof.
  intros Hinv (e & k & l & o & r & Ht & Hr & Hin & Ht') Hstep.
  assert (ready s = Some ch) as Hrd by by apply (inv_pc s Hinv t _ Ht).
  assert (ch ∉ closed s) as Hcl by by apply (inv_ready s Hinv).
  assert (∀ q p s1, refs s1 = refs s → threads s1 = threads s → q ≠ t → q ≠ t' → deadlocked (set_pc q p s1) t t' ch) as Hmove.
  { intros q p s1 Hrf Hth Hq Hq'. exists e, k, l, o, r. cbn. rewrite Hth, Hrf, !lookup_insert_ne by done. done. }
  assert (∀ q, idle s q → q ≠ t ∧ q ≠ t') as Hidle.
  { unfold idle. intros q Hq. split; intros ->; [by rewrite Ht in Hq|by rewrite Ht' in Hq]. }
  destruct Hstep as [q o' b s Hq Hm|q o' s p s' Hq He|q o' ch' s Hq Hch|q o' ch' e' fresh s p s' Hq HE Hw
    |q ch' e' l' s p s' Hq Hc|q o' ch' i ex s p s' Hq Hp|q o' ch' e' s Hq|s|q r' s Hq|q r' s Hq].
  - destruct (Hidle q Hq). by apply Hmove.
  - unfold enter in He. repeat case_match; simplify_eq; apply Hmove; try done; congruence.
  - apply Hmove; [done..|congruence|]. intros ->. by simplify_eq.
  - apply work_inside in Hw as (_ & _ & _ & _ & _ & _ & Hrf & Hth & _). apply Hmove; [done..|congruence|congruence].
  - destruct (close_inside _ _ _ _ _ _ Hc) as (_ & _ & _ & _ & _ & _ & Hrf & Hth & _).
    apply Hmove; [done..| |congruence]. intros ->. simplify_eq. cbn [close_step] in Hc.
    by rewrite (busy_true _ _ _ _ Hin Hr) in Hc.
  - destruct (publish_returns o' ch' i ex s) as (x & c & Hp'). rewrite Hp' in Hp. simplify_eq.
    apply Hmove; [done..|congruence|congruence].
  - apply Hmove; [done..|congruence|congruence].
  - by exists e, k, l, o, r.
  - exists e, k, l, o, r. split_and!; try done. cbn. set_solver.
  - destruct (Hidle q Hq). exists e, k, l, o, r. split_and!; try done. cbn. set_solver.
Qed.

Lemma deadlocked_forever s s' t t' ch : inv s → deadlocked s t t' ch → rtc (step any) s s' → deadlocked s' t t' ch.
Proof.
  intros Hinv Hd Hr. induction Hr as [|s1 s2 s3 Hs _ IH]; [done|].
  apply IH; [by eapply inv_step|by eapply deadlocked_step].
Qed.

(** C32: calls return, unless a deletion meets the users of what it closes.
    In every interleaving of loads, creations, stores, deletions, cache drops
    and uses of shard logs and vector indexes, whatever fails in them: at most
    one goroutine is between the two locked regions; a goroutine blocked on a
    channel waits for a channel that is closed or that this goroutine still
    holds; when no goroutine that uses a log or a vector index of the index is
    inside a call while a deletion is under way, every call that has not
    returned can be driven to its return, whatever the outcomes [e] of the work
    that is still to be done; but a deletion that waits for a user of a log or a
    vector index, where that user waits for the channel of the deletion, waits
    for ever, and so does the user. *)
Theorem calls_complete m s : reachable m s →
  (∀ t1 t2 p1 p2, threads s !! t1 = Some p1 → threads s !! t2 = Some p2 →
    is_Some (holds p1) → is_Some (holds p2) → t1 = t2) ∧
  (∀ t o ch, threads s !! t = Some (Waiting o ch) →
    ch ∈ closed s ∨ ∃ t' p, threads s !! t' = Some p ∧ holds p = Some ch) ∧
  (calm s → ∀ e t p, threads s !! t = Some p → ∃ s' r, rtc (step (eq e)) s s' ∧ threads s' !! t = Some (Returned r)) ∧
  (∀ t t' ch, deadlocked s t t' ch → ∀ s', rtc (step any) s s' → deadlocked s' t t' ch).
Proof.
  intros [Hinv Hu]%inv_reachable. split_and!.
  - apply inv_one, Hinv.
  - intros t o ch Ht. destruct (inv_pc s Hinv t _ Ht) as [_ [?|Hr]]; [by left|right]. by apply inv_holder.
  - intros Hcalm e t p Ht. destruct (ready s) as [ch|] eqn:Hr.
    + destruct (inv_holder s Hinv ch Hr) as (t' & p' & Hp' & Hh).
      destruct (holder_finishes (eq e) e eq_refl t' p' ch s Hp' Hh) as (s1 & Hrun & [r' Hth] & Hr1 & _).
      { intros Hd. eapply Hcalm; [done|by rewrite Hh|done]. }
      destruct (inv_rtc (eq e) s s1) as [Hinv1 Hu1]; [done..|].
      destruct (all_return (eq e) e eq_refl s1) as (s' & Hrun' & Hall); [done..|].
      destruct (decide (t = t')) as [->|Hne].
      * destruct (Hall t' (Returned r')) as [r Hres]; [rewrite Hth; by apply lookup_insert_eq|].
        exists s', r. split; [by etrans|done].
      * destruct (Hall t p) as [r Hres]; [by rewrite Hth, lookup_insert_ne|]. exists s', r. split; [by etrans|done].
    + destruct (all_return (eq e) e eq_refl s) as (s' & Hrun' & Hall); [done..|].
      destruct (Hall t p Ht) as [r Hres]. by exists s', r.
  - intros t t' ch Hd s' Hrun. by eapply deadlocked_forever.
Qed.

(** An index with one shard and one vector field. *)
Definition demo_env : env := mkEnv None None None None None [0] None [(7, VecDeleted)] None None None.

(** Goroutine 0 has begun to delete the index, goroutine 1 waits to load it and
    goroutine 2 uses the vector index without calling anything. *)
Lemma demo_waiting : ∃ s, reachable (Some 5) s ∧ calm s ∧ threads s !! 1 = Some (Waiting Get 0) ∧
  threads s !! 0 = Some (Closing 0 demo_env [DeleteVec 7 VecDeleted]) ∧ (VecIndex 7, 2) ∈ refs s.
Proof.
  eexists. split; [|split].
  - eapply rtc_l; [by eapply (step_use any 2 (VecIndex 7))|].
    eapply rtc_l; [apply (step_call any 0 Delete true); [done|intros r; cbn; set_solver]|].
    eapply rtc_l; [by eapply (step_enter any 0 Delete)|].
    eapply rtc_l; [by eapply (step_call any 1 Get true)|].
    eapply rtc_l; [by eapply (step_enter any 1 Get)|].
    eapply rtc_l; [by eapply (step_work any 0 Delete 0 demo_env 0)|]. apply rtc_refl.
  - intros t p _ _ _ r t' Hin. cbn in Hin. assert (t' = 2) as -> by set_solver. done.
  - split_and!; first [reflexivity|cbn; set_solver].
Defined.

(** The user stores the metadata of its vector index ([SaveVecIndexMeta]) while
    the deletion waits for it: both wait for ever. *)
Lemma demo_deadlocked : ∃ s, reachable (Some 5) s ∧ deadlocked s 0 2 0.
Proof.
  eexists. split.
  - eapply rtc_l; [by eapply (step_use any 2 (VecIndex 7))|].
    eapply rtc_l; [apply (step_call any 0 Delete true); [done|intros r; cbn; set_solver]|].
    eapply rtc_l; [by eapply (step_enter any 0 Delete)|].
    eapply rtc_l; [by eapply (step_work any 0 Delete 0 demo_env 0)|].
    eapply rtc_l; [by eapply (step_call any 2 (Store 1 9) true)|].
    eapply rtc_l; [by eapply (step_enter any 2 (Store 1 9))|]. apply rtc_refl.
  - exists demo_env, (DeleteVec 7 VecDeleted), [], (Store 1 9), (VecIndex 7). split_and!; first [reflexivity|cbn; set_solver].
Defined.

(** The consumer loop stores the statistics of a cached index
    ([UpdateMetadata]) while the deletion hands it the message to close the
    log: the loop, which serves the logs of all indexes, never comes back. *)
Theorem delete_stops_the_consumer : ∃ s, reachable (Some 5) s ∧ deadlocked s 1 2 2 ∧
  (∀ s', rtc (step any) s s' → deadlocked s' 1 2 2) ∧
  (∃ e l, threads s !! 1 = Some (Closing 2 e (CloseShards [0] :: l))).
Proof.
  assert (∃ s, reachable (Some 5) s ∧ deadlocked s 1 2 2 ∧
    ∃ e l, threads s !! 1 = Some (Closing 2 e (CloseShards [0] :: l))) as (s & Hr & Hd & He).
  { eexists. split_and!.
    - eapply rtc_l; [by eapply (step_call any 0 Get true)|].
      eapply rtc_l; [by eapply (step_enter any 0 Get)|].
      eapply rtc_l; [by eapply (step_work any 0 Get 0 works 0)|].
      eapply rtc_l; [by eapply (step_publish any 0 Get 0 1 true)|].
      eapply rtc_l; [by eapply (step_use any 2 (ShardLog 0))|].
      eapply rtc_l; [apply (step_call any 1 Delete true); [done|intros r; cbn; set_solver]|].
      eapply rtc_l; [by eapply (step_enter any 1 Delete)|].
      eapply rtc_l; [by eapply (step_work any 1 Delete 2 demo_env 0)|].
      eapply rtc_l; [by eapply (step_call any 2 (Store 1 9) true)|].
      eapply rtc_l; [by eapply (step_enter any 2 (Store 1 9))|]. apply rtc_refl.
    - exists demo_env, (CloseShards [0]), [DeleteVec 7 VecDeleted], (Store 1 9), (ShardLog 0).
      split_and!; first [reflexivity|cbn; set_solver].
    - eexists _, _. reflexivity. }
  exists s. split_and!; [done|done| |done]. intros s'. apply deadlocked_forever; [|done]. by apply (inv_reachable (Some 5)).
Qed.

Lemma calls_complete_witness : (∃ s s' r, reachable (Some 5) s ∧ threads s !! 1 = Some (Waiting Get 0) ∧
    rtc (step (eq demo_env)) s s' ∧ threads s' !! 1 = Some (Returned r)) ∧
  (∃ s, reachable (Some 5) s ∧ ∀ s', rtc (step any) s s' → deadlocked s' 0 2 0).
Proof.
  split.
  - destruct demo_waiting as (s & Hr & Hc & Hw & _). destruct (calls_complete (Some 5) s Hr) as (_ & _ & H & _).
    destruct (H Hc demo_env 1 _ Hw) as (s' & r & Hrun & Hres). by exists s, s', r.
  - destruct demo_deadlocked as (s & Hr & Hd). destruct (calls_complete (Some 5) s Hr) as (_ & _ & _ & H).
    exists s. split; [done|]. by apply H.
Defined.

(** One object per cached index.  While an index is in the cache, no
    step of any goroutine puts another object in its place: it stays, or the
    entry is dropped.  So the shards, writers and reference counts of an index
    are never split over two live objects through the cache. *)
Theorem cached_object_is_unique m s s' i : reachable m s → step any s s' → cache s = Some i →
  cache s' = Some i ∨ cache s' = None.
Proof.
  intros [Hinv _]%inv_reachable Hstep Hc. destruct Hstep as [t o b s Ht Hm|t o s p s' Ht He|t o ch s Ht Hch
    |t o ch e fresh s p s' Ht HE Hw|t ch e l s p s' Ht Hcl|t o ch j ex s p s' Ht Hp|t o ch e s Ht|s|t r s Ht|t r s Ht];
    cbn; try by eauto.
  - left. unfold enter in He. repeat case_match; by simplify_eq.
  - left. apply work_inside in Hw as (_ & _ & Hsame & _). congruence.
  - left. apply close_inside in Hcl as (_ & _ & Hsame & _). congruence.
  - destruct (inv_pc s Hinv t _ Ht) as [Hh _]. destruct (Hh ch eq_refl) as [_ Hnc].
    destruct o as [| |k d|]; cbn in Hp.
    + exfalso. rewrite (Hnc Get) in Hc; done.
    + exfalso. rewrite (Hnc GetOrCreate) in Hc; done.
    + rewrite Hc in Hp. case_decide; simplify_eq; cbn; eauto.
    + simplify_eq. by right.
Qed.

Lemma cached_object_is_unique_witness : ∃ s s', reachable (Some 5) s ∧ step any s s' ∧ cache s = Some 1 ∧
  (cache s' = Some 1 ∨ cache s' = None).
Proof.
  assert (∃ s, reachable (Some 5) s ∧ cache s = Some 1 ∧ threads s !! 7 = None ∧ refs s = ∅) as (s & Hr & Hc & Ht & Hu).
  { eexists. split_and!.
    - eapply rtc_l; [by eapply (step_call any 0 Get true)|].
      eapply rtc_l; [by eapply (step_enter any 0 Get)|].
      eapply rtc_l; [by eapply (step_work any 0 Get 0 works 0)|].
      eapply rtc_l; [by eapply (step_publish any 0 Get 0 1 true)|]. apply rtc_refl.
    - reflexivity.
    - reflexivity.
    - reflexivity. }
  assert (step any s (set_pc 7 (call Delete true) s)) as Hs
    by (apply step_call; [unfold idle; by rewrite Ht|intros r; by rewrite Hu; apply not_elem_of_empty]).
  exists s, (set_pc 7 (call Delete true) s). split_and!; [done..|].
  by apply (cached_object_is_unique (Some 5) s _ 1 Hr Hs Hc).
Defined.

(** A successful deletion is complete.  When the last locked region of a
    [Delete] that met no error runs, the metadata is gone, the cache entry is
    gone and the name is free: a [Get] that runs next alone answers that the
    index is not found. *)
Theorem delete_leaves_nothing m s t ch i ex s' : reachable m s →
  threads s !! t = Some (Publish Delete ch i ex) → publish Delete ch i ex s = (Returned RDone, s') →
  metadata s' = None ∧ cache s' = None ∧ ready s' = None ∧
  (∃ ch', (enter Get s').1 = Working Get ch' ∧
          (work Get ch' works 0 (enter Get s').2).1 = Fail Get ch' ("failed to load index: " +:+ ErrIndexNotFound)).
Proof.
  intros [Hinv _]%inv_reachable Ht Hp. destruct (inv_pc s Hinv t _ Ht) as [_ Hm]. cbn in Hm, Hp. simplify_eq.
  cbn. split_and!; try done. exists (next s). split; [done|]. unfold getIndex. cbn. by rewrite Hm.
Qed.

Lemma delete_leaves_nothing_witness : ∃ s s', reachable (Some 5) s ∧ metadata s' = None ∧ cache s' = None.
Proof.
  assert (∃ s, reachable (Some 5) s ∧ threads s !! 0 = Some (Publish Delete 0 0 true)) as (s & Hr & Ht).
  { eexists. split.
    - eapply rtc_l; [apply (step_call any 0 Delete true); [done|intros r; cbn; set_solver]|].
      eapply rtc_l; [by eapply (step_enter any 0 Delete)|].
      eapply rtc_l; [by eapply (step_work any 0 Delete 0 demo_env 0)|].
      eapply rtc_l; [by eapply (step_close any 0 0 demo_env [DeleteVec 7 VecDeleted])|].
      eapply rtc_l; [by eapply (step_close any 0 0 demo_env [])|]. apply rtc_refl.
    - reflexivity. }
  destruct (delete_leaves_nothing (Some 5) s 0 0 0 true _ Hr Ht eq_refl) as (Hm & Hc & _).
  by eexists s, _.
Defined.
