(* ===== verification/IndexSearch.v ===== *)
(** Searching indexes: pkg/core/search.go, multi_search.go, searcher.go and the
    searchers of pkg/core/index.go and index_shards.go. *)
From stdpp Require Import functions.
From Stdlib Require Import SpecFloat.
From S2P Require Import Prelude Hash Strconv Value Document Shards Heap Merge Query TimeRange Request Search SearchStats IndexMgr Routing.
Import Meta.

(** * Names of indexes *)

(** [strings.HasSuffix]. *)
Definition HasSuffix (s suffix : string) : bool :=
  bool_decide (String.length suffix ≤ String.length s) &&
  bool_decide (String.substring (String.length s - String.length suffix) (String.length suffix) s = suffix).

Definition isMatchIndex (zincIndexName indexName : string) : bool :=
  if decide (indexName = "") then true
  else if String.prefix "*" indexName then HasSuffix zincIndexName (String.substring 1 (String.length indexName - 1) indexName)
  else if HasSuffix indexName "*" then String.prefix (trim_last indexName) zincIndexName
  else bool_decide (zincIndexName = indexName).

(** * The index *)

(** How [bluge.OpenReader] ends. *)
Inductive open_outcome := ReaderOpened | ReaderPathNotExists | ReaderNoSnapshot (err : string) | ReaderFailed (err : string).

Section index_search.
Context {W M : Type}.

(** [core.Index] as a search uses it. *)
Record SearchIndex := mkSearchIndex {
  x_name : string; x_mappings : Mappings; x_analyzers : gset string; x_shards : list (@IndexShard W)
}.

(** A [SimpleSearcher]: a second shard of a shard. *)
Definition searcher_at : Type := @IndexShard W * Z.

Definition GetSearchers (x : SearchIndex) (timeMin timeMax : Z) : list searcher_at :=
  concat ((λ s, (λ id, (s, id)) <$> Shards.GetSearchers s timeMin timeMax) <$> x_shards x).

Definition GetSearchersByID (x : SearchIndex) (timeMin timeMax : Z) (ids : list Z) : list searcher_at :=
  if decide (ids = []) then [] else
  concat ((λ s, (λ id, (s, id)) <$> GetPartialSearchers s timeMin timeMax ids) <$> x_shards x).

(** ** Readers *)

(** The engine: the error of its configuration, the outcome of every attempt to
    open a reader, and what the reader answers, with unified statistics or its
    own.  [shard_name] is the index and shard an error names. *)
Context (cfg_err : option string) (shard_name : @IndexShard W → string)
  (OpenReader : @IndexShard W → Z → nat → open_outcome)
  (read : option UnifiedStats → @IndexShard W → Z → @searcher M).

Fixpoint open_retry (s : @IndexShard W) (id : Z) (n attempt : nat) (err : string) : res bool :=
  match n with
  | O => Err err
  | S n =>
      match OpenReader s id attempt with
      | ReaderOpened => Ok true
      | ReaderPathNotExists => Ok false
      | ReaderNoSnapshot err => open_retry s id n (S attempt) err
      | ReaderFailed err => Err ("open " +:+ shard_name s +:+ " err: " +:+ err)
      end
  end.

(** [openReader]: three attempts; [false] is no reader and no error. *)
Definition openReader (s : @IndexShard W) (id : Z) : res bool :=
  match cfg_err with Some err => Err err | None => open_retry s id 3 0 "" end.

(** [SimpleSearcher.Search] and [UnifiedSearcher.Search]: without a reader there
    is nothing to find. *)
Definition searcher_Search (stats : option UnifiedStats) (at_ : searcher_at) : @searcher M := λ req,
  opened ← openReader at_.1 at_.2;
  if opened : bool then read stats at_.1 at_.2 req else Ok ([], None, 0%Z).

(** ** One index *)

Context (stored : M → res (list (string * string))) (sort_less : option SortOrder → M → M → bool).
Context {lib : GoLib} {qlib : QueryLib} (unmarshal : string → option (gmap string value))
  (format_time : Z → string → string) (order_fields : map_order string value).
Context (sort_conditions : sorter cond_less) (order : map_order string Property) (e : renv).
(** The maps of a query are read again, in another order, by [timerange]. *)
Context (again : value → value).
(** Which error of several readers is returned, and the order in which their
    documents arrive. *)
Context (pick : list string → string) (arrival : shuffle (Hit * M)).

Definition run_search (x_map : Mappings) (x_ana : gset string) (q : ZincQuery) (rs : list searcher)
    : res SearchResponse * ZincQuery :=
  MultiZincSearch stored sort_less unmarshal format_time order_fields x_ana x_map sort_conditions order e pick arrival q rs.

(** The request is read twice before the searchers are chosen: errors come from
    here, the result of the parse is not used. *)
Definition checked_search (x : SearchIndex) (q : ZincQuery) (stats : option UnifiedStats)
    (choose : Z → Z → list searcher_at) : res SearchResponse * ZincQuery :=
  match NormalizeQuery (x_analyzers x) (x_mappings x) sort_conditions order e q with
  | (Err err, q) => (Err err, q)
  | (Panic p, q) => (Panic p, q)
  | (Ok _, q) =>
      match ParseQueryDSL (x_analyzers x) (x_mappings x) sort_conditions order e q with
      | Err err => (Err err, q)
      | Panic p => (Panic p, q)
      | Ok _ =>
          match TimeRange.Query (again (q_query q)) with
          | Err err => (Err err, q)
          | Panic p => (Panic p, q)
          | Ok (timeMin, timeMax) =>
              run_search (x_mappings x) (x_analyzers x) q (searcher_Search stats <$> choose timeMin timeMax)
          end
      end
  end.

Definition SearchWithStats (x : SearchIndex) (q : ZincQuery) (stats : option UnifiedStats) : res SearchResponse * ZincQuery :=
  checked_search x q stats (GetSearchers x).

Definition Search (x : SearchIndex) (q : ZincQuery) : res SearchResponse * ZincQuery := SearchWithStats x q None.

Definition PartialSearch (x : SearchIndex) (secondShardIds : list Z) (q : ZincQuery) (stats : UnifiedStats)
    : res SearchResponse * ZincQuery :=
  checked_search x q (Some stats)
    (λ timeMin timeMax, if decide (secondShardIds = []) then GetSearchers x timeMin timeMax
                        else GetSearchersByID x timeMin timeMax secondShardIds).

(** ** Several indexes *)

(** [ListIndexNames], [cluster.AssignCheck] and [IndexMgr.Get]. *)
Context (names : res (list string)) (AssignCheck : string → bool) (Get : string → res SearchIndex).

Definition GetMatchedIndexes (indexNames : list string) : res (list SearchIndex) :=
  ns ← names;
  foldM (λ xs name,
           let matched := bool_decide (indexNames = []) || existsb (isMatchIndex name) indexNames in
           if negb matched || negb (AssignCheck name) then Ok xs
           else x ← Get name; Ok (xs ++ [x])) [] ns.

Definition MultiSearch (indexNames : list string) (q : ZincQuery) : res SearchResponse * ZincQuery :=
  match GetMatchedIndexes indexNames with
  | Err err => (Err err, q)
  | Panic p => (Panic p, q)
  | Ok [] => (Err "core.MultiSearchV2: error accessing reader: no index found", q)
  | Ok (x :: xs) =>
      match TimeRange.Query (again (q_query q)) with
      | Err err => (Err err, q)
      | Panic p => (Panic p, q)
      | Ok (timeMin, timeMax) =>
          run_search (x_mappings x) (x_analyzers x) q
            (searcher_Search None <$> concat ((λ x, GetSearchers x timeMin timeMax) <$> (x :: xs)))
      end
  end.

(** ** Statistics *)

Context (order_terms : map_order string TermStats) (order_field_terms : nat → map_order string (list Term)).
Context (stats_reader : @IndexShard W → Z → reader).

(** [GetReader]. *)
Definition GetReader (at_ : searcher_at) : res (option reader) :=
  opened ← openReader at_.1 at_.2;
  Ok (if opened : bool then Some (stats_reader at_.1 at_.2) else None).

(** The searchers of the indexes and the mappings and analyzers of the first
    one; the terms are those of the query under these. *)
Definition collect_stats (xs : list (SearchIndex * list searcher_at)) (query : value) : res UnifiedStats :=
  match xs, concat xs.*2 with
  | (x, _) :: _, (_ :: _) as searchers =>
      terms ← QueryTerms (x_analyzers x) (x_mappings x) query;
      getLocalStatsInfo order_terms order_field_terms (GetReader <$> searchers) terms
  | _, _ => Ok ∅
  end.

(** The error of [IndexMgr.Get] is [ErrIndexNotFound] itself, or another. *)
Definition QueryStatsInfo (get : string → res (option SearchIndex)) (indexNames : list string) (query : value) : res UnifiedStats :=
  '(timeMin, timeMax) ← TimeRange.Query (again query);
  xs ← foldM (λ xs name,
                if negb (AssignCheck name) then Err ErrIndexServerMismatch
                else o ← get name;
                     Ok match o with None => xs | Some x => xs ++ [(x, GetSearchers x timeMin timeMax)] end) [] indexNames;
  collect_stats xs query.

Definition QueryStatsInfoWithSecondShardIds (order_indexes : map_order string (list Z)) (GetQueryIndex : string → res SearchIndex)
    (indexes : Parallel.PartialIndexes) (query : value) : res UnifiedStats :=
  '(timeMin, timeMax) ← TimeRange.Query (again query);
  xs ← foldM (λ xs ids, x ← GetQueryIndex ids.1;
                Ok (xs ++ [(x, if decide (ids.2 = []) then GetSearchers x timeMin timeMax
                               else GetSearchersByID x timeMin timeMax ids.2)])) [] (range order_indexes indexes);
  collect_stats xs query.
End index_search.

(** * A search finds what matches *)

Lemma request_query {lib : GoLib} {qlib : QueryLib} analyzers mappings sort_conditions order e q req :
  ParseQueryDSL analyzers mappings sort_conditions order e q = Ok req →
  Query.Query analyzers mappings sort_conditions order (now e) (q_query q) = Ok (Some (r_query req)).
Proof.
  unfold ParseQueryDSL, parse_query.
  destruct (Query.Query analyzers mappings sort_conditions order (now e) (q_query q)) as [[b|]| |]; cbn; try done.
  destruct (if q_aggs q then agg_err e else None); [done|]. destruct (q_sort q) as [[]|]; cbn; try done; by intros [= <-].
Qed.

Section finds.
Context {W M : Type} {bm : BlugeMatch M} {lib : GoLib} {qlib : QueryLib}.
Context (cfg_err : option string) (shard_name : @IndexShard W → string)
  (OpenReader : @IndexShard W → Z → nat → open_outcome) (read : option UnifiedStats → @IndexShard W → Z → @searcher M).
Context (sort_less : option SortOrder → M → M → bool) {sort_order : ∀ o, WeakOrder (sort_less o)}.
Context (x : @SearchIndex W) (docs : @IndexShard W → Z → list M) (stats : option UnifiedStats).

(** The documents of a second shard that match. *)
Definition matching (s : @IndexShard W) (id : Z) (b : bquery) : list M := filter (λ m, matches m b = true) (docs s id).

(** The state of an index that a search relies on: every second shard either has
    a reader that serves its documents or was never written, records the times of
    its documents, all of which have one, and the shards follow each other in
    time. *)
Record searchable : Prop := {
  served : ∀ s y, s ∈ x_shards x → y ∈ shards s →
    openReader cfg_err shard_name OpenReader s (ID y) = Ok true ∧ serves sort_less (matching s (ID y)) (read stats s (ID y)) ∨
    openReader cfg_err shard_name OpenReader s (ID y) = Ok false ∧ docs s (ID y) = [];
  timed : ∀ s y m, s ∈ x_shards x → y ∈ shards s → m ∈ docs s (ID y) → ∃ t, time_at m TimeFieldName = Some t ∧
    (0 < DocTimeMin (Shards.stats y) → DocTimeMin (Shards.stats y) ≤ t)%Z ∧
    (0 < DocTimeMax (Shards.stats y) → t ≤ DocTimeMax (Shards.stats y))%Z;
  in_order : ∀ s, s ∈ x_shards x → time_ordered s
}.
Hypothesis Hx : searchable.

(** Every matching document of the index. *)
Definition all_matching (b : bquery) : list M :=
  concat ((λ s, concat ((λ y, matching s (ID y) b) <$> shards s)) <$> x_shards x).

Lemma concat_perm {A B} (f : A → list B) (xs ys : list A) : xs ≡ₚ ys → concat (f <$> xs) ≡ₚ concat (f <$> ys).
Proof.
  induction 1; cbn; [done|by f_equiv| |by etrans]. by rewrite !app_assoc, (Permutation_app_comm (f y)).
Qed.

Lemma concat_nil {A B} (f : A → list B) (xs : list A) : (∀ a, a ∈ xs → f a = []) → concat (f <$> xs) = [].
Proof.
  induction xs as [|a xs IH]; intros Hf; [done|]. cbn. rewrite Hf by left. cbn. apply IH. intros. apply Hf. by right.
Qed.

(** What the chosen searchers hold is all that matches. *)
Lemma chosen_hold_all b lo hi :
  covers (Some b) (lo, hi) →
  concat ((λ at_ : searcher_at, matching at_.1 at_.2 b) <$> GetSearchers x lo hi) ≡ₚ all_matching b.
Proof.
  intros Hc. unfold GetSearchers, all_matching. pose proof Hx as [_ Htime Hord]. clear Hx.
  induction (x_shards x) as [|s ss IH]; [done|]. cbn. rewrite fmap_app, concat_app. f_equiv.
  2:{ apply IH; intros; [eapply Htime|apply Hord]; try done; by right. }
  destruct (GetSearchers_picked s lo hi) as (picked & rest & -> & Hp & Hr); [apply Hord; left|].
  rewrite <-(concat_perm (λ y, matching s (ID y) b) _ _ Hp), fmap_app, concat_app.
  rewrite (concat_nil _ rest); [by rewrite app_nil_r, <-!list_fmap_compose|].
  intros y Hy. apply filter_none. intros m Hm Hmatch.
  destruct (Htime s y m) as (t & Ht & Hmin & Hmax); [left|rewrite <-Hp; set_solver|done|].
  destruct (Hc m t Hmatch Ht) as [Hlo Hhi]. cbn in Hlo, Hhi. specialize (Hr y Hy).
  unfold out_of_range in Hr. rewrite orb_true_iff, !andb_true_iff, !Z.ltb_lt in Hr. lia.
Qed.

(** A searcher of a second shard serves what matches in it. *)
Lemma searcher_serves s y :
  s ∈ x_shards x → y ∈ shards s →
  serves sort_less (matching s (ID y)) (searcher_Search cfg_err shard_name OpenReader read stats (s, ID y)).
Proof.
  intros Hs Hy req Hf Hz. unfold searcher_Search. cbn.
  destruct (served Hx s y Hs Hy) as [[-> Hserve]|[-> Hdocs]]; cbn; [by apply Hserve|].
  exists []. unfold matching. rewrite Hdocs. split; [done|]. exists []. split_and!; [done|constructor|].
  by rewrite drop_nil, take_nil.
Qed.

(** Searchers of second shards of the index. *)
Definition of_index (at_ : @searcher_at W) : Prop := ∃ y, at_.1 ∈ x_shards x ∧ y ∈ shards at_.1 ∧ at_.2 = ID y.

Lemma all_serve l :
  Forall of_index l →
  Forall2 (serves sort_less) ((λ at_ : searcher_at, matching at_.1 at_.2) <$> l)
    (searcher_Search cfg_err shard_name OpenReader read stats <$> l).
Proof.
  induction 1 as [|[s id] l (y & Hs & Hy & Hid) _ IH]; constructor; [|done].
  cbn in *. subst. by apply searcher_serves.
Qed.

Lemma chosen_of_index lo hi : Forall of_index (GetSearchers x lo hi).
Proof.
  apply Forall_forall. intros a Ha. unfold GetSearchers in Ha. apply list_elem_of_In, in_concat in Ha as (l & Hl & Ha).
  apply list_elem_of_In, list_elem_of_fmap in Hl as (s & -> & Hs).
  apply list_elem_of_In, list_elem_of_fmap in Ha as (id & -> & Hid).
  apply searchers_loop_sound in Hid as (y & Hy & <- & _). rewrite elem_of_reverse in Hy. by exists y.
Qed.

Context (stored : M → res (list (string * string))) (unmarshal : string → option (gmap string value))
  (format_time : Z → string → string) (order_fields : map_order string value)
  (sort_conditions : sorter cond_less) (order : map_order string Property) (e : renv) (again : value → value)
  (pick : list string → string) (arrival : shuffle (Hit * M)).

(** Whatever searchers are chosen, the result is the page of what they hold. *)
Lemma checked_search_page choose q q' req hit lo hi :
  NormalizeQuery (x_analyzers x) (x_mappings x) sort_conditions order e q = (Ok tt, q') →
  ParseQueryDSL (x_analyzers x) (x_mappings x) sort_conditions order e q' = Ok req →
  (0 ≤ q_from q ∧ 0 ≤ q_size q ∧ q_from q + q_size q ≤ MaxResults e < 2 ^ 63)%Z →
  TimeRange.Query (again (q_query q')) = Ok (lo, hi) → Forall of_index (choose lo hi) →
  let found := concat ((λ at_ : searcher_at, matching at_.1 at_.2 (r_query req)) <$> choose lo hi) in
  (∀ m, m ∈ found → visitMatchedDoc stored unmarshal format_time order_fields (x_mappings x) q' m = Ok (hit m)) →
  ∃ ms q'', checked_search cfg_err shard_name OpenReader read stored sort_less unmarshal format_time order_fields
        sort_conditions order e again pick arrival x q stats choose =
      (Ok (mkResponse (hit <$> ms) (Z.of_nat (length found))), q'') ∧
    (q_size q ≤ q_size q'')%Z ∧ is_page (sort_less (r_order req)) (Z.to_nat (q_from q)) (Z.to_nat (q_size q)) found ms.
Proof.
  intros HN HP Hpage Hrange Hof found Hhit.
  destruct (normalized_page _ _ _ _ _ _ _ HN Hpage) as [Hf Hs].
  edestruct (MultiZincSearch_page stored sort_less unmarshal format_time order_fields (x_analyzers x) (x_mappings x)
    sort_conditions order e q' q' req hit (NormalizeQuery_idem _ _ _ _ _ _ _ HN) HP ltac:(lia) pick arrival _ _
    (all_serve _ Hof)) as (ms & q'' & Hrun & Hsz & Hms).
  { intros A m HA Hm. apply list_elem_of_fmap in HA as ([s id] & -> & Hat). apply Hhit.
    apply list_elem_of_In, in_concat. eexists. split; [|by apply list_elem_of_In]. apply list_elem_of_In.
    by apply (list_elem_of_fmap_2 (λ at_ : searcher_at, matching at_.1 at_.2 (r_query req))) in Hat. }
  rewrite <-list_fmap_compose in Hrun, Hms. unfold compose in Hrun, Hms. exists ms, q''. split_and!.
  - unfold checked_search. rewrite HN, HP, Hrange. unfold run_search. by rewrite Hrun.
  - by rewrite <-Hs.
  - by rewrite Hf, Hs in Hms.
Qed.

Notation run := (SearchWithStats cfg_err shard_name OpenReader read stored sort_less unmarshal format_time order_fields
                   sort_conditions order e again pick arrival x).

End finds.

(** * Examples *)

Module SearchDemo.
Import RangeDemo.
#[local] Existing Instance range_lib.
#[local] Existing Instance range_qlib.
#[local] Existing Instance demo_bluge.

(** Documents are their times; a reader sorts what matches. *)
Definition demo_docs (s : @IndexShard (list Z)) (id : Z) : list Z :=
  match shards s !! Z.to_nat id with Some y => index y | None => [] end.
Definition earlier (o : option SortOrder) (a b : Z) : bool := (a <? b)%Z.
Definition demo_read (stats : option UnifiedStats) (s : @IndexShard (list Z)) (id : Z) : @searcher Z := λ req,
  let ms := merge_sort Z.le (matching demo_docs s id (r_query req)) in
  Ok (take (Z.to_nat (r_size req)) (drop (Z.to_nat (r_from req)) ms), None,
      Z.of_nat (length (matching demo_docs s id (r_query req)))).

#[local] Instance earlier_order o : WeakOrder (earlier o).
Proof. unfold earlier. constructor; intros; lia. Qed.

Lemma demo_serves stats s id : serves earlier (matching demo_docs s id) (demo_read stats s id).
Proof.
  intros req _ _. eexists. split; [reflexivity|]. eexists. split_and!; [apply (merge_sort_Permutation Z.le)| |reflexivity].
  assert (StronglySorted Z.le (merge_sort Z.le (matching demo_docs s id (r_query req)))) as Hs
    by (apply (StronglySorted_merge_sort Z.le)).
  induction Hs as [|a l Hs IH Ha]; constructor; [done|]. eapply Forall_impl; [exact Ha|].
  intros b Hb. unfold earlier. lia.
Qed.

Definition demo_index : @SearchIndex (list Z) := mkSearchIndex "logs" demo_timestamp ∅ [demo_second_shards].
Definition demo_query : ZincQuery := mkZincQuery between false None None (SourceJson VNil) None false 1 10.
Definition demo_renv : renv := mkRenv 100 5000 None.

Lemma demo_searchable stats :
  searchable None (λ _, "logs/0") (λ _ _ _, ReaderOpened) demo_read earlier demo_index demo_docs stats.
Proof.
  constructor.
  - intros s y _ _. left. split; [done|apply demo_serves].
  - intros s y m ->%list_elem_of_singleton Hy Hm. exists m. split; [done|].
    apply list_elem_of_In in Hy. destruct Hy as [<-|[<-|[<-|[]]]]; apply list_elem_of_In in Hm;
      destruct Hm as [<-|[<-|[]]]; cbn; lia.
  - intros s ->%list_elem_of_singleton i j x y Hij Hi Hj _.
    destruct i as [|[|[|]]], j as [|[|[|]]]; cbn in *; simplify_eq; cbn; lia.
Qed.


(** The same five documents, in one second shard and in two. *)
Definition shard_of (id : Z) (docs : list Z) : @SecondShard (list Z) := mkSecond id zero_stats docs true 0.
Definition one_shard : @SearchIndex (list Z) :=
  mkSearchIndex "logs" demo_timestamp ∅ [mkShard [shard_of 0 [100; 200; 300; 900; 1000]%Z] zero_stats].
Definition two_shards : @SearchIndex (list Z) :=
  mkSearchIndex "logs" demo_timestamp ∅ [mkShard [shard_of 0 [100; 200; 300]%Z; shard_of 1 [900; 1000]%Z] zero_stats].
Definition deep_query (from size : Z) : ZincQuery :=
  mkZincQuery (VMap [("match_all", VMap [])]) false None None (SourceJson VNil) None false from size.
Definition ids_found (x : @SearchIndex (list Z)) (from size : Z) : res (list string) :=
  r ← fst (Search None (λ _, "logs/0") (λ _ _ _, ReaderOpened) demo_read (λ m, Ok [("_id", pretty m)]) earlier
      (λ _, None) (λ _ _, "") map_order_default condition_sorter map_order_default (mkRenv 2 5000 None) (λ q, q)
      (λ _, "") shuffle_id x (deep_query from size));
  Ok (hit_id <$> r_hits r).

(** A page that ends beyond the configured maximum (here 2) is wrong once the
    index has more than one second shard: every reader is asked for the maximum
    only, so the third document of the first shard is missing and a later one
    takes its place.  One second shard with the same documents gives the right
    page, and so do two when the page ends within the maximum. *)
Theorem deep_page_skips_documents :
  ids_found one_shard 1 2 = Ok ["200"; "300"] ∧ ids_found two_shards 1 2 = Ok ["200"; "900"] ∧
  ids_found one_shard 1 1 = Ok ["200"] ∧ ids_found two_shards 1 1 = Ok ["200"].
Proof. split_and!; vm_compute; reflexivity. Qed.

Lemma fields_not_an_array_panic_witness :
  visitMatchedDoc (λ _ : Z, Ok [("_id", "a"); ("_source", "{}")]) (λ _, Some ∅) (λ _ _, "") map_order_default demo_timestamp
    (set_source (SourceParsed (mkSource true [])) (Request.set_fields (Some (FieldsJson (VStr "title"))) (deep_query 0 1))) 5%Z =
  Panic PTypeAssert.
Proof.
  apply (fields_not_an_array_panic (λ _ : Z, Ok [("_id", "a"); ("_source", "{}")]) (λ _, Some ∅) (λ _ _, "") map_order_default
           ∅ demo_timestamp condition_sorter map_order_default demo_renv
           (Request.set_fields (Some (FieldsJson (VStr "title"))) (deep_query 0 1)) _ (VStr "title") 5%Z [("_id", "a")] "{}" []);
    [vm_compute; reflexivity|reflexivity..|]. intros kv ->%list_elem_of_singleton. done.
Defined.
End SearchDemo.
