(* ===== verification/Unified.v ===== *)
(** Unified search: the handlers that merge the results of several indexes by
    score (pkg/handlers/search/search_v2.go) and the proxy that spreads a search
    over the nodes and merges again (cmd/zinc-proxy/parallel_query.go, search.go,
    utils.go). *)
From stdpp Require Import functions.
From Stdlib Require Import SpecFloat.
From S2P Require Import Prelude Hash Strconv Value Document Shards Heap Merge Query TimeRange Request Search SearchStats IndexMgr Routing IndexSearch.
Import Meta.

(** * Replies *)

(** A handler answers with a status code and an error or a body. *)
Record reply (A : Type) := Reply { r_code : Z; r_body : string + A }.
Arguments Reply {A} _ _.
Arguments r_code {A} _.
Arguments r_body {A} _.

Definition StatusOK : Z := 200.
Definition StatusBadRequest : Z := 400.
Definition StatusNotFound : Z := 404.
Definition StatusInternalServerError : Z := 500.

(** What [fetchHTTP] makes of an answer: an error the client caused keeps its
    code. *)
Inductive fetch_error := HttpClientError (msg : string) (code : Z) | FetchFailed (msg : string).

Definition fetchHTTP {A} (addr : string) (answer : string + reply A) : A + fetch_error :=
  match answer with
  | inl err => inr (FetchFailed ("failed to send request to node " +:+ addr +:+ ": " +:+ err))
  | inr r =>
      if decide (r_code r / 100 = 4)%Z then
        inr (HttpClientError ("bad response from addr: " +:+ addr +:+ ", err: " +:+
                              match r_body r with inl err => err | inr _ => "" end) (r_code r))
      else if decide (r_code r ≠ StatusOK) then inr (FetchFailed ("failed to get response from node " +:+ addr))
      else match r_body r with
           | inr a => inl a
           | inl _ => inr (FetchFailed ("failed to unmarshal response body from node " +:+ addr))
           end
  end.

(** * Merging by score *)

Section unified.
(** [Hits[i].Score > Hits[j].Score], the scores that the hits carry. *)
Context (score_gt : Hit → Hit → bool) (by_score : sorter score_gt).

(** The responses in the order in which they arrived; a slice that is cut to a
    negative length panics. *)
Definition merge_responses (size : Z) (rs : list SearchResponse) : res SearchResponse :=
  let total := foldl (λ n r, int64 (n + r_total r)) 0%Z rs in
  let hits := sort_slice by_score (concat (r_hits <$> rs)) in
  if decide (size < Z.of_nat (length hits))%Z then
    if decide (size < 0)%Z then Panic PSlice else Ok (mkResponse (take (Z.to_nat size) hits) total)
  else Ok (mkResponse hits total).

(** The goroutines of an [errgroup]: their results, or an error of one of
    them. *)
Definition gather {A E} (pick : list E → E) (outcomes : list (A + E)) : list A + E :=
  match omap (λ o, match o with inr err => Some err | inl _ => None end) outcomes with
  | [] => inl (omap (λ o, match o with inl a => Some a | inr _ => None end) outcomes)
  | errs => inr (pick errs)
  end.

(** ** A node *)

Context {W M : Type}.
Record IndexQueryRequest := mkIndexQuery { iq_index : string; iq_ids : list Z; iq_query : ZincQuery }.

Section node.
(** The search of an index with the statistics given, as [IndexSearch] defines
    it, and the collection of statistics. *)
Context (PartialSearch : @SearchIndex W → list Z → ZincQuery → UnifiedStats → res SearchResponse * ZincQuery)
  (GetQueryIndex : string → res (option (@SearchIndex W)))
  (QueryStatsInfoWithSecondShardIds : Parallel.PartialIndexes → value → res (option UnifiedStats))
  (pick : list (string + panic) → string + panic) (arrival : shuffle SearchResponse).

Definition index_error {A} (r : res A) : A + (string + panic) :=
  match r with Ok a => inl a | Err err => inr (inl err) | Panic p => inr (inr p) end.

(** [GetQueryIndex] is asked before a search is started: an index that is gone
    ends the request, while the searches started before it go on. *)
Fixpoint query_indexes (reqs : list IndexQueryRequest) : res (list (@SearchIndex W * IndexQueryRequest)) + reply SearchResponse :=
  match reqs with
  | [] => inl (Ok [])
  | r :: reqs =>
      match GetQueryIndex (iq_index r) with
      | Ok (Some x) =>
          match query_indexes reqs with
          | inl xs => inl (xs' ← xs; Ok ((x, r) :: xs'))
          | inr rep => inr rep
          end
      | Ok None => inr (Reply StatusNotFound (inl ErrIndexNotFound))
      | Err err => inr (Reply StatusInternalServerError (inl err))
      | Panic p => inl (Panic p)
      end
  end.

Definition partial_results (stats : UnifiedStats) (xs : list (@SearchIndex W * IndexQueryRequest)) : list (res SearchResponse * ZincQuery) :=
  (λ xr, PartialSearch xr.1 (iq_ids xr.2) (iq_query xr.2) stats) <$> xs.

(** The size that cuts the result is read from the first query after the
    searches have changed it. *)
Definition InternalUnifiedSearch (stats : option UnifiedStats) (reqs : list IndexQueryRequest) : res (reply SearchResponse) :=
  match reqs with
  | [] => Panic PNilDeref
  | first :: _ =>
      let stats := match stats with
                   | Some s => Ok (Some s)
                   | None => QueryStatsInfoWithSecondShardIds
                               (foldl (λ m r, <[iq_index r := iq_ids r]> m) ∅ reqs) (q_query (iq_query first))
                   end in
      match stats with
      | Panic p => Panic p
      | Err err => Ok (Reply StatusInternalServerError (inl err))
      | Ok None => Ok (Reply StatusNotFound (inl ErrIndexNotFound))
      | Ok (Some stats) =>
          match query_indexes reqs with
          | inr rep => Ok rep
          | inl xs =>
              xs ← xs;
              let results := partial_results stats xs in
              match gather pick (index_error ∘ fst <$> results) with
              | inr (inr p) => Panic p
              | inr (inl err) => Ok (Reply StatusInternalServerError (inl err))
              | inl rs =>
                  let size := match results with (_, q) :: _ => q_size q | [] => q_size (iq_query first) end in
                  r ← merge_responses size (shuf arrival rs);
                  Ok (Reply StatusOK (inr r))
              end
          end
      end
  end.
End node.

(** ** The proxy *)

Section proxy.
(** What a node answers to a search and to a request for statistics. *)
Context (ask : string → option UnifiedStats → list IndexQueryRequest → string + reply SearchResponse)
  (ask_stats : string → Parallel.PartialIndexes → value → string + reply UnifiedStats).
Context (order_nodes : map_order string Parallel.PartialIndexes) (order_queries : map_order string ZincQuery)
  (order_indexes : map_order string (list Z)) (order_terms : map_order string TermStats)
  (order_stat_fields : map_order string FieldStats).
Context (pick : list fetch_error → fetch_error) (arrival : shuffle SearchResponse) (arrival_stats : shuffle UnifiedStats).

Definition parallelGetStats (nodes : Parallel.NodeIndexMap) (query : value) : UnifiedStats + fetch_error :=
  match gather pick ((λ np, fetchHTTP np.1 (ask_stats np.1 np.2 query)) <$> range order_nodes nodes) with
  | inl ss => inl (foldl (SearchStats.Merge order_terms order_stat_fields) ∅ (shuf arrival_stats ss))
  | inr err => inr err
  end.

(** The first query of the map, whichever that is. *)
Definition first_query (queries : gmap string ZincQuery) : option ZincQuery := snd <$> head (range order_queries queries).

(** Every index of the plan was requested and has a query. *)
Definition requests (queries : gmap string ZincQuery) (p : Parallel.PartialIndexes) : list IndexQueryRequest :=
  omap (λ ids, q ← queries !! ids.1; Some (mkIndexQuery ids.1 ids.2 q)) (range order_indexes p).

Definition execParallelQueries (nodes : Parallel.NodeIndexMap) (stats : option UnifiedStats) (queries : gmap string ZincQuery)
    : res (SearchResponse + fetch_error) :=
  let results := (λ np, fetchHTTP np.1 (ask np.1 stats (requests queries np.2))) <$> range order_nodes nodes in
  match first_query queries, gather pick results with
  | None, _ => Panic PNilDeref
  | Some query, inr err => if decide (q_size query < 0)%Z then Panic PSlice else Ok (inr err)
  | Some query, inl rs => r ← merge_responses (q_size query) (shuf arrival rs); Ok (inl r)
  end.

Definition fetch_reply (err : fetch_error) : reply SearchResponse :=
  match err with
  | HttpClientError msg code => Reply code (inl msg)
  | FetchFailed _ => Reply StatusInternalServerError (inl "internal server error")
  end.

(** [calcNodeIndexMap] gives the plan; statistics are collected when more than
    one node takes part. *)
Definition processUnifiedSearch (plan : list string → res Parallel.NodeIndexMap) (indexes : list string)
    (queries : gmap string ZincQuery) : res (reply SearchResponse) :=
  match plan indexes with
  | Panic p => Panic p
  | Err err => Ok (Reply StatusBadRequest (inl err))
  | Ok nodes =>
      let stats := if decide (1 < size nodes) then
                     match first_query queries with
                     | Some query => match parallelGetStats nodes (q_query query) with inl s => inl (Some s) | inr err => inr err end
                     | None => inl None
                     end
                   else inl None in
      match stats with
      | inr err => Ok (fetch_reply err)
      | inl stats =>
          r ← execParallelQueries nodes stats queries;
          Ok match r with inl r => Reply StatusOK (inr r) | inr err => fetch_reply err end
      end
  end.

(** [SearchDSL] after the body was read; [all_names] is asked when no index is
    named. *)
Definition SearchDSL (plan : list string → res Parallel.NodeIndexMap) (all_names : res (list string)) (target : string)
    (query : ZincQuery) : res (reply SearchResponse) :=
  let names := if decide (target = "") then all_names else Ok (Split "," target) in
  match names with
  | Panic p => Panic p
  | Err err => Ok (Reply StatusInternalServerError (inl err))
  | Ok names =>
      if decide (1 < length names ∧ q_aggs query = true) then
        Ok (Reply StatusBadRequest (inl (error_new "invalid_argument" "invalid multi index aggregations")))
      else processUnifiedSearch plan names (list_to_map ((λ n, (n, query)) <$> names))
  end.
End proxy.
End unified.

(** * The handlers of a single node *)

Section handlers.
Context {W : Type}.
Context (MultiSearch : list string → ZincQuery → res SearchResponse * ZincQuery)
  (Search : @SearchIndex W → ZincQuery → res SearchResponse * ZincQuery)
  (SearchWithStats : @SearchIndex W → ZincQuery → UnifiedStats → res SearchResponse * ZincQuery)
  (AssignCheck : string → bool) (Get : string → res (option (@SearchIndex W))).

(** One plain name goes to its index, anything else to all that match. *)
Definition searchIndex (indexNames : list string) (q : ZincQuery) : res SearchResponse :=
  let indexName := default "" (head indexNames) in
  if decide (indexName = "" ∨ HasSuffix indexName "*" = true ∨ String.prefix "*" indexName = true ∨ 1 < length indexNames)
  then fst (MultiSearch indexNames q)
  else if negb (AssignCheck indexName) then Err ErrIndexServerMismatch
  else match Get indexName with
       | Ok (Some x) => fst (Search x q)
       | Ok None => Err ("index " +:+ indexName +:+ " does not exists: key not found")
       | Err err => Err ("index " +:+ indexName +:+ " does not exists: " +:+ err)
       | Panic p => Panic p
       end.

(** [multiSearchIndex]: the errors are answers too. *)
Definition multiSearchIndex (searches : list (list string * ZincQuery)) : res (list (string + SearchResponse)) :=
  foldM (λ rs s, match searchIndex s.1 s.2 with
                 | Ok r => Ok (rs ++ [inr r])
                 | Err err => Ok (rs ++ [inl err])
                 | Panic p => Panic p
                 end) [] searches.

(** [UnifiedSearch] after its request was read: indexes that cannot be loaded are
    left out. *)
Definition unified_index (stats : UnifiedStats) (nq : string * ZincQuery) : option (res SearchResponse * ZincQuery) :=
  match Get nq.1 with
  | Ok (Some x) => Some (SearchWithStats x nq.2 stats)
  | Panic p => Some (Panic p, nq.2)
  | _ => None
  end.

Definition UnifiedSearch (score_gt : Hit → Hit → bool) (by_score : sorter score_gt)
    (QueryStatsInfo : list string → value → res UnifiedStats) (pick : list (string + panic) → string + panic)
    (arrival : shuffle SearchResponse) (queries : list (string * ZincQuery)) : res (reply SearchResponse) :=
  match queries with
  | [] => Ok (Reply StatusBadRequest (inl "No index is specified."))
  | (name, query) :: _ =>
      match QueryStatsInfo queries.*1 (q_query query) with
      | Panic p => Panic p
      | Err err => Ok (Reply StatusInternalServerError (inl err))
      | Ok stats =>
          match gather pick (index_error ∘ fst <$> omap (unified_index stats) queries) with
          | inr (inr p) => Panic p
          | inr (inl err) => Ok (Reply StatusInternalServerError (inl err))
          | inl rs =>
              let size := match unified_index stats (name, query) with Some (_, q) => q_size q | None => q_size query end in
              r ← merge_responses score_gt by_score size (shuf arrival rs);
              Ok (Reply StatusOK (inr r))
          end
      end
  end.

(** [DeleteByQuery]: what it reports and the documents it deleted.  [delete] is
    [DeleteDocument] of the index of a hit, [delete_all] is [DeleteDocuments] of
    the index in the path; both tell whether they worked. *)
Record deletion := mkDeletion { d_reported : Z; d_failures : list string; d_deleted : list string }.

Definition DeleteByQuery (EnableWal : bool) (delete : string → string → bool) (delete_all : string → list string → bool)
    (indexName : string) (q : ZincQuery) : res deletion :=
  resp ← searchIndex [indexName] q;
  let ids := hit_id <$> r_hits resp in
  let '(deleted, failures) :=
    if EnableWal : bool then
      let worked := λ h, delete (hit_index h) (hit_id h) in
      (hit_id <$> filter (λ h, worked h = true) (r_hits resp), hit_id <$> filter (λ h, worked h = false) (r_hits resp))
    else if delete_all indexName ids then (ids, []) else ([], ids) in
  Ok (mkDeletion (r_total resp - Z.of_nat (length failures)) failures deleted).
End handlers.

(** Deleting by query removes the documents of one page, by default 10, and
    reports the number of all that match: of every match that is not on the page
    it says that it was deleted. *)
Theorem delete_by_query_overcounts {W} MultiSearch Search AssignCheck Get EnableWal delete delete_all indexName q d resp :
  @searchIndex W MultiSearch Search AssignCheck Get [indexName] q = Ok resp →
  DeleteByQuery MultiSearch Search AssignCheck Get EnableWal delete delete_all indexName q = Ok d →
  (d_reported d - Z.of_nat (length (d_deleted d)) = r_total resp - Z.of_nat (length (r_hits resp)))%Z.
Proof.
  unfold DeleteByQuery. intros ->. cbn. destruct EnableWal.
  - intros [= <-]. cbn. rewrite !length_fmap. enough (length (r_hits resp) =
      length (filter (λ h, delete (hit_index h) (hit_id h) = true) (r_hits resp)) +
      length (filter (λ h, delete (hit_index h) (hit_id h) = false) (r_hits resp))) by lia.
    induction (r_hits resp) as [|h hs IH]; [done|].
    destruct (delete (hit_index h) (hit_id h)) eqn:E;
      [rewrite filter_cons_True, filter_cons_False by congruence|rewrite filter_cons_False, filter_cons_True by congruence];
      cbn; lia.
  - destruct (delete_all indexName (hit_id <$> r_hits resp)); intros [= <-]; cbn; rewrite ?length_fmap; lia.
Qed.

(** * Merging keeps the best *)

Definition total_of (rs : list SearchResponse) : Z := foldr (λ r n, (r_total r + n)%Z) 0%Z rs.

Lemma foldl_total rs n : foldl (λ n r, int64 (n + r_total r)) (int64 n) rs = int64 (n + total_of rs).
Proof.
  revert n. induction rs as [|r rs IH]; intros n; cbn; [by rewrite Z.add_0_r|].
  rewrite int64_add_l, IH. f_equal. unfold total_of. lia.
Qed.

Lemma total_perm rs rs' : rs ≡ₚ rs' → total_of rs = total_of rs'.
Proof. unfold total_of. induction 1; cbn; lia. Qed.

Section merging.
Context (score_gt : Hit → Hit → bool) (by_score : sorter score_gt) {scores : WeakOrder score_gt}.

(** Sources that each give their best [n] and their number, merged and cut at
    [size]: either [size] is [n], or nothing is cut. *)
Lemma merge_responses_page n size arrival As rs :
  Forall2 (λ A r, is_page score_gt 0 n A (r_hits r) ∧ r_total r = Z.of_nat (length A)) As rs →
  (Z.of_nat (length (concat As)) < 2 ^ 63)%Z →
  size = Z.of_nat n ∨ (Z.of_nat n ≤ size)%Z ∧ length (concat (r_hits <$> rs)) ≤ n →
  ∃ hits, merge_responses score_gt by_score size (shuf arrival rs) =
      Ok (mkResponse hits (Z.of_nat (length (concat As)))) ∧ is_page score_gt 0 n (concat As) hits.
Proof.
  intros Hrs Hlen Hsize. set (H := sort_slice by_score (concat (r_hits <$> shuf arrival rs))).
  assert (H ≡ₚ concat (r_hits <$> rs)) as HH.
  { unfold H. rewrite sort_slice_perm. apply concat_perm, shuf_perm. }
  assert (total_of rs = Z.of_nat (length (concat As))) as Htot.
  { clear -Hrs. induction Hrs as [|A r As rs [_ Hr] _ IH]; [done|]. cbn. rewrite length_app. unfold total_of in IH. lia. }
  destruct (merge_tops score_gt n As (r_hits <$> rs) H) as (s & Hs & Hss & Ht).
  { clear -Hrs. apply Forall2_fmap_r. eapply Forall2_impl; [exact Hrs|]. by intros A r [? _]. }
  { apply sort_slice_sorted. }
  { done. }
  exists (take n H). split; [|exists s; by rewrite drop_0, Ht].
  pose proof (foldl_total (shuf arrival rs) 0) as Hf. change (int64 0) with 0%Z in Hf.
  unfold merge_responses. rewrite Hf, Z.add_0_l.
  rewrite (total_perm _ rs) by apply shuf_perm. rewrite Htot, int64_small by lia. fold H.
  pose proof (Permutation_length HH) as HHl. case_decide as Hcut.
  - assert (size = Z.of_nat n) as -> by lia.
    by rewrite decide_False, Nat2Z.id by lia.
  - by rewrite take_ge by lia.
Qed.
End merging.

Lemma gather_inl {A E} (pick : list E → E) (xs : list A) : gather pick (inl <$> xs) = inl xs.
Proof.
  unfold gather. assert (omap (λ o : A + E, match o with inr err => Some err | inl _ => None end) (inl <$> xs) = []) as ->.
  { by induction xs. }
  f_equal. induction xs as [|x xs IH]; [done|]. cbn. by f_equal.
Qed.

(** * A large index on many nodes *)

(** Of one index, every node of the plan gets some of its second shards. *)
Lemma assign_shards_alone index shards m nodes :
  foldM (Parallel.assign_shard index) (∅, nodes) shards = Ok m →
  ∀ a p, m.1 !! a = Some p → ∃ l, p = {[index := l]} ∧ l ≠ [].
Proof.
  intros Hm. eapply (foldM_inv (λ mn : Parallel.NodeIndexMap * Parallel.queryNodes,
    ∀ a p, mn.1 !! a = Some p → ∃ l, p = {[index := l]} ∧ l ≠ [])); [|..|exact Hm].
  - by intros a p.
  - intros [m0 n0] id [m1 n1] _ Hinv. unfold Parallel.assign_shard. destruct (Parallel.Next n0) as [[n n2]| |]; cbn; try done.
    destruct (m0 !! Proxy.addr n) as [p|] eqn:E; intros [= <- <-] a p'; cbn;
      (destruct (decide (a = Proxy.addr n)) as [->|]; [rewrite lookup_insert_eq|rewrite lookup_insert_ne by done; apply Hinv]);
      intros [= <-].
    + destruct (Hinv _ _ E) as (l & -> & _). unfold Parallel.AddSecondShardId. rewrite lookup_singleton_eq, insert_singleton_eq.
      exists (l ++ [id]). split; [done|]. by destruct l.
    + by exists [id].
Qed.

Lemma searched_range o (m : Parallel.NodeIndexMap) index :
  concat ((λ np : string * Parallel.PartialIndexes, default [] (np.2 !! index)) <$> range o m) ≡ₚ Parallel.searched (Parallel.column m index).
Proof.
  rewrite (concat_perm _ _ _ (range_perm o m)). unfold Parallel.searched, Parallel.column.
  induction m as [|a p m Ha IH] using map_ind; [done|]. rewrite (concat_perm _ _ _ (map_to_list_insert m a p Ha)). cbn.
  destruct (p !! index) as [l|] eqn:E; cbn.
  - rewrite (omap_insert_Some _ _ _ _ l) by done. rewrite map_to_list_insert by (by rewrite lookup_omap, Ha). cbn.
    by rewrite <-IH.
  - rewrite omap_insert_None, delete_id by (done || by rewrite lookup_omap, Ha). done.
Qed.

Section parallel.
Context {W M : Type} {bm : BlugeMatch M} {lib : GoLib} {qlib : QueryLib}.
Context (cfg_err : option string) (shard_name : @IndexShard W → string)
  (OpenReader : @IndexShard W → Z → nat → open_outcome) (read : option UnifiedStats → @IndexShard W → Z → @searcher M).
Context (sort_less : option SortOrder → M → M → bool) {sort_order : ∀ o, WeakOrder (sort_less o)}.
Context (stored : M → res (list (string * string))) (unmarshal : string → option (gmap string value))
  (format_time : Z → string → string) (order_fields : map_order string value)
  (sort_conditions : sorter cond_less) (order : map_order string Property) (e : renv) (again : value → value)
  (pick : list string → string) (arrival : shuffle (Hit * M)).
Context (score_gt : Hit → Hit → bool) (by_score : sorter score_gt) {scores : WeakOrder score_gt}.

(** An index with one shard, the documents of its second shards, and what a node
    does when it is asked to search some of them. *)
Context (x : @SearchIndex W) (s : @IndexShard W) (docs : @IndexShard W → Z → list M) (name : string).
Hypothesis Hx : ∀ stats, searchable cfg_err shard_name OpenReader read sort_less x docs (Some stats).
Hypothesis Hshard : x_shards x = [s].
Hypothesis Hids : ∀ i y, shards s !! i = Some y → ID y = Z.of_nat i.

Context (QueryStats : Parallel.PartialIndexes → value → res (option UnifiedStats)) (own_stats : UnifiedStats).
Hypothesis Hstats : ∀ p v, QueryStats p v = Ok (Some own_stats).
Context (node_pick : list (string + panic) → string + panic) (node_arrival : shuffle SearchResponse).
Definition node_search (stats : option UnifiedStats) (reqs : list IndexQueryRequest) : res (reply SearchResponse) :=
  InternalUnifiedSearch score_gt by_score
    (PartialSearch cfg_err shard_name OpenReader read stored sort_less unmarshal format_time order_fields sort_conditions order
       e again pick arrival)
    (λ n, Ok (if decide (n = name) then Some x else None)) QueryStats node_pick node_arrival stats reqs.

(** The query, normalized and parsed; it has no bounds on the time and is sorted
    by score. *)
Context (q q' : ZincQuery) (req : request) (hit : M → Hit).
Hypothesis Hnorm : NormalizeQuery (x_analyzers x) (x_mappings x) sort_conditions order e q = (Ok tt, q').
Hypothesis Hreq : ParseQueryDSL (x_analyzers x) (x_mappings x) sort_conditions order e q' = Ok req.
Hypothesis Hpage : (q_from q = 0 ∧ 0 ≤ q_size q ∧ q_size q ≤ MaxResults e < 2 ^ 63)%Z.
Hypothesis Hrange : TimeRange.Query (again (q_query q')) = Ok (0, 0)%Z.
Hypothesis Hscore : ∀ a b, score_gt (hit a) (hit b) = true → sort_less (r_order req) a b = true.
Hypothesis Hhit : ∀ m, m ∈ all_matching x docs (r_query req) →
  visitMatchedDoc stored unmarshal format_time order_fields (x_mappings x) q' m = Ok (hit m).
Hypothesis Hsmall : (Z.of_nat (length (all_matching x docs (r_query req))) < 2 ^ 63)%Z.

Definition found_in (id : Z) : list M := matching docs s id (r_query req).

Lemma unbounded_searchers ys : searchers_loop 0 0 ys = ID <$> (ys : list (@SecondShard W)).
Proof.
  induction ys as [|y ys IH]; [done|]. cbn [searchers_loop]. unfold out_of_range. cbn.
  assert ((0 <? DocTimeMin (stats y)) && (DocTimeMin (stats y) <? 0) = false)%Z as ->.
  { apply not_true_iff_false. rewrite andb_true_iff, !Z.ltb_lt. lia. }
  by rewrite IH.
Qed.

(** Second shards of the index are found by their number. *)
Lemma partial_searchers ids :
  (∀ id, id ∈ ids → id ∈ ID <$> shards s) → GetPartialSearchers s 0 0 ids = ids.
Proof.
  intros Hin. unfold GetPartialSearchers. rewrite unbounded_searchers. induction ids as [|id ids IH]; [done|].
  cbn. assert (id ∈ ID <$> shards s) as (y & -> & (i & Hi)%list_elem_of_lookup)%list_elem_of_fmap by (apply Hin; left).
  pose proof (Hids _ _ Hi) as Hy. rewrite decide_True by lia. rewrite Hy, Nat2Z.id, Hi. cbn. rewrite Hy. f_equal. apply IH. intros id Hid. apply Hin. by right.
Qed.

Lemma ids_of_index ids :
  ids ≠ [] → (∀ id, id ∈ ids → id ∈ ID <$> shards s) →
  GetSearchersByID x 0 0 ids = (λ id, (s, id)) <$> ids ∧ Forall (of_index x) ((λ id, (s, id)) <$> ids).
Proof.
  intros Hne Hin. unfold GetSearchersByID. rewrite decide_False, Hshard by done. cbn. rewrite app_nil_r.
  rewrite partial_searchers by done. split; [done|]. apply Forall_fmap, Forall_forall. intros id Hid.
  apply Hin, list_elem_of_fmap in Hid as (y & -> & Hy). exists y. rewrite Hshard. split_and!; [left|done..].
Qed.

Lemma all_matching_ids : all_matching x docs (r_query req) = concat (found_in <$> (ID <$> shards s)).
Proof. unfold all_matching. rewrite Hshard. cbn. by rewrite app_nil_r, <-list_fmap_compose. Qed.

(** What a node answers for some of the second shards: the best of them. *)
Lemma node_answers stats ids :
  ids ≠ [] → (∀ id, id ∈ ids → id ∈ ID <$> shards s) →
  (∀ m, m ∈ concat (found_in <$> ids) → m ∈ all_matching x docs (r_query req)) →
  (Z.of_nat (length (concat (found_in <$> ids))) < 2 ^ 63)%Z →
  ∃ r, node_search stats [mkIndexQuery name ids q] = Ok (Reply StatusOK (inr r)) ∧
    is_page score_gt 0 (Z.to_nat (q_size q)) (hit <$> concat (found_in <$> ids)) (r_hits r) ∧
    r_total r = Z.of_nat (length (hit <$> concat (found_in <$> ids))).
Proof.
  intros Hne Hin Hsub Hlen. destruct (ids_of_index ids Hne Hin) as [Hsearch Hof].
  set (st := default own_stats stats).
  destruct (checked_search_page cfg_err shard_name OpenReader read sort_less x docs (Some st) (Hx st) stored unmarshal
    format_time order_fields sort_conditions order e again pick arrival
    (λ lo hi, if decide (ids = []) then GetSearchers x lo hi else GetSearchersByID x lo hi ids) q q' req hit 0 0)
    as (ms & q'' & Hrun & Hsz & Hms); rewrite ?decide_False, ?Hsearch by done; [done|done|lia|done|done| |].
  { intros m Hm. apply Hhit, Hsub. rewrite <-list_fmap_compose in Hm. exact Hm. }
  rewrite decide_False, Hsearch in Hrun, Hms by done. rewrite <-list_fmap_compose in Hrun, Hms. unfold compose in Hrun, Hms.
  cbn [fst snd] in Hrun, Hms. change (λ id, matching docs s id (r_query req)) with found_in in Hrun, Hms.
  assert (is_page score_gt 0 (Z.to_nat (q_size q)) (hit <$> concat (found_in <$> ids)) (hit <$> ms)) as Hp.
  { destruct Hpage as [Hf _]. rewrite Hf in Hms. destruct Hms as (xs & Hxs & Hsort & ->). exists (hit <$> xs).
    split_and!; [by rewrite Hxs| |by rewrite fmap_take, fmap_drop]. apply sorted_fmap. clear -Hsort Hscore.
    induction Hsort as [|a l Hs IH Ha]; constructor; [done|]. eapply Forall_impl; [exact Ha|]. intros b Hb.
    apply not_true_iff_false. intros Hgt%Hscore. cbn in Hb. congruence. }
  destruct (merge_responses_page score_gt by_score (Z.to_nat (q_size q)) (q_size q'') node_arrival
    [hit <$> concat (found_in <$> ids)] [mkResponse (hit <$> ms) (Z.of_nat (length (concat (found_in <$> ids))))])
    as (hits & Hmerge & Hhits).
  { constructor; [|constructor]. cbn. by rewrite length_fmap. }
  { cbn. by rewrite app_nil_r, length_fmap. }
  { right. split; [lia|]. cbn. rewrite app_nil_r. destruct Hp as (? & _ & _ & ->). rewrite length_take. lia. }
  cbn in Hmerge, Hhits. rewrite app_nil_r in Hmerge, Hhits. 
  exists (mkResponse hits (Z.of_nat (length (hit <$> concat (found_in <$> ids))))). split; [|by split].
  unfold node_search, InternalUnifiedSearch. cbn [q_query iq_query].
  assert ((match stats with Some s => Ok (Some s) | None => QueryStats
    (foldl (λ m r, <[iq_index r := iq_ids r]> m) ∅ [mkIndexQuery name ids q]) (q_query q) end) = Ok (Some st)) as ->.
  { unfold st. destruct stats; [done|]. by rewrite Hstats. }
  cbn [query_indexes iq_index]. rewrite decide_True by done. cbn [mbind res_bind].
  unfold partial_results. cbn [fmap list_fmap fst snd iq_ids iq_query]. unfold PartialSearch. rewrite Hrun.
  cbn [compose index_error fst gather omap list_omap]. rewrite Hmerge. reflexivity.
Qed.

(** ** The whole search *)

Context (NodeLimit Threshold : Z) (st : Proxy.state) (ord : map_order string (list Z)) (get : string → Parallel.get_meta)
  (m : Parallel.NodeIndexMap).
Hypothesis Hmeta : get name = Parallel.Found (Parallel.mkMeta 1 {["0" := ID <$> shards s]}).
Hypothesis Hlarge : (Threshold ≤ Z.of_nat (length (shards s)))%Z.
Hypothesis Hplan : Parallel.calcNodeIndexMap NodeLimit Threshold st ord get [name] = Ok m.
Hypothesis Hnodes : Proxy.GetNodeList st ≠ [].

Lemma second_shards : concat (range ord {["0" := ID <$> shards s]}).*2 = ID <$> shards s.
Proof.
  pose proof (range_perm ord {["0" := ID <$> shards s]}) as Hp. rewrite map_to_list_singleton in Hp.
  apply Permutation_singleton_r in Hp. rewrite Hp. cbn. by rewrite app_nil_r.
Qed.

(** Every node of the plan has second shards of the index, and together they
    have all of them, each once. *)
Lemma plan_spreads :
  (∀ a p, m !! a = Some p → ∃ l, p = {[name := l]} ∧ l ≠ []) ∧
  Parallel.searched (Parallel.column m name) ≡ₚ ID <$> shards s.
Proof.
  unfold Parallel.calcNodeIndexMap in Hplan. rewrite decide_False in Hplan by done. cbn in Hplan.
  unfold Parallel.assign_index in Hplan. rewrite Hmeta in Hplan. cbn [Parallel.Shards Parallel.ShardNum] in Hplan.
  rewrite second_shards, length_fmap, decide_False in Hplan by lia.
  destruct (Parallel.getQueryNodes NodeLimit st (Proxy.GetNodeList st) name) as [nodes| |]; cbn in Hplan; try done.
  destruct (foldM (Parallel.assign_shard name) (∅, nodes) (ID <$> shards s)) as [[m' n']| |] eqn:E; cbn in Hplan; try done.
  injection Hplan as ->. split; [by apply (assign_shards_alone _ _ (m, n') _ E)|].
  apply Parallel.assign_shards_column in E as [E _]. rewrite E. unfold Parallel.column. by rewrite omap_empty.
Qed.

Context (order_nodes : map_order string Parallel.PartialIndexes) (order_queries : map_order string ZincQuery)
  (order_indexes : map_order string (list Z)) (fetch_pick : list fetch_error → fetch_error) (proxy_arrival : shuffle SearchResponse)
  (stats : option UnifiedStats) (ask : string → option UnifiedStats → list IndexQueryRequest → string + reply SearchResponse).
Hypothesis Hask : ∀ a rep reqs, node_search stats reqs = Ok rep → ask a stats reqs = inr rep.

(** The answers of the nodes, in the order of the plan. *)
Lemma nodes_answer nps :
  (∀ a p, (a, p) ∈ nps → ∃ l, p = {[name := l]} ∧ l ≠ []) →
  (∀ id, id ∈ concat ((λ np : string * Parallel.PartialIndexes, default [] (np.2 !! name)) <$> nps) → id ∈ ID <$> shards s) →
  (Z.of_nat (length (concat (found_in <$> concat ((λ np : string * Parallel.PartialIndexes, default [] (np.2 !! name)) <$> nps)))) < 2 ^ 63)%Z →
  ∃ rs, (λ np, fetchHTTP np.1 (ask np.1 stats (requests order_indexes {[name := q]} np.2))) <$> nps = inl <$> rs ∧
    Forall2 (λ A r, is_page score_gt 0 (Z.to_nat (q_size q)) A (r_hits r) ∧ r_total r = Z.of_nat (length A))
      ((λ np : string * Parallel.PartialIndexes, hit <$> concat (found_in <$> default [] (np.2 !! name))) <$> nps) rs.
Proof.
  induction nps as [|[a p] nps IH]; intros Hp Hin Hlen; [by exists []|].
  destruct IH as (rs & Hrs & Hall).
  { intros a' p' H'. eapply Hp. by right. }
  { intros id Hid. apply Hin. cbn. apply elem_of_app. by right. }
  { cbn in Hlen. rewrite fmap_app, concat_app, length_app in Hlen. lia. }
  destruct (Hp a p) as (l & -> & Hl); [left|]. cbn in Hin, Hlen. rewrite lookup_singleton_eq in Hin, Hlen. cbn in Hin, Hlen.
  destruct (node_answers stats l Hl) as (r & Hr & Hpg & Ht).
  { intros id Hid. apply Hin, elem_of_app. by left. }
  { intros d Hd. rewrite all_matching_ids. apply list_elem_of_In, in_concat in Hd as (k & Hk & Hd).
    apply list_elem_of_In, list_elem_of_fmap in Hk as (id & -> & Hid). apply list_elem_of_In, in_concat.
    eexists. split; [|exact Hd]. apply list_elem_of_In, list_elem_of_fmap_2, Hin, elem_of_app. by left. }
  { rewrite fmap_app, concat_app, length_app in Hlen. lia. }
  exists (r :: rs). cbn. rewrite Hrs. unfold requests.
  pose proof (range_perm order_indexes {[name := l]}) as Hone. rewrite map_to_list_singleton in Hone.
  apply Permutation_singleton_r in Hone. rewrite Hone. cbn. rewrite lookup_singleton_eq. cbn.
  rewrite (Hask a _ _ Hr). split; [done|]. constructor; [|done]. cbn. rewrite lookup_singleton_eq. done.
Qed.

(** C5: The first page of a search by score, spread over the nodes of a cluster. The
    search is of one index with one first-layer shard, starts at 0, has no bounds on
    the time and is sorted by score; its size is within the configured maximum and
    the nodes answer. Each node searches the second shards the plan gives it and
    cuts its answer to the best; then the merge of the answers by score is the best
    page of every matching document of the index, with their exact number, whatever
    the plan, the order of arrival and the order of equal scores. (Later pages lose
    documents: [parallel_page_loses_documents].) *)
Theorem parallel_search_finds_the_best :
  ∃ r, execParallelQueries score_gt by_score ask order_nodes order_queries order_indexes fetch_pick proxy_arrival m stats {[name := q]} =
      Ok (inl r) ∧
    r_total r = Z.of_nat (length (all_matching x docs (r_query req))) ∧
    is_page score_gt 0 (Z.to_nat (q_size q)) (hit <$> all_matching x docs (r_query req)) (r_hits r).
Proof.
  destruct plan_spreads as [Hp Hs]. pose proof (searched_range order_nodes m name) as Hsr. rewrite Hs in Hsr.
  assert (concat (found_in <$> concat ((λ np : string * Parallel.PartialIndexes, default [] (np.2 !! name)) <$> range order_nodes m)) ≡ₚ
          all_matching x docs (r_query req)) as Hall by (rewrite all_matching_ids; by apply concat_perm).
  destruct (nodes_answer (range order_nodes m)) as (rs & Hrs & Hpages).
  { intros a p Hin%range_elem. by eapply Hp. }
  { intros id. by rewrite Hsr. }
  { by rewrite (Permutation_length Hall). }
  assert (concat ((λ np : string * Parallel.PartialIndexes, hit <$> concat (found_in <$> default [] (np.2 !! name))) <$> range order_nodes m) ≡ₚ
          hit <$> all_matching x docs (r_query req)) as Hconcat.
  { rewrite <-Hall. clear. induction (range order_nodes m) as [|np l IH]; [done|]. cbn. by rewrite fmap_app, concat_app, fmap_app, IH. }
  destruct (merge_responses_page score_gt by_score (Z.to_nat (q_size q)) (q_size q) proxy_arrival _ rs Hpages) as (hits & Hm & Hhits).
  { rewrite (Permutation_length Hconcat), length_fmap. done. }
  { left. lia. }
  rewrite (Permutation_length Hconcat), length_fmap in Hm. exists (mkResponse hits (Z.of_nat (length (all_matching x docs (r_query req))))).
  split_and!; [|done|by eapply is_page_perm]. unfold execParallelQueries. rewrite Hrs, gather_inl.
  assert (first_query order_queries {[name := q]} = Some q) as ->.
  { unfold first_query. pose proof (range_perm order_queries {[name := q]}) as Hone. rewrite map_to_list_singleton in Hone.
    apply Permutation_singleton_r in Hone. by rewrite Hone. }
  by rewrite Hm.
Qed.
End parallel.

(** * Examples *)

Module UnifiedDemo.
Import RangeDemo SearchDemo.
#[local] Existing Instance range_lib.
#[local] Existing Instance range_qlib.
#[local] Existing Instance demo_bluge.
#[local] Existing Instance earlier_order.

(** Early documents score higher. *)
Definition label (m : Z) : string := if (m <? 1000)%Z then "early" else "late".
Definition score (h : Hit) : Z := if decide (hit_id h = "early") then 1 else 0.
Definition score_gt (a b : Hit) : bool := (score b <? score a)%Z.
#[local] Instance score_order : WeakOrder score_gt.
Proof. unfold score_gt. constructor; intros; lia. Qed.
Definition demo_hit (m : Z) : Hit := mkHit "" (label m) None None.

Lemma score_label m : score (demo_hit m) = if (m <? 1000)%Z then 1%Z else 0%Z.
Proof. unfold score, demo_hit, label. by destruct (m <? 1000)%Z. Qed.

Definition demo_get (index : string) : Parallel.get_meta :=
  if decide (index = "big") then Parallel.Found (Parallel.mkMeta 1 {["0" := ID <$> shards demo_second_shards]}) else Parallel.KeyNotFound.
Definition demo_plan : res Parallel.NodeIndexMap :=
  Parallel.calcNodeIndexMap 2 3 Parallel.w_state map_order_default demo_get ["big"].
Lemma demo_planned : ∃ m, demo_plan = Ok m ∧ size m = 2.
Proof.
  assert (match demo_plan with Ok m => bool_decide (size m = 2) | _ => false end = true) as H by (vm_compute; reflexivity).
  revert H. generalize demo_plan. intros [m| |] H; [|discriminate H..]. exists m. split; [done|by apply bool_decide_eq_true in H].
Qed.
Definition all_query : ZincQuery := deep_query 0 4.
Definition demo_ask (a : string) (stats : option UnifiedStats) (reqs : list IndexQueryRequest) : string + reply SearchResponse :=
  match node_search None (λ _, "logs/0") (λ _ _ _, ReaderOpened) demo_read earlier (λ m, Ok [("_id", label m)]) (λ _, None) (λ _ _, "")
          map_order_default condition_sorter map_order_default demo_renv (λ v, v) (λ _, "") shuffle_id score_gt (key_sorter score)
          demo_index "big" (λ _ _, Ok (Some ∅)) (λ _, inl "") shuffle_rev stats reqs with
  | Ok rep => inr rep
  | _ => inl "connection reset"
  end.

Lemma parallel_search_finds_the_best_witness :
  ∃ m r, demo_plan = Ok m ∧ size m = 2 ∧
    execParallelQueries score_gt (key_sorter score) demo_ask map_order_default map_order_default map_order_default
      (λ _, FetchFailed "") shuffle_rev m (Some ∅) {["big" := all_query]} = Ok (inl r) ∧
    r_total r = 6%Z ∧ is_page score_gt 0 4 (demo_hit <$> [100; 900; 900; 1500; 1500; 3000])%Z (r_hits r).
Proof.
  destruct demo_planned as (m & Hplan & Hsize).
  edestruct (parallel_search_finds_the_best None (λ _, "logs/0") (λ _ _ _, ReaderOpened) demo_read earlier (λ m, Ok [("_id", label m)])
    (λ _, None) (λ _ _, "") map_order_default condition_sorter map_order_default demo_renv (λ v, v) (λ _, "") shuffle_id
    score_gt (key_sorter score) demo_index demo_second_shards demo_docs "big" (λ st, demo_searchable (Some st)) eq_refl)
    with (QueryStats := λ (_ : Parallel.PartialIndexes) (_ : value), Ok (Some (∅ : UnifiedStats))) (own_stats := ∅ : UnifiedStats)
      (node_pick := λ _ : list (string + panic), inl "" : string + panic) (node_arrival := @shuffle_rev SearchResponse)
      (q := all_query) (q' := set_source (SourceParsed (mkSource true [])) all_query)
      (req := mkRequest QMatchAll 4 0 None false false false) (hit := demo_hit)
      (NodeLimit := 2%Z) (Threshold := 3%Z) (st := Parallel.w_state) (ord := @map_order_default string (list Z) _ _) (get := demo_get)
      (order_nodes := @map_order_default string Parallel.PartialIndexes _ _)
      (order_queries := @map_order_default string ZincQuery _ _) (order_indexes := @map_order_default string (list Z) _ _)
      (fetch_pick := λ _ : list fetch_error, FetchFailed "") (proxy_arrival := @shuffle_rev SearchResponse)
      (stats := Some (∅ : UnifiedStats)) (ask := demo_ask) as (r & Hr & Ht & Hp).
  - intros i y. destruct i as [|[|[|]]]; cbn; intros [= <-] || done; done.
  - done.
  - vm_compute. reflexivity.
  - vm_compute. reflexivity.
  - cbn. lia.
  - vm_compute. reflexivity.
  - intros a b. unfold score_gt, earlier. rewrite !score_label. destruct (a <? 1000)%Z eqn:Ea, (b <? 1000)%Z eqn:Eb; lia.
  - intros d _. reflexivity.
  - vm_compute. reflexivity.
  - reflexivity.
  - cbn. lia.
  - exact Hplan.
  - vm_compute. discriminate.
  - intros a rep reqs Hrep. unfold demo_ask. by rewrite Hrep.
  - exists m, r. split_and!; [done|done|exact Hr|exact Ht|exact Hp].
Defined.

(** A page that does not start at 0 loses documents when several nodes take
    part: every node skips [from] documents of its own, and the proxy does not ask
    for more.  Of six matching documents the page of five from position 1 comes
    back with four. *)
Theorem parallel_page_loses_documents :
  match demo_plan with
  | Ok m =>
      match execParallelQueries score_gt (key_sorter score) demo_ask map_order_default map_order_default map_order_default
              (λ _, FetchFailed "") shuffle_rev m (Some ∅) {["big" := deep_query 1 5]} with
      | Ok (inl r) => size m = 2 ∧ r_total r = 6%Z ∧ length (r_hits r) = 4
      | _ => False
      end
  | _ => False
  end.
Proof. vm_compute. split_and!; reflexivity. Qed.
End UnifiedDemo.

(** A search of all indexes panics at the proxy while there are none: no query is
    left to read the size from. *)
Theorem search_without_indexes_panics score_gt by_score ask ask_stats order_nodes order_queries order_indexes order_terms
    order_stat_fields pick arrival arrival_stats NodeLimit Threshold st ord get query :
  SearchDSL score_gt by_score ask ask_stats order_nodes order_queries order_indexes order_terms order_stat_fields pick arrival
    arrival_stats (Parallel.calcNodeIndexMap NodeLimit Threshold st ord get) (Ok []) "" query = Panic PNilDeref.
Proof.
  assert (Parallel.calcNodeIndexMap NodeLimit Threshold st ord get [] = Ok ∅) as Hplan.
  { unfold Parallel.calcNodeIndexMap. by case_decide. }
  assert (∀ {V} (o : map_order string V), range o ∅ = []) as Hr.
  { intros V o. apply Permutation_nil_r. by rewrite range_perm, map_to_list_empty. }
  unfold SearchDSL. rewrite decide_True by done. cbn. rewrite decide_False by (cbn; lia). unfold processUnifiedSearch.
  rewrite Hplan, decide_False by (rewrite map_size_empty; lia). unfold execParallelQueries, first_query. by rewrite !Hr.
Qed.
