(* ===== verification/Bulk.v ===== *)
(** Bulk requests: [BulkWorker] of pkg/handlers/document/bulk.go, which runs the
    actions of a body, and [processBody] of cmd/zinc-proxy/bulk.go, which spreads
    a body over the nodes that own its indexes. *)
From S2P Require Import Prelude Strconv Value Shards Query.

(** [m[k]]: a missing key reads as nil. *)
Definition at_key (k : string) (m : list (string * value)) : value := default VNil (assoc k m).
(** [v == ""] for a value of any type: nil is not an empty string. *)
Definition is_empty_string (v : value) : bool := match v with VStr s => bool_decide (s = "") | _ => false end.

Definition format_error : string := "bulk index data format error".
Definition write_ops : list string := ["index"; "create"; "update"].

Section bulk.
(** [json.Unmarshal] of a line into a map; null is an empty one. *)
Context (Unmarshal : string → option (list (string * value))).

(** * The proxy *)

(** [nextLineIsData], [lastLineMetaData["_index"]] and the lines of every
    index. *)
Record pstate := mkP { p_next : bool; p_last : value; p_lines : gmap string (list string) }.

Definition add_line (name text : string) (m : gmap string (list string)) : gmap string (list string) :=
  <[name := default [] (m !! name) ++ [text]]> m.

Definition proxy_meta (target text : string) (st : pstate) (kv : string * value) : res pstate :=
  match as_map kv.2 with
  | None => Err format_error
  | Some vm =>
      let index := at_key "_index" vm in
      if decide (kv.1 ∈ write_ops) then
        let last := if is_empty_string index then VStr target else index in
        if is_empty_string last then Err format_error
        else name ← assert_as as_string last; Ok (mkP true last (add_line name text (p_lines st)))
      else if decide (kv.1 = "delete") then
        name ← (if is_empty_string index then Ok target else assert_as as_string index);
        if decide (name = "") then Err format_error else Ok (mkP false VNil (add_line name text (p_lines st)))
      else Ok (mkP (p_next st) VNil (p_lines st))
  end.

(** A line that is not an object is skipped. *)
Definition proxy_line (target : string) (st : pstate) (text : string) : res pstate :=
  match Unmarshal text with
  | None => Ok st
  | Some doc =>
      if p_next st then
        name ← assert_as as_string (p_last st);
        Ok (mkP false (p_last st) (add_line name text (p_lines st)))
      else foldM (proxy_meta target text) st doc
  end.

(** The scanner ends with an error when a line is too long. *)
Definition processBody (order : map_order string (list string)) (GetAddrByIndex : string → res string) (target : string)
    (body : list string) (scan_err : option string) : res (gmap string (list string)) :=
  st ← foldM (proxy_line target) (mkP false VNil ∅) body;
  match scan_err with
  | Some err => Err err
  | None => foldM (λ m il, addr ← GetAddrByIndex il.1; Ok (<[addr := default [] (m !! addr) ++ il.2]> m)) ∅
                  (range order (p_lines st))
  end.

(** * The node *)

(** The id of a document: given, or made by [ider.Generate]. *)
Inductive docid := Given (id : string) | Generated.

Record doc_op := mkOp { o_id : docid; o_doc : list (string * value); o_update : bool }.

(** The calls on the index manager and on indexes. *)
Inductive call :=
  | CGetOrCreate (name : string)
  | CCreate (name : string) (op : doc_op)
  | CDelete (name id : string)
  | CCreates (name : string) (ops : list doc_op)
  | CDeletes (name : string) (ids : list string).

(** An entry of [BulkResponse.Items]: the operation, the number that is added to
    the global sequence number, the document, its result and error. *)
Record item := mkItem { i_op : string; i_seq : Z; i_index : string; i_id : docid; i_result : string; i_err : option string }.

Record wstate := mkW {
  w_next : bool; w_index : value; w_op : value; w_id : value;
  w_calls : list call; w_dels : gmap string (list string); w_docs : gmap string (list doc_op);
  w_count : Z; w_items : list item
}.
Definition winit : wstate := mkW false VNil VNil VNil [] ∅ ∅ 0 [].

(** [answer] is the error of a call, given the calls before it. *)
Context (answer : list call → call → option string) (EnableWal : bool).

Definition perform (c : call) : M wstate (option string) := λ st,
  (Ok (answer (w_calls st) c),
   mkW (w_next st) (w_index st) (w_op st) (w_id st) (w_calls st ++ [c]) (w_dels st) (w_docs st) (w_count st) (w_items st)).

Definition must (c : call) : M wstate unit :=
  err ← perform c; match err with Some err => raise err | None => mret tt end.

Definition set_next (b : bool) (st : wstate) : wstate :=
  mkW b (w_index st) (w_op st) (w_id st) (w_calls st) (w_dels st) (w_docs st) (w_count st) (w_items st).
Definition set_last (index op id : value) (st : wstate) : wstate :=
  mkW (w_next st) index op id (w_calls st) (w_dels st) (w_docs st) (w_count st) (w_items st).
(** [bulkRes.Count++] and an item with the new count. *)
Definition add_item (op index : string) (id : docid) (result : string) (err : option string) (st : wstate) : wstate :=
  mkW (w_next st) (w_index st) (w_op st) (w_id st) (w_calls st) (w_dels st) (w_docs st) (w_count st + 1)
    (w_items st ++ [mkItem op (w_count st + 1) index id result err]).
Definition add_count (st : wstate) : wstate :=
  mkW (w_next st) (w_index st) (w_op st) (w_id st) (w_calls st) (w_dels st) (w_docs st) (w_count st + 1) (w_items st).
Definition add_doc (name : string) (op : doc_op) (st : wstate) : wstate :=
  mkW (w_next st) (w_index st) (w_op st) (w_id st) (w_calls st) (w_dels st)
    (<[name := default [] (w_docs st !! name) ++ [op]]> (w_docs st)) (w_count st) (w_items st).
Definition add_del (name id : string) (st : wstate) : wstate :=
  mkW (w_next st) (w_index st) (w_op st) (w_id st) (w_calls st)
    (<[name := default [] (w_dels st !! name) ++ [id]]> (w_dels st)) (w_docs st) (w_count st) (w_items st).

(** A value that is nil is replaced by the target of the path, if there is one. *)
Definition or_target (v : value) (target : string) (d : string) : value :=
  match v with VNil => if decide (target ≠ "") then VStr d else VNil | _ => v end.

Definition data_line (target : string) (doc : list (string * value)) : M wstate unit :=
  _ ← modify (set_next false);
  st ← get;
  given ← lift match w_id st with VNil => Ok "" | v => assert_as as_string v end;
  let op := mkOp (if decide (given = "") then Generated else Given given) doc (bool_decide (given ≠ "")) in
  let operation := or_target (w_op st) target "create" in
  name ← lift (assert_as as_string (or_target (w_index st) target target));
  if EnableWal then
    operation ← lift (assert_as as_string operation);
    _ ← modify (if decide (operation = "index" ∨ operation = "create") then add_item "index" name (o_id op) "created" None
                else if decide (operation = "update") then add_item "index" name (o_id op) "updated" None
                else add_count);
    _ ← must (CGetOrCreate name);
    must (CCreate name op)
  else modify (add_doc name op).

Definition meta_entry (target : string) (kv : string * value) : M wstate unit :=
  match as_map kv.2 with
  | None => raise format_error
  | Some vm =>
      _ ← modify (set_last VNil VNil VNil);
      let index := at_key "_index" vm in
      if decide (kv.1 ∈ write_ops) then
        _ ← modify (set_next true);
        let last := if is_empty_string index then VStr target else index in
        if is_empty_string last then raise format_error
        else modify (set_last last (VStr kv.1) (at_key "_id" vm))
      else if decide (kv.1 = "delete") then
        _ ← modify (set_next false);
        id ← lift (assert_as as_string (at_key "_id" vm));
        name ← lift (if is_empty_string index then Ok target else assert_as as_string index);
        if decide (name = "") then raise format_error
        else if EnableWal then
          _ ← must (CGetOrCreate name);
          err ← perform (CDelete name id);
          modify (add_item "delete" name (Given id) "deleted" err)
        else modify (add_del name id)
      else modify (set_last (VStr target) (VStr "index") VNil)
  end.

Definition bulk_line (target : string) (text : string) : M wstate unit :=
  match Unmarshal text with
  | None => mret tt
  | Some doc => st ← get; if w_next st then data_line target doc else forM (meta_entry target) doc
  end.

(** Without the log the deletions and the documents of the body are applied at
    its end, index by index. *)
Definition apply_dels (dl : string * list string) : M wstate unit :=
  _ ← must (CGetOrCreate dl.1);
  _ ← modify (λ st, foldl (λ st id, add_item "delete" dl.1 (Given id) "deleted" None st) st dl.2);
  must (CDeletes dl.1 dl.2).
Definition apply_docs (dl : string * list doc_op) : M wstate unit :=
  _ ← must (CGetOrCreate dl.1);
  _ ← modify (λ st, foldl (λ st op, add_item "index" dl.1 (o_id op) (if o_update op then "updated" else "created") None st) st dl.2);
  must (CCreates dl.1 dl.2).

Definition BulkWorker (order_dels : map_order string (list string)) (order_docs : map_order string (list doc_op))
    (target : string) (body : list string) (scan_err : option string) : M wstate unit :=
  _ ← forM (bulk_line target) body;
  match scan_err with
  | Some err => raise err
  | None =>
      if EnableWal then mret tt else
      st ← get;
      _ ← forM apply_dels (range order_dels (w_dels st));
      forM apply_docs (range order_docs (w_docs st))
  end.
End bulk.

(** * Well-formed bodies *)

Section actions.
Context (Unmarshal : string → option (list (string * value))).

(** An action of a body: its lines and what they say. *)
Inductive action :=
  | AWrite (op name : string) (id : docid) (doc : list (string * value)) (meta_line doc_line : string)
  | ADelete (name id : string) (meta_line : string).

Definition a_name (a : action) : string := match a with AWrite _ n _ _ _ _ | ADelete n _ _ => n end.
Definition a_lines (a : action) : list string := match a with AWrite _ _ _ _ m d => [m; d] | ADelete _ _ m => [m] end.
Definition body_of (acts : list action) : list string := concat (a_lines <$> acts).

(** The metadata names an index; a document has an id that is not empty or no
    id. *)
Definition action_ok (a : action) : Prop :=
  match a with
  | AWrite op name id doc m d =>
      op ∈ write_ops ∧ name ≠ "" ∧ Unmarshal d = Some doc ∧
      ∃ vm, Unmarshal m = Some [(op, VMap vm)] ∧ assoc "_index" vm = Some (VStr name) ∧
        match id with Given i => i ≠ "" ∧ assoc "_id" vm = Some (VStr i) | Generated => assoc "_id" vm = None end
  | ADelete name id m =>
      name ≠ "" ∧ ∃ vm, Unmarshal m = Some [("delete", VMap vm)] ∧ assoc "_index" vm = Some (VStr name) ∧
        assoc "_id" vm = Some (VStr id)
  end.

Definition op_of (id : docid) (doc : list (string * value)) : doc_op :=
  mkOp id doc match id with Given _ => true | Generated => false end.

(** The calls of an action, in the order the node makes them. *)
Definition a_calls (a : action) : list call :=
  match a with
  | AWrite _ name id doc _ _ => [CGetOrCreate name; CCreate name (op_of id doc)]
  | ADelete name id _ => [CGetOrCreate name; CDelete name id]
  end.
Definition calls_of (acts : list action) : list call := concat (a_calls <$> acts).

(** ** What the proxy collects *)

Lemma write_not_delete op : op ∈ write_ops → op ≠ "delete".
Proof. intros Hop ->. revert Hop. apply (bool_decide_unpack _). vm_compute. exact I. Qed.

Lemma lookup_add_line name text m n :
  default [] (add_line name text m !! n) = default [] (m !! n) ++ (if decide (n = name) then [text] else []).
Proof.
  unfold add_line. case_decide as H; [subst; by rewrite lookup_insert_eq|].
  by rewrite lookup_insert_ne, app_nil_r.
Qed.

Lemma proxy_action target v m a :
  action_ok a →
  ∃ v' m', foldM (proxy_line Unmarshal target) (mkP false v m) (a_lines a) = Ok (mkP false v' m') ∧
    (∀ n, default [] (m' !! n) = default [] (m !! n) ++ (if decide (n = a_name a) then a_lines a else [])) ∧
    ∀ n, is_Some (m' !! n) ↔ is_Some (m !! n) ∨ n = a_name a.
Proof.
  assert (∀ name text m n, is_Some (add_line name text m !! n) ↔ is_Some (m !! n) ∨ n = name) as Hdom.
  { intros name text m0 n. unfold add_line. destruct (decide (n = name)) as [->|]; [rewrite lookup_insert_eq|rewrite lookup_insert_ne by done];
      split; eauto; naive_solver. }
  destruct a as [op name id doc ml dl|name id ml]; cbn.
  - intros (Hop & Hn & Hd & vm & Hm & Hi & _). exists (VStr name), (add_line name dl (add_line name ml m)).
    assert (proxy_line Unmarshal target (mkP false v m) ml = Ok (mkP true (VStr name) (add_line name ml m))) as ->.
    { unfold proxy_line. rewrite Hm. cbn. unfold proxy_meta. cbn. rewrite decide_True by done.
      unfold at_key. rewrite Hi. cbn. rewrite bool_decide_eq_false_2 by done. cbn. by rewrite bool_decide_eq_false_2 by done. }
    cbn. unfold proxy_line. rewrite Hd. cbn. split_and!; [done| |].
    + intros n. rewrite !lookup_add_line. case_decide; [by rewrite <-app_assoc|by rewrite !app_nil_r].
    + intros n. rewrite !Hdom. naive_solver.
  - intros (Hn & vm & Hm & Hi & _). exists VNil, (add_line name ml m).
    unfold proxy_line. rewrite Hm. cbn. unfold proxy_meta. cbn. rewrite (decide_False (P := "delete" ∈ write_ops)), decide_True.
    2:{ done. } 2:{ by intros ?%write_not_delete. }
    unfold at_key. rewrite Hi. cbn. rewrite bool_decide_eq_false_2 by done. cbn. rewrite decide_False by done.
    split_and!; [done|intros n; apply lookup_add_line|intros n; apply Hdom].
Qed.

Lemma proxy_body target acts : ∀ v m,
  Forall action_ok acts →
  ∃ v' m', foldM (proxy_line Unmarshal target) (mkP false v m) (body_of acts) = Ok (mkP false v' m') ∧
    (∀ n, default [] (m' !! n) = default [] (m !! n) ++ body_of (filter (λ a, a_name a = n) acts)) ∧
    ∀ n, is_Some (m' !! n) ↔ is_Some (m !! n) ∨ n ∈ a_name <$> acts.
Proof.
  induction acts as [|a acts IH]; intros v m Hok.
  { exists v, m. cbn. split_and!; [done|intros; by rewrite app_nil_r|set_solver]. }
  apply Forall_cons in Hok as [Ha Hok]. destruct (proxy_action target v m a Ha) as (v1 & m1 & H1 & Hl1 & Hd1).
  destruct (IH v1 m1 Hok) as (v2 & m2 & H2 & Hl2 & Hd2). exists v2, m2. split_and!.
  - unfold body_of. cbn. rewrite foldM_app, H1. exact H2.
  - intros n. rewrite Hl2, Hl1, filter_cons, <-app_assoc. f_equal.
    rewrite (decide_ext (a_name a = n) (n = a_name a)) by (split; congruence). by case_decide.
  - intros n. rewrite Hd2, Hd1. cbn. set_solver.
Qed.

(** ** What a node does *)

Context (answer : list call → call → option string).
Hypothesis Hworks : ∀ cs c, answer cs c = None.

(** The document after its metadata. *)
Lemma node_document target name op idv id doc cs ds os ct its :
  match id with Given i => i ≠ "" ∧ idv = VStr i | Generated => idv = VNil end →
  ∃ st', data_line answer true target doc (mkW true (VStr name) (VStr op) idv cs ds os ct its) = (Ok tt, st') ∧
    w_next st' = false ∧ w_calls st' = cs ++ [CGetOrCreate name; CCreate name (op_of id doc)].
Proof.
  intros Hid. destruct id as [i|]; [destruct Hid as [Hne ->]|subst idv];
    (eexists; split_and!;
      [unfold data_line, mbind, M_bind; cbn; unfold must, perform, mbind, M_bind; cbn; repeat (rewrite Hworks; cbn); reflexivity
      |repeat case_decide; reflexivity|]).
  - unfold op_of. rewrite (decide_False (P := i = "")), bool_decide_eq_true_2 by done.
    repeat case_decide; cbn; by rewrite <-app_assoc.
  - repeat case_decide; cbn; by rewrite <-app_assoc.
Qed.

Lemma node_action target a st :
  action_ok a → w_next st = false →
  ∃ st', forM (bulk_line Unmarshal answer true target) (a_lines a) st = (Ok tt, st') ∧ w_next st' = false ∧
    w_calls st' = w_calls st ++ a_calls a.
Proof.
  destruct st as [nx ix op0 id0 cs ds os ct its]. cbn [w_next]. intros Ha ->.
  destruct a as [op name id doc ml dl|name id ml]; cbn in Ha.
  - destruct Ha as (Hop & Hn & Hd & vm & Hm & Hi & Hid).
    assert (bulk_line Unmarshal answer true target ml (mkW false ix op0 id0 cs ds os ct its) =
            (Ok tt, mkW true (VStr name) (VStr op) (at_key "_id" vm) cs ds os ct its)) as H1.
    { unfold bulk_line. rewrite Hm. unfold mbind, M_bind. cbn. unfold meta_entry. cbn.
      rewrite decide_True by done. unfold mbind, M_bind. cbn.
      assert (at_key "_index" vm = VStr name) as -> by (unfold at_key; by rewrite Hi). cbn. rewrite bool_decide_eq_false_2 by done. cbn.
      by rewrite bool_decide_eq_false_2 by done. }
    destruct (node_document target name op (at_key "_id" vm) id doc cs ds os ct its) as (st' & H2 & Hnx & Hcs).
    { unfold at_key. destruct id as [i|]; [destruct Hid as [Hne ->]|rewrite Hid]; done. }
    exists st'. split_and!; [|done|done]. cbn [a_lines forM]. unfold mbind, M_bind. rewrite H1.
    unfold bulk_line. rewrite Hd. unfold mbind, M_bind. cbn [get w_next]. by rewrite H2.
  - destruct Ha as (Hn & vm & Hm & Hi & Hid). eexists. split_and!.
    + cbn [a_lines forM]. unfold mbind at 1, M_bind at 1. unfold bulk_line. rewrite Hm. unfold mbind, M_bind. cbn. unfold meta_entry. cbn.
      rewrite (decide_False (P := "delete" ∈ write_ops)) by (by intros ?%write_not_delete).
      rewrite (decide_True (P := "delete" = "delete")) by done. unfold mbind, M_bind. cbn.
      assert (at_key "_id" vm = VStr id) as -> by (unfold at_key; by rewrite Hid). cbn.
      assert (at_key "_index" vm = VStr name) as -> by (unfold at_key; by rewrite Hi). cbn.
      rewrite bool_decide_eq_false_2 by done. cbn. rewrite (decide_False (P := name = "")) by done.
      unfold must, perform, mbind, M_bind. cbn. repeat (rewrite Hworks; cbn). reflexivity.
    + reflexivity.
    + cbn. by rewrite <-app_assoc.
Qed.

Lemma forM_app {St A} (f : A → M St unit) xs ys s :
  forM f (xs ++ ys) s = (match forM f xs s with (Ok _, s') => forM f ys s' | r => r end).
Proof.
  revert s. induction xs as [|x xs IH]; intros s; [done|]. cbn. unfold mbind, M_bind. destruct (f x s) as [[]]; [apply IH|done..].
Qed.

Lemma node_body target acts : ∀ st,
  Forall action_ok acts → w_next st = false →
  ∃ st', forM (bulk_line Unmarshal answer true target) (body_of acts) st = (Ok tt, st') ∧ w_next st' = false ∧
    w_calls st' = w_calls st ++ calls_of acts.
Proof.
  induction acts as [|a acts IH]; intros st Hok Hst.
  { exists st. cbn. by rewrite app_nil_r. }
  apply Forall_cons in Hok as [Ha Hok]. destruct (node_action target a st Ha Hst) as (st1 & H1 & Hn1 & Hc1).
  destruct (IH st1 Hok Hn1) as (st2 & H2 & Hn2 & Hc2). exists st2. split_and!; [|done|].
  - unfold body_of. cbn [fmap list_fmap concat]. rewrite forM_app, H1. exact H2.
  - rewrite Hc2, Hc1. unfold calls_of. cbn. by rewrite <-app_assoc.
Qed.

Lemma BulkWorker_calls order_dels order_docs target acts :
  Forall action_ok acts →
  ∃ st', BulkWorker Unmarshal answer true order_dels order_docs target (body_of acts) None winit = (Ok tt, st') ∧
    w_calls st' = calls_of acts.
Proof.
  intros Hok. destruct (node_body target acts winit Hok eq_refl) as (st' & H & _ & Hc). exists st'. split; [|done].
  unfold BulkWorker, mbind, M_bind. rewrite H. done.
Qed.
End actions.

(** * The nodes do what one node would *)

Definition call_name (c : call) : string :=
  match c with CGetOrCreate n | CCreate n _ | CDelete n _ | CCreates n _ | CDeletes n _ => n end.
Definition calls_on (n : string) (cs : list call) : list call := filter (λ c, call_name c = n) cs.

Lemma a_calls_name a c : c ∈ a_calls a → call_name c = a_name a.
Proof. destruct a; cbn; rewrite !elem_of_cons, elem_of_nil; naive_solver. Qed.

Lemma calls_on_of n acts : calls_on n (calls_of acts) = calls_of (filter (λ a, a_name a = n) acts).
Proof.
  unfold calls_on, calls_of. induction acts as [|a acts IH]; [done|]. cbn [fmap list_fmap concat]. rewrite filter_app, IH, filter_cons.
  case_decide as Ha; cbn [fmap list_fmap concat]; [f_equal|].
  - by destruct a; cbn [a_calls a_name] in *; subst; rewrite !filter_cons_True by done.
  - by destruct a; cbn [a_calls a_name] in *; rewrite !filter_cons_False by done.
Qed.

(** The lists of a map, grouped by where their key goes. *)
Lemma grouped (GetAddr : string → res string) (addr : string → string) (ils : list (string * list string)) : ∀ m : gmap string (list string),
  (∀ i l, (i, l) ∈ ils → GetAddr i = Ok (addr i)) →
  ∃ m', foldM (λ m il, a ← GetAddr il.1; Ok (<[a := default [] (m !! a) ++ il.2]> m)) m ils = Ok m' ∧
    (∀ a, default [] (m' !! a) = default [] (m !! a) ++ concat ((λ il : string * list string, if decide (addr il.1 = a) then il.2 else []) <$> ils)) ∧
    (∀ a, is_Some (m !! a) → is_Some (m' !! a)) ∧ ∀ i, i ∈ ils.*1 → is_Some (m' !! addr i).
Proof.
  induction ils as [|[i l] ils IH]; intros m Hg; cbn.
  { exists m. split_and!; [done|intros; by rewrite app_nil_r|done|by intros i ?%elem_of_nil]. }
  rewrite (Hg i l) by left. cbn.
  destruct (IH (<[addr i := default [] (m !! addr i) ++ l]> m)) as (m' & Hm' & Hl & Hk & Hs); [intros; eapply Hg; by right|].
  exists m'. split_and!; [done| | |].
  - intros a. rewrite Hl. destruct (decide (addr i = a)) as [<-|Ha].
    + rewrite lookup_insert_eq. cbn. by rewrite <-app_assoc.
    + by rewrite lookup_insert_ne.
  - intros a Ha. apply Hk. destruct (decide (addr i = a)) as [<-|]; [by rewrite lookup_insert_eq|by rewrite lookup_insert_ne].
  - intros j [->|Hj]%elem_of_cons; [|by apply Hs]. apply Hk. by rewrite lookup_insert_eq.
Qed.

Lemma concat_only {A} (ns : list string) (n : string) (l : list A) :
  NoDup ns → n ∈ ns → concat ((λ k, if decide (k = n) then l else []) <$> ns) = l.
Proof.
  intros Hnd Hn. apply list_elem_of_split in Hn as (l1 & l2 & ->). apply NoDup_app in Hnd as (_ & Hd & [Hd2 _]%NoDup_cons).
  rewrite fmap_app, concat_app. cbn. rewrite decide_True by done.
  assert (∀ ks, n ∉ ks → concat ((λ k, if decide (k = n) then l else []) <$> ks) = []) as Hnil.
  { induction ks as [|k ks IH]; intros Hk; [done|]. cbn. rewrite decide_False by set_solver. apply IH. set_solver. }
  rewrite !Hnil; [by rewrite app_nil_r|done|set_solver].
Qed.

Section split.
Context (Unmarshal : string → option (list (string * value))) (GetAddr : string → res string) (addr : string → string)
  (order : map_order string (list string)) (target : string) (acts : list action).
Hypothesis Hok : Forall (action_ok Unmarshal) acts.
Hypothesis Haddr : ∀ a, a ∈ acts → GetAddr (a_name a) = Ok (addr (a_name a)).

(** The actions a node gets: those of its indexes, index by index. *)
Definition acts_at (ns : list string) (a : string) : list action :=
  concat ((λ n, if decide (addr n = a) then filter (λ x, a_name x = n) acts else []) <$> ns).

Lemma processBody_splits :
  ∃ m ns, processBody Unmarshal order GetAddr target (body_of acts) None = Ok m ∧ NoDup ns ∧
    (∀ n, n ∈ ns ↔ n ∈ a_name <$> acts) ∧ ∀ n, n ∈ ns → m !! addr n = Some (body_of (acts_at ns (addr n))).
Proof.
  destruct (proxy_body Unmarshal target acts VNil ∅ Hok) as (v & m & Hf & Hl & Hd).
  assert (∀ n, n ∈ (range order m).*1 ↔ n ∈ a_name <$> acts) as Hns.
  { intros n. rewrite list_elem_of_fmap. split.
    - intros ([n' l] & -> & Hin%range_elem). assert (is_Some (m !! n')) as Hs by eauto. apply Hd in Hs as [Hs|Hs]; [|done].
      rewrite lookup_empty in Hs. by destruct Hs.
    - intros Hn. destruct (proj2 (Hd n) (or_intror Hn)) as [l Hm]. exists (n, l). by rewrite range_elem. }
  destruct (grouped GetAddr addr (range order m) ∅) as (m' & Hm' & Hl' & _ & Hs').
  { intros i l Hin%(list_elem_of_fmap_2 fst)%Hns. cbn in Hin. apply list_elem_of_fmap in Hin as (a & -> & Ha). by apply Haddr. }
  exists m', (range order m).*1. split_and!; [by unfold processBody; rewrite Hf|apply range_nodup|done|].
  intros n Hn. destruct (Hs' n Hn) as [lines Hlines]. specialize (Hl' (addr n)). rewrite Hlines in Hl' |- *. rewrite lookup_empty in Hl'. cbn in Hl'. rewrite Hl'.
  f_equal. unfold acts_at, body_of. clear -Hl.
  assert (∀ i l, (i, l) ∈ range order m → l = body_of (filter (λ x, a_name x = i) acts)) as Heq.
  { intros i l Hin%range_elem. specialize (Hl i). rewrite Hin in Hl. done. }
  clear Hl. induction (range order m) as [|[i l] ils IH]; [done|]. cbn. rewrite fmap_app, concat_app, <-IH by (intros; apply Heq; by right).
  f_equal. case_decide; [|done]. rewrite (Heq i l) by left. done.
Qed.

Lemma acts_at_ok ns a : Forall (action_ok Unmarshal) (acts_at ns a).
Proof.
  apply Forall_forall. intros x Hx. apply list_elem_of_In, in_concat in Hx as (l & Hl & Hx).
  apply list_elem_of_In, list_elem_of_fmap in Hl as (n & -> & _). case_decide; [|by apply list_elem_of_In, elem_of_nil in Hx].
  apply list_elem_of_In, list_elem_of_filter in Hx as [_ Hx]. by eapply Forall_forall in Hok.
Qed.

Lemma acts_at_own ns n :
  NoDup ns → n ∈ ns → filter (λ x, a_name x = n) (acts_at ns (addr n)) = filter (λ x, a_name x = n) acts.
Proof.
  intros Hnd Hn. rewrite <-(concat_only ns n (filter (λ x, a_name x = n) acts)) by done.
  unfold acts_at. clear Hnd Hn. induction ns as [|k ns IH]; [done|]. cbn. rewrite filter_app, IH. f_equal.
  destruct (decide (k = n)) as [->|Hk].
  - rewrite decide_True by done. clear. induction acts as [|a l IHl]; [done|]. rewrite !filter_cons.
    case_decide; [|apply IHl]. rewrite filter_cons_True by done. by f_equal.
  - case_decide; [|done]. apply filter_none. intros x [-> _]%list_elem_of_filter. congruence.
Qed.

(** C10: A bulk request of which every action names its index, all calls succeed and
    the log is enabled makes the same calls through the proxy as on a single node:
    the node that owns an index gets lines from which it makes exactly the calls on
    the index that a node with the whole body would make, in the same order, and no
    calls on indexes of other nodes. (When a call fails a single node stops, while
    the other nodes of a cluster go on.) *)
Theorem bulk_split_same_calls answer order_dels order_docs n :
  (∀ cs c, answer cs c = None) → n ∈ a_name <$> acts →
  ∃ m lines st whole,
    processBody Unmarshal order GetAddr target (body_of acts) None = Ok m ∧ m !! addr n = Some lines ∧
    BulkWorker Unmarshal answer true order_dels order_docs target lines None winit = (Ok tt, st) ∧
    BulkWorker Unmarshal answer true order_dels order_docs target (body_of acts) None winit = (Ok tt, whole) ∧
    calls_on n (w_calls st) = calls_on n (w_calls whole) ∧ ∀ c, c ∈ w_calls st → addr (call_name c) = addr n.
Proof.
  intros Hans Hn. destruct processBody_splits as (m & ns & Hm & Hnd & Hns & Hlines).
  destruct (BulkWorker_calls Unmarshal answer Hans order_dels order_docs target _ (acts_at_ok ns (addr n))) as (st & Hst & Hcs).
  destruct (BulkWorker_calls Unmarshal answer Hans order_dels order_docs target _ Hok) as (whole & Hw & Hcw).
  exists m, (body_of (acts_at ns (addr n))), st, whole. apply Hns in Hn. split_and!; [done|by apply Hlines|done|done| |].
  - by rewrite Hcs, Hcw, !calls_on_of, acts_at_own.
  - rewrite Hcs. intros c Hc. unfold calls_of in Hc. apply list_elem_of_In, in_concat in Hc as (l & Hl & Hc).
    apply list_elem_of_In, list_elem_of_fmap in Hl as (a & -> & Ha). apply list_elem_of_In, a_calls_name in Hc as ->.
    apply list_elem_of_In, in_concat in Ha as (l & Hl & Ha). apply list_elem_of_In, list_elem_of_fmap in Hl as (k & -> & _).
    case_decide as Hk; [|by apply list_elem_of_In, elem_of_nil in Ha].
    apply list_elem_of_In, list_elem_of_filter in Ha as [-> _]. done.
Qed.
End split.

(** * Where bulk requests go wrong *)

(** Metadata without [_index] makes the proxy panic, even when the path names
    an index: the code takes nil for a given name, since nil differs from the empty
    string, and asserts that it is a string. *)
Theorem bulk_without_index_panics Unmarshal order GetAddr target text k vm rest scan_err :
  Unmarshal text = Some [(k, VMap vm)] → k ∈ write_ops ∨ k = "delete" → assoc "_index" vm = None →
  processBody Unmarshal order GetAddr target (text :: rest) scan_err = Panic PTypeAssert.
Proof.
  intros Hu Hk Hi. unfold processBody. cbn [foldM].
  enough (proxy_line Unmarshal target (mkP false VNil ∅) text = Panic PTypeAssert) as -> by done.
  unfold proxy_line. rewrite Hu. cbn. unfold proxy_meta, at_key. cbn. rewrite Hi. cbn.
  case_decide; [done|]. destruct Hk as [Hk| ->]; [done|]. by rewrite decide_True.
Qed.

(** So does a deletion on a node. *)
Theorem delete_without_index_panics Unmarshal answer EnableWal order_dels order_docs target text vm id rest scan_err :
  Unmarshal text = Some [("delete", VMap vm)] → assoc "_index" vm = None → assoc "_id" vm = Some (VStr id) →
  fst (BulkWorker Unmarshal answer EnableWal order_dels order_docs target (text :: rest) scan_err winit) = Panic PTypeAssert.
Proof.
  intros Hu Hi Hid. unfold BulkWorker, mbind, M_bind. cbn [forM].
  enough (bulk_line Unmarshal answer EnableWal target text winit = (Panic PTypeAssert, winit)) as Hp.
  { unfold mbind, M_bind. by rewrite Hp. }
  unfold bulk_line. rewrite Hu. unfold mbind, M_bind. cbn. unfold meta_entry. cbn.
  rewrite decide_False by (by intros ?%write_not_delete). rewrite decide_True by done. unfold mbind, M_bind. cbn.
  unfold at_key. by rewrite Hid, Hi.
Qed.

Module BulkDemo.
Definition named (index id : string) : value := VMap [("_index", VStr index); ("_id", VStr id)].
Definition demo_line (text : string) : option (list (string * value)) :=
  if decide (text = "index logs a") then Some [("index", named "logs" "a")]
  else if decide (text = "delete logs a") then Some [("delete", named "logs" "a")]
  else if decide (text = "create users") then Some [("create", VMap [("_index", VStr "users")])]
  else if decide (text = "index") then Some [("index", VMap [("_id", VStr "a")])]
  else if decide (text = "doc") then Some [("title", VStr "go")]
  else None.
Definition run_bulk (wal : bool) (body : list string) : res unit * list call :=
  let '(r, st) := BulkWorker demo_line (λ _ _, None) wal map_order_default map_order_default "" body None winit in (r, w_calls st).

Definition doc_a : doc_op := mkOp (Given "a") [("title", VStr "go")] true.

(** Without the log, all deletions of a body run before its documents are
    written: a document that is indexed and then deleted in one request is still
    there at the end.  With the log the calls keep the order of the body. *)
Theorem bulk_without_log_reorders :
  let body := ["index logs a"; "doc"; "delete logs a"] in
  run_bulk true body = (Ok tt, [CGetOrCreate "logs"; CCreate "logs" doc_a; CGetOrCreate "logs"; CDelete "logs" "a"]) ∧
  run_bulk false body = (Ok tt, [CGetOrCreate "logs"; CDeletes "logs" ["a"]; CGetOrCreate "logs"; CCreates "logs" [doc_a]]).
Proof. split; vm_compute; reflexivity. Qed.

(** A document that is not valid JSON is skipped without its metadata: the next
    metadata line is stored as its document. *)
Theorem bad_document_shifts_the_body :
  run_bulk true ["create users"; "{"; "delete logs a"] =
  (Ok tt, [CGetOrCreate "users"; CCreate "users" (mkOp Generated [("delete", named "logs" "a")] false)]).
Proof. vm_compute. reflexivity. Qed.

Definition demo_addr (n : string) : string := if decide (n = "users") then "http://b" else "http://a".
Definition demo_acts : list action :=
  [AWrite "index" "logs" (Given "a") [("title", VStr "go")] "index logs a" "doc";
   AWrite "create" "users" Generated [("title", VStr "go")] "create users" "doc";
   ADelete "logs" "a" "delete logs a"].

Lemma bulk_split_same_calls_witness :
  ∃ m lines st whole,
    processBody demo_line map_order_default (λ n, Ok (demo_addr n)) "" (body_of demo_acts) None = Ok m ∧
    m !! demo_addr "logs" = Some lines ∧
    BulkWorker demo_line (λ _ _, None) true map_order_default map_order_default "" lines None winit = (Ok tt, st) ∧
    BulkWorker demo_line (λ _ _, None) true map_order_default map_order_default "" (body_of demo_acts) None winit = (Ok tt, whole) ∧
    calls_on "logs" (w_calls st) = calls_on "logs" (w_calls whole) ∧ ∀ c, c ∈ w_calls st → demo_addr (call_name c) = demo_addr "logs".
Proof.
  apply (bulk_split_same_calls demo_line (λ n, Ok (demo_addr n)) demo_addr map_order_default "" demo_acts).
  - constructor; [|constructor; [|constructor; [|constructor]]]; cbn.
    + split_and!; [left|done|vm_compute; reflexivity|]. exists [("_index", VStr "logs"); ("_id", VStr "a")].
      split_and!; vm_compute; (reflexivity || discriminate).
    + split_and!; [right; left|done|vm_compute; reflexivity|]. exists [("_index", VStr "users")].
      split_and!; vm_compute; reflexivity.
    + split; [done|]. exists [("_index", VStr "logs"); ("_id", VStr "a")]. split_and!; vm_compute; reflexivity.
  - done.
  - done.
  - apply (bool_decide_unpack _). vm_compute. exact I.
Defined.

Lemma bulk_without_index_panics_witness :
  processBody demo_line map_order_default (λ n, Ok (demo_addr n)) "logs" ["index"; "doc"] None = Panic PTypeAssert.
Proof.
  apply (bulk_without_index_panics demo_line map_order_default (λ n, Ok (demo_addr n)) "logs" "index" "index" [("_id", VStr "a")]);
    [vm_compute; reflexivity|left; left|reflexivity].
Defined.
End BulkDemo.
