(* ===== verification/MSearch.v ===== *)
(** Several searches in one request: [MultipleSearch] of
    pkg/handlers/search/search_v2.go and [MultiSearch] of
    cmd/zinc-proxy/search.go, which asks the node of every index and puts the
    answers back in order. *)
From S2P Require Import Prelude Strconv Value Query Request IndexSearch Unified.

(** * Appending to the lists of a map *)

Section append.
Context {V : Type}.
Implicit Types (m : gmap string (list V)).

Definition append_at (k : string) (l : list V) (m : gmap string (list V)) : gmap string (list V) :=
  <[k := default [] (m !! k) ++ l]> m.

(** The entries of the lists with their keys. *)
Definition entries (kls : list (string * list V)) : list (string * V) := concat ((λ kl : string * list V, (λ x : V, (kl.1, x)) <$> kl.2) <$> kls).

Lemma entries_perm kls kls' : kls ≡ₚ kls' → entries kls ≡ₚ entries kls'.
Proof.
  unfold entries. induction 1; cbn; [done|by f_equiv| |by etrans]. by rewrite !app_assoc, (Permutation_app_comm (_ <$> y.2)).
Qed.

Lemma append_entries k l m : entries (map_to_list (append_at k l m)) ≡ₚ entries (map_to_list m) ++ ((λ x, (k, x)) <$> l).
Proof.
  unfold append_at. destruct (m !! k) as [l0|] eqn:E; cbn.
  - rewrite <-(insert_delete_id m k l0 E) at 2. rewrite <-insert_delete_eq.
    rewrite !(entries_perm _ _ (map_to_list_insert _ _ _ (lookup_delete_eq m k))). unfold entries. cbn.
    rewrite fmap_app, <-!app_assoc. f_equiv. apply Permutation_app_comm.
  - rewrite (entries_perm _ _ (map_to_list_insert _ _ _ E)). unfold entries. cbn. apply Permutation_app_comm.
Qed.
End append.

(** * Reading the request *)

Section msearch.
(** [json.Unmarshal] of a header and of a query. *)
Context (Unmarshal : string → option (gmap string value)) (ParseQuery : string → string + ZincQuery).

(** [nextLineIsData], the names of the last header, and the map the headers are
    read into, which is never emptied: entries of earlier headers stay. *)
Record mstate := mkM { m_next : bool; m_names : list string; m_doc : gmap string value }.

(** What the lines ask for: a query on some indexes, or one that cannot be
    read. *)
Inductive asked := Asked (names : list string) (q : ZincQuery) | Unreadable (err : string).

Definition header_names (default_names : list string) (doc : gmap string value) : res (list string) :=
  match doc !! "index" with
  | None => Ok default_names
  | Some (VStr s) => Ok [s]
  | Some (VArr vs) => foldM (λ ns v, s ← assert_as as_string v; Ok (ns ++ [s])) [] vs
  | Some _ => Ok []
  end.

Definition msearch_line (default_names : list string) (st : mstate * list asked) (text : string) : res (mstate * list asked) :=
  let '(m, out) := st in
  if m_next m then
    Ok (mkM false (m_names m) (m_doc m),
        out ++ [match ParseQuery text with inr q => Asked (m_names m) q | inl err => Unreadable err end])
  else
    match Unmarshal text with
    | None => Ok (mkM true [] (m_doc m), out)
    | Some entries =>
        let doc := entries ∪ m_doc m in
        names ← header_names default_names doc;
        Ok (mkM true names doc, out)
    end.

Definition read_msearch (target : string) (body : list string) : res (list asked) :=
  '(_, out) ← foldM (msearch_line (if decide (target = "") then [] else Split "," target)) (mkM false [] ∅, []) body;
  Ok out.

(** * The node *)

(** [MultipleSearch]: the errors of queries that cannot be read come first. *)
Definition MultipleSearch {R} (searchIndex : list string → ZincQuery → R) (failed : string → R) (target : string) (body : list string) : res (list R) :=
  asks ← read_msearch target body;
  Ok (omap (λ a, match a with Unreadable err => Some (failed err) | _ => None end) asks ++
      omap (λ a, match a with Asked names q => Some (searchIndex names q) | _ => None end) asks).

(** * The proxy *)

Section proxy.
Context {R : Type} (GetAddr : string → res string)
  (ask : string → list (string * ZincQuery) → list R + fetch_error)
  (order_indexes : map_order string (list (Z * ZincQuery))) (order_addrs : map_order string (list string))
  (pick : list fetch_error → fetch_error) (arrival : shuffle (list (Z * R))) (by_order : sorter (λ a b : Z * R, (a.1 <? b.1)%Z)).

(** The queries that can be read, numbered from 1. *)
Definition numbered (asks : list asked) : list (Z * (list string * ZincQuery)) :=
  imap (λ i a, (Z.of_nat i + 1, a)%Z)
    (omap (λ a, match a with Asked names q => Some (names, q) | _ => None end) asks).

Definition index_queries (es : list (Z * (list string * ZincQuery))) : gmap string (list (Z * ZincQuery)) :=
  foldl (λ m e, foldl (λ m name, append_at name [(e.1, e.2.2)] m) m e.2.1) ∅ es.

(** The indexes of every node. *)
Definition addr_indexes (indexes : list string) : res (gmap string (list string)) :=
  foldM (λ m index, addr ← GetAddr index; Ok (append_at addr [index] m)) ∅ indexes.

(** The request to a node, with the number of every query. *)
Definition node_queries (queries : gmap string (list (Z * ZincQuery))) (indexes : list string) : list (Z * (string * ZincQuery)) :=
  concat ((λ index, (λ oq, (oq.1, (index, oq.2))) <$> default [] (queries !! index)) <$> indexes).

(** Answers are matched with the queries by position. *)
Definition with_orders (orders : list Z) (rs : list R) : list (Z * R) := imap (λ i r, (default 0%Z (orders !! i), r)) rs.

Definition MultiSearch (target : string) (body : list string) : res (list (Z * R) + fetch_error) :=
  asks ← read_msearch target body;
  let queries := index_queries (numbered asks) in
  addrs ← addr_indexes (range order_indexes queries).*1;
  Ok match gather pick ((λ ai : string * list string, let qs := node_queries queries ai.2 in
                           match ask ai.1 qs.*2 with inl rs => inl (with_orders qs.*1 rs) | inr err => inr err end)
                        <$> range order_addrs addrs) with
     | inl rss => inl (sort_slice by_order (concat (shuf arrival rss)))
     | inr err => inr err
     end.
End proxy.
End msearch.

(** * Answers come back in order *)

Lemma fmap_concat {A B} (f : A → B) (ls : list (list A)) : f <$> concat ls = concat ((λ l : list A, f <$> l) <$> ls).
Proof. induction ls as [|l ls IH]; [done|]. cbn. by rewrite fmap_app, IH. Qed.

Lemma entries_values {V} (kls : list (string * list V)) : (entries kls).*2 = concat kls.*2.
Proof.
  induction kls as [|[k l] kls IH]; [done|]. unfold entries. cbn. rewrite fmap_app. f_equal; [|exact IH].
  rewrite <-list_fmap_compose. apply list_fmap_id.
Qed.

Lemma with_orders_fmap {R X} (f : X → R) (qs : list (Z * X)) : with_orders qs.*1 (f <$> qs.*2) = (λ oq, (oq.1, f oq.2)) <$> qs.
Proof.
  unfold with_orders. apply list_eq. intros i. rewrite list_lookup_imap, !list_lookup_fmap.
  destruct (qs !! i) as [[o x]|]; done.
Qed.

(** A list sorted by distinct numbers is the only arrangement that is. *)
Lemma sorted_numbers {A} (l l0 : list (Z * A)) :
  StronglySorted (λ a b, (b.1 <? a.1)%Z = false) l → StronglySorted (λ a b, (a.1 < b.1)%Z) l0 → l ≡ₚ l0 → l = l0.
Proof.
  intros Hl Hl0. revert l Hl. induction Hl0 as [|x l0 Hs IH Hx]; intros l Hl Hp; [by apply Permutation_nil_r|].
  destruct l as [|y l]; [by apply Permutation_nil_l in Hp|]. apply StronglySorted_inv in Hl as [Hl Hy].
  rewrite Forall_forall in Hx. rewrite Forall_forall in Hy.
  assert (y = x) as ->.
  { assert (y ∈ x :: l0) as [->|Hin]%elem_of_cons by (rewrite <-Hp; left); [done|]. exfalso.
    assert (x ∈ y :: l) as [->|Hx']%elem_of_cons by (rewrite Hp; left); [specialize (Hx _ Hin); lia|].
    specialize (Hx _ Hin). specialize (Hy _ Hx'). lia. }
  f_equal. apply IH; [done|]. by eapply Permutation_cons_inv.
Qed.

Section in_order.
Context (Unmarshal : string → option (gmap string value)) (ParseQuery : string → string + ZincQuery).
Context {R : Type} (GetAddr : string → res string) (addr : string → string) (f : string → ZincQuery → R)
  (ask : string → list (string * ZincQuery) → list R + fetch_error)
  (order_indexes : map_order string (list (Z * ZincQuery))) (order_addrs : map_order string (list string))
  (pick : list fetch_error → fetch_error) (arrival : shuffle (list (Z * R))) (by_order : sorter (λ a b : Z * R, (a.1 <? b.1)%Z)).
Hypothesis Hask : ∀ a qs, ask a qs = inl ((λ nq, f nq.1 nq.2) <$> qs).
Hypothesis Haddr : ∀ n, GetAddr n = Ok (addr n).

Lemma index_queries_entries es :
  entries (map_to_list (index_queries es)) ≡ₚ concat ((λ e : Z * (list string * ZincQuery), (λ n : string, (n, (e.1, e.2.2))) <$> e.2.1) <$> es).
Proof.
  unfold index_queries. induction es as [|[o [names q]] es IH] using rev_ind; [done|].
  rewrite foldl_snoc, fmap_app, concat_app. cbn. rewrite app_nil_r, <-IH.
  generalize (foldl (λ m e, foldl (λ m name, append_at name [(e.1, e.2.2)] m) m e.2.1) (∅ : gmap string (list (Z * ZincQuery))) es). intros m.
  clear IH. revert m. induction names as [|n names IH]; intros m; cbn; [by rewrite app_nil_r|].
  rewrite IH, append_entries. cbn. by rewrite <-app_assoc.
Qed.

Lemma addr_indexes_all ixs :
  ∃ m, addr_indexes GetAddr ixs = Ok m ∧ concat (map_to_list m).*2 ≡ₚ ixs.
Proof.
  unfold addr_indexes. enough (∀ m0, ∃ m, foldM (λ m index, a ← GetAddr index; Ok (append_at a [index] m)) m0 ixs = Ok m ∧
    concat (map_to_list m).*2 ≡ₚ concat (map_to_list m0).*2 ++ ixs) as H by (destruct (H ∅) as (m & Hm & Hp); by exists m).
  induction ixs as [|i ixs IH]; intros m0; cbn; [exists m0; by rewrite app_nil_r|].
  rewrite Haddr. cbn. destruct (IH (append_at (addr i) [i] m0)) as (m & Hm & Hp). exists m. split; [done|].
  rewrite Hp, <-!entries_values, append_entries, fmap_app. cbn. by rewrite <-app_assoc.
Qed.

Lemma node_queries_entries (m : gmap string (list (Z * ZincQuery))) kls :
  (∀ n l, (n, l) ∈ kls → m !! n = Some l) → node_queries m kls.*1 = (λ e, (e.2.1, (e.1, e.2.2))) <$> entries kls.
Proof.
  unfold node_queries, entries. induction kls as [|[n l] kls IH]; intros Hin; [done|]. cbn. rewrite (Hin n l) by left. cbn.
  rewrite fmap_app, IH by (intros; apply Hin; by right). f_equal. by rewrite <-list_fmap_compose.
Qed.

Definition answered (oq : Z * (string * ZincQuery)) : Z * R := (oq.1, f oq.2.1 oq.2.2).

(** Every query is answered once for each of its indexes, and the answers are
    sorted by the number of the query. *)
Lemma MultiSearch_answers target body asks :
  read_msearch Unmarshal ParseQuery target body = Ok asks →
  ∃ rs, MultiSearch Unmarshal ParseQuery GetAddr ask order_indexes order_addrs pick arrival by_order target body = Ok (inl rs) ∧
    StronglySorted (λ a b, (b.1 <? a.1)%Z = false) rs ∧
    rs ≡ₚ concat ((λ e : Z * (list string * ZincQuery), (λ n : string, (e.1, f n e.2.2)) <$> e.2.1) <$> numbered asks).
Proof.
  intros Hread. unfold MultiSearch. rewrite Hread. cbn [mbind res_bind]. set (es := numbered asks). set (m := index_queries es).
  destruct (addr_indexes_all (range order_indexes m).*1) as (am & Ham & Hconcat). rewrite Ham. cbn [mbind res_bind].
  set (rss := (λ ai : string * list string, answered <$> node_queries m ai.2) <$> range order_addrs am).
  match goal with |- context [gather pick ?l] => assert (l = inl <$> rss) as -> end.
  { unfold rss. rewrite <-list_fmap_compose. apply list_fmap_ext. intros i [a ixs] _. cbn. rewrite Hask.
    by rewrite (with_orders_fmap (λ nq : string * ZincQuery, f nq.1 nq.2)). }
  rewrite gather_inl. eexists. split; [reflexivity|]. split; [apply sort_slice_sorted|].
  pose proof (concat_perm id _ _ (shuf_perm arrival rss)) as Harr. rewrite !list_fmap_id in Harr.
  rewrite sort_slice_perm, Harr. unfold rss.
  assert (concat ((λ ai : string * list string, answered <$> node_queries m ai.2) <$> range order_addrs am) =
          answered <$> node_queries m (concat (range order_addrs am).*2)) as ->.
  { unfold node_queries. clear. induction (range order_addrs am) as [|[a ixs] l IH]; [done|]. cbn.
    by rewrite IH, fmap_app, concat_app, fmap_app. }
  assert (node_queries m (concat (range order_addrs am).*2) ≡ₚ node_queries m (range order_indexes m).*1) as ->.
  { apply concat_perm. rewrite <-Hconcat. rewrite <-!entries_values. apply fmap_Permutation, entries_perm, range_perm. }
  assert (node_queries m (range order_indexes m).*1 = (λ e, (e.2.1, (e.1, e.2.2))) <$> entries (range order_indexes m)) as ->.
  { apply node_queries_entries. intros n l. by rewrite range_elem. }
  rewrite (entries_perm _ _ (range_perm order_indexes m)). unfold m. rewrite index_queries_entries.
  rewrite !fmap_concat, <-!list_fmap_compose. apply reflexive_eq. f_equal. apply list_fmap_ext. intros i e _. cbn.
  by rewrite <-!list_fmap_compose.
Qed.

(** The numbers grow. *)
Lemma numbered_sorted {A} (xs : list A) n : StronglySorted (λ a b, (a.1 < b.1)%Z) (imap (λ i a, (Z.of_nat (n + i) + 1, a)%Z) xs).
Proof.
  revert n. induction xs as [|x xs IH]; intros n; cbn; constructor.
  - specialize (IH (S n)). erewrite imap_ext; [exact IH|]. intros i a _. cbn. f_equal. lia.
  - apply Forall_forall. intros [o a] (i & y & -> & _)%elem_of_lookup_imap. cbn. lia.
Qed.

Lemma numbered_single asks : ∀ k,
  (∀ names q, Asked names q ∈ asks → length names = 1) →
  concat ((λ e : Z * (list string * ZincQuery), (λ n : string, (e.1, f n e.2.2)) <$> e.2.1) <$>
    imap (λ i a, (Z.of_nat (k + i) + 1, a)%Z) (omap (λ a, match a with Asked names q => Some (names, q) | _ => None end) asks)) =
  imap (λ i nq, (Z.of_nat (k + i) + 1, f nq.1 nq.2)%Z) (omap (λ a, match a with Asked [n] q => Some (n, q) | _ => None end) asks).
Proof.
  induction asks as [|a l IH]; intros k Hone; [done|].
  assert (∀ names q, Asked names q ∈ l → length names = 1) as Hl by (intros names q Hin; eapply Hone; by right).
  destruct a as [names q|err]; cbn; [|by apply IH].
  assert (length names = 1) as Hn by (eapply Hone; left). destruct names as [|n [|]]; try done. cbn. f_equal.
  specialize (IH (S k) Hl). etrans; [|etrans; [exact IH|]].
  - do 2 f_equal. apply imap_ext. intros i x _. cbn. do 2 f_equal. lia.
  - apply imap_ext. intros i x _. cbn. do 2 f_equal. lia.
Qed.

(** C36: The proxy puts the answers of several searches into the order in which they
    were asked, although it asks the nodes index by index and in parallel, when
    every query that is read names exactly one index and every node answers all its
    queries, in order and without an error: the result is the list of the answers,
    one for each query; a query that cannot be read has none. Holds for every order
    of the maps, of arrival and of equal numbers. (A node whose queries fail answers
    out of order: [msearch_errors_come_first].) *)
Theorem msearch_answers_in_order target body asks :
  read_msearch Unmarshal ParseQuery target body = Ok asks →
  (∀ names q, Asked names q ∈ asks → length names = 1) →
  ∃ rs, MultiSearch Unmarshal ParseQuery GetAddr ask order_indexes order_addrs pick arrival by_order target body = Ok (inl rs) ∧
    rs.*2 = omap (λ a, match a with Asked [n] q => Some (f n q) | _ => None end) asks.
Proof.
  intros Hread Hone. destruct (MultiSearch_answers target body asks Hread) as (rs & Hrs & Hs & Hp). exists rs. split; [done|].
  set (qs := omap (λ a, match a with Asked [n] q => Some (n, q) | _ => None end) asks).
  assert (concat ((λ e : Z * (list string * ZincQuery), (λ n : string, (e.1, f n e.2.2)) <$> e.2.1) <$> numbered asks) =
          imap (λ i nq, (Z.of_nat (0 + i) + 1, f nq.1 nq.2)%Z) qs) as Heq.
  { exact (numbered_single asks 0 Hone). }
  rewrite Heq in Hp. apply sorted_numbers in Hp as ->; [|done|].
  - rewrite fmap_imap. unfold qs. clear. induction asks as [|a l IH]; [done|]. destruct a as [[|n [|]] q|]; cbn; try exact IH. f_equal.
    exact IH.
  - pose proof (numbered_sorted ((λ nq : string * ZincQuery, f nq.1 nq.2) <$> qs) 0) as H. rewrite imap_fmap in H. exact H.
Qed.
End in_order.

(** * Examples *)

Module MSearchDemo.
Definition header (text : string) : option (gmap string value) :=
  if decide (text = "{index: logs}") then Some {["index" := VStr "logs"]}
  else if decide (text = "{index: users}") then Some {["index" := VStr "users"]}
  else if decide (text = "{}") then Some ∅ else None.
Definition sized (n : Z) : ZincQuery := mkZincQuery VNil false None None (SourceJson VNil) None false 0 n.
Definition query (text : string) : string + ZincQuery :=
  if decide (text = "{size: 1}") then inr (sized 1) else if decide (text = "{size: 2}") then inr (sized 2) else inl "invalid character".
Definition demo_ask (a : string) (qs : list (string * ZincQuery)) : list (string * Z) + fetch_error :=
  inl ((λ nq, (nq.1, q_size nq.2)) <$> qs).
Program Definition order_sorter : sorter (λ a b : Z * (string * Z), (a.1 <? b.1)%Z) :=
  Sorter (sort_slice (key_sorter (λ a : Z * (string * Z), (- a.1)%Z))) (sort_slice_perm _) _.
Next Obligation.
  intros l. pose proof (sort_slice_sorted (key_sorter (λ a : Z * (string * Z), (- a.1)%Z)) l) as Hs.
  revert Hs. generalize (sort_slice (key_sorter (λ a : Z * (string * Z), (- a.1)%Z)) l). clear l. intros l Hs.
  induction Hs as [|a l Hs IH Ha]; constructor; [done|]. eapply Forall_impl; [exact Ha|]. cbn. intros b Hb. lia.
Qed.

Lemma msearch_answers_in_order_witness :
  ∃ rs, MultiSearch header query (λ n, Ok (n +:+ ".node")) demo_ask map_order_default map_order_rev (λ _, FetchFailed "") shuffle_rev
      order_sorter "" ["{index: users}"; "{size: 1}"; "{index: logs}"; "{size: 2}"; "{index: users}"; "{size: 2}"] = Ok (inl rs) ∧
    rs.*2 = [("users", 1); ("logs", 2); ("users", 2)]%Z.
Proof.
  apply (msearch_answers_in_order header query (λ n, Ok (n +:+ ".node")) (λ n, n +:+ ".node") (λ n q, (n, q_size q)) demo_ask
           map_order_default map_order_rev (λ _, FetchFailed "") shuffle_rev order_sorter (λ a qs, eq_refl) (λ n, eq_refl) ""
           ["{index: users}"; "{size: 1}"; "{index: logs}"; "{size: 2}"; "{index: users}"; "{size: 2}"]
           [Asked ["users"] (sized 1); Asked ["logs"] (sized 2); Asked ["users"] (sized 2)]).
  - vm_compute. reflexivity.
  - intros names q Hin. apply list_elem_of_In in Hin. destruct Hin as [[= <- <-]|[[= <- <-]|[[= <- <-]|[]]]]; reflexivity.
Defined.

(** A header without an index takes the index of an earlier header instead of
    the one in the path: the map the headers are decoded into is never emptied, and
    decoding keeps the entries it has.  The second search of the request on
    [users] goes to [logs]. *)
Theorem msearch_reuses_header :
  read_msearch header query "users" ["{index: logs}"; "{size: 1}"; "{}"; "{size: 2}"] =
    Ok [Asked ["logs"] (sized 1); Asked ["logs"] (sized 2)] ∧
  read_msearch header query "users" ["{}"; "{size: 2}"] = Ok [Asked ["users"] (sized 2)].
Proof. split; vm_compute; reflexivity. Qed.

(** On a node, a query that cannot be read is answered before all others. *)
Theorem msearch_errors_come_first :
  MultipleSearch header query (λ names q, inr (names, q_size q)) (λ err, inl err) ""
    ["{index: logs}"; "{size: 1}"; "{index: users}"; "oops"] = Ok [inl "invalid character"; inr (["logs"], 1%Z)].
Proof. vm_compute. reflexivity. Qed.
End MSearchDemo.
