(* ===== verification/Regexp.v ===== *)
(** The part of Go's [regexp] that the wildcards of aliases and templates are
    turned into: literal characters, [.], [.*], the class of index names with
    [+], and [$] at the end.  Any other syntax is left to an argument. *)
From Stdlib Require Import Ascii.
From stdpp Require Import strings.
From S2P Require Import Prelude.

Notation chars := (list ascii).
Definition to_chars : string → chars := String.list_ascii_of_string.
Definition of_chars : chars → string := String.string_of_list_ascii.

(** * Expressions *)

(** A character with a property, or any number of them. *)
Inductive atom := One (p : ascii → bool) | Many (p : ascii → bool).
Record regex := mkRegex { r_atoms : list atom; r_eot : bool }.

(** Whether a prefix of the text, or with [eot] all of it, matches. *)
Fixpoint match_here (eot : bool) (r : list atom) (s : chars) : bool :=
  match r with
  | [] => if eot then bool_decide (s = []) else true
  | One p :: r => match s with c :: s => p c && match_here eot r s | [] => false end
  | Many p :: r =>
      (fix many (s : chars) : bool :=
         match_here eot r s || match s with c :: s => p c && many s | [] => false end) s
  end.

Fixpoint suffixes (s : chars) : list chars := s :: match s with c :: s => suffixes s | [] => [] end.

(** [re.MatchString]: the expression may match anywhere. *)
Definition MatchString (re : regex) (s : string) : bool :=
  existsb (match_here (r_eot re) (r_atoms re)) (suffixes (to_chars s)).

(** * Syntax *)

Definition is_name_char (c : ascii) : bool :=
  let n := nat_of_ascii c in
  bool_decide (97 ≤ n ≤ 122) || bool_decide (65 ≤ n ≤ 90) || bool_decide (48 ≤ n ≤ 57)
  || bool_decide (c ∈ to_chars "_.-").

(** [.] without the flag [s]. *)
Definition is_any (c : ascii) : bool := bool_decide (c ≠ "010"%char).

Definition is_repeat (c : ascii) : bool := bool_decide (c ∈ to_chars "*+?{").
Definition is_literal (c : ascii) : bool :=
  bool_decide (nat_of_ascii c < 128) && bool_decide (c ∉ to_chars "\.+*?()|[]{}^$").

Definition name_class : chars := to_chars "[a-zA-Z0-9_.-]+".
Definition ascii_class : chars := to_chars "[[:ascii:]]+".
Definition is_ascii (c : ascii) : bool := bool_decide (nat_of_ascii c < 128).

(** No repetition follows. *)
Definition single (s : chars) : bool := match s with c :: _ => negb (is_repeat c) | [] => true end.

(** A token and the rest of the pattern. *)
Definition token (s : chars) : option (list atom * chars) :=
  if decide (take (length name_class) s = name_class) then
    let s := drop (length name_class) s in
    if single s then Some ([One is_name_char; Many is_name_char], s) else None
  else if decide (take (length ascii_class) s = ascii_class) then
    let s := drop (length ascii_class) s in
    if single s then Some ([One is_ascii; Many is_ascii], s) else None
  else
    match s with
    | [] => None
    | c :: s =>
        if decide (c = "."%char) then
          match s with
          | d :: s' => if decide (d = "*"%char) then if single s' then Some ([Many is_any], s') else None
                       else if single s then Some ([One is_any], s) else None
          | [] => Some ([One is_any], [])
          end
        else if is_literal c && single s then Some ([One (λ d, bool_decide (d = c))], s) else None
    end.

Fixpoint parse (fuel : nat) (s : chars) : option regex :=
  match fuel with
  | O => None
  | S fuel =>
      if decide (s = []) then Some (mkRegex [] false)
      else if decide (s = to_chars "$") then Some (mkRegex [] true)
      else '(t, s) ← token s; re ← parse fuel s; Some (mkRegex (t ++ r_atoms re) (r_eot re))
  end.

(** [regexp.Compile]. *)
Definition Compile (other : string → option (string → bool)) (pattern : string) : option (string → bool) :=
  match parse (S (String.length pattern)) (to_chars pattern) with
  | Some re => Some (MatchString re)
  | None => other pattern
  end.

(** * What a match means *)

Inductive matches : list atom → chars → Prop :=
  | matches_nil : matches [] []
  | matches_one p r c s : p c = true → matches r s → matches (One p :: r) (c :: s)
  | matches_many p r t s : Forall (λ c, p c = true) t → matches r s → matches (Many p :: r) (t ++ s).
#[export] Hint Constructors matches : sea.

Lemma match_here_spec eot r : ∀ s,
  match_here eot r s = true ↔ ∃ t u, s = t ++ u ∧ matches r t ∧ (eot = true → u = []).
Proof.
  induction r as [|[p|p] r IH]; intros s; cbn [match_here].
  - split.
    + intros Hs. exists [], s. destruct eot; [apply bool_decide_eq_true in Hs|]; split_and!; eauto with sea; done.
    + intros (t & u & -> & Hm & Hu). inversion Hm; subst. destruct eot; [rewrite Hu by done; done|done].
  - split.
    + destruct s as [|c s]; [done|]. intros [Hp (t & u & -> & Hm & Hu)%IH]%andb_true_iff.
      exists (c :: t), u. split_and!; eauto with sea.
    + intros (t & u & -> & Hm & Hu). inversion Hm as [|? ? c s Hp Hm'|]; subst; cbn.
      rewrite Hp. apply IH. eauto.
  - induction s as [|c s IHs]; split.
    + intros [(t & u & Hs & Hm & Hu)%IH|]%orb_true_iff; [|done].
      exists t, u. split_and!; [done| |done]. by apply (matches_many p r []).
    + intros (t & u & Hs & Hm & Hu). symmetry in Hs. apply app_eq_nil in Hs as [-> ->].
      apply orb_true_iff. left. apply IH. inversion Hm as [| |? ? t' s' Hp Hm' HA Hts]; subst.
      apply app_eq_nil in Hts as [-> ->]. by exists [], [].
    + intros [(t & u & Hs & Hm & Hu)%IH|[Hp (t & u & -> & Hm & Hu)%IHs]%andb_true_iff]%orb_true_iff.
      * exists t, u. split_and!; [done| |done]. by apply (matches_many p r []).
      * inversion Hm as [| |? ? t' s' Ht Hm']; subst. exists (c :: t' ++ s'), u. split_and!; [done| |done].
        by apply (matches_many p r (c :: t')); [constructor|].
    + intros (t & u & Hs & Hm & Hu). inversion Hm as [| |? ? t' s' Hp Hm']; subst. apply orb_true_iff.
      destruct t' as [|c' t'].
      * left. apply IH. exists s', u. done.
      * right. cbn in Hs. injection Hs as <- ->. apply Forall_cons in Hp as [-> Hp]. apply IHs.
        exists (t' ++ s'), u. split_and!; [done| |done]. by constructor.
Qed.

Lemma elem_of_suffixes t s : t ∈ suffixes s ↔ ∃ a, s = a ++ t.
Proof.
  induction s as [|c s IH]; cbn; rewrite elem_of_cons.
  - split.
    + intros [->|?%elem_of_nil]; [by exists []|done].
    + intros [a Ha]. symmetry in Ha. apply app_eq_nil in Ha as [_ ->]. by left.
  - rewrite IH. split.
    + intros [->|[a ->]]; [by exists []|by exists (c :: a)].
    + intros [[|c' a] Ha]; cbn in Ha; [by left|]. injection Ha as <- ->. right. by exists a.
Qed.

Lemma MatchString_spec re s :
  MatchString re s = true ↔
  ∃ a t u, to_chars s = a ++ t ++ u ∧ matches (r_atoms re) t ∧ (r_eot re = true → u = []).
Proof.
  unfold MatchString. rewrite existsb_exists. split.
  - intros (x & Hx & (t & u & -> & Hm & Hu)%match_here_spec).
    apply list_elem_of_In, elem_of_suffixes in Hx as [a Ha]. by exists a, t, u.
  - intros (a & t & u & Ha & Hm & Hu). exists (t ++ u). split.
    + apply list_elem_of_In, elem_of_suffixes. by exists a.
    + apply match_here_spec. by exists t, u.
Qed.

(** * Wildcards *)

(** A pattern whose only special characters are [*] and [.]. *)
Definition is_wild (c : ascii) : bool := is_literal c || bool_decide (c ∈ to_chars "*.").

(** [p] with every [*] replaced. *)
Definition expand (star_text p : chars) : chars :=
  concat ((λ c, if decide (c = "*"%char) then star_text else [c]) <$> p).

(** A text that fits the pattern, where [star] says what a [*] stands for and a
    [.] is any character. *)
Inductive glob (star : chars → Prop) : chars → chars → Prop :=
  | glob_nil : glob star [] []
  | glob_star p t s : star t → glob star p s → glob star ("*"%char :: p) (t ++ s)
  | glob_dot p c s : is_any c = true → glob star p s → glob star ("."%char :: p) (c :: s)
  | glob_char p c s : c ≠ "*"%char → c ≠ "."%char → glob star p s → glob star (c :: p) (c :: s).
#[export] Hint Constructors glob : sea.

Section wildcards.
Context (star_text : chars) (star_atoms : list atom) (star : chars → Prop).
Hypothesis star_token : ∀ s, single s = true → token (star_text ++ s) = Some (star_atoms, s).
Hypothesis star_starts : ∃ c s, star_text = c :: s ∧ is_repeat c = false ∧ c ≠ "$"%char.
Hypothesis star_matches : ∀ r s, matches (star_atoms ++ r) s ↔ ∃ t u, s = t ++ u ∧ star t ∧ matches r u.

Definition atoms_of (p : chars) : list atom :=
  concat ((λ c, if decide (c = "*"%char) then star_atoms
                else if decide (c = "."%char) then [One is_any] else [One (λ d, bool_decide (d = c))]) <$> p).

Lemma single_expand p tail : Forall (λ c, is_wild c = true) p → single tail = true → single (expand star_text p ++ tail) = true.
Proof using star_starts.
  clear star_token star_matches star. intros Hp Ht. destruct p as [|c p]; [done|]. apply Forall_cons in Hp as [Hc _]. unfold expand. cbn.
  case_decide as Hs.
  - destruct star_starts as (d & s & -> & Hd & _). cbn. by rewrite Hd.
  - cbn. unfold is_wild in Hc. apply orb_true_iff in Hc as [[_ Hc%bool_decide_eq_true]%andb_true_iff|Hc%bool_decide_eq_true].
    + apply negb_true_iff, bool_decide_eq_false. set_solver.
    + apply negb_true_iff, bool_decide_eq_false. set_solver.
Qed.

Lemma token_char c s :
  is_wild c = true → c ≠ "*"%char → single s = true →
  token (c :: s) = Some ([One (if decide (c = "."%char) then is_any else λ d, bool_decide (d = c))], s).
Proof using .
  clear star_token star_starts star_matches star. intros Hc Hs Hn. unfold token. rewrite decide_False.
  2:{ cbn. intros [= -> _]. by compute in Hc. }
  rewrite decide_False.
  2:{ cbn. intros [= -> _]. by compute in Hc. }
  case_decide as Hd; [subst|].
  - destruct s as [|d s]; [done|]. rewrite decide_False; [by rewrite Hn|].
    intros ->. by compute in Hn.
  - unfold is_wild in Hc. apply orb_true_iff in Hc as [->|Hc%bool_decide_eq_true]; [by rewrite Hn|]. set_solver.
Qed.

Lemma parse_expand p tail : ∀ fuel,
  Forall (λ c, is_wild c = true) p → tail = [] ∨ tail = to_chars "$" →
  length (expand star_text p ++ tail) < fuel →
  parse fuel (expand star_text p ++ tail) = Some (mkRegex (atoms_of p) (bool_decide (tail ≠ []))).
Proof using star_token star_starts.
  clear star_matches star. induction p as [|c p IH]; intros [|fuel] Hp Ht Hf; try lia.
  - by destruct Ht as [-> | ->].
  - apply Forall_cons in Hp as [Hc Hp].
    assert (Hn : single (expand star_text p ++ tail) = true) by (apply single_expand; [done|by destruct Ht as [-> | ->]]).
    destruct (decide (c = "*"%char)) as [->|Hs].
    + replace (expand star_text ("*"%char :: p) ++ tail) with (star_text ++ expand star_text p ++ tail) in *
        by (unfold expand; cbn; by rewrite <- app_assoc).
      pose proof (star_token _ Hn) as Htok. destruct star_starts as (d & s & Hst & _ & Hd).
      cbn [parse]. rewrite decide_False by (rewrite Hst; done).
      rewrite decide_False by (rewrite Hst; cbn; intros [=]; done). rewrite Htok. cbn.
      rewrite IH; [done..|]. rewrite (length_app star_text) in Hf.
      assert (0 < length star_text) by (rewrite Hst; cbn; lia). lia.
    + replace (expand star_text (c :: p) ++ tail) with (c :: expand star_text p ++ tail) in *
        by (unfold expand; cbn; by rewrite decide_False).
      cbn [parse]. rewrite decide_False by done.
      rewrite decide_False by (intros [= -> _]; by compute in Hc). rewrite token_char by done. cbn.
      rewrite IH; [|done..|cbn in Hf; lia]. cbn. unfold atoms_of. cbn. rewrite (decide_False (P := c = "*"%char)) by done.
      by case_decide.
Qed.

Lemma glob_matches p s : glob star p s ↔ matches (atoms_of p) s.
Proof using star_matches.
  revert s. induction p as [|c p IH]; intros s; unfold atoms_of; cbn.
  - split; inversion 1; constructor.
  - fold (atoms_of p). case_decide as Hs; [subst|].
    + rewrite star_matches. split.
      * inversion 1; subst; [|done]. eexists _, _. by rewrite <- IH.
      * intros (t & u & -> & Ht & Hm%IH). by constructor.
    + case_decide as Hd; [subst|]; cbn; (split; intros Hg; inversion Hg); subst; try done.
      * apply matches_one; [done|]. by apply IH.
      * apply glob_dot; [done|]. by apply IH.
      * apply matches_one; [by apply bool_decide_eq_true|]. by apply IH.
      * match goal with H : bool_decide _ = true |- _ => apply bool_decide_eq_true in H as -> end.
        apply glob_char; [done..|]. by apply IH.
Qed.
End wildcards.

(** ** The uses of a star *)

(** [*] as [.*]. *)
Definition any_text (t : chars) : Prop := Forall (λ c, is_any c = true) t.

(** [*] as a class with [+]. *)
Definition class_text (p : ascii → bool) (t : chars) : Prop := t ≠ [] ∧ Forall (λ c, p c = true) t.
Abbreviation name_text := (class_text is_name_char).

Lemma any_matches r s : matches ([Many is_any] ++ r) s ↔ ∃ t u, s = t ++ u ∧ any_text t ∧ matches r u.
Proof. split; [inversion 1; subst; eauto|]. intros (t & u & -> & Ht & Hm). by constructor. Qed.

Lemma class_matches p r s :
  matches ([One p; Many p] ++ r) s ↔ ∃ t u, s = t ++ u ∧ class_text p t ∧ matches r u.
Proof.
  split.
  - inversion 1 as [|? ? c s' Hp Hm|]; subst. inversion Hm as [| |? ? t u Ht Hu]; subst.
    exists (c :: t), u. split_and!; [done| |done]. split; [done|]. by constructor.
  - intros ([|c t] & u & -> & [Hne Ht] & Hm); [done|]. apply Forall_cons in Ht as [Hc Ht]. cbn.
    by constructor; [|constructor].
Qed.

Lemma to_of_chars l : to_chars (of_chars l) = l.
Proof. apply String.list_ascii_of_string_of_list_ascii. Qed.

Lemma length_of_chars l : String.length (of_chars l) = length l.
Proof. induction l as [|c l IH]; [done|]. cbn. by rewrite IH. Qed.

Lemma Compile_any other p : Forall (λ c, is_wild c = true) p →
  ∃ f, Compile other (of_chars (expand (to_chars ".*") p ++ to_chars "$")) = Some f ∧
       ∀ s, f s = true ↔ ∃ a t, to_chars s = a ++ t ∧ glob any_text p t.
Proof.
  intros Hp. unfold Compile. rewrite length_of_chars, to_of_chars. erewrite (parse_expand _ [Many is_any]).
  - eexists. split; [done|]. intros s. rewrite MatchString_spec. cbn [r_atoms r_eot]. split.
    + intros (a & t & u & Hs & Hm & Hu). rewrite Hu in Hs by done. rewrite app_nil_r in Hs.
      exists a, t. split; [done|]. by apply (glob_matches [Many is_any] any_text any_matches).
    + intros (a & t & Hs & Hg). exists a, t, []. rewrite app_nil_r. split_and!; [done| |done].
      by apply (glob_matches [Many is_any] any_text any_matches).
  - intros s Hs. unfold token. rewrite !decide_False by done. cbn [to_chars String.list_ascii_of_string app]. by rewrite !decide_True, Hs by done.
  - by eexists _, _.
  - done.
  - by right.
  - lia.
Qed.

(** A pattern whose stars are a class may match anywhere. *)
Lemma Compile_class other class char p :
  (∀ s, single s = true → token (class ++ s) = Some ([One char; Many char], s)) →
  (∃ c s, class = c :: s ∧ is_repeat c = false ∧ c ≠ "$"%char) → Forall (λ c, is_wild c = true) p →
  ∃ f, Compile other (of_chars (expand class p)) = Some f ∧
       ∀ s, f s = true ↔ ∃ a t u, to_chars s = a ++ t ++ u ∧ glob (class_text char) p t.
Proof.
  intros Htok Hst Hp. unfold Compile. rewrite length_of_chars, to_of_chars.
  rewrite <- (app_nil_r (expand class p)). erewrite (parse_expand _ [One char; Many char]); [|done..|by left|lia].
  eexists. split; [done|]. intros s. rewrite MatchString_spec. cbn [r_atoms r_eot]. split.
  - intros (a & t & u & Hs & Hm & _). exists a, t, u. split; [done|]. by apply (glob_matches _ _ (class_matches char)).
  - intros (a & t & u & Hs & Hg). exists a, t, u. split_and!; [done| |done]. by apply (glob_matches _ _ (class_matches char)).
Qed.

Lemma name_class_token s : single s = true → token (name_class ++ s) = Some ([One is_name_char; Many is_name_char], s).
Proof. intros Hs. unfold token. rewrite decide_True by (by rewrite take_app_length). rewrite drop_app_length. by rewrite Hs. Qed.
Lemma ascii_class_token s : single s = true → token (ascii_class ++ s) = Some ([One is_ascii; Many is_ascii], s).
Proof.
  intros Hs. unfold token. rewrite decide_False by (by destruct s). rewrite decide_True by (by rewrite take_app_length).
  rewrite drop_app_length. by rewrite Hs.
Qed.
Lemma class_starts class : class = name_class ∨ class = ascii_class → ∃ c s, class = c :: s ∧ is_repeat c = false ∧ c ≠ "$"%char.
Proof. intros [-> | ->]; by eexists _, _. Qed.
