(* ===== verification/Catalog.v ===== *)
(** Index lists: pages (pkg/meta/page.go), the handlers that list indexes
    (pkg/handlers/index/list.go, cmd/zinc-proxy/index.go), the catalog they read
    (pkg/core/indexcatalog.go), names (pkg/core/newindex.go), the reaction to a
    changed assignment and the delayed closing of writers
    (pkg/core/indexlist.go), and the list of open logs
    (pkg/core/index_shards_wallist.go). *)
From Stdlib Require Import Ascii.
From S2P Require Import Prelude Hash ClusterManager Routing Strconv Value Document Shards Regexp.

(** * Pages *)

Record Page := mkPage { PageNum : Z; PageSize : Z; Total : Z }.

(** The number [strconv.ParseInt] returns beside its error, which is ignored
    here: the nearest bound when the number is out of range. *)
Definition ParseInt_value (s : string) : Z :=
  match Strconv.ParseInt s with
  | Ok n => n
  | Err e => if decide (e = ErrRange) then if String.prefix "-" s then (- 2 ^ 63)%Z else (2 ^ 63 - 1)%Z else 0%Z
  | Panic _ => 0%Z
  end.

Definition NewPage (page_num page_size : option string) : Page :=
  let pageNum := ParseInt_value (default "1" page_num) in
  let pageSize := ParseInt_value (default "0" page_size) in
  mkPage (if decide (pageNum < 1)%Z then 1%Z else pageNum) pageSize 0.

Definition GetStartEndIndex (e : Page) : Z * Z :=
  if decide (PageSize e = 0%Z) then (0%Z, Total e)
  else
    let startIndex := int64 (int64 (PageNum e - 1) * PageSize e) in
    let endIndex := int64 (PageNum e * PageSize e) in
    if decide (Total e < endIndex)%Z then (int64 (Total e - Z.rem (Total e) (PageSize e)), Total e)
    else (startIndex, endIndex).

(** [xs[i:j]] of a slice that is not extended. *)
Definition slice {A} (xs : list A) (i j : Z) : res (list A) :=
  if decide (0 ≤ i ≤ j ∧ j ≤ Z.of_nat (length xs))%Z then Ok (take (Z.to_nat (j - i)) (drop (Z.to_nat i) xs))
  else Panic PSlice.

Definition paginate {A} (page : Page) (items : list A) : res (list A * Page) :=
  let page := mkPage (PageNum page) (PageSize page) (Z.of_nat (length items)) in
  let '(startIndex, endIndex) := GetStartEndIndex page in
  if decide (0 < endIndex)%Z then items ← slice items startIndex endIndex; Ok (items, page) else Ok ([], page).

(** * Lists of indexes *)

(** [meta.Index] as the list shows it. *)
Record IndexInfo := mkInfo {
  i_name : string; i_storage_type : string; i_shard_num : Z; i_doc_num : Z; i_storage_size : Z; i_wal_size : Z
}.

Section catalog.
Context (AssignCheck : string → bool).

Definition GetIndexMetadata {A} (get : string → res A) (name : string) : res A :=
  if negb (AssignCheck name) then Err "requested index is not handled by this server" else get name.

Definition ListIndexMetadata (stored : res (list IndexInfo)) : res (list IndexInfo) :=
  indexes ← stored; Ok (filter (λ x, AssignCheck (i_name x) = true) indexes).

Definition ListIndexNames (stored : res (list string)) : res (list string) :=
  names ← stored; Ok (filter (λ x, AssignCheck x = true) names).
End catalog.

(** [strings.Contains] and [strings.ToLower], on ASCII. *)
Definition str_contains (s sub : string) : bool := bool_decide (is_Some (String.index 0 sub s)).
Definition to_lower (c : ascii) : ascii :=
  let n := nat_of_ascii c in if decide (65 ≤ n ≤ 90) then ascii_of_nat (n + 32) else c.
Fixpoint ToLower (s : string) : string :=
  match s with String c s' => String (to_lower c) (ToLower s') | EmptyString => s end.

(** The comparison that [sort_by] and [desc] select. *)
Definition list_less (sortBy : string) (desc : bool) (a b : IndexInfo) : bool :=
  let '(a, b) := if desc then (b, a) else (a, b) in
  if decide (sortBy = "doc_num") then (i_doc_num a <? i_doc_num b)%Z
  else if decide (sortBy = "shard_num") then (i_shard_num a <? i_shard_num b)%Z
  else if decide (sortBy = "storage_size") then (i_storage_size a <? i_storage_size b)%Z
  else if decide (sortBy = "storage_type") then String.ltb (i_storage_type a) (i_storage_type b)
  else if decide (sortBy = "wal_size") then (i_wal_size a <? i_wal_size b)%Z
  else String.ltb (i_name a) (i_name b).

(** The parameters of a list request. *)
Record list_params := mkParams {
  l_page_num : option string; l_page_size : option string; l_sort_by : option string; l_desc : option string;
  l_name : option string
}.
Definition sort_by (p : list_params) : string := default "name" (l_sort_by p).
Definition sort_desc (p : list_params) : bool :=
  match ParseBool (default "false" (l_desc p)) with Ok b => b | _ => false end.

(** The indexes to list, in order. *)
Definition listed (p : list_params) (srt : sorter (list_less (sort_by p) (sort_desc p))) (items : list IndexInfo) : list IndexInfo :=
  let name := default "" (l_name p) in
  sort_slice srt (if decide (name = "") then items else filter (λ x, str_contains (i_name x) name = true) items).

(** [List]: the answer, or the error for a status 500. *)
Definition List (p : list_params) (srt : sorter (list_less (sort_by p) (sort_desc p))) (metadata : res (list IndexInfo))
    : res (list IndexInfo * Page) :=
  items ← metadata;
  paginate (NewPage (l_page_num p) (l_page_size p)) (listed p srt items).

(** [IndexNameList]: the node sorts the names, the proxy does not. *)
Definition IndexNameList (srt : option (sorter String.ltb)) (name : option string) (names : res (list string)) : res (list string) :=
  let queryName := ToLower (default "" name) in
  names ← names;
  let names := match srt with Some srt => sort_slice srt names | None => names end in
  let items := if decide (queryName = "") then names else filter (λ n, str_contains (ToLower n) queryName = true) names in
  Ok (if decide (30 < length items) then take 30 items else items).

(** * Names *)

Definition CheckIndexName (name : string) : res unit :=
  if decide (name = "") then Err "index name cannot be empty"
  else if String.prefix "_" name then Err "index name cannot start with _"
  else if forallb is_name_char (to_chars name) then Ok tt
  else Err ("index name [" +:+ name +:+ "] is invalid, just accept [a-zA-Z0-9_.-]").

(** * Indexes that move to another node *)

(** [updateIndexList]: what is dropped from the cache, then closed in turn until
    a [Close] fails. *)
Fixpoint close_all {I} (Close : I → option string) (removed : list I) : res unit * list I :=
  match removed with
  | [] => (Ok tt, [])
  | i :: removed =>
      match Close i with
      | Some err => (Err err, [])
      | None => let '(r, closed) := close_all Close removed in (r, i :: closed)
      end
  end.

Definition updateIndexList {I} (Close : I → option string) (order : map_order string I) (unassignMap : gset string)
    (cache : gmap string I) : res unit * list I * gmap string I :=
  let '(cache, removed) :=
    foldl (λ '(c, rm) ni,
             if decide (partition_of ni.1 ∈ unassignMap) then
               match c !! ni.1 with Some i => (delete ni.1 c, rm ++ [i]) | None => (c, rm) end
             else (c, rm)) (cache, []) (range order cache) in
  (close_all Close removed, cache).

(** * Writers that are closed late *)

Section lazy.
Context {W : Type}.

(** What [LazyCloseSecondIndexShardWriters] reads of a second shard under the
    lock, with the time since the last [CloseWriter]. *)
Definition lazy_due (since : Z) (x : @SecondShard W) : bool :=
  bool_decide (writerRefcount x = 0%Z) && bool_decide (300 * 10 ^ 9 < since)%Z && writer x.

(** Then, with the lock taken again, the writer is removed and closed. *)
Definition lazy_drop (due : bool) (x : @SecondShard W) : @SecondShard W := if due then set_writer false x else x.

Definition lazy_turn (since : Z → Z) (s : @IndexShard W) : @IndexShard W :=
  set_shards (fmap (λ x, lazy_drop (lazy_due (since (ID x)) x) x)) s.
End lazy.

(** * The list of open logs *)

(** One tick of [IndexShardWALList.ConsumeWAL]: closed shards leave the list,
    the others are consumed, and the metadata of every index with a shard that
    was changed is updated.  [index_of] names the index of a shard, [finish] is
    the order in which the goroutines report. *)
Definition wal_tick (order : map_order string string) (closed consumed : string → bool) (finish : shuffle string)
    (shards : gmap string string) : gmap string string * list string :=
  let listed := range order shards in
  let shardClosed := filter (λ kv, closed kv.1 = true) listed in
  let indexUpdated := shuf finish ((filter (λ kv, closed kv.1 = false ∧ consumed kv.1 = true) listed).*2) in
  let indexes : gset string := list_to_set listed.*2 in
  (foldl (λ m kv, delete kv.1 m) shards shardClosed,
   (foldl (λ '(ixs, done) name, if decide (name ∈ ixs) then (ixs ∖ {[name]}, done ++ [name]) else (ixs, done))
      (indexes, []) indexUpdated).2).

(** * Pages: theorems *)

Section pages.
Context {A : Type} (items : list A) (size : Z).
Hypothesis Hsize : (0 < size)%Z.
Hypothesis Hfits : (Z.of_nat (length items) + size < 2 ^ 63)%Z.

Abbreviation n := (Z.of_nat (length items)).

(** The page [k], counted from 0. *)
Definition chunk (k : nat) : list A := take (Z.to_nat size) (drop (k * Z.to_nat size) items).

Lemma paginate_chunk k : (Z.of_nat k * size < n)%Z →
  paginate (mkPage (Z.of_nat k + 1) size 0) items = Ok (chunk k, mkPage (Z.of_nat k + 1) size n).
Proof using Hsize Hfits.
  intros Hk. unfold paginate, GetStartEndIndex. cbn [PageSize PageNum Total].
  assert (Hkn : (Z.of_nat k < n)%Z) by nia. rewrite decide_False by lia.
  rewrite (int64_small (_ - 1)) by lia. replace (Z.of_nat k + 1 - 1)%Z with (Z.of_nat k) by lia.
  rewrite !int64_small by nia. unfold chunk. set (sz := Z.to_nat size).
  assert (Hz : size = Z.of_nat sz) by lia. clearbody sz. rewrite Hz in *.
  case_decide as He; rewrite decide_True by nia.
  - assert (Hr : Z.rem n (Z.of_nat sz) = (n - Z.of_nat k * Z.of_nat sz)%Z).
    { rewrite Z.rem_mod_nonneg by lia. symmetry. apply (Z.mod_unique _ _ (Z.of_nat k)); nia. }
    rewrite Hr, int64_small by nia. unfold slice. rewrite decide_True by nia. cbn. do 2 f_equal.
    replace (Z.to_nat (n - (n - Z.of_nat k * Z.of_nat sz))) with (k * sz) by nia.
    rewrite !take_ge; [done|rewrite length_drop; nia..].
  - rewrite int64_small by nia. unfold slice. rewrite decide_True by nia. cbn. do 2 f_equal. f_equal; [lia|]. f_equal. nia.
Qed.

Lemma chunks_concat m : concat (chunk <$> seq 0 m) = take (m * Z.to_nat size) items.
Proof using .
  clear Hsize Hfits. induction m as [|m IH]; [done|].
  rewrite seq_S, fmap_app, concat_app, IH. cbn. rewrite app_nil_r. unfold chunk.
  rewrite (Nat.add_comm (Z.to_nat size)), <- take_take_drop. done.
Qed.
End pages.

Lemma NewPage_number k size : (0 ≤ Z.of_nat k < 2 ^ 63 - 1)%Z → (0 < size < 2 ^ 63)%Z →
  NewPage (Some (Strconv.FormatInt (Z.of_nat k + 1))) (Some (Strconv.FormatInt size)) = mkPage (Z.of_nat k + 1) size 0.
Proof.
  intros Hk Hs. unfold NewPage, ParseInt_value. cbn -[Strconv.ParseInt Strconv.FormatInt Z.add Z.pow]. rewrite !ParseInt_FormatInt by lia.
  by rewrite decide_False by lia.
Qed.

(** C39: the pages of a list of indexes cover it: for a positive page size, the
    pages 1, 2, ... up to the last are answered without a panic, none is longer
    than the page size, and together they are the listed indexes, in order and
    each once. *)
Theorem list_pages_cover p srt items size m :
  (0 < size)%Z → (Z.of_nat (length (listed p srt items)) + size < 2 ^ 63)%Z →
  (Z.of_nat m = (Z.of_nat (length (listed p srt items)) + size - 1) / size)%Z →
  ∃ pages, (λ k, fst <$> List (mkParams (Some (Strconv.FormatInt (Z.of_nat k + 1))) (Some (Strconv.FormatInt size))
                            (l_sort_by p) (l_desc p) (l_name p)) srt (Ok items)) <$> seq 0 m = Ok <$> pages ∧
    concat pages = listed p srt items ∧ Forall (λ l, Z.of_nat (length l) ≤ size)%Z pages.
Proof.
  intros Hs Hf Hm. exists (chunk (listed p srt items) size <$> seq 0 m).
  pose proof (Z.div_mod (Z.of_nat (length (listed p srt items)) + size - 1) size ltac:(lia)) as Hdm.
  pose proof (Z.mod_pos_bound (Z.of_nat (length (listed p srt items)) + size - 1) size Hs) as Hb.
  rewrite <- Hm in Hdm. split_and!.
  - rewrite <- list_fmap_compose. apply list_fmap_ext. intros i k Hk. apply lookup_seq in Hk as [-> Hk].
    assert (Hi : (Z.of_nat i * size < Z.of_nat (length (listed p srt items)))%Z) by nia.
    cbn. unfold List. cbn. rewrite NewPage_number by nia. destruct p.
    change (listed _ srt items) with (listed (mkParams l_page_num0 l_page_size0 l_sort_by0 l_desc0 l_name0) srt items).
    by rewrite paginate_chunk.
  - rewrite chunks_concat. apply take_ge. nia.
  - apply Forall_fmap, Forall_true. intros k. cbn. unfold chunk. rewrite length_take. lia.
Qed.

(** * Unassigned indexes *)

Lemma drop_loop {I} (unassignMap : gset string) (l : list (string * I)) : ∀ (c : gmap string I) rm,
  NoDup l.*1 → (∀ n i, (n, i) ∈ l → c !! n = Some i) →
  foldl (λ '(c, rm) ni,
           if decide (partition_of ni.1 ∈ unassignMap) then
             match c !! ni.1 with Some i => (delete ni.1 c, rm ++ [i]) | None => (c, rm) end
           else (c, rm)) (c, rm) l =
  (filter (λ ni : string * I, ¬ (ni.1 ∈ l.*1 ∧ partition_of ni.1 ∈ unassignMap)) c,
   rm ++ (filter (λ ni : string * I, partition_of ni.1 ∈ unassignMap) l).*2).
Proof.
  induction l as [|[n i] l IH]; intros c rm Hnd Hc; cbn [foldl].
  - rewrite app_nil_r. f_equal. symmetry. apply map_filter_id. set_solver.
  - apply NoDup_cons in Hnd as [Hni Hnd]. cbn [fst].
    assert (Hln : ∀ j, (n, j) ∉ l) by (intros j Hj; apply Hni; by apply (list_elem_of_fmap_2' fst _ (n, j))).
    rewrite filter_cons. case_decide as Hp; cbn [fst] in *.
    + rewrite (Hc n i) by set_solver. rewrite IH.
      * rewrite decide_True by done. f_equal; [|by rewrite <- app_assoc].
        apply map_eq. intros n'. apply option_eq. intros j. rewrite !map_lookup_filter_Some, lookup_delete_Some.
        cbn. rewrite elem_of_cons. naive_solver.
      * done.
      * intros n' j Hj. rewrite lookup_delete_ne; [set_solver|]. intros <-. by apply (Hln j).
    + rewrite decide_False by done. rewrite IH; [|done|set_solver]. f_equal. apply map_filter_ext. intros n' j _.
      cbn. rewrite elem_of_cons. naive_solver.
Qed.

Lemma filter_to_list {K V} `{Countable K} (P : K * V → Prop) `{∀ x, Decision (P x)} (m : gmap K V) :
  map_to_list (filter P m) ≡ₚ filter P (map_to_list m).
Proof.
  rewrite map_filter_alt. apply map_to_list_to_map. apply NoDup_fmap_filter, NoDup_fst_map_to_list.
Qed.

Lemma close_all_ok {I} (Close : I → option string) removed :
  (∀ i, i ∈ removed → Close i = None) → close_all Close removed = (Ok tt, removed).
Proof.
  induction removed as [|i l IH]; intros Hc; [done|]. cbn. rewrite Hc by set_solver. rewrite IH by set_solver. done.
Qed.

(** C37: a node lets go of the indexes it no longer owns: when every prefix is
    assigned to one node, then after [updateAssigns] and [updateIndexList] with
    the prefixes it sent, every index that is still cached passes
    [AssignCheck], no index that passes it was dropped, and when no [Close]
    fails the dropped objects are closed, each once. *)
Theorem moved_indexes_are_closed {I} self st assigns st' um Close (order : map_order string I) cache r closed cache' :
  NoDup (Prefix <$> assigns) → list_to_set (Prefix <$> assigns) = Distribute.fullAssigns →
  Node.updateAssigns self st (Ok assigns) = Ok st' → Node.unassign_sent st' = Node.unassign_sent st ++ [um] →
  updateIndexList Close order um cache = (r, closed, cache') →
  cache' = filter (λ ni, Node.AssignCheck true st' ni.1 = true) cache ∧
  ((∀ i, Close i = None) →
     r = Ok tt ∧ closed ≡ₚ (map_to_list (filter (λ ni, Node.AssignCheck true st' ni.1 = false) cache)).*2).
Proof.
  intros Hnd Hfull Hup Hsent Hrun.
  apply Node.updateAssigns_ok in Hup as [Hown (um' & Hs & Hum)]. rewrite Hs in Hsent.
  apply app_inj_tail in Hsent as [_ ->].
  assert (Hchk : ∀ n, partition_of n ∈ um ↔ Node.AssignCheck true st' n = false).
  { intros n. unfold Node.AssignCheck. cbn. rewrite bool_decide_eq_false, Hum, Hown. split.
    - intros (o & Ho & Hin1) Hin2.
      apply Proxy.assign_map_lookup in Hin1, Hin2; [|done..]. congruence.
    - intros Hno. assert (Hp : partition_of n ∈ (list_to_set (Prefix <$> assigns) : gset string)).
      { rewrite Hfull. apply elem_of_list_to_set, partition_of_in. }
      apply elem_of_list_to_set, list_elem_of_fmap in Hp as ([p o] & Hpe & Hin). cbn in Hpe.
      exists o. rewrite Hpe. split; [|done]. intros ->. apply Hno. by rewrite Hpe. }
  unfold updateIndexList in Hrun. rewrite drop_loop in Hrun.
  2:{ apply range_nodup. } 2:{ intros n i. apply range_elem. }
  destruct (close_all _ _) as [r' cl'] eqn:Ec. injection Hrun as <- <- <-. split.
  - apply map_filter_ext. intros n i Hi. cbn [fst]. rewrite Hchk.
    assert (Hn : n ∈ (range order cache).*1) by (apply (list_elem_of_fmap_2' fst _ (n, i)); [by apply range_elem|done]).
    destruct (Node.AssignCheck true st' n); split; [done|by intros _ [_ ?]|intros Hx; by destruct Hx|done].
  - intros Hcl. rewrite close_all_ok in Ec by done. injection Ec as <- <-. split; [done|]. cbn.
    rewrite filter_to_list, (range_perm order cache). apply fmap_Permutation. 
    rewrite (list_filter_iff _ (λ ni, Node.AssignCheck true st' ni.1 = false)); [done|]. intros [n i]. apply Hchk.
Qed.

(** * Late closing *)

Section lazy_close.
Context {W : Type}.

(** Who holds a writer finds it open. *)
Definition held_open (s : @IndexShard W) : Prop := Forall (λ x, (0 < writerRefcount x)%Z → writer x = true) (shards s).

(** A round of late closing that nothing comes between leaves the writers that
    are held open. *)
Lemma lazy_turn_held since s : held_open s → held_open (lazy_turn since s).
Proof.
  unfold held_open, lazy_turn, set_shards. cbn. rewrite Forall_fmap. intros Hs.
  eapply Forall_impl; [exact Hs|]. intros x Hx. unfold compose, lazy_drop.
  destruct (lazy_due _ x) eqn:Hd; [|done]. unfold lazy_due in Hd. cbn. intros Hr.
  rewrite bool_decide_eq_false_2 in Hd by lia. done.
Qed.

(** Between its two looks at a second shard, the late closing of writers
    can be overtaken: when a [GetWriter] succeeds after the shard was found idle,
    the writer is closed all the same, and its new holder is left with a
    reference to a closed writer. *)
Theorem lazy_close_overtaken (open_err : Z → option string) since id x (s s1 : @IndexShard W) w :
  (0 ≤ id)%Z → shards s !! Z.to_nat id = Some x → lazy_due since x = true →
  GetWriter open_err id s = (Ok w, s1) →
  ∃ y, shards (set_shards (alter (lazy_drop (lazy_due since x)) (Z.to_nat id)) s1) !! Z.to_nat id = Some y ∧
       (0 < writerRefcount y)%Z ∧ writer y = false ∧
       ¬ held_open (set_shards (alter (lazy_drop (lazy_due since x)) (Z.to_nat id)) s1).
Proof.
  intros Hid Hx Hd Hw. assert (Hdue := Hd). unfold lazy_due in Hd.
  apply andb_true_iff in Hd as [[Hr%bool_decide_eq_true _]%andb_true_iff Hopen].
  assert (Hs1 : s1 = set_shards (alter (add_ref 1) (Z.to_nat id)) s).
  { revert Hw. unfold GetWriter, mbind, M_bind. cbn. case_decide; [done|]. unfold get_second.
    rewrite decide_True by done. rewrite Hx. cbn. rewrite Hopen. cbn. by intros [= _ <-]. }
  subst s1. exists (set_writer false (add_ref 1 x)).
  assert (Hl : shards (set_shards (alter (lazy_drop (lazy_due since x)) (Z.to_nat id))
                         (set_shards (alter (add_ref 1) (Z.to_nat id)) s)) !! Z.to_nat id = Some (set_writer false (add_ref 1 x))).
  { unfold set_shards. cbn [shards]. rewrite Hdue, !list_lookup_alter, !decide_True, Hx by done. done. }
  split_and!; [done|cbn; lia|done|]. intros Hh. unfold held_open in Hh. rewrite Forall_forall in Hh.
  specialize (Hh _ (list_elem_of_lookup_2 _ _ _ Hl)). cbn in Hh. specialize (Hh ltac:(lia)). done.
Qed.
End lazy_close.

(** * Ticks *)

Lemma remaining_updates names : ∀ (ixs : gset string) updated,
  NoDup updated → (∀ n, n ∈ updated → n ∉ ixs) →
  let r := (foldl (λ '(ixs, updated) name,
              if decide (name ∈ ixs) then (ixs ∖ {[name]}, updated ++ [name]) else (ixs, updated)) (ixs, updated) names).2 in
  NoDup r ∧ ∀ n, n ∈ r ↔ n ∈ updated ∨ (n ∈ names ∧ n ∈ ixs).
Proof.
  induction names as [|name names IH]; intros ixs updated Hnd Hdis; cbn zeta; cbn [foldl].
  - split; [done|]. set_solver.
  - case_decide as Hn.
    + destruct (IH (ixs ∖ {[name]}) (updated ++ [name])) as [H1 H2].
      * apply NoDup_app. split_and!; [done|set_solver|apply NoDup_singleton].
      * set_solver.
      * split; [done|]. intros n. rewrite H2, elem_of_app, !elem_of_cons, elem_of_difference, elem_of_singleton.
        rewrite elem_of_nil. destruct (decide (n = name)); naive_solver.
    + destruct (IH ixs updated Hnd Hdis) as [H1 H2]. split; [done|]. intros n. rewrite H2, elem_of_cons. naive_solver.
Qed.

Lemma delete_all (l : list (string * string)) : ∀ m : gmap string string,
  foldl (λ m kv, delete kv.1 m) m l = filter (λ kv : string * string, kv.1 ∉ l.*1) m.
Proof.
  induction l as [|[k v] l IH]; intros m; cbn [foldl].
  - symmetry. apply map_filter_id. set_solver.
  - rewrite IH. apply map_eq. intros k'. apply option_eq. intros v'.
    rewrite !map_lookup_filter_Some, lookup_delete_Some. cbn. rewrite not_elem_of_cons. naive_solver.
Qed.

(** A tick removes exactly the closed shards and updates the metadata of every
    index with a changed shard once. *)
Theorem tick_updates_once order closed consumed finish shards shards' updated :
  wal_tick order closed consumed finish shards = (shards', updated) →
  shards' = filter (λ kv, closed kv.1 = false) shards ∧ NoDup updated ∧
  ∀ name, name ∈ updated ↔ ∃ shard, shards !! shard = Some name ∧ closed shard = false ∧ consumed shard = true.
Proof.
  unfold wal_tick. intros [= <- <-]. rewrite delete_all. split.
  - apply map_filter_ext. intros k v Hkv. cbn. rewrite list_elem_of_fmap. split.
    + intros Hx. destruct (closed k) eqn:Hc; [|done]. exfalso. apply Hx. exists (k, v). split; [done|].
      rewrite list_elem_of_filter. split; [done|]. by apply range_elem.
    + intros Hc ([k' v'] & Hk & [Hc' _]%list_elem_of_filter). cbn in *. congruence.
  - destruct (remaining_updates (shuf finish (filter (λ kv : string * string, closed kv.1 = false ∧ consumed kv.1 = true) (range order shards)).*2)
                (list_to_set (range order shards).*2) []) as [H1 H2]; [apply NoDup_nil_2|set_solver|].
    split; [exact H1|]. intros name. rewrite H2, (shuf_perm finish), elem_of_nil, elem_of_list_to_set.
    rewrite !list_elem_of_fmap. setoid_rewrite list_elem_of_filter. split.
    + intros [[]|[([k v] & -> & [Hc1 Hc2] & Hin%range_elem) _]]. by exists k.
    + intros (k & Hk%(range_elem order) & Hc1 & Hc2). right. split; by exists (k, name).
Qed.

(** * Concrete lists *)

Module CatalogDemo.
Definition demo_items : list IndexInfo :=
  [mkInfo "a" "disk" 1 5 0 0; mkInfo "b" "disk" 1 9 0 0; mkInfo "c" "disk" 1 7 0 0].
Definition demo_params (num size : option string) : list_params := mkParams num size (Some "doc_num") (Some "true") None.
Definition demo_sorter num size : sorter (list_less (sort_by (demo_params num size)) (sort_desc (demo_params num size))) :=
  key_sorter i_doc_num.

Definition listed_names (num size : string) : res (list string) :=
  (λ r : list IndexInfo * Page, i_name <$> r.1) <$> List (demo_params (Some num) (Some size)) (demo_sorter _ _) (Ok demo_items).

Lemma list_pages_cover_witness :
  ∃ pages, (λ k, fst <$> List (mkParams (Some (Strconv.FormatInt (Z.of_nat k + 1))) (Some (Strconv.FormatInt 2))
                            (Some "doc_num") (Some "true") None) (demo_sorter None None) (Ok demo_items)) <$> seq 0 2 = Ok <$> pages ∧
    concat pages = listed (demo_params None None) (demo_sorter None None) demo_items ∧
    Forall (λ l, Z.of_nat (length l) ≤ 2)%Z pages.
Proof.
  apply (list_pages_cover (demo_params None None) (demo_sorter None None) demo_items 2 2); [lia|vm_compute; reflexivity..].
Defined.

(** A page after the last one shows the last page again, unless that is full. *)
Theorem page_past_the_end_repeats :
  listed_names "2" "2" = Ok ["a"] ∧ listed_names "7" "2" = Ok ["a"] ∧ listed_names "2" "3" = Ok [].
Proof. by vm_compute. Qed.

(** A page number whose product with the page size wraps around to a small
    number makes [List] slice from a negative index, and it panics. *)
Theorem list_page_overflow_panics : listed_names "6148914691236517206" "3" = Panic PSlice.
Proof. by vm_compute. Qed.

Definition demo_cache : gmap string string := {["books" := "books object"; "users" := "users object"]}.

(** The prefix of the index "users" moves to node 2. *)
Definition moved_to : list Assign := (λ p, mkAssign p (if decide (p = "9b") then 2 else 1)%Z) <$> hex_prefixes.

Lemma moved_indexes_are_closed_witness :
  ∃ st' um r closed cache',
    Node.updateAssigns 1 Node.init (Ok moved_to) = Ok st' ∧ Node.unassign_sent st' = [um] ∧
    updateIndexList (λ _, None) map_order_default um demo_cache = (r, closed, cache') ∧
    cache' = filter (λ ni, Node.AssignCheck true st' ni.1 = true) demo_cache ∧
    r = Ok tt ∧ closed ≡ₚ (map_to_list (filter (λ ni, Node.AssignCheck true st' ni.1 = false) demo_cache)).*2.
Proof.
  destruct (Node.updateAssigns 1 Node.init (Ok moved_to)) as [st'| |] eqn:Hup; [|by unfold Node.updateAssigns in Hup; destruct (foldl _ _ _)..].
  pose proof (Node.updateAssigns_ok _ _ _ _ Hup) as [_ (um & Hsent & _)].
  destruct (updateIndexList (λ _ : string, None) map_order_default um demo_cache) as [[r closed] cache'] eqn:Hrun.
  exists st', um, r, closed, cache'.
  destruct (moved_indexes_are_closed 1 Node.init moved_to st' um (λ _, None) map_order_default demo_cache r closed cache') as [H1 H2];
    [apply (bool_decide_unpack _); vm_compute; exact I..|done|done|done|].
  split_and!; [done|done|done|done|by apply H2..].
Defined.

Definition idle_shard : @IndexShard unit := mkShard [mkSecond 0 zero_stats tt true 0] zero_stats.

Lemma lazy_close_overtaken_witness :
  ∃ s1 y, GetWriter (λ _, None) 0 idle_shard = (Ok 0%Z, s1) ∧
    shards (set_shards (alter (lazy_drop (lazy_due (10 ^ 12) (mkSecond 0 zero_stats tt true 0))) 0) s1) !! 0 = Some y ∧
    (0 < writerRefcount y)%Z ∧ writer y = false.
Proof.
  eexists.
  destruct (lazy_close_overtaken (λ _, None) (10 ^ 12) 0 (mkSecond 0 zero_stats tt true 0) idle_shard
              (set_shards (alter (add_ref 1) 0) idle_shard) 0) as (y & H1 & H2 & H3 & _);
    [lia|reflexivity|vm_compute; reflexivity|reflexivity|].
  exists y. split_and!; [reflexivity|exact H1|exact H2|exact H3].
Defined.
End CatalogDemo.
