(* ===== verification/Aliases.v ===== *)
(** Aliases of indexes: the list (pkg/core/aliaslist.go) and the handlers that
    change and show it (pkg/handlers/index/alias_es.go). *)
From Stdlib Require Import Ascii.
From S2P Require Import Prelude Hash Strconv Regexp.

(** * AliasList *)

(** The map in memory and the one in the metadata store. *)
Record AliasList := mkAliases { Aliases : gmap string (list string); stored : gmap string (list string) }.

(** [metadata.Alias.Set], which fails or replaces what is stored. *)
Definition save (fails : option string) (m : gmap string (list string)) (al : AliasList) : res unit * AliasList :=
  match fails with
  | Some err => (Err err, mkAliases m (stored al))
  | None => (Ok tt, mkAliases m m)
  end.

Definition AddIndexesToAlias (fails : option string) (alias : string) (indexes : list string) (al : AliasList) : res unit * AliasList :=
  save fails (<[alias := default [] (Aliases al !! alias) ++ indexes]> (Aliases al)) al.

(** [indexes[i]]. *)
Definition at_ (indexes : list string) (i : nat) : res string :=
  match indexes !! i with Some x => Ok x | None => Panic PIndex end.

(** The loop of [RemoveIndexesFromAlias]; [lastIndex] is [i + n]. *)
Fixpoint remove_loop (rm : gset string) (n : nat) (indexes : list string) (i : nat) : res (list string * nat) :=
  match n with
  | O => Ok (indexes, i)
  | S n =>
      x ← at_ indexes i;
      if decide (x ∈ rm) then
        y ← at_ indexes (i + n);
        remove_loop rm n (<[i := y]> (<[i + n := x]> indexes)) i
      else remove_loop rm n indexes (S i)
  end.

Definition RemoveIndexesFromAlias (fails : option string) (alias : string) (removeIndexes : list string) (al : AliasList)
    : res unit * AliasList :=
  match Aliases al !! alias with
  | None => (Ok tt, al)
  | Some indexes =>
      match remove_loop (list_to_set removeIndexes) (length indexes) indexes 0 with
      | Ok (indexes, lastIndex) => save fails (<[alias := take lastIndex indexes]> (Aliases al)) al
      | Err err => (Err err, al)
      | Panic p => (Panic p, al)
      end
  end.

Definition GetIndexesForAlias (aliasName : string) (al : AliasList) : option (list string) := Aliases al !! aliasName.

Definition GetAliasesForIndex (order : map_order string (list string)) (indexName : string) (al : AliasList) : list string :=
  (filter (λ kv : string * list string, indexName ∈ kv.2) (range order (Aliases al))).*1.

(** [GetAliasMap]: every index with the set of its aliases. *)
Definition GetAliasMap (order : map_order string (list string)) (targetIndexes targetAliases : list string) (al : AliasList)
    : gmap string (gset string) :=
  foldl (λ top '(alias, indexes),
    if decide (targetAliases ≠ [] ∧ alias ∉ targetAliases) then top
    else foldl (λ top index,
           if decide (targetIndexes ≠ [] ∧ index ∉ targetIndexes) then top
           else <[index := {[alias]} ∪ default ∅ (top !! index)]> top) top indexes) ∅ (range order (Aliases al)).

(** * The handlers *)

Record base := mkBase { b_index : string; b_alias : string; b_indices : list string; b_aliases : list string }.
Record Action := mkAction { Add : option base; Remove : option base }.

Section handlers.
(** The syntax of regular expressions beyond [Regexp.parse]. *)
Context (other : string → option (string → bool)).

(** The pattern that [getRegex] compiles; the text of a class stands for a star. *)
Fixpoint regex_text (class : chars) (parts : list string) : string :=
  match parts with
  | [] => ""
  | [part] => part
  | part :: parts => part +:+ of_chars class +:+ regex_text class parts
  end.

Definition getRegex (s : string) : option (string → bool) := Compile other (regex_text name_class (Split "*" s)).

Definition indexNameMatches (name indexName : string) : bool :=
  if decide (name = indexName) then true
  else if contains_char "*" name then match getRegex name with Some f => f indexName | None => false end
  else false.

(** [m[b.Alias] = append(...)]; [b.Alias] takes precedence. *)
Definition append_alias (b : base) (m : gmap string (list string)) (n : string) : gmap string (list string) :=
  let add m a := <[a := default [] (m !! a) ++ [n]]> m in
  if decide (b_alias b ≠ "") then add m (b_alias b) else foldl add m (b_aliases b).

(** [core.GetIndexMetadata]: the name in the metadata, or an error. *)
Context (get : string → res string).

Definition matchAndAddToMap (indexList : list string) (indexName : string) (m : gmap string (list string)) (b : base)
    : gmap string (list string) :=
  if negb (contains_char "*" indexName) then match get indexName with Ok n => append_alias b m n | _ => m end
  else foldl (λ m index, if indexNameMatches indexName index then append_alias b m index else m) m indexList.

Definition add_base (indexList : list string) (m : gmap string (list string)) (b : base) : gmap string (list string) :=
  if decide (b_index b ≠ "") then matchAndAddToMap indexList (b_index b) m b
  else foldl (λ m indexName, matchAndAddToMap indexList indexName m b) m (b_indices b).

Definition add_action (indexList : list string) (maps : gmap string (list string) * gmap string (list string)) (action : Action)
    : gmap string (list string) * gmap string (list string) :=
  let '(addMap, removeMap) := maps in
  match Add action, Remove action with
  | Some b, _ => (add_base indexList addMap b, removeMap)
  | None, Some b => (addMap, add_base indexList removeMap b)
  | None, None => (addMap, removeMap)
  end.

(** [AddOrRemoveESAlias]; the errors of the two loops are ignored.  [fails]
    says which calls the metadata store refuses. *)
Definition AddOrRemoveESAlias (order_add order_remove : map_order string (list string)) (fails : string → option string)
    (names : res (list string)) (actions : list Action) (al : AliasList) : res AliasList :=
  indexList ← names;
  let '(addMap, removeMap) := foldl (add_action indexList) (∅, ∅) actions in
  let al := foldl (λ al '(alias, indexes), (AddIndexesToAlias (fails alias) alias indexes al).2) al (range order_add addMap) in
  Ok (foldl (λ al '(alias, indexes), (RemoveIndexesFromAlias (fails alias) alias indexes al).2) al (range order_remove removeMap)).

(** [GetESAliases]. *)
Definition GetESAliases (order : map_order string (list string)) (target target_alias : string) (al : AliasList)
    : gmap string (gset string) :=
  let split s := if decide (s = "") then [] else Split "," s in
  GetAliasMap order (split target) (split target_alias) al.
End handlers.

(** * Removal in place *)

Lemma at_middle pre x post i : i = length pre → at_ (pre ++ x :: post) i = Ok x.
Proof. intros ->. unfold at_. by rewrite list_lookup_middle. Qed.

Lemma set_middle (pre : list string) x y post i : i = length pre → <[i := y]> (pre ++ x :: post) = pre ++ y :: post.
Proof. intros ->. by rewrite insert_app_r_alt, Nat.sub_diag by lia. Qed.

(** The loop stays within the slice and keeps, in some order, what is not to be
    removed. *)
Lemma remove_loop_filter rm mid : ∀ pre post, ∃ kept junk,
  remove_loop rm (length mid) (pre ++ mid ++ post) (length pre) = Ok (pre ++ kept ++ junk ++ post, length pre + length kept) ∧
  kept ≡ₚ filter (λ x, x ∉ rm) mid.
Proof.
  induction mid as [mid IH] using (well_founded_induction (well_founded_ltof _ length)). unfold ltof in IH.
  intros pre post. destruct mid as [|x mid].
  { exists [], []. cbn. by rewrite Nat.add_0_r. }
  cbn [length remove_loop app]. rewrite (at_middle pre x _ (length pre)) by done. cbn [mbind res_bind]. case_decide as Hx.
  - rewrite filter_cons_False by (intros Hn; by apply Hn). destruct mid as [|y mid _] using rev_ind.
    + exists [], [x]. split; [|done]. cbn. rewrite at_middle by lia. cbn. by rewrite !set_middle, Nat.add_0_r by lia.
    + destruct (IH (y :: mid)) with (pre := pre) (post := x :: post) as (kept & junk & Hl & Hp).
      { cbn. rewrite length_app. cbn. lia. }
      exists kept, (junk ++ [x]). split.
      * assert (Hs : pre ++ x :: (mid ++ [y]) ++ post = (pre ++ x :: mid) ++ y :: post) by (by rewrite <- !app_assoc).
        rewrite Hs, at_middle by (rewrite !length_app; cbn; lia). cbn [mbind res_bind].
        rewrite (set_middle (pre ++ x :: mid)) by (rewrite !length_app; cbn; lia).
        rewrite <- app_assoc. cbn [app]. rewrite set_middle by done. rewrite length_app. cbn [length].
        rewrite Nat.add_comm. cbn [Nat.add length app] in *. rewrite Hl. by rewrite <- !app_assoc.
      * rewrite Hp, filter_app, !filter_cons. case_decide; by rewrite ?filter_nil, ?app_nil_r, <- ?Permutation_cons_append.
  - rewrite filter_cons_True by done. destruct (IH mid) with (pre := pre ++ [x]) (post := post) as (kept & junk & Hl & Hp).
    { cbn. lia. }
    exists (x :: kept), junk. rewrite <- !app_assoc, length_app, Nat.add_comm in Hl. cbn in Hl. rewrite Hl.
    split; [|by rewrite Hp]. do 2 f_equal. cbn. lia.
Qed.

(** * The relation *)

(** The index [ix] is a target of [alias]. *)
Definition in_alias (al : AliasList) (alias ix : string) : Prop := ix ∈ default [] (Aliases al !! alias).

#[global] Instance in_alias_dec al alias ix : Decision (in_alias al alias ix).
Proof. unfold in_alias. apply _. Defined.

Lemma save_aliases fails m al : Aliases (save fails m al).2 = m.
Proof. by destruct fails. Qed.

(** Whether or not it can be stored, an addition adds and a removal removes the
    pairs it names. *)
Lemma add_in_alias fails alias indexes al a ix :
  in_alias (AddIndexesToAlias fails alias indexes al).2 a ix ↔ in_alias al a ix ∨ (a = alias ∧ ix ∈ indexes).
Proof.
  unfold in_alias, AddIndexesToAlias. rewrite save_aliases. destruct (decide (a = alias)) as [->|Hne].
  - rewrite lookup_insert_eq. cbn. rewrite elem_of_app. naive_solver.
  - rewrite lookup_insert_ne by done. naive_solver.
Qed.

Lemma remove_in_alias fails alias removeIndexes al a ix :
  in_alias (RemoveIndexesFromAlias fails alias removeIndexes al).2 a ix ↔
  in_alias al a ix ∧ ¬ (a = alias ∧ ix ∈ removeIndexes).
Proof.
  unfold in_alias, RemoveIndexesFromAlias. destruct (Aliases al !! alias) as [indexes|] eqn:Ha; cbn.
  - destruct (remove_loop_filter (list_to_set removeIndexes) indexes [] []) as (kept & junk & Hl & Hp).
    cbn in Hl. rewrite !app_nil_r in Hl. rewrite Hl, save_aliases, take_app_length.
    destruct (decide (a = alias)) as [->|Hne].
    + rewrite lookup_insert_eq, Ha. cbn. rewrite Hp, list_elem_of_filter, elem_of_list_to_set. naive_solver.
    + rewrite lookup_insert_ne by done. naive_solver.
  - split; [|by intros [? _]]. intros Hx. split; [done|]. intros [-> _]. rewrite Ha in Hx. set_solver.
Qed.

(** ** What a request asks for *)

Section requests.
Context (other : string → option (string → bool)) (get : string → res string) (indexList : list string).

(** The names and the indexes of one action. *)
Definition alias_names (b : base) : list string := if decide (b_alias b ≠ "") then [b_alias b] else b_aliases b.

Definition matched (indexName : string) : list string :=
  if negb (contains_char "*" indexName) then match get indexName with Ok n => [n] | _ => [] end
  else filter (λ n, indexNameMatches other indexName n = true) indexList.

Definition targets (b : base) : list string :=
  if decide (b_index b ≠ "") then matched (b_index b) else concat (matched <$> b_indices b).

Definition asked_add (actions : list Action) (a ix : string) : Prop :=
  ∃ act b, act ∈ actions ∧ Add act = Some b ∧ a ∈ alias_names b ∧ ix ∈ targets b.
Definition asked_remove (actions : list Action) (a ix : string) : Prop :=
  ∃ act b, act ∈ actions ∧ Add act = None ∧ Remove act = Some b ∧ a ∈ alias_names b ∧ ix ∈ targets b.

Abbreviation pairs m a ix := (ix ∈ default [] ((m : gmap string (list string)) !! (a : string))).

Lemma append_pairs b m n a ix : pairs (append_alias b m n) a ix ↔ pairs m a ix ∨ (a ∈ alias_names b ∧ ix = n).
Proof.
  assert (Hadd : ∀ m a', pairs (<[a' := default [] (m !! a') ++ [n]]> m) a ix ↔ pairs m a ix ∨ (a = a' ∧ ix = n)).
  { intros m' a'. destruct (decide (a = a')) as [->|Hne].
    - rewrite lookup_insert_eq. cbn. rewrite elem_of_app, list_elem_of_singleton. naive_solver.
    - rewrite lookup_insert_ne by done. naive_solver. }
  unfold append_alias, alias_names. case_decide; [rewrite Hadd; set_solver|].
  generalize (b_aliases b). intros l. revert m. induction l as [|a' l IH]; intros m; cbn [foldl]; [set_solver|].
  rewrite IH, Hadd, elem_of_cons. naive_solver.
Qed.

(** A loop whose steps add pairs adds the pairs of all of them. *)
Lemma fold_pairs {X} (f : gmap string (list string) → X → gmap string (list string)) (P : X → string → string → Prop) xs : ∀ m,
  (∀ m x a ix, pairs (f m x) a ix ↔ pairs m a ix ∨ P x a ix) →
  ∀ a ix, pairs (foldl f m xs) a ix ↔ pairs m a ix ∨ ∃ x, x ∈ xs ∧ P x a ix.
Proof.
  induction xs as [|x xs IH]; intros m Hf a ix; cbn [foldl]; [set_solver|].
  rewrite IH, Hf by done. setoid_rewrite elem_of_cons. naive_solver.
Qed.

Lemma match_pairs b name m a ix :
  pairs (matchAndAddToMap other get indexList name m b) a ix ↔ pairs m a ix ∨ (a ∈ alias_names b ∧ ix ∈ matched name).
Proof.
  unfold matchAndAddToMap, matched. destruct (contains_char "*" name); cbn.
  - rewrite (fold_pairs _ (λ n a ix, indexNameMatches other name n = true ∧ a ∈ alias_names b ∧ ix = n)).
    + rewrite list_elem_of_filter. naive_solver.
    + intros m' n a' ix'. destruct (indexNameMatches other name n); [rewrite append_pairs|]; naive_solver.
  - destruct (get name); [rewrite append_pairs|..]; set_solver.
Qed.

Lemma base_pairs b m a ix :
  pairs (add_base other get indexList m b) a ix ↔ pairs m a ix ∨ (a ∈ alias_names b ∧ ix ∈ targets b).
Proof.
  unfold add_base, targets. case_decide; [apply match_pairs|].
  rewrite (fold_pairs _ (λ name a ix, a ∈ alias_names b ∧ ix ∈ matched name)); [|intros; apply match_pairs].
  rewrite elem_of_concat_fmap. naive_solver.
Qed.

Lemma actions_pairs actions : ∀ maps a ix,
  let r := foldl (add_action other get indexList) maps actions in
  (pairs r.1 a ix ↔ pairs maps.1 a ix ∨ asked_add actions a ix) ∧
  (pairs r.2 a ix ↔ pairs maps.2 a ix ∨ asked_remove actions a ix).
Proof.
  unfold asked_add, asked_remove.
  induction actions as [|act actions IH]; intros [am rm] a ix; cbn zeta; cbn [foldl]; [set_solver|].
  cbn zeta in IH. rewrite (proj1 (IH _ _ _)), (proj2 (IH _ _ _)). setoid_rewrite elem_of_cons.
  unfold add_action. destruct (Add act) as [b|] eqn:Ha; [|destruct (Remove act) as [b|] eqn:Hr]; cbn [fst snd];
    rewrite ?base_pairs; split; naive_solver.
Qed.

(** C34: a request that changes aliases takes the given pairs of alias and index
    in two rounds: whatever the order of its actions, the orders of the maps and
    the failures of the metadata store, afterwards exactly those pairs are
    present that were present or asked to be added, and not asked to be removed. *)
Theorem aliases_added_then_removed order_add order_remove fails actions al al' a ix :
  AddOrRemoveESAlias other get order_add order_remove fails (Ok indexList) actions al = Ok al' →
  in_alias al' a ix ↔ (in_alias al a ix ∨ asked_add actions a ix) ∧ ¬ asked_remove actions a ix.
Proof.
  unfold AddOrRemoveESAlias. cbn. pose proof (actions_pairs actions (∅, ∅) a ix) as Hp. cbn zeta in Hp.
  destruct (foldl _ _ actions) as [am rm]. cbn in Hp. rewrite !lookup_empty in Hp. cbn in Hp. intros [= <-].
  assert (Hrem : ∀ l al0, in_alias (foldl (λ al '(alias, indexes), (RemoveIndexesFromAlias (fails alias) alias indexes al).2) al0 l) a ix
                 ↔ in_alias al0 a ix ∧ ¬ ∃ l', (a, l') ∈ l ∧ ix ∈ l').
  { induction l as [|[a' l'] l IH]; intros al0; cbn [foldl]; [set_solver|].
    rewrite IH, remove_in_alias. setoid_rewrite elem_of_cons. naive_solver. }
  assert (Hadd : ∀ l al0, in_alias (foldl (λ al '(alias, indexes), (AddIndexesToAlias (fails alias) alias indexes al).2) al0 l) a ix
                 ↔ in_alias al0 a ix ∨ ∃ l', (a, l') ∈ l ∧ ix ∈ l').
  { induction l as [|[a' l'] l IH]; intros al0; cbn [foldl]; [set_solver|].
    rewrite IH, add_in_alias. setoid_rewrite elem_of_cons. naive_solver. }
  rewrite Hrem, Hadd. setoid_rewrite range_elem.
  assert (Hm : ∀ m : gmap string (list string), (∃ l', m !! a = Some l' ∧ ix ∈ l') ↔ pairs m a ix).
  { intros m. destruct (m !! a); cbn; set_solver. }
  rewrite !Hm. destruct Hp as [-> ->]. set_solver.
Qed.
End requests.

(** * Wildcards *)

Lemma to_chars_app a b : to_chars (a +:+ b) = to_chars a ++ to_chars b.
Proof.
  induction a as [|c a IH]; [done|]. rewrite append_cons.
  change (c :: to_chars (a +:+ b) = c :: to_chars a ++ to_chars b). by rewrite IH.
Qed.

Lemma regex_text_expand class s : to_chars (regex_text class (Split "*" s)) = expand class (to_chars s).
Proof.
  unfold expand. induction s as [|c s IH]; [done|]. cbn [Split to_chars String.list_ascii_of_string fmap list_fmap concat].
  pose proof (Split_ne_nil "*" s) as Hne. case_decide.
  - destruct (Split "*" s) as [|p ps]; [done|].
    change (regex_text class ("" :: p :: ps)) with ("" +:+ of_chars class +:+ regex_text class (p :: ps)).
    rewrite !to_chars_app, IH, to_of_chars. done.
  - destruct (Split "*" s) as [|p [|p' ps]]; [done|..].
    + cbn. f_equal. exact IH.
    + change (regex_text class (String c p :: p' :: ps)) with (String c (p +:+ of_chars class +:+ regex_text class (p' :: ps))).
      cbn [to_chars String.list_ascii_of_string app]. f_equal. exact IH.
Qed.

Lemma regex_text_of class s : regex_text class (Split "*" s) = of_chars (expand class (to_chars s)).
Proof. rewrite <- regex_text_expand. symmetry. apply String.string_of_list_ascii_of_string. Qed.

(** A name with wildcards means every index with a part that fits it: nothing
    ties the pattern to the beginning or the end of the name. *)
Theorem wildcard_matches_a_part other name ix :
  Forall (λ c, is_wild c = true) (to_chars name) → contains_char "*" name = true →
  indexNameMatches other name ix = true ↔
  name = ix ∨ ∃ a t u, to_chars ix = a ++ t ++ u ∧ glob name_text (to_chars name) t.
Proof.
  intros Hw Hs. unfold indexNameMatches, getRegex. rewrite Hs.
  destruct (Compile_class other _ _ _ name_class_token (class_starts _ (or_introl eq_refl)) Hw) as (f & Hc & Hf). rewrite regex_text_of.
  rewrite Hc. case_decide; [naive_solver|]. rewrite Hf. naive_solver.
Qed.

(** * The map of aliases *)

Lemma alias_map_step targetIndexes alias indexes : ∀ (top : gmap string (gset string)) ix a,
  let top' := foldl (λ top index,
                if decide (targetIndexes ≠ [] ∧ index ∉ targetIndexes) then top
                else <[index := {[alias]} ∪ default ∅ (top !! index)]> top) top indexes in
  (a ∈ default ∅ (top' !! ix) ↔
   a ∈ default ∅ (top !! ix) ∨ (a = alias ∧ ix ∈ indexes ∧ (targetIndexes = [] ∨ ix ∈ targetIndexes))) ∧
  ((∀ ix as_, top !! ix = Some as_ → as_ ≠ ∅) → ∀ ix as_, top' !! ix = Some as_ → as_ ≠ ∅).
Proof.
  induction indexes as [|index indexes IH]; intros top ix a; cbn zeta; cbn [foldl]; [set_solver|].
  cbn zeta in IH. case_decide as Ht.
  - destruct (IH top ix a) as [H1 H2]. split; [|exact H2]. rewrite H1, elem_of_cons. clear IH H1 H2. naive_solver.
  - destruct (IH (<[index := {[alias]} ∪ default ∅ (top !! index)]> top) ix a) as [H1 H2]. split.
    + rewrite H1, elem_of_cons. clear IH H1 H2. destruct (decide (ix = index)) as [->|Hne].
      * rewrite lookup_insert_eq. cbn. rewrite elem_of_union, elem_of_singleton.
        destruct (decide (targetIndexes = [])); [naive_solver|]. destruct (decide (index ∈ targetIndexes)); naive_solver.
      * rewrite lookup_insert_ne by done. naive_solver.
    + intros Htop. apply H2. intros ix' as_. destruct (decide (ix' = index)) as [->|Hne].
      * rewrite lookup_insert_eq. intros [= <-]. set_solver.
      * rewrite lookup_insert_ne by done. apply Htop.
Qed.

(** The map shows exactly the selected pairs, and no index without an alias. *)
Theorem GetAliasMap_pairs order targetIndexes targetAliases al :
  (∀ ix a, a ∈ default ∅ (GetAliasMap order targetIndexes targetAliases al !! ix) ↔
     in_alias al a ix ∧ (targetIndexes = [] ∨ ix ∈ targetIndexes) ∧ (targetAliases = [] ∨ a ∈ targetAliases)) ∧
  (∀ ix as_, GetAliasMap order targetIndexes targetAliases al !! ix = Some as_ → as_ ≠ ∅).
Proof.
  unfold GetAliasMap, in_alias.
  assert (Hl : ∀ l (top : gmap string (gset string)), (∀ ix as_, top !! ix = Some as_ → as_ ≠ ∅) →
    let r := foldl (λ top '(alias, indexes),
      if decide (targetAliases ≠ [] ∧ alias ∉ targetAliases) then top
      else foldl (λ top index,
             if decide (targetIndexes ≠ [] ∧ index ∉ targetIndexes) then top
             else <[index := {[alias]} ∪ default ∅ (top !! index)]> top) top indexes) top l in
    (∀ ix a, a ∈ default ∅ (r !! ix) ↔ a ∈ default ∅ (top !! ix) ∨
       ∃ ixs, (a, ixs) ∈ l ∧ ix ∈ ixs ∧ (targetIndexes = [] ∨ ix ∈ targetIndexes) ∧ (targetAliases = [] ∨ a ∈ targetAliases)) ∧
    ∀ ix as_, r !! ix = Some as_ → as_ ≠ ∅).
  { induction l as [|[a' ixs] l IH]; intros top Htop; cbn zeta; cbn [foldl]; [set_solver|]. cbn zeta in IH. case_decide as Ha.
    - destruct (IH top Htop) as [H1 H2]. split; [|done]. intros ix a. rewrite H1. setoid_rewrite elem_of_cons. clear IH H1 H2.
      split; [naive_solver|]. intros [?|(ixs' & [[= -> ->]|?] & ?)]; naive_solver.
    - edestruct IH as [H1 H2]; [exact (proj2 (alias_map_step targetIndexes a' ixs top "" "") Htop)|].
      split; [|exact H2]. intros ix a. rewrite H1, (proj1 (alias_map_step targetIndexes a' ixs top ix a)).
      setoid_rewrite elem_of_cons. clear IH H1 H2. destruct (decide (targetAliases = [])); [naive_solver|].
      destruct (decide (a' ∈ targetAliases)); naive_solver. }
  destruct (Hl (range order (Aliases al)) ∅) as [H1 H2]; [by intros ix as_; rewrite lookup_empty|]. split; [|exact H2].
  intros ix a. rewrite H1, lookup_empty. setoid_rewrite range_elem. clear Hl H1 H2. cbn.
  destruct (Aliases al !! a) as [l|]; cbn.
  - split; [intros [[]%elem_of_empty|(? & [= <-] & ?)]; done|]. intros (? & ? & ?). right. by exists l.
  - split; [intros [[]%elem_of_empty|(? & ? & ?)]; done|]. by intros ([]%elem_of_nil & _).
Qed.

(** * Concrete requests *)

Module AliasDemo.
Definition demo_get (name : string) : res string := if decide (name ∈ ["logs-1"; "catalogs-2"]) then Ok name else Err "key not found".
Definition demo_al : AliasList := mkAliases {["all" := ["logs-1"]]} ∅.
Definition swap : list Action :=
  [mkAction None (Some (mkBase "logs-1" "all" [] [])); mkAction (Some (mkBase "" "" ["logs-1"; "catalogs-2"] ["all"; "both"])) None].
Definition run (actions : list Action) : res AliasList :=
  AddOrRemoveESAlias (λ _, None) demo_get map_order_default map_order_rev (λ _, Some "store down")
    (Ok ["logs-1"; "catalogs-2"]) actions demo_al.

Lemma aliases_added_then_removed_witness :
  ∃ al', run swap = Ok al' ∧ (in_alias al' "all" "catalogs-2" ∧ ¬ in_alias al' "all" "logs-1") ∧
    (in_alias al' "all" "catalogs-2" ↔
     (in_alias demo_al "all" "catalogs-2" ∨ asked_add (λ _, None) demo_get ["logs-1"; "catalogs-2"] swap "all" "catalogs-2") ∧
     ¬ asked_remove (λ _, None) demo_get ["logs-1"; "catalogs-2"] swap "all" "catalogs-2").
Proof.
  destruct (run swap) as [al'| |] eqn:Hr; [|by vm_compute in Hr..]. exists al'. split; [done|]. split.
  - vm_compute in Hr. injection Hr as <-. split; apply (bool_decide_unpack _); vm_compute; exact I.
  - by apply (aliases_added_then_removed (λ _, None) demo_get ["logs-1"; "catalogs-2"] map_order_default map_order_rev
                (λ _, Some "store down") swap demo_al).
Defined.

(** The order of the actions of a request is lost: an index that one action
    removes from an alias and a later one adds again ends up removed. *)
Theorem removed_then_added_is_removed :
  (λ al, Aliases al !! "all") <$> run [mkAction None (Some (mkBase "logs-1" "all" [] [])); mkAction (Some (mkBase "logs-1" "all" [] [])) None]
  = Ok (Some []).
Proof. by vm_compute. Qed.

(** A wildcard at the end also takes indexes whose name only contains the
    rest. *)
Theorem trailing_wildcard_is_not_a_prefix :
  (λ al, Aliases al !! "l") <$> run [mkAction (Some (mkBase "logs-*" "l" [] [])) None] = Ok (Some ["logs-1"; "catalogs-2"]).
Proof. by vm_compute. Qed.
End AliasDemo.
