(* ===== verification/Templates.v ===== *)
(** Index templates (pkg/core/template.go, pkg/meta/template.go). *)
From Stdlib Require Import Ascii.
From S2P Require Import Prelude Hash Strconv Regexp Catalog.

(** [B] is what a template gives to an index: settings and mappings. *)
Record IndexTemplate (B : Type) := mkTemplate { IndexPatterns : list string; Priority : Z; body : B; CreatedAt : Z; UpdatedAt : Z }.
Arguments mkTemplate {B} _ _ _ _ _.
Arguments IndexPatterns {B} _.
Arguments Priority {B} _.
Arguments body {B} _.

Section templates.
Context {B : Type}.
Abbreviation template := (IndexTemplate B).

(** [metadata.Template]: the templates by name; [List] visits them in some
    order, and any call may fail. *)
Abbreviation store := (gmap string template).
Context (order : map_order string template).

Definition list_all (fails : option string) (st : store) : res (list (string * template)) :=
  match fails with Some err => Err err | None => Ok (range order st) end.

(** [ListTemplates]: all, or those with the pattern. *)
Definition ListTemplates (fails : option string) (pattern : string) (st : store) : res (list (string * template)) :=
  templates ← list_all fails st;
  Ok (if decide (pattern ≠ "") then filter (λ t, pattern ∈ IndexPatterns t.2) templates else templates).

(** The error of [NewTemplate] for a pattern; an error of [ListTemplates] counts
    as an empty list. *)
Definition taken (fails : option string) (name : string) (t : template) (st : store) (pattern : string) : bool :=
  existsb (λ r : string * template, bool_decide (r.1 ≠ name) && bool_decide (Priority r.2 = Priority t))
    match ListTemplates fails pattern st with Ok rs => rs | _ => [] end.

Definition NewTemplate (list_fails : string → option string) (set_fails : option string) (now : Z) (name : string)
    (t : option template) (st : store) : res unit * store :=
  match t with
  | Some t =>
      if decide (name = "") then (Ok tt, st)
      else if existsb (λ pattern, taken (list_fails pattern) name t st pattern) (IndexPatterns t) then
        (Err ("index template [" +:+ name +:+ "] has index patterns matching patterns from existing templates"), st)
      else match set_fails with
           | Some err => (Err ("template: error updating document: " +:+ err), st)
           | None => (Ok tt, <[name := mkTemplate (IndexPatterns t) (Priority t) (body t) now now]> st)
           end
  | None => (Ok tt, st)
  end.

(** [LoadTemplate]: [get_fails] is an error other than a missing key. *)
Definition LoadTemplate (get_fails : option string) (name : string) (st : store) : res (option template) :=
  if decide (name = "") then Ok None
  else match get_fails with Some err => Err err | None => Ok (st !! name) end.

Definition DeleteTemplate (fails : option string) (name : string) (st : store) : res unit * store :=
  match fails with Some err => (Err err, st) | None => (Ok tt, delete name st) end.

(** * UseTemplate *)

(** [strings.HasPrefix(indexName, pattern[:1])]. *)
Definition same_start (indexName pattern : string) : res bool :=
  match pattern with
  | EmptyString => Panic PSlice
  | String c _ => Ok (String.prefix (String c EmptyString) indexName)
  end.

(** A loop over the patterns that stops at the first success. *)
Fixpoint any_of {X} (f : X → res bool) (xs : list X) : res bool :=
  match xs with
  | [] => Ok false
  | x :: xs => b ← f x; if b : bool then Ok true else any_of f xs
  end.

(** [strings.TrimRight(strings.ReplaceAll(pattern, "*", ".*"), "$") + "$"]. *)
Fixpoint drop_dollars (s : chars) : chars :=
  match s with c :: s' => if decide (c = "$"%char) then drop_dollars s' else s | [] => [] end.
Definition TrimRight_dollar (s : chars) : chars := reverse (drop_dollars (reverse s)).
Definition pattern_regex (pattern : string) : string :=
  of_chars (TrimRight_dollar (expand (to_chars ".*") (to_chars pattern)) ++ to_chars "$").

Context (other : string → option (string → bool)).

(** [regexp.MustCompile(pattern).MatchString(indexName)]. *)
Definition pattern_matches (indexName pattern : string) : res bool :=
  match Compile other (pattern_regex pattern) with
  | Some f => Ok (f indexName)
  | None => Panic (PExplicit "regexp: Compile")
  end.

Fixpoint filter_start (indexName : string) (ts : list (string * template)) : res (list (string * template)) :=
  match ts with
  | [] => Ok []
  | t :: ts => b ← any_of (same_start indexName) (IndexPatterns t.2); ts ← filter_start indexName ts;
               Ok (if b : bool then t :: ts else ts)
  end.

Fixpoint first_match (indexName : string) (ts : list (string * template)) : res (option template) :=
  match ts with
  | [] => Ok None
  | t :: ts => b ← any_of (pattern_matches indexName) (IndexPatterns t.2);
               if b : bool then Ok (Some t.2) else first_match indexName ts
  end.

Definition higher (a b : string * template) : bool := (Priority b.2 <? Priority a.2)%Z.

Definition UseTemplate (fails : option string) (srt : sorter higher) (indexName : string) (st : store) : res (option template) :=
  templates ← ListTemplates fails "" st;
  ts ← filter_start indexName (sort_slice srt templates);
  first_match indexName ts.
End templates.

(** * Which template an index gets *)

(** The pattern starts with the first character of the name. *)
Definition starts_like (indexName pattern : string) : bool :=
  match to_chars pattern, to_chars indexName with c :: _, d :: _ => bool_decide (c = d) | _, _ => false end.

(** The end of the name fits the pattern. *)
Definition fits (indexName pattern : string) : Prop :=
  ∃ a t, to_chars indexName = a ++ t ∧ glob any_text (to_chars pattern) t.

(** What the two tests of [UseTemplate] let through; the patterns may differ. *)
Definition applies {B} (indexName : string) (t : IndexTemplate B) : Prop :=
  (∃ p, p ∈ IndexPatterns t ∧ starts_like indexName p = true) ∧ (∃ p, p ∈ IndexPatterns t ∧ fits indexName p).

(** What a pattern means: a [*] stands for any text, every other character for
    itself, and the pattern for the whole name. *)
Fixpoint covers (p s : chars) : bool :=
  match p with
  | [] => bool_decide (s = [])
  | c :: p =>
      if decide (c = "*"%char) then
        (fix any (s : chars) : bool := covers p s || match s with _ :: s => any s | [] => false end) s
      else match s with d :: s => bool_decide (c = d) && covers p s | [] => false end
  end.

(** A template for the index: one of its patterns does not begin with a wildcard
    and stands for the name. *)
Definition meant_for {B} (indexName : string) (t : IndexTemplate B) : Prop :=
  ∃ p, p ∈ IndexPatterns t ∧ String.prefix "*" p = false ∧ covers (to_chars p) (to_chars indexName) = true.

Lemma covers_glob p : ∀ s, any_text s → covers p s = true → glob any_text p s.
Proof.
  induction p as [|c p IH]; intros s Hs Hc; cbn [covers] in Hc; [apply bool_decide_eq_true in Hc as ->; constructor|].
  case_decide as Hstar.
  - subst c. enough (∃ t u, s = t ++ u ∧ covers p u = true) as (t & u & -> & Hu).
    { apply Forall_app in Hs as [Ht Hu']. constructor; [done|]. by apply IH. }
    clear Hs. induction s as [|d s IHs]; apply orb_true_iff in Hc as [Hc|Hc]; try done; [by exists [], []|by exists [], (d :: s)|].
    destruct (IHs Hc) as (t & u & -> & Hu). by exists (d :: t), u.
  - destruct s as [|d s]; [done|]. apply andb_true_iff in Hc as [<-%bool_decide_eq_true Hc]. apply Forall_cons in Hs as [Hd Hs].
    destruct (decide (c = "."%char)) as [->|Hdot]; [apply glob_dot; [done|by apply IH]|apply glob_char; [done..|by apply IH]].
Qed.

(** A pattern whose only special characters are [*] and [.]. *)
Definition plain_pattern (p : string) : Prop := p ≠ "" ∧ Forall (λ c, is_wild c = true) (to_chars p).

Lemma StronglySorted_filter {X} (R : X → X → Prop) (P : X → Prop) `{∀ x, Decision (P x)} l :
  StronglySorted R l → StronglySorted R (filter P l).
Proof.
  induction 1 as [|x l Hs IH Hx]; [constructor|]. rewrite filter_cons. case_decide; [|done]. constructor; [done|].
  rewrite Forall_forall in Hx |- *. intros y [_ Hy]%list_elem_of_filter. by apply Hx.
Qed.

Lemma any_of_spec {X} (f : X → res bool) (P : X → Prop) xs :
  (∀ x, x ∈ xs → ∃ b, f x = Ok b ∧ (b = true ↔ P x)) →
  ∃ b, any_of f xs = Ok b ∧ (b = true ↔ ∃ x, x ∈ xs ∧ P x).
Proof.
  induction xs as [|x xs IH]; intros Hf; cbn.
  - exists false. set_solver.
  - destruct (Hf x) as (b & -> & Hb); [set_solver|]. destruct b; cbn.
    + exists true. split; [done|]. split; [|done]. intros _. exists x. naive_solver set_solver.
    + destruct IH as (b & -> & Hb'); [set_solver|]. exists b. split; [done|]. rewrite Hb'. setoid_rewrite elem_of_cons. naive_solver.
Qed.

Lemma drop_dollars_id s : (∀ c, c ∈ s → c ≠ "$"%char) → drop_dollars s = s.
Proof. destruct s as [|c s]; intros Hs; cbn; [done|]. rewrite decide_False; [done|]. set_solver. Qed.

Lemma pattern_regex_plain p : Forall (λ c, is_wild c = true) (to_chars p) →
  pattern_regex p = of_chars (expand (to_chars ".*") (to_chars p) ++ to_chars "$").
Proof.
  intros Hp. unfold pattern_regex, TrimRight_dollar. rewrite drop_dollars_id; [by rewrite reverse_involutive|].
  intros c Hc Hd. rewrite elem_of_reverse in Hc. unfold expand in Hc. apply elem_of_concat_fmap in Hc as (x & Hx & Hc).
  rewrite Forall_forall in Hp. specialize (Hp x Hx). case_decide.
  - subst. cbn in Hc. set_solver.
  - apply list_elem_of_singleton in Hc. subst. by compute in Hp.
Qed.

Lemma pattern_matches_plain other indexName p : Forall (λ c, is_wild c = true) (to_chars p) →
  ∃ b, pattern_matches other indexName p = Ok b ∧ (b = true ↔ fits indexName p).
Proof.
  intros Hp. unfold pattern_matches. rewrite pattern_regex_plain by done.
  destruct (Compile_any other _ Hp) as (f & -> & Hf). exists (f indexName). split; [done|]. apply Hf.
Qed.

Lemma same_start_plain indexName p : p ≠ "" → ∃ b, same_start indexName p = Ok b ∧ (b = true ↔ starts_like indexName p = true).
Proof.
  destruct p as [|c p]; [done|]. intros _. exists (String.prefix (String c "") indexName). split; [done|].
  destruct indexName as [|d s]; cbn; [done|]. destruct (ascii_dec c d) as [->|Hne]; cbn.
  - rewrite bool_decide_eq_true_2 by done. by destruct s.
  - by rewrite bool_decide_eq_false_2.
Qed.

Section use.
Context {B : Type} (order : map_order string (IndexTemplate B)) (other : string → option (string → bool)) (indexName : string).

Lemma filter_start_plain ts :
  (∀ t, t ∈ ts → Forall plain_pattern (IndexPatterns t.2)) →
  ∃ ts', filter_start indexName ts = Ok ts' ∧
    ∃ keep : string * IndexTemplate B → bool, ts' = filter (λ t, keep t = true) ts ∧
      ∀ t, t ∈ ts → keep t = true ↔ ∃ p, p ∈ IndexPatterns t.2 ∧ starts_like indexName p = true.
Proof.
  intros Hp. exists (filter (λ t, existsb (starts_like indexName) (IndexPatterns t.2) = true) ts). split.
  - induction ts as [|t ts IH]; [done|]. cbn [filter_start].
    destruct (any_of_spec (same_start indexName) (λ p, starts_like indexName p = true) (IndexPatterns t.2)) as (b & -> & Hb).
    { intros p Hin. apply same_start_plain. specialize (Hp t ltac:(set_solver)). rewrite Forall_forall in Hp. by apply Hp. }
    cbn [mbind res_bind]. rewrite IH by set_solver. cbn [mbind res_bind]. rewrite filter_cons. f_equal.
    assert (Heq : b = existsb (starts_like indexName) (IndexPatterns t.2)).
    { apply Bool.eq_iff_eq_true. rewrite Hb, existsb_exists. setoid_rewrite list_elem_of_In. done. }
    rewrite <- Heq. by destruct b.
  - eexists. split; [reflexivity|]. intros t Ht. cbn. rewrite existsb_exists. by setoid_rewrite list_elem_of_In.
Qed.

Lemma first_match_plain (ts : list (string * IndexTemplate B)) :
  (∀ t, t ∈ ts → Forall plain_pattern (IndexPatterns t.2)) →
  ∃ o, first_match other indexName ts = Ok o ∧
    match o with
    | None => ∀ t, t ∈ ts → ¬ ∃ p, p ∈ IndexPatterns t.2 ∧ fits indexName p
    | Some t => ∃ pre n post, ts = pre ++ (n, t) :: post ∧ (∃ p, p ∈ IndexPatterns t ∧ fits indexName p) ∧
                  ∀ t', t' ∈ pre → ¬ ∃ p, p ∈ IndexPatterns t'.2 ∧ fits indexName p
    end.
Proof.
  induction ts as [|[n t] ts IH]; intros Hp; cbn [first_match].
  { exists None. split; [done|]. set_solver. }
  destruct (any_of_spec (pattern_matches other indexName) (fits indexName) (IndexPatterns (n, t).2)) as (b & -> & Hb).
  { intros p Hin. apply pattern_matches_plain. specialize (Hp (n, t) ltac:(set_solver)). rewrite Forall_forall in Hp. by apply Hp. }
  cbn [mbind res_bind]. destruct b.
  - exists (Some t). split; [done|]. exists [], n, ts. split_and!; [done|by apply Hb|set_solver].
  - destruct IH as (o & -> & Ho); [set_solver|]. exists o. split; [done|].
    assert (Hno : ¬ ∃ p, p ∈ IndexPatterns t ∧ fits indexName p) by (intros Hx; by apply Hb in Hx).
    destruct o as [t'|].
    + destruct Ho as (pre & n' & post & -> & Hf & Hpre). exists ((n, t) :: pre), n', post.
      split_and!; [done|done|]. intros x [->|Hx]%elem_of_cons; [done|by apply Hpre].
    + intros x [->|Hx]%elem_of_cons; [done|by apply Ho].
Qed.

Lemma UseTemplate_spec srt st :
  (∀ n t, st !! n = Some t → Forall plain_pattern (IndexPatterns t)) →
  ∃ o, UseTemplate order other None srt indexName st = Ok o ∧
    match o with
    | None => ∀ n t, st !! n = Some t → ¬ applies indexName t
    | Some t => (∃ n, st !! n = Some t) ∧ applies indexName t ∧
                ∀ n' t', st !! n' = Some t' → applies indexName t' → (Priority t' ≤ Priority t)%Z
    end.
Proof.
  intros Hp. unfold UseTemplate, ListTemplates, list_all. cbn [mbind res_bind].
  rewrite decide_False by (intros Hn; by apply Hn). cbn [mbind res_bind].
  pose proof (sort_slice_sorted srt (range order st)) as Hsort.
  assert (Hin : ∀ n t, (n, t) ∈ sort_slice srt (range order st) ↔ st !! n = Some t).
  { intros n t. by rewrite (sort_slice_perm srt), range_elem. }
  revert Hsort Hin. generalize (sort_slice srt (range order st)). intros ts Hsort Hin.
  assert (Hpl : ∀ t, t ∈ ts → Forall plain_pattern (IndexPatterns t.2)) by (intros [n t] Ht; apply Hin in Ht; by eapply Hp).
  destruct (filter_start_plain ts Hpl) as (ts' & -> & keep & -> & Hkeep). cbn [mbind res_bind].
  destruct (first_match_plain (filter (λ t, keep t = true) ts)) as (o & -> & Ho).
  { intros t [_ Ht]%list_elem_of_filter. by apply Hpl. }
  exists o. split; [done|]. destruct o as [t|].
  - destruct Ho as (pre & n & post & Hts & Hf & Hpre).
    assert (Hnt : (n, t) ∈ filter (λ t, keep t = true) ts) by (rewrite Hts; set_solver).
    apply list_elem_of_filter in Hnt as [Hk Hnt]. split_and!; [by exists n; apply Hin|split; [by apply (Hkeep (n, t))|done]|].
    intros n' t' Hn'%Hin [Hs' Hf'].
    assert (Hmem : (n', t') ∈ pre ++ (n, t) :: post).
    { rewrite <- Hts. apply list_elem_of_filter. split; [|done]. by apply Hkeep. }
    apply elem_of_app in Hmem as [Hm|[[= <- <-]|Hm]%elem_of_cons]; [by apply Hpre in Hm|lia|].
    assert (Hs2 : StronglySorted (λ a b, higher b a = false) (pre ++ (n, t) :: post)).
    { rewrite <- Hts. by apply StronglySorted_filter. }
    apply StronglySorted_app_1_r in Hs2. inversion Hs2 as [|? ? _ Hall]; subst. rewrite Forall_forall in Hall.
    specialize (Hall _ Hm). unfold higher in Hall. cbn in Hall. lia.
  - intros n t Hn%Hin [Hs Hf]. apply (Ho (n, t)); [|done]. apply list_elem_of_filter. split; [by apply Hkeep|done].
Qed.

Lemma meant_applies (t : IndexTemplate B) : any_text (to_chars indexName) → Forall plain_pattern (IndexPatterns t) →
  meant_for indexName t → applies indexName t.
Proof.
  intros Hany Hp (p & Hin & Hpre & Hc). rewrite Forall_forall in Hp. destruct (Hp p Hin) as [Hne _]. split; exists p; (split; [done|]).
  - destruct p as [|c p]; [done|]. cbn [String.prefix] in Hpre. destruct (ascii_dec "*" c) as [|Hstar]; [by destruct p; cbn in Hpre|].
    unfold starts_like. change (to_chars (String c p)) with (c :: to_chars p) in *. cbn [covers] in Hc.
    rewrite decide_False in Hc by congruence. destruct (to_chars indexName) as [|d l]; [done|].
    by apply andb_true_iff in Hc as [? _].
  - exists [], (to_chars indexName). split; [done|]. by apply covers_glob.
Qed.

(** C35: a new index gets a template of the highest priority.  The name has no
    line break, and the patterns of the stored templates are not empty and contain
    no special character but [*] and [.].  Then [UseTemplate] returns; when some
    template is for the index (one of its patterns does not begin with a wildcard
    and stands for the whole name), a template is found, and its priority is not
    below that of any template for the index; and a template that is found is a
    stored one, with a pattern that begins like the name and a pattern that fits
    the end of the name. *)
Theorem UseTemplate_best srt st :
  any_text (to_chars indexName) → (∀ n t, st !! n = Some t → Forall plain_pattern (IndexPatterns t)) →
  ∃ o, UseTemplate order other None srt indexName st = Ok o ∧
    (∀ n' t', st !! n' = Some t' → meant_for indexName t' → ∃ t, o = Some t ∧ (Priority t' ≤ Priority t)%Z) ∧
    (∀ t, o = Some t → (∃ n, st !! n = Some t) ∧ (∃ p, p ∈ IndexPatterns t ∧ starts_like indexName p = true) ∧
                       (∃ p, p ∈ IndexPatterns t ∧ fits indexName p)).
Proof.
  intros Hany Hp. destruct (UseTemplate_spec srt st Hp) as (o & Ho & Hspec). exists o. split_and!; [done| |].
  - intros n' t' Hn' Hm. assert (applies indexName t') as Ha by (apply meant_applies; [done|by eapply Hp|done]).
    destruct o as [t|]; [|by apply (Hspec n' t') in Ha]. exists t. split; [done|]. by eapply Hspec.
  - intros t ->. destruct Hspec as (Hst & [Hs Hf] & _). done.
Qed.
End use.

(** ** Patterns that never or always interfere *)

(** A template all of whose patterns start with [*] is never used for an
    index with a valid name: the first character of the pattern is compared with
    that of the name before the pattern is tried. *)
Theorem leading_wildcard_never_applies {B} order other srt indexName (st : gmap string (IndexTemplate B)) t :
  (∀ n t, st !! n = Some t → Forall plain_pattern (IndexPatterns t)) → CheckIndexName indexName = Ok tt →
  UseTemplate order other None srt indexName st = Ok (Some t) →
  ¬ Forall (λ p, String.prefix "*" p = true) (IndexPatterns t).
Proof.
  intros Hp Hn Hu Hstar. destruct (UseTemplate_spec order other indexName srt st Hp) as (o & Ho & Hbest).
  rewrite Hu in Ho. injection Ho as <-. destruct Hbest as (_ & [(p & Hin & Hs) _] & _).
  rewrite Forall_forall in Hstar. specialize (Hstar p Hin). unfold CheckIndexName in Hn.
  destruct p as [|c p]; [done|].
  cbn [String.prefix] in Hstar. destruct (ascii_dec "*" c) as [<-|]; [|done].
  destruct indexName as [|d s]; [done|]. unfold starts_like in Hs. cbn in Hs. apply bool_decide_eq_true in Hs as <-.
  by cbn in Hn.
Qed.

Lemma any_of_start indexName ps : any_of (same_start indexName) ps = Panic PSlice ∨ ∃ b, any_of (same_start indexName) ps = Ok b.
Proof.
  induction ps as [|[|c p] ps IH]; cbn; [by right; exists false|by left|].
  destruct (String.prefix _ _); [by right; exists true|exact IH].
Qed.

Lemma filter_start_empty {B} indexName (ts : list (string * IndexTemplate B)) n t ps :
  (n, t) ∈ ts → IndexPatterns t = "" :: ps → filter_start indexName ts = Panic PSlice.
Proof.
  induction ts as [|[n' t'] ts IH]; [by intros ?%elem_of_nil|]. intros [[= <- <-]|Hin]%elem_of_cons Hps; cbn [filter_start snd].
  - by rewrite Hps.
  - destruct (any_of_start indexName (IndexPatterns t')) as [->|[b ->]]; [done|]. cbn [mbind res_bind]. by rewrite IH.
Qed.

(** An empty pattern stops the creation of indexes: [NewTemplate] accepts
    it like any other, and from then on [UseTemplate], which every new index
    runs, panics for every name. *)
Theorem empty_pattern_blocks_creation {B} (order : map_order string (IndexTemplate B)) other list_fails now name t ps st st' :
  name ≠ "" → IndexPatterns t = "" :: ps → NewTemplate order list_fails None now name (Some t) st = (Ok tt, st') →
  ∀ srt indexName, UseTemplate order other None srt indexName st' = Panic PSlice.
Proof.
  intros Hname Hps Hnew srt indexName. unfold NewTemplate in Hnew. rewrite decide_False in Hnew by done.
  destruct (existsb _ _); [done|]. injection Hnew as <-. unfold UseTemplate, ListTemplates, list_all. cbn [mbind res_bind].
  rewrite decide_False by (intros Hn; by apply Hn). cbn [mbind res_bind].
  rewrite (filter_start_empty _ _ name (mkTemplate (IndexPatterns t) (Priority t) (body t) now now) ps); [done| |done].
  rewrite (sort_slice_perm srt), range_elem. apply lookup_insert_eq.
Qed.

(** ** Priorities *)

(** No two templates share a pattern and the priority. *)
Definition unambiguous {B} (st : gmap string (IndexTemplate B)) : Prop :=
  ∀ n n' t t' p, st !! n = Some t → st !! n' = Some t' → n ≠ n' → p ∈ IndexPatterns t → p ∈ IndexPatterns t' → Priority t ≠ Priority t'.

Lemma taken_spec {B} (order : map_order string (IndexTemplate B)) name t st p n' t' :
  taken order None name t st p = false → st !! n' = Some t' → n' ≠ name → p ∈ IndexPatterns t' → Priority t ≠ Priority t'.
Proof.
  intros Ht Hn Hne Hp Heq. enough (taken order None name t st p = true) by congruence.
  unfold taken, ListTemplates, list_all. cbn [mbind res_bind]. apply existsb_exists. exists (n', t').
  split; [|by rewrite !bool_decide_eq_true_2]. apply list_elem_of_In.
  case_decide; [apply list_elem_of_filter; split; [done|]|]; by apply range_elem.
Qed.

(** As long as the templates can be listed, no sequence of creations,
    updates and deletions leads to two templates that share a pattern and the
    priority; one that would is refused and changes nothing. *)
Theorem templates_stay_unambiguous {B} (order : map_order string (IndexTemplate B)) set_fails now name t st :
  unambiguous st →
  unambiguous (NewTemplate order (λ _, None) set_fails now name t st).2 ∧
  unambiguous (DeleteTemplate set_fails name st).2.
Proof.
  intros Hst. split.
  - unfold NewTemplate. destruct t as [t|]; [|done]. case_decide as Hname; [done|].
    destruct (existsb _ _) eqn:He; [done|]. destruct set_fails as [|]; [done|]. cbn.
    assert (Hfree : ∀ p, p ∈ IndexPatterns t → taken order None name t st p = false).
    { intros p Hp. destruct (taken order None name t st p) eqn:Ht; [|done].
      enough (existsb (λ p, taken order None name t st p) (IndexPatterns t) = true) by congruence.
      apply existsb_exists. exists p. split; [by apply list_elem_of_In|done]. }
    intros n n' t1 t2 p H1 H2 Hne Hp1 Hp2. destruct (decide (n = name)) as [->|Hn], (decide (n' = name)) as [->|Hn'].
    + done.
    + rewrite lookup_insert_eq in H1. rewrite lookup_insert_ne in H2 by done. simplify_eq. cbn in *.
      by apply (taken_spec order name t st p n' t2 (Hfree p Hp1)).
    + rewrite lookup_insert_eq in H2. rewrite lookup_insert_ne in H1 by done. simplify_eq. cbn in *.
      intros Heq. symmetry in Heq. revert Heq. by apply (taken_spec order name t st p n t1 (Hfree p Hp2)).
    + rewrite lookup_insert_ne in H1, H2 by done. by apply (Hst n n' t1 t2 p).
  - destruct set_fails as [|]; [done|]. cbn. intros n n' t1 t2 p [_ H1]%lookup_delete_Some [_ H2]%lookup_delete_Some.
    by apply (Hst n n' t1 t2 p).
Qed.

(** * Concrete templates *)

Module TemplateDemo.
Definition no_regex : string → option (string → bool) := λ _, None.
Definition log_template : IndexTemplate string := mkTemplate ["log-*"; "trace-*"] 1 "logs" 0 0.
Definition error_template : IndexTemplate string := mkTemplate ["log-error-*"] 5 "errors" 0 0.
Definition catch_all : IndexTemplate string := mkTemplate ["*"] 9 "all" 0 0.
Definition demo_store : gmap string (IndexTemplate string) :=
  {["logs" := log_template; "errors" := error_template; "all" := catch_all]}.
Definition demo_sort : sorter (higher (B := string)) := key_sorter (λ t, Priority t.2).

Definition used (indexName : string) : res (option string) :=
  (λ o : option (IndexTemplate string), body <$> o) <$> UseTemplate map_order_default no_regex None demo_sort indexName demo_store.

#[global] Instance plain_pattern_dec p : Decision (plain_pattern p).
Proof. unfold plain_pattern. apply _. Defined.

Lemma demo_plain n t : demo_store !! n = Some t → Forall plain_pattern (IndexPatterns t).
Proof.
  intros Hn. assert (Hall : map_Forall (λ _ t, Forall plain_pattern (IndexPatterns t)) demo_store).
  { apply (bool_decide_unpack _). vm_compute. exact I. }
  exact (Hall n t Hn).
Defined.

(** The most specific of two log templates has priority; the template for all
    indexes is passed over. *)
Lemma UseTemplate_best_witness :
  used "log-error-1" = Ok (Some "errors") ∧ meant_for "log-error-1" error_template ∧ meant_for "log-error-1" log_template ∧
  ∃ t, UseTemplate map_order_default no_regex None demo_sort "log-error-1" demo_store = Ok (Some t) ∧ (5 ≤ Priority t)%Z.
Proof.
  assert (meant_for "log-error-1" error_template) as Hm by (exists "log-error-*"; split_and!; [by left|done|by vm_compute]).
  split_and!; [by vm_compute|done|exists "log-*"; split_and!; [by left|done|by vm_compute]|].
  destruct (UseTemplate_best map_order_default no_regex "log-error-1" demo_sort demo_store) as (o & Ho & Hbest & _).
  - apply (bool_decide_unpack _). by vm_compute.
  - exact demo_plain.
  - destruct (Hbest "errors" error_template) as (t & -> & Ht); [by vm_compute|done|]. exists t. split; [exact Ho|exact Ht].
Defined.

Lemma leading_wildcard_never_applies_witness : ¬ Forall (λ p, String.prefix "*" p = true) (IndexPatterns error_template).
Proof.
  apply (leading_wildcard_never_applies map_order_default no_regex demo_sort "log-error-1" demo_store);
    [exact demo_plain|by vm_compute..].
Defined.

(** A pattern may be matched by the end of a name alone. *)
Theorem pattern_matches_the_end : used "latest-log-1" = Ok (Some "logs").
Proof. by vm_compute. Qed.

Definition bad_template : IndexTemplate string := mkTemplate [""] 3 "none" 0 0.

Lemma empty_pattern_blocks_creation_witness :
  ∃ st', NewTemplate map_order_default (λ _, None) None 0 "bad" (Some bad_template) demo_store = (Ok tt, st') ∧
    UseTemplate map_order_default no_regex None demo_sort "books" st' = Panic PSlice.
Proof.
  eexists. split; [vm_compute; reflexivity|].
  apply (empty_pattern_blocks_creation map_order_default no_regex (λ _, None) 0 "bad" bad_template [] demo_store); [done|done|by vm_compute].
Defined.

Lemma demo_unambiguous : unambiguous demo_store.
Proof.
  assert (Hall : map_Forall (λ n t, map_Forall (λ n' t', n ≠ n' → Priority t ≠ Priority t') demo_store) demo_store).
  { apply (bool_decide_unpack _). vm_compute. exact I. }
  intros n n' t t' p H1 H2 Hne _ _. exact (Hall n t H1 n' t' H2 Hne).
Defined.

Lemma templates_stay_unambiguous_witness :
  unambiguous demo_store ∧
  unambiguous (NewTemplate map_order_default (λ _, None) None 7 "logs" (Some error_template) demo_store).2 ∧
  unambiguous (DeleteTemplate None "logs" demo_store).2.
Proof. split; [exact demo_unambiguous|]. apply templates_stay_unambiguous. exact demo_unambiguous. Defined.
End TemplateDemo.
