(* ===== verification/VectorSearch.v ===== *)
(** Searches for vectors: the node (pkg/core/vector_search.go) and the proxy that
    spreads the segments of a large ivf_pq index over the nodes
    (cmd/zinc-proxy/vector.go).  Of a response the highest score is left out. *)
From stdpp Require Import functions.
From Stdlib Require Import SpecFloat.
From S2P Require Import Prelude Hash Strconv Value Document Shards VectorStore Float32 Heap Merge HNSWCache HNSWSegment IvfSegment IvfIndex Query TimeRange Request Search SearchStats IndexMgr Routing IndexSearch Unified.
Import Meta.

(** * Requests *)

(** [VectorQuery]; [VNil] is an absent [filter_query]. *)
Record VectorQuery := mkVQ {
  v_return_fields : value; v_query_field : string; v_vector : vector; v_k : Z; v_nprobe : Z; v_source : value; v_filter : value
}.

(** What the [VecIndex] interface answers: the dimensions, a search and a search
    among the ids given. *)
Record VecOps := mkVecOps {
  vo_dims : Z; vo_Search : vector → Z → Z → res (gmap string Z); vo_SearchByIDs : vector → Z → list string → res (list DocDistance)
}.

(** What the proxy asks a node: [core.InternalVectorQuery]. *)
Record InternalVectorQuery := mkIVQ {
  iv_index : string; iv_query_field : string; iv_k : Z; iv_vector : vector; iv_nprobe : Z; iv_segments : list Z
}.

(** How [GetVectorIndex] ends. *)
Inductive vec_outcome := VecNotExists | VecFailed (err : string) | VecFound (v : VecOps).

(** [&meta.Query{Ids: ...}] as the parser reads it, after JSON. *)
Definition ids_query (ids : list string) : value := VMap [("ids", VMap [("values", VArr (VStr <$> ids))])].

(** [float64(1 / (1 + d))] with the division in float32. *)
Definition score_of (d : Z) : spec_float := f32_div (f32_of_int 1) (f32_add (f32_of_int 1) (of_bits d)).

(** [cmp.Compare(x, y) < 0]: a NaN is below every number. *)
Definition is_nan (x : spec_float) : bool := match x with S754_nan => true | _ => false end.
Definition cmp_lt (x y : spec_float) : bool := (is_nan x && negb (is_nan y)) || SFltb x y.

(** The order of the numbers, as a lexicographic one. *)
Definition float_key (x : spec_float) : Z * Z * Z :=
  match x with
  | S754_nan => (-3, 0, 0)
  | S754_infinity s => (if s then -2 else 2, 0, 0)
  | S754_finite s m e => if s then (-1, - e, - Zpos m) else (1, e, Zpos m)
  | S754_zero _ => (0, 0, 0)
  end%Z.
Definition key_lt (a b : Z * Z * Z) : bool :=
  ((a.1.1 <? b.1.1) || (a.1.1 =? b.1.1) && ((a.1.2 <? b.1.2) || (a.1.2 =? b.1.2) && (a.2 <? b.2)))%Z.
Lemma cmp_lt_key x y : cmp_lt x y = key_lt (float_key x) (float_key y).
Proof.
  destruct x as [[]|[]| |[] m e], y as [[]|[]| |[] m' e']; try done; unfold cmp_lt, SFltb, SFcompare, key_lt; cbn;
  change (Pos.compare_cont Eq m m') with (Pos.compare m m'); change (PosDef.Pos.compare_cont Eq m m') with (Pos.compare m m');
    destruct (Z.compare_spec e e'), (Pos.compare_spec m m'); subst; cbn; symmetry; lia.
Qed.
#[global] Instance cmp_lt_order : WeakOrder cmp_lt.
Proof. constructor; intros; rewrite cmp_lt_key in *; unfold key_lt in *; lia. Qed.

(** Hits with the scores they are given. *)
Definition by_new_score (a b : Hit * spec_float) : bool := cmp_lt b.2 a.2.

(** [Hits[i].Score > Hits[j].Score]. *)
Definition higher_score (a b : Hit * spec_float) : bool := SFltb b.2 a.2.

Section node.
Context {W M : Type}.
Context (cfg_err : option string) (shard_name : @IndexShard W → string)
  (OpenReader : @IndexShard W → Z → nat → open_outcome) (read : option UnifiedStats → @IndexShard W → Z → @searcher M).
Context (stored : M → res (list (string * string))) (sort_less : option SortOrder → M → M → bool).
Context {lib : GoLib} {qlib : QueryLib} (unmarshal : string → option (gmap string value))
  (format_time : Z → string → string) (order_fields : map_order string value).
Context (sort_conditions : sorter cond_less) (order : map_order string Property) (e : renv) (again : value → value)
  (pick : list string → string) (arrival : shuffle (Hit * M)).
Context (GetVectorIndex : string → string → vec_outcome) (order_found : map_order string Z)
  (by_distance : sorter (λ a b, f32_cmp_lt (Distance a) (Distance b))) (by_score : sorter by_new_score).

Abbreviation index_search := (IndexSearch.Search cfg_err shard_name OpenReader read stored sort_less unmarshal format_time order_fields
  sort_conditions order e again pick arrival).

Definition dims_error (v : VecOps) : string := "invalid query vector, the vector dims should be " +:+ pretty (vo_dims v).

Definition searchVector (x : @SearchIndex W) (q : VectorQuery) : res (list DocDistance) :=
  match GetVectorIndex (x_name x) (v_query_field q) with
  | VecNotExists => Ok []
  | VecFailed err => Err err
  | VecFound v =>
      if decide (vo_dims v ≠ Z.of_nat (length (v_vector q))) then Err (dims_error v)
      else if (match v_filter q with VNil => true | _ => false end) then
        result ← vo_Search v (v_vector q) (v_k q) (v_nprobe q);
        Ok ((λ kv, mkDist kv.1 kv.2) <$> range order_found result)
      else
        resp ← (index_search x (mkZincQuery (v_filter q) false None None (SourceJson VNil) (Some (SortJson (VArr [VStr "_id"])))
                                  false 0 (MaxResults e))).1;
        let docIDs := hit_id <$> r_hits resp in
        if decide (docIDs = []) then Ok [] else vo_SearchByIDs v (v_vector q) (v_k q) docIDs
  end.

(** The score a hit gets: that of the first distance with its id. *)
Definition hit_score (distances : list DocDistance) (h : Hit) : spec_float :=
  match head (filter (λ d, DocID d = hit_id h) distances) with
  | Some d => score_of (Distance d)
  | None => S754_zero false
  end.

Definition scored (distances : list DocDistance) (hs : list Hit) : list (Hit * spec_float) :=
  sort_slice by_score ((λ h, (h, hit_score distances h)) <$> hs).

Definition retrieveVectorDocuments (xs : list (@SearchIndex W)) (q : VectorQuery) (distances : list DocDistance)
    : res (list (Hit * spec_float) * Z) :=
  src ← source_Request (SourceJson (v_source q));
  fs ← match v_return_fields q with VArr vs => Some <$> fields_Request vs | _ => Ok None end;
  let zq := mkZincQuery (ids_query (DocID <$> distances)) false None (FieldsParsed <$> fs) (SourceParsed src) None false 0
              (Z.of_nat (length distances)) in
  match xs with
  | [] => Panic PIndex
  | x :: _ =>
      resp ← (MultiZincSearch stored sort_less unmarshal format_time order_fields ∅ (x_mappings x) sort_conditions order e pick arrival zq
                (searcher_Search cfg_err shard_name OpenReader read None <$> concat ((λ x, GetSearchers x 0 0) <$> xs))).1;
      Ok (scored distances (r_hits resp), r_total resp)
  end.

(** [VectorSearch]: the hits with their scores, and the total. *)
Definition VectorSearch (xs : list (@SearchIndex W)) (q : VectorQuery) : res (list (Hit * spec_float) * Z) :=
  distances ← foldM (λ ds x, r ← searchVector x q; Ok (ds ++ r)) [] xs;
  if decide (distances = []) then Ok ([], 0%Z)
  else
    let distances := sort_slice by_distance distances in
    if decide (v_k q < Z.of_nat (length distances))%Z then
      if decide (v_k q < 0)%Z then Panic PSlice
      else retrieveVectorDocuments xs q (take (Z.to_nat (v_k q)) distances)
    else retrieveVectorDocuments xs q distances.

(** [InternalVectorSearch]: some segments of an index, for the proxy. *)
Definition InternalVectorSearch (PartialSearch : string → string → vector → Z → Z → list Z → res (gmap string Z))
    (q : InternalVectorQuery) : res (gmap string Z) :=
  match GetVectorIndex (iv_index q) (iv_query_field q) with
  | VecNotExists => Err "index not found"
  | VecFailed err => Err err
  | VecFound v =>
      if decide (vo_dims v ≠ Z.of_nat (length (iv_vector q))) then Err (dims_error v)
      else if decide (iv_segments q = []) then Err "invalid segment ids"
      else PartialSearch (iv_index q) (iv_query_field q) (iv_vector q) (iv_k q) (iv_nprobe q) (iv_segments q)
  end.
End node.

(** * The proxy *)

Section proxy.
Context (NodeLimit Threshold : Z) (st : Proxy.state).

(** One segment to the next node. *)
Definition assign_segment (acc : gmap string (list Z) * Parallel.queryNodes) (segment : Z) : res (gmap string (list Z) * Parallel.queryNodes) :=
  let '(m, nodes) := acc in
  '(n, nodes) ← Parallel.Next nodes;
  Ok (match m !! Proxy.addr n with
      | Some segments => <[Proxy.addr n := segments ++ [segment]]> m
      | None => <[Proxy.addr n := [segment]]> m
      end, nodes).

(** [calcNodeSegmentsMap]; [None] stands for a search on one node. *)
Definition calcNodeSegmentsMap (indexName TargetType : string) (segments : list Z) : res (option (gmap string (list Z))) :=
  let nodeList := Proxy.GetNodeList st in
  if decide (nodeList = [] ∨ TargetType ≠ "ivf_pq" ∨ (Z.of_nat (length segments) < Threshold)%Z) then Ok None
  else
    nodes ← Parallel.getQueryNodes NodeLimit st nodeList indexName;
    '(m, _) ← foldM assign_segment (∅, nodes) segments;
    Ok (Some m).

(** What a node answers to a search of some of its segments. *)
Context (ask : string → InternalVectorQuery → string + reply (gmap string Z)) (order_nodes : map_order string (list Z))
  (pick : list fetch_error → fetch_error) (arrival : shuffle (gmap string Z)) (order_ids : map_order string Z).
(** The lookup of the documents: [calcNodeIndexMap] and [execParallelQueries]. *)
Context (plan : res Parallel.NodeIndexMap)
  (exec : Parallel.NodeIndexMap → gmap string ZincQuery → res (SearchResponse + fetch_error)).
Context (by_score : sorter higher_score).

Definition internal_query (indexName : string) (q : VectorQuery) (segments : list Z) : InternalVectorQuery :=
  mkIVQ indexName (v_query_field q) (v_k q) (v_vector q) (v_nprobe q) segments.

Definition segment_results (indexName : string) (q : VectorQuery) (m : gmap string (list Z)) : gmap string Z + fetch_error :=
  match gather pick ((λ ns, fetchHTTP ns.1 (ask ns.1 (internal_query indexName q ns.2))) <$> range order_nodes m) with
  | inl rs => inl (foldl (λ vecResult matched, matched ∪ vecResult) ∅ (shuf arrival rs))
  | inr err => inr err
  end.

Definition fetch_status {A} (err : fetch_error) : reply A :=
  match err with
  | HttpClientError msg code => Reply code (inl msg)
  | FetchFailed _ => Reply StatusInternalServerError (inl "internal server error")
  end.

(** [SearchVector] after the plan of the segments: the ids found, their documents
    and the best of them. *)
Definition parallel_vector_search (indexName : string) (q : VectorQuery) (m : gmap string (list Z))
    : res (reply (list (Hit * spec_float) * Z)) :=
  match segment_results indexName q m with
  | inr err => Ok (fetch_status err)
  | inl vecResult =>
      let docIdSlice := (range order_ids vecResult).*1 in
      let idQuery := mkZincQuery (ids_query docIdSlice) false None None (SourceJson VNil) None false 0 (Z.of_nat (length docIdSlice)) in
      match plan with
      | Panic p => Panic p
      | Err err => Ok (Reply StatusBadRequest (inl err))
      | Ok nodes =>
          r ← exec nodes {[indexName := idQuery]};
          match r with
          | inr err => Ok (fetch_status err)
          | inl res =>
              let score h := match vecResult !! hit_id h with Some d => score_of d | None => S754_zero false end in
              let hits := sort_slice by_score ((λ h, (h, score h)) <$> r_hits res) in
              if decide (v_k q < Z.of_nat (length hits))%Z then
                if decide (v_k q < 0)%Z then Panic PSlice
                else Ok (Reply StatusOK (inr (take (Z.to_nat (v_k q)) hits, r_total res)))
              else Ok (Reply StatusOK (inr (hits, r_total res)))
          end
      end
  end.

(** How [IndexMgr.GetQueryIndex] ends; of the index, the mappings, and the type
    and segments of its vector indexes. *)
Inductive query_index :=
  | IndexMissing | IndexClientError (msg : string) (code : Z) | IndexFailed
  | IndexFound (mappings : Mappings) (GetVecIndex : string → option (string * list Z)).

(** [SearchVector] after the body was read; [forward] is the answer of the node
    that owns the index. *)
Definition SearchVector (get : query_index) (forward : reply (list (Hit * spec_float) * Z)) (indexName : string) (q : VectorQuery)
    : res (reply (list (Hit * spec_float) * Z)) :=
  let bad msg := Ok (Reply StatusBadRequest (inl ("vector search error: " +:+ msg))) in
  let field := v_query_field q in
  match get with
  | IndexMissing => Ok (Reply StatusNotFound (inl "index not found"))
  | IndexClientError msg code => Ok (Reply code (inl msg))
  | IndexFailed => Ok (Reply StatusInternalServerError (inl "internal server error"))
  | IndexFound mappings GetVecIndex =>
      match mappings !! field with
      | None => bad ("field " +:+ field +:+ " not found in mapping")
      | Some prop =>
          if decide (Type_ prop ≠ "vector") then bad ("field " +:+ field +:+ " is not vector field")
          else if decide (Dims prop ≠ Z.of_nat (length (v_vector q))) then
            bad ("invalid query vector, the dims should be " +:+ pretty (Dims prop))
          else match GetVecIndex field with
               | None => bad ("vector index " +:+ field +:+ " not found")
               | Some (TargetType, segments) =>
                   match calcNodeSegmentsMap indexName TargetType segments with
                   | Panic p => Panic p
                   | Err _ => Ok (Reply StatusInternalServerError (inl "internal server error"))
                   | Ok None => Ok forward
                   | Ok (Some m) => parallel_vector_search indexName q m
                   end
               end
      end
  end.

(** A search of a large index for vectors ignores the filter: of two
    requests that differ in [filter_query], [_source] and [return_fields] only,
    the proxy makes the same answer as soon as it searches in parallel. *)
Theorem parallel_search_ignores_filter mappings GetVecIndex forward indexName q filter source fields target segments m :
  GetVecIndex (v_query_field q) = Some (target, segments) → calcNodeSegmentsMap indexName target segments = Ok (Some m) →
  SearchVector (IndexFound mappings GetVecIndex) forward indexName q =
  SearchVector (IndexFound mappings GetVecIndex) forward indexName
    (mkVQ fields (v_query_field q) (v_vector q) (v_k q) (v_nprobe q) source filter).
Proof. intros Hv Hm. unfold SearchVector. cbn [v_query_field v_vector]. by rewrite Hv, Hm. Qed.
End proxy.

(** * The plan of the segments *)

Lemma segments_added (m : gmap string (list Z)) a s :
  concat (map_to_list (match m !! a with Some l => <[a := l ++ [s]]> m | None => <[a := [s]]> m end)).*2 ≡ₚ
  concat (map_to_list m).*2 ++ [s].
Proof.
  destruct (m !! a) as [l|] eqn:Ha.
  - rewrite <- (insert_delete_eq m a (l ++ [s])).
    rewrite (concat_perm snd _ _ (map_to_list_insert (delete a m) a (l ++ [s]) (lookup_delete_eq m a))).
    pose proof (map_to_list_delete m a l Ha) as Hd. rewrite <- (concat_perm snd _ _ Hd). cbn.
    rewrite <- !app_assoc. apply Permutation_app_head, Permutation_app_comm.
  - rewrite (concat_perm snd _ _ (map_to_list_insert m a [s] Ha)). cbn. apply Permutation_cons_append.
Qed.

Lemma segments_assigned segments : ∀ m nodes,
  Parallel.qn_ok nodes →
  ∃ m' nodes', foldM assign_segment (m, nodes) segments = Ok (m', nodes') ∧
    concat (map_to_list m').*2 ≡ₚ concat (map_to_list m).*2 ++ segments ∧
    ((∀ a l, m !! a = Some l → l ≠ [] ∧ ∃ n, n ∈ Parallel.addrs nodes ∧ Proxy.addr n = a) →
      ∀ a l, m' !! a = Some l → l ≠ [] ∧ ∃ n, n ∈ Parallel.addrs nodes ∧ Proxy.addr n = a).
Proof.
  induction segments as [|s segments IH]; intros m nodes Hq; cbn [foldM].
  { exists m, nodes. by rewrite app_nil_r. }
  destruct (Parallel.Next_ok nodes Hq) as (n & t & Hn & Hq' & Ht). 
  assert (Hs : assign_segment (m, nodes) s = Ok (match m !! Proxy.addr n with Some l => <[Proxy.addr n := l ++ [s]]> m | None => <[Proxy.addr n := [s]]> m end, t))
    by (unfold assign_segment; by rewrite Hn).
  rewrite Hs. cbn [mbind res_bind].
  destruct (IH (match m !! Proxy.addr n with Some l => <[Proxy.addr n := l ++ [s]]> m | None => <[Proxy.addr n := [s]]> m end) t Hq')
    as (m' & nodes' & -> & Hp & Hinv).
  exists m', nodes'. split; [done|]. split; [rewrite Hp, segments_added; by rewrite <- app_assoc|]. rewrite Ht in Hinv.
  intros Hm. apply Hinv. intros a l Hl.
  assert (Hin : n ∈ Parallel.addrs nodes).
  { unfold Parallel.Next in Hn. destruct (Parallel.addrs nodes !! Parallel.cur nodes) eqn:E; [|done].
    injection Hn as <- _. by apply list_elem_of_lookup_2 in E. }
  destruct (m !! Proxy.addr n) as [l0|] eqn:E; apply lookup_insert_Some in Hl as [[<- <-]|[_ Hl]]; eauto; (split; [by try destruct l0|by exists n]).
Qed.

(** The segments of a large ivf_pq index are spread over the nodes without
    loss: for an index that is assigned, a plan is found, every segment goes to
    exactly one node, and only registered nodes, with something to search, are
    asked. *)
Theorem vector_plan_covers NodeLimit Threshold st indexName segments nodeId :
  (0 < NodeLimit)%Z → Proxy.GetNodeList st ≠ [] → (Threshold ≤ Z.of_nat (length segments))%Z →
  Proxy.getAssignNodeByIndex st indexName = Some nodeId →
  ∃ m, calcNodeSegmentsMap NodeLimit Threshold st indexName "ivf_pq" segments = Ok (Some m) ∧
    concat (map_to_list m).*2 ≡ₚ segments ∧
    ∀ a l, m !! a = Some l → l ≠ [] ∧ ∃ n, n ∈ Proxy.GetNodeList st ∧ Proxy.addr n = a.
Proof.
  intros Hlim Hnl Hth Hown. unfold calcNodeSegmentsMap. rewrite decide_False by (intros [?|[?|?]]; [done|done|lia]).
  unfold Parallel.getQueryNodes. rewrite Hown.
  assert (0 < length (Proxy.GetNodeList st)) as Hlen by (destruct (Proxy.GetNodeList st); [done|cbn; lia]).
  destruct (Parallel.take_nodes_ok (Z.to_nat (Z.min (Z.of_nat (length (Proxy.GetNodeList st))) NodeLimit))
    (Proxy.GetNodeList st) (Parallel.owner_index nodeId (Proxy.GetNodeList st) 0)) as (r & -> & Hr & Hsub).
  { destruct (Parallel.owner_index_lt nodeId (Proxy.GetNodeList st) 0); lia. }
  cbn [mbind res_bind].
  destruct (segments_assigned segments ∅ (Parallel.mkQN r 0)) as (m & t & -> & Hp & Hinv).
  { unfold Parallel.qn_ok. cbn. lia. }
  cbn. exists m. split; [done|]. split; [by rewrite Hp|]. intros a l Hl.
  destruct (Hinv (λ a l (H : ∅ !! a = Some l), ltac:(by rewrite lookup_empty in H)) a l Hl) as [Hne (n & Hn & Ha)].
  split; [done|]. exists n. split; [by apply Hsub|done].
Qed.

(** * What the proxy finds *)

(** A row: an id and its distance. *)
Definition nearer_row (a b : string * Z) : bool := f32_cmp_lt a.2 b.2.

#[global] Instance nearer_row_order : WeakOrder nearer_row.
Proof.
  unfold nearer_row, f32_cmp_lt, f32_lt. constructor; intros; destruct (f32_nan a.2); try destruct (f32_nan b.2); try destruct (f32_nan c.2);
    cbn in *; try done; lia.
Qed.

Lemma union_of_lists (Ls : list (list (string * Z))) : ∀ l0,
  foldl (λ (acc : gmap string Z) m, m ∪ acc) (list_to_map l0) (list_to_map <$> Ls) = list_to_map (concat (reverse Ls) ++ l0).
Proof.
  induction Ls as [|L Ls IH]; intros l0; [done|]. cbn [fmap list_fmap foldl].
  rewrite <- list_to_map_app, IH. f_equal. rewrite reverse_cons, concat_app. cbn. by rewrite app_nil_r, <- app_assoc.
Qed.

Lemma merged_rows (arrival : shuffle (gmap string Z)) (Ls : list (list (string * Z))) :
  NoDup (concat Ls).*1 →
  map_to_list (foldl (λ (acc : gmap string Z) m, m ∪ acc) ∅ (shuf arrival (list_to_map <$> Ls))) ≡ₚ concat Ls.
Proof.
  intros Hnd. assert (∃ Ls', shuf arrival (list_to_map <$> Ls) = list_to_map <$> Ls' ∧ Ls ≡ₚ Ls') as (Ls' & -> & Hp).
  { destruct (Permutation_map_inv _ _ (shuf_perm arrival (list_to_map <$> Ls))) as (Ls' & Hs & Hp). by exists Ls'. }
  change (∅ : gmap string Z) with (list_to_map [] : gmap string Z).
  assert (Hall : concat (reverse Ls') ++ [] ≡ₚ concat Ls).
  { rewrite app_nil_r, <- (list_fmap_id (reverse Ls')), <- (list_fmap_id Ls) at 1. apply concat_perm.
    by rewrite reverse_Permutation, Hp. }
  rewrite (union_of_lists Ls' []), map_to_list_to_map; [done|]. by rewrite Hall.
Qed.

Lemma pages_length {A} (less : A → A → bool) k (ls pages : list (list A)) :
  Forall2 (is_page less 0 k) ls pages → length (concat pages) ≤ k * length pages.
Proof.
  induction 1 as [|l p ls pages (s & _ & _ & ->) _ IH]; [cbn; lia|]. cbn [concat length]. rewrite length_app, length_take. lia.
Qed.

Section found.
Context (rows : Z → list (string * Z)) (segments : list Z) (k : nat).
Abbreviation all_rows := (concat (rows <$> segments)).
Hypothesis Hids : NoDup all_rows.*1.

(** The nodes: each answers with the nearest rows of the segments of the index it
    is asked for. *)
Context (ask : string → InternalVectorQuery → string + reply (gmap string Z)) (indexName : string) (q : VectorQuery).
Hypothesis Hask : ∀ a l, l ≠ [] → l ⊆ segments → ∃ xs, ask a (internal_query indexName q l) = inr (Reply StatusOK (inr (list_to_map xs))) ∧
  is_page nearer_row 0 k (concat (rows <$> l)) xs.

Context (order_nodes : map_order string (list Z)) (pick : list fetch_error → fetch_error) (arrival : shuffle (gmap string Z))
  (order_ids : map_order string Z).

Lemma nodes_found (nls : list (string * list Z)) :
  (∀ a l, (a, l) ∈ nls → l ≠ [] ∧ l ⊆ segments) →
  ∃ Ls, (λ ns, fetchHTTP ns.1 (ask ns.1 (internal_query indexName q ns.2))) <$> nls = inl <$> (list_to_map <$> Ls) ∧
    Forall2 (is_page nearer_row 0 k) ((λ ns : string * list Z, concat (rows <$> ns.2)) <$> nls) Ls.
Proof using Hask.
  induction nls as [|[a l] nls IH]; intros Hne; [by exists []|].
  destruct IH as (Ls & Hf & HF); [intros a' l' H'; eapply Hne; by right|].
  destruct (Hask a l) as (xs & Hxs & Hp); [eapply Hne; left|eapply Hne; left|]. exists (xs :: Ls). cbn. rewrite Hf, Hxs. by split; [|constructor].
Qed.

Lemma segment_results_found m :
  concat (map_to_list m).*2 ≡ₚ segments → (∀ a l, m !! a = Some l → l ≠ []) →
  ∃ vecResult rest, segment_results ask order_nodes pick arrival indexName q m = inl vecResult ∧
    map_to_list vecResult ++ rest ≡ₚ all_rows ∧ size vecResult ≤ k * size m ∧
    ∃ best, is_page nearer_row 0 k all_rows best ∧ best ⊆ map_to_list vecResult.
Proof using Hask Hids.
  intros Hseg Hne. destruct (nodes_found (range order_nodes m)) as (Ls & Hf & Htops).
  { intros a l Hin%range_elem. split; [by eapply Hne|]. intros i Hi. rewrite <- Hseg. apply elem_of_concat_fmap.
    exists (a, l). split; [by apply elem_of_map_to_list|done]. }
  assert (Hall : concat ((λ ns : string * list Z, concat (rows <$> ns.2)) <$> range order_nodes m) ≡ₚ all_rows).
  { rewrite (concat_perm _ _ _ (range_perm order_nodes m)). rewrite <- (concat_perm rows _ _ Hseg).
    clear. induction (map_to_list m) as [|[a l] ls IH]; [done|]. cbn. by rewrite IH, fmap_app, concat_app. }
  destruct (tops_rest nearer_row k _ _ Htops) as (rest & Hrest & _). rewrite Hall in Hrest.
  assert (Hnd : NoDup (concat Ls).*1).
  { rewrite Hrest, fmap_app in Hids. by apply NoDup_app in Hids as [? _]. }
  pose proof (merged_rows arrival Ls Hnd) as Hm.
  eexists _, rest. split; [unfold segment_results; by rewrite Hf, gather_inl|]. rewrite Hm. split; [by rewrite Hrest|]. split.
  { rewrite <- length_map_to_list, Hm. apply Forall2_length in Htops as Hlen. rewrite length_fmap, (Permutation_length (range_perm order_nodes m)),
      length_map_to_list in Hlen. rewrite Hlen. by eapply pages_length. }
  destruct (sorted_exists nearer_row (concat Ls)) as (H & Hp & Hs).
  destruct (merge_tops nearer_row k _ _ H Htops Hs Hp) as (s & Hsp & Hss & Htake). rewrite Hall in Hsp.
  exists (take k s). split; [by exists s|]. intros x Hx. rewrite Htake in Hx. apply elem_of_take_weaken in Hx. by rewrite Hm, <- Hp.
Qed.

(** The documents: a lookup of documents of the index, of at most [max_results]
    of them, finds each once. *)
Context (nodes : Parallel.NodeIndexMap)
  (exec : Parallel.NodeIndexMap → gmap string ZincQuery → res (SearchResponse + fetch_error)) (by_score : sorter higher_score).
Context (max_results : nat).
Hypothesis Hexec : ∀ ids, NoDup ids → ids ⊆ all_rows.*1 → length ids ≤ max_results → ∃ resp, exec nodes {[indexName := mkZincQuery (ids_query ids) false None None (SourceJson VNil) None
    false 0 (Z.of_nat (length ids))]} = Ok (inl resp) ∧ hit_id <$> r_hits resp ≡ₚ ids.
Hypothesis Hk : v_k q = Z.of_nat k.

(** C9: a parallel vector search looks at enough.  Every segment of the index is
    asked for once, each node answers with the [k] nearest rows of the segments
    it is asked for, all documents of the rows are in the index, and [k] rows per
    node are no more than a search may return.  Then, whatever the plan, the
    order of the answers and the order of the maps, the rows the nodes return
    contain the [k] nearest of all rows of the index, none of them is made up, and
    the answer of the proxy is the [k] of these documents with the highest scores,
    in order. *)
Theorem parallel_vector_search_nearest m :
  concat (map_to_list m).*2 ≡ₚ segments → (∀ a l, m !! a = Some l → l ≠ []) → k * size m ≤ max_results →
  ∃ hits total found best,
    parallel_vector_search ask order_nodes pick arrival order_ids (Ok nodes) exec by_score indexName q m
      = Ok (Reply StatusOK (inr (hits, total))) ∧
    is_page nearer_row 0 k all_rows best ∧ best ⊆ found ∧ found ⊆ all_rows ∧
    is_page (λ a b : string * spec_float, SFltb b.2 a.2) 0 k ((λ r : string * Z, (r.1, score_of r.2)) <$> found)
      ((λ h : Hit * spec_float, (hit_id h.1, h.2)) <$> hits).
Proof using Hask Hids Hexec Hk.
  intros Hseg Hne Hmax. destruct (segment_results_found m Hseg Hne) as (vecResult & rest & Hres & Hrows & Hsize & best & Hbest & Hsub).
  set (ids := (range order_ids vecResult).*1).
  destruct (Hexec ids) as (resp & Hresp & Hfound); [apply range_nodup| | |].
  { intros i Hi. rewrite <- Hrows, fmap_app, elem_of_app. left. unfold ids in Hi. by rewrite (range_perm order_ids vecResult) in Hi. }
  { unfold ids. rewrite length_fmap, (Permutation_length (range_perm order_ids vecResult)), length_map_to_list. lia. }
  set (score := λ h : Hit, match vecResult !! hit_id h with Some d => score_of d | None => S754_zero false end).
  set (hits := sort_slice by_score ((λ h, (h, score h)) <$> r_hits resp)).
  exists (take k hits), (r_total resp), (map_to_list vecResult), best. split_and!; [|done..| |].
  - unfold parallel_vector_search. rewrite Hres. fold ids. cbn [mbind res_bind]. rewrite Hresp. cbn [mbind res_bind].
    change (sort_slice by_score _) with hits. rewrite Hk. case_decide as Hlen; [|by rewrite (take_ge hits) by lia].
    rewrite decide_False by lia. by rewrite Nat2Z.id.
  - intros x Hx. rewrite <- Hrows. set_solver.
  - exists ((λ h : Hit * spec_float, (hit_id h.1, h.2)) <$> hits). split_and!; [| |by rewrite drop_0, fmap_take].
    + unfold hits. rewrite (sort_slice_perm by_score), <- list_fmap_compose.
      assert (Hpairs : ∀ hs l, hit_id <$> hs ≡ₚ l.*1 → (∀ i d, (i, d) ∈ l → vecResult !! i = Some d) →
        ((λ h : Hit * spec_float, (hit_id h.1, h.2)) ∘ (λ h, (h, score h))) <$> hs ≡ₚ (λ r : string * Z, (r.1, score_of r.2)) <$> l).
      { intros hs l Hp Hl. symmetry in Hp. 
        assert (Hscore : (λ r : string * Z, (r.1, score_of r.2)) <$> l =
                  (λ i, (i, match vecResult !! i with Some d => score_of d | None => S754_zero false end)) <$> l.*1).
        { rewrite <- list_fmap_compose. apply list_fmap_ext. intros j [i d] Hj%list_elem_of_lookup_2. cbn. by rewrite (Hl i d). }
        rewrite Hscore, Hp, <- list_fmap_compose. done. }
      apply Hpairs; [|intros i d Hid; by apply elem_of_map_to_list]. rewrite Hfound. unfold ids. by rewrite (range_perm order_ids vecResult).
    + apply (sorted_fmap (λ a b : string * spec_float, SFltb b.2 a.2)). pose proof (sort_slice_sorted by_score ((λ h, (h, score h)) <$> r_hits resp)) as Hs.
      fold hits in Hs. exact Hs.
Qed.
End found.

(** * What a node finds *)

(** The query for documents with one of the ids, as the engine gets it. *)
Definition ids_bquery (ids : list string) : bquery := QBool [] ((λ i, Some (QTerm "_id" i (Some zero))) <$> ids) [] None None.

Lemma strings_of_ids ids : strings_of (VStr <$> ids) = Ok ids.
Proof.
  assert (H : ∀ acc, foldM (λ acc v, s ← assert_as as_string v; Ok (acc ++ [s])) acc (VStr <$> ids) = Ok (acc ++ ids)).
  { induction ids as [|i ids IH]; intros acc; cbn; [by rewrite app_nil_r|]. rewrite IH. by rewrite <- app_assoc. }
  apply H.
Qed.

Lemma ids_query_parses {lib : GoLib} {qlib : QueryLib} analyzers mappings sort_conditions order now ids :
  Query.Query analyzers mappings sort_conditions order now (ids_query ids) = Ok (Some (ids_bquery ids)).
Proof.
  assert (Hterms : ∀ acc, foldM (λ (acc : list (option bquery)) v, q ← TermQueryText "_id" v (Some zero); Ok (acc ++ [Some q])) acc (VStr <$> ids) =
            Ok (acc ++ ((λ i, Some (QTerm "_id" i (Some zero))) <$> ids))).
  { induction ids as [|i ids IH]; intros acc; cbn; [by rewrite app_nil_r|]. rewrite IH. by rewrite <- app_assoc. }
  assert (Hids : IdsQuery [("values", VArr (VStr <$> ids))] = Ok (Some (ids_bquery ids))).
  { unfold IdsQuery, read_ids. rewrite strings_of_ids. cbn [mbind res_bind]. unfold TermsQuery.
    change (read_terms true [("_id", TStrings ids)]) with (Ok (mkTerms "_id" ids [] [] [] minus_one)). cbn [mbind res_bind ts_field ts_strs].
    rewrite Hterms. reflexivity. }
  unfold ids_query. cbn [Query.Query foldM]. unfold query_turn. cbn [fst snd]. rewrite decide_False by (by intros [[? [=]] _]).
  change (ToLower "ids") with "ids". unfold named_query. rewrite decide_False by done.
  match goal with |- context [assoc "ids" ?l] => assert (Ha : assoc "ids" l = Some IdsQuery) by reflexivity end.
  rewrite Ha, Hids. reflexivity.
Qed.

Lemma filter_concat {A} (P : A → Prop) `{∀ x, Decision (P x)} (ls : list (list A)) : filter P (concat ls) = concat (filter P <$> ls).
Proof. induction ls as [|l ls IH]; [done|]. cbn. by rewrite filter_app, IH. Qed.

Section retrieval.
Context {W M : Type} {bm : BlugeMatch M} {lib : GoLib} {qlib : QueryLib}.
Context (cfg_err : option string) (shard_name : @IndexShard W → string)
  (OpenReader : @IndexShard W → Z → nat → open_outcome) (read : option UnifiedStats → @IndexShard W → Z → @searcher M).
Context (sort_less : option SortOrder → M → M → bool) {sort_order : ∀ o, WeakOrder (sort_less o)}.
Context (x : @SearchIndex W) (docs : @IndexShard W → Z → list M).
Hypothesis Hx : searchable cfg_err shard_name OpenReader read sort_less x docs None.
Context (stored : M → res (list (string * string))) (unmarshal : string → option (gmap string value))
  (format_time : Z → string → string) (order_fields : map_order string value)
  (sort_conditions : sorter cond_less) (order : map_order string Property) (e : renv)
  (pick : list string → string) (arrival : shuffle (Hit * M)) (by_score : sorter by_new_score).

(** The documents of the index, each with an id of its own, which the engine
    finds by a query for ids and stores. *)
Context (doc_id : M → string) (hit : M → Hit).
Definition all_docs : list M := concat ((λ s, concat ((λ y, docs s (ID y)) <$> shards s)) <$> x_shards x).
Hypothesis Hdocs : NoDup (doc_id <$> all_docs).
Hypothesis Hmatch : ∀ m ids, matches m (ids_bquery ids) = bool_decide (doc_id m ∈ ids).
Hypothesis Hhit : ∀ m, hit_id (hit m) = doc_id m.

Lemma all_matching_filter b : all_matching x docs b = filter (λ m, matches m b = true) all_docs.
Proof.
  unfold all_matching, all_docs, matching. rewrite filter_concat, <- list_fmap_compose. f_equal. apply list_fmap_ext.
  intros i s _. cbn. rewrite filter_concat, <- list_fmap_compose. done.
Qed.

(** The ids of the documents found are those that were asked for. *)
Lemma found_ids ids : NoDup ids → ids ⊆ doc_id <$> all_docs → doc_id <$> all_matching x docs (ids_bquery ids) ≡ₚ ids.
Proof using Hdocs Hmatch.
  intros Hnd Hsub. rewrite all_matching_filter. apply NoDup_Permutation; [by apply NoDup_fmap_filter|done|].
  intros i. rewrite list_elem_of_fmap. setoid_rewrite list_elem_of_filter. setoid_rewrite Hmatch.
  setoid_rewrite bool_decide_eq_true. split; [by intros (m & -> & ? & ?)|]. intros Hi.
  pose proof (Hsub i Hi) as (m & -> & Hm)%list_elem_of_fmap. by exists m.
Qed.

Lemma hit_score_of ds d h : NoDup (DocID <$> ds) → d ∈ ds → hit_id h = DocID d → hit_score ds h = score_of (Distance d).
Proof using .
  clear. intros Hnd Hd Hh. unfold hit_score. rewrite Hh. induction ds as [|d' ds IH]; [by apply elem_of_nil in Hd|].
  apply NoDup_cons in Hnd as [Hn Hnd]. rewrite filter_cons. apply elem_of_cons in Hd as [->|Hd].
  - by rewrite decide_True.
  - rewrite decide_False; [by apply IH|]. intros Heq. apply Hn. rewrite Heq. by apply list_elem_of_fmap_2.
Qed.

Context (q : VectorQuery) (src : Source) (fs : option (list Request.Field)).
Hypothesis Hsrc : source_Request (SourceJson (v_source q)) = Ok src.
Hypothesis Hfs : match v_return_fields q with VArr vs => Some <$> fields_Request vs | _ => Ok None end = Ok fs.

Definition lookup_query (ids : list string) : ZincQuery :=
  mkZincQuery (ids_query ids) false None (FieldsParsed <$> fs) (SourceParsed src) None false 0 (Z.of_nat (length ids)).
Hypothesis Hvisit : ∀ m ids, m ∈ all_docs → visitMatchedDoc stored unmarshal format_time order_fields (x_mappings x) (lookup_query ids) m = Ok (hit m).

Lemma lookup_normal ids : (Z.of_nat (length ids) ≤ MaxResults e)%Z →
  NormalizeQuery ∅ (x_mappings x) sort_conditions order e (lookup_query ids) = (Ok tt, lookup_query ids) ∧
  ParseQueryDSL ∅ (x_mappings x) sort_conditions order e (lookup_query ids) =
    Ok (mkRequest (ids_bquery ids) (Z.of_nat (length ids)) 0 None false false false).
Proof using .
  clear. intros Hlen. unfold NormalizeQuery, ParseQueryDSL, parse_query. cbn [lookup_query q_size]. rewrite decide_False by lia.
  cbn [lookup_query q_query]. rewrite ids_query_parses. cbn. split; [by destruct fs|done].
Qed.

Lemma retrieve_found ds :
  NoDup (DocID <$> ds) → DocID <$> ds ⊆ doc_id <$> all_docs → (Z.of_nat (length ds) ≤ MaxResults e < 2 ^ 63)%Z →
  ∃ hits, retrieveVectorDocuments cfg_err shard_name OpenReader read stored sort_less unmarshal format_time order_fields
      sort_conditions order e pick arrival by_score [x] q ds = Ok (hits, Z.of_nat (length ds)) ∧
    (λ h : Hit * spec_float, (hit_id h.1, h.2)) <$> hits ≡ₚ (λ d, (DocID d, score_of (Distance d))) <$> ds ∧
    StronglySorted (λ a b, by_new_score b a = false) hits.
Proof using Hx Hdocs Hmatch Hhit Hsrc Hfs Hvisit sort_order.
  intros Hnd Hsub Hlen. set (ids := DocID <$> ds).
  assert (Hl : length ids = length ds) by (unfold ids; by rewrite length_fmap).
  destruct (lookup_normal ids) as [Hnorm Hparse]; [rewrite Hl; lia|].
  assert (Hcov : covers (Some (ids_bquery ids)) (0, 0)%Z) by (intros d t _ _; cbn; lia).
  pose proof (chosen_hold_all cfg_err shard_name OpenReader read sort_less x docs None Hx (ids_bquery ids) 0 0 Hcov) as Hall.
  edestruct (MultiZincSearch_page stored sort_less unmarshal format_time order_fields ∅ (x_mappings x) sort_conditions order e
    (lookup_query ids) (lookup_query ids) _ hit Hnorm Hparse) as (ms & q'' & Hrun & _ & Hms); [cbn; rewrite Hl; lia| | |].
  { exact (all_serve cfg_err shard_name OpenReader read sort_less x docs None Hx _ (chosen_of_index x 0 0)). }
  { intros A m HA Hm. apply list_elem_of_fmap in HA as ([s id] & -> & Hat). apply Hvisit.
    assert (Hin : m ∈ all_matching x docs (ids_bquery ids)).
    { rewrite <- Hall. apply elem_of_concat_fmap. by exists (s, id). }
    rewrite all_matching_filter in Hin. by apply list_elem_of_filter in Hin as [_ Hin]. }
  rewrite <- list_fmap_compose in Hrun, Hms. unfold compose in Hrun, Hms. cbn [r_query r_order] in Hrun, Hms.
  apply (is_page_perm _ _ _ _ _ _ Hall) in Hms. rewrite (Permutation_length Hall) in Hrun.
  pose proof (found_ids ids Hnd Hsub) as Hids.
  assert (Hn : length (all_matching x docs (ids_bquery ids)) = length ids).
  { rewrite <- Hids at 2. by rewrite length_fmap. }
  assert (Hperm : ms ≡ₚ all_matching x docs (ids_bquery ids)).
  { destruct Hms as (xs & Hp & _ & ->). cbn [lookup_query q_from q_size]. rewrite drop_0, Nat2Z.id, take_ge; [done|].
    by rewrite (Permutation_length Hp), Hn. }
  exists (scored by_score ds (hit <$> ms)). split_and!.
  - unfold retrieveVectorDocuments. rewrite Hsrc. cbn [mbind res_bind]. rewrite Hfs. cbn [mbind res_bind]. fold ids.
    rewrite <- Hl. fold (lookup_query ids). cbn [fmap list_fmap concat]. rewrite app_nil_r.
    rewrite Hrun. cbn. by rewrite Hn.
  - unfold scored. rewrite (sort_slice_perm by_score), <- !list_fmap_compose.
    assert (Hpairs : ∀ l, (λ m, hit_id (hit m)) <$> l ≡ₚ DocID <$> ds →
      (λ m, (hit_id (hit m), hit_score ds (hit m))) <$> l ≡ₚ (λ d, (DocID d, score_of (Distance d))) <$> ds).
    { intros l Hp.
      assert (Hd : (λ d, (DocID d, score_of (Distance d))) <$> ds =
                (λ i, (i, hit_score ds (mkHit "" i None None))) <$> (DocID <$> ds)).
      { rewrite <- list_fmap_compose. apply list_fmap_ext. intros j d Hj%list_elem_of_lookup_2. cbn. f_equal.
        by rewrite (hit_score_of ds d). }
      rewrite Hd, <- Hp, <- list_fmap_compose. done. }
    apply Hpairs. rewrite Hperm. etrans; [|exact Hids]. apply reflexive_eq, list_fmap_ext. intros i m _. apply Hhit.
  - apply (sort_slice_sorted by_score).
Qed.

Context (again : value → value) (GetVectorIndex : string → string → vec_outcome) (order_found : map_order string Z)
  (by_distance : sorter (λ a b, f32_cmp_lt (Distance a) (Distance b))).

End retrieval.

(** * Concrete searches *)

Module VectorDemo.
#[local] Existing Instance RangeDemo.range_lib.
#[local] Existing Instance RangeDemo.range_qlib.
(** Documents are pairs of an index and an id. *)
Abbreviation doc := (string * string)%type.

Fixpoint demo_match (m : doc) (b : bquery) : bool :=
  match b with
  | QTerm f i _ => bool_decide (f = "_id") && bool_decide (m.2 = i)
  | QBool ms ss _ _ _ =>
      forallb (λ o, match o with Some b => demo_match m b | None => true end) ms &&
      existsb (λ o, match o with Some b => demo_match m b | None => false end) ss
  | _ => false
  end.

#[local] Program Instance demo_bluge : BlugeMatch doc := {| matches := demo_match; time_at _ _ := Some 1%Z |}.
Next Obligation.
  intros d ms ss ns mn b q. cbn. rewrite andb_true_iff, forallb_forall. intros [Hall _] Hin.
  by apply list_elem_of_In, Hall in Hin.
Qed.
Next Obligation. done. Qed.

Definition demo_docs (s : @IndexShard (list doc)) (id : Z) : list doc :=
  match shards s !! Z.to_nat id with Some y => Shards.index y | None => [] end.
Definition no_order (o : option SortOrder) (a b : doc) : bool := false.
#[local] Instance no_order_weak o : WeakOrder (no_order o).
Proof. by constructor. Qed.

Definition demo_read (stats : option UnifiedStats) (s : @IndexShard (list doc)) (id : Z) : @searcher doc := λ req,
  let ms := matching demo_docs s id (r_query req) in
  Ok (take (Z.to_nat (r_size req)) (drop (Z.to_nat (r_from req)) ms), None, Z.of_nat (length ms)).

Definition demo_index (name : string) (ids : list string) : @SearchIndex (list doc) :=
  mkSearchIndex name ∅ ∅ [mkShard [mkSecond 0 zero_stats ((λ i, (name, i)) <$> ids) true 0] zero_stats].

Lemma demo_vec_searchable name ids :
  searchable None (λ _, name) (λ _ _ _, ReaderOpened) demo_read no_order (demo_index name ids) demo_docs None.
Proof.
  constructor.
  - intros s y _ _. left. split; [done|]. intros req _ _. eexists. split; [reflexivity|]. eexists. split_and!; [reflexivity| |reflexivity].
    induction (matching demo_docs s (ID y) (r_query req)); constructor; [done|]. by apply Forall_true.
  - intros s y m ->%list_elem_of_singleton ->%list_elem_of_singleton _. exists 1%Z. cbn. split; [done|lia].
  - intros s ->%list_elem_of_singleton i j a b Hij Hi Hj. destruct i as [|i]; [|done]. destruct j as [|j]; [lia|done].
Qed.

Definition demo_stored (m : doc) : res (list (string * string)) := Ok [("_index", m.1); ("_id", m.2)].
Definition demo_hit (m : doc) : Hit := mkHit m.1 m.2 None None.
Definition demo_e : renv := mkRenv 100 5000 None.
#[local] Instance new_score_order : WeakOrder by_new_score.
Proof.
  unfold by_new_score. constructor; intros.
  - apply less_irrefl.
  - eapply (less_trans (less := cmp_lt)); eauto.
  - eapply (less_incomparable (less := cmp_lt)); eauto.
Qed.
#[local] Instance distance_order : WeakOrder (λ a b, f32_cmp_lt (Distance a) (Distance b)).
Proof.
  constructor; intros *.
  - exact (less_irrefl (less := nearer_row) ("", Distance a)).
  - exact (less_trans (less := nearer_row) ("", Distance a) ("", Distance b) ("", Distance c)).
  - exact (less_incomparable (less := nearer_row) ("", Distance a) ("", Distance b) ("", Distance c)).
Qed.

(** The bit patterns of 0.0, 1.0 and 3.0. *)
Definition zero32 : Z := 0.
Definition one32 : Z := 0x3f800000.
Definition three32 : Z := 0x40400000.

Definition vec_of (found : gmap string Z) : VecOps := mkVecOps 1 (λ _ _ _, Ok found) (λ _ _ _, Ok []).
Definition demo_vq (k : Z) : VectorQuery := mkVQ VNil "v" [one32] k 1 VNil VNil.

Definition run_vector (get : string → string → vec_outcome) (xs : list (@SearchIndex (list doc))) (q : VectorQuery)
    : res (list (Hit * spec_float) * Z) :=
  VectorSearch None (λ _, "i") (λ _ _ _, ReaderOpened) demo_read demo_stored no_order (λ _, None) (λ _ _, "") map_order_default
    condition_sorter map_order_default demo_e id (λ _, "") shuffle_id get map_order_default (order_sorter _) (order_sorter _) xs q.

Definition books : @SearchIndex (list doc) := demo_index "books" ["a"; "b"; "c"].
Definition in_books : gmap string Z := {["a" := three32; "b" := one32; "c" := zero32]}.
Definition get_books (name field : string) : vec_outcome := if decide (name = "books") then VecFound (vec_of in_books) else VecNotExists.

Definition shown (r : res (list (Hit * spec_float) * Z)) : res (list (string * string)) :=
  (λ r : list (Hit * spec_float) * Z, (λ h, (hit_index h.1, hit_id h.1)) <$> r.1) <$> r.

Lemma demo_ids ids m : demo_match m (ids_bquery ids) = bool_decide (m.2 ∈ ids).
Proof.
  cbn. induction ids as [|i ids IH]; cbn.
  - symmetry. apply bool_decide_eq_false, not_elem_of_nil.
  - rewrite IH. apply Bool.eq_iff_eq_true. rewrite orb_true_iff, andb_true_iff, !bool_decide_eq_true, elem_of_cons. naive_solver.
Qed.

(** A search of several indexes for vectors mixes up their documents: the
    ids found in one index are looked up in all of them, so a document of another
    index that has the same id, and no vector at all, takes the place and the
    score of the right one. *)
Theorem vector_search_mixes_indexes :
  shown (run_vector get_books [demo_index "notes" ["c"]; books] (demo_vq 1)) = Ok [("notes", "c")] ∧
  shown (run_vector get_books [books] (demo_vq 1)) = Ok [("books", "c")].
Proof. split; vm_compute; reflexivity. Qed.

(** ** The proxy *)

Lemma vector_plan_covers_witness :
  ∃ m, calcNodeSegmentsMap 2 3 Parallel.w_state "big" "ivf_pq" [0; 1; 2; 3; 4]%Z = Ok (Some m) ∧
    concat (map_to_list m).*2 ≡ₚ [0; 1; 2; 3; 4]%Z ∧
    ∀ a l, m !! a = Some l → l ≠ [] ∧ ∃ n, n ∈ Proxy.GetNodeList Parallel.w_state ∧ Proxy.addr n = a.
Proof. apply (vector_plan_covers 2 3 Parallel.w_state "big" [0; 1; 2; 3; 4]%Z 1); [lia|done|cbn; lia|vm_compute; reflexivity]. Defined.

Definition rows (segment : Z) : list (string * Z) :=
  if decide (segment = 0%Z) then [("a", three32); ("b", one32)] else if decide (segment = 1%Z) then [("c", zero32)] else [].
Definition demo_ask (a : string) (iq : InternalVectorQuery) : string + reply (gmap string Z) :=
  inr (Reply StatusOK (inr (list_to_map (take 2 (order_sort nearer_row (concat (rows <$> iv_segments iq))))))).

(** The lookup of the documents: the query by ids is sent to the node that has
    the second shard of the index, which searches it. *)
Definition same_score (a b : Hit) : bool := false.
#[local] Instance same_score_order : WeakOrder same_score.
Proof. by constructor. Qed.

Definition lookup_ask (a : string) (stats : option UnifiedStats) (reqs : list IndexQueryRequest) : string + reply SearchResponse :=
  match node_search None (λ _, "books") (λ _ _ _, ReaderOpened) demo_read no_order demo_stored (λ _, None) (λ _ _, "")
          map_order_default condition_sorter map_order_default demo_e (λ v, v) (λ _, "") shuffle_id same_score (order_sorter _)
          books "books" (λ _ _, Ok (Some ∅)) (λ _, inl "") shuffle_rev stats reqs with
  | Ok rep => inr rep
  | _ => inl "connection reset"
  end.
Definition lookup_nodes : Parallel.NodeIndexMap := {["http://a" := {["books" := [0%Z]]}]}.
Definition demo_exec (nodes : Parallel.NodeIndexMap) (qs : gmap string ZincQuery) : res (SearchResponse + fetch_error) :=
  execParallelQueries same_score (order_sorter _) lookup_ask map_order_default map_order_default map_order_default
    (λ _, FetchFailed "") shuffle_rev nodes (Some ∅) qs.

(** Lists of documents of the index. *)
Fixpoint words (n : nat) : list (list string) :=
  match n with 0 => [[]] | S n => l ← words n; (λ i, i :: l) <$> ["a"; "b"; "c"] end.

Lemma words_all ids : ids ⊆ ["a"; "b"; "c"] → ids ∈ words (length ids).
Proof.
  induction ids as [|i ids IH]; intros Hsub; [by left|]. cbn [length words]. apply list_elem_of_bind. exists ids. split.
  - apply list_elem_of_fmap. exists i. split; [done|]. apply Hsub. left.
  - apply IH. intros j Hj. apply Hsub. by right.
Qed.

Definition lookup_finds (ids : list string) : bool :=
  match demo_exec lookup_nodes {["books" := mkZincQuery (ids_query ids) false None None (SourceJson VNil) None false 0 (Z.of_nat (length ids))]} with
  | Ok (inl resp) => bool_decide (hit_id <$> r_hits resp ≡ₚ ids)
  | _ => false
  end.

Lemma demo_lookup ids : NoDup ids → ids ⊆ ["a"; "b"; "c"] → ∃ resp,
  demo_exec lookup_nodes {["books" := mkZincQuery (ids_query ids) false None None (SourceJson VNil) None false 0 (Z.of_nat (length ids))]} =
    Ok (inl resp) ∧ hit_id <$> r_hits resp ≡ₚ ids.
Proof.
  intros Hnd Hsub. assert (length ids ≤ 3) as Hlen by (apply (submseteq_length _ ["a"; "b"; "c"]); by apply NoDup_submseteq).
  assert (Hall : forallb (λ ids, negb (bool_decide (NoDup ids)) || lookup_finds ids) (concat (words <$> seq 0 4)) = true)
    by (vm_compute; reflexivity).
  assert (Hin : ids ∈ concat (words <$> seq 0 4)).
  { apply elem_of_concat_fmap. exists (length ids). split; [apply elem_of_seq; lia|by apply words_all]. }
  rewrite forallb_forall in Hall. apply list_elem_of_In, Hall in Hin. rewrite bool_decide_eq_true_2 in Hin by done. cbn [negb orb] in Hin.
  unfold lookup_finds in Hin. destruct (demo_exec _ _) as [[resp|]| |]; [|done..]. exists resp. split; [done|].
  by apply bool_decide_eq_true in Hin.
Qed.

Lemma higher_sorted l : StronglySorted (λ a b, higher_score b a = false) (order_sort by_new_score l).
Proof.
  pose proof (order_sort_sorted by_new_score l) as Hs. unfold sorted in Hs. induction Hs as [|a l' _ IH Ha]; constructor; [done|].
  eapply Forall_impl; [exact Ha|]. intros b Hb. unfold by_new_score, cmp_lt in Hb. by apply orb_false_iff in Hb as [_ Hb].
Qed.
Definition higher_sorter : sorter higher_score := Sorter (order_sort by_new_score) (order_sort_perm by_new_score) higher_sorted.

Definition two_nodes : gmap string (list Z) := {["http://a" := [0%Z]; "http://b" := [1%Z]]}.

Lemma parallel_vector_search_nearest_witness :
  ∃ hits total found best,
    parallel_vector_search demo_ask map_order_default (λ _, FetchFailed "") shuffle_rev map_order_default (Ok lookup_nodes) demo_exec higher_sorter
      "books" (demo_vq 2) two_nodes = Ok (Reply StatusOK (inr (hits, total))) ∧
    is_page nearer_row 0 2 (concat (rows <$> [0; 1]%Z)) best ∧ best ⊆ found ∧ found ⊆ concat (rows <$> [0; 1]%Z) ∧
    is_page (λ a b : string * spec_float, SFltb b.2 a.2) 0 2 ((λ r : string * Z, (r.1, score_of r.2)) <$> found)
      ((λ h : Hit * spec_float, (hit_id h.1, h.2)) <$> hits).
Proof.
  apply (parallel_vector_search_nearest rows [0; 1]%Z 2) with (max_results := 100).
  - apply (bool_decide_unpack _). vm_compute. exact I.
  - intros a l _ _. eexists. split; [reflexivity|]. exists (order_sort nearer_row (concat (rows <$> l))).
    split_and!; [apply order_sort_perm|apply order_sort_sorted; apply _|done].
  - intros ids Hnd Hsub _. by apply demo_lookup.
  - reflexivity.
  - apply (bool_decide_unpack _). vm_compute. exact I.
  - intros a l Hl. assert (Hall : map_Forall (λ _ l, l ≠ []) two_nodes) by (apply (bool_decide_unpack _); vm_compute; exact I).
    exact (Hall a l Hl).
  - vm_compute. lia.
Defined.

Definition vector_field : Mappings := {["v" := mkProperty "vector" "" "" "" "" true false false false false None 1 0 0 "ivf_pq" false]}.

Lemma parallel_search_ignores_filter_witness :
  SearchVector 2 2 Parallel.w_state demo_ask map_order_default (λ _, FetchFailed "") shuffle_rev map_order_default (Ok ∅) demo_exec higher_sorter
    (IndexFound vector_field (λ _, Some ("ivf_pq", [0; 1]%Z))) (Reply StatusOK (inr ([], 0%Z))) "books" (demo_vq 2) =
  SearchVector 2 2 Parallel.w_state demo_ask map_order_default (λ _, FetchFailed "") shuffle_rev map_order_default (Ok ∅) demo_exec higher_sorter
    (IndexFound vector_field (λ _, Some ("ivf_pq", [0; 1]%Z))) (Reply StatusOK (inr ([], 0%Z))) "books"
    (mkVQ VNil "v" [one32] 2 1 VNil (VMap [("term", VMap [("_id", VStr "a")])])).
Proof.
  eapply (parallel_search_ignores_filter 2 2 Parallel.w_state demo_ask map_order_default (λ _, FetchFailed "") shuffle_rev map_order_default
            (Ok ∅) demo_exec higher_sorter vector_field (λ _, Some ("ivf_pq", [0; 1]%Z)) (Reply StatusOK (inr ([], 0%Z))) "books" (demo_vq 2)
            (VMap [("term", VMap [("_id", VStr "a")])]) VNil VNil "ivf_pq" [0; 1]%Z); [reflexivity|vm_compute; reflexivity].
Defined.
End VectorDemo.
