(* ===== verification/TextOrder.v ===== *)
(** The order of Go strings, which compares bytes, and the run of strings with a
    common prefix in it. *)
From Stdlib Require Import Ascii.
From S2P Require Import Prelude Hash Strconv Merge.

Lemma string_ltb_cons c s d t :
  String.ltb (String c s) (String d t) = (N_of_ascii c <? N_of_ascii d)%N || ((N_of_ascii c =? N_of_ascii d)%N && String.ltb s t).
Proof.
  unfold String.ltb. cbn. unfold Ascii.compare. destruct (N.compare_spec (N_of_ascii c) (N_of_ascii d)) as [Hc|Hc|Hc].
  - rewrite Hc, N.ltb_irrefl, N.eqb_refl. done.
  - by rewrite (proj2 (N.ltb_lt _ _) Hc).
  - assert ((N_of_ascii c <? N_of_ascii d)%N = false) as -> by (apply N.ltb_ge; lia).
    assert ((N_of_ascii c =? N_of_ascii d)%N = false) as -> by (apply N.eqb_neq; lia). done.
Qed.

#[export] Instance string_order : WeakOrder String.ltb.
Proof.
  split.
  - induction a as [|c a IH]; [done|]. rewrite string_ltb_cons, N.ltb_irrefl, IH. by rewrite andb_false_r.
  - induction a as [|x a IH]; intros [|y b] [|z c]; try done. rewrite !string_ltb_cons, !orb_true_iff, !andb_true_iff, !N.ltb_lt, !N.eqb_eq.
    intros [H1|[H1 H2]] [H3|[H3 H4]]; [left; lia..|right]. split; [lia|by eapply IH].
  - induction a as [|x a IH]; intros [|y b] [|z c]; try done. rewrite !string_ltb_cons, !orb_false_iff, !andb_false_iff, !N.ltb_ge, !N.eqb_neq.
    intros [H1 H2] [H3 H4]. split; [lia|]. destruct (decide (N_of_ascii x = N_of_ascii z)) as [E|]; [right|by left].
    destruct H2 as [H2|H2]; [lia|]. destruct H4 as [H4|H4]; [lia|]. by eapply IH.
Qed.

Lemma ascii_of_N_inj c d : N_of_ascii c = N_of_ascii d → c = d.
Proof. intros E. by rewrite <-(ascii_N_embedding c), E, ascii_N_embedding. Qed.

(** Strings neither of which comes first are the same. *)
Lemma string_ltb_antisym a : ∀ b, String.ltb a b = false → String.ltb b a = false → a = b.
Proof.
  induction a as [|x a IH]; intros [|y b]; try done.
  rewrite !string_ltb_cons, !orb_false_iff, !andb_false_iff, !N.ltb_ge, !N.eqb_neq. intros [H1 H2] [H3 H4].
  assert (N_of_ascii x = N_of_ascii y) as E by lia. f_equal; [by apply ascii_of_N_inj|].
  destruct H2 as [|H2], H4 as [|H4]; try lia. by apply IH.
Qed.

(** [strings.CutPrefix]. *)
Fixpoint cut_prefix (pre s : string) : option string :=
  match pre, s with
  | EmptyString, _ => Some s
  | String c pre, String d s => if decide (c = d) then cut_prefix pre s else None
  | String _ _, EmptyString => None
  end.

Lemma cut_prefix_spec pre : ∀ s n, cut_prefix pre s = Some n ↔ s = pre +:+ n.
Proof.
  induction pre as [|c pre IH]; intros s n; [rewrite append_nil; cbn; naive_solver|]. rewrite append_cons.
  destruct s as [|d s]; cbn; [done|]. case_decide; [subst; rewrite IH; naive_solver|]. split; [done|congruence].
Qed.

Lemma cut_prefix_app pre n : cut_prefix pre (pre +:+ n) = Some n.
Proof. by apply cut_prefix_spec. Qed.

(** In the order, the strings with a prefix follow one another, from the prefix on. *)
Lemma prefix_run pre : ∀ k k',
  String.ltb k pre = false → cut_prefix pre k = None → String.ltb k' k = false → cut_prefix pre k' = None.
Proof.
  induction pre as [|c pre IH]; intros [|x k] [|y k']; try done. rewrite !string_ltb_cons. cbn.
  rewrite !orb_false_iff, !andb_false_iff, !N.ltb_ge, !N.eqb_neq. intros [H1 H2] H [H3 H4].
  destruct (decide (c = y)) as [<-|]; [|done]. destruct (decide (c = x)) as [<-|Hx]; [|exfalso; apply Hx, ascii_of_N_inj; lia].
  destruct H2 as [|H2], H4 as [|H4]; try lia. by eapply IH.
Qed.

(** ... and none comes before it. *)
Lemma prefix_from pre : ∀ n, String.ltb (pre +:+ n) pre = false.
Proof.
  induction pre as [|c pre IH]; intros n; [by destruct n|]. rewrite append_cons, string_ltb_cons, IH, N.ltb_irrefl.
  by rewrite andb_false_r.
Qed.

(** A common prefix does not matter. *)
Lemma string_ltb_app pre a b : String.ltb (pre +:+ a) (pre +:+ b) = String.ltb a b.
Proof. induction pre as [|c pre IH]; [done|]. rewrite !append_cons, string_ltb_cons, N.ltb_irrefl, N.eqb_refl, IH. done. Qed.

(** Entries in the order of their keys. *)
Definition by_key {A} (a b : string * A) : bool := String.ltb a.1 b.1.

#[export] Instance by_key_order {A} : WeakOrder (by_key (A := A)).
Proof. split; unfold by_key; [intros a; apply less_irrefl|intros a b c; apply less_trans|intros a b c; apply less_incomparable]. Qed.

(** A map has one list of entries in that order. *)
Lemma by_key_unique {A} (l l' : list (string * A)) :
  NoDup l.*1 → l ≡ₚ l' → sorted by_key l → sorted by_key l' → l = l'.
Proof.
  unfold sorted. intros Hnd Hp Hs Hs'. revert l' Hp Hs'. induction Hs as [|x l Hs IH Hx]; intros l' Hp Hs'.
  { apply Permutation_nil_l in Hp. done. }
  destruct Hs' as [|y l' Hs' Hy]; [by apply Permutation_nil_r in Hp|]. cbn in Hnd. apply NoDup_cons in Hnd as [Hn Hnd].
  assert (x = y) as <-.
  { assert (x ∈ y :: l') as [|Hxl]%elem_of_cons by (rewrite <-Hp; left); [done|].
    assert (y ∈ x :: l) as [|Hyl]%elem_of_cons by (rewrite Hp; left); [done|].
    rewrite Forall_forall in Hx, Hy. pose proof (string_ltb_antisym _ _ (Hx _ Hyl) (Hy _ Hxl)) as E.
    destruct Hn. rewrite <-E. by apply list_elem_of_fmap_2. }
  f_equal. apply IH; [done|by apply Permutation_cons_inv in Hp|done].
Qed.

Lemma sorted_filter {A} (less : A → A → bool) (P : A → Prop) `{∀ x, Decision (P x)} l : sorted less l → sorted less (filter P l).
Proof.
  unfold sorted. induction 1 as [|x l Hs IH Hx]; [constructor|]. rewrite filter_cons. case_decide; [|done]. constructor; [done|].
  rewrite Forall_forall in *. intros y [_ Hy]%list_elem_of_filter. by apply Hx.
Qed.
