(* ===== verification/Calendar.v ===== *)
(** The part of Go's package time that aggregations by date use: the Gregorian
    calendar, civil time in a zone, [time.Date] and [Weekday].  A time is its
    number of nanoseconds since 1970. *)
From S2P Require Import Prelude Hash Strconv Value.

(** * Days *)

Definition leap (y : Z) : bool :=
  bool_decide (y mod 4 = 0 ∧ (y mod 100 ≠ 0 ∨ y mod 400 = 0))%Z.

(** Days from the first of January of the year 1 to that of the year [y]. *)
Definition days_before_year (y : Z) : Z :=
  (365 * (y - 1) + (y - 1) / 4 - (y - 1) / 100 + (y - 1) / 400)%Z.

Definition epoch : Z := 719162.

(** Days of the year before the month [m], counted from 1. *)
Definition days_before_month (l : bool) (m : Z) : Z :=
  let b := default 365%Z ([0; 31; 59; 90; 120; 151; 181; 212; 243; 273; 304; 334]%Z !! Z.to_nat (m - 1)) in
  (if l && (2 <? m) then b + 1 else b)%Z.

(** Days since 1970 of a date; the day may lie outside of the month. *)
Definition days_of (y m d : Z) : Z :=
  (days_before_year y - epoch + days_before_month (leap y) m + (d - 1))%Z.

Definition year_of (n : Z) : Z :=
  let n := (n + epoch)%Z in
  let y := (n * 400 / 146097 + 1)%Z in
  if decide (days_before_year (y + 1) ≤ n)%Z then (y + 1)%Z
  else if decide (days_before_year y ≤ n)%Z then y else (y - 1)%Z.

Definition month_of (l : bool) (yday : Z) : Z :=
  foldl (λ acc m, if decide (days_before_month l m ≤ yday)%Z then m else acc) 1%Z
    [2; 3; 4; 5; 6; 7; 8; 9; 10; 11; 12]%Z.

Record civil := Civil { Year : Z; Month : Z; Day : Z }.

Definition civil_of (n : Z) : civil :=
  let y := year_of n in
  let yday := (n - days_of y 1 1)%Z in
  let m := month_of (leap y) yday in
  Civil y m (yday - days_before_month (leap y) m + 1).

(** Sunday is 0; the first of January 1970 was a Thursday. *)
Definition weekday (n : Z) : Z := ((n + 4) mod 7)%Z.

(** * Zones *)

(** The offset from UTC at a second, and the seconds from which and up to which
    it holds; the zone database is an argument. *)
Record zone := Zone { offset : Z; zstart : Z; zend : Z }.
Definition alpha : Z := (- 2 ^ 63)%Z.
Definition omega : Z := (2 ^ 63 - 1)%Z.

Class ZoneData := { database : location → Z → zone }.

Definition lookup_zone `{ZoneData} (loc : location) (sec : Z) : zone :=
  match loc with
  | UTC => Zone 0 alpha omega
  | FixedZone off => Zone off alpha omega
  | _ => database loc sec
  end.

Definition day_seconds : Z := 86400.

(** The day of a time in a zone. *)
Definition day_in `{ZoneData} (loc : location) (t : Z) : Z :=
  let sec := (t / seconds)%Z in ((sec + offset (lookup_zone loc sec)) / day_seconds)%Z.

(** [time.Date(y, m, d, 0, 0, 0, 0, loc)]: a month outside of 1 to 12 moves the
    year, and the zone is looked up twice near a change of the offset. *)
Definition Date `{ZoneData} (y m d : Z) (loc : location) : Z :=
  let y' := (y + (m - 1) / 12)%Z in
  let m' := ((m - 1) mod 12 + 1)%Z in
  let unix := (days_of y' m' d * day_seconds)%Z in
  let z := lookup_zone loc unix in
  let off := if decide (offset z = 0%Z) then 0%Z
             else let utc := (unix - offset z)%Z in
                  if decide (utc < zstart z ∨ zend z ≤ utc)%Z then offset (lookup_zone loc utc) else offset z in
  ((unix - off) * seconds)%Z.

(** * The calendar is right *)

Lemma days_before_year_step y : days_before_year (y + 1) = (days_before_year y + if leap y then 366 else 365)%Z.
Proof.
  unfold days_before_year, leap. case_bool_decide as H; rewrite Z.add_simpl_r.
  all: Z.to_euclidean_division_equations; lia.
Qed.

Lemma year_of_spec n : (days_before_year (year_of n) ≤ n + epoch < days_before_year (year_of n + 1))%Z.
Proof.
  unfold year_of. set (k := (n + epoch)%Z). set (y := (k * 400 / 146097 + 1)%Z).
  assert (days_before_year (y - 1) ≤ k < days_before_year (y + 2))%Z as [H1 H2].
  { unfold days_before_year, y. split; Z.to_euclidean_division_equations; lia. }
  repeat case_decide; split; try done; try lia.
  - by replace (y + 1 + 1)%Z with (y + 2)%Z by lia.
  - rewrite Z.sub_add. lia.
Qed.

(** Evaluates the table of months at the months that occur. *)
Ltac month_table :=
  repeat match goal with
  | H : context [days_before_month ?l ?m] |- _ =>
      let v := eval vm_compute in (days_before_month l m) in change (days_before_month l m) with v in H
  | |- context [days_before_month ?l ?m] =>
      let v := eval vm_compute in (days_before_month l m) in change (days_before_month l m) with v
  end.

Lemma month_of_spec (l : bool) yday : (0 ≤ yday < if l then 366 else 365)%Z →
  (1 ≤ month_of l yday ≤ 12 ∧ days_before_month l (month_of l yday) ≤ yday < days_before_month l (month_of l yday + 1))%Z.
Proof. intros Hy. unfold month_of. destruct l; cbn [foldl]; repeat case_decide; month_table; lia. Qed.

Lemma days_before_january l : days_before_month l 1 = 0%Z.
Proof. by destruct l. Qed.

Lemma days_of_year y : days_of (y + 1) 1 1 = (days_of y 1 1 + if leap y then 366 else 365)%Z.
Proof. unfold days_of. rewrite days_before_year_step, !days_before_january. lia. Qed.

Lemma days_of_first y : days_of y 1 1 = (days_before_year y - epoch)%Z.
Proof. unfold days_of. rewrite days_before_january. lia. Qed.

Lemma days_of_day y m d : days_of y m d = (days_of y m 1 + (d - 1))%Z.
Proof. unfold days_of. lia. Qed.

(** The last month of a year ends where the next one begins. *)
Lemma days_of_month y m : (1 ≤ m ≤ 12)%Z →
  days_of y 1 1 = (days_of y m 1 - days_before_month (leap y) m)%Z ∧
  days_of (y + m / 12) (m mod 12 + 1) 1 = (days_of y 1 1 + days_before_month (leap y) (m + 1))%Z.
Proof.
  intros Hm. split; [unfold days_of; rewrite days_before_january; lia|].
  destruct (decide (m = 12%Z)) as [->|Hne].
  - change (12 mod 12 + 1)%Z with 1%Z. change (12 / 12)%Z with 1%Z. rewrite days_of_year. by destruct (leap y).
  - rewrite Z.mod_small, Z.div_small, Z.add_0_r by lia. unfold days_of. rewrite days_before_january. lia.
Qed.

(** A day lies in the month its civil date names. *)
Lemma civil_of_spec n :
  let c := civil_of n in
  (1 ≤ Month c ≤ 12)%Z ∧ days_of (Year c) (Month c) (Day c) = n ∧
  (days_of (Year c) (Month c) 1 ≤ n < days_of (Year c + Month c / 12) (Month c mod 12 + 1) 1)%Z ∧
  (days_of (Year c) 1 1 ≤ n < days_of (Year c + 1) 1 1)%Z.
Proof.
  cbn zeta. unfold civil_of. cbn [Year Month Day]. set (y := year_of n). set (yday := (n - days_of y 1 1)%Z).
  pose proof (year_of_spec n) as Hy. fold y in Hy. pose proof (days_of_year y) as Hstep. pose proof (days_before_year_step y).
  assert (0 ≤ yday < if leap y then 366 else 365)%Z as Hyday by (unfold yday; rewrite days_of_first; lia).
  pose proof (month_of_spec (leap y) yday Hyday) as [Hm Hd]. pose proof (days_of_month y _ Hm) as [H1 H2].
  rewrite days_of_day. assert (yday = n - days_of y 1 1)%Z as Hn by done. clearbody yday. split_and!; lia.
Qed.

(** * Midnight in a fixed zone *)

Lemma Date_fixed `{ZoneData} y m d off :
  Date y m d (FixedZone off) = ((days_of (y + (m - 1) / 12) ((m - 1) mod 12 + 1) d * day_seconds - off) * seconds)%Z.
Proof.
  unfold Date. cbn [lookup_zone offset zstart zend]. case_decide as Ho; [by rewrite Ho|]. by case_decide.
Qed.

(** A time lies between the midnights around its day. *)
Lemma day_in_fixed `{ZoneData} off t :
  let n := day_in (FixedZone off) t in
  ((n * day_seconds - off) * seconds ≤ t < ((n + 1) * day_seconds - off) * seconds)%Z.
Proof.
  cbn zeta. unfold day_in, seconds, day_seconds. cbn [lookup_zone offset]. Z.to_euclidean_division_equations. lia.
Qed.

(** * Dates are unique *)

Lemma days_before_year_mono y y' : (y ≤ y')%Z → (days_before_year y ≤ days_before_year y')%Z.
Proof. intros Hy. unfold days_before_year. Z.to_euclidean_division_equations. lia. Qed.

Lemma year_of_unique y n : (days_before_year y ≤ n + epoch < days_before_year (y + 1))%Z → year_of n = y.
Proof.
  intros Hn. pose proof (year_of_spec n) as Hs. destruct (Z.lt_trichotomy (year_of n) y) as [Hlt|[Heq|Hgt]]; [|done|].
  - pose proof (days_before_year_mono (year_of n + 1) y ltac:(lia)). lia.
  - pose proof (days_before_year_mono (y + 1) (year_of n) ltac:(lia)). lia.
Qed.

(** The months of a year, for proofs by cases. *)
Lemma months m : (1 ≤ m ≤ 12)%Z → m ∈ [1; 2; 3; 4; 5; 6; 7; 8; 9; 10; 11; 12]%Z.
Proof. intros Hm. rewrite !elem_of_cons. lia. Qed.

Lemma month_of_first l m : (1 ≤ m ≤ 12)%Z → month_of l (days_before_month l m) = m.
Proof.
  intros Hm%months. revert m Hm. apply Forall_forall. destruct l; repeat (apply Forall_cons; split; [by vm_compute|]); constructor.
Qed.

Lemma days_before_month_bound l m : (1 ≤ m ≤ 12)%Z → (0 ≤ days_before_month l m < if l then 366 else 365)%Z.
Proof.
  intros Hm%months. revert m Hm. apply Forall_forall. destruct l; repeat (apply Forall_cons; split; [vm_compute; done|]); constructor.
Qed.

Lemma days_before_month_mono l m m' : (1 ≤ m ≤ m')%Z → (m' ≤ 12)%Z → (days_before_month l m ≤ days_before_month l m')%Z.
Proof.
  intros Hm Hm2. assert (1 ≤ m ≤ 12)%Z as H1 by lia. assert (1 ≤ m' ≤ 12)%Z as H2 by lia.
  apply months in H1, H2. rewrite !elem_of_cons in H1, H2.
  destruct l; destruct_or?; subst; try lia; try (by apply elem_of_nil in H1); try (by apply elem_of_nil in H2); month_table; lia.
Qed.

(** The date of the first day of a month. *)
Lemma civil_first y m : (1 ≤ m ≤ 12)%Z → civil_of (days_of y m 1) = Civil y m 1.
Proof.
  intros Hm. pose proof (days_before_month_bound (leap y) m Hm) as Hb. pose proof (days_of_month y m Hm) as [H1 _].
  assert (year_of (days_of y m 1) = y) as Hy.
  { apply year_of_unique. rewrite days_before_year_step. rewrite days_of_first in H1. lia. }
  unfold civil_of. rewrite Hy. replace (days_of y m 1 - days_of y 1 1)%Z with (days_before_month (leap y) m) by lia.
  rewrite month_of_first by done. f_equal. lia.
Qed.

(** A day lies less than a year after the first of its year. *)
Lemma year_start_near n : (n - 366 < days_of (Year (civil_of n)) 1 1)%Z.
Proof.
  pose proof (civil_of_spec n) as (_ & _ & _ & Hy). rewrite days_of_year in Hy. destruct (leap _); lia.
Qed.
