(* ===== verification/Buckets.v ===== *)
(** Buckets of an aggregation, and the terms aggregation
    (pkg/bluge/aggregation/terms.go). *)
From S2P Require Import Prelude Hash Strconv Value.

(** * What bluge provides *)

(** The calculators inside of a bucket: made by [NewBucket], fed by [Consume] and
    merged by [Merge] of [search.Bucket]; one of them counts the documents. *)
Class Metrics (D A : Type) := {
  no_docs : A;
  consume : D → A → A;
  merge : A → A → A;
  count : A → Z;
  count_no_docs : count no_docs = 0%Z;
  count_consume d a : count (consume d a) = (count a + 1)%Z;
  count_merge a b : count (merge a b) = (count a + count b)%Z;
  count_nonneg a : (0 ≤ count a)%Z
}.

(** A metric of a bucket that adds up: [w] is what a document contributes. *)
Class Additive {D A} `{Metrics D A} (w : D → Z) (m : A → Z) := {
  additive_no_docs : m no_docs = 0%Z;
  additive_consume d a : m (consume d a) = (m a + w d)%Z;
  additive_merge a b : m (merge a b) = (m a + m b)%Z
}.

#[export] Instance count_additive {D A} `{Metrics D A} : Additive (λ _, 1%Z) count.
Proof. split; [apply count_no_docs|intros; apply count_consume|apply count_merge]. Qed.

(** The values of a field of a document ([search.FieldSource]). *)
Record FieldSource (D : Type) := mkSource {
  Value : D → string;
  Values : D → list string;
  Number : D → float64;
  Numbers : D → list float64;
  Dates : D → list Z
}.
Arguments Value {D} _ _.
Arguments Values {D} _ _.
Arguments Number {D} _ _.
Arguments Numbers {D} _ _.
Arguments Dates {D} _ _.

(** * Lists of buckets *)

Section buckets.
Context {D A : Type} {metrics : Metrics D A}.
Implicit Types (bs : list (string * A)) (nb : string * A).

(** A change of the bucket called [k]. *)
Definition update (k : string) (f : A → A) bs : list (string * A) :=
  (λ nb, if decide (nb.1 = k) then (nb.1, f nb.2) else nb) <$> bs.

(** One value of a document.  [known] are the keys of [bucketsMap]; while
    documents are consumed they are the names of the list, and the map shares its
    buckets with the list. *)
Definition consume_name (d : D) (st : gset string * list (string * A)) (termStr : string) : gset string * list (string * A) :=
  let '(known, bs) := st in
  if decide (termStr ∈ known) then (known, update termStr (consume d) bs)
  else ({[termStr]} ∪ known, bs ++ [(termStr, consume d no_docs)]).

(** One bucket of the other calculator: it is merged into every bucket of its
    name, and appended when there is none. *)
Definition merge_bucket bs nb : list (string * A) :=
  if decide (nb.1 ∈ bs.*1) then update nb.1 (λ a, merge a nb.2) bs else bs ++ [nb].
Definition merge_buckets bs (others : list (string * A)) : list (string * A) := foldl merge_bucket bs others.

(** The end of every [Finish]: the buckets are sorted and cut to the size, and
    [other] is recomputed. *)
Definition not_other bs : Z := foldr Z.add 0%Z ((count ∘ snd) <$> bs).
Definition trim_top {less} (srt : sorter less) (size : Z) bs : res (list (string * A)) :=
  let bs := sort_slice srt bs in
  let trimTopN := if decide (Z.of_nat (length bs) < size)%Z then Z.of_nat (length bs) else size in
  if decide (trimTopN < 0)%Z then Panic PSlice else Ok (take (Z.to_nat trimTopN) bs).
End buckets.

(** * The terms aggregation *)

(** The constants of aggregation.go. *)
Definition TextValueSource : Z := 0.
Definition TextValuesSource : Z := 1.
Definition NumericValueSource : Z := 2.
Definition NumericValuesSource : Z := 3.
Definition BooleanValueSource : Z := 4.
Definition BooleanValuesSource : Z := 5.

Record TermsCalculator (A : Type) := mkTerms {
  t_size : Z;
  t_list : list (string * A);
  t_known : gset string;
  t_total : Z;
  t_other : Z
}.
Arguments mkTerms {A} _ _ _ _ _.
Arguments t_size {A} _.
Arguments t_list {A} _.
Arguments t_known {A} _.
Arguments t_total {A} _.
Arguments t_other {A} _.

Section terms.
Context {D A : Type} {metrics : Metrics D A}.
Context (FormatFloat : float64 → string) (src : FieldSource D) (srcType : Z).

Definition bool_name (term : float64) : string := if float_is_zero term then "false" else "true".

(** The names of the buckets a document belongs to; [None] for a type that is not
    supported. *)
Definition term_names (d : D) : option (list string) :=
  if decide (srcType = TextValueSource) then Some [Value src d]
  else if decide (srcType = TextValuesSource) then Some (Values src d)
  else if decide (srcType = NumericValueSource) then Some [FormatFloat (Number src d)]
  else if decide (srcType = NumericValuesSource) then Some (FormatFloat <$> Numbers src d)
  else if decide (srcType = BooleanValueSource) then Some [bool_name (Number src d)]
  else if decide (srcType = BooleanValuesSource) then Some (bool_name <$> Numbers src d)
  else None.

Definition Calculator (size : Z) : TermsCalculator A := mkTerms size [] ∅ 0 0.

Definition Consume (a : TermsCalculator A) (d : D) : TermsCalculator A :=
  match term_names d with
  | None => a
  | Some names =>
      let '(known, bs) := foldl (consume_name d) (t_known a, t_list a) names in
      mkTerms (t_size a) bs known (t_total a + 1) (t_other a)
  end.

(** [sort.Reverse] of the order by counts. *)
Definition more_docs (x y : string * A) : bool := (count y.2 <? count x.2)%Z.
Context (srt : sorter more_docs).

Definition Finish (a : TermsCalculator A) : res (TermsCalculator A) :=
  bs ← trim_top srt (t_size a) (t_list a);
  Ok (mkTerms (t_size a) bs (t_known a) (t_total a) (t_total a - not_other bs)).

Definition Merge (a other : TermsCalculator A) : res (TermsCalculator A) :=
  Finish (mkTerms (t_size a) (merge_buckets (t_list a) (t_list other)) (t_known a) (t_total a + t_total other) (t_other a)).

(** How a search uses it: every reader consumes its documents and finishes, and
    the results are merged into a new calculator in the order they arrive. *)
Definition read_part (size : Z) (docs : list D) : res (TermsCalculator A) := Finish (foldl Consume (Calculator size) docs).
Definition read_parts (size : Z) (arrival : shuffle (TermsCalculator A)) (parts : list (list D)) : res (TermsCalculator A) :=
  calcs ← foldM (λ acc docs, c ← read_part size docs; Ok (acc ++ [c])) [] parts;
  foldM Merge (Calculator size) (shuf arrival calcs).
End terms.

(** * Sums over buckets *)

Definition zsum (l : list Z) : Z := foldr Z.add 0%Z l.

Lemma zsum_app l k : zsum (l ++ k) = (zsum l + zsum k)%Z.
Proof. induction l; cbn; [done|]. unfold zsum in *. lia. Qed.

Lemma zsum_perm l k : l ≡ₚ k → zsum l = zsum k.
Proof. induction 1; unfold zsum in *; cbn; lia. Qed.

Lemma zsum_nonneg l : Forall (λ z, 0 ≤ z)%Z l → (0 ≤ zsum l)%Z.
Proof. induction 1; cbn; [done|]. unfold zsum in *. lia. Qed.

Section measures.
Context {D A : Type} {metrics : Metrics D A}.
Implicit Types (bs : list (string * A)) (m : A → Z).

(** What the buckets called [k] measure together. *)
Definition measure m (k : string) bs : Z := zsum ((m ∘ snd) <$> filter (λ nb, nb.1 = k) bs).

Lemma measure_nil m k : measure m k [] = 0%Z.
Proof. done. Qed.

Lemma measure_cons m k n a bs :
  measure m k ((n, a) :: bs) = ((if decide (n = k) then m a else 0) + measure m k bs)%Z.
Proof. unfold measure. rewrite filter_cons. cbn [fst]. by case_decide. Qed.

Lemma measure_app m k bs bs' : measure m k (bs ++ bs') = (measure m k bs + measure m k bs')%Z.
Proof. unfold measure. by rewrite filter_app, fmap_app, zsum_app. Qed.

Lemma measure_perm m k bs bs' : bs ≡ₚ bs' → measure m k bs = measure m k bs'.
Proof. intros H. unfold measure. apply zsum_perm. by rewrite H. Qed.

Lemma measure_absent m k bs : k ∉ bs.*1 → measure m k bs = 0%Z.
Proof.
  induction bs as [|[n a] bs IH]; [done|]. cbn [fmap list_fmap fst]. intros [Hn Hk]%not_elem_of_cons.
  rewrite measure_cons, decide_False by done. by rewrite IH.
Qed.

Lemma measure_elem m k a bs : NoDup bs.*1 → (k, a) ∈ bs → measure m k bs = m a.
Proof.
  induction bs as [|[n b] bs IH]; [by intros ? []%elem_of_nil|]. cbn [fmap list_fmap fst].
  intros [Hn Hnd]%NoDup_cons [[= <- <-]|Hin]%elem_of_cons;
    rewrite measure_cons.
  - rewrite decide_True, measure_absent by done. lia.
  - rewrite decide_False, IH by (done || by intros ->; apply Hn, list_elem_of_fmap; exists (k, a)). lia.
Qed.

Lemma measure_count_nonneg k bs : (0 ≤ measure count k bs)%Z.
Proof. apply zsum_nonneg, Forall_fmap, Forall_true. intros nb. apply count_nonneg. Qed.

Lemma update_names k f bs : (update k f bs).*1 = bs.*1.
Proof. unfold update. rewrite <-list_fmap_compose. apply list_fmap_ext. intros ? [n a] _. cbn. by case_decide. Qed.

Lemma measure_update m k k' f bs : NoDup bs.*1 → k' ∈ bs.*1 →
  ∃ a, (k', a) ∈ bs ∧ measure m k (update k' f bs) = (measure m k bs + if decide (k' = k) then m (f a) - m a else 0)%Z.
Proof.
  induction bs as [|[n b] bs IH]; [by intros ? []%elem_of_nil|]. cbn [fmap list_fmap fst].
  intros [Hn Hnd]%NoDup_cons Hin. change (update k' f ((n, b) :: bs)) with
    ((if decide (n = k') then (n, f b) else (n, b)) :: update k' f bs).
  destruct (decide (n = k')) as [->|Hne].
  - exists b. split; [left|]. rewrite !measure_cons.
    replace (update k' f bs) with bs; [case_decide; lia|]. symmetry. unfold update. rewrite <-(list_fmap_id bs) at 2.
    apply list_fmap_ext. intros i [n a] Hi. cbn. rewrite decide_False; [done|]. intros ->.
    apply Hn, list_elem_of_fmap. exists (k', a). split; [done|]. by eapply list_elem_of_lookup_2.
  - apply elem_of_cons in Hin as [->|Hin]; [done|]. destruct (IH Hnd Hin) as (a & Ha & Heq). exists a.
    split; [by right|]. rewrite !measure_cons, Heq. lia.
Qed.

(** ** Merging two lists *)

Lemma merge_bucket_names bs n a : ∀ k, k ∈ (merge_bucket bs (n, a)).*1 ↔ k ∈ bs.*1 ∨ k = n.
Proof.
  intros k. unfold merge_bucket. cbn [fst]. case_decide; [rewrite update_names; naive_solver|].
  rewrite fmap_app, elem_of_app. cbn. by rewrite list_elem_of_singleton.
Qed.

Lemma merge_bucket_nodup bs n a : NoDup bs.*1 → NoDup (merge_bucket bs (n, a)).*1.
Proof.
  intros H. unfold merge_bucket. cbn [fst]. case_decide; [by rewrite update_names|].
  rewrite fmap_app. apply NoDup_app. split; [done|]. split; [|apply NoDup_singleton]. set_solver.
Qed.

Lemma merge_bucket_measure w m `{!Additive w m} k bs n a : NoDup bs.*1 →
  measure m k (merge_bucket bs (n, a)) = (measure m k bs + if decide (n = k) then m a else 0)%Z.
Proof.
  intros Hnd. unfold merge_bucket. cbn [fst snd]. case_decide as Hin.
  - destruct (measure_update m k n (λ x, merge x a) bs Hnd Hin) as (x & _ & ->).
    rewrite (additive_merge (w := w)). case_decide; lia.
  - rewrite measure_app, measure_cons, measure_nil. case_decide; lia.
Qed.

Lemma merge_buckets_spec others : ∀ bs, NoDup bs.*1 →
  NoDup (merge_buckets bs others).*1 ∧
  (∀ k, k ∈ (merge_buckets bs others).*1 ↔ k ∈ bs.*1 ∨ k ∈ others.*1) ∧
  (∀ w m k, Additive w m → measure m k (merge_buckets bs others) = (measure m k bs + measure m k others)%Z).
Proof.
  induction others as [|[n a] others IH]; intros bs Hnd.
  - split_and!; [done| |intros; cbn [merge_buckets foldl]; rewrite measure_nil; lia]. intros k. cbn. set_solver.
  - destruct (IH _ (merge_bucket_nodup bs n a Hnd)) as (H1 & H2 & H3). cbn [merge_buckets foldl fmap list_fmap fst].
    split_and!; [done| |].
    + intros k. unfold merge_buckets in H2. rewrite H2, merge_bucket_names, elem_of_cons. tauto.
    + intros w m k Hm. unfold merge_buckets in H3. rewrite (H3 w m k Hm), (merge_bucket_measure w), measure_cons by done. lia.
Qed.
End measures.
#[global] Arguments measure {A} m k bs : simpl never.

(** * What buckets stand for *)

Section exact.
Context {D A : Type} {metrics : Metrics D A}.
(** The names of the buckets a document belongs to. *)
Context (keys : D → list string).
Implicit Types (bs : list (string * A)) (docs : list D).

Definition occurrences (k : string) (ns : list string) : Z := Z.of_nat (length (filter (λ n, n = k) ns)).

(** What the documents contribute to the bucket [k]: a document with several
    equal values is counted for each of them. *)
Definition weight (w : D → Z) (k : string) docs : Z := zsum ((λ d, occurrences k (keys d) * w d)%Z <$> docs).

Definition all_keys docs : list string := concat (keys <$> docs).

(** The map of buckets and their list agree. *)
Definition consistent (st : gset string * list (string * A)) : Prop :=
  NoDup st.2.*1 ∧ ∀ k, k ∈ st.1 ↔ k ∈ st.2.*1.

(** Exactly the values that occur have a bucket, and every metric that adds up is
    the sum over the documents with the value. *)
Definition exact docs bs : Prop :=
  (∀ k, k ∈ bs.*1 ↔ k ∈ all_keys docs) ∧
  ∀ w m k, Additive w m → measure m k bs = weight w k docs.

Lemma occurrences_cons k n ns : occurrences k (n :: ns) = ((if decide (n = k) then 1 else 0) + occurrences k ns)%Z.
Proof. unfold occurrences. rewrite filter_cons. case_decide; cbn; lia. Qed.

Lemma weight_app w k docs docs' : weight w k (docs ++ docs') = (weight w k docs + weight w k docs')%Z.
Proof. unfold weight. by rewrite fmap_app, zsum_app. Qed.

Lemma weight_perm w k docs docs' : docs ≡ₚ docs' → weight w k docs = weight w k docs'.
Proof. intros H. apply zsum_perm. by rewrite H. Qed.

Lemma all_keys_app docs docs' : all_keys (docs ++ docs') = all_keys docs ++ all_keys docs'.
Proof. unfold all_keys. by rewrite fmap_app, concat_app. Qed.

Lemma exact_perm docs docs' bs : docs ≡ₚ docs' → exact docs bs → exact docs' bs.
Proof.
  intros Hp [H1 H2]. split; [|intros w m k Hm; rewrite <-(weight_perm w k _ _ Hp); by apply H2].
  intros k. rewrite H1. unfold all_keys. rewrite !elem_of_concat_fmap. by setoid_rewrite Hp.
Qed.

Lemma consume_name_spec d k st : consistent st →
  consistent (consume_name d st k) ∧
  (∀ n, n ∈ (consume_name d st k).2.*1 ↔ n ∈ st.2.*1 ∨ n = k) ∧
  (∀ w m n, Additive w m → measure m n (consume_name d st k).2 = (measure m n st.2 + if decide (k = n) then w d else 0)%Z).
Proof.
  destruct st as [known bs]. intros [Hnd Hk]. cbn [fst snd] in *. unfold consume_name. case_decide as Hin; cbn [fst snd].
  - assert (∀ n, n ∈ (update k (consume d) bs).*1 ↔ n ∈ bs.*1) as Hn by (intros n; by rewrite update_names).
    split_and!; [split; cbn; [by rewrite update_names|intros n; by rewrite Hn]| |].
    + intros n. rewrite Hn. split; [by left|]. intros [?| ->]; [done|]. by apply Hk.
    + intros w m n Hm. apply Hk in Hin. destruct (measure_update m n k (consume d) bs Hnd Hin) as (a & _ & ->).
      rewrite (additive_consume (w := w)). case_decide; lia.
  - rewrite !fmap_app. cbn [fmap list_fmap fst]. split_and!.
    + split; cbn [fst snd]; rewrite fmap_app; cbn [fmap list_fmap fst].
      * apply NoDup_app. split; [done|]. split; [|apply NoDup_singleton]. set_solver.
      * intros n. rewrite elem_of_app, list_elem_of_singleton, elem_of_union, elem_of_singleton, Hk. tauto.
    + intros n. by rewrite elem_of_app, list_elem_of_singleton.
    + intros w m n Hm. rewrite measure_app, measure_cons, measure_nil, (additive_consume (w := w)), (additive_no_docs (w := w)).
      case_decide; lia.
Qed.

Lemma consume_names_spec d ns : ∀ st, consistent st →
  consistent (foldl (consume_name d) st ns) ∧
  (∀ n, n ∈ (foldl (consume_name d) st ns).2.*1 ↔ n ∈ st.2.*1 ∨ n ∈ ns) ∧
  (∀ w m n, Additive w m → measure m n (foldl (consume_name d) st ns).2 = (measure m n st.2 + occurrences n ns * w d)%Z).
Proof.
  induction ns as [|k ns IH]; intros st Hst; cbn [foldl].
  - split_and!; [done|set_solver|]. intros w m n Hm. change (occurrences n []) with 0%Z. lia.
  - destruct (consume_name_spec d k st Hst) as (H1 & H2 & H3). destruct (IH _ H1) as (H4 & H5 & H6).
    split_and!; [done| |].
    + intros n. rewrite H5, H2, elem_of_cons. tauto.
    + intros w m n Hm. rewrite (H6 w m n Hm), (H3 w m n Hm), occurrences_cons. case_decide; lia.
Qed.

(** A document more. *)
Lemma exact_consume docs d st : consistent st → exact docs st.2 →
  let st' := foldl (consume_name d) st (keys d) in consistent st' ∧ exact (docs ++ [d]) st'.2.
Proof.
  intros Hst [H1 H2]. cbn zeta. destruct (consume_names_spec d (keys d) st Hst) as (H3 & H4 & H5). split; [done|]. split.
  - intros k. rewrite H4, H1, all_keys_app, elem_of_app. unfold all_keys. cbn. by rewrite app_nil_r.
  - intros w m k Hm. rewrite (H5 w m k Hm), (H2 w m k Hm), weight_app. unfold weight. cbn. lia.
Qed.

(** Two lists of buckets for parts of the documents. *)
Lemma exact_merge docs docs' bs bs' : NoDup bs.*1 → exact docs bs → exact docs' bs' →
  exact (docs ++ docs') (merge_buckets bs bs').
Proof.
  intros Hnd [H1 H2] [H3 H4]. destruct (merge_buckets_spec bs' bs Hnd) as (_ & H5 & H6). split.
  - intros k. by rewrite H5, H1, H3, all_keys_app, elem_of_app.
  - intros w m k Hm. rewrite (H6 w m k Hm), (H2 w m k Hm), (H4 w m k Hm). by rewrite weight_app.
Qed.

(** The number of values that occur. *)
Definition distinct docs : nat := size (list_to_set (all_keys docs) : gset string).

Lemma distinct_app_l docs docs' : distinct docs ≤ distinct (docs ++ docs').
Proof. unfold distinct. apply subseteq_size. rewrite all_keys_app, list_to_set_app_L. set_solver. Qed.
Lemma distinct_app_r docs docs' : distinct docs' ≤ distinct (docs ++ docs').
Proof. unfold distinct. apply subseteq_size. rewrite all_keys_app, list_to_set_app_L. set_solver. Qed.

Lemma distinct_perm docs docs' : docs ≡ₚ docs' → distinct docs = distinct docs'.
Proof.
  intros Hp. unfold distinct. f_equal. apply set_eq. intros k. rewrite !elem_of_list_to_set.
  unfold all_keys. rewrite !elem_of_concat_fmap. by setoid_rewrite Hp.
Qed.

Lemma exact_length docs bs : NoDup bs.*1 → exact docs bs → length bs = distinct docs.
Proof.
  intros Hnd [H1 _]. unfold distinct. rewrite <-(length_fmap fst bs), <-(size_list_to_set (C := gset string)) by done.
  f_equal. apply set_eq. intros k. rewrite !elem_of_list_to_set. apply H1.
Qed.
End exact.
#[global] Arguments exact {D A metrics} keys docs bs : simpl never.
#[global] Arguments weight {D} keys w k docs : simpl never.

(** * Terms from many readers *)

Section trimming.
Context {D A : Type} {metrics : Metrics D A} {less : string * A → string * A → bool} (srt : sorter less) (size : Z).

(** Cutting keeps names apart and counts below what they were; a list that fits
    is only sorted. *)
Lemma trim_top_spec (bs : list (string * A)) : (0 ≤ size)%Z → NoDup bs.*1 →
  ∃ bs', trim_top srt size bs = Ok bs' ∧ NoDup bs'.*1 ∧ (Z.of_nat (length bs') ≤ size)%Z ∧
    StronglySorted (λ x y, less y x = false) bs' ∧ (∀ k, measure count k bs' ≤ measure count k bs)%Z ∧
    ((Z.of_nat (length bs) ≤ size)%Z → bs' ≡ₚ bs).
Proof.
  intros Hsize Hnd. unfold trim_top. set (l := sort_slice srt bs).
  assert (l ≡ₚ bs) as Hp by apply sort_slice_perm.
  set (n := if decide (Z.of_nat (length l) < size)%Z then Z.of_nat (length l) else size).
  assert (0 ≤ n ≤ size)%Z as Hn by (unfold n; case_decide; lia). rewrite decide_False by lia.
  exists (take (Z.to_nat n) l). split_and!; [done|..].
  - rewrite fmap_take. apply (sublist_NoDup _ l.*1); [by rewrite Hp|apply sublist_take].
  - rewrite length_take. lia.
  - pose proof (sort_slice_sorted srt bs) as Hs. fold l in Hs. rewrite <-(take_drop (Z.to_nat n) l) in Hs.
    by apply StronglySorted_app in Hs as (_ & ? & _).
  - intros k. rewrite <-(measure_perm count k _ _ Hp). transitivity (measure count k (take (Z.to_nat n) l ++ drop (Z.to_nat n) l)).
    + rewrite measure_app. pose proof (measure_count_nonneg k (drop (Z.to_nat n) l)). lia.
    + by rewrite take_drop.
  - intros Hlen. assert (length l = length bs) as Hl by (by rewrite Hp). rewrite take_ge; [done|]. unfold n. case_decide; lia.
Qed.
End trimming.

Lemma exact_buckets_perm {D A} `{Metrics D A} (keys : D → list string) docs (bs bs' : list (string * A)) :
  bs' ≡ₚ bs → exact keys docs bs → exact keys docs bs'.
Proof.
  intros Hp [H1 H2]. split; [intros k; by rewrite Hp|]. intros w m k Hm. rewrite (measure_perm m k _ _ Hp). by apply H2.
Qed.

Section terms_parts.
Context {D A : Type} {metrics : Metrics D A}.
Context (FormatFloat : float64 → string) (src : FieldSource D) (srcType : Z) (srt : sorter (more_docs (A := A))) (size : Z).

Definition term_keys (d : D) : list string := default [] (term_names FormatFloat src srcType d).
Notation keys := term_keys.

(** A calculator that has seen [docs], and possibly lost buckets. *)
Record seen (docs : list D) (c : TermsCalculator A) : Prop := {
  seen_size : t_size c = size;
  seen_nodup : NoDup (t_list c).*1;
  seen_total : t_total c = Z.of_nat (length docs);
  seen_bound k : (measure count k (t_list c) ≤ weight keys (λ _, 1%Z) k docs)%Z;
  seen_exact : (Z.of_nat (distinct keys docs) ≤ size)%Z → exact keys docs (t_list c)
}.

Definition finished (c : TermsCalculator A) : Prop :=
  (Z.of_nat (length (t_list c)) ≤ size)%Z ∧ StronglySorted (λ x y, count y.2 ≤ count x.2)%Z (t_list c) ∧
  t_other c = (t_total c - not_other (t_list c))%Z.

Lemma Finish_seen docs c : (0 ≤ size)%Z → seen docs c → ∃ c', Finish srt c = Ok c' ∧ seen docs c' ∧ finished c'.
Proof.
  intros Hsize [H1 H2 H3 H4 H5]. unfold Finish. rewrite H1.
  destruct (trim_top_spec srt size (t_list c) Hsize H2) as (bs & -> & Hnd & Hlen & Hs & Hm & Hfit). cbn [mbind res_bind].
  eexists. split; [done|]. split.
  - split; cbn; [done..| |].
    + intros k. etrans; [apply Hm|apply H4].
    + intros Hd. specialize (H5 Hd). eapply exact_buckets_perm, H5. apply Hfit. by rewrite (exact_length keys docs).
  - split_and!; cbn; [done| |done]. rewrite <-(list_fmap_id bs). apply (StronglySorted_fmap id (λ x y, more_docs y x = false)); [|done]. cbn.
    unfold more_docs. cbn. lia.
Qed.

Lemma Calculator_seen : seen [] (Calculator size).
Proof. split; cbn; try done. apply NoDup_nil_2. Qed.

Lemma Consume_seen docs : (0 ≤ srcType ≤ 5)%Z → seen docs (foldl (Consume FormatFloat src srcType) (Calculator size) docs).
Proof.
  intros Htype. assert (∀ d, is_Some (term_names FormatFloat src srcType d)) as Hsome.
  { intros d. unfold term_names. repeat (case_decide; [by eexists|]).
    exfalso. unfold TextValueSource, TextValuesSource, NumericValueSource, NumericValuesSource, BooleanValueSource, BooleanValuesSource in *. lia. }
  enough (let c := foldl (Consume FormatFloat src srcType) (Calculator (A := A) size) docs in
          t_size c = size ∧ t_total c = Z.of_nat (length docs) ∧ consistent (t_known c, t_list c) ∧ exact keys docs (t_list c))
    as (H1 & H2 & [H3 _] & H4).
  { split; try done. intros k. by rewrite (proj2 H4 (λ _, 1%Z) count k _). }
  induction docs as [|d docs IH] using rev_ind.
  - split_and!; try done. split; [apply NoDup_nil_2|set_solver].
  - rewrite foldl_app. cbn [foldl]. cbn zeta in *. set (c := foldl _ _ docs) in *. destruct IH as (H1 & H2 & H3 & H4).
    unfold Consume. destruct (Hsome d) as [names Hn]. rewrite Hn.
    assert (keys d = names) as Hk by (unfold term_keys; by rewrite Hn).
    pose proof (exact_consume keys docs d (t_known c, t_list c) H3 H4) as Hstep. rewrite Hk in Hstep. cbn zeta in Hstep.
    destruct (foldl (consume_name d) _ names) as [known bs]. destruct Hstep as [Hc He].
    cbn [t_size t_total t_known t_list fst snd] in *. split_and!; [done| |exact Hc|exact He]. rewrite H2, length_app. cbn. lia.
Qed.

Lemma Merge_seen docs docs' c c' : (0 ≤ size)%Z → seen docs c → seen docs' c' →
  ∃ c2, Merge srt c c' = Ok c2 ∧ seen (docs ++ docs') c2 ∧ finished c2.
Proof.
  intros Hsize [H1 H2 H3 H4 H5] [G1 G2 G3 G4 G5]. unfold Merge. apply Finish_seen; [done|].
  destruct (merge_buckets_spec (t_list c') (t_list c) H2) as (M1 & M2 & M3). split; cbn; try done.
  - rewrite length_app. lia.
  - intros k. rewrite (M3 (λ _, 1%Z) count k _), weight_app. specialize (H4 k). specialize (G4 k). lia.
  - intros Hd. pose proof (distinct_app_l keys docs docs'). pose proof (distinct_app_r keys docs docs').
    apply exact_merge; [done|apply H5; lia|apply G5; lia].
Qed.

Lemma merge_seen_parts parts calcs : (0 ≤ size)%Z → Forall2 seen parts calcs →
  ∃ c, foldM (Merge srt) (Calculator size) calcs = Ok c ∧ seen (concat parts) c ∧
    (Z.of_nat (length (t_list c)) ≤ size)%Z ∧ StronglySorted (λ x y, count y.2 ≤ count x.2)%Z (t_list c) ∧
    (parts ≠ [] → t_other c = (t_total c - not_other (t_list c))%Z).
Proof.
  intros Hsize Hs. revert calcs Hs. induction parts as [|docs parts IH] using rev_ind; intros calcs Hs.
  - apply Forall2_nil_inv_l in Hs as ->. exists (Calculator size). cbn. split_and!; [done|apply Calculator_seen|lia|constructor|done].
  - apply Forall2_app_inv_l in Hs as (cs & cs' & H1 & H2 & ->). apply Forall2_cons_inv_l in H2 as (c' & l & Hc' & Hl & ->).
    apply Forall2_nil_inv_l in Hl as ->. destruct (IH cs H1) as (c & Hc & Hs & _).
    destruct (Merge_seen _ _ c c' Hsize Hs Hc') as (c2 & Hm & Hs2 & F1 & F2 & F3). exists c2.
    rewrite foldM_app, Hc. cbn. rewrite Hm. rewrite concat_app. cbn. rewrite app_nil_r. by split_and!.
Qed.

(** C19: the terms aggregation over several readers: whatever the order in which
    their results arrive, it finds at most [size] buckets of different values,
    ordered by their counts, with the number of remaining documents in [other],
    and counts nothing twice.  When there are at most [size] different values in
    all, exactly these have a bucket, and every metric of a bucket that adds up is
    the one over all documents with the value. *)
Theorem terms_of_parts arrival (parts : list (list D)) :
  (0 ≤ size)%Z → (0 ≤ srcType ≤ 5)%Z →
  ∃ c, read_parts FormatFloat src srcType srt size arrival parts = Ok c ∧
    let docs := concat parts in
    NoDup (t_list c).*1 ∧ (Z.of_nat (length (t_list c)) ≤ size)%Z ∧
    StronglySorted (λ x y, count y.2 ≤ count x.2)%Z (t_list c) ∧
    (parts ≠ [] → t_other c = Z.of_nat (length docs) - not_other (t_list c))%Z ∧
    (∀ n b, (n, b) ∈ t_list c → count b ≤ weight keys (λ _, 1) n docs)%Z ∧
    ((Z.of_nat (distinct keys docs) ≤ size)%Z →
     (∀ n, n ∈ (t_list c).*1 ↔ n ∈ all_keys keys docs) ∧
     ∀ w m n b, Additive w m → (n, b) ∈ t_list c → m b = weight keys w n docs).
Proof.
  intros Hsize Htype.
  assert (∃ calcs, foldM (λ acc docs, c ← read_part FormatFloat src srcType srt size docs; Ok (acc ++ [c])) [] parts = Ok calcs ∧
                   Forall2 seen parts calcs) as (calcs & Hcalcs & Hseen).
  { clear arrival. induction parts as [|docs parts IH] using rev_ind; [by exists []|].
    destruct IH as (calcs & Hc & Hs). destruct (Finish_seen docs _ Hsize (Consume_seen docs Htype)) as (c & Hc' & Hs' & _).
    exists (calcs ++ [c]). rewrite foldM_app, Hc. cbn. unfold read_part. rewrite Hc'. split; [done|]. apply Forall2_app; auto. }
  unfold read_parts. rewrite Hcalcs. cbn [mbind res_bind].
  assert (∃ parts', parts' ≡ₚ parts ∧ Forall2 seen parts' (shuf arrival calcs)) as (parts' & Hp & Hseen').
  { apply Forall2_flip in Hseen. destruct (Permutation_Forall2 (symmetry (shuf_perm arrival calcs)) Hseen) as (ps & ? & Hps%Forall2_flip).
    by exists ps. }
  destruct (merge_seen_parts parts' (shuf arrival calcs) Hsize Hseen') as (c & Hc & Hs & Hf). exists c. split; [done|].
  cbn zeta. assert (concat parts' ≡ₚ concat parts) as Hcp by (by rewrite Hp).
  destruct Hs as [H1 H2 H3 H4 H5]. destruct Hf as (F1 & F2 & F3). split_and!; [done..| | |].
  - intros Hne. rewrite F3, H3, Hcp; [done|]. intros ->. apply Hne. symmetry. by apply Permutation_nil_l.
  - intros n b Hin. rewrite <-(measure_elem count n b _ H2 Hin), <-(weight_perm keys _ n _ _ Hcp). apply H4.
  - intros Hd. assert (exact keys (concat parts) (t_list c)) as [E1 E2].
    { eapply exact_perm, H5; [done|]. by rewrite (distinct_perm keys _ _ Hcp). }
    split; [done|]. intros w m n b Hm Hin. rewrite <-(measure_elem m n b _ H2 Hin). by apply E2.
Qed.

(** A negative size is accepted, and panics as soon as a reader finishes. *)
Theorem negative_size_panics docs : (size < 0)%Z → read_part FormatFloat src srcType srt size docs = Panic PSlice.
Proof.
  intros Hsize. unfold read_part, Finish, trim_top. set (c := foldl _ _ docs). assert (t_size c = size) as ->.
  { unfold c. clear c. induction docs as [|d docs IH] using rev_ind; [done|]. rewrite foldl_app. cbn. unfold Consume at 1.
    destruct (term_names FormatFloat src srcType d) as [ns|]; [|done]. by destruct (foldl (consume_name d) _ ns). }
  rewrite (decide_False (P := (_ < size)%Z)) by lia. by rewrite decide_True by lia.
Qed.
End terms_parts.

(** * Concrete aggregations *)

Module TermsDemo.
(** Documents with a colour and a price; a bucket has their number and the sum of
    their prices. *)
Definition doc : Type := string * Z.
#[export] Program Instance sum_metrics : Metrics doc (N * Z) := {
  no_docs := (0%N, 0%Z);
  consume d a := ((a.1 + 1)%N, (a.2 + d.2)%Z);
  merge a b := ((a.1 + b.1)%N, (a.2 + b.2)%Z);
  count a := Z.of_N a.1
}.
Solve Obligations with (intros; cbn in *; lia).

#[export] Instance price_additive : Additive (D := doc) snd (snd (A := N) (B := Z)).
Proof. by split. Qed.

Definition colour : FieldSource doc := mkSource doc fst (λ d, [d.1]) (λ _, float_of_Z 0) (λ _, []) (λ _, []).
Definition demo_sorter : sorter (more_docs (D := doc) (A := N * Z)) := key_sorter (λ nb, count nb.2).
Definition demo_parts : list (list doc) := [[("red", 3%Z); ("blue", 4%Z)]; [("red", 5%Z)]].
Definition buckets (size : Z) (parts : list (list doc)) : res (list (string * (N * Z)) * Z) :=
  c ← read_parts (λ _, "") colour TextValueSource demo_sorter size shuffle_rev parts;
  Ok (t_list c, t_other c).

Example two_colours : buckets 10 demo_parts = Ok ([("red", (2%N, 8%Z)); ("blue", (1%N, 4%Z))], 0%Z).
Proof. by vm_compute. Qed.

(** With too little room a count can be too small: every reader drops its own
    rarest value, although it is the most frequent one in all. *)
Example rare_everywhere :
  buckets 1 [[("a", 0%Z); ("a", 0%Z); ("b", 0%Z)]; [("c", 0%Z); ("c", 0%Z); ("b", 0%Z)]; [("b", 0%Z)]] =
  Ok ([("c", (2%N, 0%Z))], 5%Z).
Proof. by vm_compute. Qed.

Lemma terms_of_parts_witness :
  ∃ c, read_parts (λ _, "") colour TextValueSource demo_sorter 10 shuffle_rev demo_parts = Ok c ∧
    ∀ n b, (n, b) ∈ t_list c → b.2 = weight (term_keys (λ _, "") colour TextValueSource) snd n (concat demo_parts).
Proof.
  destruct (terms_of_parts (λ _, "") colour TextValueSource demo_sorter 10 shuffle_rev demo_parts) as (c & Hc & _ & _ & _ & _ & _ & H).
  - lia.
  - unfold TextValueSource. lia.
  - exists c. split; [done|]. intros n b Hin. eapply (proj2 (H ltac:(vm_compute; discriminate)) snd snd n b _ Hin).
Defined.
End TermsDemo.
