(* ===== verification/Histogram.v ===== *)
(** Histograms: pkg/bluge/aggregation/histogram.go and date_histogram.go.  The
    two calculators have the same code around values of different types, which
    is written once here. *)
From Stdlib Require Import SpecFloat.
From S2P Require Import Prelude Hash Strconv Value Document Heap Merge Calendar Buckets TextOrder.

(** * The common part *)

(** [key] names the bucket of a value, [next] is the step of the loop that adds
    missing buckets, [bounds] what [Finish] makes of the smallest and the largest
    value, [start] the values of a new calculator. *)
Record hconf (V : Type) := mkConf {
  key : V → res string;
  lt : V → V → bool;
  next : V → V;
  bounds : V * V → V * V;
  start : V * V;
  minDocCount : Z;
  hsize : Z
}.
Arguments mkConf {V} _ _ _ _ _ _ _.
Arguments key {V} _ _.
Arguments lt {V} _ _ _.
Arguments next {V} _ _.
Arguments bounds {V} _ _.
Arguments start {V} _.
Arguments minDocCount {V} _.
Arguments hsize {V} _.

Record hcalc (V A : Type) := mkHist {
  h_range : V * V;
  h_list : list (string * A);
  h_known : gset string;
  h_total : Z;
  h_other : Z
}.
Arguments mkHist {V A} _ _ _ _ _.
Arguments h_range {V A} _.
Arguments h_list {V A} _.
Arguments h_known {V A} _.
Arguments h_total {V A} _.
Arguments h_other {V A} _.

Section histogram.
Context {D A V : Type} {metrics : Metrics D A} (cf : hconf V) (values : D → list V).

(** [lessFunc] compares the names as texts. *)
Definition name_less (x y : string * A) : bool := String.ltb x.1 y.1.
Context (srt : sorter name_less).

Definition h_Calculator : hcalc V A := mkHist (start cf) [] ∅ 0 0.

Definition widen (r : V * V) (v : V) : V * V :=
  (if lt cf v r.1 then v else r.1, if lt cf r.2 v then v else r.2).

Definition h_value (d : D) (a : hcalc V A) (v : V) : res (hcalc V A) :=
  let r := widen (h_range a) v in
  termStr ← key cf v;
  let '(known, bs) := consume_name d (h_known a, h_list a) termStr in
  Ok (mkHist r bs known (h_total a) (h_other a)).

Definition h_Consume (a : hcalc V A) (d : D) : res (hcalc V A) :=
  foldM (h_value d) (mkHist (h_range a) (h_list a) (h_known a) (h_total a + 1) (h_other a)) (values d).

(** The loop that adds missing buckets.  It does not record them in the map.
    [None] when the fuel runs out. *)
Fixpoint fill (fuel : nat) (value maxValue : V) (known : gset string) (bs : list (string * A)) : option (res (list (string * A))) :=
  match fuel with
  | O => None
  | S fuel =>
      if lt cf value maxValue then
        match key cf value with
        | Ok termStr =>
            fill fuel (next cf value) maxValue known (if decide (termStr ∈ known) then bs else bs ++ [(termStr, no_docs)])
        | Err e => Some (Err e)
        | Panic p => Some (Panic p)
        end
      else Some (Ok bs)
  end.

(** The loop that removes buckets in place keeps those that are large enough;
    the bound is converted to [uint64]. *)
Definition large_enough (bs : list (string * A)) : list (string * A) :=
  filter (λ nb, (wrap64 (minDocCount cf) ≤ count nb.2)%Z) bs.

Definition h_Finish (fuel : nat) (a : hcalc V A) : option (res (hcalc V A)) :=
  let r := bounds cf (h_range a) in
  filled ← (if decide (minDocCount cf = 0%Z) then fill fuel r.1 r.2 (h_known a) (h_list a)
            else Some (Ok (large_enough (h_list a))));
  Some (bs ← filled;
        bs ← trim_top srt (hsize cf) bs;
        Ok (mkHist r bs (h_known a) (h_total a) (h_total a - not_other bs))).

Definition h_Merge (fuel : nat) (a other : hcalc V A) : option (res (hcalc V A)) :=
  h_Finish fuel (mkHist (h_range a) (merge_buckets (h_list a) (h_list other)) (h_known a) (h_total a + h_total other) (h_other a)).

(** One reader, and the results of several merged into a new calculator. *)
Definition h_part (fuel : nat) (docs : list D) : option (res (hcalc V A)) :=
  match foldM h_Consume h_Calculator docs with
  | Ok c => h_Finish fuel c
  | Err e => Some (Err e)
  | Panic p => Some (Panic p)
  end.
Definition h_merge_all (fuel : nat) (a : hcalc V A) (calcs : list (hcalc V A)) : option (res (hcalc V A)) :=
  foldl (λ acc c, r ← acc; match r with Ok a => h_Merge fuel a c | _ => Some r end) (Some (Ok a)) calcs.
End histogram.

(** * histogram.go *)

Record HistogramBound := mkBound { Min : float64; Max : float64 }.

Definition float_floor (x : float64) : float64 :=
  match x with
  | S754_finite s m e =>
      if (0 <=? e)%Z then x
      else let z := Z.shiftr (cond_Zopp s (Zpos m)) (- e) in
           if decide (z = 0%Z) then S754_zero s else float_of_Z z
  | _ => x
  end.
Abbreviation fadd := (SFadd 53 1024).
Abbreviation fsub := (SFsub 53 1024).
Abbreviation fmul := (SFmul 53 1024).
Abbreviation fdiv := (SFdiv 53 1024).

Definition MaxFloat64 : float64 := S754_finite false (2 ^ 53 - 1) 971.
Definition SmallestNonzeroFloat64 : float64 := S754_finite false 1 (-1074).

Section float_histogram.
Context (FormatFloat : float64 → string) (interval offset : float64) (extendedBounds hardBounds : option HistogramBound).

Definition float_key (value : float64) : string :=
  FormatFloat (fadd (fmul (float_floor (fdiv (fsub value offset) interval)) interval) offset).

Definition float_bounds (r : float64 * float64) : float64 * float64 :=
  let r := match extendedBounds with
           | Some b => (if SFltb (Min b) r.1 then Min b else r.1, if SFltb r.2 (Max b) then Max b else r.2)
           | None => r
           end in
  match hardBounds with Some b => (Min b, Max b) | None => r end.

Definition HistogramCalculator (minDocCount size : Z) : hconf float64 :=
  mkConf (λ v, Ok (float_key v)) SFltb (λ v, fadd v interval) float_bounds (MaxFloat64, SmallestNonzeroFloat64) minDocCount size.

(** Its operations: those of the common part on the numbers of a document. *)
Definition Histogram_Consume {D A} `{Metrics D A} (minDocCount size : Z) (src : FieldSource D) : hcalc float64 A → D → res (hcalc float64 A) :=
  h_Consume (HistogramCalculator minDocCount size) (Numbers src).
Definition Histogram_Merge {D A} `{Metrics D A} (minDocCount size : Z) (srt : sorter (name_less (A := A))) (fuel : nat)
    : hcalc float64 A → hcalc float64 A → option (res (hcalc float64 A)) :=
  h_Merge (HistogramCalculator minDocCount size) srt fuel.
Definition Histogram_Finish {D A} `{Metrics D A} (minDocCount size : Z) (srt : sorter (name_less (A := A))) (fuel : nat)
    : hcalc float64 A → option (res (hcalc float64 A)) :=
  h_Finish (HistogramCalculator minDocCount size) srt fuel.
End float_histogram.

(** * date_histogram.go *)

Section date_histogram.
Context `{ZoneData} (FormatTime : string → location → Z → string).
Context (calendarInterval : string) (fixedInterval : Z) (format : string) (timeZone : location)
  (extendedBounds hardBounds : option HistogramBound).

(** The beginning of the calendar unit of a time. *)
Definition calendar_start (value : Z) : Z :=
  let n := day_in timeZone value in
  let c := civil_of n in
  if decide (calendarInterval ∈ ["week"; "1w"]) then Date (Year c) (Month c) (Day c - weekday n) timeZone
  else if decide (calendarInterval ∈ ["month"; "1M"]) then Date (Year c) (Month c) 1 timeZone
  else if decide (calendarInterval ∈ ["quarter"; "1q"]) then
    Date (Year c) (if decide (Month c ≤ 3) then 1 else if decide (Month c ≤ 6) then 4
                   else if decide (Month c ≤ 9) then 7 else 10)%Z 1 timeZone
  else if decide (calendarInterval ∈ ["year"; "1y"]) then Date (Year c) 1 1 timeZone
  else value.

Definition date_start (value : Z) : res Z :=
  if decide (calendarInterval ≠ "") then Ok (UnixNano (calendar_start value))
  else if decide (fixedInterval = 0%Z) then Panic PDivZero
  else Ok (int64 (int64 (Z.quot value fixedInterval) * fixedInterval)).

Definition date_key (value : Z) : res string :=
  nsec ← date_start value;
  Ok (if decide (format = "epoch_millis") then FormatInt (nsec / 1000000) else FormatTime format timeZone nsec).

Definition date_next (value : Z) : Z :=
  if decide (calendarInterval ≠ "") then
    let c := civil_of (day_in timeZone value) in
    UnixNano (if decide (calendarInterval ∈ ["week"; "1w"]) then Date (Year c) (Month c) (Day c + 7) timeZone
              else if decide (calendarInterval ∈ ["month"; "1M"]) then Date (Year c) (Month c + 1) (Day c) timeZone
              else if decide (calendarInterval ∈ ["quarter"; "1q"]) then Date (Year c) (Month c + 3) (Day c) timeZone
              else if decide (calendarInterval ∈ ["year"; "1y"]) then Date (Year c + 1) (Month c) (Day c) timeZone
              else value)
  else int64 (value + fixedInterval).

Definition millis (x : float64) : Z := int64_of_float (fmul x (float_of_Z 1000000)).

Definition date_bounds (r : Z * Z) : Z * Z :=
  let r := match extendedBounds with
           | Some b => (if decide (millis (Min b) < r.1)%Z then millis (Min b) else r.1,
                        if decide (r.2 < millis (Max b))%Z then millis (Max b) else r.2)
           | None => r
           end in
  match hardBounds with Some b => (millis (Min b), millis (Max b)) | None => r end.

Definition DateHistogramCalculator (minDocCount size : Z) : hconf Z :=
  mkConf date_key Z.ltb date_next date_bounds (2 ^ 63 - 1, - 2 ^ 63)%Z minDocCount size.
End date_histogram.

(** * Counts over many readers *)

Section parts.
Context {D A V : Type} {metrics : Metrics D A} (cf : hconf V) (values : D → list V) (srt : sorter (name_less (A := A))).
Implicit Types (bs : list (string * A)) (docs : list D).

Definition name_of (v : V) : string := match key cf v with Ok n => n | _ => "" end.
Definition hkeys (d : D) : list string := name_of <$> values d.
Definition named docs : Prop := ∀ d v, d ∈ docs → v ∈ values d → is_ok (key cf v) = true.

(** Every value that occurs has a bucket, and the metrics that add up are those of
    the documents; buckets without documents may be there as well. *)
Definition covers docs bs : Prop :=
  (∀ k, k ∈ all_keys hkeys docs → k ∈ bs.*1) ∧
  ∀ w m k, Additive w m → measure m k bs = weight hkeys w k docs.

Lemma covers_perm docs docs' bs bs' : docs ≡ₚ docs' → bs ≡ₚ bs' → covers docs bs → covers docs' bs'.
Proof.
  intros Hd Hb [H1 H2]. split.
  - intros k Hk. rewrite <-Hb. apply H1. revert Hk. unfold all_keys. rewrite !elem_of_concat_fmap. by setoid_rewrite Hd.
  - intros w m k Hm. rewrite <-(measure_perm m k _ _ Hb), <-(weight_perm hkeys w k _ _ Hd). by apply H2.
Qed.

Lemma covers_merge docs docs' bs bs' : NoDup bs.*1 → covers docs bs → covers docs' bs' →
  covers (docs ++ docs') (merge_buckets bs bs').
Proof.
  intros Hnd [H1 H2] [H3 H4]. destruct (merge_buckets_spec bs' bs Hnd) as (_ & H5 & H6). split.
  - intros k. rewrite H5, all_keys_app, elem_of_app. naive_solver.
  - intros w m k Hm. rewrite (H6 w m k Hm), (H2 w m k Hm), (H4 w m k Hm). by rewrite weight_app.
Qed.

(** The loop for missing buckets adds buckets without documents. *)
Lemma fill_names fuel : ∀ v mx known bs r, fill cf fuel v mx known bs = Some (Ok r) →
  ∃ names, r = bs ++ ((λ n, (n, no_docs)) <$> names).
Proof.
  induction fuel as [|fuel IH]; intros v mx known bs r; cbn [fill]; [done|].
  destruct (lt cf v mx); [|intros [= <-]; exists []; by rewrite app_nil_r].
  destruct (key cf v) as [n| |]; try done. intros (names & ->)%IH. case_decide; [by eexists|].
  exists (n :: names). by rewrite <-app_assoc.
Qed.

Lemma covers_fill docs bs names : covers docs bs → covers docs (bs ++ ((λ n, (n, no_docs)) <$> names)).
Proof.
  intros [H1 H2]. split.
  - intros k Hk. rewrite fmap_app, elem_of_app. left. by apply H1.
  - intros w m k Hm. rewrite measure_app, (H2 w m k Hm). enough (measure m k ((λ n, (n, no_docs)) <$> names) = 0%Z) by lia.
    induction names as [|n names IH]; [done|].
    rewrite fmap_cons, measure_cons, (additive_no_docs (w := w)), IH. by case_decide.
Qed.

(** One document. *)
Lemma h_values_ok d vs : (∀ v, v ∈ vs → is_ok (key cf v) = true) → ∀ a, ∃ r known bs,
  foldM (h_value cf d) a vs = Ok (mkHist r bs known (h_total a) (h_other a)) ∧
  r = foldl (widen cf) (h_range a) vs ∧ (known, bs) = foldl (consume_name d) (h_known a, h_list a) (name_of <$> vs).
Proof.
  induction vs as [|v vs IH]; intros Hok a.
  - destruct a as [r bs known t o]. by exists r, known, bs.
  - cbn [foldM fmap list_fmap foldl]. destruct (consume_name d (h_known a, h_list a) (name_of v)) as [known bs] eqn:E.
    assert (h_value cf d a v = Ok (mkHist (widen cf (h_range a) v) bs known (h_total a) (h_other a))) as ->.
    { specialize (Hok v ltac:(left)). unfold h_value, name_of in *. destruct (key cf v); try done. cbn [mbind res_bind]. by rewrite E. }
    cbn [mbind res_bind].
    destruct (IH (λ v Hv, Hok v ltac:(by right)) (mkHist (widen cf (h_range a) v) bs known (h_total a) (h_other a)))
      as (r' & known' & bs' & -> & -> & Heq). cbn in *. eauto 10.
Qed.

Lemma h_Consume_all docs : named docs → ∃ c,
  foldM (h_Consume cf values) (h_Calculator cf) docs = Ok c ∧ consistent (h_known c, h_list c) ∧ exact hkeys docs (h_list c) ∧
  h_total c = Z.of_nat (length docs) ∧ h_range c = foldl (λ r d, foldl (widen cf) r (values d)) (start cf) docs.
Proof.
  induction docs as [|d docs IH] using rev_ind; intros Hn.
  - exists (h_Calculator cf). split_and!; try done. split; [apply NoDup_nil_2|set_solver].
  - destruct IH as (c & Hc & H1 & H2 & H3 & H4); [intros ? v ?; apply Hn; set_solver|].
    rewrite foldM_app, Hc. cbn [foldM mbind res_bind]. unfold h_Consume at 1.
    destruct (h_values_ok d (values d) (λ v Hv, Hn d v ltac:(set_solver) Hv)
      (mkHist (h_range c) (h_list c) (h_known c) (h_total c + 1) (h_other c))) as (r & known & bs & -> & -> & Heq).
    cbn [h_known h_list h_range] in Heq. pose proof (exact_consume hkeys docs d (h_known c, h_list c) H1 H2) as Hstep.
    cbn zeta in Hstep. change (hkeys d) with (name_of <$> values d) in Hstep. rewrite <-Heq in Hstep. destruct Hstep as [G1 G2].
    eexists. split; [done|]. cbn [h_known h_list h_total h_range]. split_and!; [exact G1|exact G2| |].
    + rewrite H3, length_app. cbn. lia.
    + rewrite foldl_app. cbn. by rewrite H4.
Qed.

(** What a reader or a merge ends with. *)
Record complete docs (c : hcalc V A) : Prop := {
  complete_total : h_total c = Z.of_nat (length docs);
  complete_covers : covers docs (h_list c);
  complete_other : h_other c = (h_total c - not_other (h_list c))%Z
}.

Lemma trim_room (size : Z) bs bs' : trim_top srt size bs = Ok bs' → (Z.of_nat (length bs') < size)%Z → bs' ≡ₚ bs.
Proof.
  unfold trim_top. pose proof (sort_slice_perm srt bs) as Hp. assert (length (sort_slice srt bs) = length bs) as Hl by (by rewrite Hp).
  set (n := if decide _ then _ else size). case_decide as Hn; [done|]. intros [= <-]. rewrite length_take. intros Hlt.
  rewrite take_ge; [done|]. unfold n in *. case_decide; lia.
Qed.

Lemma h_part_complete fuel docs c : minDocCount cf = 0%Z → named docs → h_part cf values srt fuel docs = Some (Ok c) →
  (Z.of_nat (length (h_list c)) < hsize cf)%Z → complete docs c.
Proof.
  intros Hmin Hn. unfold h_part. destruct (h_Consume_all docs Hn) as (a & -> & _ & [E1 E2] & Ht & _). unfold h_Finish.
  rewrite decide_True by done. destruct (fill _ _ _ _ _ _) as [[bs| |]|] eqn:Ef; cbn; try done.
  destruct (trim_top srt (hsize cf) bs) as [bs'| |] eqn:E; cbn; try done. intros [= <-] Hlen. cbn in *.
  destruct (fill_names _ _ _ _ _ _ Ef) as [names ->]. split; cbn; [done| |done].
  eapply covers_perm; [done| |apply (covers_fill docs (h_list a) names)].
  - symmetry. by eapply trim_room.
  - split; [intros k; apply E1|apply E2].
Qed.

Context (no_bounds : ∀ r, bounds cf r = r) (empty_start : lt cf (start cf).1 (start cf).2 = false) (keep_all : minDocCount cf = 0%Z)
  (size_ok : (0 ≤ hsize cf)%Z).

Lemma h_Merge_start fuel a other : h_range a = start cf → NoDup (h_list a).*1 → ∃ bs,
  trim_top srt (hsize cf) (merge_buckets (h_list a) (h_list other)) = Ok bs ∧ NoDup bs.*1 ∧
  StronglySorted (λ x y, name_less y x = false) bs ∧
  h_Merge cf srt (S fuel) a other =
    Some (Ok (mkHist (start cf) bs (h_known a) (h_total a + h_total other) (h_total a + h_total other - not_other bs))).
Proof.
  intros Hr Hnd. destruct (merge_buckets_spec (h_list other) (h_list a) Hnd) as (Hnd' & _ & _).
  destruct (trim_top_spec srt (hsize cf) _ size_ok Hnd') as (bs & Hbs & H1 & _ & H2 & _ & _). exists bs. split_and!; [done..|].
  unfold h_Merge, h_Finish. cbn [h_range h_known h_list h_total]. rewrite decide_True, no_bounds, Hr by done.
  cbn [fill]. rewrite empty_start. cbn [mbind option_bind res_bind]. by rewrite Hbs.
Qed.

Definition room (calcs : list (hcalc V A)) : nat := sum_list_with (length ∘ h_list) calcs.

Lemma merge_buckets_length bs bs' : length (merge_buckets bs bs') ≤ length bs + length bs'.
Proof.
  revert bs. induction bs' as [|nb bs' IH]; intros bs; cbn; [lia|]. etrans; [apply IH|].
  unfold merge_bucket. case_decide; [unfold update; rewrite length_fmap; lia|]. rewrite length_app. cbn. lia.
Qed.

Lemma trim_top_length size bs bs' : trim_top srt size bs = Ok bs' → length bs' ≤ length bs.
Proof.
  unfold trim_top. pose proof (Permutation_length (sort_slice_perm srt bs)) as Hl. set (n := if decide _ then _ else size).
  case_decide; [done|]. intros [= <-]. rewrite length_take. lia.
Qed.

(** The counts of the merged histogram are those over all readers. *)
Lemma h_merge_all_complete fuel (parts : list (list D)) (calcs : list (hcalc V A)) :
  Forall2 complete parts calcs → (Z.of_nat (room calcs) < hsize cf)%Z →
  ∃ c, h_merge_all cf srt (S fuel) (h_Calculator cf) calcs = Some (Ok c) ∧ complete (concat parts) c ∧
    NoDup (h_list c).*1 ∧ StronglySorted (λ x y, name_less y x = false) (h_list c) ∧
    h_range c = start cf ∧ length (h_list c) ≤ room calcs.
Proof.
  intros Hs. revert calcs Hs. induction parts as [|docs parts IH] using rev_ind; intros calcs Hs Hroom.
  - apply Forall2_nil_inv_l in Hs as ->. exists (h_Calculator cf).
    split_and!; [done| |apply NoDup_nil_2|constructor|done|done]. by split.
  - apply Forall2_app_inv_l in Hs as (cs & cs' & H1 & H2 & ->). apply Forall2_cons_inv_l in H2 as (c' & l & Hc' & Hl & ->).
    apply Forall2_nil_inv_l in Hl as ->. unfold room in Hroom. rewrite sum_list_with_app in Hroom. cbn in Hroom.
    destruct (IH cs H1 ltac:(unfold room; lia)) as (c & Hc & [G1 G2 _] & G4 & _ & G6 & G7). unfold room in G7.
    destruct (h_Merge_start fuel c c' G6 G4) as (bs & Hbs & Hnd & Hsort & Hm). eexists.
    unfold h_merge_all. rewrite foldl_app. unfold h_merge_all in Hc. rewrite Hc. cbn [foldl mbind option_bind]. split; [exact Hm|].
    pose proof (merge_buckets_length (h_list c) (h_list c')). pose proof (trim_top_length _ _ _ Hbs).
    destruct Hc' as [C1 C2 _]. cbn [h_list h_range]. split_and!; [|done|done|done|unfold room; rewrite sum_list_with_app; cbn; lia].
    rewrite concat_app. cbn [concat]. rewrite app_nil_r. split; cbn.
    + rewrite length_app. lia.
    + apply (covers_perm _ _ (merge_buckets (h_list c) (h_list c')) _ (reflexivity _)); [|by apply covers_merge].
      symmetry. eapply trim_room; [done|]. lia.
    + done.
Qed.
End parts.
#[global] Arguments covers {D A V metrics} cf values docs bs : simpl never.

(** * Histograms by a fixed interval *)

Section fixed_interval.
Context {D A : Type} {metrics : Metrics D A} `{ZoneData} (FormatTime : string → location → Z → string).
Context (fixedInterval : Z) (format : string) (timeZone : location) (size : Z) (src : FieldSource D)
  (srt : sorter (name_less (A := A))).

Definition fixed_histogram : hconf Z := DateHistogramCalculator FormatTime "" fixedInterval format timeZone None None 0 size.
Definition dates (d : D) : list Z := UnixNano <$> Dates src d.

(** The steps from the smallest to the largest value. *)
Definition steps (lo hi : Z) : Z := ((hi - lo) / fixedInterval + 2)%Z.

Lemma fixed_key v : fixedInterval ≠ 0%Z → is_ok (key fixed_histogram v) = true.
Proof.
  intros Hf. change (key fixed_histogram v) with (date_key FormatTime "" fixedInterval format timeZone v). unfold date_key, date_start.
  rewrite decide_False by (intros Hc; by apply Hc). by rewrite decide_False.
Qed.

Lemma fixed_fill_total fuel : ∀ v mx known (bs : list (string * A)), (0 < fixedInterval)%Z → (- 2 ^ 63 ≤ v)%Z →
  (mx + fixedInterval < 2 ^ 63)%Z → (mx - v < (Z.of_nat fuel - 1) * fixedInterval)%Z → 1 ≤ fuel →
  ∃ bs', fill fixed_histogram fuel v mx known bs = Some (Ok bs').
Proof.
  induction fuel as [|fuel IH]; intros v mx known bs Hf Hv Hmx Hfuel H1; [lia|]. cbn [fill].
  destruct (lt fixed_histogram v mx) eqn:Hlt; [|by eexists]. cbn in Hlt. apply Z.ltb_lt in Hlt.
  pose proof (fixed_key v ltac:(lia)) as Hk. destruct (key fixed_histogram v) as [n| |]; try done.
  assert (next fixed_histogram v = (v + fixedInterval)%Z) as ->.
  { change (next fixed_histogram v) with (date_next "" fixedInterval timeZone v). unfold date_next.
    rewrite decide_False by (intros Hc; by apply Hc). apply int64_small. lia. }
  apply IH; [done|lia|done|nia|]. destruct fuel; [|lia]. cbn in Hfuel. lia.
Qed.

Lemma widen_all (lo hi : Z) (vss : list (list Z)) : (- 2 ^ 63 ≤ lo)%Z → (hi < 2 ^ 63 - 1)%Z → Forall (Forall (λ v, lo ≤ v ≤ hi)%Z) vss → ∀ r,
  (r = start fixed_histogram ∨ (lo ≤ r.1 ∧ r.2 ≤ hi)%Z) →
  let r' := foldl (foldl (widen fixed_histogram)) r vss in
  r' = start fixed_histogram ∨ (lo ≤ r'.1 ∧ r'.2 ≤ hi)%Z.
Proof.
  intros Hlo Hhi Hvss r Hr. cbn zeta. revert r Hr. induction Hvss as [|vs vss Hvs _ IH]; intros r Hr; cbn [foldl]; [done|].
  apply IH. revert r Hr. induction Hvs as [|v vs Hv _ IHv]; intros r Hr; cbn [foldl]; [done|]. apply IHv. right.
  destruct Hr as [->|Hr]; unfold widen; cbn [start lt fixed_histogram DateHistogramCalculator fst snd];
    repeat match goal with |- context [(?a <? ?b)%Z] => destruct (Z.ltb_spec a b) end; lia.
Qed.

Lemma fixed_part_total fuel lo hi docs : (0 < fixedInterval)%Z → (- 2 ^ 63 ≤ lo)%Z → (hi + fixedInterval < 2 ^ 63)%Z → (0 ≤ size)%Z →
  (∀ d v, d ∈ docs → v ∈ dates d → lo ≤ v ≤ hi)%Z → (steps lo hi ≤ Z.of_nat fuel)%Z → 1 ≤ fuel →
  ∃ c, h_part fixed_histogram dates srt fuel docs = Some (Ok c).
Proof.
  intros Hf Hlo Hhi Hsize Hv Hfuel H1. unfold h_part.
  destruct (h_Consume_all fixed_histogram dates docs) as (a & -> & [Hnd _] & _ & _ & Hr).
  { intros d v _ _. apply fixed_key. lia. }
  pose proof (widen_all lo hi (dates <$> docs) Hlo ltac:(lia)) as Hw. unfold h_Finish. cbn [bounds minDocCount hsize fixed_histogram DateHistogramCalculator].
  assert (h_range a = start fixed_histogram ∨ (lo ≤ (h_range a).1 ∧ (h_range a).2 ≤ hi)%Z) as Ha.
  { rewrite Hr. assert (Forall (Forall (λ v, lo ≤ v ≤ hi)%Z) (dates <$> docs)) as HF.
    { apply Forall_fmap, Forall_forall. intros d Hd. apply Forall_forall. intros v Hvd. by apply (Hv d). }
    specialize (Hw HF (start fixed_histogram) (or_introl eq_refl)). cbn zeta in Hw. by rewrite foldl_fmap in Hw. }
  rewrite decide_True by done.
  assert (∃ bs, fill fixed_histogram fuel (h_range a).1 (h_range a).2 (h_known a) (h_list a) = Some (Ok bs)) as [bs Hbs].
  { destruct Ha as [->|[G1 G2]].
    - destruct fuel as [|fuel]; [lia|]. by eexists.
    - apply fixed_fill_total; [done|lia|lia| |done]. unfold steps in Hfuel. pose proof (Z.mul_div_le (hi - lo) fixedInterval Hf).
      pose proof (Z.mod_pos_bound (hi - lo) fixedInterval Hf). pose proof (Z.div_mod (hi - lo) fixedInterval). nia. }
  change (date_bounds None None (h_range a)) with (h_range a). rewrite Hbs. cbn [mbind option_bind res_bind].
  unfold trim_top. set (n := if decide _ then _ else size). rewrite decide_False by (unfold n; case_decide; lia). by eexists.
Qed.

End fixed_interval.

(** * Histograms by the calendar *)

Section calendar.
Context `{ZoneData} (calendarInterval : string) (off : Z).
Notation zone := (FixedZone off).

(** The week, month, quarter or year a day belongs to. *)
Definition unit_of (n : Z) : Z * Z :=
  let c := civil_of n in
  if decide (calendarInterval ∈ ["week"; "1w"]) then ((n + 4) / 7, 0)%Z
  else if decide (calendarInterval ∈ ["month"; "1M"]) then (Year c, Month c)
  else if decide (calendarInterval ∈ ["quarter"; "1q"]) then (Year c, (Month c - 1) / 3)%Z
  else (Year c, 0%Z).

(** Its first day. *)
Definition unit_start (n : Z) : Z :=
  let u := unit_of n in
  if decide (calendarInterval ∈ ["week"; "1w"]) then (7 * u.1 - 4)%Z
  else if decide (calendarInterval ∈ ["month"; "1M"]) then days_of u.1 u.2 1
  else if decide (calendarInterval ∈ ["quarter"; "1q"]) then days_of u.1 (3 * u.2 + 1) 1
  else days_of u.1 1 1.

Definition calendar_unit : Prop :=
  calendarInterval ∈ ["week"; "1w"; "month"; "1M"; "quarter"; "1q"; "year"; "1y"].

Lemma Date_month y m d : (1 ≤ m ≤ 12)%Z → Date y m d zone = ((days_of y m d * day_seconds - off) * seconds)%Z.
Proof.
  intros Hm. rewrite Date_fixed. rewrite (Z.div_small (m - 1) 12), (Z.mod_small (m - 1) 12) by lia.
  by replace (y + 0)%Z with y by lia; replace (m - 1 + 1)%Z with m by lia.
Qed.

Lemma calendar_start_unit v : calendar_unit →
  calendar_start calendarInterval zone v = ((unit_start (day_in zone v) * day_seconds - off) * seconds)%Z.
Proof.
  intros Hu. unfold calendar_start, unit_start, unit_of. set (n := day_in zone v).
  pose proof (civil_of_spec n) as (Hm & Hn & _). clearbody n. set (c := civil_of n) in *. clearbody c.
  destruct (decide (calendarInterval ∈ ["week"; "1w"])); [|destruct (decide (calendarInterval ∈ ["month"; "1M"]));
    [|destruct (decide (calendarInterval ∈ ["quarter"; "1q"])); [|destruct (decide (calendarInterval ∈ ["year"; "1y"]))]]];
    cbn [fst snd].
  - rewrite Date_month by lia. rewrite days_of_day in Hn |- *. unfold weekday. do 2 f_equal. clear -Hn.
    Z.to_euclidean_division_equations. lia.
  - by rewrite Date_month.
  - set (q := (if decide (Month c ≤ 3)%Z then 1%Z else _)).
    assert (q = 3 * ((Month c - 1) / 3) + 1 ∧ 1 ≤ q ≤ 12)%Z as [<- Hq]; [|by rewrite Date_month].
    unfold q. clear -Hm. repeat case_decide; Z.to_euclidean_division_equations; lia.
  - by rewrite Date_month.
  - exfalso. unfold calendar_unit in Hu. set_solver.
Qed.

Lemma unit_start_bounds n : (n - 366 < unit_start n ≤ n)%Z.
Proof.
  pose proof (civil_of_spec n) as (Hm & Hn & [Hmo _] & [Hy _]). pose proof (year_start_near n) as Hnear.
  assert (∀ m, 1 ≤ m ≤ Month (civil_of n) → days_of (Year (civil_of n)) 1 1 ≤ days_of (Year (civil_of n)) m 1 ≤ n)%Z as Hle.
  { intros m Hm'. pose proof (days_of_month (Year (civil_of n)) m ltac:(lia)) as [H1 _].
    pose proof (days_before_month_bound (leap (Year (civil_of n))) m ltac:(lia)) as Hb. split; [lia|].
    enough (days_before_month (leap (Year (civil_of n))) m ≤ days_before_month (leap (Year (civil_of n))) (Month (civil_of n)))%Z.
    { pose proof (days_of_month (Year (civil_of n)) _ Hm) as [H2 _]. lia. }
    apply days_before_month_mono; lia. }
  unfold unit_start, unit_of. set (c := civil_of n) in *. clearbody c. repeat case_decide; cbn [fst snd].
  - clear. Z.to_euclidean_division_equations. lia.
  - specialize (Hle (Month c) ltac:(lia)). lia.
  - assert (1 ≤ 3 * ((Month c - 1) / 3) + 1 ≤ Month c)%Z as Hq by (clear -Hm; Z.to_euclidean_division_equations; lia).
    specialize (Hle _ Hq). lia.
  - specialize (Hle 1%Z ltac:(lia)). lia.
Qed.

Lemma unit_start_inj n n' : unit_start n = unit_start n' ↔ unit_of n = unit_of n'.
Proof.
  split; [|unfold unit_start; by intros ->].
  pose proof (civil_of_spec n) as (Hm & _). pose proof (civil_of_spec n') as (Hm' & _).
  assert (∀ y m y' m', 1 ≤ m ≤ 12 → 1 ≤ m' ≤ 12 → days_of y m 1 = days_of y' m' 1 → y = y' ∧ m = m')%Z as Hinj.
  { intros y m y' m' H1 H2 Heq%(f_equal civil_of). rewrite !civil_first in Heq by done. by injection Heq. }
  unfold unit_start, unit_of. set (c := civil_of n) in *. set (c' := civil_of n') in *. clearbody c c'.
  repeat case_decide; cbn [fst snd]; intros Heq.
  - f_equal. lia.
  - by apply Hinj in Heq as [-> ->].
  - assert (∀ m, 1 ≤ m ≤ 12 → 1 ≤ 3 * ((m - 1) / 3) + 1 ≤ 12)%Z as Hq by (clear; intros; Z.to_euclidean_division_equations; lia).
    apply Hinj in Heq as [-> Heq]; [|by apply Hq..]. f_equal. lia.
  - apply Hinj in Heq as [-> _]; [done|lia..].
Qed.

Lemma unit_of_start n : unit_of (unit_start n) = unit_of n.
Proof.
  pose proof (civil_of_spec n) as (Hm & _). unfold unit_start, unit_of. set (c := civil_of n) in *. clearbody c.
  destruct (decide (calendarInterval ∈ ["week"; "1w"])); [|destruct (decide (calendarInterval ∈ ["month"; "1M"]));
    [|destruct (decide (calendarInterval ∈ ["quarter"; "1q"]))]]; cbn [fst snd].
  - f_equal. Z.to_euclidean_division_equations. lia.
  - by rewrite civil_first.
  - rewrite civil_first by (clear -Hm; Z.to_euclidean_division_equations; lia). cbn [Year Month]. f_equal.
    Z.to_euclidean_division_equations. lia.
  - by rewrite civil_first by lia.
Qed.

(** C20: a histogram by week, month, quarter or year in a zone with a fixed offset
    puts two dates into the same bucket exactly when they are in the same unit of
    the calendar, and a bucket starts on the first day of the unit, at midnight of
    the zone and never after the dates in it. The dates are at least 367 days after
    the first that 64 bits hold. (Named zones, whose offset changes, are not
    covered.) *)
Theorem calendar_buckets v v' : calendar_unit →
  (- 2 ^ 63 + 367 * day_seconds * seconds ≤ v < 2 ^ 63)%Z → (- 2 ^ 63 + 367 * day_seconds * seconds ≤ v' < 2 ^ 63)%Z →
  ∃ s s', date_start calendarInterval 0 zone v = Ok s ∧ date_start calendarInterval 0 zone v' = Ok s' ∧
    (s = s' ↔ unit_of (day_in zone v) = unit_of (day_in zone v')) ∧
    s = ((unit_start (day_in zone v) * day_seconds - off) * seconds)%Z ∧ (s ≤ v)%Z ∧
    unit_of (unit_start (day_in zone v)) = unit_of (day_in zone v).
Proof.
  intros Hu Hv Hv'. assert (calendarInterval ≠ "") as Hne by (intros ->; unfold calendar_unit in Hu; set_solver).
  assert (∀ v, - 2 ^ 63 + 367 * day_seconds * seconds ≤ v < 2 ^ 63 →
    date_start calendarInterval 0 zone v = Ok ((unit_start (day_in zone v) * day_seconds - off) * seconds) ∧
    (unit_start (day_in zone v) * day_seconds - off) * seconds ≤ v)%Z as Hstart.
  { clear v v' Hv Hv'. intros v Hv. unfold date_start. rewrite decide_True, calendar_start_unit by done.
    pose proof (unit_start_bounds (day_in zone v)) as Hb. pose proof (day_in_fixed off v) as Hd. cbn zeta in Hd.
    unfold day_seconds, seconds in *. split; [|lia]. f_equal. apply int64_small. lia. }
  destruct (Hstart v Hv) as [-> Hle], (Hstart v' Hv') as [-> _]. eexists _, _. split_and!; [done..| |done|done|].
  - rewrite <-unit_start_inj. unfold day_seconds, seconds. lia.
  - apply unit_of_start.
Qed.
End calendar.

(** * Names can be sorted *)

#[export] Instance name_order {A} : WeakOrder (name_less (A := A)).
Proof. split; unfold name_less; [intros a; apply less_irrefl|intros a b c; apply less_trans|intros a b c; apply less_incomparable]. Qed.

(** * Concrete histograms *)

Module HistogramDemo.
Import TermsDemo.

#[export] Instance no_zones : ZoneData := { database _ _ := Zone 0 alpha omega }.
Definition by_name : sorter (name_less (A := N * Z)) := order_sorter name_less.

(** Documents with a date in seconds; dates are shown as numbers of seconds. *)
Definition dated : FieldSource doc := mkSource doc fst (λ d, [d.1]) (λ _, float_of_Z 0) (λ _, []) (λ d, [(d.2 * seconds)%Z]).
Definition show (f : string) (z : location) (t : Z) : string := FormatInt (t / seconds).
Definition day : Z := (day_seconds * seconds)%Z.
Definition daily : hconf Z := fixed_histogram show day "" UTC 10.
Definition demo_parts : list (list doc) := [[("a", 10%Z); ("b", 200000%Z)]; [("c", 86500%Z); ("d", 20%Z)]].


(** A leap day and the first of March, in a zone of five and a half hours. *)
Lemma calendar_buckets_witness :
  ∃ s s', date_start "month" 0 (FixedZone 19800) (1709157600 * seconds) = Ok s ∧
    date_start "month" 0 (FixedZone 19800) (1709231400 * seconds) = Ok s' ∧ s ≠ s'.
Proof.
  destruct (calendar_buckets "month" 19800 (1709157600 * seconds) (1709231400 * seconds)) as (s & s' & H1 & H2 & H3 & _).
  - unfold calendar_unit. set_solver.
  - vm_compute. split; [discriminate|done].
  - vm_compute. split; [discriminate|done].
  - exists s, s'. split_and!; [done..|]. intros Heq. apply H3 in Heq. vm_compute in Heq. discriminate.
Defined.

(** ** Where histograms go wrong *)

Definition read_all {V} (cf : hconf V) (values : doc → list V) (parts : list (list doc)) : option (res (list (string * N))) :=
  calcs ← foldr (λ docs acc, c ← h_part cf values by_name 20 docs; l ← acc; match c with Ok c => Some (c :: l) | _ => None end)
            (Some []) parts;
  r ← h_merge_all cf by_name 20 (h_Calculator cf) calcs;
  Some (c ← r; Ok ((λ nb, (nb.1, nb.2.1)) <$> h_list c)).

(** Numbers are shown without a fraction. *)
Definition whole (x : float64) : string := FormatInt (default 0%Z (float_trunc x)).
Definition numbers (d : doc) : list float64 := [float_of_Z d.2].
Definition tens (ext : option HistogramBound) (min : Z) : hconf float64 :=
  HistogramCalculator whole (float_of_Z 10) (float_of_Z 0) ext None min 1000.

(** [min_doc_count] is applied by every reader to its own documents and not
    to the result: two documents of one day in two readers are below a bound of
    two, in one reader they are not. *)
Theorem min_doc_count_per_reader :
  let daily2 := DateHistogramCalculator show "" day "" UTC None None 2 10 in
  read_all daily2 (dates dated) [[("a", 10%Z); ("b", 20%Z)]] = Some (Ok [("0", 2%N)]) ∧
  read_all daily2 (dates dated) [[("a", 10%Z)]; [("b", 20%Z)]] = Some (Ok []).
Proof. by vm_compute. Qed.

(** With [extended_bounds] buckets are shown twice and documents counted
    twice: the calculator the results are merged into adds every bucket within
    the bounds anew at each merge, since it does not remember the ones it has,
    and the next result is merged into all of equal name. *)
Theorem extended_bounds_count_twice :
  let ext := tens (Some (mkBound (float_of_Z 0) (float_of_Z 20))) 0 in
  read_all ext numbers [[("a", 5%Z)]; [("b", 5%Z)]] =
  Some (Ok [("0", 2%N); ("0", 1%N); ("0", 0%N); ("10", 0%N); ("10", 0%N); ("10", 0%N)]).
Proof. by vm_compute. Qed.

(** Buckets of numbers are ordered as texts. *)
Theorem numbers_in_text_order : read_all (tens None 1) numbers [[("a", 90%Z); ("b", 100%Z)]] = Some (Ok [("100", 1%N); ("90", 1%N)]).
Proof. by vm_compute. Qed.

(** Days before 1970 are in the bucket that follows them. *)
Theorem before_1970_rounds_up : date_start "" day UTC (-1) = Ok 0%Z ∧ date_start "" day UTC (- day - 1) = Ok (- day)%Z.
Proof. by vm_compute. Qed.

(** The buckets added between the 31st of January and the first of May 2023 do
    not include February: a month later is the 3rd of March. *)
Theorem missing_months_skip_february :
  let cf := DateHistogramCalculator (λ f z t, pretty (Month (civil_of (t / day)))) "month" 0 "" UTC None None 0 100 in
  match fill cf 10 (1675123200 * seconds)%Z (1682899200 * seconds)%Z ∅ ([] : list (string * (N * Z))) with
  | Some (Ok bs) => bs.*1
  | _ => []
  end = ["1"; "3"; "4"].
Proof. by vm_compute. Qed.
End HistogramDemo.

(** A fixed interval of zero, which the parser accepts, panics at the first date. *)
Theorem zero_interval_panics {D A} `{Metrics D A} `{ZoneData} FormatTime format timeZone ext hard min size (values : D → list Z) a d v vs :
  values d = v :: vs →
  h_Consume (A := A) (DateHistogramCalculator FormatTime "" 0 format timeZone ext hard min size) values a d = Panic PDivZero.
Proof. intros Hv. unfold h_Consume. by rewrite Hv. Qed.

(** A histogram can fail to end: when the interval is lost in the rounding of
    the smallest value, the loop that adds missing buckets does not move.  An
    interval of 1 and values from 2^53 on are enough. *)
Theorem histogram_never_ends {D A} `{Metrics D A} FormatFloat offset size (srt : sorter (name_less (A := A))) fuel a :
  let hard := Some (mkBound (float_of_Z (2 ^ 53)) (float_of_Z (2 ^ 53 + 10))) in
  Histogram_Finish FormatFloat (float_of_Z 1) offset None hard 0 size srt fuel a = None.
Proof.
  cbn zeta. unfold Histogram_Finish, h_Finish. cbn [minDocCount HistogramCalculator bounds float_bounds]. rewrite decide_True by done.
  cbn [fst snd Min Max]. set (cf := HistogramCalculator _ _ _ _ _ _ _). generalize (h_list a) as bs. generalize (h_known a) as known.
  intros known bs. enough (fill cf fuel (float_of_Z (2 ^ 53)) (float_of_Z (2 ^ 53 + 10)) known bs = None) as -> by done.
  revert bs. induction fuel as [|fuel IH]; intros bs; [done|]. cbn [fill].
  assert (lt cf (float_of_Z (2 ^ 53)) (float_of_Z (2 ^ 53 + 10)) = true) as -> by (by vm_compute).
  assert (next cf (float_of_Z (2 ^ 53)) = float_of_Z (2 ^ 53)) as -> by (by vm_compute). cbn [key cf HistogramCalculator]. apply IH.
Qed.
