(* ===== verification/AutoHistogram.v ===== *)
(** The automatic histogram by date (pkg/bluge/aggregation/auto_date_histogram.go):
    the interval grows until the buckets are few enough. *)
From S2P Require Import Prelude Hash Strconv Value Document Heap Merge Calendar Buckets Histogram.

(** * Definitions *)

Definition hour : Z := (3600 * seconds)%Z.
Definition minute : Z := (60 * seconds)%Z.

(** [getIntervals]: a switch that falls through. *)
Definition interval_groups : list (string * list Z) :=
  [("second", [seconds; 5 * seconds; 10 * seconds; 30 * seconds]);
   ("minute", [minute; 5 * minute; 10 * minute; 30 * minute]);
   ("hour", [hour; 3 * hour; 12 * hour]);
   ("day", [24 * hour; 24 * hour * 7]);
   ("month", [24 * hour * 30; 24 * hour * 30 * 3; 24 * hour * 30 * 6]);
   ("year", [24 * hour * 30 * 12; 24 * hour * 30 * 12 * 5; 24 * hour * 30 * 12 * 10; 24 * hour * 30 * 12 * 20; 24 * hour * 30 * 12 * 50])]%Z.
Fixpoint from_group (name : string) (gs : list (string * list Z)) : list Z :=
  match gs with
  | [] => []
  | g :: rest => if decide (g.1 = name) then concat (g.2 :: rest.*2) else from_group name rest
  end.
Definition getIntervals (minimumInterval : string) : list Z := from_group minimumInterval interval_groups.
#[global] Arguments getIntervals minimumInterval : simpl never.

Record AutoDateHistogramCalculator (A : Type) := mkAuto {
  u_intervals : list Z;
  u_size : Z;
  u_current : nat;
  u_range : Z * Z;
  u_list : list (string * A);
  u_map : gmap Z (string * A);
  u_total : Z;
  u_other : Z
}.
Arguments mkAuto {A} _ _ _ _ _ _ _ _.
Arguments u_intervals {A} _.
Arguments u_size {A} _.
Arguments u_current {A} _.
Arguments u_range {A} _.
Arguments u_list {A} _.
Arguments u_map {A} _.
Arguments u_total {A} _.
Arguments u_other {A} _.

(** The keys a loop over a map visits while it deletes and inserts entries: every
    key the map had at the start, and any others, in any order. *)
Record visit_order (A : Type) := VisitOrder {
  visits : gmap Z A → list Z;
  visits_all : ∀ m k, is_Some (m !! k) → k ∈ visits m
}.
Arguments visits {A} _ _.
Arguments visits_all {A} _ _ _ _.

Section auto.
Context {D A : Type} {metrics : Metrics D A} {lib : GoLib} `{ZoneData}.
(** [Format] of a time in the local zone; [AggregationTermsSize] of the
    configuration. *)
Context (FormatLocal : string → Z → string) (TermsSize : Z) (format : string) (timeZone : location).
Context (dates : D → list Z) (srt : sorter (name_less (A := A))) (order : map_order Z (string * A)) (vo : visit_order (string * A)).
Implicit Types (a : AutoDateHistogramCalculator A).

Definition u_Calculator (minimumInterval : string) (size : Z) : AutoDateHistogramCalculator A :=
  mkAuto (getIntervals minimumInterval) size 0 (2 ^ 63 - 1, - 2 ^ 63)%Z [] ∅ 0 0.

(** [a.intervals[i]]. *)
Definition interval_at (intervals : list Z) (i : nat) : res Z :=
  match intervals !! i with Some z => Ok z | None => Panic PIndex end.

(** The start of the bucket of a value, without its text. *)
Definition local_start (interval value : Z) : Z :=
  let c := civil_of (day_in Local value) in
  if decide (24 * hour * 30 * 12 ≤ interval)%Z then UnixNano (Date (Year c) 1 1 Local)
  else if decide (24 * hour * 30 ≤ interval)%Z then UnixNano (Date (Year c) (Month c) 1 Local)
  else int64 (Z.quot value interval * interval).

Definition u_bucketKey (intervals : list Z) (current : nat) (value : Z) : res (Z * string) :=
  interval ← interval_at intervals current;
  let nsec := local_start interval value in Ok (nsec, FormatLocal format nsec).

Definition u_value (d : D) a (value : Z) : res (AutoDateHistogramCalculator A) :=
  '(termKey, termStr) ← u_bucketKey (u_intervals a) (u_current a) value;
  let b := match u_map a !! termKey with
           | Some (n, b) => (n, consume d b)
           | None => (termStr, consume d no_docs)
           end in
  Ok (mkAuto (u_intervals a) (u_size a) (u_current a) (Z.min value (u_range a).1, Z.max value (u_range a).2)
        (u_list a) (<[termKey := b]> (u_map a)) (u_total a) (u_other a)).

Definition u_Consume a (d : D) : res (AutoDateHistogramCalculator A) :=
  foldM (u_value d) (mkAuto (u_intervals a) (u_size a) (u_current a) (u_range a) (u_list a) (u_map a) (u_total a + 1) (u_other a)) (dates d).

(** The loop of [afterMerge] and of [Finish] that moves every bucket to the start
    it has for the current interval. *)
Definition regroup_key (intervals : list Z) (current : nat) (m : gmap Z (string * A)) (k : Z) : res (gmap Z (string * A)) :=
  match m !! k with
  | None => Ok m
  | Some b =>
      let m := delete k m in
      '(termKey, termStr) ← u_bucketKey intervals current k;
      Ok (<[termKey := match m !! termKey with
                       | Some (n, b') => (n, merge b' b.2)
                       | None => (termStr, merge no_docs b.2)
                       end]> m)
  end.
Definition regroup (intervals : list Z) (current : nat) (m : gmap Z (string * A)) : res (gmap Z (string * A)) :=
  foldM (regroup_key intervals current) m (visits vo m).

(** The first loop of [Finish]; it ends at the end of the intervals, with a panic. *)
Fixpoint grow (n : nat) (intervals : list Z) (current : nat) (range : Z * Z) : res nat :=
  match n with
  | O => Panic PIndex
  | S n =>
      interval ← interval_at intervals current;
      if decide (int64 (range.1 + int64 (interval * TermsSize)) < range.2)%Z then grow n intervals (S current) range
      else Ok current
  end.

(** The loop for missing buckets; [None] when the fuel runs out. *)
Fixpoint u_fill (fuel : nat) (intervals : list Z) (current : nat) (value maxValue : Z) (m : gmap Z (string * A))
    : option (res (gmap Z (string * A))) :=
  match fuel with
  | O => None
  | S fuel =>
      if decide (value < maxValue)%Z then
        match u_bucketKey intervals current value with
        | Ok (termKey, termStr) =>
            let m := match m !! termKey with Some _ => m | None => <[termKey := (termStr, no_docs)]> m end in
            u_fill fuel intervals current (int64 (value + default 0%Z (intervals !! current))) maxValue m
        | Err e => Some (Err e)
        | Panic p => Some (Panic p)
        end
      else Some (Ok m)
  end.

(** The second loop of [Finish]: [n] bounds the number of intervals left. *)
Fixpoint coarsen (n fuel : nat) (intervals : list Z) (bsize : Z) (current : nat) (range : Z * Z) (m : gmap Z (string * A))
    : option (res (nat * gmap Z (string * A))) :=
  filled ← (if decide (Z.of_nat (size m) ≤ bsize)%Z then u_fill fuel intervals current range.1 range.2 m else Some (Ok m));
  match filled with
  | Ok m =>
      if decide (Z.of_nat (size m) ≤ bsize ∨ Z.of_nat (length intervals) - 1 ≤ Z.of_nat current)%Z then Some (Ok (current, m))
      else match n with
           | O => None
           | S n => match regroup intervals (S current) m with
                    | Ok m => coarsen n fuel intervals bsize (S current) range m
                    | Err e => Some (Err e)
                    | Panic p => Some (Panic p)
                    end
           end
  | Err e => Some (Err e)
  | Panic p => Some (Panic p)
  end.

Definition u_Finish (fuel : nat) a : option (res (AutoDateHistogramCalculator A)) :=
  match grow (S (length (u_intervals a))) (u_intervals a) (u_current a) (u_range a) with
  | Ok current =>
      r ← coarsen (length (u_intervals a)) fuel (u_intervals a) (u_size a) current (u_range a) (u_map a);
      Some ('(current, m) ← r;
            let bs := sort_slice srt (range order m).*2 in
            Ok (mkAuto (u_intervals a) (u_size a) current (u_range a) bs m (u_total a) (u_total a - not_other bs)))
  | Err e => Some (Err e)
  | Panic p => Some (Panic p)
  end.

(** One bucket of the other calculator.  The buckets of the list are those of the
    map; a bucket without a partner is put under the time its name is read as,
    and dropped when it cannot be read. *)
Definition u_merge_bucket (names : list string) (otherCurrent : nat) a (nb : string * A) : AutoDateHistogramCalculator A :=
  if decide (nb.1 ∈ names) then
    mkAuto (u_intervals a) (u_size a) (u_current a) (u_range a) (u_list a)
      ((λ x, if decide (x.1 = nb.1) then (x.1, merge x.2 nb.2) else x) <$> u_map a) (u_total a) (u_other a)
  else match ParseInLocation format nb.1 timeZone with
       | inr _ => a
       | inl t =>
           let key := UnixNano t in
           mkAuto (u_intervals a) (u_size a) (Nat.max (u_current a) otherCurrent)
             (Z.min key (u_range a).1, Z.max key (u_range a).2) (u_list a) (<[key := nb]> (u_map a)) (u_total a) (u_other a)
       end.

Definition u_Merge (fuel : nat) a (other : AutoDateHistogramCalculator A) : option (res (AutoDateHistogramCalculator A)) :=
  let a := foldl (u_merge_bucket (u_list a).*1 (u_current other))
             (mkAuto (u_intervals a) (u_size a) (u_current a) (u_range a) (u_list a) (u_map a) (u_total a + u_total other) (u_other a))
             (u_list other) in
  match regroup (u_intervals a) (u_current a) (u_map a) with
  | Ok m => u_Finish fuel (mkAuto (u_intervals a) (u_size a) (u_current a) (u_range a) (u_list a) m (u_total a) (u_other a))
  | Err e => Some (Err e)
  | Panic p => Some (Panic p)
  end.

Definition u_part (fuel : nat) (minimumInterval : string) (size : Z) (docs : list D) : option (res (AutoDateHistogramCalculator A)) :=
  match foldM u_Consume (u_Calculator minimumInterval size) docs with
  | Ok c => u_Finish fuel c
  | Err e => Some (Err e)
  | Panic p => Some (Panic p)
  end.
End auto.

(** * Nothing is lost *)

Section sums.
Context {D A : Type} {metrics : Metrics D A}.
Implicit Types (mp : gmap Z (string * A)) (m : A → Z).

(** What all buckets measure together. *)
Definition msum m mp : Z := zsum ((λ kb, m kb.2.2) <$> map_to_list mp).

Lemma msum_empty m : msum m ∅ = 0%Z.
Proof. unfold msum. by rewrite map_to_list_empty. Qed.

Lemma msum_insert m mp k b : mp !! k = None → msum m (<[k := b]> mp) = (m b.2 + msum m mp)%Z.
Proof. intros Hk. unfold msum. rewrite (zsum_perm _ _ (fmap_Permutation _ _ _ (map_to_list_insert mp k b Hk))). done. Qed.

Lemma msum_delete m mp k b : mp !! k = Some b → msum m mp = (m b.2 + msum m (delete k mp))%Z.
Proof. intros Hk. rewrite <-(msum_insert m (delete k mp) k b) by apply lookup_delete_eq. by rewrite insert_delete_id. Qed.

Lemma msum_put m mp k b : msum m (<[k := b]> mp) = (m b.2 + msum m (delete k mp))%Z.
Proof. rewrite <-insert_delete_eq. apply msum_insert, lookup_delete_eq. Qed.

Lemma msum_delete_default m mp k :
  msum m (delete k mp) = (msum m mp - match mp !! k with Some b => m b.2 | None => 0 end)%Z.
Proof.
  destruct (mp !! k) as [b|] eqn:E; [rewrite (msum_delete m mp k b E); lia|]. rewrite delete_id by done. lia.
Qed.

(** The bucket of one name is changed. *)
Lemma msum_update m mp k b f : mp !! k = Some b → (∀ k' b', mp !! k' = Some b' → b'.1 = b.1 → k' = k) →
  msum m ((λ x, if decide (x.1 = b.1) then (x.1, f x.2) else x) <$> mp) = (msum m mp - m b.2 + m (f b.2))%Z.
Proof.
  intros Hk Huniq. rewrite <-(insert_delete_id mp k b Hk) at 1. rewrite fmap_insert, decide_True by done. rewrite msum_insert.
  - rewrite (msum_delete m mp k b Hk). cbn [snd]. enough ((λ x, if decide (x.1 = b.1) then (x.1, f x.2) else x) <$> delete k mp = delete k mp)
      as -> by lia.
    apply map_eq. intros k'. rewrite lookup_fmap. destruct (delete k mp !! k') as [b'|] eqn:E; [|done]. cbn.
    apply lookup_delete_Some in E as [Hne E]. rewrite decide_False; [done|]. intros Heq. by apply Hne, eq_sym, (Huniq k' b').
  - rewrite lookup_fmap, lookup_delete_eq. done.
Qed.
End sums.

(** ** The intervals *)

Lemma getIntervals_known name : name ∈ interval_groups.*1 →
  let l := getIntervals name in
  Forall (λ i, 0 < i < 2 ^ 61)%Z l ∧ StronglySorted Z.le l ∧ l !! (length l - 1) = Some (24 * hour * 30 * 12 * 50)%Z ∧ 0 < length l.
Proof.
  intros Hn. cbn zeta. revert name Hn. apply Forall_forall. cbn [fmap list_fmap interval_groups fst].
  repeat (apply Forall_cons; split; [split_and!; [apply (bool_decide_unpack _); by vm_compute..|by vm_compute|vm_compute; lia]|]).
  constructor.
Qed.

Lemma sorted_lookup {B} (R : relation B) l i j a b : StronglySorted R l → l !! i = Some a → l !! j = Some b → i < j → R a b.
Proof.
  intros Hs. revert i j. induction Hs as [|x l Hs IH Hx]; intros i j Hi Hj Hij; [done|].
  destruct j as [|j]; [lia|]. destruct i as [|i]; cbn in *; [|apply (IH i j); auto with lia].
  injection Hi as ->. rewrite Forall_forall in Hx. apply Hx. by eapply list_elem_of_lookup_2.
Qed.

Section conserved.
Context {D A : Type} {metrics : Metrics D A} {lib : GoLib} `{ZoneData}.
Context (FormatLocal : string → Z → string) (TermsSize : Z) (format : string) (timeZone : location).
Context (dates : D → list Z) (srt : sorter (name_less (A := A))) (order : map_order Z (string * A)) (vo : visit_order (string * A)).
Context (minimumInterval : string) (bsize : Z) (lo hi : Z).
Notation intervals := (getIntervals minimumInterval).
Notation len := (length intervals).

(** The times are between 1970 and 2116, the zone keeps the start of a bucket
    among them, the longest interval is long enough, and the name of a bucket, the
    text of its start, is read back as that start. *)
Context (known : minimumInterval ∈ interval_groups.*1) (times : (0 ≤ lo ∧ lo ≤ hi ∧ hi < 2 ^ 62)%Z) (T_pos : (0 < TermsSize)%Z).
Context (closed : ∀ i v, i ∈ intervals → (lo ≤ v ≤ hi → lo ≤ local_start i v ≤ hi)%Z).
Context (longest : ∀ r1 r2, (lo ≤ r1 → r2 ≤ hi → r1 ≤ hi → r2 ≤ int64 (r1 + int64 (24 * hour * 30 * 12 * 50 * TermsSize)))%Z).
Definition is_start (k : Z) : Prop := ∃ i v, i ∈ intervals ∧ (lo ≤ v ≤ hi)%Z ∧ k = local_start i v.
Context (reads : ∀ k, is_start k → ∃ t, ParseInLocation format (FormatLocal format k) timeZone = inl t ∧ UnixNano t = k).
Implicit Types (mp : gmap Z (string * A)).

Definition in_range (r : Z * Z) : Prop :=
  r = (2 ^ 63 - 1, - 2 ^ 63)%Z ∨ (lo ≤ r.1 ≤ hi ∧ lo ≤ r.2 ≤ hi)%Z.
Definition keys_ok mp : Prop := ∀ k b, mp !! k = Some b → is_start k ∧ b.1 = FormatLocal format k.
Definition same_sums mp mp' : Prop := ∀ w m, Additive w m → msum m mp' = msum m mp.

Lemma interval_ok i x : intervals !! i = Some x → (0 < x < 2 ^ 61)%Z ∧ x ∈ intervals.
Proof.
  intros Hi. destruct (getIntervals_known _ known) as (Hf & _). assert (x ∈ intervals) as Hin by (by eapply list_elem_of_lookup_2).
  split; [|done]. by apply (proj1 (Forall_forall _ _) Hf).
Qed.

Lemma is_start_range k : is_start k → (lo ≤ k ≤ hi)%Z.
Proof. intros (i & v & Hi & Hv & ->). by apply closed. Qed.

Lemma grow_total n : ∀ current r, in_range r → current < len → len ≤ current + n →
  ∃ c x, grow TermsSize n intervals current r = Ok c ∧ current ≤ c ∧ intervals !! c = Some x ∧ (r.2 - r.1 ≤ x * TermsSize)%Z.
Proof.
  destruct (getIntervals_known _ known) as (_ & _ & Hlast & _).
  induction n as [|n IH]; intros current r Hr Hc Hn; [lia|]. cbn [grow].
  destruct (lookup_lt_is_Some_2 intervals current Hc) as [x Hx]. unfold interval_at. rewrite Hx. cbn [mbind res_bind].
  destruct (interval_ok _ _ Hx) as [Hpos _]. case_decide as Hw.
  - destruct (decide (current = len - 1)) as [->|Hne].
    + exfalso. assert (x = 24 * hour * 30 * 12 * 50)%Z as -> by congruence.
      destruct Hr as [->|Hr]; [cbn [fst snd] in Hw; pose proof (int64_range (2 ^ 63 - 1 + int64 (24 * hour * 30 * 12 * 50 * TermsSize))); lia|].
      specialize (longest r.1 r.2 ltac:(lia) ltac:(lia) ltac:(lia)). lia.
    + destruct (IH (S current) r Hr ltac:(lia) ltac:(lia)) as (c & y & ? & ? & ?). exists c, y. split_and!; try done; naive_solver lia.
  - exists current, x. split_and!; [done|lia|done|]. destruct Hr as [->|Hr]; cbn [fst snd]; [nia|].
    destruct (Z.le_gt_cases (hi - lo) (x * TermsSize)); [lia|]. rewrite (int64_small (x * TermsSize)), int64_small in Hw by nia. lia.
Qed.

Lemma u_bucketKey_ok c x v : intervals !! c = Some x →
  u_bucketKey FormatLocal format intervals c v = Ok (local_start x v, FormatLocal format (local_start x v)).
Proof. intros Hx. unfold u_bucketKey, interval_at. by rewrite Hx. Qed.

Lemma u_fill_total fuel : ∀ c x v mx mp, intervals !! c = Some x → keys_ok mp → (v < mx → lo ≤ v ∧ mx ≤ hi)%Z →
  (mx - v < (Z.of_nat fuel - 1) * x)%Z → 1 ≤ fuel →
  ∃ mp', u_fill FormatLocal format fuel intervals c v mx mp = Some (Ok mp') ∧ keys_ok mp' ∧ same_sums mp mp'.
Proof.
  induction fuel as [|fuel IH]; intros c x v mx mp Hx Hk Hv Hfuel H1; [lia|]. cbn [u_fill]. case_decide as Hlt; [|by exists mp].
  destruct (interval_ok _ _ Hx) as [Hpos Hin]. rewrite (u_bucketKey_ok c x v Hx). rewrite Hx. change (default 0%Z (Some x)) with x.
  specialize (Hv Hlt). rewrite int64_small by lia.
  set (mp2 := match mp !! local_start x v with Some _ => mp | None => _ end).
  assert (keys_ok mp2 ∧ same_sums mp mp2) as [Hk2 Hs2].
  { unfold mp2. destruct (mp !! local_start x v) eqn:E; [done|]. split.
    - intros k b [[<- <-]|[_ Hb]]%lookup_insert_Some; [|by apply Hk]. split; [exists x, v; split_and!; [done|lia..|done]|done].
    - intros w m Hm. rewrite msum_insert by done. cbn. rewrite (additive_no_docs (w := w)). lia. }
  destruct (IH c x (v + x)%Z mx mp2 Hx Hk2) as (mp' & -> & Hk' & Hs'); [lia|nia|destruct fuel; [cbn in Hfuel; lia|lia]|].
  exists mp'. split_and!; [done..|]. intros w m Hm. by rewrite (Hs' w m Hm), (Hs2 w m Hm).
Qed.

Lemma regroup_total c mp : c < len → keys_ok mp →
  ∃ mp', regroup FormatLocal format vo intervals c mp = Ok mp' ∧ keys_ok mp' ∧ same_sums mp mp'.
Proof.
  intros Hc. destruct (lookup_lt_is_Some_2 intervals c Hc) as [x Hx]. destruct (interval_ok _ _ Hx) as [_ Hin].
  unfold regroup. generalize (visits vo mp) as ks. intros ks. revert mp. induction ks as [|k ks IH]; intros mp Hk; [by exists mp|].
  cbn [foldM]. unfold regroup_key at 2. destruct (mp !! k) as [b|] eqn:E; [|by apply IH]. rewrite (u_bucketKey_ok c x k Hx).
  cbn [mbind res_bind]. set (mp2 := <[_ := _]> _). assert (keys_ok mp2 ∧ same_sums mp mp2) as [Hk2 Hs2].
  { destruct (Hk k b E) as [Hr _]. unfold mp2. split.
    - intros k' b' [[<- <-]|[_ [_ Hb]%lookup_delete_Some]]%lookup_insert_Some; [|by apply Hk]. split; [pose proof (is_start_range k Hr); exists x, k; split_and!; [done|lia..|done]|].
      destruct (delete k mp !! local_start x k) as [[n b']|] eqn:E2; [|done].
      apply lookup_delete_Some in E2 as [_ E2]. by apply Hk in E2 as [_ ?].
    - intros w m Hm. rewrite msum_put, msum_delete_default, (msum_delete m mp k b E).
      destruct (delete k mp !! local_start x k) as [[n b']|]; cbn; rewrite (additive_merge (w := w)); [|rewrite (additive_no_docs (w := w))]; lia. }
  destruct (IH mp2 Hk2) as (mp' & -> & Hk' & Hs'). exists mp'. split_and!; [done..|].
  intros w m Hm. by rewrite (Hs' w m Hm), (Hs2 w m Hm).
Qed.

Context (fuel : nat) (fuel_ok : (TermsSize + 2 ≤ Z.of_nat fuel)%Z).

Lemma coarsen_total n : ∀ c x r mp, intervals !! c = Some x → len ≤ c + n + 1 → in_range r → (r.2 - r.1 ≤ x * TermsSize)%Z → keys_ok mp →
  ∃ c' mp', coarsen FormatLocal format vo n fuel intervals bsize c r mp = Some (Ok (c', mp')) ∧ c' < len ∧ keys_ok mp' ∧
    same_sums mp mp' ∧ ((Z.of_nat (size mp') ≤ bsize)%Z ∨ c' = len - 1).
Proof.
  induction n as [|n IH]; intros c x r mp Hx Hn Hr Hw Hk; destruct (interval_ok _ _ Hx) as [Hpos _];
    pose proof (lookup_lt_Some _ _ _ Hx) as Hc; cbn [coarsen].
  all: set (filled := if decide (Z.of_nat (size mp) ≤ bsize)%Z then _ else Some (Ok mp)).
  all: assert (∃ mp2, filled = Some (Ok mp2) ∧ keys_ok mp2 ∧ same_sums mp mp2) as (mp2 & -> & Hk2 & Hs2) by
    (unfold filled; case_decide; [|by exists mp]; apply (u_fill_total fuel c x); try done; [|nia|lia];
     intros Hlt; destruct Hr as [->|Hr]; cbn in *; lia).
  all: cbn [mbind option_bind]; case_decide as Hstop.
  1, 3: exists c, mp2; split_and!; [done..|]; destruct Hstop; [by left|right; lia].
  - lia.
  - destruct (regroup_total (S c) mp2 ltac:(lia) Hk2) as (mp3 & -> & Hk3 & Hs3).
    destruct (lookup_lt_is_Some_2 intervals (S c) ltac:(lia)) as [y Hy].
    destruct (getIntervals_known _ known) as (_ & Hsort & _). pose proof (sorted_lookup _ _ _ _ _ _ Hsort Hx Hy ltac:(lia)) as Hxy.
    destruct (IH (S c) y r mp3 Hy ltac:(lia) Hr ltac:(nia) Hk3) as (c' & mp' & -> & H1 & H2 & H3 & H4).
    exists c', mp'. split_and!; [done..| |done]. intros w m Hm. by rewrite (H3 w m Hm), (Hs3 w m Hm), (Hs2 w m Hm).
Qed.

(** ** The state of a calculator *)

(** The contribution of the documents, for every date they have. *)
Definition dsum (w : D → Z) (docs : list D) : Z := zsum ((λ d, Z.of_nat (length (dates d)) * w d)%Z <$> docs).

Record good (docs : list D) (a : AutoDateHistogramCalculator A) : Prop := {
  good_intervals : u_intervals a = intervals;
  good_size : u_size a = bsize;
  good_current : u_current a < len;
  good_range : in_range (u_range a);
  good_keys : keys_ok (u_map a);
  good_total : u_total a = Z.of_nat (length docs);
  good_sums w m : Additive w m → msum m (u_map a) = dsum w docs
}.

(** The list shows the buckets of the map. *)
Definition shown (a : AutoDateHistogramCalculator A) : Prop := u_list a ≡ₚ (map_to_list (u_map a)).*2.

Record done_ (a : AutoDateHistogramCalculator A) : Prop := {
  done_shown : shown a;
  done_sorted : StronglySorted (λ x y, name_less y x = false) (u_list a);
  done_other : u_other a = (u_total a - not_other (u_list a))%Z;
  done_few : (Z.of_nat (length (u_list a)) ≤ bsize)%Z ∨ u_current a = len - 1
}.

Notation Finish := (u_Finish FormatLocal TermsSize format srt order vo fuel).

Lemma Finish_total docs a : good docs a → ∃ c, Finish a = Some (Ok c) ∧ good docs c ∧ done_ c.
Proof.
  intros [H1 H2 H3 H4 H5 H6 H7]. unfold u_Finish. rewrite H1, H2.
  destruct (grow_total (S len) (u_current a) (u_range a) H4 H3 ltac:(lia)) as (c & x & -> & _ & Hx & Hw).
  destruct (coarsen_total len c x (u_range a) (u_map a) Hx ltac:(lia) H4 Hw H5) as (c' & mp & -> & G1 & G2 & G3 & G4).
  cbn [mbind option_bind res_bind]. eexists. split; [done|].
  assert (sort_slice srt (range order mp).*2 ≡ₚ (map_to_list mp).*2) as Hp by (by rewrite sort_slice_perm, range_perm).
  split; [split; cbn; try done|].
  - intros w m Hm. rewrite (G3 w m Hm). by apply H7.
  - split; cbn; [done|apply sort_slice_sorted|done|]. by rewrite Hp, length_fmap, length_map_to_list.
Qed.

Lemma Calculator_good : good [] (u_Calculator minimumInterval bsize).
Proof.
  destruct (getIntervals_known _ known) as (_ & _ & _ & Hlen). split; cbn; try done. by left.
Qed.

Lemma u_Consume_good docs d a : (∀ v, v ∈ dates d → lo ≤ v ≤ hi)%Z → good docs a →
  ∃ a', u_Consume FormatLocal format dates a d = Ok a' ∧ good (docs ++ [d]) a'.
Proof.
  intros Hd [H1 H2 H3 H4 H5 H6 H7]. unfold u_Consume.
  set (a0 := mkAuto _ _ _ _ _ _ _ _).
  enough (∀ vs a, (∀ v, v ∈ vs → lo ≤ v ≤ hi)%Z → u_intervals a = intervals → u_current a < len → in_range (u_range a) → keys_ok (u_map a) →
    ∃ a', foldM (u_value FormatLocal format d) a vs = Ok a' ∧ u_intervals a' = intervals ∧ u_size a' = u_size a ∧ u_current a' < len ∧
      in_range (u_range a') ∧ keys_ok (u_map a') ∧ u_total a' = u_total a ∧
      ∀ w m, Additive w m → msum m (u_map a') = (msum m (u_map a) + Z.of_nat (length vs) * w d)%Z) as Hloop.
  { destruct (Hloop (dates d) a0 Hd H1 H3 H4 H5) as (a' & Ha & G1 & G2 & G3 & G4 & G5 & G6 & G7). exists a'. split; [done|].
    split; try done; [by rewrite G2|rewrite G6; cbn; rewrite H6, length_app; cbn; lia|].
    intros w m Hm. rewrite (G7 w m Hm). cbn. rewrite (H7 w m Hm). unfold dsum. rewrite fmap_app, zsum_app. cbn. lia. }
  clear -known closed times. induction vs as [|v vs IH]; intros a Hvs H1 H3 H4 H5.
  - exists a. split_and!; try done. intros. cbn. lia.
  - cbn [foldM]. unfold u_value at 2. destruct (lookup_lt_is_Some_2 intervals _ H3) as [x Hx]. rewrite H1, (u_bucketKey_ok _ x v Hx).
    cbn [mbind res_bind]. set (b := match u_map a !! _ with Some _ => _ | None => _ end). set (a1 := mkAuto _ _ _ _ _ _ _ _).
    assert (lo ≤ v ≤ hi)%Z as Hv by (apply Hvs; left). destruct (interval_ok _ _ Hx) as [_ Hin].
    destruct (IH a1) as (a' & -> & G1 & G2 & G3 & G4 & G5 & G6 & G7); try done.
    + intros; apply Hvs; by right.
    + right. cbn. destruct H4 as [->|H4]; cbn; lia.
    + cbn. intros k b' [[<- <-]|[_ Hb]]%lookup_insert_Some; [|by apply H5]. split; [exists x, v; split_and!; [done|lia..|done]|]. unfold b.
      destruct (u_map a !! local_start x v) as [[n b']|] eqn:E; [|done]. by apply H5 in E as [_ ?].
    + exists a'. split_and!; try done. intros w m Hm. rewrite (G7 w m Hm). cbn [u_map length a1].
      rewrite msum_put, msum_delete_default. unfold b.
      destruct (u_map a !! local_start x v) as [[n b']|]; cbn [snd]; rewrite (additive_consume (w := w)); [|rewrite (additive_no_docs (w := w))]; lia.
Qed.

(** ** Merging *)

Lemma format_inj k k' : is_start k → is_start k' → FormatLocal format k = FormatLocal format k' → k = k'.
Proof.
  intros Hk Hk' Heq. destruct (reads k Hk) as (t & Ht & <-), (reads k' Hk') as (t' & Ht' & <-). rewrite Heq in Ht. congruence.
Qed.

Lemma shown_names a : shown a → keys_ok (u_map a) →
  NoDup (u_list a).*1 ∧ ∀ nb, nb ∈ u_list a ↔ ∃ k, u_map a !! k = Some nb.
Proof.
  intros Hs Hk. unfold shown in Hs. split.
  - rewrite Hs, <-list_fmap_compose. apply NoDup_fmap_2_strong; [|apply NoDup_map_to_list].
    intros [k b] [k' b'] Hin Hin' Heq. apply elem_of_map_to_list in Hin, Hin'. cbn in Heq.
    destruct (Hk k b Hin) as [Hr Hb], (Hk k' b' Hin') as [Hr' Hb']. rewrite Hb, Hb' in Heq.
    pose proof (format_inj k k' Hr Hr' Heq) as ->. congruence.
  - intros nb. rewrite Hs, list_elem_of_fmap. split.
    + intros ([k b] & -> & Hin%elem_of_map_to_list). by exists k.
    + intros [k Hk']. exists (k, nb). by rewrite elem_of_map_to_list.
Qed.

(** The invariant of the loop over the other buckets: [old] is the map before, [l]
    the buckets that were visited. *)
Record merging (names : list string) (old : gmap Z (string * A)) (l : list (string * A)) (a a' : AutoDateHistogramCalculator A) : Prop := {
  mg_same : u_intervals a' = u_intervals a ∧ u_size a' = u_size a ∧ u_total a' = u_total a;
  mg_current : u_current a' < len;
  mg_range : in_range (u_range a');
  mg_keys : keys_ok (u_map a');
  mg_names k b : u_map a' !! k = Some b → b.1 ∈ names ∨ b.1 ∈ l.*1;
  mg_old n : n ∈ names → ∃ k b, u_map a' !! k = Some b ∧ b.1 = n;
  mg_sums w m : Additive w m → msum m (u_map a') = (msum m old + zsum ((m ∘ snd) <$> l))%Z
}.

Lemma merge_step names old l a a' oc nb : oc < len → (∃ k, is_start k ∧ nb.1 = FormatLocal format k) → nb.1 ∉ l.*1 →
  merging names old l a a' → merging names old (l ++ [nb]) a (u_merge_bucket format timeZone names oc a' nb).
Proof.
  intros Hoc (k & Hk & Hnb) Hfresh [H1 H2 H3 H4 H5 H6 H7]. unfold u_merge_bucket.
  assert (∀ w m, Additive w m → zsum ((m ∘ snd) <$> l ++ [nb]) = (zsum ((m ∘ snd) <$> l) + m nb.2)%Z) as Hz.
  { intros w m _. rewrite fmap_app, zsum_app. cbn. lia. }
  case_decide as Hin.
  - destruct (H6 _ Hin) as (k' & b & Hb & Hbn). split; cbn; try done.
    + intros k2 b2. rewrite lookup_fmap. intros (b3 & Hb3 & ->)%fmap_Some. destruct (H4 k2 b3 Hb3). case_decide; done.
    + intros k2 b2. rewrite lookup_fmap. intros (b3 & Hb3 & ->)%fmap_Some. rewrite fmap_app, elem_of_app.
      destruct (H5 k2 b3 Hb3); case_decide; cbn; tauto.
    + intros n Hn. destruct (H6 n Hn) as (k2 & b2 & Hb2 & <-). exists k2, (if decide (b2.1 = nb.1) then (b2.1, merge b2.2 nb.2) else b2).
      rewrite lookup_fmap, Hb2. split; [done|]. by case_decide.
    + intros w m Hm. rewrite <-Hbn. rewrite (msum_update m (u_map a') k' b (λ x, merge x nb.2) Hb).
      * rewrite (additive_merge (w := w)), (H7 w m Hm), (Hz w m Hm). lia.
      * intros k2 b2 Hb2 Heq. destruct (H4 k2 b2 Hb2) as [Hr2 E2], (H4 k' b Hb) as [Hr E]. rewrite E2, E in Heq.
        exact (format_inj k2 k' Hr2 Hr Heq).
  - rewrite Hnb. destruct (reads k Hk) as (t & -> & ->). pose proof (is_start_range k Hk) as Hkr. assert (u_map a' !! k = None) as Hnone.
    { destruct (u_map a' !! k) as [b|] eqn:E; [|done]. destruct (H4 k b E) as [_ Eb]. destruct (H5 k b E) as [Hn|Hn]; rewrite Eb, <-Hnb in Hn; done. }
    split; cbn; try done; [by apply Nat.max_lub_lt|destruct H3 as [->|H3]; right; cbn; lia|..].
    + intros k2 b2 [[<- <-]|[_ Hb2]]%lookup_insert_Some; [by rewrite Hnb|by apply H4].
    + intros k2 b2. rewrite fmap_app, elem_of_app. cbn. intros [[<- <-]|[_ Hb2]]%lookup_insert_Some; [right; right; left|].
      destruct (H5 k2 b2 Hb2); tauto.
    + intros n Hn. destruct (H6 n Hn) as (k2 & b2 & Hb2 & <-). exists k2, b2. split; [|done].
      rewrite lookup_insert_ne; [done|]. intros <-. congruence.
    + intros w m Hm. rewrite msum_insert, (H7 w m Hm), (Hz w m Hm) by done. lia.
Qed.

Lemma Merge_total docs docs' a other : good docs a → shown a → good docs' other → shown other →
  ∃ c, u_Merge FormatLocal TermsSize format timeZone srt order vo fuel a other = Some (Ok c) ∧ good (docs ++ docs') c ∧ done_ c.
Proof.
  intros Ha Hsa Ho Hso. pose proof (shown_names a Hsa (good_keys _ _ Ha)) as [Hnd Hel].
  pose proof (shown_names other Hso (good_keys _ _ Ho)) as [Hndo Helo]. unfold u_Merge. set (a0 := mkAuto _ _ _ _ _ _ _ _).
  set (names := (u_list a).*1). destruct Ha as [H1 H2 H3 H4 H5 H6 H7], Ho as [G1 G2 G3 G4 G5 G6 G7].
  assert (∀ l rest, u_list other = l ++ rest →
    merging names (u_map a) l a0 (foldl (u_merge_bucket format timeZone names (u_current other)) a0 l)) as Hloop.
  { induction l as [|nb l IH] using rev_ind; intros rest Hl.
    - split; cbn; try done; [|intros n Hn|intros; cbn; lia].
      + intros k b Hb. left. apply list_elem_of_fmap. exists b. split; [done|]. apply Hel. by exists k.
      + apply list_elem_of_fmap in Hn as (b & -> & [k Hb]%Hel). by exists k, b.
    - rewrite foldl_app. cbn [foldl]. apply merge_step; [done| | |apply (IH (nb :: rest)); by rewrite Hl, <-app_assoc].
      + assert (nb ∈ u_list other) as [k Hk]%Helo by (rewrite Hl; set_solver). destruct (G5 k nb Hk). by exists k.
      + rewrite Hl, !fmap_app in Hndo. apply NoDup_app in Hndo as [(_ & Hx & _)%NoDup_app _]. intros Hin. apply (Hx _ Hin). cbn. set_solver. }
  specialize (Hloop (u_list other) [] ltac:(by rewrite app_nil_r)). set (a1 := foldl _ a0 _) in *.
  destruct Hloop as [(E1 & E2 & E3) M2 M3 M4 _ _ M7]. cbn in E1, E2, E3. rewrite H1 in E1. rewrite E1.
  destruct (regroup_total (u_current a1) (u_map a1) M2 M4) as (mp & -> & Hk & Hs). apply Finish_total.
  split; cbn; [done|congruence|done..| |].
  - rewrite E3, length_app. lia.
  - intros w m Hm. rewrite (Hs w m Hm), (M7 w m Hm), (H7 w m Hm). unfold dsum. rewrite fmap_app, zsum_app. f_equal.
    fold (dsum w docs'). rewrite <-(G7 w m Hm). unfold msum. apply zsum_perm. unfold shown in Hso. rewrite Hso, <-list_fmap_compose. done.
Qed.

Definition u_merge_all (calcs : list (AutoDateHistogramCalculator A)) : option (res (AutoDateHistogramCalculator A)) :=
  foldl (λ acc c, r ← acc; match r with Ok a => u_Merge FormatLocal TermsSize format timeZone srt order vo fuel a c | _ => Some r end)
    (Some (Ok (u_Calculator minimumInterval bsize))) calcs.

Lemma merge_all_good parts calcs : Forall2 (λ docs c, good docs c ∧ shown c) parts calcs →
  ∃ c, u_merge_all calcs = Some (Ok c) ∧ good (concat parts) c ∧ shown c ∧ (parts ≠ [] → done_ c).
Proof.
  revert calcs. induction parts as [|docs parts IH] using rev_ind; intros calcs Hs.
  - apply Forall2_nil_inv_l in Hs as ->. exists (u_Calculator minimumInterval bsize).
    split_and!; [done|apply Calculator_good|unfold shown; cbn; by rewrite map_to_list_empty|done].
  - apply Forall2_app_inv_l in Hs as (cs & cs' & H1 & H2 & ->). apply Forall2_cons_inv_l in H2 as (c' & l & [Hc' Hs'] & Hl & ->).
    apply Forall2_nil_inv_l in Hl as ->. destruct (IH cs H1) as (c & Hc & Hg & Hsh & _).
    destruct (Merge_total _ _ c c' Hg Hsh Hc' Hs') as (c2 & Hm & Hg2 & Hd2). exists c2.
    unfold u_merge_all. rewrite foldl_app. unfold u_merge_all in Hc. rewrite Hc. cbn [foldl mbind option_bind]. rewrite concat_app. cbn [concat].
    rewrite app_nil_r. split_and!; [exact Hm|done|apply Hd2|done].
Qed.

(** C21: the automatic histogram returns and loses nothing, for dates in a range
    of times after 1970 over which the configured number of the longest intervals,
    as a 64-bit number, reaches from any time to the end, which the local zone maps
    into itself when it rounds to the start of a bucket, and when the name of a bucket reads back as its start (whole
    seconds, as in RFC 3339, are enough).  Then, whatever the order in which maps
    are traversed and readers are merged, however the interval grows, the buckets
    of the result have different names, in order, they are at most [buckets] unless
    the longest interval is in use, and every metric that adds up has in all
    buckets together the sum over all dates of all documents. *)
Theorem auto_histogram_conserves (arrival : shuffle (AutoDateHistogramCalculator A)) parts :
  (∀ docs d v, docs ∈ parts → d ∈ docs → v ∈ dates d → lo ≤ v ≤ hi)%Z → parts ≠ [] →
  ∃ calcs c,
    Forall2 (λ docs c, u_part FormatLocal TermsSize format dates srt order vo fuel minimumInterval bsize docs = Some (Ok c)) parts calcs ∧
    u_merge_all (shuf arrival calcs) = Some (Ok c) ∧
    NoDup (u_list c).*1 ∧ StronglySorted (λ x y, String.ltb y.1 x.1 = false) (u_list c) ∧
    ((Z.of_nat (length (u_list c)) ≤ bsize)%Z ∨ u_current c = len - 1) ∧
    ∀ w m, Additive w m → zsum ((m ∘ snd) <$> u_list c) = dsum w (concat parts).
Proof.
  intros Hv Hne.
  assert (∃ calcs, Forall2 (λ docs c, u_part FormatLocal TermsSize format dates srt order vo fuel minimumInterval bsize docs = Some (Ok c) ∧
                                      good docs c ∧ shown c) parts calcs) as [calcs Hcalcs].
  { clear Hne. induction parts as [|docs parts IH]; [by exists []|]. destruct IH as [calcs Hc]; [intros; eapply Hv; eauto; by right|].
    assert (∃ a, foldM (u_Consume FormatLocal format dates) (u_Calculator minimumInterval bsize) docs = Ok a ∧ good docs a) as (a & Ha & Hg).
    { assert (∀ d v, d ∈ docs → v ∈ dates d → lo ≤ v ≤ hi)%Z as Hd by (intros; eapply Hv; eauto; left). clear Hv Hc.
      induction docs as [|d docs IH] using rev_ind; [eexists; split; [done|apply Calculator_good]|].
      destruct IH as (a & Ha & Hg); [intros ? v ?; apply Hd; set_solver|].
      destruct (u_Consume_good docs d a (λ v, Hd d v ltac:(set_solver)) Hg) as (a' & Ha' & Hg'). exists a'.
      rewrite foldM_app, Ha. cbn. by rewrite Ha'. }
    destruct (Finish_total docs a Hg) as (c & Hf & Hgc & Hd). exists (c :: calcs). constructor; [|done]. unfold u_part. rewrite Ha.
    split_and!; [done|done|apply Hd]. }
  assert (Forall2 (λ docs c, good docs c ∧ shown c) parts calcs) as Hgood by (eapply Forall2_impl; [done|]; cbn; naive_solver).
  apply Forall2_flip in Hgood. destruct (Permutation_Forall2 (symmetry (shuf_perm arrival calcs)) Hgood) as (ps & Hps & Hg2%Forall2_flip).
  destruct (merge_all_good ps (shuf arrival calcs) Hg2) as (c & Hc & Hg & Hs & Hd).
  destruct Hd as [_ D2 _ D4]; [intros ->; apply Hne; by apply Permutation_nil_r|].
  exists calcs, c. split_and!; [eapply Forall2_impl; [done|]; cbn; naive_solver|done|by apply shown_names, Hg|done|done|].
  intros w m Hm. transitivity (dsum w (concat ps)); [|unfold dsum; apply zsum_perm; by rewrite Hps].
  rewrite <-(good_sums _ _ Hg w m Hm). unfold msum. apply zsum_perm. unfold shown in Hs. rewrite Hs, <-list_fmap_compose. done.
Qed.
End conserved.

(** * Concrete runs *)

Module AutoDemo.
Import TermsDemo HistogramDemo.

(** Times are written in whole seconds; the local zone is UTC. *)
#[export] Instance decimal_times : GoLib := {
  FormatFloat _ := "";
  ParseFloat _ := inr "";
  Sprint _ := "";
  ParseInLocation _ s _ := match Strconv.ParseInt s with Ok t => inl (t * seconds)%Z | _ => inr "cannot parse" end;
  LoadLocation _ := inr "unknown zone"
}.
Definition decimal (format : string) (t : Z) : string := Strconv.FormatInt (t / seconds).
Program Definition all_keys_once {A} : visit_order A := VisitOrder A (λ m, (map_to_list m).*1) _.
Next Obligation. intros A m k [x Hx]. apply list_elem_of_fmap. exists (k, x). by rewrite elem_of_map_to_list. Qed.

Definition run_auto `{GoLib} (minimumInterval : string) (size : Z) (parts : list (list doc)) : option (res (list (string * N) * nat)) :=
  calcs ← foldr (λ docs acc, c ← u_part decimal 1000 "" (dates dated) by_name map_order_default all_keys_once 1100 minimumInterval size docs;
                             l ← acc; match c with Ok c => Some (c :: l) | _ => None end) (Some []) parts;
  r ← u_merge_all decimal 1000 "" UTC by_name map_order_default all_keys_once minimumInterval size 1100 calcs;
  Some (c ← r; Ok ((λ nb, (nb.1, nb.2.1)) <$> u_list c, u_current c)).

(** Intervals of several years do not exist: with the interval at 50 years,
    six documents of six years are still in six buckets, although three were asked
    for, and the answer claims the interval of 50 years. *)
Theorem years_are_never_joined :
  let docs := (λ i : nat, ("a", (Z.of_nat i * 31622400)%Z)) <$> seq 30 6 in
  match run_auto "day" 3 [docs] with
  | Some (Ok (bs, current)) => length bs = 6 ∧ getIntervals "day" !! current = Some (24 * hour * 30 * 12 * 50)%Z
  | _ => False
  end.
Proof. vm_compute. done. Qed.

(** The length of an interval times the configured number of buckets overflows:
    a histogram by year of dates after 2083 runs past the last interval. *)
Theorem late_dates_panic :
  u_part decimal 1000 "" (dates dated) by_name map_order_default all_keys_once 1100 "year" 3 [("a", 3600000000%Z); ("a", 3700000000%Z)]
  = Some (Panic PIndex).
Proof. by vm_compute. Qed.

(** With a format that does not read back, the documents of a reader are dropped
    when it is merged. *)
Theorem unreadable_names_are_dropped :
  let lib := {| FormatFloat := λ _, ""; ParseFloat := λ _, inr ""; Sprint := λ _, ""; ParseInLocation := λ _ _ _, inr "cannot parse";
                LoadLocation := λ _, inr "" |} : GoLib in
  run_auto "hour" 5 [[("a", 10%Z); ("b", 86500%Z)]; [("b", 200000%Z)]] = Some (Ok ([], 0)).
Proof. by vm_compute. Qed.

(** ** The local zone of the example *)

Lemma local_is_utc v : day_in Local v = day_in (FixedZone 0) v ∧ ∀ y m, Date y m 1 Local = Date y m 1 (FixedZone 0).
Proof. done. Qed.

Lemma year_after_1970 n : (0 ≤ n)%Z → (0 ≤ days_of (Year (civil_of n)) 1 1)%Z.
Proof.
  intros Hn. pose proof (civil_of_spec n) as (_ & _ & _ & Hy). rewrite !days_of_first in *.
  destruct (Z.le_gt_cases 1970 (Year (civil_of n))) as [Hle|Hlt].
  - pose proof (days_before_year_mono 1970 _ Hle) as Hm. change (days_before_year 1970) with epoch in Hm. lia.
  - pose proof (days_before_year_mono (Year (civil_of n) + 1) 1970 ltac:(lia)) as Hm. change (days_before_year 1970) with epoch in Hm. lia.
Qed.

(** Buckets start in the range, at whole seconds when the interval is one of whole
    seconds. *)
Lemma local_start_utc i v hi : (0 < i)%Z → (hi < 2 ^ 62)%Z → (0 ≤ v ≤ hi)%Z →
  (0 ≤ local_start i v ≤ hi ∧ ((seconds | i) → (seconds | local_start i v)))%Z.
Proof.
  intros Hi Hhi Hv. unfold local_start. destruct (local_is_utc v) as [-> HD]. rewrite !HD.
  pose proof (day_in_fixed 0 v) as Hd. cbn zeta in Hd. set (n := day_in (FixedZone 0) v) in *. clearbody n. clear HD.
  assert (0 ≤ n)%Z as Hn by (unfold day_seconds, seconds in Hd; lia).
  pose proof (civil_of_spec n) as (Hm & _ & [Hmo _] & [Hy _]). pose proof (year_after_1970 n Hn) as H0.
  pose proof (days_of_month (Year (civil_of n)) _ Hm) as [H1 _].
  pose proof (days_before_month_bound (leap (Year (civil_of n))) _ Hm) as Hb.
  repeat case_decide.
  1, 2: rewrite (Date_month 0) by lia; unfold UnixNano; rewrite int64_small by (unfold day_seconds, seconds in *; lia);
    split; [unfold day_seconds, seconds in *; lia|intros _; apply Z.divide_factor_r].
  - pose proof (Z.quot_rem' v i). pose proof (Z.rem_bound_pos v i ltac:(lia) Hi). pose proof (Z.quot_pos v i ltac:(lia) Hi) as Hq.
    pose proof (Z.mul_nonneg_nonneg _ i Hq ltac:(lia)). rewrite int64_small by lia. split; [lia|]. apply Z.divide_mul_r.
Qed.

(** Dates up to the year 2049, and the configured 1000 buckets. *)
Definition last_date : Z := 2500000000000000000.

Lemma auto_histogram_conserves_witness :
  ∃ calcs c,
    Forall2 (λ docs c, u_part decimal 1000 "" (dates dated) by_name map_order_default all_keys_once 1100 "hour" 5 docs = Some (Ok c))
      demo_parts calcs ∧
    u_merge_all decimal 1000 "" UTC by_name map_order_default all_keys_once "hour" 5 1100 (shuf shuffle_rev calcs) = Some (Ok c) ∧
    zsum ((count ∘ snd) <$> u_list c) = 4%Z.
Proof.
  destruct (auto_histogram_conserves decimal 1000 "" UTC (dates dated) by_name map_order_default all_keys_once "hour" 5 0 last_date)
    with (fuel := 1100) (arrival := @shuffle_rev (AutoDateHistogramCalculator (N * Z))) (parts := demo_parts)
    as (calcs & c & H1 & H2 & _ & _ & _ & H3).
  - vm_compute. set_solver.
  - vm_compute. split_and!; (discriminate || done).
  - lia.
  - intros i v Hi Hv. apply (local_start_utc i v last_date); [|done|done].
    destruct (getIntervals_known "hour") as (Hf & _); [vm_compute; set_solver|]. by apply (proj1 (Forall_forall _ _) Hf).
  - intros r1 r2 G1 G2 G3. unfold last_date in *. let c := eval vm_compute in (int64 (24 * hour * 30 * 12 * 50 * 1000)) in
      change (int64 (24 * hour * 30 * 12 * 50 * 1000)) with c%Z. rewrite int64_small; lia.
  - intros k (i & v & Hi & Hv & ->). destruct (getIntervals_known "hour") as (Hf & _); [vm_compute; set_solver|].
    pose proof (proj1 (Forall_forall _ _) Hf i Hi) as Hpos. cbv beta in Hpos.
    assert (seconds | i)%Z as Hdiv.
    { assert (Forall (λ i, (i mod seconds = 0)%Z) (getIntervals "hour")) as Hs by (apply (bool_decide_unpack _); by vm_compute).
      apply Z.mod_divide; [done|]. exact (proj1 (Forall_forall _ _) Hs i Hi). }
    destruct (local_start_utc i v last_date ltac:(lia) ltac:(done) Hv) as [Hr [q Hq]%(λ f, f Hdiv)].
    rewrite Hq in *. exists (q * seconds)%Z. unfold last_date, seconds in Hr. cbn [ParseInLocation decimal_times]. unfold decimal.
    rewrite Z.div_mul by done. rewrite ParseInt_FormatInt by lia. split; [done|]. apply int64_small. unfold seconds. lia.
  - lia.
  - intros docs d v Hdocs Hd Hv. unfold demo_parts, dates, dated in *. cbn in Hv.
    repeat (apply elem_of_cons in Hdocs as [->|Hdocs] || apply elem_of_nil in Hdocs as []);
      repeat (apply elem_of_cons in Hd as [->|Hd] || apply elem_of_nil in Hd as []);
      apply list_elem_of_singleton in Hv as ->; vm_compute; split; discriminate.
  - done.
  - exists calcs, c. split_and!; [exact H1|exact H2|]. rewrite (H3 _ _ count_additive). by vm_compute.
Defined.
End AutoDemo.
