(* ===== verification/AggRequest.v ===== *)
(** Aggregations of a request and of a response: pkg/uquery/aggregation and the
    structs of pkg/meta/query_dsl.go it reads; [ParseDuration] and
    [FormatDuration] of pkg/zutils/time.go. *)
From Stdlib Require Import SpecFloat.
From S2P Require Import Prelude Hash Strconv Value Document Query Catalog Calendar Buckets Histogram AutoHistogram.
Import Meta.

(** * Durations *)

Section durations.
(** [time.ParseDuration]. *)
Context (time_ParseDuration : string → option Z).

Definition last_char (s : string) : option ascii := String.get (String.length s - 1) s.

(** A number of days that cannot be read is ignored. *)
Definition ParseDuration (s : string) : res Z :=
  match time_ParseDuration s with
  | Some d => Ok d
  | None =>
      if decide (last_char s = Some "d"%char) then
        let hours := ParseInt_value (String.substring 0 (String.length s - 1) s) in Ok (int64 (24 * hour * hours))
      else Strconv.ParseInt s
  end.
End durations.

(** [d.Hours()] and [d.Minutes()] are compared with whole numbers and truncated. *)
Definition take_unit (unit : Z) (suffix : string) (sd : string * Z) : string * Z :=
  let '(s, d) := sd in
  if decide (unit ≤ d)%Z then (s +:+ Strconv.FormatInt (d / unit) +:+ suffix, (d - unit * (d / unit))%Z) else (s, d).

Definition FormatDuration (d : Z) : string :=
  let sd := take_unit (24 * hour * 30 * 12) "y" ("", d) in
  let sd := take_unit (24 * hour * 30) "M" sd in
  let sd := take_unit (24 * hour) "d" sd in
  let sd := take_unit hour "h" sd in
  let '(s, d) := take_unit minute "m" sd in
  if decide (0 < d)%Z then s +:+ Strconv.FormatInt (d / seconds) +:+ "s" else s.

(** * What is asked for (pkg/meta/query_dsl.go) *)

Record AggregationMetric := mkMetric { m_field : string; m_weight : string }.
Record AggregationsTerms := mkAggTerms { at_field : string; at_size : Z }.
Record AggregationRange := mkAggRange { ar_field : string; ar_ranges : list (float64 * float64) }.
Record AggregationDateRange := mkAggDateRange {
  ad_field : string; ad_format : string; ad_zone : string; ad_ranges : list (string * string)
}.
Record AggregationHistogram := mkAggHistogram {
  ah_field : string; ah_size : Z; ah_interval : float64; ah_offset : float64; ah_min : Z;
  ah_extended : option HistogramBound; ah_hard : option HistogramBound
}.
Record AggregationDateHistogram := mkAggDateHistogram {
  dh_field : string; dh_size : Z; dh_interval : string; dh_fixed : string; dh_calendar : string; dh_format : string;
  dh_zone : string; dh_min : Z; dh_extended : option HistogramBound; dh_hard : option HistogramBound
}.
Record AggregationAutoDateHistogram := mkAggAuto {
  aa_field : string; aa_buckets : Z; aa_minimum : string; aa_format : string; aa_zone : string
}.

Record agg_kinds := mkKinds {
  Avg : option AggregationMetric;
  WeightedAvg : option AggregationMetric;
  Max_ : option AggregationMetric;
  Min_ : option AggregationMetric;
  Sum : option AggregationMetric;
  Count_ : option AggregationMetric;
  Cardinality : option AggregationMetric;
  Terms : option AggregationsTerms;
  Range : option AggregationRange;
  DateRange : option AggregationDateRange;
  Histogram_ : option AggregationHistogram;
  DateHistogram : option AggregationDateHistogram;
  AutoDateHistogram : option AggregationAutoDateHistogram;
  IPRange : bool
}.

#[local] Unset Elimination Schemes.
Inductive Aggregations := mkAggs (kinds : agg_kinds) (subs : list (string * Aggregations)).

(** * What is built *)

(** The aggregations of the engine and of pkg/bluge/aggregation, with those added
    to them. *)
Inductive agg_spec :=
  | SMetric (kind field : string)
  | SWeightedAvg (field weight : string)
  | SCount
  | STerms (field : string) (srcType size : Z) (subs : list (string * agg_spec))
  | SRanges (field : string) (ranges : list (float64 * float64))
  | SDateRanges (field : string) (ranges : list (Z * Z))
  | SHistogram (field : string) (interval offset : float64) (extended hard : option HistogramBound) (min size : Z)
      (subs : list (string * agg_spec))
  | SDateHistogram (field calendar : string) (fixed : Z) (format : string) (zone : location) (extended hard : option HistogramBound)
      (min size : Z) (subs : list (string * agg_spec))
  | SAuto (field : string) (buckets : Z) (minimum format : string) (zone : location) (subs : list (string * agg_spec)).
#[local] Set Elimination Schemes.

Section request.
Context {lib : GoLib} (time_ParseDuration : string → option Z) (TermsSize : Z) (mappings : gmap string Property).

Definition type_of (field : string) : string := Type_ (GetProperty mappings field).1.
Definition typed (field : string) : string := "[" +:+ field +:+ ":[" +:+ type_of field +:+ "]]".

Definition zone_of (name zone : string) : res location :=
  if decide (zone = "") then Ok UTC
  else match ParseTimeZone LoadLocation zone with
       | Err e => xcontent ("[" +:+ name +:+ "] time_zone parse err " +:+ e)
       | r => r
       end.

Definition sized (n : Z) : Z := if decide (n = 0%Z) then TermsSize else n.

(** The sub-aggregations are read after the aggregation itself was accepted, and
    added to the count that every bucket has. *)
Definition terms_spec (t : AggregationsTerms) (subs : res (list (string * agg_spec))) : res agg_spec :=
  srcType ← (if decide (type_of (at_field t) ∈ ["text"; "keyword"]) then Ok TextValueSource
             else if decide (type_of (at_field t) = "numeric") then Ok NumericValueSource
             else if decide (type_of (at_field t) ∈ ["bool"; "boolean"]) then Ok BooleanValueSource
             else parsing ("[terms] aggregation doesn't support values of type: " +:+ typed (at_field t)));
  subs ← subs;
  Ok (STerms (at_field t) srcType (sized (at_size t)) subs).

Definition range_spec (r : AggregationRange) : res agg_spec :=
  if decide (ar_ranges r = []) then parsing "[range] aggregation needs ranges"
  else if decide (type_of (ar_field r) = "numeric") then Ok (SRanges (ar_field r) (ar_ranges r))
  else parsing "[range] aggregation only support type numeric".

Definition range_end (format side text : string) (zone : location) : res Z :=
  if decide (text = "") then Ok zero_time
  else match ParseInLocation format text zone with
       | inl t => Ok t
       | inr e => Err (error_new "illegal_argument_exception" ("[date_range] range value " +:+ side +:+ " parse err " +:+ e))
       end.

Definition date_range_spec (r : AggregationDateRange) : res agg_spec :=
  if decide (ad_ranges r = []) then parsing "[date_range] aggregation needs ranges"
  else
    let prop := GetProperty mappings (ad_field r) in
    let format := if prop.2 && negb (bool_decide (Format prop.1 = "")) then Format prop.1 else RFC3339 in
    let format := if decide (ad_format r = "") then format else ad_format r in
    zone ← zone_of "date_range" (ad_zone r);
    if decide (Type_ prop.1 ∈ ["date"; "time"]) then
      rs ← foldM (λ acc ft, from ← range_end format "from" ft.1 zone; to ← range_end format "to" ft.2 zone; Ok (acc ++ [(from, to)]))
             [] (ad_ranges r);
      Ok (SDateRanges (ad_field r) rs)
    else parsing "[date_range] aggregation only support type datetime".

Definition histogram_spec (h : AggregationHistogram) (subs : res (list (string * agg_spec))) : res agg_spec :=
  if SFleb (ah_interval h) zero then parsing "[histogram] aggregation interval must be a positive decimal"
  else if SFleb (ah_interval h) (ah_offset h) then parsing "[histogram] aggregation offset must be in [0, interval)"
  else if decide (type_of (ah_field h) = "numeric") then
    subs ← subs;
    Ok (SHistogram (ah_field h) (ah_interval h) (ah_offset h) (ah_extended h) (ah_hard h) (ah_min h) (sized (ah_size h)) subs)
  else parsing ("[histogram] aggregation doesn't support values of type: " +:+ typed (ah_field h)).

(** The interval: the short units of the calendar are fixed ones. *)
Definition date_interval (calendar fixed : string) : res (string * Z) :=
  if decide (calendar = "" ∧ fixed = "") then
    parsing "[date_histogram] aggregation calendar_interval or fixed_interval must be set one"
  else if decide (calendar ≠ "") then
    if decide (calendar ∈ ["second"; "1s"]) then Ok ("", seconds)
    else if decide (calendar ∈ ["minute"; "1m"]) then Ok ("", minute)
    else if decide (calendar ∈ ["hour"; "1h"]) then Ok ("", hour)
    else if decide (calendar ∈ ["day"; "1d"]) then Ok ("", (24 * hour)%Z)
    else if decide (calendar ∈ ["week"; "1w"; "month"; "1M"; "quarter"; "1q"; "year"; "1y"]) then Ok (calendar, 0%Z)
    else parsing ("[date_histogram] aggregation calendar_interval must be Date Calendar, such as: " +:+
                  "second, minute, hour, day, week, month, quarter, year")
  else match ParseDuration time_ParseDuration fixed with
       | Ok d => Ok ("", d)
       | Err _ => parsing "[date_histogram] aggregation fixed_interval must be time duration, such as: 1s, 1m, 1h, 1d"
       | Panic p => Panic p
       end.

Definition date_histogram_spec (h : AggregationDateHistogram) (subs : res (list (string * agg_spec))) : res agg_spec :=
  let fixed := if decide (dh_interval h = "") then dh_fixed h else dh_interval h in
  '(calendar, interval) ← date_interval (dh_calendar h) fixed;
  zone ← zone_of "date_histogram" (dh_zone h);
  let format := if decide (dh_format h = "") then RFC3339 else dh_format h in
  if decide (type_of (dh_field h) ∈ ["date"; "time"]) then
    subs ← subs;
    Ok (SDateHistogram (dh_field h) calendar interval format zone (dh_extended h) (dh_hard h) (dh_min h) (sized (dh_size h)) subs)
  else parsing ("[date_histogram] aggregation doesn't support values of type: " +:+ typed (dh_field h)).

Definition auto_spec (h : AggregationAutoDateHistogram) (subs : res (list (string * agg_spec))) : res agg_spec :=
  let buckets := if decide (aa_buckets h ≤ 0)%Z then 10%Z else aa_buckets h in
  let minimum := if decide (aa_minimum h = "") then "second" else aa_minimum h in
  if decide (minimum ∈ ["second"; "minute"; "hour"; "day"; "month"; "year"]) then
    zone ← zone_of "auto_date_histogram" (aa_zone h);
    let format := if decide (aa_format h = "") then RFC3339 else aa_format h in
    if decide (type_of (aa_field h) ∈ ["date"; "time"]) then
      subs ← subs;
      Ok (SAuto (aa_field h) buckets minimum format zone subs)
    else parsing ("[auto_date_histogram] aggregation doesn't support values of type: " +:+ typed (aa_field h))
  else parsing ("[auto_date_histogram] aggregation minimum_interval must be Date Calendar, such as: " +:+
                "second, minute, hour, day, month, year").

(** The first kind that is given, in the order of the switch; nothing is added
    when none is. *)
Definition agg_of (kinds : agg_kinds) (subs : res (list (string * agg_spec))) : res (option agg_spec) :=
  match Avg kinds, WeightedAvg kinds, Max_ kinds, Min_ kinds, Sum kinds, Count_ kinds, Cardinality kinds with
  | Some m, _, _, _, _, _, _ => Ok (Some (SMetric "avg" (m_field m)))
  | _, Some m, _, _, _, _, _ => Ok (Some (SWeightedAvg (m_field m) (m_weight m)))
  | _, _, Some m, _, _, _, _ => Ok (Some (SMetric "max" (m_field m)))
  | _, _, _, Some m, _, _, _ => Ok (Some (SMetric "min" (m_field m)))
  | _, _, _, _, Some m, _, _ => Ok (Some (SMetric "sum" (m_field m)))
  | _, _, _, _, _, Some m, _ => Ok (Some SCount)
  | _, _, _, _, _, _, Some m => Ok (Some (SMetric "cardinality" (m_field m)))
  | _, _, _, _, _, _, _ =>
      match Terms kinds, Range kinds, DateRange kinds, Histogram_ kinds, DateHistogram kinds, AutoDateHistogram kinds with
      | Some t, _, _, _, _, _ => Some <$> terms_spec t subs
      | _, Some r, _, _, _, _ => Some <$> range_spec r
      | _, _, Some r, _, _, _ => Some <$> date_range_spec r
      | _, _, _, Some h, _, _ => Some <$> histogram_spec h subs
      | _, _, _, _, Some h, _ => Some <$> date_histogram_spec h subs
      | _, _, _, _, _, Some h => Some <$> auto_spec h subs
      | _, _, _, _, _, _ =>
          if IPRange kinds then Err (error_new "not_implemented" "[ip_range] aggregation doesn't support") else Ok None
      end
  end.

(** [Request] on aggregations in the order the map is traversed; the mappings
    are there. *)
Fixpoint agg_Request (a : Aggregations) : res (option agg_spec) :=
  match a with
  | mkAggs kinds subs =>
      agg_of kinds
        (foldM (λ acc na, o ← agg_Request na.2; Ok (acc ++ match o with Some s => [(na.1, s)] | None => [] end)) [] subs)
  end.
Definition Request (aggs : list (string * Aggregations)) : res (list (string * agg_spec)) :=
  foldM (λ acc na, o ← agg_Request na.2; Ok (acc ++ match o with Some s => [(na.1, s)] | None => [] end)) [] aggs.
End request.

(** * What is accepted *)

Lemma Aggregations_nested_ind (P : Aggregations → Prop) :
  (∀ kinds subs, Forall (P ∘ snd) subs → P (mkAggs kinds subs)) → ∀ a, P a.
Proof.
  intros Hm. fix IH 1. intros [kinds subs]. apply Hm. induction subs as [|[n a] subs IHs]; constructor; [apply IH|apply IHs].
Qed.

Section accepted.
Context {lib : GoLib} (time_ParseDuration : string → option Z) (TermsSize : Z) (mappings : gmap string Property).
Notation type_of := (type_of mappings).

(** A bucket aggregation that the calculators can run: the field has a type they
    support, intervals are positive or units of the calendar.  Nothing is known of
    the fields of metrics, which the program does not look up. *)
Fixpoint valid_spec (s : agg_spec) : Prop :=
  let all subs := foldr (λ (ns : string * agg_spec) P, valid_spec ns.2 ∧ P) True subs in
  match s with
  | SMetric _ _ | SWeightedAvg _ _ | SCount => True
  | STerms f t _ subs =>
      (t = TextValueSource ∧ type_of f ∈ ["text"; "keyword"] ∨ t = NumericValueSource ∧ type_of f = "numeric" ∨
       t = BooleanValueSource ∧ type_of f ∈ ["bool"; "boolean"]) ∧ all subs
  | SRanges f rs => type_of f = "numeric" ∧ rs ≠ []
  | SDateRanges f rs => type_of f ∈ ["date"; "time"] ∧ rs ≠ []
  | SHistogram f interval offset _ _ _ _ subs =>
      type_of f = "numeric" ∧ SFleb interval zero = false ∧ SFleb interval offset = false ∧ all subs
  | SDateHistogram f calendar _ _ _ _ _ _ _ subs =>
      type_of f ∈ ["date"; "time"] ∧ (calendar = "" ∨ calendar_unit calendar) ∧ all subs
  | SAuto f buckets minimum _ _ subs =>
      type_of f ∈ ["date"; "time"] ∧ (0 < buckets)%Z ∧ minimum ∈ interval_groups.*1 ∧ all subs
  end.
Definition valid_subs (subs : list (string * agg_spec)) : Prop := foldr (λ (ns : string * agg_spec) P, valid_spec ns.2 ∧ P) True subs.

(** A call that does not panic, and what its result satisfies. *)
Definition sound {B} (P : B → Prop) (r : res B) : Prop := match r with Ok b => P b | Err _ => True | Panic _ => False end.

Lemma sound_bind {B C} (P : B → Prop) (Q : C → Prop) (r : res B) (f : B → res C) :
  sound P r → (∀ b, P b → sound Q (f b)) → sound Q (r ≫= f).
Proof. destruct r; cbn; auto. Qed.

Lemma sound_fmap {B C} (Q : C → Prop) (r : res B) (f : B → C) : sound (Q ∘ f) r → sound Q (f <$> r).
Proof. by destruct r. Qed.

Lemma sound_foldM {B S} (P : S → Prop) (f : S → B → res S) s xs :
  P s → (∀ s x, x ∈ xs → P s → sound P (f s x)) → sound P (foldM f s xs).
Proof.
  revert s. induction xs as [|x xs IH]; intros s Hs Hf; cbn [foldM]; [done|].
  apply (sound_bind P); [apply Hf; [left|done]|]. intros s' Hs'. apply IH; [done|]. intros; apply Hf; [by right|done].
Qed.

Lemma valid_subs_app l l' : valid_subs (l ++ l') ↔ valid_subs l ∧ valid_subs l'.
Proof. unfold valid_subs. induction l as [|x l IH]; cbn; [tauto|]. rewrite IH. tauto. Qed.

Lemma ParseInt_sound s : sound (λ _, True) (Strconv.ParseInt s).
Proof.
  assert (∀ s n, sound (λ _, True) (parse_loop n s)) as Hl.
  { clear. induction s as [|c s IH]; intros n; cbn; [done|]. destruct (digit_of c); cbn; [|done]. repeat case_decide; cbn; auto. }
  assert (∀ s, sound (λ _, True) (ParseUint s)) as Hu.
  { intros [|c s']; [done|]. apply (Hl (String c s') 0%Z). }
  assert (∀ (neg : bool) body, sound (λ _, True)
    match ParseUint body with
    | Ok un => if neg then if decide (2 ^ 63 < un)%Z then Err ErrRange else Ok (- un)%Z
               else if decide (2 ^ 63 ≤ un)%Z then Err ErrRange else Ok un
    | r => r
    end) as Hs.
  { intros neg body. specialize (Hu body). destruct (ParseUint body); try done. destruct neg; by case_decide. }
  unfold Strconv.ParseInt. destruct s as [|c s]; [done|].
  repeat case_decide; [apply (Hs false s)|apply (Hs true s)|apply (Hs false (String c s))].
Qed.

Lemma date_interval_sound calendar fixed :
  sound (λ ci, ci.1 = "" ∨ calendar_unit ci.1) (date_interval time_ParseDuration calendar fixed).
Proof.
  unfold date_interval. repeat (case_decide; cbn; auto).
  pose proof (ParseInt_sound fixed) as Hp. unfold ParseDuration. destruct (time_ParseDuration fixed); [cbn; auto|].
  case_decide; cbn; [auto|]. destruct (Strconv.ParseInt fixed); cbn in *; auto.
Qed.

Lemma zone_of_sound name zone : sound (λ _, True) (zone_of name zone).
Proof. unfold zone_of. case_decide; [done|]. unfold ParseTimeZone. repeat (case_decide || case_match); done. Qed.

(** The kinds of aggregations one by one; [subs] are valid when they are read. *)
Lemma agg_of_sound kinds subs : sound valid_subs subs →
  sound (λ o, ∀ s, o = Some s → valid_spec s) (agg_of time_ParseDuration TermsSize mappings kinds subs).
Proof.
  intros Hsubs. unfold agg_of. repeat (case_match; [by intros ? [= <-]|]).
  destruct (Terms kinds) as [t|].
  { apply sound_fmap. unfold terms_spec. eapply (sound_bind (λ k, k = TextValueSource ∧ type_of (at_field t) ∈ ["text"; "keyword"] ∨
      k = NumericValueSource ∧ type_of (at_field t) = "numeric" ∨ k = BooleanValueSource ∧ type_of (at_field t) ∈ ["bool"; "boolean"])).
    - repeat (case_decide; [cbn; auto|]). done.
    - intros k Hk. eapply sound_bind; [exact Hsubs|]. intros l Hl. cbn. by intros ? [= <-]. }
  destruct (Range kinds) as [r|].
  { apply sound_fmap. unfold range_spec. repeat (case_decide; cbn; auto). by intros ? [= <-]. }
  destruct (DateRange kinds) as [r|].
  { apply sound_fmap. unfold date_range_spec. case_decide as Hne; [done|]. eapply sound_bind; [apply zone_of_sound|]. intros z _.
    case_decide as Ht; [|done]. set (f := foldM _ _ _). assert (sound (λ l, l ≠ []) f) as Hf.
    { unfold f. destruct (ad_ranges r) as [|x xs]; [done|]. cbn [foldM].
      assert (∀ format side text, sound (λ _, True) (range_end format side text z)) as He.
      { intros format side text. unfold range_end. repeat (case_decide || case_match); done. }
      eapply (sound_bind (λ l, l ≠ [])).
      - eapply sound_bind; [apply He|]. intros. eapply sound_bind; [apply He|]. done.
      - intros l Hl. apply sound_foldM; [done|]. intros s y _ Hs. eapply sound_bind; [apply He|]. intros.
        eapply sound_bind; [apply He|]. intros. cbn. by destruct s. }
    eapply sound_bind; [exact Hf|]. intros rs Hrs. cbn. by intros ? [= <-]. }
  destruct (Histogram_ kinds) as [h|].
  { apply sound_fmap. unfold histogram_spec. destruct (SFleb _ zero) eqn:E1; [done|]. destruct (SFleb _ (ah_offset h)) eqn:E2; [done|].
    case_decide; [|done]. eapply sound_bind; [exact Hsubs|]. intros l Hl. cbn. by intros ? [= <-]. }
  destruct (DateHistogram kinds) as [h|].
  { apply sound_fmap. unfold date_histogram_spec. eapply sound_bind; [apply date_interval_sound|]. intros [c i] Hc.
    eapply sound_bind; [apply zone_of_sound|]. intros z _. case_decide; [|done]. eapply sound_bind; [exact Hsubs|]. intros l Hl.
    cbn. by intros ? [= <-]. }
  destruct (AutoDateHistogram kinds) as [h|]; [|by case_match].
  apply sound_fmap. unfold auto_spec. set (minimum := if decide (aa_minimum h = "") then _ else _).
  destruct (decide (minimum ∈ _)) as [Hm|]; [|done]. eapply sound_bind; [apply zone_of_sound|]. intros z _.
  destruct (decide (type_of _ ∈ _)); [|done]. eapply sound_bind; [exact Hsubs|]. intros l Hl. cbn. intros ? [= <-].
  split_and!; [done|case_decide; lia|done|done].
Qed.

Lemma agg_Request_sound a : sound (λ o, ∀ s, o = Some s → valid_spec s) (agg_Request time_ParseDuration TermsSize mappings a).
Proof.
  induction a as [kinds subs IH] using Aggregations_nested_ind. cbn [agg_Request]. apply agg_of_sound.
  apply sound_foldM; [done|]. intros acc [n a] Hin Hacc. rewrite Forall_forall in IH. specialize (IH _ Hin). cbn in IH |- *.
  eapply sound_bind; [exact IH|]. intros [s|] Hs; cbn; [|by rewrite app_nil_r]. apply valid_subs_app. split; [done|]. split; [by apply Hs|done].
Qed.

(** C22: reading the aggregations of a request never panics, and the bucket
    aggregations that are accepted fit the mappings: every terms, range, date range,
    histogram, date histogram and automatic histogram aggregation, however deeply
    nested, is about a field of a type it supports; ranges are not empty; histograms
    of numbers have a positive interval, those of dates a unit of the calendar or a
    fixed interval (which need not be positive: [bad_days_are_zero]), and automatic
    ones a known smallest interval and a positive number of buckets. Metrics
    (averages, extrema, sums, cardinalities and counts) are accepted on any field,
    also on one that is not mapped ([metric_fields_unchecked]). *)
Theorem accepted_aggregations (aggs : list (string * Aggregations)) :
  is_panic (Request time_ParseDuration TermsSize mappings aggs) = false ∧
  ∀ specs, Request time_ParseDuration TermsSize mappings aggs = Ok specs → valid_subs specs.
Proof.
  assert (sound valid_subs (Request time_ParseDuration TermsSize mappings aggs)) as Hs.
  { apply sound_foldM; [done|]. intros acc [n a] _ Hacc. eapply sound_bind; [apply agg_Request_sound|].
    intros [s|] Hs; cbn; [|by rewrite app_nil_r]. apply valid_subs_app. split; [done|]. split; [by apply Hs|done]. }
  destruct (Request _ _ _ aggs); cbn in Hs; [|done..]. split; [done|]. by intros specs [= <-].
Qed.

(** Metrics are accepted on every field: whatever the mappings say of it, and
    whether it is mapped at all, the average of a field is asked of the engine. *)
Theorem metric_fields_unchecked kinds subs m : Avg kinds = Some m →
  agg_of time_ParseDuration TermsSize mappings kinds subs = Ok (Some (SMetric "avg" (m_field m))).
Proof. intros Ha. unfold agg_of. by rewrite Ha. Qed.

(** A number of days that cannot be read is a fixed interval of zero, which
    [zero_interval_panics] shows to be fatal. *)
Theorem bad_days_are_zero : time_ParseDuration "xd" = None →
  date_interval time_ParseDuration "" "xd" = Ok ("", 0%Z).
Proof.
  intros Ht. unfold date_interval. rewrite decide_False by (by intros [_ ?]). rewrite decide_False by (intros Hn; by apply Hn).
  unfold ParseDuration. by rewrite Ht.
Qed.
End accepted.

(** * The response *)

(** The calculators of a bucket by the interface they implement; an automatic
    histogram has an interval beside its buckets. *)
#[local] Unset Elimination Schemes.
Inductive calculator :=
  | Metric (value : float64)
  | Duration (milliseconds : Z)
  | Bucketed (buckets : list bucket) (interval : option Z)
  | Unsupported (type : string)
with bucket := mkBucket (name : string) (docs : Z) (aggs : list (string * calculator)).

(** [meta.AggregationResponse]; a bucket is a map. *)
Inductive response :=
  | RValue (f : float64)
  | RMillis (n : Z)
  | RBuckets (buckets : list (list (string * entry))) (interval : string)
with entry :=
  | EKey (name : string)
  | ENumber (key : Z)
  | ECount (n : Z)
  | EAgg (r : response).
#[local] Set Elimination Schemes.

Section response.
(** [IsNumeric] looks at runes; [other_digits] decides for texts with characters
    outside of ASCII. *)
Context (other_digits : string → bool).

Definition is_digit (c : ascii) : bool := bool_decide (is_Some (digit_of c)).
Definition is_ascii (c : ascii) : bool := bool_decide (nat_of_ascii c < 128).
Definition chars (s : string) : list ascii := String.list_ascii_of_string s.
Definition IsNumeric (s : string) : bool := if forallb is_ascii (chars s) then forallb is_digit (chars s) else other_digits s.

(** [aggBucket[k] = v]. *)
Definition put (k : string) (v : entry) (m : list (string * entry)) : list (string * entry) :=
  if decide (k ∈ m.*1) then (λ kv, if decide (kv.1 = k) then (k, v) else kv) <$> m else m ++ [(k, v)].

Definition bucket_head (name : string) (docs : Z) : list (string * entry) :=
  let m := [("key", EKey name); ("doc_count", ECount docs)] in
  if IsNumeric name then put "key_as_string" (EKey name) (put "key" (ENumber (ParseInt_value name)) m) else m.

Definition is_nan (f : float64) : bool := match f with SpecFloat.S754_nan => true | _ => false end.

(** The response of one calculator, given that of a bucket's calculators. *)
Fixpoint response_of (name : string) (c : calculator) : res response :=
  match c with
  | Metric f => Ok (RValue (if is_nan f then zero else f))
  | Duration n => Ok (RMillis n)
  | Bucketed bs interval =>
      bs ← foldM (λ acc b, e ← bucket_response b; Ok (acc ++ [e])) [] bs;
      Ok (RBuckets bs (match interval with Some i => FormatDuration i | None => "" end))
  | Unsupported t => parsing ("[" +:+ name +:+ ":" +:+ t +:+ "] aggregation doesn't support")
  end
with bucket_response (b : bucket) : res (list (string * entry)) :=
  match b with
  | mkBucket name docs aggs =>
      let m := bucket_head name docs in
      if decide (1 < length aggs) then
        sub ← foldM (λ acc nc, r ← response_of nc.1 nc.2; Ok (acc ++ [(nc.1, r)])) [] aggs;
        Ok (foldl (λ m kr, put kr.1 (EAgg kr.2) m) m (filter (λ kr, kr.1 ≠ "count") sub))
      else Ok m
  end.

Definition Response (aggs : list (string * calculator)) : res (list (string * response)) :=
  foldM (λ acc nc, r ← response_of nc.1 nc.2; Ok (acc ++ [(nc.1, r)])) [] aggs.
End response.

Module AggDemo.
Definition other (s : string) : bool := false.
Definition no_kind : agg_kinds := mkKinds None None None None None None None None None None None None None false.
Definition by_colour (subs : list (string * Aggregations)) : Aggregations :=
  mkAggs (mkKinds None None None None None None None (Some (mkAggTerms "colour" 0)) None None None None None false) subs.
Definition monthly : Aggregations :=
  mkAggs (mkKinds None None None None None None None None None None None
            (Some (mkAggDateHistogram "sold" 0 "" "" "month" "" "" 0 None None)) None false) [].
Definition shop : gmap string Property := {["colour" := NewProperty "keyword"; "sold" := NewProperty "date"]}.
#[export] Instance shop_lib : GoLib := AutoDemo.decimal_times.

Lemma accepted_aggregations_witness :
  ∃ specs, Request (λ _, None) 1000 shop [("colours", by_colour [("months", monthly)])] = Ok specs ∧ valid_subs shop specs.
Proof.
  destruct (Request (λ _, None) 1000 shop [("colours", by_colour [("months", monthly)])]) as [specs| |] eqn:E;
    [|vm_compute in E; discriminate..].
  exists specs. split; [done|]. by apply (accepted_aggregations (λ _, None) 1000 shop [("colours", by_colour [("months", monthly)])]).
Defined.

(** Documents without a value are shown under the key 0: their bucket has the
    empty text as its name, which counts as a number, and reading it fails with 0. *)
Theorem missing_value_is_zero :
  bucket_head other "" 7 = [("key", ENumber 0); ("doc_count", ECount 7); ("key_as_string", EKey "")].
Proof. by vm_compute. Qed.

(** A sub-aggregation may take the place of the key or of the count of a bucket. *)
Theorem sub_aggregation_hides_count :
  bucket_response other (mkBucket "red" 7 [("count", Metric (float_of_Z 7)); ("doc_count", Metric (float_of_Z 3))]) =
  Ok [("key", EKey "red"); ("doc_count", EAgg (RValue (float_of_Z 3)))].
Proof. by vm_compute. Qed.
End AggDemo.
