(* ===== verification/Metastore.v ===== *)
(** The metadata store (pkg/metadata): the interface [storage.Storager], its
    three implementations over bbolt, badger and etcd, and the records kept in
    it.  The databases themselves are parameters, with the laws their
    documentation states; the implementations are shown to keep one map from
    keys to values. *)
From Stdlib Require Import Ascii.
From S2P Require Import Prelude Hash Strconv Shards Merge TextOrder.

(** pkg/errors/type.go.  Errors are told apart by their text. *)
Definition ErrKeyNotFound : string := "key not found".
Definition ErrKeyEmpty : string := "key is be empty".
(** [badger.ErrKeyNotFound]. *)
Definition badger_ErrKeyNotFound : string := "Key not found".

(** A failure of a database is not one of these. *)
Definition failure (e : string) : Prop := e ≠ ErrKeyNotFound ∧ e ≠ badger_ErrKeyNotFound.

(** * storage.Storager *)

Class Storager (S : Type) := {
  List : string → M S (list string);
  ListKeys : string → M S (list string);
  Get : string → M S string;
  Set_ : string → string → M S unit;
  Delete : string → M S unit
}.

(** A database with transactions: [View] reads, [Update] keeps what the function
    made of the state when it returns no error. *)
Class TxDB (DB Tx : Type) := {
  View {A : Type} : (Tx → res A) → M DB A;
  Update : (Tx → res Tx) → M DB unit
}.

Class TxLaws (DB Tx : Type) {db : TxDB DB Tx} := {
  held : DB → Tx;
  View_law {A} (f : Tx → res A) s : ∃ s', held s' = held s ∧
    (View f s = (f (held s), s') ∨ ∃ e, failure e ∧ View f s = (Err e, s'));
  Update_law f s : is_panic (f (held s)) = false → ∃ s',
    (f (held s) = Ok (held s') ∧ Update f s = (Ok tt, s')) ∨ (∃ e, Update f s = (Err e, s') ∧ held s' = held s)
}.

(** * bolt.go *)

(** The part of [bbolt.Tx], [bbolt.Bucket] and [bbolt.Cursor] the program uses. *)
Class Bbolt (Tx : Type) := {
  tx_Bucket : Tx → string → bool;
  tx_CreateBucketIfNotExists : string → Tx → res Tx;
  b_Cursor : Tx → string → list (string * string);
  b_Get : Tx → string → string → option string;
  b_Put : string → string → string → Tx → res Tx;
  b_Delete : string → string → Tx → res Tx
}.

(** [key[:p]] and [key[p+1:]] for the last slash of [key], at [p]. *)
Fixpoint cut_last (key : string) : option (string * string) :=
  match key with
  | EmptyString => None
  | String c key =>
      match cut_last key with
      | Some (b, n) => Some (String c b, n)
      | None => if decide (c = "/"%char) then Some (EmptyString, key) else None
      end
  end.

(** Without a slash, [key[:-1]] is out of range. *)
Definition splitBucketAndKey (key : string) : res (string * string) :=
  if decide (key = "") then Ok ("", "")
  else match cut_last key with Some bn => Ok bn | None => Panic PSlice end.

Section bolt.
Context {DB Tx : Type} {db : TxDB DB Tx} {bolt : Bbolt Tx}.

(** What both listings walk over; a bucket that is not there is empty. *)
Definition walk (tx : Tx) (bucket : string) : list (string * string) := if tx_Bucket tx bucket then b_Cursor tx bucket else [].

Definition bolt_List (prefix : string) : M DB (list string) :=
  bn ← lift (splitBucketAndKey prefix); View (λ tx, Ok (walk tx bn.1).*2).

Definition bolt_ListKeys (prefix : string) : M DB (list string) :=
  bn ← lift (splitBucketAndKey prefix); View (λ tx, Ok (walk tx bn.1).*1).

Definition bolt_Get (key : string) : M DB string :=
  bn ← lift (splitBucketAndKey key);
  View (λ tx,
    if tx_Bucket tx bn.1 then
      match b_Get tx bn.1 bn.2 with Some v => Ok v | None => Err ErrKeyNotFound end
    else Err ErrKeyNotFound).

Definition bolt_Set (key value : string) : M DB unit :=
  if decide (key = "") then raise ErrKeyEmpty else
  bn ← lift (splitBucketAndKey key);
  Update (λ tx, tx ← tx_CreateBucketIfNotExists bn.1 tx; b_Put bn.1 bn.2 value tx).

Definition bolt_Delete (key : string) : M DB unit :=
  if decide (key = "") then raise ErrKeyEmpty else
  bn ← lift (splitBucketAndKey key);
  Update (λ tx, if tx_Bucket tx bn.1 then b_Delete bn.1 bn.2 tx else Ok tx).

Definition boltStorage : Storager DB :=
  {| List := bolt_List; ListKeys := bolt_ListKeys; Get := bolt_Get; Set_ := bolt_Set; Delete := bolt_Delete |}.
End bolt.

(** * badger.go *)

(** The part of [badger.Txn], its iterator and its items the program uses:
    [txn_Seek] gives the items from the first key not below the prefix on. *)
Class Badger (Txn Item : Type) := {
  txn_Get : Txn → string → res Item;
  txn_Set : string → string → Txn → res Txn;
  txn_Delete : string → Txn → res Txn;
  txn_Seek : Txn → string → list Item;
  KeyCopy : Item → string;
  ValueCopy : Item → res string
}.

(** [for it.Seek(pre); it.ValidForPrefix(pre); it.Next()]. *)
Fixpoint valid_for_prefix {X} (key : X → string) (pre : string) (items : list X) : list X :=
  match items with
  | [] => []
  | it :: items => match cut_prefix pre (key it) with Some _ => it :: valid_for_prefix key pre items | None => [] end
  end.

(** Blanks for [fmt.Sscanf]; a line feed is one for the end of a word only. *)
Definition is_blank (c : ascii) : bool := bool_decide (N_of_ascii c ∈ [9; 11; 12; 13; 32]%N).
Definition is_newline (c : ascii) : bool := bool_decide (c = "010"%char).

Fixpoint word (s : string) : string :=
  match s with
  | EmptyString => EmptyString
  | String c s => if is_blank c || is_newline c then EmptyString else String c (word s)
  end.

(** The verb [%s]: blanks are skipped, and a word must follow. *)
Fixpoint scan_s (s : string) : res string :=
  match s with
  | EmptyString => Err "unexpected EOF"
  | String c s' => if is_newline c then Err "unexpected newline" else if is_blank c then scan_s s' else Ok (word s)
  end.

(** [fmt.Sscanf(k, prefix+"%s", &key)], for a prefix without blanks and verbs. *)
Definition Sscanf (prefix k : string) : res string :=
  match cut_prefix prefix k with Some rest => scan_s rest | None => Err "input does not match format" end.

Definition malformed (k : string) {A} (r : res A) : res A :=
  match r with Err e => Err ("malformed key in " +:+ k +:+ ": " +:+ e) | r => r end.

Section badger.
Context {DB Txn Item : Type} {db : TxDB DB Txn} {badger : Badger Txn Item}.

Definition badger_List (prefix : string) : M DB (list string) :=
  View (λ txn, foldM (λ data it, buf ← ValueCopy it; Ok (data ++ [buf])) [] (valid_for_prefix KeyCopy prefix (txn_Seek txn prefix))).

Definition badger_ListKeys (prefix : string) : M DB (list string) :=
  View (λ txn, foldM (λ data it, key ← malformed (KeyCopy it) (Sscanf prefix (KeyCopy it)); Ok (data ++ [key]))
                 [] (valid_for_prefix KeyCopy prefix (txn_Seek txn prefix))).

Definition badger_Get (key : string) : M DB string := λ s,
  match View (λ txn, it ← txn_Get txn key; ValueCopy it) s with
  | (Err e, s') => (Err (if decide (e = badger_ErrKeyNotFound) then ErrKeyNotFound else e), s')
  | rs => rs
  end.

Definition badger_Set (key value : string) : M DB unit :=
  if decide (key = "") then raise ErrKeyEmpty else Update (txn_Set key value).

Definition badger_Delete (key : string) : M DB unit :=
  if decide (key = "") then raise ErrKeyEmpty else Update (txn_Delete key).

Definition badgerStorage : Storager DB :=
  {| List := badger_List; ListKeys := badger_ListKeys; Get := badger_Get; Set_ := badger_Set; Delete := badger_Delete |}.
End badger.

(** * etcd.go *)

(** The part of [client.Client] the program uses; [WithKeysOnly] leaves the values out. *)
Class Etcd (Cli : Type) := {
  cli_Get : string → M Cli (list (string * string));
  cli_GetPrefix : string → M Cli (list (string * string));
  cli_Put : string → string → M Cli unit;
  cli_Delete : string → M Cli unit
}.

Section etcd.
Context {Cli : Type} {cli : Etcd Cli} (dbpath : string).

Definition etcd_List (prefix : string) : M Cli (list string) :=
  kvs ← cli_GetPrefix (dbpath +:+ prefix); mret kvs.*2.

Definition etcd_ListKeys (prefix : string) : M Cli (list string) :=
  kvs ← cli_GetPrefix (dbpath +:+ prefix);
  lift (foldM (λ data kv, key ← malformed kv.1 (Sscanf (dbpath +:+ prefix) kv.1); Ok (data ++ [key])) [] kvs).

Definition etcd_Get (key : string) : M Cli string :=
  kvs ← cli_Get (dbpath +:+ key);
  match kvs with [] => raise ErrKeyNotFound | kv :: _ => mret kv.2 end.

Definition etcd_Set (key value : string) : M Cli unit :=
  if decide (key = "") then raise ErrKeyEmpty else cli_Put (dbpath +:+ key) value.

Definition etcd_Delete (key : string) : M Cli unit :=
  if decide (key = "") then raise ErrKeyEmpty else cli_Delete (dbpath +:+ key).

Definition etcdStorage : Storager Cli :=
  {| List := etcd_List; ListKeys := etcd_ListKeys; Get := etcd_Get; Set_ := etcd_Set; Delete := etcd_Delete |}.
End etcd.

(** * What a store promises *)

Definition slashed (key : string) : bool := contains_char "/" key.
(** Names [fmt.Sscanf] reads as they are. *)
Definition plain (n : string) : Prop := n ≠ "" ∧ word n = n.

(** The entries of a directory; [deep]: those of the directories below it too. *)
Definition in_dir (deep : bool) (dir key : string) : bool :=
  match cut_prefix (dir +:+ "/") key with Some n => deep || negb (slashed n) | None => false end.
Definition listed (deep : bool) (dir : string) (m : gmap string string) : list (string * string) :=
  filter (λ kv, in_dir deep dir kv.1 = true) (map_to_list m).
Definition name_in (dir key : string) : string := default "" (cut_prefix (dir +:+ "/") key).

(** A store holds a map from keys to values.  Calls may fail; a write that fails
    may have been carried out. *)
Class StoreSpec (S : Type) {st : Storager S} := {
  holds : S → gmap string string → Prop;
  deep : bool;
  Get_ok k s m : slashed k = true → holds s m → ∃ s', holds s' m ∧
    (Get k s = (match m !! k with Some v => Ok v | None => Err ErrKeyNotFound end, s') ∨
     ∃ e, failure e ∧ Get k s = (Err e, s'));
  Set_ok k v s m : slashed k = true → holds s m → ∃ s',
    (Set_ k v s = (Ok tt, s') ∧ holds s' (<[k := v]> m)) ∨
    (∃ e, Set_ k v s = (Err e, s') ∧ (holds s' m ∨ holds s' (<[k := v]> m)));
  Delete_ok k s m : slashed k = true → holds s m → ∃ s',
    (Delete k s = (Ok tt, s') ∧ holds s' (delete k m)) ∨
    (∃ e, Delete k s = (Err e, s') ∧ (holds s' m ∨ holds s' (delete k m)));
  List_ok dir s m : holds s m → ∃ s', holds s' m ∧
    ((∃ l, l ≡ₚ listed deep dir m ∧ sorted by_key l ∧ List (dir +:+ "/") s = (Ok l.*2, s')) ∨
     ∃ e, List (dir +:+ "/") s = (Err e, s'));
  ListKeys_ok dir s m : holds s m → Forall (λ kv, plain (name_in dir kv.1)) (listed deep dir m) → ∃ s', holds s' m ∧
    ((∃ l, l ≡ₚ listed deep dir m ∧ sorted by_key l ∧ ListKeys (dir +:+ "/") s = (Ok (name_in dir <$> l.*1), s')) ∨
     ∃ e, ListKeys (dir +:+ "/") s = (Err e, s'))
}.

(** ** bbolt keeps it *)

(** The buckets of a file, and the documented effect of the calls on them. *)
Class BboltLaws (Tx : Type) {bolt : Bbolt Tx} := {
  buckets : Tx → gmap string (gmap string string);
  Bucket_law tx b : tx_Bucket tx b = bool_decide (is_Some (buckets tx !! b));
  Create_law b tx : (∃ e, tx_CreateBucketIfNotExists b tx = Err e) ∨
    ∃ tx', tx_CreateBucketIfNotExists b tx = Ok tx' ∧ buckets tx' = <[b := default ∅ (buckets tx !! b)]> (buckets tx);
  Cursor_law tx b bm : buckets tx !! b = Some bm → b_Cursor tx b ≡ₚ map_to_list bm ∧ sorted by_key (b_Cursor tx b);
  bolt_Get_law tx b bm n : buckets tx !! b = Some bm → b_Get tx b n = bm !! n;
  Put_law b n v tx bm : buckets tx !! b = Some bm → (∃ e, b_Put b n v tx = Err e) ∨
    ∃ tx', b_Put b n v tx = Ok tx' ∧ buckets tx' = <[b := <[n := v]> bm]> (buckets tx);
  bolt_Delete_law b n tx bm : buckets tx !! b = Some bm → (∃ e, b_Delete b n tx = Err e) ∨
    ∃ tx', b_Delete b n tx = Ok tx' ∧ buckets tx' = <[b := delete n bm]> (buckets tx)
}.

Lemma slashed_app b n : slashed (b +:+ String "/" n) = true.
Proof. unfold slashed. induction b as [|c b IH]; [done|]. rewrite append_cons. cbn. rewrite IH. apply orb_true_r. Qed.

Lemma cut_last_spec k : ∀ b n, cut_last k = Some (b, n) ↔ k = b +:+ String "/" n ∧ slashed n = false.
Proof.
  assert (∀ k, cut_last k = None → slashed k = false) as Hnone.
  { clear. induction k as [|c k IH]; [done|]. cbn. destruct (cut_last k) as [[]|]; [done|]. case_decide; [done|].
    intros _. unfold slashed. cbn. rewrite bool_decide_eq_false_2 by congruence. by apply IH. }
  induction k as [|c k IH]; intros b n; [cbn; split; [done|intros [E _]; by destruct b]|]. cbn.
  destruct (cut_last k) as [[b' n']|] eqn:Hc.
  - destruct (proj1 (IH _ _) eq_refl) as [-> Hn']. split.
    + intros [= <- <-]. done.
    + intros [E Hn]. destruct b as [|d b].
      * injection E as -> <-. rewrite slashed_app in Hn. done.
      * rewrite append_cons in E. injection E as -> E. pose proof (proj2 (IH b n) (conj E Hn)). congruence.
  - specialize (Hnone k Hc). case_decide as Hd.
    + split; [intros [= <- <-]; by subst|]. intros [E Hn]. destruct b as [|d b]; [by injection E as -> ->|].
      rewrite append_cons in E. injection E as -> E. by pose proof (proj2 (IH b n) (conj E Hn)).
    + split; [done|]. intros [E Hn]. destruct b as [|d b]; [by injection E as -> ->|].
      rewrite append_cons in E. injection E as -> E. by pose proof (proj2 (IH b n) (conj E Hn)).
Qed.

Lemma cut_last_slashed k : slashed k = true → ∃ b n, cut_last k = Some (b, n).
Proof.
  induction k as [|c k IH]; [done|]. unfold slashed. cbn. rewrite orb_true_iff, bool_decide_eq_true.
  destruct (cut_last k) as [[b n]|]; [by eexists _, _|]. case_decide; [by eexists _, _|].
  intros [|Hk]; [done|]. by destruct (IH Hk) as (? & ? & ?).
Qed.

Lemma cut_last_inj k k' bn : cut_last k = Some bn → cut_last k' = Some bn → k = k'.
Proof. destruct bn as [b n]. rewrite !cut_last_spec. intros [-> _] [-> _]. done. Qed.

Lemma split_slashed k : slashed k = true → ∃ bn, cut_last k = Some bn ∧ splitBucketAndKey k = Ok bn ∧ k ≠ "".
Proof.
  intros Hk. destruct (cut_last_slashed k Hk) as (b & n & Hc). exists (b, n). unfold splitBucketAndKey.
  rewrite decide_False, Hc by (intros ->; done). split_and!; [done|done|by intros ->].
Qed.

Lemma split_dir dir : splitBucketAndKey (dir +:+ "/") = Ok (dir, "").
Proof.
  unfold splitBucketAndKey. rewrite decide_False by (by destruct dir).
  by rewrite (proj2 (cut_last_spec (dir +:+ "/") dir "")).
Qed.

(** The buckets [bs] hold the map [m]: a key is a bucket and a name without a slash. *)
Definition in_buckets (bs : gmap string (gmap string string)) (m : gmap string string) : Prop :=
  (∀ k, m !! k = cut_last k ≫= λ bn, bs !! bn.1 ≫= λ bm, bm !! bn.2) ∧
  (∀ b bm n v, bs !! b = Some bm → bm !! n = Some v → slashed n = false).

Lemma in_buckets_create bs m b : in_buckets bs m → in_buckets (<[b := default ∅ (bs !! b)]> bs) m.
Proof.
  intros [Hm Hn]. split.
  - intros k. rewrite Hm. destruct (cut_last k) as [[b' n]|]; [|done]. cbn. destruct (decide (b' = b)) as [->|].
    + rewrite lookup_insert_eq. destruct (bs !! b); cbn; [done|by rewrite lookup_empty].
    + by rewrite lookup_insert_ne.
  - intros b' bm n v. destruct (decide (b' = b)) as [->|]; [|rewrite lookup_insert_ne by done; apply Hn].
    rewrite lookup_insert_eq. intros [= <-]. destruct (bs !! b) eqn:E; cbn; [by eapply Hn|by rewrite lookup_empty].
Qed.

Lemma in_buckets_alter bs m b n bm (o : option string) k :
  cut_last k = Some (b, n) → bs !! b = Some bm → in_buckets bs m →
  in_buckets (<[b := partial_alter (λ _, o) n bm]> bs) (partial_alter (λ _, o) k m).
Proof.
  intros Hk Hb [Hm Hn]. split.
  - intros k'. destruct (decide (k' = k)) as [->|Hne].
    { rewrite lookup_partial_alter_eq, Hk. cbn. rewrite lookup_insert_eq. cbn. by rewrite lookup_partial_alter_eq. }
    rewrite lookup_partial_alter_ne, Hm by done. destruct (cut_last k') as [[b' n']|] eqn:Hk'; [|done]. cbn.
    destruct (decide (b' = b)) as [->|]; [|by rewrite lookup_insert_ne by done]. rewrite lookup_insert_eq, Hb. cbn.
    destruct (decide (n' = n)) as [->|]; [|by rewrite lookup_partial_alter_ne by done].
    destruct Hne. by eapply cut_last_inj.
  - intros b' bm' n' v. destruct (decide (b' = b)) as [->|]; [|rewrite lookup_insert_ne by done; apply Hn].
    rewrite lookup_insert_eq. intros [= <-]. destruct (decide (n' = n)) as [->|].
    + intros _. by apply cut_last_spec in Hk as [_ ?].
    + rewrite lookup_partial_alter_ne by done. by eapply Hn.
Qed.

Lemma in_buckets_entry bs m dir bm n v :
  in_buckets bs m → bs !! dir = Some bm → bm !! n = Some v ↔ m !! (dir +:+ String "/" n) = Some v ∧ slashed n = false.
Proof.
  intros [Hm Hn] Hd. split.
  - intros Hv. pose proof (Hn _ _ _ _ Hd Hv) as Hs. split; [|done]. rewrite Hm, (proj2 (cut_last_spec _ dir n)) by done.
    cbn. by rewrite Hd.
  - intros [Hv Hs]. revert Hv. rewrite Hm, (proj2 (cut_last_spec _ dir n)) by done. cbn. by rewrite Hd.
Qed.

Lemma dir_name dir n : (dir +:+ "/") +:+ n = dir +:+ String "/" n.
Proof. induction dir as [|c dir IH]; [done|]. rewrite !append_cons. f_equal. apply IH. Qed.

Lemma listed_elem d dir m k v : (k, v) ∈ listed d dir m ↔ m !! k = Some v ∧ in_dir d dir k = true.
Proof. unfold listed. rewrite list_elem_of_filter, elem_of_map_to_list. naive_solver. Qed.

Lemma listed_nodup d dir m : NoDup (listed d dir m).
Proof. apply NoDup_filter, NoDup_map_to_list. Qed.

(** What a cursor walks over is the listing of the directory. *)
Lemma cursor_listed bs m dir bm c :
  in_buckets bs m → bs !! dir = Some bm → c ≡ₚ map_to_list bm → sorted by_key c →
  ∃ l, l ≡ₚ listed false dir m ∧ sorted by_key l ∧ l.*2 = c.*2 ∧ name_in dir <$> l.*1 = c.*1.
Proof.
  intros Hb Hd Hp Hs. exists ((λ nv, (dir +:+ String "/" nv.1, nv.2)) <$> c).
  assert (∀ n, cut_prefix (dir +:+ "/") (dir +:+ String "/" n) = Some n) as Hcut by (intros n; rewrite <-(dir_name dir n); apply cut_prefix_app).
  split_and!.
  - apply NoDup_Permutation; [|apply listed_nodup|].
    + apply NoDup_fmap_2; [|rewrite Hp; apply NoDup_map_to_list]. intros [n v] [n' v'] [= E ->]. f_equal.
      apply (f_equal (cut_prefix (dir +:+ "/"))) in E. rewrite !Hcut in E. congruence.
    + intros [k v]. rewrite listed_elem, list_elem_of_fmap. unfold in_dir. split.
      * intros ([n w] & [= -> ->] & Hin). rewrite Hp, elem_of_map_to_list, (in_buckets_entry bs m dir) in Hin by done.
        rewrite Hcut. cbn. by destruct Hin as [-> ->].
      * intros [Hk Hi]. destruct (cut_prefix (dir +:+ "/") k) as [n|] eqn:Hn; [|done].
        apply cut_prefix_spec in Hn as ->. rewrite dir_name in *. exists (n, v). split; [done|]. cbn in Hi. apply negb_true_iff in Hi.
        by rewrite Hp, elem_of_map_to_list, (in_buckets_entry bs m dir).
  - clear -Hs. unfold sorted in *. induction Hs as [|x c Hs IH Hx]; cbn; constructor; [done|]. rewrite Forall_fmap.
    eapply Forall_impl; [exact Hx|]. intros y. unfold by_key. cbn.
    rewrite <-(dir_name dir y.1), <-(dir_name dir x.1), string_ltb_app. done.
  - rewrite <-list_fmap_compose. done.
  - rewrite <-!list_fmap_compose. apply list_fmap_ext. intros i [n v] _. cbn. unfold name_in. by rewrite Hcut.
Qed.

Lemma no_bucket_listed bs m dir : in_buckets bs m → bs !! dir = None → listed false dir m = [].
Proof.
  intros [Hm _] Hd. apply elem_of_nil_inv. intros [k v]. rewrite listed_elem. unfold in_dir.
  destruct (cut_prefix _ k) as [n|] eqn:Hn; [|naive_solver]. apply cut_prefix_spec in Hn as ->. rewrite dir_name, Hm.
  cbn. intros [Hv Hs%negb_true_iff]. rewrite (proj2 (cut_last_spec _ dir n)) in Hv by done. cbn in Hv. by rewrite Hd in Hv.
Qed.

Section bolt_spec.
Context {DB Tx : Type} {db : TxDB DB Tx} {laws : TxLaws DB Tx} {bolt : Bbolt Tx} {bolt_laws : BboltLaws Tx}.

Definition bolt_holds (s : DB) (m : gmap string string) : Prop := in_buckets (buckets (held s)) m.

Lemma bolt_Get_ok k s m : slashed k = true → bolt_holds s m → ∃ s', bolt_holds s' m ∧
  (bolt_Get k s = (match m !! k with Some v => Ok v | None => Err ErrKeyNotFound end, s') ∨
   ∃ e, failure e ∧ bolt_Get k s = (Err e, s')).
Proof.
  intros Hk Hm. destruct (split_slashed k Hk) as ([b n] & Hc & Hs & _).
  unfold bolt_Get, mbind, M_bind, lift. rewrite Hs. cbn [fst snd].
  match goal with |- context [View ?f] => destruct (View_law f s) as (s' & Hh & [->|(e & He & ->)]) end; exists s';
    (split; [unfold bolt_holds; by rewrite Hh|]); [left|right; by exists e]. f_equal.
  destruct Hm as [Hm _]. rewrite Hm, Hc, Bucket_law. cbn. destruct (buckets (held s) !! b) as [bm|] eqn:Hb; cbn; [|done].
  by rewrite (bolt_Get_law _ _ bm) by done.
Qed.

Lemma bolt_Set_ok k v s m : slashed k = true → bolt_holds s m → ∃ s',
  (bolt_Set k v s = (Ok tt, s') ∧ bolt_holds s' (<[k := v]> m)) ∨
  (∃ e, bolt_Set k v s = (Err e, s') ∧ (bolt_holds s' m ∨ bolt_holds s' (<[k := v]> m))).
Proof.
  intros Hk Hm. destruct (split_slashed k Hk) as ([b n] & Hc & Hs & Hne).
  unfold bolt_Set, mbind, M_bind, lift. rewrite decide_False, Hs by done. cbn [fst snd].
  pose proof (Create_law b (held s)) as Hcr. pose proof (λ tx', Put_law b n v tx' (default ∅ (buckets (held s) !! b))) as Hput.
  match goal with |- context [Update ?f] => destruct (Update_law f s) as (s' & Hu) end.
  { unfold mbind, res_bind. destruct Hcr as [[e ->]|(tx' & -> & Hb)]; [done|].
    destruct (Hput tx') as [[e ->]|(tx2 & -> & _)]; [by rewrite Hb, lookup_insert_eq|done..]. }
  exists s'. destruct Hu as [[Hf Hu]|(e & Hu & Hh)]; [left|right; exists e; unfold bolt_holds; rewrite Hh; by split; [|left]].
  split; [exact Hu|]. unfold mbind, res_bind in Hf. destruct Hcr as [[e Hcr]|(tx' & Hcr & Hb)]; rewrite Hcr in Hf; [done|].
  destruct (Hput tx') as [[e Hp]|(tx2 & Hp & Hb2)]; [by rewrite Hb, lookup_insert_eq|by rewrite Hp in Hf|].
  rewrite Hp in Hf. injection Hf as Hf. unfold bolt_holds. rewrite <-Hf, Hb2. eapply in_buckets_alter; [done|by rewrite Hb, lookup_insert_eq|].
  rewrite Hb. by apply in_buckets_create.
Qed.

Lemma bolt_Delete_ok k s m : slashed k = true → bolt_holds s m → ∃ s',
  (bolt_Delete k s = (Ok tt, s') ∧ bolt_holds s' (delete k m)) ∨
  (∃ e, bolt_Delete k s = (Err e, s') ∧ (bolt_holds s' m ∨ bolt_holds s' (delete k m))).
Proof.
  intros Hk Hm. destruct (split_slashed k Hk) as ([b n] & Hc & Hs & Hne).
  unfold bolt_Delete, mbind, M_bind, lift. rewrite decide_False, Hs by done. cbn [fst snd].
  assert (∀ tx, (if tx_Bucket (held s) b then b_Delete b n (held s) else Ok (held s)) = Ok tx → in_buckets (buckets tx) (delete k m)) as Hdel.
  { intros tx. rewrite Bucket_law. destruct (buckets (held s) !! b) as [bm|] eqn:Hb.
    - rewrite bool_decide_eq_true_2 by done. intros Hd. destruct (bolt_Delete_law b n (held s) bm Hb) as [[e ?]|(tx' & Ht & Hbs)]; [congruence|].
      rewrite Hd in Ht. injection Ht as <-. rewrite Hbs. by eapply in_buckets_alter.
    - rewrite bool_decide_eq_false_2 by (intros []; congruence). intros [= <-]. rewrite delete_id; [done|].
      destruct Hm as [-> _]. rewrite Hc. cbn. by rewrite Hb. }
  match goal with |- context [Update ?f] => destruct (Update_law f s) as (s' & Hu) end.
  { rewrite Bucket_law. destruct (buckets (held s) !! b) as [bm|] eqn:Hb; [|by rewrite bool_decide_eq_false_2 by (intros []; congruence)].
    rewrite bool_decide_eq_true_2 by done. by destruct (bolt_Delete_law b n (held s) bm Hb) as [[e ->]|(tx' & -> & _)]. }
  exists s'. destruct Hu as [[Hf Hu]|(e & Hu & Hh)]; [left|right; exists e; unfold bolt_holds; rewrite Hh; by split; [|left]].
  split; [exact Hu|by apply Hdel].
Qed.

(** Both listings read the bucket of the directory. *)
Lemma bolt_view_dir {A} (f : list (string * string) → A) dir s m : bolt_holds s m → ∃ s', bolt_holds s' m ∧
  ((∃ l c, l ≡ₚ listed false dir m ∧ sorted by_key l ∧ l.*2 = c.*2 ∧ name_in dir <$> l.*1 = c.*1 ∧
      View (λ tx, Ok (f (walk tx dir))) s = (Ok (f c), s')) ∨
   ∃ e, View (λ tx, Ok (f (walk tx dir))) s = (Err e, s')).
Proof.
  intros Hm. match goal with |- context [View ?g] => destruct (View_law g s) as (s' & Hh & Hv) end.
  exists s'. split; [unfold bolt_holds; by rewrite Hh|]. destruct Hv as [->|(e & _ & ->)]; [left|right; by exists e].
  unfold walk. rewrite Bucket_law. destruct (buckets (held s) !! dir) as [bm|] eqn:Hb.
  - rewrite bool_decide_eq_true_2 by done. destruct (Cursor_law (held s) dir bm Hb) as [Hp Hs].
    destruct (cursor_listed _ m dir bm _ Hm Hb Hp Hs) as (l & Hl & Hls & H2 & H1). by exists l, (b_Cursor (held s) dir).
  - rewrite bool_decide_eq_false_2 by (intros []; congruence). exists [], []. rewrite (no_bucket_listed _ m dir Hm Hb).
    split_and!; [done|constructor|done..].
Qed.

#[export] Instance bolt_spec : @StoreSpec DB boltStorage.
Proof.
  refine (@Build_StoreSpec DB boltStorage bolt_holds false bolt_Get_ok bolt_Set_ok bolt_Delete_ok _ _).
  - intros dir s m Hm. destruct (bolt_view_dir (λ c, c.*2) dir s m Hm) as (s' & Hh & Hv). exists s'. split; [done|].
    cbn [List boltStorage]. unfold bolt_List, mbind, M_bind, lift. rewrite split_dir. cbn [fst].
    destruct Hv as [(l & c & Hl & Hs & H2 & _ & Hv)|[e Hv]]; [left; exists l; by rewrite H2|right; by exists e].
  - intros dir s m Hm _. destruct (bolt_view_dir (λ c, c.*1) dir s m Hm) as (s' & Hh & Hv). exists s'. split; [done|].
    cbn [ListKeys boltStorage]. unfold bolt_ListKeys, mbind, M_bind, lift. rewrite split_dir. cbn [fst].
    destruct Hv as [(l & c & Hl & Hs & _ & H1 & Hv)|[e Hv]]; [left; exists l; by rewrite H1|right; by exists e].
Defined.
End bolt_spec.

(** ** badger keeps it *)

Definition is_item {Txn Item} {badger : Badger Txn Item} (kv : string * string) (it : Item) : Prop :=
  KeyCopy it = kv.1 ∧ (ValueCopy it = Ok kv.2 ∨ ∃ e, failure e ∧ ValueCopy it = Err e).

Class BadgerLaws (Txn Item : Type) {badger : Badger Txn Item} := {
  pairs : Txn → gmap string string;
  txn_Get_law txn k : (pairs txn !! k = None ∧ txn_Get txn k = Err badger_ErrKeyNotFound) ∨
    (∃ v it, pairs txn !! k = Some v ∧ txn_Get txn k = Ok it ∧ is_item (k, v) it) ∨
    (∃ e, failure e ∧ txn_Get txn k = Err e);
  txn_Set_law k v txn : (∃ e, txn_Set k v txn = Err e) ∨ ∃ txn', txn_Set k v txn = Ok txn' ∧ pairs txn' = <[k := v]> (pairs txn);
  txn_Delete_law k txn : (∃ e, txn_Delete k txn = Err e) ∨ ∃ txn', txn_Delete k txn = Ok txn' ∧ pairs txn' = delete k (pairs txn);
  Seek_law txn pre : ∃ l, l ≡ₚ filter (λ kv, String.ltb kv.1 pre = false) (map_to_list (pairs txn)) ∧ sorted by_key l ∧
    Forall2 is_item l (txn_Seek txn pre)
}.

Lemma valid_for_prefix_filter pre (l : list (string * string)) :
  sorted by_key l → Forall (λ kv, String.ltb kv.1 pre = false) l →
  valid_for_prefix fst pre l = filter (λ kv, is_Some (cut_prefix pre kv.1)) l.
Proof.
  unfold sorted. induction 1 as [|[k v] l Hs IH Hx]; [done|]. intros [Hk Hl]%Forall_cons. rewrite filter_cons. cbn in *.
  destruct (cut_prefix pre k) as [n|] eqn:Hn; [rewrite decide_True by done; by rewrite IH|].
  rewrite decide_False by (intros []; done). symmetry. apply filter_none. rewrite Forall_forall in Hx. intros kv Hkv.
  rewrite (prefix_run pre k kv.1 Hk Hn) by (by apply Hx). intros []; done.
Qed.

Lemma listed_prefix dir m : listed true dir m = filter (λ kv, is_Some (cut_prefix (dir +:+ "/") kv.1)) (map_to_list m).
Proof.
  unfold listed. apply list_filter_iff. intros [k v]. unfold in_dir. cbn. destruct (cut_prefix _ k); [by eauto|].
  split; [done|intros []; done].
Qed.

(** A run from the prefix on, cut off where the prefix ends, is the listing. *)
Lemma run_listed dir m l :
  l ≡ₚ filter (λ kv, String.ltb kv.1 (dir +:+ "/") = false) (map_to_list m) → sorted by_key l →
  valid_for_prefix fst (dir +:+ "/") l ≡ₚ listed true dir m ∧ sorted by_key (valid_for_prefix fst (dir +:+ "/") l).
Proof.
  intros Hp Hs. assert (Forall (λ kv, String.ltb kv.1 (dir +:+ "/") = false) l) as Hl
    by (rewrite Hp, Forall_forall; by intros ? [? _]%list_elem_of_filter).
  rewrite valid_for_prefix_filter by done. split; [|by apply sorted_filter]. rewrite Hp, listed_prefix, list_filter_filter.
  apply Permutation_refl', list_filter_iff. intros kv. split; [by intros []|]. intros [n Hn]. split; [by exists n|].
  apply cut_prefix_spec in Hn as ->. apply prefix_from.
Qed.

Lemma plain_scan n : plain n → scan_s n = Ok n.
Proof.
  intros [Hn Hw]. destruct n as [|c n]; [done|]. cbn [scan_s]. rewrite Hw. cbn in Hw. revert Hw.
  destruct (is_newline c), (is_blank c); cbn; done.
Qed.

Lemma keys_loop pre : ∀ (ks : list string) acc,
  Forall (λ k, plain (default "" (cut_prefix pre k))) ks →
  foldM (λ data k, key ← malformed k (Sscanf pre k); Ok (data ++ [key])) acc ks =
    Ok (acc ++ ((λ k, default "" (cut_prefix pre k)) <$> ks)).
Proof.
  induction ks as [|k ks IH]; intros acc; [by rewrite app_nil_r|]. intros [Hk Hks]%Forall_cons. cbn [foldM].
  destruct (cut_prefix pre k) as [n|] eqn:Hn; cbn in Hk; [|by destruct Hk].
  assert (malformed k (Sscanf pre k) = Ok n) as -> by (unfold Sscanf; by rewrite Hn, plain_scan). cbn.
  rewrite IH by done. rewrite <-app_assoc. cbn. by rewrite Hn.
Qed.

Section badger_spec.
Context {DB Txn Item : Type} {db : TxDB DB Txn} {laws : TxLaws DB Txn} {badger : Badger Txn Item} {badger_laws : BadgerLaws Txn Item}.

Definition badger_holds (s : DB) (m : gmap string string) : Prop := pairs (held s) = m.

Lemma badger_Get_ok k s m : slashed k = true → badger_holds s m → ∃ s', badger_holds s' m ∧
  (badger_Get k s = (match m !! k with Some v => Ok v | None => Err ErrKeyNotFound end, s') ∨
   ∃ e, failure e ∧ badger_Get k s = (Err e, s')).
Proof.
  intros _ <-. unfold badger_Get. match goal with |- context [View ?f] => destruct (View_law f s) as (s' & Hh & Hv) end.
  exists s'. split; [unfold badger_holds; by rewrite Hh|]. destruct Hv as [->|(e & He & ->)].
  2: { right. exists e. split; [done|]. destruct He. by rewrite decide_False. }
  destruct (txn_Get_law (held s) k) as [[-> ->]|[(v & it & -> & -> & _ & Hit)|(e & He & ->)]]; cbn.
  - left. by rewrite decide_True.
  - destruct Hit as [->|(e & He & ->)]; [by left|right]. exists e. split; [done|]. destruct He. by rewrite decide_False.
  - right. exists e. split; [done|]. destruct He. by rewrite decide_False.
Qed.

Lemma badger_update f g s m :
  ((∃ e, f (held s) = Err e) ∨ ∃ txn, f (held s) = Ok txn ∧ pairs txn = g (pairs (held s))) → badger_holds s m → ∃ s',
  (Update f s = (Ok tt, s') ∧ badger_holds s' (g m)) ∨ (∃ e, Update f s = (Err e, s') ∧ (badger_holds s' m ∨ badger_holds s' (g m))).
Proof.
  intros Hf <-. destruct (Update_law f s) as [s' Hu]; [by destruct Hf as [[e ->]|(txn & -> & _)]|]. exists s'.
  destruct Hu as [[Ht Hu]|(e & Hu & Hh)]; [left|right; exists e; unfold badger_holds; rewrite Hh; by split; [|left]].
  split; [done|]. unfold badger_holds. destruct Hf as [[e Hf]|(txn & Hf & Hp)]; [congruence|]. rewrite <-Hp. congruence.
Qed.

(** The items a listing visits. *)
Lemma badger_items dir s m : badger_holds s m → ∃ l,
  l ≡ₚ listed true dir m ∧ sorted by_key l ∧
  Forall2 is_item l (valid_for_prefix KeyCopy (dir +:+ "/") (txn_Seek (held s) (dir +:+ "/"))).
Proof.
  intros <-. destruct (Seek_law (held s) (dir +:+ "/")) as (l & Hp & Hs & Hl). destruct (run_listed dir _ l Hp Hs) as [H1 H2].
  exists (valid_for_prefix fst (dir +:+ "/") l). split_and!; [done..|]. clear -Hl.
  induction Hl as [|kv it l its Hi Hl IH]; cbn; [constructor|]. destruct Hi as [Hk Hv]. rewrite Hk.
  destruct (cut_prefix _ kv.1); [by constructor|constructor].
Qed.

Lemma values_loop l its : Forall2 is_item l its → ∀ acc,
  foldM (λ data it, buf ← ValueCopy it; Ok (data ++ [buf])) acc its = Ok (acc ++ l.*2) ∨
  ∃ e, foldM (λ data it, buf ← ValueCopy it; Ok (data ++ [buf])) acc its = Err e.
Proof.
  induction 1 as [|kv it l its [Hk Hv] Hl IH]; intros acc; [left; by rewrite app_nil_r|]. cbn [foldM].
  destruct Hv as [->|(e & _ & ->)]; [|right; by exists e]. cbn.
  destruct (IH (acc ++ [kv.2])) as [->|[e ->]]; [left; by rewrite <-app_assoc|right; by exists e].
Qed.

Lemma foldM_keys {A S} (f : S → A → res S) (g : S → string → res S) (key : A → string) :
  (∀ s a, f s a = g s (key a)) → ∀ xs s, foldM f s xs = foldM g s (key <$> xs).
Proof.
  intros H xs. induction xs as [|x xs IH]; intros s; [done|]. cbn. rewrite H. destruct (g s (key x)); cbn; [apply IH|done..].
Qed.

#[export] Instance badger_spec : @StoreSpec DB badgerStorage.
Proof.
  refine (@Build_StoreSpec DB badgerStorage badger_holds true badger_Get_ok _ _ _ _).
  - intros k v s m Hk Hm. cbn [Set_ badgerStorage]. unfold badger_Set. rewrite decide_False by (by intros ->).
    apply (badger_update (txn_Set k v) (<[k := v]>)); [apply txn_Set_law|done].
  - intros k s m Hk Hm. cbn [Delete badgerStorage]. unfold badger_Delete. rewrite decide_False by (by intros ->).
    apply (badger_update (txn_Delete k) (delete k)); [apply txn_Delete_law|done].
  - intros dir s m Hm. destruct (badger_items dir s m Hm) as (l & Hp & Hs & Hl). cbn [List badgerStorage]. unfold badger_List.
    match goal with |- context [View ?f] => destruct (View_law f s) as (s' & Hh & Hv) end.
    exists s'. split; [unfold badger_holds; by rewrite Hh|]. destruct Hv as [->|(e & _ & ->)]; [|right; by exists e].
    destruct (values_loop _ _ Hl []) as [->|[e ->]]; [left; by exists l|right; by exists e].
  - intros dir s m Hm Hn. destruct (badger_items dir s m Hm) as (l & Hp & Hs & Hl). cbn [ListKeys badgerStorage]. unfold badger_ListKeys.
    match goal with |- context [View ?f] => destruct (View_law f s) as (s' & Hh & Hv) end.
    exists s'. split; [unfold badger_holds; by rewrite Hh|]. destruct Hv as [->|(e & _ & ->)]; [left; exists l|right; by exists e].
    split_and!; [done..|]. f_equal.
    rewrite (foldM_keys _ (λ data k, key ← malformed k (Sscanf (dir +:+ "/") k); Ok (data ++ [key])) KeyCopy) by done.
    assert (KeyCopy <$> valid_for_prefix KeyCopy (dir +:+ "/") (txn_Seek (held s) (dir +:+ "/")) = l.*1) as ->
      by (clear -Hl; induction Hl as [|kv it l its [Hk _] Hl IH]; cbn; [done|]; by rewrite Hk, IH).
    rewrite keys_loop; [done|]. rewrite <-Hp in Hn. by rewrite Forall_fmap.
Defined.
End badger_spec.

(** ** etcd keeps it *)

(** The keys of the cluster's store; those of the metadata start with [dbpath].
    A write whose answer is lost may have been carried out. *)
Class EtcdLaws (Cli : Type) {cli : Etcd Cli} := {
  etcd_keys : Cli → gmap string string;
  cli_Get_law k s : ∃ s', etcd_keys s' = etcd_keys s ∧
    (cli_Get k s = (Ok (match etcd_keys s !! k with Some v => [(k, v)] | None => [] end), s') ∨ ∃ e, failure e ∧ cli_Get k s = (Err e, s'));
  cli_GetPrefix_law pre s : ∃ s', etcd_keys s' = etcd_keys s ∧
    ((∃ l, l ≡ₚ filter (λ kv, is_Some (cut_prefix pre kv.1)) (map_to_list (etcd_keys s)) ∧ sorted by_key l ∧ cli_GetPrefix pre s = (Ok l, s')) ∨
     ∃ e, cli_GetPrefix pre s = (Err e, s'));
  cli_Put_law k v s : ∃ r s', cli_Put k v s = (r, s') ∧
    (r = Ok tt ∧ etcd_keys s' = <[k := v]> (etcd_keys s) ∨
     (∃ e, r = Err e) ∧ (etcd_keys s' = etcd_keys s ∨ etcd_keys s' = <[k := v]> (etcd_keys s)));
  cli_Delete_law k s : ∃ r s', cli_Delete k s = (r, s') ∧
    (r = Ok tt ∧ etcd_keys s' = delete k (etcd_keys s) ∨
     (∃ e, r = Err e) ∧ (etcd_keys s' = etcd_keys s ∨ etcd_keys s' = delete k (etcd_keys s)))
}.

Lemma append_assoc a b c : (a +:+ b) +:+ c = a +:+ (b +:+ c).
Proof. induction a as [|x a IH]; [done|]. rewrite !append_cons. f_equal. exact IH. Qed.

Lemma append_inj a b c : a +:+ b = a +:+ c → b = c.
Proof. intros E. apply (f_equal (cut_prefix a)) in E. rewrite !cut_prefix_app in E. congruence. Qed.

Lemma cut_prefix_under a b n : cut_prefix (a +:+ b) (a +:+ (b +:+ n)) = Some n.
Proof. apply cut_prefix_spec. by rewrite append_assoc. Qed.

Section etcd_spec.
Context {Cli : Type} {cli : Etcd Cli} {laws : EtcdLaws Cli} (dbpath : string).

Definition etcd_holds (s : Cli) (m : gmap string string) : Prop := ∀ k, m !! k = etcd_keys s !! (dbpath +:+ k).

Lemma etcd_holds_alter (ks m : gmap string string) (o : option string) k :
  (∀ k, m !! k = ks !! (dbpath +:+ k)) →
  ∀ k', partial_alter (λ _, o) k m !! k' = partial_alter (λ _, o) (dbpath +:+ k) ks !! (dbpath +:+ k').
Proof.
  intros Hm k'. destruct (decide (k' = k)) as [->|Hne]; [by rewrite !lookup_partial_alter_eq|].
  rewrite !lookup_partial_alter_ne; [apply Hm|intros E%append_inj; congruence|congruence].
Qed.

(** The entries under [dbpath/dir/], with [dbpath] taken off. *)
Lemma etcd_listed dir (ks m : gmap string string) l :
  (∀ k, m !! k = ks !! (dbpath +:+ k)) →
  l ≡ₚ filter (λ kv, is_Some (cut_prefix (dbpath +:+ (dir +:+ "/")) kv.1)) (map_to_list ks) → sorted by_key l →
  ∃ l', l' ≡ₚ listed true dir m ∧ sorted by_key l' ∧ l = (λ kv, (dbpath +:+ kv.1, kv.2)) <$> l'.
Proof.
  intros Hm Hp Hs. set (cut kv := (default "" (cut_prefix dbpath kv.1), kv.2) : string * string). exists (cut <$> l).
  assert (∀ kv, kv ∈ l → (dbpath +:+ (cut kv).1, (cut kv).2) = kv ∧ is_Some (cut_prefix (dir +:+ "/") (cut kv).1)) as Hcut.
  { intros [k v]. rewrite Hp, list_elem_of_filter. intros [[n Hn] _]. cbn in Hn. apply cut_prefix_spec in Hn as ->.
    rewrite append_assoc. unfold cut. cbn. rewrite cut_prefix_app. cbn. split; [done|]. rewrite cut_prefix_app. by eexists. }
  assert (l = (λ kv, (dbpath +:+ kv.1, kv.2)) <$> (cut <$> l)) as Hl.
  { rewrite <-list_fmap_compose. symmetry. rewrite <-(list_fmap_id l) at 2. apply list_fmap_ext. intros i kv Hi.
    by apply Hcut, list_elem_of_lookup_2 with i. }
  split_and!; [|..|done].
  - apply NoDup_Permutation; [|apply listed_nodup|].
    + assert (NoDup l) as Hnd by (rewrite Hp; apply NoDup_filter, NoDup_map_to_list). rewrite Hl in Hnd. by apply NoDup_fmap_1 in Hnd.
    + intros [k v]. rewrite listed_prefix, list_elem_of_filter, elem_of_map_to_list, list_elem_of_fmap. cbn. split.
      * intros (kv & Hkv & Hin). destruct (Hcut kv Hin) as [E Hc]. rewrite <-Hkv in E, Hc. cbn in E, Hc. split; [done|].
        rewrite Hm, <-elem_of_map_to_list, E. rewrite Hp in Hin. by apply list_elem_of_filter in Hin as [_ ?].
      * intros [[n Hn] Hv]. exists (dbpath +:+ k, v). split; [unfold cut; cbn; by rewrite cut_prefix_app|].
        rewrite Hp, list_elem_of_filter, elem_of_map_to_list, <-Hm. split; [|done]. cbn. apply cut_prefix_spec in Hn as ->.
        rewrite cut_prefix_under. by eexists.
  - unfold sorted in *. rewrite Hl in Hs. clear -Hs. induction (cut <$> l) as [|x l' IH]; [constructor|]. cbn in Hs.
    apply StronglySorted_inv in Hs as [Hs Hx]. constructor; [by apply IH|]. rewrite Forall_fmap in Hx.
    eapply Forall_impl; [exact Hx|]. intros y. unfold by_key. cbn. by rewrite string_ltb_app.
Qed.

#[export] Instance etcd_spec : @StoreSpec Cli (etcdStorage dbpath).
Proof.
  refine (@Build_StoreSpec Cli (etcdStorage dbpath) etcd_holds true _ _ _ _ _).
  - intros k s m _ Hm. cbn [Get etcdStorage]. unfold etcd_Get, mbind, M_bind.
    destruct (cli_Get_law (dbpath +:+ k) s) as (s' & Hh & Hg). exists s'. split; [intros k'; by rewrite Hh, Hm|]. rewrite Hm.
    destruct Hg as [->|(e & He & ->)]; [left; by destruct (etcd_keys s !! _)|right; by exists e].
  - intros k v s m Hk Hm. cbn [Set_ etcdStorage]. unfold etcd_Set. rewrite decide_False by (by intros ->).
    destruct (cli_Put_law (dbpath +:+ k) v s) as (r & s' & -> & Hr). exists s'.
    pose proof (etcd_holds_alter _ _ (Some v) k Hm) as Ha. unfold etcd_holds.
    destruct Hr as [[-> ->]|[[e ->] [-> | ->]]]; [by left|right; exists e; by split; [|left]|right; exists e; by split; [|right]].
  - intros k s m Hk Hm. cbn [Delete etcdStorage]. unfold etcd_Delete. rewrite decide_False by (by intros ->).
    destruct (cli_Delete_law (dbpath +:+ k) s) as (r & s' & -> & Hr). exists s'.
    pose proof (etcd_holds_alter _ _ None k Hm) as Ha. unfold etcd_holds.
    destruct Hr as [[-> ->]|[[e ->] [-> | ->]]]; [by left|right; exists e; by split; [|left]|right; exists e; by split; [|right]].
  - intros dir s m Hm. cbn [List etcdStorage]. unfold etcd_List, mbind, M_bind.
    destruct (cli_GetPrefix_law (dbpath +:+ (dir +:+ "/")) s) as (s' & Hh & Hg). exists s'. split; [intros k'; by rewrite Hh, Hm|].
    destruct Hg as [(l & Hp & Hs & ->)|[e ->]]; [left|right; by exists e].
    destruct (etcd_listed dir _ m l Hm Hp Hs) as (l' & Hp' & Hs' & ->). exists l'. split_and!; [done..|].
    by rewrite <-list_fmap_compose.
  - intros dir s m Hm Hn. cbn [ListKeys etcdStorage]. unfold etcd_ListKeys, mbind, M_bind, lift.
    destruct (cli_GetPrefix_law (dbpath +:+ (dir +:+ "/")) s) as (s' & Hh & Hg). exists s'. split; [intros k'; by rewrite Hh, Hm|].
    destruct Hg as [(l & Hp & Hs & ->)|[e ->]]; [left|right; by exists e].
    destruct (etcd_listed dir _ m l Hm Hp Hs) as (l' & Hp' & Hs' & ->). exists l'. split_and!; [done..|]. f_equal.
    rewrite (foldM_keys _ (λ data k, key ← malformed k (Sscanf (dbpath +:+ (dir +:+ "/")) k); Ok (data ++ [key])) fst) by done.
    assert (∀ kv : string * string, kv ∈ l' → name_in dir kv.1 = default "" (cut_prefix (dbpath +:+ (dir +:+ "/")) (dbpath +:+ kv.1))) as Hname.
    { intros [k v]. rewrite Hp', listed_prefix, list_elem_of_filter. cbn. intros [[n Hk] _]. unfold name_in. rewrite Hk.
      apply cut_prefix_spec in Hk as ->. by rewrite cut_prefix_under. }
    rewrite <-Hp', Forall_forall in Hn. rewrite keys_loop.
    + cbn. f_equal. rewrite <-!list_fmap_compose. apply list_fmap_ext. intros i kv Hi. cbn. symmetry. by apply Hname, list_elem_of_lookup_2 with i.
    + rewrite !Forall_fmap, Forall_forall. intros kv Hkv. cbn. rewrite <-Hname by done. by apply Hn.
Defined.
End etcd_spec.

(** * The three stores are one *)

Inductive call : Type :=
  | CGet (key : string) | CSet (key value : string) | CDelete (key : string)
  | CList (dir : string) | CListKeys (dir : string).

Definition do_call {S} {st : Storager S} (c : call) : M S (list string) :=
  match c with
  | CGet key => v ← Get key; mret [v]
  | CSet key value => _ ← Set_ key value; mret []
  | CDelete key => _ ← Delete key; mret []
  | CList dir => List (dir +:+ "/")
  | CListKeys dir => ListKeys (dir +:+ "/")
  end.

(** The answers to calls made in turn. *)
Fixpoint do_calls {S} {st : Storager S} (cs : list call) (s : S) : list (res (list string)) * S :=
  match cs with
  | [] => ([], s)
  | c :: cs => let '(r, s) := do_call c s in let '(rs, s) := do_calls cs s in (r :: rs, s)
  end.

(** The call was carried out; that there is no such key is an answer. *)
Definition answered (c : call) (r : res (list string)) : Prop :=
  match r with Ok _ => True | Err e => (∃ k, c = CGet k) ∧ e = ErrKeyNotFound | Panic _ => False end.

(** A map answers. *)
Definition map_answers (m : gmap string string) (c : call) (r : res (list string)) (m' : gmap string string) : Prop :=
  match c with
  | CGet k => m' = m ∧ r = match m !! k with Some v => Ok [v] | None => Err ErrKeyNotFound end
  | CSet k v => m' = <[k := v]> m ∧ r = Ok []
  | CDelete k => m' = delete k m ∧ r = Ok []
  | CList dir => m' = m ∧ ∃ l, l ≡ₚ listed true dir m ∧ sorted by_key l ∧ r = Ok l.*2
  | CListKeys dir => m' = m ∧ ∃ l, l ≡ₚ listed true dir m ∧ sorted by_key l ∧ r = Ok (name_in dir <$> l.*1)
  end.

(** The directories of pkg/metadata. *)
Definition metadata_dirs : list string := ["/index"; "/template"; "/user"; "/role"; "/kv"; "/aliases"].

(** Keys of records whose name has no slash and no blank. *)
Definition good_key (k : string) : Prop :=
  slashed k = true ∧ ∀ dir n, dir ∈ metadata_dirs → cut_prefix (dir +:+ "/") k = Some n → slashed n = false ∧ plain n.
Definition good_call (c : call) : Prop :=
  match c with CGet k | CSet k _ | CDelete k => good_key k | CList dir | CListKeys dir => dir ∈ metadata_dirs end.
Definition good_map (m : gmap string string) : Prop := ∀ k v, m !! k = Some v → good_key k.

Lemma listed_deep d dir m : dir ∈ metadata_dirs → good_map m → listed d dir m = listed true dir m.
Proof.
  intros Hd Hm. unfold listed. assert (∀ kv, kv ∈ map_to_list m → in_dir d dir kv.1 = true ↔ in_dir true dir kv.1 = true) as Hi.
  { intros [k v] Hk%elem_of_map_to_list. unfold in_dir. cbn. destruct (cut_prefix _ k) as [n|] eqn:Hn; [|done].
    destruct (Hm k v Hk) as [_ Hg]. destruct (Hg dir n Hd Hn) as [-> _]. by rewrite orb_true_r. }
  induction (map_to_list m) as [|kv l IH]; [done|]. rewrite !filter_cons, IH by (intros; apply Hi; by right).
  pose proof (Hi kv (list_elem_of_here _ _)). destruct (decide (in_dir d dir kv.1 = true)), (decide (in_dir true dir kv.1 = true)); tauto.
Qed.

Lemma listed_plain d dir m : dir ∈ metadata_dirs → good_map m → Forall (λ kv, plain (name_in dir kv.1)) (listed d dir m).
Proof.
  intros Hd Hm. apply Forall_forall. intros [k v] [Hk Hi]%listed_elem. unfold in_dir in Hi. cbn. unfold name_in.
  destruct (cut_prefix _ k) as [n|] eqn:Hn; [|done]. destruct (Hm k v Hk) as [_ Hg]. by destruct (Hg dir n Hd Hn).
Qed.

Lemma good_map_insert m k v : good_key k → good_map m → good_map (<[k := v]> m).
Proof. intros Hk Hm k' v'. destruct (decide (k' = k)) as [->|]; [done|]. rewrite lookup_insert_ne by done. apply Hm. Qed.
Lemma good_map_delete m k : good_map m → good_map (delete k m).
Proof. intros Hm k' v' [_ Hk]%lookup_delete_Some. by eapply Hm. Qed.

(** A listing tells the entries apart and orders them: there is one. *)
Lemma map_answers_det m c r1 r2 m1 m2 : map_answers m c r1 m1 → map_answers m c r2 m2 → r1 = r2 ∧ m1 = m2.
Proof.
  assert (∀ dir (l1 l2 : list (string * string)), l1 ≡ₚ listed true dir m → l2 ≡ₚ listed true dir m → sorted by_key l1 → sorted by_key l2 → l1 = l2) as Hl.
  { intros dir l1 l2 Hp1 Hp2 Hs1 Hs2. apply by_key_unique; [|by rewrite Hp1|done..]. rewrite Hp1. unfold listed.
    apply NoDup_fmap_filter, NoDup_fst_map_to_list. }
  destruct c; cbn; [naive_solver..| |];
    intros [-> (l1 & Hp1 & Hs1 & ->)] [-> (l2 & Hp2 & Hs2 & ->)]; by rewrite (Hl dir l1 l2 Hp1 Hp2 Hs1 Hs2).
Qed.

Section refinement.
Context {S : Type} {st : Storager S} {spec : StoreSpec S}.

(** A call that is carried out is answered as by the map, which stays good. *)
Lemma call_refines c r s s' m :
  good_call c → good_map m → holds s m → do_call c s = (r, s') → answered c r →
  ∃ m', map_answers m c r m' ∧ good_map m' ∧ holds s' m'.
Proof.
  intros Hc Hm Hh Hd Ha. destruct c as [k|k v|k|dir|dir]; cbn in *; unfold mbind, M_bind in Hd.
  - destruct (Get_ok k s m (proj1 Hc) Hh) as (s1 & Hh1 & [Hg|(e & He & Hg)]); rewrite Hg in Hd.
    + exists m. destruct (m !! k); injection Hd as <- <-; done.
    + injection Hd as <- <-. destruct He as [He _]. by destruct Ha as [_ ->].
  - destruct (Set_ok k v s m (proj1 Hc) Hh) as (s1 & [[Hg Hh1]|(e & Hg & _)]); rewrite Hg in Hd; injection Hd as <- <-.
    + exists (<[k := v]> m). split_and!; [done..|by apply good_map_insert|done].
    + by destruct Ha as [[? ?] _].
  - destruct (Delete_ok k s m (proj1 Hc) Hh) as (s1 & [[Hg Hh1]|(e & Hg & _)]); rewrite Hg in Hd; injection Hd as <- <-.
    + exists (delete k m). split_and!; [done..|by apply good_map_delete|done].
    + by destruct Ha as [[? ?] _].
  - destruct (List_ok dir s m Hh) as (s1 & Hh1 & [(l & Hp & Hs & Hg)|[e Hg]]); rewrite Hg in Hd; injection Hd as <- <-.
    + exists m. rewrite listed_deep in Hp by done. split_and!; [done|by exists l|done..].
    + by destruct Ha as [[? ?] _].
  - destruct (ListKeys_ok dir s m Hh (listed_plain _ dir m Hc Hm)) as (s1 & Hh1 & [(l & Hp & Hs & Hg)|[e Hg]]); rewrite Hg in Hd; injection Hd as <- <-.
    + exists m. rewrite listed_deep in Hp by done. split_and!; [done|by exists l|done..].
    + by destruct Ha as [[? ?] _].
Qed.

Fixpoint map_runs (m : gmap string string) (cs : list call) (rs : list (res (list string))) (m' : gmap string string) : Prop :=
  match cs, rs with
  | [], [] => m' = m
  | c :: cs, r :: rs => ∃ m1, map_answers m c r m1 ∧ map_runs m1 cs rs m'
  | _, _ => False
  end.

Lemma calls_refine cs : ∀ rs s s' m,
  Forall good_call cs → good_map m → holds s m → do_calls cs s = (rs, s') → Forall2 answered cs rs →
  ∃ m', map_runs m cs rs m' ∧ good_map m' ∧ holds s' m'.
Proof.
  induction cs as [|c cs IH]; intros rs s s' m Hc Hm Hh Hd Ha; cbn in Hd.
  - injection Hd as <- <-. by exists m.
  - destruct (do_call c s) as [r s1] eqn:H1. destruct (do_calls cs s1) as [rs1 s2] eqn:H2. injection Hd as <- <-.
    apply Forall_cons in Hc as [Hc Hcs]. apply Forall2_cons in Ha as [Ha Has].
    destruct (call_refines c r s s1 m) as (m1 & Hr & Hm1 & Hh1); [done..|].
    destruct (IH rs1 s1 s2 m1) as (m' & Hrs & ? & ?); [done..|]. exists m'. split_and!; [|done..]. cbn. by exists m1.
Qed.
End refinement.

Lemma map_runs_det cs : ∀ m rs1 rs2 m1 m2, map_runs m cs rs1 m1 → map_runs m cs rs2 m2 → rs1 = rs2 ∧ m1 = m2.
Proof.
  induction cs as [|c cs IH]; intros m [|r1 rs1] [|r2 rs2] m1 m2; cbn; try done; [by intros -> ->|].
  intros (n1 & H1 & R1) (n2 & H2 & R2). destruct (map_answers_det _ _ _ _ _ _ H1 H2) as [-> ->].
  by destruct (IH _ _ _ _ _ R1 R2) as [-> ->].
Qed.

(** C16: The three stores behind [storage.Storager] - bbolt's buckets, where a key
    is cut at its last slash, badger's sorted keys, and the keys of etcd under the
    cluster's prefix - behave as one map from keys to
    values for keys with a slash that, in the directories of the program, end in a
    name without slashes and blanks. From states that hold the same map of such records, any sequence of reads,
    writes, deletions and listings of them that the three databases carry out
    without an error gets the same answers from the three, listings in the same
    order included, and leaves them holding the same map. *)
Theorem stores_agree
    {DB1 Tx} {db1 : TxDB DB1 Tx} {tx1 : TxLaws DB1 Tx} {bolt : Bbolt Tx} {bl : BboltLaws Tx}
    {DB2 Txn Item} {db2 : TxDB DB2 Txn} {tx2 : TxLaws DB2 Txn} {badger : Badger Txn Item} {gl : BadgerLaws Txn Item}
    {Cli} {cli : Etcd Cli} {el : EtcdLaws Cli} (dbpath : string)
    cs m s1 s2 s3 rs1 rs2 rs3 s1' s2' s3' :
  Forall good_call cs → good_map m → bolt_holds s1 m → badger_holds s2 m → etcd_holds dbpath s3 m →
  do_calls (st := boltStorage) cs s1 = (rs1, s1') → Forall2 answered cs rs1 →
  do_calls (st := badgerStorage) cs s2 = (rs2, s2') → Forall2 answered cs rs2 →
  do_calls (st := etcdStorage dbpath) cs s3 = (rs3, s3') → Forall2 answered cs rs3 →
  rs1 = rs2 ∧ rs2 = rs3 ∧
  ∃ m', map_runs m cs rs1 m' ∧ good_map m' ∧ bolt_holds s1' m' ∧ badger_holds s2' m' ∧ etcd_holds dbpath s3' m'.
Proof.
  intros Hc Hm H1 H2 H3 R1 A1 R2 A2 R3 A3.
  destruct (calls_refine (spec := bolt_spec) cs rs1 s1 s1' m) as (m1 & M1 & G1 & K1); [done..|].
  destruct (calls_refine (spec := badger_spec) cs rs2 s2 s2' m) as (m2 & M2 & G2 & K2); [done..|].
  destruct (calls_refine (spec := etcd_spec dbpath) cs rs3 s3 s3' m) as (m3 & M3 & G3 & K3); [done..|].
  destruct (map_runs_det _ _ _ _ _ _ M1 M2) as [-> ->]. destruct (map_runs_det _ _ _ _ _ _ M2 M3) as [-> ->].
  split_and!; [done..|]. by exists m3.
Qed.

(** * The records *)

(** [json.Marshal] and [json.Unmarshal] of a kind of record. *)
Class Codec (A : Type) := {
  Marshal : A → res string;
  Unmarshal : string → res A
}.

Section records.
Context {S : Type} {st : Storager S} {A : Type} {codec : Codec A} (dir : string).

Definition record_key (id : string) : string := dir +:+ String "/" id.

Definition record_List : M S (list A) :=
  data ← List (record_key "");
  lift (foldM (λ us d, u ← Unmarshal d; Ok (us ++ [u])) [] data).

Definition record_Get (id : string) : M S A := data ← Get (record_key id); lift (Unmarshal data).
Definition record_Set (id : string) (val : A) : M S unit := data ← lift (Marshal val); Set_ (record_key id) data.
Definition record_Delete (id : string) : M S unit := Delete (record_key id).
End records.

Section kinds.
Context {S : Type} {st : Storager S}.

(** metadata.KV keeps bytes as they are. *)
Definition KV_List : M S (list string) := List "/kv/".
Definition KV_Get (key : string) : M S string := Get (record_key "/kv" key).
Definition KV_Set (key val : string) : M S unit := Set_ (record_key "/kv" key) val.
Definition KV_Delete (key : string) : M S unit := Delete (record_key "/kv" key).

(** metadata.Index is given the text of an index. *)
Definition Index_ListNames : M S (list string) := ListKeys "/index/".
Definition Index_Set (id data : string) : M S unit := Set_ (record_key "/index" id) data.
Definition Index_Delete (id : string) : M S unit := Delete (record_key "/index" id).

(** metadata.Alias is one record. *)
Definition Alias_Set {codec : Codec (gmap string (list string))} (data : gmap string (list string)) : M S unit :=
  buf ← lift (Marshal data); Set_ "/aliases/alias" buf.
Definition Alias_Get {codec : Codec (gmap string (list string))} : M S (gmap string (list string)) :=
  data ← List "/aliases/";
  match data with [] => mret ∅ | d :: _ => lift (Unmarshal d) end.
End kinds.

(** No directory lies below another. *)
Lemma record_dir dir dir' n n' :
  dir ∈ metadata_dirs → dir' ∈ metadata_dirs → cut_prefix (dir' +:+ "/") (record_key dir n) = Some n' → dir' = dir ∧ n' = n.
Proof.
  intros Hd Hd' E%cut_prefix_spec. unfold metadata_dirs, record_key in *. set_unfold.
  destruct_or?; subst; cbv [String.append] in E; split; congruence.
Qed.

Lemma record_key_good dir n : dir ∈ metadata_dirs → slashed n = false → plain n → good_key (record_key dir n).
Proof. intros Hd Hn Hp. split; [apply slashed_app|]. intros dir' n' Hd' E. by destruct (record_dir dir dir' n n') as [-> ->]. Qed.

(** metadata.Permission: a list without repetitions. *)
Definition Permission_Add (v : string) (ps : list string) : list string := if decide (v ∈ ps) then ps else ps ++ [v].

(** ** Directories of records *)

(** What is read back is what was written, for texts in UTF-8: these come from
    JSON texts themselves. *)
Class CodecLaws (A : Type) {codec : Codec A} := {
  codec_law a d : Marshal a = Ok d → Unmarshal d = Ok a
}.

Section directory.
Context {S : Type} {st : Storager S} {spec : StoreSpec S} {A : Type} {codec : Codec A} {codec_ok : CodecLaws A}.
Context (dir : string) (ID : A → string) (Hdir : dir ∈ metadata_dirs).

Definition decodes (id : string) (o : option string) (oa : option A) : Prop :=
  match o with Some d => ∃ a, oa = Some a ∧ Unmarshal d = Ok a ∧ ID a = id | None => oa = None end.

(** The directory holds the records [am], each under its id. *)
Definition dir_holds (m : gmap string string) (am : gmap string A) : Prop :=
  (∀ id, decodes id (m !! record_key dir id) (am !! id)) ∧
  (∀ id, is_Some (am !! id) → slashed id = false).

Lemma record_key_inj id id' : record_key dir id = record_key dir id' → id = id'.
Proof. unfold record_key. intros E%append_inj. congruence. Qed.

Lemma dir_holds_insert m am id a d : Unmarshal d = Ok a → ID a = id → slashed id = false →
  dir_holds m am → dir_holds (<[record_key dir id := d]> m) (<[id := a]> am).
Proof.
  intros Hd Hid Hs [Hm Ham]. split; intros id'; (destruct (decide (id' = id)) as [->|Hne]; [|rewrite (lookup_insert_ne am) by done]).
  - rewrite !lookup_insert_eq. by exists a.
  - rewrite lookup_insert_ne; [apply Hm|intros E%record_key_inj; congruence].
  - done.
  - apply Ham.
Qed.

Lemma dir_holds_delete m am id : dir_holds m am → dir_holds (delete (record_key dir id) m) (delete id am).
Proof.
  intros [Hm Ham]. split; intros id'; (destruct (decide (id' = id)) as [->|Hne]; [|rewrite (lookup_delete_ne am) by done]).
  - by rewrite !lookup_delete_eq.
  - rewrite lookup_delete_ne; [apply Hm|intros E%record_key_inj; congruence].
  - rewrite lookup_delete_eq. by intros [].
  - apply Ham.
Qed.

(** A write elsewhere. *)
Lemma dir_holds_other m am k (o : option string) :
  cut_prefix (dir +:+ "/") k = None → dir_holds m am → dir_holds (partial_alter (λ _, o) k m) am.
Proof.
  intros Hk [Hm Ham]. split; [|done]. intros id. rewrite lookup_partial_alter_ne; [apply Hm|].
  intros ->. unfold record_key in Hk. by rewrite <-(dir_name dir id), cut_prefix_app in Hk.
Qed.

Lemma record_Get_ok id s m am : holds s m → dir_holds m am → ∃ s', holds s' m ∧
  (record_Get dir id s = (match am !! id with Some a => Ok a | None => Err ErrKeyNotFound end, s') ∨
   ∃ e, failure e ∧ record_Get dir id s = (Err e, s')).
Proof.
  intros Hh [Hm _]. unfold record_Get, mbind, M_bind, lift.
  destruct (Get_ok (record_key dir id) s m (slashed_app _ _) Hh) as (s' & Hh' & [->|(e & He & ->)]); exists s'; (split; [done|]);
    [|right; by exists e].
  left. specialize (Hm id). destruct (m !! record_key dir id) as [d|]; [|by rewrite Hm]. by destruct Hm as (a & -> & -> & _).
Qed.

Lemma record_Set_ok id a s m am : holds s m → dir_holds m am → ID a = id → slashed id = false → ∀ s', record_Set dir id a s = (Ok tt, s') →
  ∃ d, holds s' (<[record_key dir id := d]> m) ∧ dir_holds (<[record_key dir id := d]> m) (<[id := a]> am).
Proof.
  intros Hh Hd Hid Hs s'. unfold record_Set, mbind, M_bind, lift. destruct (Marshal a) as [d|e|p] eqn:Hma; [|done..].
  destruct (Set_ok (record_key dir id) d s m (slashed_app _ _) Hh) as (s1 & [[-> Hh1]|(e & -> & _)]); [|done].
  intros [= <-]. exists d. split; [done|]. apply dir_holds_insert; [by apply codec_law|done..].
Qed.

Lemma record_Delete_ok id s m am : holds s m → dir_holds m am → ∀ s', record_Delete dir id s = (Ok tt, s') →
  holds s' (delete (record_key dir id) m) ∧ dir_holds (delete (record_key dir id) m) (delete id am).
Proof.
  intros Hh Hd s'. unfold record_Delete.
  destruct (Delete_ok (record_key dir id) s m (slashed_app _ _) Hh) as (s1 & [[-> Hh1]|(e & -> & _)]); [|done].
  intros [= <-]. split; [done|by apply dir_holds_delete].
Qed.

Lemma decode_loop_ok (us : list A) ds : Forall2 (λ d u, Unmarshal d = Ok u) ds us → ∀ acc,
  foldM (λ us d, u ← Unmarshal d; Ok (us ++ [u])) acc ds = Ok (acc ++ us).
Proof.
  induction 1 as [|d u ds us Hd Hl IH]; intros acc; [by rewrite app_nil_r|]. cbn [foldM]. rewrite Hd. cbn. rewrite IH, <-app_assoc. done.
Qed.

(** A listing reads every record, once. *)
Lemma record_List_ok s m am : holds s m → dir_holds m am → ∃ s', holds s' m ∧
  ((∃ us, record_List dir s = (Ok us, s') ∧ (λ u, (ID u, u)) <$> us ≡ₚ map_to_list am) ∨
   ∃ e, record_List dir s = (Err e, s') ∧ List (dir +:+ "/") s = (Err e, s')).
Proof.
  intros Hh [Hm Ham]. unfold record_List, mbind, M_bind, lift. destruct (List_ok dir s m Hh) as (s' & Hh' & Hl). exists s'. split; [done|].
  unfold record_key. destruct Hl as [(l & Hp & Hs & Hl)|[e Hl]]; rewrite Hl; [left|right; by exists e].
  assert (∀ kv, kv ∈ l → ∃ a, kv.1 = record_key dir (ID a) ∧ Unmarshal kv.2 = Ok a ∧ am !! ID a = Some a) as Hrec.
  { intros [k d]. rewrite Hp, listed_elem. unfold in_dir. intros [Hk Hi]. destruct (cut_prefix _ k) as [n|] eqn:Hn; [|done].
    apply cut_prefix_spec in Hn as ->. rewrite dir_name in *. specialize (Hm n). unfold record_key in Hm. rewrite Hk in Hm.
    destruct Hm as (a & Ha & Hd & <-). by exists a. }
  assert (∃ us, Forall2 (λ kv u, kv.1 = record_key dir (ID u) ∧ Unmarshal kv.2 = Ok u ∧ am !! ID u = Some u) l us) as [us Hus].
  { clear Hp Hs Hl. induction l as [|kv l IH]; [by exists []|]. destruct IH as [us Hus]; [intros; apply Hrec; by right|].
    destruct (Hrec kv) as (a & Ha); [by left|]. exists (a :: us). by constructor. }
  exists us. split.
  { f_equal. rewrite (decode_loop_ok us) by (clear -Hus; induction Hus as [|kv u l us (_ & Hd & _) Hl IH]; constructor; done). done. }
  assert (l.*1 = record_key dir <$> (ID <$> us)) as Hkeys.
  { clear -Hus. induction Hus as [|kv u l us (Hk & _ & _) Hl IH]; [done|]. cbn. by rewrite Hk, IH. }
  assert (NoDup (ID <$> us)) as Hnd.
  { eapply NoDup_fmap_1. rewrite <-Hkeys, Hp. apply NoDup_fmap_filter, NoDup_fst_map_to_list. }
  apply NoDup_Permutation; [|apply NoDup_map_to_list|].
  { eapply (NoDup_fmap_1 fst). by rewrite <-list_fmap_compose. }
  intros [id a]. rewrite elem_of_map_to_list, list_elem_of_fmap. split.
  - intros (u & [= -> ->] & Hu). apply list_elem_of_lookup in Hu as [i Hi]. destruct (Forall2_lookup_r _ _ _ _ _ Hus Hi) as (kv & _ & _ & _ & ?). done.
  - intros Ha. pose proof (Ham id ltac:(by eexists)) as Hid. pose proof (Hm id) as Hmi. destruct (m !! record_key dir id) as [d|] eqn:Hk; [|congruence].
    destruct Hmi as (a' & Ha' & Hd & HID). rewrite Ha in Ha'. injection Ha' as <-. subst id. exists a. split; [done|].
    assert (record_key dir (ID a) ∈ l.*1) as Hin.
    { rewrite list_elem_of_fmap. exists (record_key dir (ID a), d). split; [done|]. rewrite Hp, listed_elem. split; [done|].
      unfold in_dir, record_key. rewrite <-(dir_name dir (ID a)), cut_prefix_app, Hid. apply orb_true_r. }
    rewrite Hkeys in Hin. apply list_elem_of_fmap in Hin as (id & E%record_key_inj & Hin). apply list_elem_of_fmap in Hin as (u & -> & Hu).
    apply list_elem_of_lookup in Hu as Hi. destruct Hi as [i Hi]. destruct (Forall2_lookup_r _ _ _ _ _ Hus Hi) as (kv & _ & _ & _ & Hu'). congruence.
Qed.
End directory.

(** * Concrete databases *)

Module StoreDemo.

Definition in_order (m : gmap string string) : list (string * string) := order_sort by_key (map_to_list m).

Lemma in_order_perm m : in_order m ≡ₚ map_to_list m.
Proof. apply order_sort_perm. Qed.
Lemma in_order_sorted m : sorted by_key (in_order m).
Proof. apply order_sort_sorted, _. Qed.

(** A database whose transactions all succeed. *)
#[export] Instance mem_db V : TxDB V V :=
  {| View := λ A f s, (f s, s);
     Update := λ f s, match f s with Ok s' => (Ok tt, s') | Err e => (Err e, s) | Panic p => (Panic p, s) end |}.
#[export] Instance mem_laws V : TxLaws V V.
Proof.
  refine {| held s := s |}.
  - intros A f s. cbn. exists s. split; [done|by left].
  - intros f s Hp. cbn in *. destruct (f s) as [s'|e|p] eqn:Hf; [exists s'; by left|exists s; right; by exists e|done].
Defined.

Abbreviation tree := (gmap string (gmap string string)).

#[export] Instance mem_bolt : Bbolt tree := {|
  tx_Bucket tx b := bool_decide (is_Some (tx !! b));
  tx_CreateBucketIfNotExists b tx := if decide (b = "") then Err "bucket name required" else Ok (<[b := default ∅ (tx !! b)]> tx);
  b_Cursor tx b := in_order (default ∅ (tx !! b));
  b_Get tx b n := tx !! b ≫= λ bm, bm !! n;
  b_Put b n v tx := if decide (n = "") then Err "key required" else Ok (<[b := <[n := v]> (default ∅ (tx !! b))]> tx);
  b_Delete b n tx := Ok (<[b := delete n (default ∅ (tx !! b))]> tx)
|}.
#[export] Instance mem_bolt_laws : BboltLaws tree.
Proof.
  refine {| buckets tx := tx |}.
  - done.
  - intros b tx. cbn. case_decide; [left; by eexists|right; by eexists].
  - intros tx b bm Hb. cbn [b_Cursor mem_bolt]. rewrite Hb. split; [apply in_order_perm|apply in_order_sorted].
  - intros tx b bm n Hb. cbn in *. by rewrite Hb.
  - intros b n v tx bm Hb. cbn in *. rewrite Hb. case_decide; [left; by eexists|right; by eexists].
  - intros b n tx bm Hb. cbn in *. rewrite Hb. right. by eexists.
Defined.

#[export] Instance mem_badger : Badger (gmap string string) (string * string) := {|
  txn_Get txn k := match txn !! k with Some v => Ok (k, v) | None => Err badger_ErrKeyNotFound end;
  txn_Set k v txn := Ok (<[k := v]> txn);
  txn_Delete k txn := Ok (delete k txn);
  txn_Seek txn pre := filter (λ kv, String.ltb kv.1 pre = false) (in_order txn);
  KeyCopy := fst;
  ValueCopy it := Ok it.2
|}.
#[export] Instance mem_badger_laws : BadgerLaws (gmap string string) (string * string).
Proof.
  refine {| pairs txn := txn |}.
  - intros txn k. cbn. destruct (txn !! k) as [v|] eqn:E; [|by left]. right. left. exists v, (k, v). split_and!; [done..|split; [done|by left]].
  - intros k v txn. right. by eexists.
  - intros k txn. right. by eexists.
  - intros txn pre. cbn. exists (filter (λ kv, String.ltb kv.1 pre = false) (in_order txn)).
    split_and!; [by rewrite in_order_perm|apply sorted_filter, in_order_sorted|]. apply Forall_Forall2_diag, Forall_forall. intros kv _. by split; [|left].
Defined.

#[export] Instance mem_etcd : Etcd (gmap string string) := {|
  cli_Get k s := (Ok (match s !! k with Some v => [(k, v)] | None => [] end), s);
  cli_GetPrefix pre s := (Ok (filter (λ kv, is_Some (cut_prefix pre kv.1)) (in_order s)), s);
  cli_Put k v s := (Ok tt, <[k := v]> s);
  cli_Delete k s := (Ok tt, delete k s)
|}.
#[export] Instance mem_etcd_laws : EtcdLaws (gmap string string).
Proof.
  refine {| etcd_keys s := s |}.
  - intros k s. exists s. split; [done|by left].
  - intros pre s. exists s. split; [done|]. left. exists (filter (λ kv, is_Some (cut_prefix pre kv.1)) (in_order s)).
    split_and!; [by rewrite in_order_perm|apply sorted_filter, in_order_sorted|done].
  - intros k v s. eexists _, _. split; [done|by left].
  - intros k s. eexists _, _. split; [done|by left].
Defined.

(** Two users, one of them renamed, then removed. *)
Definition calls : list call :=
  [CSet "/user/bob" "Bob"; CSet "/user/ann" "Ann"; CSet "/role/ops" "Ops"; CList "/user"; CListKeys "/user";
   CGet "/user/ann"; CSet "/user/ann" "Anna"; CDelete "/user/bob"; CGet "/user/bob"; CList "/user"].

Definition replies : list (res (list string)) :=
  [Ok []; Ok []; Ok []; Ok ["Ann"; "Bob"]; Ok ["ann"; "bob"];
   Ok ["Ann"]; Ok []; Ok []; Err ErrKeyNotFound; Ok ["Anna"]].

Lemma calls_good : Forall good_call calls.
Proof.
  unfold calls, metadata_dirs. repeat constructor; cbn [good_call];
    first [apply (record_key_good "/user" "bob")|apply (record_key_good "/user" "ann")|apply (record_key_good "/role" "ops")|unfold metadata_dirs; set_solver];
    first [unfold metadata_dirs; set_solver|done|split; done].
Qed.

Lemma stores_agree_witness :
  do_calls (st := boltStorage) calls ∅ = (replies, {["/user" := {["ann" := "Anna"]}; "/role" := {["ops" := "Ops"]}]}) ∧
  ∃ m', map_runs ∅ calls replies m' ∧ good_map m' ∧
    badger_holds {["/user/ann" := "Anna"; "/role/ops" := "Ops"]} m' ∧
    etcd_holds "/zinc/metadata" {["/zinc/metadata/user/ann" := "Anna"; "/zinc/metadata/role/ops" := "Ops"]} m'.
Proof.
  assert (Forall2 answered calls replies) as Ha by (repeat constructor; by eexists).
  split; [vm_compute; reflexivity|].
  destruct (stores_agree "/zinc/metadata" calls ∅ (∅ : tree) (∅ : gmap string string) (∅ : gmap string string) replies replies replies
    {["/user" := {["ann" := "Anna"]}; "/role" := {["ops" := "Ops"]}]} {["/user/ann" := "Anna"; "/role/ops" := "Ops"]}
    {["/zinc/metadata/user/ann" := "Anna"; "/zinc/metadata/role/ops" := "Ops"]}) as (_ & _ & m' & Hr & Hg & _ & Hb & He);
    [..|exists m'; exact (conj Hr (conj Hg (conj Hb He)))].
  - apply calls_good.
  - by intros k v Hk%lookup_empty_Some.
  - split; [|intros b bm n v Hb; by vm_compute in Hb]. intros k. by destruct (cut_last k) as [[]|].
  - done.
  - by intros k.
  - vm_compute; reflexivity.
  - exact Ha.
  - vm_compute; reflexivity.
  - exact Ha.
  - vm_compute; reflexivity.
  - exact Ha.
Defined.

(** A name with a slash is a name in another bucket: bbolt gives the record back
    and does not list it, badger and etcd list it. *)
Lemma nested_records_not_listed :
  let calls := [CSet "/user/team/ann" "Ann"; CGet "/user/team/ann"; CList "/user"] in
  (do_calls (st := boltStorage) calls (∅ : tree)).1 = [Ok []; Ok ["Ann"]; Ok []] ∧
  (do_calls (st := badgerStorage) calls (∅ : gmap string string)).1 = [Ok []; Ok ["Ann"]; Ok ["Ann"]] ∧
  (do_calls (st := etcdStorage "/zinc/metadata") calls (∅ : gmap string string)).1 = [Ok []; Ok ["Ann"]; Ok ["Ann"]].
Proof. by vm_compute. Qed.
End StoreDemo.

(** [splitBucketAndKey] needs a slash. *)
Lemma key_without_slash_panics : splitBucketAndKey "alias" = Panic PSlice.
Proof. reflexivity. Qed.
