(* ===== verification/Auth.v ===== *)
(** Users, roles and permissions (pkg/auth), the handlers that manage them
    (pkg/handlers/auth) and the middleware that lets requests through
    (pkg/routes/middleware.go), over the metadata store. *)
From Stdlib Require Import Ascii.
From S2P Require Import Prelude Hash Strconv Value Query Shards Merge TextOrder Base62 Metastore.

(** * pkg/meta *)

Record User := mkUser {
  u_ID : string; u_Name : string; u_Role : string; u_Salt : string; u_Password : string; u_CreatedAt : Z; u_UpdatedAt : Z
}.
Record Role := mkRole {
  r_ID : string; r_Name : string; r_Role : string; r_Permission : list string; r_CreatedAt : Z; r_UpdatedAt : Z
}.

#[global] Instance User_eq_dec : EqDecision User.
Proof. solve_decision. Defined.

(** * State *)

(** The store, ZINC_CACHED_USERS, ZINC_CACHED_PERMISSIONS and _cacheGeneratePassword. *)
Record Auth (S : Type) := mkAuth {
  store : S;
  cachedUsers : gmap string User;
  cachedPermissions : gmap string (gset string);
  cacheGeneratePassword : gmap string string
}.
Arguments mkAuth {S}.
Arguments store {S}.
Arguments cachedUsers {S}.
Arguments cachedPermissions {S}.
Arguments cacheGeneratePassword {S}.

(** [strArrayToMap]. *)
Definition strArrayToMap (ss : list string) : gset string := list_to_set ss.

(** [base64.StdEncoding.EncodeToString]. *)
Definition base64_chars : string := "ABCDEFGHIJKLMNOPQRSTUVWXYZabcdefghijklmnopqrstuvwxyz0123456789+/".
Definition base64_char (i : Z) : ascii := nth (Z.to_nat i) (String.list_ascii_of_string base64_chars) "A"%char.
Fixpoint base64 (bs : list Z) : string :=
  match bs with
  | [] => EmptyString
  | [a] => String (base64_char (Z.shiftr a 2)) (String (base64_char (Z.shiftl (Z.land a 3) 4)) "==")
  | [a; b] =>
      String (base64_char (Z.shiftr a 2)) (String (base64_char (Z.lor (Z.shiftl (Z.land a 3) 4) (Z.shiftr b 4)))
        (String (base64_char (Z.shiftl (Z.land b 15) 2)) "="))
  | a :: b :: c :: bs =>
      String (base64_char (Z.shiftr a 2)) (String (base64_char (Z.lor (Z.shiftl (Z.land a 3) 4) (Z.shiftr b 4)))
        (String (base64_char (Z.lor (Z.shiftl (Z.land b 15) 2) (Z.shiftr c 6))) (String (base64_char (Z.land c 63)) (base64 bs))))
  end.

Example base64_foobar : base64 <$> [bytes "f"; bytes "fo"; bytes "foo"; bytes "foobar"] = ["Zg=="; "Zm8="; "Zm9v"; "Zm9vYmFy"].
Proof. reflexivity. Qed.

(** [GenerateSalt]: [ider.Generate], the number of a snowflake in base 62. *)
Definition GenerateSalt (snowflake : Z) : string := Encode snowflake.

Section auth.
Context {S : Type} {st : Storager S} {users_codec : Codec User} {roles_codec : Codec Role}.
(** [sha256.Sum256] and [argon2.IDKey] with the parameters of the source. *)
Context (Sum256 : string → list Z) (IDKey : string → string → list Z).

Definition on_store {A} (m : M S A) : M (Auth S) A := λ a,
  let '(r, s) := m (store a) in (r, mkAuth s (cachedUsers a) (cachedPermissions a) (cacheGeneratePassword a)).
Definition set_users (us : gmap string User) (a : Auth S) : Auth S := mkAuth (store a) us (cachedPermissions a) (cacheGeneratePassword a).
Definition set_permissions (pm : gmap string (gset string)) (a : Auth S) : Auth S := mkAuth (store a) (cachedUsers a) pm (cacheGeneratePassword a).

(** * metadata.User and metadata.Role *)

Definition User_List : M S (list User) := record_List "/user".
Definition User_Get (id : string) : M S User := record_Get "/user" id.
Definition User_Set (id : string) (val : User) : M S unit := record_Set "/user" id val.
Definition User_Delete (id : string) : M S unit := record_Delete "/user" id.
Definition Role_List : M S (list Role) := record_List "/role".
Definition Role_Get (id : string) : M S Role := record_Get "/role" id.
Definition Role_Set (id : string) (val : Role) : M S unit := record_Set "/role" id val.
Definition Role_Delete (id : string) : M S unit := record_Delete "/role" id.

(** * cached_users.go, role.go: the caches *)

Definition Users_Set (userID : string) (user : User) : M (Auth S) unit := modify (λ a, set_users (<[userID := user]> (cachedUsers a)) a).
Definition Users_Put (users : list User) : M (Auth S) unit :=
  modify (set_users (foldl (λ m u, <[u_ID u := u]> m) ∅ users)).

Definition Permissions_Set (id : string) (pm : gset string) : M (Auth S) unit :=
  modify (λ a, set_permissions (<[id := pm]> (cachedPermissions a)) a).
Definition Permissions_Delete (id : string) : M (Auth S) unit :=
  modify (λ a, set_permissions (delete id (cachedPermissions a)) a).
Definition Permissions_Put (roles : list Role) : M (Auth S) unit :=
  modify (set_permissions (foldl (λ m r, <[r_ID r := strArrayToMap (r_Permission r)]> m) ∅ roles)).

(** * createuser.go *)

Definition hash_key (password salt : string) : string := Hash.EncodeToString (Sum256 (password +:+ String ":" salt)).
Definition derive (password salt : string) : string := base64 (IDKey password salt).

(** Derived passwords are kept by the hash of the password and its salt. *)
Definition GeneratePassword (password salt : string) : M (Auth S) string := λ a,
  let key := hash_key password salt in
  match cacheGeneratePassword a !! key with
  | Some v => (Ok v, a)
  | None =>
      let val := derive password salt in
      (Ok val, mkAuth (store a) (cachedUsers a) (cachedPermissions a) (<[key := val]> (cacheGeneratePassword a)))
  end.

Definition GetUser (id : string) : M (Auth S) User :=
  if decide (id = "") then raise (error_new "invalid_argument" "user id is required")
  else on_store (User_Get id).
Definition SetUser (id : string) (user : User) : M (Auth S) unit := on_store (User_Set id user).
Definition GetUsers : M (Auth S) (list User) := on_store (User_List).

(** The two branches of [CreateUser] before the user is saved. *)
Definition changed_user (existing : User) (name plaintextPassword role salt : string) (now : Z) : M (Auth S) User :=
  sp ← (if decide (plaintextPassword = "") then mret (u_Salt existing, u_Password existing)
        else pw ← GeneratePassword plaintextPassword salt; mret (salt, pw));
  mret (mkUser (u_ID existing) name role sp.1 sp.2 (u_CreatedAt existing) now).
Definition new_user (id name plaintextPassword role salt : string) (created now : Z) : M (Auth S) User :=
  pw ← GeneratePassword plaintextPassword salt; mret (mkUser id name role salt pw created now).

Definition made_user (existing : option User) (id name plaintextPassword role salt : string) (created now : Z) : M (Auth S) User :=
  match existing with
  | Some user => changed_user user name plaintextPassword role salt now
  | None => new_user id name plaintextPassword role salt created now
  end.

(** [GetUser] as [CreateUser] uses it: a user that is not there is no error. *)
Definition find {X} (get : M (Auth S) X) : M (Auth S) (option X) := λ a,
  match get a with
  | (Ok x, a) => (Ok (Some x), a)
  | (Err e, a) => if decide (e = ErrKeyNotFound) then (Ok None, a) else (Err e, a)
  | (Panic p, a) => (Panic p, a)
  end.

Definition CreateUser (id name plaintextPassword role salt : string) (created now : Z) : M (Auth S) User :=
  let id := ToLower id in
  existing ← find (GetUser id);
  newUser ← made_user existing id name plaintextPassword role salt created now;
  _ ← SetUser (u_ID newUser) newUser;
  _ ← Users_Set (u_ID newUser) newUser;
  mret newUser.

(** deleteuser.go. *)
Definition DeleteUser (id : string) : M (Auth S) unit := on_store (User_Delete (ToLower id)).

(** * role.go *)

Definition GetRoles : M (Auth S) (list Role) := on_store (Role_List).
Definition GetRole (id : string) : M (Auth S) Role :=
  if decide (id = "") then raise (error_new "invalid_argument" "role id is required")
  else on_store (Role_Get id).
Definition SetRole (id : string) (role : Role) : M (Auth S) unit := on_store (Role_Set id role).

Definition CreateRole (id name : string) (permissions : list string) (created now : Z) : M (Auth S) Role :=
  let id := ToLower id in
  if decide (id = "admin") then raise (error_new "invalid_argument" "role id admin not allowed") else
  existing ← find (GetRole id);
  let newRole := match existing with
                 | Some r => mkRole (r_ID r) name (r_Role r) permissions (r_CreatedAt r) now
                 | None => mkRole id name "" permissions created now
                 end in
  _ ← SetRole (r_ID newRole) newRole;
  _ ← Permissions_Set (r_ID newRole) (strArrayToMap permissions);
  mret newRole.

Definition DeleteRole (id : string) : M (Auth S) unit :=
  let id := ToLower id in
  _ ← Permissions_Delete id;
  on_store (Role_Delete id).

(** * auth.go *)

Definition VerifyCredentials (userID password : string) : M (Auth S) (option User) :=
  a ← get;
  match cachedUsers a !! ToLower userID with
  | None => mret None
  | Some user =>
      incomingEncryptedPassword ← GeneratePassword password (u_Salt user);
      mret (if decide (incomingEncryptedPassword = u_Password user) then Some user else None)
  end.

Definition VerifyRoleHasPermission (roleId permission : string) (a : Auth S) : bool :=
  let roleId := ToLower roleId in
  if decide (roleId = "admin") then true
  else match cachedPermissions a !! roleId with
       | None => false
       | Some pm => bool_decide (permission ∈ pm)
       end.

(** * firststart.go *)

(** A failure to read the users is logged and counts as a first start. *)
Definition isFirstStart : M (Auth S) bool := λ a,
  match GetUsers a with
  | (Ok [], a) => (Ok true, a)
  | (Ok users, a) => (_ ← forM (λ u, Users_Set (u_ID u) u) users; mret false) a
  | (Err e, a) => (Ok true, a)
  | (Panic p, a) => (Panic p, a)
  end.

Definition initPermissionCache : M (Auth S) unit :=
  roles ← GetRoles; forM (λ r, Permissions_Set (r_ID r) (strArrayToMap (r_Permission r))) roles.

Definition initFirstUser (adminUser adminPassword salt : string) (created now : Z) : M (Auth S) unit :=
  if decide (adminUser = "" ∨ adminPassword = "")
  then raise "ZINC_FIRST_ADMIN_USER and ZINC_FIRST_ADMIN_PASSWORD must be set on first start. You should also change the credentials after first login"
  else _ ← CreateUser adminUser adminUser adminPassword "admin" salt created now; mret tt.

(** [log.Fatal] ends the process. *)
Definition fatal {A} (m : M (Auth S) A) : M (Auth S) A := λ a,
  match m a with (Err e, a) => (Panic (PExplicit e), a) | ra => ra end.
(** Errors are printed. *)
Definition printed (m : M (Auth S) unit) : M (Auth S) unit := λ a,
  match m a with (Err e, a) => (Ok tt, a) | ra => ra end.

Definition InitFirstUser (adminUser adminPassword salt : string) (created now : Z) : M (Auth S) unit :=
  firstStart ← isFirstStart;
  _ ← (if firstStart : bool then fatal (initFirstUser adminUser adminPassword salt created now) else mret tt);
  printed initPermissionCache.

(** * cached_users.go: what a notice of the cluster does *)

Definition userUpdate : M (Auth S) unit := users ← GetUsers; Users_Put users.
Definition roleUpdate : M (Auth S) unit := roles ← GetRoles; Permissions_Put roles.

(** * routes/middleware.go *)

Inductive verdict : Type := Next | Abort (status : Z) (message : string).

Definition AuthMiddleware (permission : string) (BasicAuth : option (string * string)) : M (Auth S) verdict :=
  match BasicAuth with
  | None => mret (Abort 401 "Missing credentials")
  | Some (user, password) =>
      ok ← VerifyCredentials user password;
      match ok with
      | None => mret (Abort 401 "Invalid credentials")
      | Some u =>
          a ← get;
          mret (if VerifyRoleHasPermission (u_Role u) permission a then Next else Abort 403 ("No permission:" +:+ permission))
      end
  end.

(** * handlers/auth *)

Inductive reply : Type :=
  | RError (status : Z) (error : string)
  | RID (message id : string)
  | RLogin (validated : bool) (id name role : string)
  | RUsers (users : list User)
  | RRoles (roles : list Role).

(** The answer of a call that may fail: status 500 with the error. *)
Definition answer {X} (m : M (Auth S) X) (f : X → reply) : M (Auth S) reply := λ a,
  match m a with
  | (Ok x, a) => (Ok (f x), a)
  | (Err e, a) => (Ok (RError 500 e), a)
  | (Panic p, a) => (Panic p, a)
  end.

(** The decoded bodies are [res]: an error of [GinBindJSON] is status 400. *)
Definition Login (loginInput : res (string * string)) : M (Auth S) reply :=
  match loginInput with
  | Ok (id, password) =>
      u ← VerifyCredentials id password;
      mret (match u with Some u => RLogin true (u_ID u) (u_Name u) (u_Role u) | None => RLogin false "" "" "" end)
  | Err e => mret (RError 400 e)
  | Panic p => crash p
  end.

Definition CreateUpdateUser (user : res User) (salt : string) (created now : Z) : M (Auth S) reply :=
  match user with
  | Ok u =>
      if decide (u_ID u = "") then mret (RError 400 "user.id should be not empty")
      else answer (CreateUser (u_ID u) (u_Name u) (u_Password u) (u_Role u) salt created now) (λ u, RID "ok" (u_ID u))
  | Err e => mret (RError 400 e)
  | Panic p => crash p
  end.

(** Salts and passwords are taken off the copies that were read. *)
Definition ListUser : M (Auth S) reply :=
  answer GetUsers (λ us, RUsers ((λ u, mkUser (u_ID u) (u_Name u) (u_Role u) "" "" (u_CreatedAt u) (u_UpdatedAt u)) <$> us)).

Definition DeleteUser_handler (id : string) : M (Auth S) reply := answer (DeleteUser id) (λ _, RID "deleted" id).

Definition CreateUpdateRole (role : res Role) (created now : Z) : M (Auth S) reply :=
  match role with
  | Ok r =>
      if decide (r_ID r = "") then mret (RError 400 "role.id should be not empty")
      else answer (CreateRole (r_ID r) (r_Name r) (r_Permission r) created now) (λ r, RID "ok" (r_ID r))
  | Err e => mret (RError 400 e)
  | Panic p => crash p
  end.

Definition ListRole : M (Auth S) reply := answer GetRoles RRoles.
Definition DeleteRole_handler (id : string) : M (Auth S) reply := answer (DeleteRole id) (λ _, RID "deleted" id).
End auth.

(** * What the accounts are *)

(** The users and the roles that are stored, and the users that were deleted and
    are still in memory. *)
Record accounts := mkAccounts {
  a_users : gmap string User;
  a_gone : gmap string User;
  a_roles : gmap string Role
}.

Inductive action : Type :=
  | ACreateUser (id name password role salt : string) (created now : Z)
  | ADeleteUser (id : string)
  | ACreateRole (id name : string) (permissions : list string) (created now : Z)
  | ADeleteRole (id : string)
  | AUserUpdate | ARoleUpdate
  | ARequest (permission : string) (BasicAuth : option (string * string)).

Section accounts.
Context (IDKey : string → string → list Z).

Definition created_user (old : option User) (id name password role salt : string) (created now : Z) : User :=
  match old with
  | None => mkUser id name role salt (derive IDKey password salt) created now
  | Some u =>
      if decide (password = "") then mkUser id name role (u_Salt u) (u_Password u) (u_CreatedAt u) now
      else mkUser id name role salt (derive IDKey password salt) (u_CreatedAt u) now
  end.

Definition created_role (old : option Role) (id name : string) (permissions : list string) (created now : Z) : Role :=
  match old with
  | None => mkRole id name "" permissions created now
  | Some r => mkRole id name (r_Role r) permissions (r_CreatedAt r) now
  end.

Definition account_step (a : accounts) (x : action) : accounts :=
  match x with
  | ACreateUser id name password role salt created now =>
      let id := ToLower id in
      mkAccounts (<[id := created_user (a_users a !! id) id name password role salt created now]> (a_users a))
        (delete id (a_gone a)) (a_roles a)
  | ADeleteUser id =>
      let id := ToLower id in
      mkAccounts (delete id (a_users a)) (partial_alter (λ g, union (a_users a !! id) g) id (a_gone a)) (a_roles a)
  | ACreateRole id name permissions created now =>
      let id := ToLower id in
      mkAccounts (a_users a) (a_gone a) (<[id := created_role (a_roles a !! id) id name permissions created now]> (a_roles a))
  | ADeleteRole id => mkAccounts (a_users a) (a_gone a) (delete (ToLower id) (a_roles a))
  | AUserUpdate => mkAccounts (a_users a) ∅ (a_roles a)
  | ARoleUpdate | ARequest _ _ => a
  end.

(** The user a request may act as. *)
Definition signs_in (a : accounts) (id password : string) : option User :=
  u ← (a_users a ∪ a_gone a) !! ToLower id;
  if decide (derive IDKey password (u_Salt u) = u_Password u) then Some u else None.

Definition permits (a : accounts) (role permission : string) : bool :=
  bool_decide (ToLower role = "admin") ||
  match a_roles a !! ToLower role with Some r => bool_decide (permission ∈ r_Permission r) | None => false end.

Definition judge (a : accounts) (permission : string) (BasicAuth : option (string * string)) : verdict :=
  match BasicAuth with
  | None => Abort 401 "Missing credentials"
  | Some (id, password) =>
      match signs_in a id password with
      | None => Abort 401 "Invalid credentials"
      | Some u => if permits a (u_Role u) permission then Next else Abort 403 ("No permission:" +:+ permission)
      end
  end.

(** Ids without a slash, salts of [GenerateSalt]. *)
Definition good_action (x : action) : Prop :=
  match x with
  | ACreateUser id _ _ _ salt _ _ => slashed (ToLower id) = false ∧ contains_char ":" salt = false
  | ACreateRole id _ _ _ _ => slashed (ToLower id) = false
  | _ => True
  end.
End accounts.

Lemma Encode_no_colon n : contains_char ":" (Encode n) = false.
Proof.
  rewrite Encode_digits. assert (Forall (λ c, c ≠ ":"%char) (char_at <$> reverse (digits 64 n))) as Hf.
  { rewrite Forall_fmap, Forall_reverse. eapply Forall_impl; [apply digits_range|]. cbv beta. intros d Hd E.
    pose proof (IndexByte_char_at d Hd) as Hi. rewrite E in Hi. assert (IndexByte ":" = -1)%Z by reflexivity. lia. }
  induction Hf as [|c cs Hc Hf IH]; [done|]. cbn. rewrite bool_decide_eq_false_2 by congruence. exact IH.
Qed.

(** A separator that the second part lacks tells the parts apart. *)
Lemma app_sep_inj sep p : ∀ p' s s', contains_char sep s = false → contains_char sep s' = false →
  p +:+ String sep s = p' +:+ String sep s' → p = p' ∧ s = s'.
Proof.
  assert (∀ q t, contains_char sep (q +:+ String sep t) = true) as Hin.
  { clear. intros q t. induction q as [|c q IH]; [rewrite append_nil; cbn; by rewrite bool_decide_eq_true_2|]. rewrite append_cons. cbn. rewrite IH. apply orb_true_r. }
  induction p as [|c p IH]; intros [|d p'] s s' Hs Hs' E; rewrite ?append_nil, ?append_cons in E; injection E as ->; subst.
  - done.
  - by rewrite Hin in Hs.
  - by rewrite Hin in Hs'.
  - destruct (IH p' s s') as [-> ->]; done.
Qed.

Lemma hex_byte_inj b b' : (0 ≤ b < 256)%Z → (0 ≤ b' < 256)%Z → hex_byte b = hex_byte b' → b = b'.
Proof.
  intros Hb Hb' E. pose proof hex_prefixes_nodup as Hnd. unfold hex_prefixes in Hnd. rewrite NoDup_alt in Hnd.
  assert (∀ b, 0 ≤ b < 256 → (hex_byte <$> (Z.of_nat <$> seq 0 256)) !! Z.to_nat b = Some (hex_byte b))%Z as Hl.
  { clear. intros b Hb. rewrite !list_lookup_fmap, lookup_seq_lt by lia. cbn. do 2 f_equal. lia. }
  pose proof (Hl b Hb) as H1. rewrite E in H1. pose proof (Hnd _ _ _ H1 (Hl b' Hb')). lia.
Qed.

Lemma hex_inj bs : ∀ bs', Forall (λ b, 0 ≤ b < 256)%Z bs → Forall (λ b, 0 ≤ b < 256)%Z bs' →
  Hash.EncodeToString bs = Hash.EncodeToString bs' → bs = bs'.
Proof.
  induction bs as [|b bs IH]; intros [|b' bs']; cbn; [done..|]. intros [Hb Hbs]%Forall_cons [Hb' Hbs']%Forall_cons E.
  assert (hex_byte b = hex_byte b' ∧ Hash.EncodeToString bs = Hash.EncodeToString bs') as [E1 E2].
  { unfold hex_byte in *. rewrite !append_cons, !append_nil in E. injection E as -> -> E. done. }
  f_equal; [by apply hex_byte_inj|by apply IH].
Qed.

(** * The program keeps the accounts *)

Section refinement.
Context {S : Type} {st : Storager S} {spec : StoreSpec S}.
Context {users_codec : Codec User} {roles_codec : Codec Role} {users_ok : CodecLaws User} {roles_ok : CodecLaws Role}.
Context (Sum256 : string → list Z) (IDKey : string → string → list Z).
(** The passwords that are given and the salts that are used: no two of the
    texts made of them have the same hash. *)
Context (passwords salts : list string).
Definition text (password salt : string) : string := password +:+ String ":" salt.
Definition texts : list string := p ← passwords; text p <$> salts.
Hypothesis Sum256_bytes : ∀ x, length (Sum256 x) = 32 ∧ Forall (λ b, 0 ≤ b < 256)%Z (Sum256 x).
Hypothesis no_collision : ∀ x y, x ∈ texts → y ∈ texts → Sum256 x = Sum256 y → x = y.

Definition given (x : action) : Prop :=
  match x with
  | ACreateUser _ _ password _ salt _ _ => password ∈ passwords ∧ salt ∈ salts
  | ARequest _ (Some (_, password)) => password ∈ passwords
  | _ => True
  end.

Definition act (x : action) : M (Auth S) unit :=
  match x with
  | ACreateUser id name password role salt created now => _ ← CreateUser Sum256 IDKey id name password role salt created now; mret tt
  | ADeleteUser id => DeleteUser id
  | ACreateRole id name permissions created now => _ ← CreateRole id name permissions created now; mret tt
  | ADeleteRole id => DeleteRole id
  | AUserUpdate => userUpdate
  | ARoleUpdate => roleUpdate
  | ARequest permission BasicAuth => _ ← AuthMiddleware Sum256 IDKey permission BasicAuth; mret tt
  end.

Definition good_salt (salt : string) : Prop := contains_char ":" salt = false ∧ salt ∈ salts.

Lemma elem_of_texts p s : p ∈ passwords → s ∈ salts → p +:+ String ":" s ∈ texts.
Proof. intros Hp Hs. apply list_elem_of_bind. exists p. split; [|done]. apply list_elem_of_fmap. by exists s. Qed.

(** Derived passwords in memory are those of the password and the salt. *)
Definition hashes_ok (c : gmap string string) : Prop :=
  ∀ k v, c !! k = Some v → ∃ p s, p ∈ passwords ∧ good_salt s ∧ k = hash_key Sum256 p s ∧ v = derive IDKey p s.
Definition salted (u : User) : Prop := good_salt (u_Salt u).

Definition permissions_of (roles : gmap string Role) : gmap string (gset string) := (λ r, strArrayToMap (r_Permission r)) <$> roles.

(** The store holds the accounts, and the caches are in step with them. *)
Definition users_in_step (a : Auth S) (c : accounts) : Prop :=
  ∃ m, holds (store a) m ∧ dir_holds "/user" u_ID m (a_users c) ∧ dir_holds "/role" r_ID m (a_roles c) ∧
    cachedUsers a = a_users c ∪ a_gone c ∧ hashes_ok (cacheGeneratePassword a) ∧
    map_Forall (λ _ u, salted u) (a_users c ∪ a_gone c).
Definition in_step (a : Auth S) (c : accounts) : Prop :=
  users_in_step a c ∧ cachedPermissions a = permissions_of (a_roles c).

Lemma GeneratePassword_ok p s (a : Auth S) : hashes_ok (cacheGeneratePassword a) → p ∈ passwords → good_salt s → ∃ h,
  GeneratePassword Sum256 IDKey p s a = (Ok (derive IDKey p s), mkAuth (store a) (cachedUsers a) (cachedPermissions a) h) ∧ hashes_ok h.
Proof.
  intros Hh Hp Hs. unfold GeneratePassword. destruct (cacheGeneratePassword a !! _) as [v|] eqn:Hv.
  - exists (cacheGeneratePassword a). split; [|done]. destruct (Hh _ _ Hv) as (p' & s' & Hp' & [Hs' Hin'] & Hk & ->).
    destruct Hs as [Hs Hin]. apply hex_inj, no_collision in Hk; [|by apply elem_of_texts..|apply Sum256_bytes|apply Sum256_bytes].
    destruct (app_sep_inj _ _ _ _ _ Hs Hs' Hk) as [-> ->]. by destruct a.
  - eexists. split; [done|]. intros k v. destruct (decide (k = hash_key Sum256 p s)) as [->|].
    + rewrite lookup_insert_eq. intros [= <-]. by exists p, s.
    + rewrite lookup_insert_ne by done. apply Hh.
Qed.

(** Reading a record: found, not there, or an error. *)
Lemma find_ok {X} {codec : Codec X} dir (ID : X → string) id (a : Auth S) m am r a' :
  holds (store a) m → dir_holds dir ID m am → find (on_store (record_Get dir id)) a = (Ok r, a') →
  r = am !! id ∧ ∃ s', holds s' m ∧ a' = mkAuth s' (cachedUsers a) (cachedPermissions a) (cacheGeneratePassword a).
Proof.
  intros Hh Hd. unfold find, on_store. destruct (record_Get_ok dir ID id _ m am Hh Hd) as (s' & Hh' & [Hg|(e & [He _] & Hg)]); rewrite Hg.
  - destruct (am !! id) as [x|]; [|rewrite decide_True by done]; intros [= <- <-]; (split; [done|]); by exists s'.
  - rewrite decide_False by done. done.
Qed.

Lemma users_dir_other m am k o : cut_prefix "/user/" k = None → dir_holds "/user" u_ID m am → dir_holds "/user" u_ID (partial_alter (λ _, o) k m) am.
Proof. intros Hk. by apply dir_holds_other. Qed.
Lemma roles_dir_other m am k o : cut_prefix "/role/" k = None → dir_holds "/role" r_ID m am → dir_holds "/role" r_ID (partial_alter (λ _, o) k m) am.
Proof. intros Hk. by apply dir_holds_other. Qed.

Lemma user_union us gone id u : <[id := u]> (us ∪ gone) = <[id := u]> us ∪ delete id gone :> gmap string User.
Proof.
  apply map_eq. intros i. rewrite lookup_union. destruct (decide (i = id)) as [->|].
  - rewrite !lookup_insert_eq, lookup_delete_eq. done.
  - rewrite !lookup_insert_ne, lookup_delete_ne, lookup_union by done. done.
Qed.

(** What [CreateUser] makes of the user that was found. *)
Lemma made_user_ok (a : Auth S) m c id name password role salt created now nu a' :
  dir_holds "/user" u_ID m (a_users c) → map_Forall (λ _ u, salted u) (a_users c ∪ a_gone c) →
  hashes_ok (cacheGeneratePassword a) → password ∈ passwords → good_salt salt →
  made_user Sum256 IDKey (a_users c !! id) id name password role salt created now a = (Ok nu, a') →
  nu = created_user IDKey (a_users c !! id) id name password role salt created now ∧ salted nu ∧ u_ID nu = id ∧
  ∃ h, a' = mkAuth (store a) (cachedUsers a) (cachedPermissions a) h ∧ hashes_ok h.
Proof.
  intros [Hd Hn] Hsalt Hh Hpw Hs. specialize (Hd id). unfold made_user, changed_user, new_user, mbind, M_bind, mret, M_ret. cbn -[GeneratePassword].
  destruct (GeneratePassword_ok password salt a Hh Hpw Hs) as (h & Hg & Hh').
  destruct (a_users c !! id) as [u|] eqn:Hu.
  - assert (u_ID u = id) as Hid by (destruct (m !! _); cbn in Hd; [naive_solver|done]).
    assert (salted u) as Hsu by (apply (Hsalt id); by rewrite lookup_union, Hu, union_Some_l).
    unfold created_user. destruct (decide (password = "")) as [->|].
    + intros [= <- <-]. rewrite Hid. split_and!; [done..|]. exists (cacheGeneratePassword a). by destruct a.
    + rewrite Hg. intros [= <- <-]. rewrite Hid. split_and!; [done..|]. by exists h.
  - rewrite Hg. intros [= <- <-]. split_and!; [done..|]. by exists h.
Qed.

Lemma CreateUser_ok id name password role salt created now a c u a' :
  slashed (ToLower id) = false → password ∈ passwords → good_salt salt → users_in_step a c →
  CreateUser Sum256 IDKey id name password role salt created now a = (Ok u, a') →
  users_in_step a' (account_step IDKey c (ACreateUser id name password role salt created now)) ∧
  cachedPermissions a' = cachedPermissions a ∧ u = created_user IDKey (a_users c !! ToLower id) (ToLower id) name password role salt created now.
Proof.
  intros Hid Hpw Hs (m & Hh & Hu & Hr & Hcu & Hc & Hsalt). unfold CreateUser, mbind, M_bind. set (lid := ToLower id) in *. unfold GetUser.
  case_decide as Hne; [done|]. destruct (find _ a) as [[r|e|p] a1] eqn:Hf; [|done..].
  destruct (find_ok "/user" u_ID lid a m (a_users c) r a1 Hh Hu Hf) as (-> & s1 & Hh1 & ->).
  destruct (made_user _ _ _ _ _ _ _ _ _ _ _) as [[nu|e|p] a2] eqn:Hmk; [|done..].
  destruct (made_user_ok (mkAuth s1 (cachedUsers a) (cachedPermissions a) (cacheGeneratePassword a)) m c lid name password role salt created now nu a2)
    as (-> & Hsn & HID & h & -> & Hh2); [done..|].
  set (nu := created_user _ _ _ _ _ _ _ _ _) in *. rewrite HID. unfold SetUser, on_store, User_Set. cbn [store].
  destruct (record_Set "/user" lid nu s1) as [[[]|e|p] s2] eqn:Hset; [|done..].
  destruct (record_Set_ok "/user" u_ID lid nu s1 m (a_users c) Hh1 Hu HID Hid s2 Hset) as (d & Hh3 & Hu').
  intros [= <- <-]. split; [|done]. exists (<[record_key "/user" lid := d]> m). cbn. split_and!; [done|done| | |done|].
  - by apply roles_dir_other.
  - rewrite Hcu. apply user_union.
  - fold nu. rewrite <-user_union. by apply map_Forall_insert_2.
Qed.

Lemma DeleteUser_ok id a c a' : in_step a c → DeleteUser id a = (Ok tt, a') → in_step a' (account_step IDKey c (ADeleteUser id)).
Proof.
  intros [(m & Hh & Hu & Hr & Hcu & Hc & Hsalt) Hcp]. unfold DeleteUser, on_store, User_Delete. set (lid := ToLower id).
  destruct (record_Delete "/user" lid (store a)) as [r s1] eqn:Hd. intros [= -> <-].
  destruct (record_Delete_ok "/user" u_ID lid _ m (a_users c) Hh Hu s1 Hd) as [Hh1 Hu1].
  assert (delete lid (a_users c) ∪ partial_alter (λ g, union (a_users c !! lid) g) lid (a_gone c) = a_users c ∪ a_gone c) as Hun.
  { apply map_eq. intros i. rewrite !lookup_union. destruct (decide (i = lid)) as [->|].
    - rewrite lookup_delete_eq, lookup_partial_alter_eq. by destruct (a_users c !! lid), (a_gone c !! lid).
    - by rewrite lookup_delete_ne, lookup_partial_alter_ne by done. }
  split; [|exact Hcp]. eexists. cbn. fold lid. rewrite Hun. split_and!; [exact Hh1|exact Hu1|by apply roles_dir_other|done..].
Qed.

Lemma permissions_of_insert roles id r : permissions_of (<[id := r]> roles) = <[id := strArrayToMap (r_Permission r)]> (permissions_of roles).
Proof. unfold permissions_of. by rewrite fmap_insert. Qed.

Lemma CreateRole_ok id name permissions created now a c r a' :
  slashed (ToLower id) = false → in_step a c → CreateRole id name permissions created now a = (Ok r, a') →
  ToLower id ≠ "admin" ∧ in_step a' (account_step IDKey c (ACreateRole id name permissions created now)).
Proof.
  intros Hid [(m & Hh & Hu & Hr & Hcu & Hc & Hsalt) Hcp]. unfold CreateRole, mbind, M_bind. set (lid := ToLower id) in *. unfold GetRole.
  case_decide as Hadm; [done|]. case_decide as Hne; [done|]. destruct (find _ a) as [[o|e|p] a1] eqn:Hf; [|done..].
  destruct (find_ok "/role" r_ID lid a m (a_roles c) o a1 Hh Hr Hf) as (-> & s1 & Hh1 & ->).
  assert (match a_roles c !! lid with
          | Some r => mkRole (r_ID r) name (r_Role r) permissions (r_CreatedAt r) now
          | None => mkRole lid name "" permissions created now
          end = created_role (a_roles c !! lid) lid name permissions created now) as ->.
  { destruct Hr as [Hr _]. specialize (Hr lid). destruct (a_roles c !! lid) as [r0|]; [|done].
    destruct (m !! _); cbn in Hr; [|done]. by destruct Hr as (? & [= <-] & _ & ->). }
  set (nr := created_role _ _ _ _ _ _). assert (r_ID nr = lid) as HID by (unfold nr, created_role; by case_match).
  assert (r_Permission nr = permissions) as Hperm by (unfold nr, created_role; by case_match).
  rewrite HID. unfold SetRole, on_store, Role_Set. cbn [store].
  destruct (record_Set "/role" lid nr s1) as [[[]|e|p] s2] eqn:Hset; [|done..].
  destruct (record_Set_ok "/role" r_ID lid nr s1 m (a_roles c) Hh1 Hr HID Hid s2 Hset) as (d & Hh3 & Hr').
  intros [= <- <-]. split; [done|]. split.
  - exists (<[record_key "/role" lid := d]> m). cbn. split_and!; [done|by apply users_dir_other|done..].
  - cbn. fold lid nr. rewrite permissions_of_insert, Hperm, Hcp. done.
Qed.

Lemma DeleteRole_ok id a c a' : in_step a c → DeleteRole id a = (Ok tt, a') → in_step a' (account_step IDKey c (ADeleteRole id)).
Proof.
  intros [(m & Hh & Hu & Hr & Hcu & Hc & Hsalt) Hcp]. unfold DeleteRole, mbind, M_bind, on_store, Role_Delete. cbn. set (lid := ToLower id).
  destruct (record_Delete "/role" lid (store a)) as [r s1] eqn:Hd. intros [= -> <-].
  destruct (record_Delete_ok "/role" r_ID lid _ m (a_roles c) Hh Hr s1 Hd) as [Hh1 Hr1].
  split; [eexists; cbn; fold lid; by split_and!; [exact Hh1|apply users_dir_other|exact Hr1|..]|].
  cbn. fold lid. rewrite Hcp. unfold permissions_of. by rewrite fmap_delete.
Qed.
(** Setting the entries of a list one after the other. *)
Lemma foldl_insert {X Y} (f : X → string) (g : X → Y) xs : ∀ m0 : gmap string Y, NoDup (f <$> xs) →
  foldl (λ m x, <[f x := g x]> m) m0 xs = list_to_map ((λ x, (f x, g x)) <$> xs) ∪ m0.
Proof.
  induction xs as [|x xs IH]; intros m0 Hnd; cbn; [by rewrite (left_id_L ∅ (∪))|]. apply NoDup_cons in Hnd as [Hx Hnd].
  rewrite IH by done. rewrite <-insert_union_r; [apply insert_union_l|].
  apply not_elem_of_list_to_map_1. by rewrite <-list_fmap_compose.
Qed.

Lemma listed_users us (am : gmap string User) : (λ u, (u_ID u, u)) <$> us ≡ₚ map_to_list am →
  foldl (λ m u, <[u_ID u := u]> m) ∅ us = am.
Proof.
  intros Hp. assert (NoDup (u_ID <$> us)) as Hnd
    by (change (u_ID <$> us) with (fst ∘ (λ u, (u_ID u, u)) <$> us); rewrite list_fmap_compose, Hp; apply NoDup_fst_map_to_list).
  rewrite (foldl_insert u_ID (λ u, u)), (right_id_L ∅ (∪)) by done. rewrite (list_to_map_proper _ (map_to_list am)); [apply list_to_map_to_list| |done].
  by rewrite <-list_fmap_compose.
Qed.

Lemma listed_roles rs (am : gmap string Role) : (λ r, (r_ID r, r)) <$> rs ≡ₚ map_to_list am →
  foldl (λ m r, <[r_ID r := strArrayToMap (r_Permission r)]> m) ∅ rs = permissions_of am.
Proof.
  intros Hp. assert (NoDup (r_ID <$> rs)) as Hnd
    by (change (r_ID <$> rs) with (fst ∘ (λ r, (r_ID r, r)) <$> rs); rewrite list_fmap_compose, Hp; apply NoDup_fst_map_to_list).
  rewrite (foldl_insert r_ID (λ r, strArrayToMap (r_Permission r))), (right_id_L ∅ (∪)) by done.
  assert ((λ r, (r_ID r, strArrayToMap (r_Permission r))) <$> rs = prod_map id (λ r, strArrayToMap (r_Permission r)) <$> ((λ r, (r_ID r, r)) <$> rs)) as ->
    by by rewrite <-list_fmap_compose.
  rewrite list_to_map_fmap. unfold permissions_of. f_equal.
  rewrite (list_to_map_proper _ (map_to_list am)); [apply list_to_map_to_list| |done]. by rewrite <-list_fmap_compose.
Qed.

Lemma userUpdate_ok a c a' : in_step a c → userUpdate a = (Ok tt, a') → in_step a' (account_step IDKey c AUserUpdate).
Proof.
  intros [(m & Hh & Hu & Hr & Hcu & Hc & Hsalt) Hcp]. unfold userUpdate, mbind, M_bind, GetUsers, on_store, User_List.
  destruct (record_List_ok "/user" u_ID (store a) m (a_users c) Hh Hu) as (s1 & Hh1 & [(us & -> & Hp)|(e & -> & _)]); [|done].
  intros [= <-]. split; [|done]. exists m. cbn. rewrite (right_id_L ∅ (∪)), (listed_users us (a_users c)) by done. split_and!; [done..|].
  intros i u Hi. apply (Hsalt i). by rewrite lookup_union, Hi, union_Some_l.
Qed.

Lemma roleUpdate_ok a c a' : in_step a c → roleUpdate a = (Ok tt, a') → in_step a' c.
Proof.
  intros [(m & Hh & Hu & Hr & Hcu & Hc & Hsalt) Hcp]. unfold roleUpdate, mbind, M_bind, GetRoles, on_store, Role_List.
  destruct (record_List_ok "/role" r_ID (store a) m (a_roles c) Hh Hr) as (s1 & Hh1 & [(rs & -> & Hp)|(e & -> & _)]); [|done].
  intros [= <-]. split; [by exists m|]. cbn. by rewrite (listed_roles rs (a_roles c)).
Qed.

Lemma permission_ok a c role permission : in_step a c → VerifyRoleHasPermission role permission a = permits c role permission.
Proof.
  intros [_ Hcp]. unfold VerifyRoleHasPermission, permits. case_decide as Ha; [by rewrite bool_decide_eq_true_2|].
  rewrite bool_decide_eq_false_2, Hcp by done. unfold permissions_of. rewrite lookup_fmap. destruct (a_roles c !! ToLower role) as [r|]; cbn; [|done].
  apply bool_decide_ext. unfold strArrayToMap. by rewrite elem_of_list_to_set.
Qed.

Lemma credentials_ok a c id password : password ∈ passwords → in_step a c → ∃ a', in_step a' c ∧
  VerifyCredentials Sum256 IDKey id password a = (Ok (signs_in IDKey c id password), a').
Proof.
  intros Hpw Hin. pose proof Hin as [(m & Hh & Hu & Hr & Hcu & Hc & Hsalt) Hcp]. unfold VerifyCredentials, signs_in, mbind, M_bind. cbn -[GeneratePassword].
  rewrite Hcu. destruct ((a_users c ∪ a_gone c) !! ToLower id) as [u|] eqn:Hi; [|by exists a]. cbn -[GeneratePassword].
  destruct (GeneratePassword_ok password (u_Salt u) a Hc Hpw (Hsalt _ _ Hi)) as (h & -> & Hh'). eexists. split; [|done]. split; [by exists m|done].
Qed.

Lemma middleware_ok a c permission BasicAuth : given (ARequest permission BasicAuth) → in_step a c → ∃ a', in_step a' c ∧
  AuthMiddleware Sum256 IDKey permission BasicAuth a = (Ok (judge IDKey c permission BasicAuth), a').
Proof.
  intros Hg Hin. unfold AuthMiddleware, judge. destruct BasicAuth as [[id password]|]; [|by exists a]. unfold mbind, M_bind.
  destruct (credentials_ok a c id password Hg Hin) as (a' & Hin' & ->). exists a'. split; [done|].
  destruct (signs_in IDKey c id password) as [u|]; [|done]. cbn. by rewrite (permission_ok a' c).
Qed.

(** Every action that succeeds keeps the caches in step with the accounts. *)
Lemma act_ok x a c a' : good_action x → given x → in_step a c → act x a = (Ok tt, a') → in_step a' (account_step IDKey c x).
Proof.
  intros Hg Hgv Hin. destruct x as [id name password role salt created now|id|id name permissions created now|id| | |permission b]; cbn [act].
  - unfold mbind, M_bind. destruct (CreateUser _ _ _ _ _ _ _ _ _ _) as [[u|e|p] a1] eqn:Hc; [|done..]. intros [= <-].
    destruct Hg, Hgv, Hin as [Hin Hp]. eapply CreateUser_ok in Hc as (? & Hp' & _); [|done..]. by split; [|rewrite Hp'].
  - by apply DeleteUser_ok.
  - unfold mbind, M_bind. destruct (CreateRole _ _ _ _ _ _) as [[r|e|p] a1] eqn:Hc; [|done..]. intros [= <-].
    by eapply CreateRole_ok in Hc as [_ ?].
  - by apply DeleteRole_ok.
  - by apply userUpdate_ok.
  - by apply roleUpdate_ok.
  - unfold mbind, M_bind. destruct (middleware_ok a c permission b Hgv Hin) as (a1 & Hin1 & ->). by intros [= <-].
Qed.

Lemma acts_ok xs : ∀ a c a', Forall good_action xs → Forall given xs → in_step a c → forM act xs a = (Ok tt, a') → in_step a' (foldl (account_step IDKey) c xs).
Proof.
  induction xs as [|x xs IH]; intros a c a' Hg Hgv Hin; cbn [forM foldl]; [by intros [= <-]|].
  apply Forall_cons in Hg as [Hx Hxs]. apply Forall_cons in Hgv as [Hgx Hgxs].
  unfold mbind, M_bind. destruct (act x a) as [[[]|e|p] a1] eqn:Ha; [|done..]. apply IH; [done|done|]. by eapply act_ok.
Qed.
(** ** The first start and the others *)

Lemma forM_users us : ∀ a : Auth S,
  forM (λ u, Users_Set (u_ID u) u) us a = (Ok tt, set_users (foldl (λ m u, <[u_ID u := u]> m) (cachedUsers a) us) a).
Proof. induction us as [|u us IH]; intros a; [by destruct a|]. cbn [forM foldl]. unfold mbind, M_bind. cbn. by rewrite IH. Qed.

Lemma forM_roles rs : ∀ a : Auth S,
  forM (λ r, Permissions_Set (r_ID r) (strArrayToMap (r_Permission r))) rs a =
  (Ok tt, set_permissions (foldl (λ m r, <[r_ID r := strArrayToMap (r_Permission r)]> m) (cachedPermissions a) rs) a).
Proof. induction rs as [|r rs IH]; intros a; [by destruct a|]. cbn [forM foldl]. unfold mbind, M_bind. cbn. by rewrite IH. Qed.

(** Nothing is in memory. *)
Definition fresh (a : Auth S) : Prop := cachedUsers a = ∅ ∧ cachedPermissions a = ∅ ∧ cacheGeneratePassword a = ∅.

(** The accounts at the start: a store without users gets one. *)
Definition first_accounts (c : accounts) (adminUser adminPassword salt : string) (created now : Z) : accounts :=
  if decide (a_users c = ∅) then account_step IDKey c (ACreateUser adminUser adminUser adminPassword "admin" salt created now) else c.

(** The store can be read. *)
Hypothesis List_works : ∀ dir s, is_ok (List (S := S) (dir +:+ "/") s).1 = true.

Lemma record_List_works {X} {codec : Codec X} dir (ID : X → string) s m am :
  holds s m → dir_holds dir ID m am → ∃ s' us, holds s' m ∧ record_List dir s = (Ok us, s') ∧ (λ u, (ID u, u)) <$> us ≡ₚ map_to_list am.
Proof.
  intros Hh Hd. destruct (record_List_ok dir ID s m am Hh Hd) as (s' & Hh' & [(us & Hl & Hp)|(e & _ & Hl)]); [by exists s', us|].
  pose proof (List_works dir s) as Hw. by rewrite Hl in Hw.
Qed.

(** Loading the permissions completes the state. *)
Lemma permissions_loaded a c : users_in_step a c → cachedPermissions a = ∅ → ∃ a', printed initPermissionCache a = (Ok tt, a') ∧ in_step a' c.
Proof.
  intros (m & Hh & Hu & Hr & Hcu & Hc & Hsalt) Hcp. unfold printed, initPermissionCache, mbind, M_bind, GetRoles, on_store, Role_List.
  destruct (record_List_works "/role" r_ID (store a) m (a_roles c) Hh Hr) as (s1 & rs & Hh1 & -> & Hp). rewrite forM_roles. cbn.
  eexists. split; [done|]. split; [by exists m|]. cbn. by rewrite Hcp, (listed_roles rs (a_roles c)).
Qed.

Lemma start_ok a c m adminUser adminPassword salt created now a' :
  fresh a → holds (store a) m → dir_holds "/user" u_ID m (a_users c) → dir_holds "/role" r_ID m (a_roles c) → a_gone c = ∅ →
  map_Forall (λ _ u, salted u) (a_users c) → slashed (ToLower adminUser) = false → adminPassword ∈ passwords → good_salt salt →
  InitFirstUser Sum256 IDKey adminUser adminPassword salt created now a = (Ok tt, a') →
  in_step a' (first_accounts c adminUser adminPassword salt created now).
Proof.
  intros (Hf1 & Hf2 & Hf3) Hh Hu Hr Hgone Hsalt Hid Hpw Hs. unfold InitFirstUser, mbind, M_bind, isFirstStart, GetUsers, on_store, User_List.
  destruct (record_List_works "/user" u_ID (store a) m (a_users c) Hh Hu) as (s1 & us & Hh1 & -> & Hp).
  assert (a_users c ∪ a_gone c = a_users c) as Hun by (rewrite Hgone; apply (right_id_L ∅ (∪))). unfold first_accounts.
  assert (hashes_ok (cacheGeneratePassword a)) as Hc0 by (rewrite Hf3; by intros k v Hk%lookup_empty_Some).
  destruct us as [|u us].
  - symmetry in Hp. apply Permutation_nil_r, map_to_list_empty_iff in Hp. rewrite decide_True by done. unfold fatal, initFirstUser, mbind, M_bind.
    destruct (decide (adminUser = "" ∨ adminPassword = "")); [done|].
    destruct (CreateUser _ _ _ _ _ _ _ _ _ _) as [[nu|e|p] a1] eqn:Hc; [|done..].
    eapply CreateUser_ok in Hc as (Hin & Hpm & _); [|done|done|done|exists m; cbn; by rewrite Hun, Hp in *].
    cbn. destruct (permissions_loaded a1 _ Hin) as (a2 & -> & Hin2); [by rewrite Hpm|]. by intros [= <-].
  - rewrite decide_False by (intros E; rewrite E, map_to_list_empty in Hp; by apply Permutation_nil_r in Hp).
    unfold mbind, M_bind. rewrite forM_users. cbn [mret M_ret cachedUsers]. rewrite Hf1, (listed_users (u :: us) (a_users c)) by done.
    destruct (permissions_loaded (mkAuth s1 (a_users c) (cachedPermissions a) (cacheGeneratePassword a)) c) as (a2 & Hpl & Hin2);
      [exists m; by rewrite Hun|done|]. unfold set_users. cbn [store cachedPermissions cacheGeneratePassword]. rewrite Hpl. by intros [= <-].
Qed.

(** C17: Requests are let through exactly to those who may make them.  After the
    start, on a store that can be read and holds the accounts [c], and any
    sequence of successful creations and changes of users and roles, deletions,
    notices of the cluster and other requests, the middleware lets a request pass
    if and only if it has the id and password of a user and the role of that user
    is admin or has the permission; otherwise it answers 401 or 403.  Ids are
    compared without regard to case, the caches of users, of permissions and of
    derived passwords make no difference, a first start makes one administrator -
    and the users that were deleted since the start, or since the last notice,
    still count.  The conditions: the ids of the users and roles that are made
    have no slash, the salts no colon, and among the passwords that are given and
    the salts no two of the texts that are hashed have the same hash. *)
Theorem requests_authorised a0 a1 a c m adminUser adminPassword salt created now xs permission BasicAuth :
  fresh a0 → holds (store a0) m → dir_holds "/user" u_ID m (a_users c) → dir_holds "/role" r_ID m (a_roles c) → a_gone c = ∅ →
  map_Forall (λ _ u, good_salt (u_Salt u)) (a_users c) → slashed (ToLower adminUser) = false → adminPassword ∈ passwords → good_salt salt →
  InitFirstUser Sum256 IDKey adminUser adminPassword salt created now a0 = (Ok tt, a1) →
  Forall good_action xs → Forall given xs → given (ARequest permission BasicAuth) → forM act xs a1 = (Ok tt, a) →
  let c' := foldl (account_step IDKey) (first_accounts c adminUser adminPassword salt created now) xs in
  ∃ a', in_step a' c' ∧ AuthMiddleware Sum256 IDKey permission BasicAuth a = (Ok (judge IDKey c' permission BasicAuth), a').
Proof.
  intros Hf Hh Hu Hr Hg Hsalt Hid Hpw Hs Hstart Hxs Hgv Hreq Hacts. apply middleware_ok; [done|]. eapply acts_ok; [done|done| |done].
  by eapply start_ok.
Qed.
End refinement.

(** * Users that are deleted *)

(** [DeleteUser] leaves the cache alone: whatever the store answers, the user
    signs in as before. *)
Theorem deleted_users_sign_in {S} {st : Storager S} Sum256 IDKey id id' password (a : Auth S) :
  (VerifyCredentials Sum256 IDKey id' password (DeleteUser id a).2).1 = (VerifyCredentials Sum256 IDKey id' password a).1.
Proof.
  unfold DeleteUser, on_store, User_Delete. destruct (record_Delete _ _ _) as [r s]. unfold VerifyCredentials, mbind, M_bind. cbn.
  destruct (cachedUsers a !! ToLower id') as [u|]; [|done]. unfold GeneratePassword. cbn. by destruct (cacheGeneratePassword a !! _).
Qed.

(** * Concrete accounts *)

Module AuthDemo.
Import StoreDemo.

(** Records as texts of binary digits. *)
Fixpoint to_text (p : positive) : string :=
  match p with xH => EmptyString | xO p => String "0" (to_text p) | xI p => String "1" (to_text p) end.
Fixpoint of_text (s : string) : option positive :=
  match s with
  | EmptyString => Some xH
  | String c s => if decide (c = "0"%char) then xO <$> of_text s else if decide (c = "1"%char) then xI <$> of_text s else None
  end.
Lemma of_to_text p : of_text (to_text p) = Some p.
Proof. induction p as [p IH|p IH|]; cbn; rewrite ?IH; done. Qed.

Definition user_fields (u : User) : list positive :=
  [encode (u_ID u); encode (u_Name u); encode (u_Role u); encode (u_Salt u); encode (u_Password u); encode (u_CreatedAt u); encode (u_UpdatedAt u)].
Definition role_fields (r : Role) : list positive :=
  [encode (r_ID r); encode (r_Name r); encode (r_Role r); encode (r_Permission r); encode (r_CreatedAt r); encode (r_UpdatedAt r)].

Definition of_option {A} (o : option A) : res A := match o with Some a => Ok a | None => Err "invalid character" end.

#[export] Instance user_codec : Codec User := {|
  Marshal u := Ok (to_text (positives_flatten (user_fields u)));
  Unmarshal d := of_option (p ← of_text d; fs ← positives_unflatten p;
    match fs with
    | [i; n; r; s; w; c; t] => i ← decode i; n ← decode n; r ← decode r; s ← decode s; w ← decode w; c ← decode c; t ← decode t;
        Some (mkUser i n r s w c t)
    | _ => None
    end)
|}.
#[export] Instance role_codec : Codec Role := {|
  Marshal r := Ok (to_text (positives_flatten (role_fields r)));
  Unmarshal d := of_option (p ← of_text d; fs ← positives_unflatten p;
    match fs with
    | [i; n; r; ps; c; t] => i ← decode i; n ← decode n; r ← decode r; ps ← decode ps; c ← decode c; t ← decode t; Some (mkRole i n r ps c t)
    | _ => None
    end)
|}.
#[export] Instance user_codec_ok : CodecLaws User.
Proof.
  split. intros u d [= <-]. cbn [Unmarshal user_codec]. rewrite of_to_text.
  cbn [mbind option_bind]. rewrite positives_unflatten_flatten. unfold user_fields. cbn [mbind option_bind].
  repeat (rewrite decode_encode; cbn [mbind option_bind]). by destruct u.
Qed.
#[export] Instance role_codec_ok : CodecLaws Role.
Proof.
  split. intros r d [= <-]. cbn [Unmarshal role_codec]. rewrite of_to_text.
  cbn [mbind option_bind]. rewrite positives_unflatten_flatten. unfold role_fields. cbn [mbind option_bind].
  repeat (rewrite decode_encode; cbn [mbind option_bind]). by destruct r.
Qed.

(** Stand-ins for the hashes: 32 bytes made of two MD5 sums. *)
Definition sum256 (text : string) : list Z := Hash.Md5.sum (bytes text) ++ Hash.Md5.sum (bytes (String "+" text)).
Definition idkey (password salt : string) : list Z := bytes (password +:+ salt).

Lemma put_le_bytes n : ∀ z, Forall (λ b, 0 ≤ b < 256)%Z (put_le n z).
Proof. induction n as [|n IH]; intros z; cbn [put_le]; constructor; [|apply IH]. apply Z.mod_pos_bound. lia. Qed.

Lemma sum256_bytes x : length (sum256 x) = 32 ∧ Forall (λ b, 0 ≤ b < 256)%Z (sum256 x).
Proof.
  assert (∀ bs, length (Hash.Md5.sum bs) = 16 ∧ Forall (λ b, 0 ≤ b < 256)%Z (Hash.Md5.sum bs)) as H.
  { intros bs. unfold Hash.Md5.sum. destruct (Hash.Md5.blocks _ _ _) as [[[x1 x2] x3] x4].
    split; [by rewrite ?length_app, ?length_put_le|]. rewrite ?Forall_app. split_and!; apply put_le_bytes. }
  destruct (H (bytes x)) as [H1 H2], (H (bytes (String "+" x))) as [H3 H4]. unfold sum256. rewrite length_app, H1, H3, Forall_app. done.
Qed.

(** What is given and used below. *)
Definition demo_passwords : list string := ["secret"; "pass"; "wrong"].
Definition demo_salts : list string := [GenerateSalt 7; GenerateSalt 8].
Lemma sum256_distinct x y : x ∈ texts demo_passwords demo_salts → y ∈ texts demo_passwords demo_salts → sum256 x = sum256 y → x = y.
Proof.
  intros Hx Hy. assert (Forall (λ x, Forall (λ y, sum256 x = sum256 y → x = y) (texts demo_passwords demo_salts)) (texts demo_passwords demo_salts)) as H
    by (apply (bool_decide_unpack _); vm_compute; exact I).
  rewrite Forall_forall in H. specialize (H x Hx). rewrite Forall_forall in H. by apply H.
Qed.

(** A first start on an empty bbolt file; then a role, a user with it, and the
    user is deleted. *)
#[local] Instance bolt_store : Storager tree := boltStorage.
#[local] Instance bolt_store_spec : @StoreSpec tree bolt_store := bolt_spec.
Definition empty : Auth tree := mkAuth ∅ ∅ ∅ ∅.
Definition started : Auth tree := (InitFirstUser sum256 idkey "Admin" "secret" (GenerateSalt 7) 1 2 empty).2.
Definition changes : list action :=
  [ACreateRole "Reader" "Readers" ["search.SearchV1"] 3 4;
   ACreateUser "Ann" "Ann" "pass" "reader" (GenerateSalt 8) 5 6;
   ARequest "auth.ListUser" (Some ("ann", "pass"));
   ADeleteUser "ann"].
Definition later : Auth tree := (forM (act sum256 idkey) changes started).2.

Lemma bolt_lists dir (s : tree) : is_ok (List (dir +:+ "/") s).1 = true.
Proof. cbn [List bolt_store boltStorage]. unfold bolt_List, mbind, M_bind, lift. by rewrite split_dir. Qed.

Lemma empty_dir {X} {codec : Codec X} dir (ID : X → string) : dir_holds dir ID ∅ ∅.
Proof. split; [done|]. by intros id [x Hx%lookup_empty_Some]. Qed.

(** Ann was deleted, and her request passes. *)
Lemma requests_authorised_witness :
  (AuthMiddleware sum256 idkey "search.SearchV1" (Some ("ANN", "pass")) later).1 = Ok Next ∧
  (AuthMiddleware sum256 idkey "auth.ListUser" (Some ("ann", "pass")) later).1 = Ok (Abort 403 "No permission:auth.ListUser") ∧
  (AuthMiddleware sum256 idkey "auth.ListUser" (Some ("admin", "secret")) later).1 = Ok Next.
Proof.
  assert (∀ permission auth, given demo_passwords demo_salts (ARequest permission auth) → (AuthMiddleware sum256 idkey permission auth later).1 =
    Ok (judge idkey (foldl (account_step idkey) (first_accounts idkey (mkAccounts ∅ ∅ ∅) "Admin" "secret" (GenerateSalt 7) 1 2) changes) permission auth)) as H.
  { intros permission auth Hgiven.
    destruct (requests_authorised sum256 idkey demo_passwords demo_salts sum256_bytes sum256_distinct bolt_lists empty started later (mkAccounts ∅ ∅ ∅) ∅
      "Admin" "secret" (GenerateSalt 7) 1 2 changes permission auth) as (a' & _ & ->); [..|done].
    - done.
    - split; [|intros b bm n v Hb; by vm_compute in Hb]. intros k. by destruct (cut_last k) as [[]|].
    - apply empty_dir.
    - apply empty_dir.
    - done.
    - apply map_Forall_empty.
    - done.
    - by left.
    - split; [apply Encode_no_colon|by left].
    - vm_compute; reflexivity.
    - repeat constructor.
    - repeat constructor.
    - exact Hgiven.
    - vm_compute; reflexivity. }
  rewrite !H; [by vm_compute|by repeat constructor..].
Defined.

(** The id of the user who signs in. *)
Definition who (id password : string) (a : Auth tree) : option string :=
  match (VerifyCredentials sum256 idkey id password a).1 with Ok (Some u) => Some (u_ID u) | _ => None end.

(** A user whose id has a slash signs in until the next start. *)
Lemma slashed_user_is_forgotten :
  let a := (CreateUser sum256 idkey "team/bob" "Bob" "pass" "admin" (GenerateSalt 9) 1 2 started).2 in
  let a' := (InitFirstUser sum256 idkey "Admin" "secret" (GenerateSalt 10) 3 4 (mkAuth (store a) ∅ ∅ ∅)).2 in
  who "team/bob" "pass" a = Some "team/bob" ∧ who "team/bob" "pass" a' = None.
Proof. by vm_compute. Qed.

(** One record that cannot be read: the start counts as the first one, sets the
    administrator back to the password of the environment and loads nobody. *)
Lemma unreadable_user_resets_admin :
  let a := (CreateUser sum256 idkey "ann" "Ann" "pass" "admin" (GenerateSalt 8) 1 2 started).2 in
  let a := (CreateUser sum256 idkey "admin" "Admin" "changed" "admin" (GenerateSalt 9) 3 4 a).2 in
  let s := (Set_ "/user/bad" "{}" (store a)).2 in
  let a' := (InitFirstUser sum256 idkey "Admin" "secret" (GenerateSalt 10) 5 6 (mkAuth s ∅ ∅ ∅)).2 in
  who "admin" "changed" a = Some "admin" ∧ who "admin" "changed" a' = None ∧ who "admin" "secret" a' = Some "admin" ∧
  u_ID <$> cachedUsers a' = {["admin" := "admin"]}.
Proof. by vm_compute. Qed.
End AuthDemo.
