(* ===== verification/Tokenizers.v ===== *)
(** The tokenizers and filters of the program (pkg/bluge/analysis): n-grams, edge
    n-grams, paths, groups of characters, the tokenizers and the stop filter for
    Chinese text, stop words and the mapping filter. *)
From S2P Require Import Prelude Hash Strconv Merge TextOrder.

(** * Text *)

(** UTF-8 of a code point. *)
Definition encode_rune (r : Z) : list Z :=
  if decide (r < 128)%Z then [r]
  else if decide (r < 2048)%Z then [192 + r / 64; 128 + r mod 64]%Z
  else if decide (r < 65536)%Z then [224 + r / 4096; 128 + (r / 64) mod 64; 128 + r mod 64]%Z
  else [240 + r / 262144; 128 + (r / 4096) mod 64; 128 + (r / 64) mod 64; 128 + r mod 64]%Z.

(** [analysis.BuildTermFromRunes]; a text is the list of its code points, as
    [bytes.Runes] gives them. *)
Definition utf8 (runes : list Z) : list Z := concat (encode_rune <$> runes).

(** [utf8.RuneLen]. *)
Definition RuneLen (r : Z) : nat := length (encode_rune r).

(** [runes[start:i]]. *)
Definition slice {A} (l : list A) (start i : nat) : list A := take (i - start) (drop start l).

Inductive TokenType := AlphaNumeric | Ideographic.

Record Token := mkToken { Term : list Z; Start : nat; End_ : nat; PositionIncr : Z; Type_ : TokenType }.

(** The classes of package unicode. *)
Class Unicode := {
  IsGraphic : Z → bool; IsPrint : Z → bool; IsControl : Z → bool; IsLetter : Z → bool; IsMark : Z → bool;
  IsNumber : Z → bool; IsPunct : Z → bool; IsSpace : Z → bool; IsSymbol : Z → bool
}.

(** * char_group.go *)

(** [isChar]; the code points of another name stand for themselves. *)
Definition isChar {u : Unicode} (runes_of : string → list Z) (char : string) (r : Z) : bool :=
  if decide (char = "graphic") then IsGraphic r
  else if decide (char = "print") then IsPrint r
  else if decide (char = "control") then IsControl r
  else if decide (char = "letter") then IsLetter r
  else if decide (char = "mark") then IsMark r
  else if decide (char ∈ ["number"; "digit"]) then IsNumber r
  else if decide (char ∈ ["punct"; "punctuation"]) then IsPunct r
  else if decide (char ∈ ["space"; "whitespace"; "white_space"]) then IsSpace r
  else if decide (char = "symbol") then IsSymbol r
  else bool_decide (r ∈ runes_of char).

(** [NewCharGroupTokenizer]: what [tokenizer.NewCharacterTokenizer] is given. *)
Definition group_chars (chars : list string) : list string := filter (λ c, c ≠ "") chars.
Definition CharGroup_isChar {u : Unicode} (runes_of : string → list Z) (chars : list string) (r : Z) : bool :=
  forallb (λ c, negb (isChar runes_of c r)) (group_chars chars).

(** * ngram.go *)

Section grams.
Context {u : Unicode} (runes_of : string → list Z).
Context (minLength maxLength : Z) (tokenChars : list string).

(** The method [isChar] of both tokenizers. *)
Definition token_char (r : Z) : bool := existsb (λ c, isChar runes_of c r) tokenChars.
Definition valid (rs : list Z) : bool := match tokenChars with [] => true | _ => forallb token_char rs end.

Definition gram_token (runes : list Z) (start i byteStart : nat) : Token :=
  let term := utf8 (slice runes start i) in mkToken term byteStart (byteStart + length term) 1 AlphaNumeric.

(** The loop of [NgramTokenizer.Tokenize]; it sets back [i] when it moves [start]. *)
Fixpoint ngram_loop (fuel : nat) (runes : list Z) (i start byteStart : nat) (rv : list Token) : option (list Token) :=
  match fuel with
  | O => None
  | S fuel =>
      if decide (length runes < i) then Some rv else
      let rv := if decide (minLength ≤ Z.of_nat (i - start))%Z then
                  if valid (slice runes start i) then rv ++ [gram_token runes start i byteStart] else rv
                else rv in
      if decide (Z.of_nat (i - start) = maxLength) then
        ngram_loop fuel runes (S (S start)) (S start) (byteStart + RuneLen (default 0%Z (runes !! start))) rv
      else ngram_loop fuel runes (S i) start byteStart rv
  end.

(** Every start is left behind after at most as many turns as there are code points. *)
Definition ngram_fuel (n : nat) : nat := S n * S n + S n.
Definition Ngram_Tokenize (runes : list Z) : option (list Token) := ngram_loop (ngram_fuel (length runes)) runes 1 0 0 [].

(** * edge_ngram.go *)

Fixpoint edge_loop (fuel : nat) (runes : list Z) (i start byteStart : nat) (rv : list Token) : list Token :=
  match fuel with
  | O => rv
  | S fuel =>
      let more := if decide (Z.of_nat (i - start) = maxLength) then λ rv, rv else edge_loop fuel runes (S i) start byteStart in
      if decide (minLength ≤ Z.of_nat (i - start))%Z then
        if valid (slice runes start i) then more (rv ++ [gram_token runes start i byteStart])
        else edge_loop fuel runes (S i) i (byteStart + RuneLen (default 0%Z (runes !! start))) rv
      else more rv
  end.
Definition EdgeNgram_Tokenize (runes : list Z) : list Token := edge_loop (length runes) runes 1 0 0 [].
End grams.

(** * path_hierarchy.go *)

(** Both bytes default: the delimiter to a slash, the replacement to the delimiter. *)
Record PathHierarchy := mkPath { delimiter : Z; replacement : Z; p_skip : Z }.
Definition NewPathHierarchyTokenizer (d r skip : Z) : PathHierarchy :=
  let d := if decide (d = 0%Z) then 47%Z else d in
  mkPath d (if decide (r = 0%Z) then d else r) skip.

Definition makeToken (input : list Z) (start end_ : nat) : Token := mkToken (slice input start end_) start end_ 1 AlphaNumeric.

(** One turn; the bytes are changed in place. *)
Definition path_turn (t : PathHierarchy) (s : list Z * nat * Z * list Token) (i : nat) : list Z * nat * Z * list Token :=
  let '(input, start, skip, rv) := s in
  if decide (input !! i = Some (delimiter t)) then
    let input := <[i := replacement t]> input in
    if decide (0 < p_skip t ∧ skip < p_skip t)%Z then (input, i, (skip + 1)%Z, rv)
    else (input, start, skip, rv ++ [makeToken input start i])
  else s.

(** The tokens and the bytes that are left; [input[n-1]] of no bytes is out of range. *)
Definition Path_Tokenize (t : PathHierarchy) (input : list Z) : res (list Token * list Z) :=
  let n := length input in
  let '(input, start, skip, rv) := foldl (path_turn t) (input, 0, 0%Z, []) (seq 1 (n - 1)) in
  match last input with
  | None => Panic PIndex
  | Some b => Ok (if decide (b ≠ delimiter t ∧ skip = p_skip t) then rv ++ [makeToken input start n] else rv, input)
  end.

(** * lang/chs *)

(** A word of the segmenter, with its place in the text. *)
Record segment := mkSegment { text : list Z; s_start : nat; s_end : nat }.

Definition ascii_text (rs : list Z) : bool := forallb (λ r, bool_decide (32 ≤ r ≤ 126)%Z) rs.
Definition chs_type (rs : list Z) : TokenType := if ascii_text rs then AlphaNumeric else Ideographic.

(** [StandardTokenizer.Tokenize] of what the segmenter found. *)
Definition Standard_Tokenize (segments : list segment) : list Token :=
  (λ s, mkToken (utf8 (text s)) (s_start s) (s_end s) 1 (chs_type (text s))) <$> segments.

(** [SearchTokenizer.Tokenize]: words that start together share a position. *)
Fixpoint search_loop (start : nat) (tokens : list segment) : list Token :=
  match tokens with
  | [] => []
  | s :: tokens =>
      mkToken (utf8 (text s)) (s_start s) (s_end s) (if decide (start = s_start s) then 0 else 1) (chs_type (text s))
      :: search_loop (s_start s) tokens
  end.
Definition Search_Tokenize (tokens : list segment) : list Token := search_loop 0 tokens.

(** [StopTokenFilter.Filter]: a word that stays takes over the positions of those
    dropped before it. *)
Fixpoint stop_loop (IsStop : list Z → bool) (skipped : Z) (input : list Token) : list Token :=
  match input with
  | [] => []
  | t :: input =>
      if IsStop (Term t) then stop_loop IsStop (skipped + PositionIncr t)%Z input
      else mkToken (Term t) (Start t) (End_ t) (PositionIncr t + skipped) (Type_ t) :: stop_loop IsStop 0 input
  end.
Definition Stop_Filter (IsStop : list Z → bool) (input : list Token) : list Token := stop_loop IsStop 0 input.

(** * stop_words.go *)

(** The dictionary a name stands for, by the language of its words. *)
Definition language_of (language : string) : option (option string) :=
  match filter (λ nl, language ∈ nl.1)
    [(["_ar_"; "_arabic_"], Some "ar"); (["_bg_"; "_bulgarian_"], Some "bg"); (["_bn_"; "_bengali_"], Some "bn");
     (["_br_"; "_brazilian_"], Some "br"); (["_ca_"; "catalan_"], Some "ca"); (["_cjk_"], None);
     (["_ckb_"; "_sorani_"], Some "ckb"); (["_cs_"; "_czech_"], Some "cs"); (["_da_"; "_danish_"], Some "da");
     (["_de_"; "_german_"], Some "de"); (["_el_"; "_greek_"], Some "el"); (["_en_"; "_english_"], Some "en");
     (["_es_"; "_spanish_"], Some "es"); (["_et_"; "_estonian_"], Some "et"); (["_eu_"; "_basque_"], Some "eu");
     (["_fa_"; "_persian_"], Some "fa"); (["_fi_"; "_finnish_"], Some "fi"); (["_fr_"; "_french_"], Some "fr");
     (["_ga_"; "_irish_"], Some "fa"); (["_gl_"; "_galician_"], Some "gl"); (["_hi_"; "_hindi_"], Some "hi");
     (["_hu_"; "_hungarian_"], Some "hu"); (["_hy_"; "_armenian_"], Some "hy"); (["_id_"; "_indonesian_"], Some "id");
     (["_it_"; "_italian_"], Some "it"); (["_lv"; "_latvian_"], Some "lv"); (["_nl_"; "_dutch_"], Some "nl");
     (["_no_"; "_norwegian_"], Some "no"); (["_pt_"; "_portuguese_"], Some "pt"); (["_ro_"; "_romanian_"], Some "ro");
     (["_ru_"; "_russian_"], Some "ru"); (["_sv_"; "_swedish_"], Some "sv"); (["_tr_"; "_turkish_"], Some "tr");
     (["_th_"; "_thai_"], Some "th")] with
  | nl :: _ => Some nl.2
  | [] => None
  end.

(** [loadLanguageStopWords]; the words of a language are an argument. *)
Definition loadLanguageStopWords (words : string → gset string) (rv : gset string) (language : string) : option (gset string) :=
  match language_of language with Some l => Some (rv ∪ from_option words ∅ l) | None => None end.

Definition StopWords (words : string → gset string) (stopwords : list string) : gset string :=
  let stopwords := match stopwords with [] => ["_english_"] | _ => stopwords end in
  foldl (λ rv word, match loadLanguageStopWords words rv word with Some rv => rv | None => rv ∪ {[word]} end) ∅ stopwords.

(** * char/mapping.go *)

(** The text before and after the first [sep], which is not empty. *)
Fixpoint cut (sep s : string) : option (string * string) :=
  match cut_prefix sep s with
  | Some rest => Some (EmptyString, rest)
  | None => match s with
            | EmptyString => None
            | String c s => match cut sep s with Some (a, b) => Some (String c a, b) | None => None end
            end
  end.

(** [strings.Split] at a separator that is not empty. *)
Fixpoint split_at (fuel : nat) (sep s : string) : list string :=
  match fuel with
  | O => [s]
  | S fuel => match cut sep s with Some (a, b) => a :: split_at fuel sep b | None => [s] end
  end.
Definition SplitString (s sep : string) : list string := split_at (String.length s) sep s.

(** A byte that goes on with a code point. *)
Definition continues (c : ascii) : bool := bool_decide (128 ≤ nat_of_ascii c < 192).

(** [bytes.ReplaceAll]; for an empty [old], [new] is put around every code point. *)
Fixpoint put_around (new s : string) : string :=
  match s with
  | EmptyString => new
  | String c s => (if continues c then EmptyString else new) +:+ String c (put_around new s)
  end.
Fixpoint joined (sep : string) (ps : list string) : string :=
  match ps with [] => EmptyString | [p] => p | p :: ps => p +:+ sep +:+ joined sep ps end.
Definition ReplaceAll (s old new : string) : string :=
  if decide (old = "") then put_around new s else joined new (SplitString s old).

(** Rules that are not of two parts are left out. *)
Definition NewMappingCharFilter (mappings : list string) : list (string * string) :=
  omap (λ field, match SplitString field " => " with [old; new] => Some (old, new) | _ => None end) mappings.

Definition Mapping_Filter (rules : list (string * string)) (input : string) : string :=
  foldl (λ input r, ReplaceAll input r.1 r.2) input rules.

Example mapping_in_turn :
  Mapping_Filter (NewMappingCharFilter ["ph => f"; "f => v"; "a => b => c"]) "phase" = "vase".
Proof. reflexivity. Qed.

(** * N-grams *)

Lemma slice_length {A} (l : list A) s e : s ≤ e → e ≤ length l → length (slice l s e) = e - s.
Proof. intros. unfold slice. rewrite length_take, length_drop. lia. Qed.

Lemma utf8_app a b : utf8 (a ++ b) = utf8 a ++ utf8 b.
Proof. unfold utf8. by rewrite fmap_app, concat_app. Qed.

(** The bytes before a code point. *)
Definition byte_off (runes : list Z) (s : nat) : nat := length (utf8 (take s runes)).

Lemma byte_off_S runes s r : runes !! s = Some r → byte_off runes (S s) = byte_off runes s + RuneLen r.
Proof.
  intros Hr. unfold byte_off. rewrite (take_S_r _ _ r) by done. rewrite utf8_app, length_app. unfold utf8 at 2. cbn. by rewrite app_nil_r.
Qed.

Lemma seq_cut k n : k ≤ n → seq 0 n = seq 0 k ++ seq k (n - k).
Proof. intros Hk. replace n with (k + (n - k)) at 1 by lia. apply seq_app. Qed.

Section ngrams.
Context {u : Unicode} (runes_of : string → list Z) (minLength maxLength : Z) (tokenChars : list string) (runes : list Z).

Abbreviation loop := (ngram_loop runes_of minLength maxLength tokenChars).
Abbreviation n := (length runes).

(** The n-grams at [s] with these lengths. *)
Definition gram_at (s len : nat) : list Token :=
  if decide (minLength ≤ Z.of_nat len)%Z then
    if valid runes_of tokenChars (slice runes s (s + len)) then [gram_token runes s (s + len) (byte_off runes s)] else []
  else [].
Definition grams (s : nat) (lens : list nat) : list Token := concat (gram_at s <$> lens).

Lemma ngram_turn fuel s j rv : s + j ≤ n → 1 ≤ j →
  loop (S fuel) runes (s + j) s (byte_off runes s) rv =
  if decide (Z.of_nat j = maxLength)
  then loop fuel runes (S (S s)) (S s) (byte_off runes (S s)) (rv ++ gram_at s j)
  else loop fuel runes (s + S j) s (byte_off runes s) (rv ++ gram_at s j).
Proof.
  intros Hle Hj. cbn [ngram_loop]. rewrite decide_False by lia. replace (s + j - s) with j by lia. cbv zeta.
  assert ((if decide (minLength ≤ Z.of_nat j)%Z then
      if valid runes_of tokenChars (slice runes s (s + j)) then rv ++ [gram_token runes s (s + j) (byte_off runes s)] else rv
    else rv) = rv ++ gram_at s j) as -> by (unfold gram_at; repeat case_match; by rewrite ?app_nil_r).
  destruct (lookup_lt_is_Some_2 runes s) as [r Hr]; [lia|]. rewrite (byte_off_S _ _ r), Hr by done. cbn.
  by replace (S (s + j)) with (s + S j) by lia.
Qed.

Lemma grams_cons s j d rv : (rv ++ gram_at s j) ++ grams s (seq (S j) d) = rv ++ grams s (seq j (S d)).
Proof. unfold grams. cbn. by rewrite <-app_assoc. Qed.

(** All lengths up to the greatest one fit. *)
Lemma ngram_start d : ∀ s j fuel rv, Z.of_nat (j + d) = maxLength → 1 ≤ j → s + j + d ≤ n →
  loop (S d + fuel) runes (s + j) s (byte_off runes s) rv =
  loop fuel runes (S (S s)) (S s) (byte_off runes (S s)) (rv ++ grams s (seq j (S d))).
Proof.
  induction d as [|d IH]; intros s j fuel rv Hm Hj Hn; rewrite <-grams_cons.
  - cbn [plus]. rewrite ngram_turn, decide_True by lia. unfold grams. cbn. by rewrite app_nil_r.
  - replace (S (S d) + fuel) with (S (S d + fuel)) by lia. rewrite ngram_turn, decide_False by lia. apply IH; lia.
Qed.

(** The text ends first. *)
Lemma ngram_tail d : ∀ s j fuel rv, s + j + d = S n → 1 ≤ j → (Z.of_nat (n - s) < maxLength)%Z →
  loop (S d + fuel) runes (s + j) s (byte_off runes s) rv = Some (rv ++ grams s (seq j d)).
Proof.
  induction d as [|d IH]; intros s j fuel rv Hn Hj Hm.
  - cbn. rewrite decide_True by lia. by rewrite app_nil_r.
  - replace (S (S d) + fuel) with (S (S d + fuel)) by lia. rewrite ngram_turn, decide_False by lia.
    rewrite IH by lia. by rewrite grams_cons.
Qed.

(** One start after the other. *)
Lemma ngram_starts m e : ∀ s fuel rv, Z.of_nat m = maxLength → 1 ≤ m → s + m + e = n →
  loop (S e * m + (m + fuel)) runes (S s) s (byte_off runes s) rv =
  Some (rv ++ concat ((λ s, grams s (seq 1 (m `min` (n - s)))) <$> seq s (S (S e)))).
Proof.
  induction e as [|e IH]; intros s fuel rv Hm H1 Hn.
  - replace (1 * m + (m + fuel)) with (S (m - 1) + (m + fuel)) by lia. replace (S s) with (s + 1) by lia.
    rewrite (ngram_start (m - 1)) by lia. replace (S (s + 1)) with (S s + 1) by lia. replace (S (m - 1)) with m by lia.
    replace (m + fuel) with (S (m - 1) + fuel) by lia.
    replace (S (s + 1)) with (S s + 1) by lia. replace (S (S s)) with (S s + 1) by lia. rewrite (ngram_tail (m - 1) (S s) 1) by lia.
    cbn [seq fmap list_fmap concat]. rewrite app_nil_r, <-app_assoc. replace (s + 1) with (S s) by lia.
    by replace (m `min` (n - s)) with m by lia; replace (m `min` (n - S s)) with (m - 1) by lia.
  - replace (S (S e) * m + (m + fuel)) with (S (m - 1) + (S e * m + (m + fuel))) by lia. replace (S s) with (s + 1) by lia.
    rewrite (ngram_start (m - 1)) by lia. replace (S (m - 1)) with m by lia. rewrite IH by lia.
    rewrite <-app_assoc. do 2 f_equal. replace (s + 1) with (S s) by lia. symmetry. cbn [seq fmap list_fmap concat].
    by replace (m `min` (n - s)) with m by lia.
Qed.

(** What the tokenizer produces, for every greatest length: the starts after the
    first one at which the text is too short are left out. *)
Lemma ngram_tokens m : Z.of_nat m = maxLength → 1 ≤ m →
  Ngram_Tokenize runes_of minLength maxLength tokenChars runes =
  Some (concat ((λ s, grams s (seq 1 (m `min` (n - s)))) <$> seq 0 (if decide (m ≤ n) then n - m + 2 else 1))).
Proof.
  intros Hm H1. unfold Ngram_Tokenize, ngram_fuel. case_decide as Hn.
  - assert (∃ fuel, S n * S n + S n = S (n - m) * m + (m + fuel)) as [fuel ->].
    { exists (S n * S n + S n - (S (n - m) * m + m)). nia. }
    rewrite (ngram_starts m (n - m) 0) by lia. cbn [app]. do 4 f_equal. lia.
  - assert (∃ fuel, S n * S n + S n = S n + fuel) as [fuel ->] by (exists (S n * S n); lia).
    rewrite (ngram_tail n 0 1) by lia. cbn [seq fmap list_fmap concat app]. rewrite app_nil_r.
    by replace (m `min` (n - 0)) with n by lia.
Qed.

(** Every n-gram of the text, from the shortest at the first code point on. *)
Definition all_ngrams : list Token :=
  concat ((λ s, grams s (seq 1 (Z.to_nat maxLength `min` (n - s)))) <$> seq 0 n).

(** The term is the text from [Start] to [End_]. *)
Definition token_at (t : Token) : Prop := slice (utf8 runes) (Start t) (End_ t) = Term t.

Lemma gram_token_at s e : s ≤ e → e ≤ n → token_at (gram_token runes s e (byte_off runes s)).
Proof.
  intros Hs He. unfold token_at, gram_token, slice, byte_off. cbn [Start End_ Term].
  replace (length (utf8 (take s runes)) + length (utf8 (take (e - s) (drop s runes))) - length (utf8 (take s runes)))
    with (length (utf8 (take (e - s) (drop s runes)))) by lia.
  rewrite <-(take_drop s runes) at 3. rewrite utf8_app, drop_app_length.
  rewrite <-(take_drop (e - s) (drop s runes)) at 2. by rewrite utf8_app, take_app_length.
Qed.

Lemma short_grams s lens : Forall (λ len, (Z.of_nat len < minLength)%Z) lens → grams s lens = [].
Proof.
  unfold grams. induction 1 as [|len lens Hl H IH]; [done|]. cbn. rewrite IH, app_nil_r. unfold gram_at. by rewrite decide_False by lia.
Qed.

Lemma no_grams a k : (∀ s, a ≤ s → (Z.of_nat (n - s) < minLength)%Z) →
  concat ((λ s, grams s (seq 1 (Z.to_nat maxLength `min` (n - s)))) <$> seq a k) = [].
Proof.
  revert a. induction k as [|k IH]; intros a Ha; [done|]. cbn. rewrite IH by (intros; apply Ha; lia). rewrite app_nil_r.
  apply short_grams, Forall_forall. intros len Hl%elem_of_seq. specialize (Ha a (le_n a)). lia.
Qed.

Lemma all_ngrams_at : Forall token_at all_ngrams.
Proof.
  unfold all_ngrams. apply Forall_concat, Forall_fmap, Forall_forall. intros s Hs%elem_of_seq. cbn. unfold grams.
  apply Forall_concat, Forall_fmap, Forall_forall. intros len Hl%elem_of_seq. cbn. unfold gram_at.
  repeat case_match; constructor; try constructor. apply gram_token_at; lia.
Qed.

(** C25: The n-gram tokenizer finds every n-gram, where the greatest length is
    at most one more than the smallest.  It ends, whatever the text; the tokens
    are, start by start, the pieces of the text with a length between the two
    whose characters are all among the token characters, and the offsets of each
    token are those of its bytes in the text. *)
Theorem ngrams_complete :
  (1 ≤ minLength ≤ maxLength ≤ minLength + 1)%Z →
  Ngram_Tokenize runes_of minLength maxLength tokenChars runes = Some all_ngrams ∧ Forall token_at all_ngrams.
Proof.
  intros Hm. split; [|apply all_ngrams_at]. rewrite (ngram_tokens (Z.to_nat maxLength)) by lia. f_equal. unfold all_ngrams.
  set (m := Z.to_nat maxLength). case_decide as Hn.
  - destruct (decide (m = 1)) as [Hm1|Hm1].
    + replace (n - m + 2) with (n + 1) by lia. rewrite seq_app, fmap_app, concat_app. cbn [seq fmap list_fmap concat].
      replace (m `min` (n - (0 + n))) with 0 by lia. unfold grams at 2. cbn. by rewrite app_nil_r.
    + rewrite (seq_cut (n - m + 2) n), fmap_app, concat_app by lia. pose proof (no_grams (n - m + 2) (n - (n - m + 2))) as Hng. fold m in Hng. rewrite Hng by lia. by rewrite app_nil_r.
  - destruct (decide (n = 0)) as [H0|H0].
    + rewrite H0. cbn. by rewrite Nat.min_0_r.
    + rewrite (seq_cut 1 n), fmap_app, concat_app by lia. pose proof (no_grams 1 (n - 1)) as Hng. fold m in Hng. rewrite Hng by lia. by rewrite app_nil_r.
Qed.
End ngrams.

(** * Edge n-grams *)

Section edges.
Context {u : Unicode} (runes_of : string → list Z) (minLength maxLength : Z) (runes : list Z).

(** Without token characters: the prefixes with a length between the two. *)
Lemma edge_prefixes m : Z.of_nat m = maxLength → 1 ≤ m →
  EdgeNgram_Tokenize runes_of minLength maxLength [] runes = grams runes_of minLength [] runes 0 (seq 1 (m `min` length runes)).
Proof.
  intros Hm H1. unfold EdgeNgram_Tokenize.
  assert (∀ d j rv, j + d = S (length runes) → 1 ≤ j → j ≤ m →
    edge_loop runes_of minLength maxLength [] d runes j 0 0 rv = rv ++ grams runes_of minLength [] runes 0 (seq j (S m `min` S (length runes) - j))) as Hloop.
  { induction d as [|d IH]; intros j rv Hd Hj Hjm.
    { cbn. replace (_ - j) with 0 by lia. unfold grams. cbn. by rewrite app_nil_r. }
    cbn [edge_loop]. rewrite Nat.sub_0_r.
    assert (∀ t, rv ++ t = rv ++ gram_at runes_of minLength [] runes 0 j → (if decide (Z.of_nat j = maxLength) then λ rv, rv
       else edge_loop runes_of minLength maxLength [] d runes (S j) 0 0) (rv ++ t) =
      rv ++ grams runes_of minLength [] runes 0 (seq j (S m `min` S (length runes) - j))) as Hmore.
    { intros t ->. rewrite <-(app_nil_r (gram_at _ _ _ _ _ _)) at 1. case_decide as He.
      - replace (S m `min` S (length runes) - j) with 1 by lia. done.
      - rewrite IH by lia. replace (S m `min` S (length runes) - j) with (S (S m `min` S (length runes) - S j)) by lia.
        rewrite app_nil_r. apply grams_cons. }
    destruct (decide (minLength ≤ Z.of_nat j)%Z) as [Hmin|Hmin].
    - cbn [valid]. apply Hmore. unfold gram_at. by rewrite decide_True by done.
    - rewrite <-(app_nil_r rv) at 1. apply Hmore. unfold gram_at. by rewrite decide_False by done. }
  rewrite Hloop by lia. cbn [app]. do 2 f_equal. lia.
Qed.
End edges.

(** * Positions *)

(** The terms with the positions the increments add up to. *)
Fixpoint positions (p : Z) (ts : list Token) : list (list Z * Z) :=
  match ts with [] => [] | t :: ts => (Term t, p + PositionIncr t)%Z :: positions (p + PositionIncr t)%Z ts end.

(** The stop filter drops the stop words and leaves the others where they were. *)
Lemma stop_keeps_positions IsStop ts : positions 0 (Stop_Filter IsStop ts) = filter (λ tp, IsStop tp.1 = false) (positions 0 ts).
Proof.
  unfold Stop_Filter. assert (∀ p skipped, positions p (stop_loop IsStop skipped ts) = filter (λ tp, IsStop tp.1 = false) (positions (p + skipped) ts)) as H.
  { induction ts as [|t ts IH]; intros p skipped; [done|]. cbn [stop_loop positions]. rewrite filter_cons. cbn [fst].
    destruct (IsStop (Term t)).
    - rewrite decide_False by done. rewrite IH. f_equal. f_equal. lia.
    - rewrite decide_True by done. cbn [positions Term PositionIncr]. rewrite IH.
      replace (p + (PositionIncr t + skipped) + 0)%Z with (p + skipped + PositionIncr t)%Z by lia.
      by replace (p + (PositionIncr t + skipped))%Z with (p + skipped + PositionIncr t)%Z by lia. }
  by rewrite H.
Qed.

(** * Paths *)

(** With the delimiter kept and nothing skipped, the tokens are the path of every
    directory on the way and the path itself, unless it ends in a delimiter; the
    bytes stay. *)
Lemma path_prefixes d input b : d ≠ 0%Z → last input = Some b →
  Path_Tokenize (NewPathHierarchyTokenizer d 0 0) input =
  Ok (((λ i, makeToken input 0 i) <$> filter (λ i, input !! i = Some d) (seq 1 (length input - 1)))
      ++ (if decide (b = d) then [] else [makeToken input 0 (length input)]), input).
Proof.
  intros Hd Hl. unfold Path_Tokenize, NewPathHierarchyTokenizer. rewrite decide_False, decide_True by done.
  assert (∀ ks rv, foldl (path_turn (mkPath d d 0)) (input, 0, 0%Z, rv) ks =
    (input, 0, 0%Z, rv ++ ((λ i, makeToken input 0 i) <$> filter (λ i, input !! i = Some d) ks))) as ->.
  { induction ks as [|i ks IH]; intros rv; cbn [foldl]; [by rewrite app_nil_r|]. unfold path_turn at 2. cbn [delimiter replacement p_skip].
    rewrite filter_cons. case_decide as Hi; [|apply IH]. rewrite list_insert_id by done. rewrite decide_False by lia.
    rewrite IH, <-app_assoc. done. }
  cbn [app]. rewrite Hl. cbn [delimiter p_skip]. do 2 f_equal. repeat case_decide; try done; rewrite ?app_nil_r; naive_solver.
Qed.

(** * Texts *)

Module TokenDemo.

(** Letters and digits of ASCII. *)
#[local] Instance ascii_only : Unicode := {|
  IsGraphic r := bool_decide (32 ≤ r ≤ 126)%Z; IsPrint r := bool_decide (32 ≤ r ≤ 126)%Z; IsControl r := bool_decide (r < 32)%Z;
  IsLetter r := bool_decide (65 ≤ r ≤ 90 ∨ 97 ≤ r ≤ 122)%Z; IsMark _ := false; IsNumber r := bool_decide (48 ≤ r ≤ 57)%Z;
  IsPunct _ := false; IsSpace r := bool_decide (r = 32)%Z; IsSymbol _ := false |}.

Definition show (ts : list Token) : list (string * nat * nat) := (λ t, (of_bytes (Term t), Start t, End_ t)) <$> ts.

(** The second letter takes two bytes. *)
Lemma ngrams_complete_witness :
  Ngram_Tokenize bytes 1 2 ["letter"; "é"] [97; 233; 99]%Z = Some (all_ngrams bytes 1 2 ["letter"; "é"] [97; 233; 99]%Z) ∧
  show <$> Ngram_Tokenize bytes 1 2 [] [97; 233; 99]%Z =
    Some [("a", 0, 1); ("aé", 0, 3); ("é", 1, 3); ("éc", 1, 4); ("c", 3, 4)].
Proof. split; [apply ngrams_complete; lia|by vm_compute]. Defined.

(** With lengths from 1 to 3, the last letter is no token. *)
Lemma last_ngrams_missing : show <$> Ngram_Tokenize bytes 1 3 [] (bytes "abcd") =
  Some [("a", 0, 1); ("ab", 0, 2); ("abc", 0, 3); ("b", 1, 2); ("bc", 1, 3); ("bcd", 1, 4); ("c", 2, 3); ("cd", 2, 4)].
Proof. by vm_compute. Qed.

(** Edge n-grams of letters after a digit: of the two letters of the first piece
    one is lost, and the offsets that follow are wrong. *)
Lemma edge_offsets_wrong : show (EdgeNgram_Tokenize bytes 2 3 ["letter"] (bytes "1abcd")) = [("bc", 1, 3); ("bcd", 1, 4)].
Proof. by vm_compute. Qed.

(** No text at all. *)
Lemma empty_path_panics t : Path_Tokenize t [] = Panic PIndex.
Proof. done. Qed.

(** A replaced delimiter at the end is not seen. *)
Lemma replaced_delimiter_kept :
  (λ r, (show r.1, of_bytes r.2)) <$> Path_Tokenize (NewPathHierarchyTokenizer 47 45 0) (bytes "a/b/") =
    Ok ([("a", 0, 1); ("a-b", 0, 3); ("a-b-", 0, 4)], "a-b-") ∧
  (λ r, (show r.1, of_bytes r.2)) <$> Path_Tokenize (NewPathHierarchyTokenizer 47 0 0) (bytes "a/b/") = Ok ([("a", 0, 1); ("a/b", 0, 3)], "a/b/").
Proof. by vm_compute. Qed.

(** Irish is taken for Persian, and two names are misspelt. *)
Lemma stop_word_names :
  language_of "_irish_" = language_of "_persian_" ∧ language_of "_catalan_" = None ∧ language_of "_lv_" = None.
Proof. done. Qed.

(** The first word found by the search tokenizer has no position of its own. *)
Lemma first_word_position : PositionIncr <$> Search_Tokenize [mkSegment (bytes "ab") 0 2; mkSegment (bytes "abc") 0 3; mkSegment (bytes "d") 3 4] = [0; 0; 1]%Z.
Proof. done. Qed.
End TokenDemo.
