(* ===== verification/Analyzers.v ===== *)
(** Analysis settings (pkg/uquery/analysis and its packages): the character
    filters, tokenizers and token filters a request may name, with their options,
    the analyzers built from them, and the handler that tries an analyzer out
    (pkg/handlers/index/analyzer.go).  A filter or tokenizer is described by the
    constructor it is made with and the arguments of that call. *)
From Stdlib Require Import SpecFloat.
From S2P Require Import Prelude Hash Strconv Value Document Query Shards Merge TextOrder Tokenizers.

(** * Components *)

Inductive CharFilter :=
  | CASCIIFolding | CHTML | CZeroWidthNonJoiner
  | CRegexp (pattern replacement : string)
  | CMapping (rules : list (string * string)).

(** [ZBluge] and [TBluge]: a constructor of bluge without arguments. *)
Inductive Tokenizer :=
  | ZBluge (name : string)
  | ZCharacter (class : string)
  | ZCharGroup (chars : list string)
  | ZEdgeNgram (min max : Z) (tokenChars : list string)
  | ZException (pattern : string)
  | ZLowerCase
  | ZNgram (min max : Z) (tokenChars : list string)
  | ZPathHierarchy (t : PathHierarchy)
  | ZRegexp (pattern : string)
  | ZGse (search : bool).

Inductive TokenFilter :=
  | TBluge (name : string)
  | TDict (words : list string) (minWordSize minSubWordSize maxSubWordSize : Z) (onlyLongestMatch : bool)
  | TEdgeNgram (back : bool) (min max : Z)
  | TElision (articles : list string)
  | TKeyword (keywords : list string)
  | TLength (min max : Z)
  | TNgram (min max : Z)
  | TRegexp (pattern replacement : string)
  | TShingle (min max : Z) (outputOriginal : bool) (separator filler : string)
  | TTrim
  | TStop (stopwords : list string)
  | TTruncate (length : Z)
  | TUnicodenorm (form : string)
  | TUpperCase
  | TGseStop.

Record Analyzer := mkAnalyzer { CharFilters : list CharFilter; a_Tokenizer : option Tokenizer; TokenFilters : list TokenFilter }.

(** ** Options *)

(** Getters whose error is dropped. *)
Definition opt_string (options : value) (key : string) : string := match GetStringFromMap options key with Ok s => s | _ => "" end.
Definition opt_strings (options : value) (key : string) : list string := match GetStringSliceFromMap options key with Ok s => s | _ => [] end.
Definition opt_float (options : value) (key : string) (zero : Z) : float64 :=
  let x := match GetFloatFromMap options key with Ok x => x | _ => S754_zero false end in
  if float_is_zero x then float_of_Z zero else x.
Definition opt_bool (options : value) (key : string) : bool := match GetBoolFromMap options key with Ok b => b | _ => false end.

(** [min_gram] and [max_gram]. *)
Definition gram_sizes (what : string) (options : value) : res (Z * Z) :=
  let min := opt_float options "min_gram" 1 in
  let max := opt_float options "max_gram" 2 in
  if SFltb max min then parsing (what +:+ " option [min_gram] should be not greater than [max_gram]")
  else Ok (int64_of_float min, int64_of_float max).

Section components.
(** [regexp.Compile]: the error, if there is one. *)
Context (Compile : string → option string).

Definition compiled (what pattern : string) : res unit :=
  match Compile pattern with Some e => parsing (what +:+ " compile error: " +:+ e) | None => Ok tt end.

(** * char_filter.go *)

Definition NewRegexpCharFilter (options : value) : res CharFilter :=
  let pattern := opt_string options "pattern" in
  if decide (pattern = "") then parsing "[char_filter] regexp option [pattern] should be exists" else
  _ ← compiled "[char_filter] regexp option [pattern]" pattern;
  Ok (CRegexp pattern (opt_string options "replacement")).

Definition contains_arrow (s : string) : bool := match cut " => " s with Some _ => true | None => false end.

Definition new_mapping_filter (options : value) : res CharFilter :=
  match opt_strings options "mappings" with
  | [] => parsing "[char_filter] mapping option [mappings] should be exists"
  | mappings =>
      match filter (λ m, contains_arrow m = false) mappings with
      | m :: _ => Err (error_new "runtime_exception" ("[char_filter] mapping option [mappings] Invalid Mapping Rule: [" +:+ m +:+ "], should be [old => new]"))
      | [] => Ok (CMapping (NewMappingCharFilter mappings))
      end
  end.

Definition RequestCharFilterSingle (name : string) (options : value) : res CharFilter :=
  let name := ToLower name in
  if decide (name ∈ ["ascii_folding"; "asciifolding"]) then Ok CASCIIFolding
  else if decide (name ∈ ["html"; "html_strip"]) then Ok CHTML
  else if decide (name = "zero_width_non_joiner") then Ok CZeroWidthNonJoiner
  else if decide (name ∈ ["regexp"; "pattern"; "pattern_replace"]) then NewRegexpCharFilter options
  else if decide (name = "mapping") then new_mapping_filter options
  else xcontent ("[char_filter] unknown character filter [" +:+ name +:+ "]").

(** * tokenizer.go *)

(** The function of package unicode a class stands for. *)
Definition character_class (char : string) : option string :=
  if decide (char ∈ ["graphic"; "print"; "control"; "letter"; "mark"; "symbol"]) then Some char
  else if decide (char ∈ ["number"; "digit"]) then Some "number"
  else if decide (char ∈ ["punct"; "punctuation"]) then Some "punct"
  else if decide (char ∈ ["space"; "whitespace"; "white_space"]) then Some "space"
  else None.

Definition NewCharacterTokenizer (options : value) : res Tokenizer :=
  let char := opt_string options "char" in
  match character_class char with
  | Some class => Ok (ZCharacter class)
  | None => parsing ("[tokenizer] character doesn't support char [" +:+ char +:+ "]")
  end.

Definition NewCharGroupTokenizer (options : value) : res Tokenizer :=
  match GetStringSliceFromMap options "tokenize_on_chars" with
  | Ok chars => Ok (ZCharGroup (group_chars chars))
  | _ => parsing "[tokenizer] char_group option [tokenize_on_chars] should be an array of string"
  end.

Definition NewEdgeNgramTokenizer (options : value) : res Tokenizer :=
  '(min, max) ← gram_sizes "[tokenizer] edge_ngram" options; Ok (ZEdgeNgram min max (opt_strings options "token_chars")).
Definition NewNgramTokenizer (options : value) : res Tokenizer :=
  '(min, max) ← gram_sizes "[tokenizer] ngram" options; Ok (ZNgram min max (opt_strings options "token_chars")).

Definition NewExceptionTokenizer (options : value) : res Tokenizer :=
  match GetStringSliceFromMap options "patterns" with
  | Ok patterns =>
      let pattern := Join "|" patterns in
      _ ← compiled "[tokenizer] exception option [patterns]" pattern; Ok (ZException pattern)
  | _ => parsing "[tokenizer] exception option [patterns] should be an array of string"
  end.

(** [s[0]] of a text that is not empty. *)
Definition first_byte (s : string) : Z := default 0%Z (head (bytes s)).
Definition new_path_tokenizer (options : value) : res Tokenizer :=
  let delimiter := opt_string options "delimiter" in
  let delimiter := if decide (delimiter = "") then "/" else delimiter in
  let replacement := opt_string options "replacement" in
  let replacement := if decide (replacement = "") then delimiter else replacement in
  Ok (ZPathHierarchy (NewPathHierarchyTokenizer (first_byte delimiter) (first_byte replacement) (int64_of_float (opt_float options "skip" 0)))).

Definition NewRegexpTokenizer (options : value) : res Tokenizer :=
  let pattern := opt_string options "pattern" in
  let pattern := if decide (pattern = "") then "\w+" else pattern in
  _ ← compiled "[tokenizer] regexp option [pattern]" pattern; Ok (ZRegexp pattern).

Definition RequestTokenizerSingle (name : string) (options : value) : res Tokenizer :=
  let name := ToLower name in
  if decide (name = "character") then NewCharacterTokenizer options
  else if decide (name = "char_group") then NewCharGroupTokenizer options
  else if decide (name = "edge_ngram") then NewEdgeNgramTokenizer options
  else if decide (name = "exception") then NewExceptionTokenizer options
  else if decide (name ∈ ["letter"; "simple"]) then Ok (ZBluge "letter")
  else if decide (name ∈ ["lower_case"; "lowercase"]) then Ok ZLowerCase
  else if decide (name = "ngram") then NewNgramTokenizer options
  else if decide (name = "path_hierarchy") then new_path_tokenizer options
  else if decide (name ∈ ["regexp"; "pattern"]) then NewRegexpTokenizer options
  else if decide (name ∈ ["single"; "keyword"]) then Ok (ZBluge "single")
  else if decide (name ∈ ["unicode"; "standard"]) then Ok (ZBluge "unicode")
  else if decide (name = "web") then Ok (ZBluge "web")
  else if decide (name = "whitespace") then Ok (ZBluge "whitespace")
  else if decide (name = "gse_standard") then Ok (ZGse false)
  else if decide (name = "gse_search") then Ok (ZGse true)
  else xcontent ("[tokenizer] unknown tokenizer [" +:+ name +:+ "]").

(** * token_filter.go *)

Definition NewDictTokenFilter (options : value) : res TokenFilter :=
  match GetStringSliceFromMap options "words" with
  | Ok words =>
      Ok (TDict words (int64_of_float (opt_float options "min_word_size" 5)) (int64_of_float (opt_float options "min_sub_word_size" 2))
            (int64_of_float (opt_float options "max_sub_word_size" 15)) (opt_bool options "only_longest_match"))
  | _ => parsing "[token_filter] dict option [words] should be an array of string"
  end.

Definition NewEdgeNgramTokenFilter (options : value) : res TokenFilter :=
  '(min, max) ← gram_sizes "[token_filter] edge_ngram" options;
  Ok (TEdgeNgram (bool_decide (ToLower (opt_string options "side") = "back")) min max).
Definition NewNgramTokenFilter (options : value) : res TokenFilter :=
  '(min, max) ← gram_sizes "[token_filter] ngram" options; Ok (TNgram min max).

Definition NewElisionTokenFilter (options : value) : res TokenFilter :=
  Ok (TElision match GetStringSliceFromMap options "articles" with
               | Ok articles => articles
               | _ => ["l"; "m"; "t"; "qu"; "n"; "s"; "j"; "d"; "c"; "jusqu"; "quoiqu"; "lorsqu"; "puisqu"]
               end).

Definition NewKeywordTokenFilter (options : value) : res TokenFilter :=
  match GetStringSliceFromMap options "keywords" with
  | Ok keywords => Ok (TKeyword keywords)
  | _ => parsing "[token_filter] keyword option [keywords] should be an array of string"
  end.

Definition NewLengthTokenFilter (options : value) : res TokenFilter :=
  Ok (TLength (int64_of_float (opt_float options "min" 1)) (int64_of_float (opt_float options "max" 2))).

Definition NewRegexpTokenFilter (options : value) : res TokenFilter :=
  let pattern := opt_string options "pattern" in
  if decide (pattern = "") then parsing "[token_filter] regexp option [pattern] should be exists" else
  _ ← compiled "[token_filter] regexp option [pattern]" pattern;
  Ok (TRegexp pattern (opt_string options "replacement")).

(** A value for [output_original] that is no bool fails the assertion. *)
Definition NewShingleTokenFilter (options : value) : res TokenFilter :=
  let nonempty s d := if decide (s = "") then d else s in
  outputOriginal ← match GetAnyFromMap options "output_original" with
                   | Ok VNil => Ok true
                   | Ok v => assert_as as_bool v
                   | _ => Ok true
                   end;
  Ok (TShingle (int64_of_float (opt_float options "min_shingle_size" 2)) (int64_of_float (opt_float options "max_shingle_size" 2)) outputOriginal
        (nonempty (opt_string options "token_separator") " ") (nonempty (opt_string options "filler_token") "_")).

Definition NewStopTokenFilter (options : value) : res TokenFilter := Ok (TStop (opt_strings options "stopwords")).
Definition NewTruncateTokenFilter (options : value) : res TokenFilter := Ok (TTruncate (int64_of_float (opt_float options "length" 10))).

Definition NewUnicodenormTokenFilter (options : value) : res TokenFilter :=
  let form := ToUpper (opt_string options "form") in
  if decide (form ∈ ["NFC"; "NFD"; "NFKC"; "NFKD"]) then Ok (TUnicodenorm form)
  else parsing ("[token_filter] unicodenorm doesn't support form [" +:+ form +:+ "]").

(** The filters of a language: every name of the filter with the one it is given here. *)
Definition language_filters : list (list string * string) :=
  [(["ar_normalization"; "arabic_normalization"], "ar_normalization"); (["ar_stemmer"; "arabic_stemmer"], "ar_stemmer");
   (["cjk_bigram"], "cjk_bigram"); (["cjk_width"], "cjk_width");
   (["ckb_normalization"; "sorani_normalization"], "ckb_normalization"); (["ckb_stemmer"; "sorani_stemmer"], "ckb_stemmer");
   (["da_stemmer"; "danish_stemmer"], "da_stemmer"); (["de_normalization"; "german_normalization"], "de_normalization");
   (["de_stemmer"; "german_stemmer"], "de_stemmer"); (["de_light_stemmer"; "german_light_stemmer"], "de_light_stemmer");
   (["en_possessive_stemmer"; "english_possessive_stemmer"], "en_possessive_stemmer"); (["en_stemmer"; "english_stemmer"], "en_stemmer");
   (["es_stemmer"; "spanish_stemmer"], "es_stemmer"); (["es_light_stemmer"; "spanish_light_stemmer"], "es_light_stemmer");
   (["fa_normalization"; "persian_normalization"], "fa_normalization"); (["fi_stemmer"; "finnish_stemmer"], "fi_stemmer");
   (["fr_elision"; "french_elision"], "fr_elision"); (["fr_stemmer"; "french_stemmer"], "fr_stemmer");
   (["fr_light_stemmer"; "french_light_stemmer"], "fr_light_stemmer"); (["fr_minimal_stemmer"; "french_minimal_stemmer"], "fr_minimal_stemmer");
   (["ga_elision"; "irish_elision"], "ga_elision"); (["hi_normalization"; "hindi_normalization"], "hi_normalization");
   (["hi_stemmer"; "hindi_stemmer"], "hi_stemmer"); (["hu_stemmer"; "hungarian_stemmer"], "hu_stemmer");
   (["in_normalization"; "indic_normalization"], "in_normalization"); (["it_elision"; "italian_elision"], "it_elision");
   (["it_stemmer"; "italian_stemmer"], "it_stemmer"); (["it_light_stemmer"; "italian_light_stemmer"], "it_light_stemmer");
   (["nl_stemmer"; "dutch_stemmer"], "nl_stemmer"); (["no_stemmer"; "norwegian_stemmer"], "no_stemmer");
   (["pt_light_stemmer"; "portuguese_stemmer"; "portuguese_light_stemmer"], "pt_light_stemmer"); (["ro_stemmer"; "romanian_stemmer"], "ro_stemmer");
   (["ru_stemmer"; "russian_stemmer"], "ru_stemmer"); (["sv_stemmer"; "swedish_stemmer"], "sv_stemmer"); (["tr_stemmer"; "turkish_stemmer"], "tr_stemmer")].

(** The entry of a table a name belongs to. *)
Definition entry_of (table : list (list string * string)) (name : string) : option string :=
  match filter (λ e, name ∈ e.1) table with e :: _ => Some e.2 | [] => None end.

Definition RequestTokenFilterSingle (name : string) (options : value) : res TokenFilter :=
  let name := ToLower name in
  if decide (name = "apostrophe") then Ok (TBluge "apostrophe")
  else if decide (name ∈ ["camel_case"; "camelcase"]) then Ok (TBluge "camel_case")
  else if decide (name = "dict") then NewDictTokenFilter options
  else if decide (name = "edge_ngram") then NewEdgeNgramTokenFilter options
  else if decide (name = "elision") then NewElisionTokenFilter options
  else if decide (name ∈ ["keyword"; "keyword_marker"]) then NewKeywordTokenFilter options
  else if decide (name = "length") then NewLengthTokenFilter options
  else if decide (name ∈ ["lower_case"; "lowercase"]) then Ok (TBluge "lower_case")
  else if decide (name = "ngram") then NewNgramTokenFilter options
  else if decide (name ∈ ["porter"; "stemmer"]) then Ok (TBluge "porter")
  else if decide (name = "reverse") then Ok (TBluge "reverse")
  else if decide (name ∈ ["regexp"; "pattern_replace"]) then NewRegexpTokenFilter options
  else if decide (name = "shingle") then NewShingleTokenFilter options
  else if decide (name = "trim") then Ok TTrim
  else if decide (name = "stop") then NewStopTokenFilter options
  else if decide (name = "truncate") then NewTruncateTokenFilter options
  else if decide (name = "unicodenorm") then NewUnicodenormTokenFilter options
  else if decide (name = "unique") then Ok (TBluge "unique")
  else if decide (name ∈ ["upper_case"; "uppercase"]) then Ok TUpperCase
  else if decide (name = "gse_stop") then Ok TGseStop
  else match entry_of language_filters name with
       | Some f => Ok (TBluge f)
       | None => xcontent ("[token_filter] unknown token filter [" +:+ name +:+ "]")
       end.
End components.

(** * Named and listed components *)

Section requests.
Context {X : Type} (what : string) (single : string → value → res X).

(** [RequestCharFilter], [RequestTokenizer] and [RequestTokenFilter]: an object of
    components, each with its type among the options. *)
Definition request_named (data : list (string * value)) : res (gmap string X) :=
  foldM (λ filters '(name, options),
    match GetStringFromMap options "type" with
    | Ok typ => filter ← single typ options; Ok (<[name := filter]> filters)
    | _ => parsing ("[" +:+ what +:+ "] " +:+ name +:+ " option [type] should be exists")
    end) ∅ data.

(** [RequestCharFilterSlice] and [RequestTokenFilterSlice]: names, or objects. *)
Definition request_slice (data : list value) : res (list X) :=
  foldM (λ filters options,
    filter ← match options with
             | VStr v => single v VNil
             | VMap _ =>
                 match GetStringFromMap options "type" with
                 | Ok typ => single typ options
                 | _ => parsing ("[" +:+ what +:+ "] option [type] should be exists")
                 end
             | _ => parsing ("[" +:+ what +:+ "] option should be string or object")
             end;
    Ok (filters ++ [filter])) [] data.

(** [RequestTokenizerSlice]: names only. *)
Definition request_names (data : list value) : res (list X) :=
  foldM (λ zers typ,
    match typ with
    | VStr typ => zer ← single typ VNil; Ok (zers ++ [zer])
    | _ => parsing ("[" +:+ what +:+ "] option should be string")
    end) [] data.

(** [parseTokenizer], [parseTokenFilter] and [parseCharFilter] of the handler; the
    order of the components of an object is that of a map. *)
Definition parse_components (slice : list value → res (list X)) (order : map_order string X) (data : value) : res (list X) :=
  match data with
  | VNil => Ok []
  | VStr v => x ← single v VNil; Ok [x]
  | VArr v => slice v
  | VMap v =>
      match GetStringFromMap data "type" with
      | Ok typ => if decide (typ = "") then m ← request_named v; Ok (range order m).*2 else x ← single typ data; Ok [x]
      | _ => m ← request_named v; Ok (range order m).*2
      end
  | _ => Err (what +:+ " unsuported type")
  end.
End requests.

(** * analyzer.go *)

(** meta.Analyzer; [None] is a nil slice. *)
Record AnalyzerSpec := mkSpec {
  sp_CharFilter : list string; sp_Tokenizer : string; sp_TokenFilter : option (list string); sp_Filter : option (list string);
  sp_Type : string; sp_Pattern : string; sp_Lowercase : bool; sp_Stopwords : list string
}.

(** meta.IndexAnalysis; [None] is a nil map. *)
Record IndexAnalysis := mkAnalysis {
  ia_Analyzer : option (list (string * AnalyzerSpec));
  ia_CharFilter : list (string * value); ia_Tokenizer : list (string * value);
  ia_TokenFilter : option (list (string * value)); ia_Filter : option (list (string * value))
}.

Section analyzers.
Context (Compile : string → option string).
(** The analyzers of bluge, by the package or constructor they come from. *)
Context (bluge : string → Analyzer).

Abbreviation char_single := (RequestCharFilterSingle Compile).
Abbreviation zer_single := (RequestTokenizerSingle Compile).
Abbreviation token_single := (RequestTokenFilterSingle Compile).

Definition RequestCharFilter : list (string * value) → res (gmap string CharFilter) := request_named "char_filter" char_single.
Definition RequestTokenizer : list (string * value) → res (gmap string Tokenizer) := request_named "tokenizer" zer_single.
Definition RequestTokenFilter : list (string * value) → res (gmap string TokenFilter) := request_named "token_filter" token_single.
Definition RequestCharFilterSlice : list value → res (list CharFilter) := request_slice "char_filter" char_single.
Definition RequestTokenizerSlice : list value → res (list Tokenizer) := request_names "tokenizer" zer_single.
Definition RequestTokenFilterSlice : list value → res (list TokenFilter) := request_slice "token_filter" token_single.

Definition add_filters (chars : list CharFilter) (tokens : list TokenFilter) (a : Analyzer) : Analyzer :=
  mkAnalyzer (CharFilters a ++ chars) (a_Tokenizer a) (TokenFilters a ++ tokens).

(** The options are given as an object; a bool among them is always there. *)
Definition NewRegexpAnalyzer (pattern : string) (lowercase : option bool) (stopwords : list string) : res Analyzer :=
  let pattern := if decide (pattern = "") then "\w+" else pattern in
  _ ← compiled Compile "[analyzer] regexp option [pattern]" pattern;
  Ok (mkAnalyzer [] (Some (ZRegexp pattern))
        ((if default true lowercase : bool then [TBluge "lower_case"] else []) ++ (if decide (stopwords = []) then [] else [TStop stopwords]))).

Definition NewStandardAnalyzer (stopwords : list string) : Analyzer :=
  add_filters [] (if decide (stopwords = []) then [] else [TStop stopwords]) (bluge "standard").
Definition NewStopAnalyzer (stopwords : list string) : Analyzer := add_filters [] [TStop stopwords] (bluge "simple").
Definition NewWhitespaceAnalyzer : Analyzer := mkAnalyzer [] (Some (ZBluge "whitespace")) [].

(** lang/chs/analyzer. *)
Definition chs_analyzer (search : bool) : Analyzer := mkAnalyzer [] (Some (ZGse search)) [TBluge "lower_case"; TGseStop].

Definition language_analyzers : list (list string * string) :=
  [(["ar"; "arabic"], "ar"); (["cjk"], "cjk"); (["ckb"; "sorani"], "ckb"); (["da"; "danish"], "da"); (["de"; "german"], "de");
   (["en"; "english"], "en"); (["es"; "spanish"], "es"); (["fa"; "persian"], "fa"); (["fi"; "finnish"], "fi"); (["fr"; "french"], "fr");
   (["hi"; "hindi"], "hi"); (["hu"; "hungarian"], "hu"); (["it"; "italian"], "it"); (["nl"; "dutch"], "nl"); (["no"; "norwegian"], "no");
   (["pt"; "portuguese"], "pt"); (["ro"; "romanian"], "ro"); (["ru"; "russian"], "ru"); (["sv"; "swedish"], "sv"); (["tr"; "turkish"], "tr")].

(** The analyzers that are built in: a new one for every call. *)
Definition builtin_analyzer (name : string) : res Analyzer :=
  if decide (name = "standard") then Ok (NewStandardAnalyzer [])
  else if decide (name ∈ ["simple"; "keyword"; "web"]) then Ok (bluge name)
  else if decide (name ∈ ["regexp"; "pattern"]) then NewRegexpAnalyzer "" None []
  else if decide (name = "stop") then Ok (NewStopAnalyzer [])
  else if decide (name = "whitespace") then Ok NewWhitespaceAnalyzer
  else if decide (name = "gse_standard") then Ok (chs_analyzer false)
  else if decide (name = "gse_search") then Ok (chs_analyzer true)
  else match entry_of language_analyzers name with
       | Some l => Ok (bluge l)
       | None => parsing ("[analyzer] unknown analyzer [" +:+ name +:+ "]")
       end.

Definition default_name (name : string) : string := if decide (name = "") then "default" else name.

(** [QueryAnalyzer]. *)
Definition QueryAnalyzer {A} (data : gmap string A) (new : Analyzer → A) (name : string) : res A :=
  let name := default_name name in
  match data !! name with Some v => Ok v | None => a ← builtin_analyzer name; Ok (new a) end.

(** [QueryAnalyzerForField]: the errors are dropped. *)
Definition QueryAnalyzerForField (data : gmap string Analyzer) (mappings : option Mappings) (field : string) : option Analyzer * option Analyzer :=
  if decide (field = "") then (None, None) else
  let found name := match QueryAnalyzer data (λ a, a) name with Ok a => Some a | _ => None end in
  match match mappings with Some m => m !! field | None => None end with
  | Some p => if decide (Meta.Type_ p = "text") then (found (Meta.Analyzer p), found (Meta.SearchAnalyzer p)) else (None, None)
  | None => (found "", found "")
  end.

(** The analyzer of the type of a specification. *)
Definition typed_analyzer (v : AnalyzerSpec) : res (option Analyzer) :=
  let typ := ToLower (sp_Type v) in
  if decide (typ = "" ∨ typ = "custom") then Ok None
  else if decide (typ ∈ ["regexp"; "pattern"]) then Some <$> NewRegexpAnalyzer (sp_Pattern v) (Some (sp_Lowercase v)) (sp_Stopwords v)
  else if decide (typ = "standard") then Ok (Some (NewStandardAnalyzer (sp_Stopwords v)))
  else if decide (typ = "stop") then Ok (Some (NewStopAnalyzer (sp_Stopwords v)))
  else match builtin_analyzer (default_name typ) with
       | Ok a => Ok (Some a)
       | _ => parsing ("[analyzer] unsuported build-in analyzer [" +:+ typ +:+ "]")
       end.

(** The component of a name: one that is built in and needs no options, else one
    of the request. *)
Definition component {X} (single : string → value → res X) (named : gmap string X) (name : string) : res (option X) :=
  match single name VNil with
  | Ok x => Ok (Some x)
  | Panic p => Panic p
  | Err _ => Ok (named !! name)
  end.

Definition components {X} (single : string → value → res X) (named : gmap string X) (undefined : string → string) (names : list string)
    : res (list X) :=
  foldM (λ xs name, o ← component single named name;
    match o with Some x => Ok (xs ++ [x]) | None => parsing (undefined name) end) [] names.

(** One analyzer of the request. *)
Definition request_analyzer (chars : gmap string CharFilter) (zers : gmap string Tokenizer) (tokens : gmap string TokenFilter)
    (name : string) (v : AnalyzerSpec) : res Analyzer :=
  if decide (sp_Tokenizer v = "" ∧ sp_Type v = "") then parsing ("[analyzer] [" +:+ name +:+ "] is missing tokenizer") else
  ana ← typed_analyzer v;
  zer ← component zer_single zers (sp_Tokenizer v);
  _ ← match zer, ana with
      | None, None => parsing ("[analyzer] [" +:+ name +:+ "] used undifined tokenizer " +:+ sp_Tokenizer v)
      | _, _ => Ok tt
      end;
  cs ← components char_single chars (λ f, "[analyzer] [" +:+ name +:+ "] used undefined char_filter [" +:+ f +:+ "]") (sp_CharFilter v);
  ts ← components token_single tokens (λ f, "[analyzer] [" +:+ name +:+ "] used undefined token_filter [" +:+ f +:+ "]")
         (default (default [] (sp_Filter v)) (sp_TokenFilter v));
  Ok (add_filters cs ts (default (mkAnalyzer [] zer []) ana)).

(** [RequestAnalyzer]; the filters may be given under either name. *)
Definition RequestAnalyzer (data : option IndexAnalysis) : res (gmap string Analyzer) :=
  match data with
  | None => Ok ∅
  | Some data =>
      match ia_Analyzer data with
      | None => Ok ∅
      | Some specs =>
          chars ← RequestCharFilter (ia_CharFilter data);
          tokens ← RequestTokenFilter (default (default [] (ia_Filter data)) (ia_TokenFilter data));
          zers ← RequestTokenizer (ia_Tokenizer data);
          foldM (λ analyzers '(name, v), a ← request_analyzer chars zers tokens name v; Ok (<[name := a]> analyzers)) ∅ specs
      end
  end.

(** * handlers/index/analyzer.go *)

(** Analyzers are objects: the ones of an index are shared with it. *)
Record heap := mkHeap { objects : gmap nat Analyzer; next : nat }.
Definition alloc (a : Analyzer) : M heap nat := λ h, (Ok (next h), mkHeap (<[next h := a]> (objects h)) (S (next h))).
Definition read (l : nat) : M heap Analyzer := λ h, (Ok (default (mkAnalyzer [] None []) (objects h !! l)), h).
Definition write (l : nat) (a : Analyzer) : M heap unit := λ h, (Ok tt, mkHeap (<[l := a]> (objects h)) (next h)).

Record AnalyzeRequest := mkRequest {
  q_Analyzer : string; q_Field : string; q_Text : string;
  q_Tokenizer : value; q_CharFilter : value; q_TokenFilter : value; q_Filter : value
}.

Definition parseCharFilter (order : map_order string CharFilter) : value → res (list CharFilter) :=
  parse_components "char_filter" char_single RequestCharFilterSlice order.
Definition parseTokenizer (order : map_order string Tokenizer) : value → res (list Tokenizer) :=
  parse_components "tokenizer" zer_single RequestTokenizerSlice order.
Definition parseTokenFilter (order : map_order string TokenFilter) : value → res (list TokenFilter) :=
  parse_components "token_filter" token_single RequestTokenFilterSlice order.

Inductive outcome := Tokens (a : Analyzer) | Rejected (error : string).

(** The name of the analyzer: of the request, else of the field. *)
Definition analyzer_name (query : AnalyzeRequest) (mappings : Mappings) : string :=
  if decide (q_Analyzer query = "" ∧ q_Field query ≠ "") then
    match mappings !! q_Field query with
    | Some prop => if decide (Meta.SearchAnalyzer prop = "") then Meta.Analyzer prop else Meta.SearchAnalyzer prop
    | None => ""
    end
  else q_Analyzer query.

Definition find_analyzer (analyzers : gmap string nat) (name : string) : M heap (option nat) := λ h,
  match analyzers !! default_name name with
  | Some l => (Ok (Some l), h)
  | None => match builtin_analyzer (default_name name) with
            | Ok a => (Some <$> (alloc a h).1, (alloc a h).2)
            | Err _ => (Ok None, h)
            | Panic p => (Panic p, h)
            end
  end.

(** [Analyze]: the index, if the path has one, is given as its name and what is
    found of it, the mappings and analyzers.  The analyzer the
    text would be given to is the outcome. *)
Definition Analyze (oc : map_order string CharFilter) (ot : map_order string TokenFilter) (oz : map_order string Tokenizer)
    (index : option (string * res (Mappings * gmap string nat))) (query : AnalyzeRequest) : M heap outcome :=
  match index with
  | Some (_, Ok _) | None =>
      let '(name, analyzers) := match index with
                                | Some (_, Ok (mappings, analyzers)) => (analyzer_name query mappings, analyzers)
                                | _ => (q_Analyzer query, ∅)
                                end in
      l ← find_analyzer analyzers name;
      match l, decide (name = "") with
      | None, right _ => mret (Rejected ("analyzer " +:+ name +:+ " does not exists"))
      | _, _ =>
          l ← match l with Some l => mret l | None => alloc (mkAnalyzer [] None []) end;
          let tokenFilter := match q_TokenFilter query with VNil => q_Filter query | v => v end in
          match (chars ← parseCharFilter oc (q_CharFilter query);
                 tokens ← parseTokenFilter ot tokenFilter;
                 zers ← parseTokenizer oz (q_Tokenizer query);
                 Ok (chars, tokens, zers)) with
          | Ok (chars, tokens, zers) =>
              a ← read l;
              let a := add_filters chars tokens a in
              let a := mkAnalyzer (CharFilters a) (match zers with z :: _ => Some z | [] => a_Tokenizer a end) (TokenFilters a) in
              _ ← write l a;
              mret (match a_Tokenizer a with Some _ => Tokens a | None => Rejected "analyzer need set a tokenizer" end)
          | Err e => mret (Rejected e)
          | Panic p => crash p
          end
      end
  | Some (target, Err e) => mret (Rejected ("index " +:+ target +:+ " does not exists"))
  | Some (_, Panic p) => crash p
  end.
End analyzers.

(** * Analyzers of a request can be used *)

Section usable.
Context (Compile : string → option string) (bluge : string → Analyzer).
Hypothesis bluge_tokenizes : ∀ name, is_Some (a_Tokenizer (bluge name)).

Definition usable (a : Analyzer) : Prop := is_Some (a_Tokenizer a).

Lemma usable_add cs ts a : usable a → usable (add_filters cs ts a).
Proof. done. Qed.

Lemma regexp_usable pattern lowercase stopwords a : NewRegexpAnalyzer Compile pattern lowercase stopwords = Ok a → usable a.
Proof. unfold NewRegexpAnalyzer, compiled. cbn. repeat case_match; intros [= <-]; by eexists. Qed.

Lemma builtin_usable name a : builtin_analyzer Compile bluge name = Ok a → usable a.
Proof.
  unfold builtin_analyzer. repeat case_decide; try (intros [= <-]; by (apply bluge_tokenizes || eexists)).
  - apply regexp_usable.
  - destruct (entry_of _ _); [|done]. intros [= <-]. apply bluge_tokenizes.
Qed.

Lemma typed_usable v a : typed_analyzer Compile bluge v = Ok (Some a) → usable a.
Proof.
  unfold typed_analyzer. repeat case_decide; try done; try (intros [= <-]; apply bluge_tokenizes).
  - destruct (NewRegexpAnalyzer _ _ _ _) eqn:Hr; [|done..]. intros [= <-]. by eapply regexp_usable.
  - destruct (builtin_analyzer _ _ _) eqn:Hb; [|done..]. intros [= <-]. by eapply builtin_usable.
Qed.

(** The component of a name: a built-in one, else the one the settings define. *)
Definition resolves {X} (single : string → value → res X) (named : gmap string X) (name : string) (x : X) : Prop :=
  single name VNil = Ok x ∨ is_ok (single name VNil) = false ∧ named !! name = Some x.

Lemma component_resolves {X} (single : string → value → res X) named name x : component single named name = Ok (Some x) → resolves single named name x.
Proof. unfold component, resolves. destruct (single name VNil) as [y|e|p]; [intros [= <-]; by left|intros [= Hn]; by right|done]. Qed.

Lemma components_resolve {X} (single : string → value → res X) named undefined names xs :
  components single named undefined names = Ok xs → Forall2 (resolves single named) names xs.
Proof.
  unfold components. cut (∀ done xs0, Forall2 (resolves single named) done xs0 →
    foldM (λ xs name, o ← component single named name; match o with Some x => Ok (xs ++ [x]) | None => parsing (undefined name) end) xs0 names = Ok xs →
    Forall2 (resolves single named) (done ++ names) xs).
  { intros H. by apply (H [] []). }
  induction names as [|name names IH]; intros done xs0 Hd; cbn [foldM]; [intros [= <-]; by rewrite app_nil_r|].
  destruct (component single named name) as [[x|]|e|p] eqn:Hc; try discriminate. intros Hf.
  replace (done ++ name :: names) with ((done ++ [name]) ++ names) by (by rewrite <- app_assoc). apply (IH _ (xs0 ++ [x])); [|exact Hf].
  apply Forall2_app; [done|]. constructor; [by apply component_resolves|constructor].
Qed.

(** What an analyzer of the settings is made of. *)
Definition built (chars : gmap string CharFilter) (zers : gmap string Tokenizer) (tokens : gmap string TokenFilter) (v : AnalyzerSpec) (a : Analyzer) : Prop :=
  usable a ∧
  ∃ base cs ts,
    (typed_analyzer Compile bluge v = Ok (Some base) ∨
     typed_analyzer Compile bluge v = Ok None ∧
     ∃ z, resolves (RequestTokenizerSingle Compile) zers (sp_Tokenizer v) z ∧ base = mkAnalyzer [] (Some z) []) ∧
    Forall2 (resolves (RequestCharFilterSingle Compile) chars) (sp_CharFilter v) cs ∧
    Forall2 (resolves (RequestTokenFilterSingle Compile) tokens) (default (default [] (sp_Filter v)) (sp_TokenFilter v)) ts ∧
    a = add_filters cs ts base.

Lemma request_analyzer_built chars zers tokens name v a : request_analyzer Compile bluge chars zers tokens name v = Ok a → built chars zers tokens v a.
Proof.
  unfold request_analyzer. case_decide; [done|]. destruct (typed_analyzer _ _ v) as [ana|e|p] eqn:Ht; [|done..].
  cbn [mbind res_bind]. destruct (component _ _ (sp_Tokenizer v)) as [zer|e|p] eqn:Hz; [|done..]. cbn [mbind res_bind].
  destruct (match zer with Some _ => _ | None => _ end) as [[]|e|p] eqn:Hu; [|done..]. cbn [mbind res_bind].
  destruct (components _ _ _ (sp_CharFilter v)) as [cs|e|p] eqn:Hc; [|done..]. cbn [mbind res_bind].
  destruct (components _ _ _ (default _ _)) as [ts|e|p] eqn:Hts; [|done..]. intros [= <-].
  apply components_resolve in Hc, Hts. destruct ana as [base|]; cbn [default].
  - split; [apply usable_add; by eapply typed_usable|]. exists base, cs, ts. auto.
  - destruct zer as [z|]; [|done]. split; [by eexists|]. exists (mkAnalyzer [] (Some z) []), cs, ts.
    split_and!; try done. right. split; [done|]. exists z. split; [by apply component_resolves|done].
Qed.

Lemma specs_built chars zers tokens specs : ∀ m0 m1 : gmap string Analyzer,
  NoDup specs.*1 →
  foldM (λ analyzers '(name, v), a ← request_analyzer Compile bluge chars zers tokens name v; Ok (<[name := a]> analyzers)) m0 specs = Ok m1 →
  dom m1 = (dom m0 ∪ list_to_set specs.*1 : gset string) ∧ (∀ name, name ∉ specs.*1 → m1 !! name = m0 !! name) ∧
  ∀ name v, (name, v) ∈ specs → ∃ a, m1 !! name = Some a ∧ built chars zers tokens v a.
Proof.
  induction specs as [|[name v] specs IH]; intros m0 m1 Hnd; cbn [foldM]; [intros [= <-]; split_and!; set_solver|].
  destruct (request_analyzer _ _ _ _ _ _ _) as [a|e|p] eqn:Ha; [|done..]. cbn [mbind res_bind]. intros Hf.
  apply NoDup_cons in Hnd as [Hni Hnd]. destruct (IH _ _ Hnd Hf) as (H1 & H2 & H3). split_and!.
  - rewrite H1. cbn. set_solver.
  - intros name'. cbn. rewrite not_elem_of_cons. intros [Hne Hn]. rewrite H2 by done. by rewrite lookup_insert_ne.
  - intros name' v' [[= -> ->]|Hin]%elem_of_cons; [|by apply H3]. exists a. rewrite H2 by done. rewrite lookup_insert_eq.
    split; [done|]. by eapply request_analyzer_built.
Qed.

(** C24: The analyzers of accepted settings are those that the settings describe.
    When [RequestAnalyzer] accepts, there is one analyzer for every name; each
    has a tokenizer - that of its built-in type, else the one named - so that
    no text runs into a nil tokenizer; and its filters are those of the built-in
    type, followed by one filter for every name listed, in that order, each a
    built-in one or else the one that the settings define under that name. *)
Theorem accepted_analyzers data specs m :
  ia_Analyzer data = Some specs → NoDup specs.*1 →
  RequestAnalyzer Compile bluge (Some data) = Ok m →
  dom m = (list_to_set specs.*1 : gset string) ∧
  ∃ chars zers tokens,
    RequestCharFilter Compile (ia_CharFilter data) = Ok chars ∧
    RequestTokenizer Compile (ia_Tokenizer data) = Ok zers ∧
    RequestTokenFilter Compile (default (default [] (ia_Filter data)) (ia_TokenFilter data)) = Ok tokens ∧
    ∀ name v, (name, v) ∈ specs → ∃ a, m !! name = Some a ∧ built chars zers tokens v a.
Proof.
  intros Hs Hnd. unfold RequestAnalyzer. rewrite Hs.
  destruct (RequestCharFilter _ _) as [chars|e|p]; [|done..]. cbn [mbind res_bind].
  destruct (RequestTokenFilter _ _) as [tokens|e|p]; [|done..]. cbn [mbind res_bind].
  destruct (RequestTokenizer _ _) as [zers|e|p]; [|done..]. cbn [mbind res_bind].
  intros (H1 & _ & H3)%specs_built; [|done]. split; [rewrite H1; set_solver|]. by exists chars, zers, tokens.
Qed.
End usable.

(** * Trying an analyzer out *)

Section trying.
Context (Compile : string → option string) (bluge : string → Analyzer).
Context (oc : map_order string CharFilter) (ot : map_order string TokenFilter) (oz : map_order string Tokenizer).

(** The components a request adds. *)
Definition extras (query : AnalyzeRequest) : res (list CharFilter * list TokenFilter * list Tokenizer) :=
  chars ← parseCharFilter Compile oc (q_CharFilter query);
  tokens ← parseTokenFilter Compile ot (match q_TokenFilter query with VNil => q_Filter query | v => v end);
  zers ← parseTokenizer Compile oz (q_Tokenizer query);
  Ok (chars, tokens, zers).

Definition with_extras (e : list CharFilter * list TokenFilter * list Tokenizer) (a : Analyzer) : Analyzer :=
  let '(chars, tokens, zers) := e in
  mkAnalyzer (CharFilters a ++ chars) (match zers with z :: _ => Some z | [] => a_Tokenizer a end) (TokenFilters a ++ tokens).

(** C26: What trying an analyzer out does to the analyzers of an index.  When the
    request names an analyzer that the index defines - itself, or through the field -
    and adds filters or a tokenizer, these are put into the very analyzer
    of the index: it is left with them, for all documents and queries to
    come, and every further request adds them again.  All other analyzers stay, and a
    request whose additions are refused changes nothing. *)
Theorem analyze_changes_analyzer target mappings analyzers query h l a :
  let name := analyzer_name query mappings in
  analyzers !! default_name name = Some l → objects h !! l = Some a →
  let '(r, h') := Analyze Compile bluge oc ot oz (Some (target, Ok (mappings, analyzers))) query h in
  (∀ l', l' ≠ l → objects h' !! l' = objects h !! l') ∧
  match extras query with
  | Ok e => objects h' !! l = Some (with_extras e a) ∧
            r = Ok (match a_Tokenizer (with_extras e a) with Some _ => Tokens (with_extras e a) | None => Rejected "analyzer need set a tokenizer" end)
  | Err e => h' = h ∧ r = Ok (Rejected e)
  | Panic p => h' = h ∧ r = Panic p
  end.
Proof.
  intros name Hl Ha. unfold Analyze. fold name. unfold mbind at 1, M_bind at 1. unfold find_analyzer. rewrite Hl.
  change (parseCharFilter Compile oc (q_CharFilter query) ≫= _) with (extras query).
  destruct (extras query) as [[[chars tokens] zers]|e|p]; destruct (decide (name = "")); try done;
    unfold read, write, mbind, M_bind, mret, M_ret; cbn; rewrite Ha; cbn;
    (split; [intros l' Hne; by rewrite lookup_insert_ne|]); rewrite lookup_insert_eq; done.
Qed.
End trying.

(** * Evaluated *)

Module AnalyzerDemo.
(** All patterns compile; the analyzers of bluge by their tokenizers. *)
Definition all_compile (_ : string) : option string := None.
Definition bluge (name : string) : Analyzer :=
  mkAnalyzer [] (Some (ZBluge (if decide (name ∈ ["simple"; "keyword"; "web"]) then name else "unicode"))) [TBluge "lower_case"].
Lemma bluge_tokenizes name : is_Some (a_Tokenizer (bluge name)).
Proof. by eexists. Qed.

Definition custom (filters : list string) : AnalyzerSpec := mkSpec ["html"] "my_grams" None (Some filters) "custom" "" false [].
Definition settings (filters : list string) : IndexAnalysis :=
  mkAnalysis (Some [("folded", custom filters); ("words", mkSpec [] "" None None "Pattern" "[a-z]+" false ["the"])]) []
    [("my_grams", VMap [("type", VStr "ngram"); ("min_gram", VFloat (float_of_Z 2)); ("max_gram", VFloat (float_of_Z 3))])] None
    (Some [("mine", VMap [("type", VStr "length"); ("max", VFloat (float_of_Z 9))]); ("length", VMap [("type", VStr "length"); ("max", VFloat (float_of_Z 9))])]).
Definition folded (filters : list TokenFilter) : Analyzer := mkAnalyzer [CHTML] (Some (ZNgram 2 3 [])) filters.

Definition analyzer_of (m : res (gmap string Analyzer)) (name : string) : option Analyzer := match m with Ok m => m !! name | _ => None end.

(** Settings that are accepted. *)
Definition accepted : gmap string Analyzer :=
  match RequestAnalyzer all_compile bluge (Some (settings ["lowercase"; "mine"])) with Ok m => m | _ => ∅ end.
Lemma accepted_eq : RequestAnalyzer all_compile bluge (Some (settings ["lowercase"; "mine"])) = Ok accepted.
Proof. vm_compute. reflexivity. Qed.
Lemma accepted_names : NoDup (default [] (ia_Analyzer (settings ["lowercase"; "mine"]))).*1.
Proof. by apply (bool_decide_unpack _). Qed.

Lemma accepted_analyzers_witness :
  accepted !! "folded" = Some (folded [TBluge "lower_case"; TLength 1 9]) ∧ ∃ a, accepted !! "words" = Some a ∧ usable a.
Proof.
  split; [vm_compute; reflexivity|].
  destruct (accepted_analyzers all_compile bluge bluge_tokenizes (settings ["lowercase"; "mine"]) _ accepted eq_refl
              accepted_names accepted_eq) as (_ & chars & zers & tokens & _ & _ & _ & Hb).
  destruct (Hb "words" (mkSpec [] "" None None "Pattern" "[a-z]+" false ["the"])) as (a & Ha & Hu & _); [right; left|]. exists a. exact (conj Ha Hu).
Defined.

(** The names that query parsing takes for built-in analyzers are those. *)
Example builtin_names : Forall (λ name, is_ok (builtin_analyzer all_compile bluge name) = true) Query.builtin_analyzers.
Proof. apply (bool_decide_unpack _). vm_compute. exact I. Qed.

(** A filter that the settings define under the name of a built-in one is never
    used: the built-in one is, with its default options. *)
Example defined_filter_is_shadowed :
  analyzer_of (RequestAnalyzer all_compile bluge (Some (settings ["mine"; "length"]))) "folded" = Some (folded [TLength 1 9; TLength 1 2]).
Proof. reflexivity. Qed.

(** The analyzer of type [pattern] leaves words as they are unless the settings say
    otherwise, the built-in analyzer of that name lowers them. *)
Example pattern_not_lowered :
  analyzer_of (RequestAnalyzer all_compile bluge (Some (settings []))) "words" = Some (mkAnalyzer [] (Some (ZRegexp "[a-z]+")) [TStop ["the"]]) ∧
  builtin_analyzer all_compile bluge "pattern" = Ok (mkAnalyzer [] (Some (ZRegexp "\w+")) [TBluge "lower_case"]).
Proof. done. Qed.

(** An option of the wrong type panics here, everywhere else it is the default. *)
Example shingle_option_panics :
  NewShingleTokenFilter (VMap [("output_original", VStr "yes")]) = Panic PTypeAssert ∧
  NewShingleTokenFilter (VMap [("token_separator", VBool true)]) = NewShingleTokenFilter (VMap []).
Proof. done. Qed.

(** The analyzer of an index, tried out with a filter twice. *)
Definition mappings : Mappings := {["title" := Meta.set_analyzers (Meta.NewProperty "text") "folded" ""]}.
Definition trying (filter : value) : AnalyzeRequest := mkRequest "" "title" "Some text" VNil VNil VNil filter.
Definition analyzers : gmap string nat := {["folded" := 0]}.
Definition store : heap := mkHeap {[ 0 := folded [] ]} 1.
Definition try_out (filter : value) (h : heap) : heap :=
  (Analyze all_compile bluge map_order_default map_order_default map_order_default (Some ("books", Ok (mappings, analyzers))) (trying filter) h).2.

Lemma analyze_changes_analyzer_witness :
  objects (try_out (VStr "reverse") store) !! 0 = Some (folded [TBluge "reverse"]) ∧
  objects (try_out (VStr "reverse") (try_out (VStr "reverse") store)) !! 0 = Some (folded [TBluge "reverse"; TBluge "reverse"]).
Proof.
  split; [|vm_compute; reflexivity].
  pose proof (analyze_changes_analyzer all_compile bluge map_order_default map_order_default map_order_default
    "books" mappings analyzers (trying (VStr "reverse")) store 0 (folded []) ltac:(vm_compute; reflexivity) ltac:(vm_compute; reflexivity)) as H.
  replace (extras _ _ _ _ _) with (Ok ([] : list CharFilter, [TBluge "reverse"], [] : list Tokenizer)) in H by (vm_compute; reflexivity).
  unfold try_out. destruct (Analyze _ _ _ _ _ _ _ _) as [r h']. destruct H as (_ & H & _). exact H.
Defined.
End AnalyzerDemo.
