(* ===== verification/MappingRequest.v ===== *)
(** Mappings (pkg/uquery/mappings): a request read into the properties of an index,
    with the checks of types, vectors and analyzers, objects flattened into
    names with dots, and sub-fields. *)
From S2P Require Import Prelude Hash Strconv Value Document Query Regexp TextOrder Tokenizers Analyzers.
Import Meta.

(** * mappings.Request *)

Definition set_time_zone (p : Property) (tz : string) : Property :=
  mkProperty (Type_ p) (Analyzer p) (SearchAnalyzer p) (Format p) tz (Index p) (Store p) (Sortable p) (Aggregatable p)
    (Highlightable p) (Fields p) (Dims p) (M p) (NBits p) (VecIndexType p) (StoreWithFloat16 p).
Definition set_stored (p : Property) (store highlightable : bool) : Property :=
  mkProperty (Type_ p) (Analyzer p) (SearchAnalyzer p) (Format p) (TimeZone p) (Index p) store (Sortable p) (Aggregatable p)
    highlightable (Fields p) (Dims p) (M p) (NBits p) (VecIndexType p) (StoreWithFloat16 p).
Definition set_vector (p : Property) (dims m nbits : Z) (typ : string) (float16 : bool) : Property :=
  mkProperty (Type_ p) (Analyzer p) (SearchAnalyzer p) (Format p) (TimeZone p) (Index p) (Store p) (Sortable p) (Aggregatable p)
    (Highlightable p) (Fields p) dims m nbits typ float16.

(** [v.(string)] and [v.(bool)] without a second result. *)
Definition the_string (v : value) : res string := match v with VStr s => Ok s | _ => Panic PTypeAssert end.
Definition the_bool (v : value) : res bool := match v with VBool b => Ok b | _ => Panic PTypeAssert end.

Definition key_of (field k : string) : string := field +:+ "." +:+ k.

Section mappings.
Context {lib : GoLib} (EnableTextKeywordMapping : bool).
Context (Compile : string → option string) (bluge : string → Analyzers.Analyzer).
(** The analyzers the index defines. *)
Context (analyzers : gmap string Analyzers.Analyzer).
(** The JSON text of the sub-fields, read into properties. *)
Context (decode_fields : list (string * value) → res (list (string * Property))).

(** The type, under any of its names; [None] is an unsupported one, the zero
    property is one that is ignored. *)
Definition typed_property (typ : string) : option Property :=
  if decide (typ = "text") then
    Some (if EnableTextKeywordMapping then AddField (NewProperty typ) "keyword" (NewProperty "keyword") else NewProperty typ)
  else if decide (typ ∈ ["keyword"; "numeric"; "bool"; "date"]) then Some (NewProperty typ)
  else if decide (typ = "constant_keyword") then Some (NewProperty "keyword")
  else if decide (typ = "match_only_text") then Some (NewProperty "text")
  else if decide (typ ∈ ["integer"; "double"; "long"; "short"; "int"; "float"]) then Some (NewProperty "numeric")
  else if decide (typ = "boolean") then Some (NewProperty "bool")
  else if decide (typ ∈ ["time"; "datetime"]) then Some (NewProperty "date")
  else if decide (typ = "vector") then Some (set_stored (NewProperty "vector") true false)
  else if decide (typ ∈ ["flattened"; "object"; "nested"; "wildcard"; "byte"; "alias"; "geo_point"; "ip"; "ip_range"; "scaled_float"])
  then Some zero_property
  else None.

Definition parse_err {A} (field what : string) (r : res A) : res A :=
  match r with Err e => parsing ("[mappings] " +:+ field +:+ " " +:+ what +:+ " parse err " +:+ e) | r => r end.

(** One turn of the loop over the options of a property, in any order. *)
Definition option_turn (field : string) (p : Property) (kv : string * value) : res Property :=
  let '(k, v) := kv in
  if decide (k = "analyzer") then s ← the_string v; Ok (set_analyzers p s (SearchAnalyzer p))
  else if decide (k = "search_analyzer") then s ← the_string v; Ok (set_analyzers p (Analyzer p) s)
  else if decide (k = "format") then s ← the_string v; Ok (set_format p s)
  else if decide (k = "time_zone") then
    s ← the_string v; _ ← parse_err field "time_zone" (ParseTimeZone LoadLocation s); Ok (set_time_zone p s)
  else if decide (k = "index") then b ← the_bool v; Ok (set_flags p b (Sortable p) (Aggregatable p))
  else if decide (k = "store") then b ← the_bool v; Ok (set_stored p b (Highlightable p))
  else if decide (k = "sortable") then b ← the_bool v; Ok (set_flags p (Index p) b (Aggregatable p))
  else if decide (k = "aggregatable") then b ← the_bool v; Ok (set_flags p (Index p) (Sortable p) b)
  else if decide (k = "highlightable") then b ← the_bool v; Ok (set_stored p (Store p) b)
  else if decide (k = "dims") then
    n ← parse_err field "dims" (ToInt v); Ok (set_vector p n (M p) (NBits p) (VecIndexType p) (StoreWithFloat16 p))
  else if decide (k = "nbits") then
    n ← parse_err field "nbits" (ToInt v); Ok (set_vector p (Dims p) (M p) n (VecIndexType p) (StoreWithFloat16 p))
  else if decide (k = "m") then
    n ← parse_err field "M" (ToInt v); Ok (set_vector p (Dims p) n (NBits p) (VecIndexType p) (StoreWithFloat16 p))
  else if decide (k = "vec_index_type") then
    s ← the_string v; Ok (set_vector p (Dims p) (M p) (NBits p) s (StoreWithFloat16 p))
  else if decide (k = "store_with_float16") then
    b ← parse_err field "store_with_float16" (ToBool v); Ok (set_vector p (Dims p) (M p) (NBits p) (VecIndexType p) b)
  else Ok p.

Definition invalid {A} (reason : string) : res A := Err (error_new "invalid_argument" reason).

(** The settings of a vector field. *)
Definition check_vec_settings (field : string) (p : Property) : res unit :=
  if decide (Dims p ≤ 0)%Z then invalid ("[mappings] " +:+ field +:+ " dims should greater than 0")
  else if decide (VecIndexType p = "flat" ∨ VecIndexType p = "hnsw") then Ok tt
  else if decide (VecIndexType p = "ivf_pq") then
    if decide (M p ≤ 0)%Z then invalid ("[mappings] " +:+ field +:+ " m should greater than 0")
    else if decide (NBits p ≤ 0)%Z then invalid ("[mappings] " +:+ field +:+ " NBits should greater than 0")
    else if decide (Z.rem (Dims p) (M p) ≠ 0)%Z then invalid ("[mappings] " +:+ field +:+ " dims should be divisible by m")
    else Ok tt
  else parsing ("[mappings] " +:+ field +:+ " vec_index_type parse err invalid vec type").

Definition check_analyzer (name : string) : res unit :=
  if decide (name = "") then Ok tt
  else _ ← QueryAnalyzer Compile bluge analyzers id name; Ok tt.

Definition convertToField (v : list (string * value)) : res (list (string * Property)) :=
  if decide (v = []) then Ok [] else decode_fields v.

(** A property that is no object: the body of the loop from [prop["fields"]] on.
    The property in the mappings shares its map of sub-fields with [newProp], so
    the sub-fields that are added later show in it. *)
Definition leaf (field : string) (prop : list (string * value)) (mappings : Mappings) : res Mappings :=
  propFields ← match assoc "fields" prop with
               | None => Ok []
               | Some (VMap fs) => Ok fs
               | Some v => parsing ("[mappings] property.fields [" +:+ field +:+ "] should be an object, got " +:+ type_name v)
               end;
  match assoc "type" prop with
  | None => parsing "[mappings] properties [type] should be exists"
  | Some (VStr typ) =>
      let typ := ToLower typ in
      match typed_property typ with
      | None => xcontent ("[mappings] properties [" +:+ field +:+ "] doesn't support type [" +:+ typ +:+ "]")
      | Some newProp =>
          newProp ← foldM (option_turn field) newProp prop;
          let newProp := if Highlightable newProp then set_stored newProp true true else newProp in
          if decide (Type_ newProp = "") then Ok mappings
          else if decide (Type_ newProp = "vector") then
            _ ← check_vec_settings field newProp; Ok (SetProperty mappings field newProp)
          else if decide (Type_ newProp = "text") then
            fields ← convertToField propFields;
            let shared := foldl (λ p kv, AddField p kv.1 kv.2) newProp fields in
            let mappings := SetProperty mappings field shared in
            let mappings := foldl (λ m kv, SetProperty m (key_of field kv.1) kv.2) mappings fields in
            _ ← check_analyzer (Analyzer newProp);
            _ ← check_analyzer (SearchAnalyzer newProp);
            Ok mappings
          else Ok (SetProperty mappings field newProp)
      end
  | Some _ => parsing "[mappings] properties [type] should be an string"
  end.

(** The body of the loop over the properties; [rec] is the call for an object. *)
Definition prop_turn (rec : value → res (option Mappings)) (mappings : Mappings) (kv : string * value) : res Mappings :=
  match kv with
  | (field, VMap pm as prop) =>
      match assoc "properties" pm with
      | Some (VMap _) => sub ← rec prop; Ok (kmap (M1 := gmap string) (M2 := gmap string) (key_of field) (default ∅ sub) ∪ mappings)
      | Some _ => parsing ("[mappings] properties [" +:+ field +:+ "] should be an object")
      | None => leaf field pm mappings
      end
  | (field, _) => parsing ("[mappings] properties [" +:+ field +:+ "] should be an object")
  end.

(** The entry [properties] of an object, and the loop over it. *)
Fixpoint properties_of (rec : value → res (option Mappings)) (m : list (string * value)) : res (option Mappings) :=
  match m with
  | [] => parsing "[mappings] properties should be defined"
  | (k, v) :: m =>
      if decide (k = "properties") then
        match v with
        | VNil => parsing "[mappings] properties should be defined"
        | VMap ps => mappings ← foldM (prop_turn rec) ∅ ps; Ok (Some mappings)
        | _ => parsing "[mappings] properties should be an object"
        end
      else properties_of rec m
  end.

(** [mappings.Request]; [None] is nil. *)
Fixpoint Request (data : value) : res (option Mappings) :=
  match data with
  | VMap [] => Ok None
  | VMap m => properties_of Request m
  | _ => Ok None
  end.
End mappings.

(** * Accepted mappings are well-formed *)

(** The first part of a name with dots. *)
Fixpoint head_part (s : string) : string :=
  match s with
  | "" => ""
  | String c s => if decide (c = "."%char) then "" else String c (head_part s)
  end.
Definition dotless (s : string) : Prop := head_part s = s.

Lemma head_part_key f k : dotless f → head_part (key_of f k) = f.
Proof.
  unfold dotless, key_of. induction f as [|c f IH]; [done|]. cbn [head_part].
  change (String c f +:+ "." +:+ k) with (String c (f +:+ "." +:+ k)). cbn [head_part].
  case_decide; [done|]. intros [= Hf]. f_equal. by apply IH.
Qed.

#[global] Instance key_of_inj f : Inj (=) (=) (key_of f).
Proof. intros k k'. unfold key_of. induction f as [|c f IH]; cbn; intros H; simplify_eq; auto. Qed.

Lemma key_of_assoc f k j : key_of f k +:+ "." +:+ j = key_of f (k +:+ "." +:+ j).
Proof. unfold key_of. induction f as [|c f IH]; [done|]. exact (f_equal (String c) IH). Qed.

Lemma key_of_id f k : key_of f k ≠ "_id".
Proof. unfold key_of. do 4 (destruct f as [|? f]; [done|]; cbn). done. Qed.

Section accepted.
Context {lib : GoLib} (Compile : string → option string) (bluge : string → Analyzers.Analyzer).
Context (analyzers : gmap string Analyzers.Analyzer) (decode_fields : list (string * value) → res (list (string * Property))).

Abbreviation leaf_of := (leaf false Compile bluge analyzers decode_fields).
Abbreviation turn_of := (prop_turn false Compile bluge analyzers decode_fields).
Abbreviation mappings_of := (Request false Compile bluge analyzers decode_fields).

Lemma Request_properties m ps : assoc "properties" m = Some (VMap ps) →
  mappings_of (VMap m) = mappings ← foldM (turn_of mappings_of) ∅ ps; Ok (Some mappings).
Proof.
  intros Ha. trans (properties_of false Compile bluge analyzers decode_fields mappings_of m); [by destruct m|].
  revert Ha. generalize mappings_of. intros rec. induction m as [|[k v] m IH]; cbn; [done|].
  case_decide as Hk; [rewrite decide_True by done; by intros [= ->]|by rewrite decide_False by congruence].
Qed.

(** ** What is known of a property *)

Definition known_analyzer (name : string) : Prop := name = "" ∨ is_ok (QueryAnalyzer Compile bluge analyzers id name) = true.

Definition prop_ok (p : Property) : Prop :=
  Pipeline.known_type p ∧
  (Type_ p = "vector" →
     (0 < Dims p)%Z ∧ VecIndexType p ∈ ["flat"; "ivf_pq"; "hnsw"] ∧
     (VecIndexType p = "ivf_pq" → (0 < M p ∧ 0 < NBits p)%Z ∧ (M p | Dims p)%Z)) ∧
  (Type_ p = "text" → known_analyzer (Analyzer p) ∧ known_analyzer (SearchAnalyzer p)).

Definition good (m : Mappings) : Prop :=
  ∀ k p, m !! k = Some p → prop_ok p ∧
    ∀ kp, kp ∈ default [] (Fields p) → Pipeline.stringy p ∧ ∃ q, m !! (k +:+ "." +:+ kp.1) = Some q ∧ Pipeline.stringy q.

Lemma good_empty : good ∅.
Proof. by intros k p ?%lookup_empty_Some. Qed.

(** The sub-fields a request may have: strings, with analyzers that are known. *)
Definition sub_ok (kp : string * Property) : Prop := prop_ok kp.2 ∧ Pipeline.stringy kp.2 ∧ default [] (Fields kp.2) = [].

Lemma good_union m1 m2 : good m1 → good m2 → m1 ##ₘ m2 → good (m1 ∪ m2).
Proof.
  intros H1 H2 Hd k p [Hp|Hp]%lookup_union_Some; [| |done].
  - destruct (H1 _ _ Hp) as [Hok Hf]. split; [done|]. intros kp Hkp. destruct (Hf _ Hkp) as [Hs (q & Hq & Hqs)].
    split; [done|]. exists q. split; [by apply lookup_union_Some_l|done].
  - destruct (H2 _ _ Hp) as [Hok Hf]. split; [done|]. intros kp Hkp. destruct (Hf _ Hkp) as [Hs (q & Hq & Hqs)].
    split; [done|]. exists q. split; [by apply lookup_union_Some_r|done].
Qed.

Lemma good_kmap f m : good m → good (kmap (M1 := gmap string) (M2 := gmap string) (key_of f) m).
Proof.
  intros Hm k p (k' & -> & Hp)%lookup_kmap_Some; [|apply _]. destruct (Hm _ _ Hp) as [Hok Hf]. split; [done|].
  intros kp Hkp. destruct (Hf _ Hkp) as [Hs (q & Hq & Hqs)]. split; [done|]. exists q. split; [|done].
  rewrite key_of_assoc. by rewrite lookup_kmap by apply _.
Qed.

Lemma good_single k p : prop_ok p → default [] (Fields p) = [] → good {[k := p]}.
Proof. intros Hp Hf k' p' [-> ->]%lookup_singleton_Some. split; [done|]. rewrite Hf. by intros kp ?%elem_of_nil. Qed.

(** ** One property *)

Lemma option_turn_type f p kv p' : option_turn f p kv = Ok p' → Type_ p' = Type_ p ∧ Fields p' = Fields p.
Proof.
  destruct kv as [k v]. unfold option_turn.
  repeat case_decide; intros Hp;
    try match type of Hp with the_string v ≫= _ = _ => destruct (the_string v); try done | the_bool v ≫= _ = _ => destruct (the_bool v); try done end;
    cbn [mbind res_bind] in Hp;
    try match type of Hp with context [parse_err f ?w ?r] => destruct (parse_err f w r); try done end;
    by injection Hp as <-.
Qed.

Lemma options_type f prop p p' : foldM (option_turn f) p prop = Ok p' → Type_ p' = Type_ p ∧ Fields p' = Fields p.
Proof.
  apply (foldM_inv (λ q, Type_ q = Type_ p ∧ Fields q = Fields p)); [done|].
  intros q kv q' _ [H1 H2] [H3 H4]%option_turn_type. by rewrite H3, H4.
Qed.

Lemma typed_property_known typ p : typed_property false typ = Some p →
  (Pipeline.known_type p ∨ Type_ p = "") ∧ default [] (Fields p) = [].
Proof.
  unfold typed_property, Pipeline.known_type. repeat case_decide; intros [= <-]; cbn; (split; [|done]); try (by right); left;
    subst; try set_solver.
Qed.

(** ** Sub-fields *)

Definition add_subs (f : string) (m : Mappings) (fields : list (string * Property)) : Mappings :=
  foldl (λ m kv, SetProperty m (key_of f kv.1) kv.2) m fields.
Definition share (p : Property) (fields : list (string * Property)) : Property := foldl (λ p kv, AddField p kv.1 kv.2) p fields.

Lemma add_subs_union f fields : ∀ m1 m2, add_subs f (m1 ∪ m2) fields = add_subs f m1 fields ∪ m2.
Proof. induction fields as [|kv fields IH]; intros m1 m2; cbn; [done|]. unfold SetProperty. rewrite insert_union_l. apply IH. Qed.

Lemma add_subs_lookup f fields : ∀ m k p, add_subs f m fields !! k = Some p →
  (∃ kv, kv ∈ fields ∧ k = key_of f kv.1 ∧ p = kv.2) ∨ m !! k = Some p.
Proof.
  induction fields as [|kv fields IH]; intros m k p; cbn; [by right|]. intros [(kv' & Hin & ? & ?)|Hm]%IH.
  - left. exists kv'. split; [by right|done].
  - unfold SetProperty in Hm. apply lookup_insert_Some in Hm as [[<- <-]|[_ Hm]]; [left; exists kv; split; [left|done]|by right].
Qed.

Lemma add_subs_mapped f fields : ∀ m k, k ∈ fields.*1 ∨ is_Some (m !! key_of f k) → is_Some (add_subs f m fields !! key_of f k).
Proof.
  induction fields as [|kv fields IH]; intros m k; cbn; [intros [?%elem_of_nil|?]; done|]. rewrite elem_of_cons.
  intros [[->|Hin]|Hm]; apply IH; [right|by left|right]; unfold SetProperty; [by rewrite lookup_insert_eq|].
  apply lookup_insert_is_Some'. by right.
Qed.

Lemma alist_set_keys {A} k (v : A) l kp : kp ∈ alist_set k v l → kp.1 = k ∨ kp.1 ∈ l.*1.
Proof.
  unfold alist_set. case_decide.
  - intros (kv & -> & Hin)%list_elem_of_fmap. case_decide; [by left|]. right. by apply list_elem_of_fmap_2.
  - intros [Hin| ->%list_elem_of_singleton]%elem_of_app; [right; by apply list_elem_of_fmap_2|by left].
Qed.

Lemma share_spec fields : ∀ p, prop_ok (share p fields) ↔ prop_ok p.
Proof. induction fields as [|kv fields IH]; intros p; cbn; [done|]. by rewrite IH. Qed.
Lemma share_type fields : ∀ p, Type_ (share p fields) = Type_ p.
Proof. induction fields as [|kv fields IH]; intros p; cbn; [done|]. by rewrite IH. Qed.
Lemma share_keys fields : ∀ p kp, kp ∈ default [] (Fields (share p fields)) → kp.1 ∈ fields.*1 ∨ kp.1 ∈ (default [] (Fields p)).*1.
Proof.
  induction fields as [|kv fields IH]; intros p kp; cbn; [right; by apply list_elem_of_fmap_2|].
  intros [Hin|(kp' & -> & Hin)%list_elem_of_fmap]%IH; [left; by right|].
  apply alist_set_keys in Hin as [->|?]; [left; left|by right].
Qed.

Lemma good_subs f p fields : prop_ok p → Type_ p = "text" → default [] (Fields p) = [] → Forall sub_ok fields →
  good (add_subs f {[f := share p fields]} fields).
Proof.
  intros Hp Ht Hf Hsub k q Hq. rewrite Forall_forall in Hsub. apply add_subs_lookup in Hq as [(kv & Hin & -> & ->)|[<- <-]%lookup_singleton_Some].
  - destruct (Hsub _ Hin) as (Hok & _ & Hnil). split; [done|]. rewrite Hnil. by intros kp ?%elem_of_nil.
  - split; [by rewrite share_spec|]. intros kp Hkp. split; [left; by rewrite share_type|].
    apply share_keys in Hkp as [Hin|Hin]; [|rewrite Hf in Hin; by apply elem_of_nil in Hin].
    destruct (add_subs_mapped f fields {[f := share p fields]} kp.1 (or_introl Hin)) as [q Hq]. exists q. split; [done|].
    apply add_subs_lookup in Hq as [(kv & Hkv & _ & ->)|[_ <-]%lookup_singleton_Some]; [by apply Hsub|left; by rewrite share_type].
Qed.

(** ** The property of a request *)

Lemma check_analyzer_ok name : check_analyzer Compile bluge analyzers name = Ok tt → known_analyzer name.
Proof. unfold check_analyzer, known_analyzer. case_decide; [by left|]. right. by destruct (QueryAnalyzer _ _ _ _ _). Qed.

Lemma check_vec_settings_ok f p : Pipeline.known_type p → Type_ p = "vector" → check_vec_settings f p = Ok tt → prop_ok p.
Proof.
  intros Hk Ht. unfold check_vec_settings. case_decide; [done|]. intros Hc. split; [done|]. split; [|by rewrite Ht]. intros _.
  split; [lia|]. case_decide as H1; [split; [destruct H1 as [-> | ->]; set_solver|]; intros He; rewrite He in H1; by destruct H1|].
  case_decide as H2; [|done]. rewrite H2. repeat case_decide; try done. split; [set_solver|]. intros _. split; [lia|].
  apply Z.rem_divide; [lia|]. done.
Qed.

Lemma leaf_good f pm m m' : dotless f →
  (∀ fs props, assoc "fields" pm = Some (VMap fs) → decode_fields fs = Ok props → Forall sub_ok props) →
  leaf_of f pm m = Ok m' → ∃ new, good new ∧ (∀ k p, new !! k = Some p → head_part k = f) ∧ m' = new ∪ m.
Proof.
  intros Hd Hsub. unfold leaf.
  destruct (match assoc "fields" pm with Some _ => _ | None => _ end) as [propFields|e|p0] eqn:Hpf; [|done..]. cbn [mbind res_bind].
  destruct (assoc "type" pm) as [[]|]; try done. destruct (typed_property false _) as [p0|] eqn:Hty; [|done].
  apply typed_property_known in Hty as [Hty Hnil]. destruct (foldM _ p0 pm) as [p1|e|x] eqn:Hopt; [|done..].
  apply options_type in Hopt as [Ht Hf]. cbn [mbind res_bind]. set (p2 := if Highlightable p1 then _ else p1).
  assert (Type_ p2 = Type_ p0 ∧ default [] (Fields p2) = []) as [Ht2 Hf2].
  { subst p2. destruct (Highlightable p1); cbn; by rewrite Ht, Hf. }
  assert (∀ q : Property, q = p2 → {[f := q]} ∪ m = SetProperty m f p2) as Hone.
  { intros q ->. unfold SetProperty. by rewrite insert_union_singleton_l. }
  assert (∀ k (p : Property), ({[f := p2]} : Mappings) !! k = Some p → head_part k = f) as Hhead.
  { intros k p [<- _]%lookup_singleton_Some. done. }
  case_decide as H0; [intros [= <-]; exists ∅; split_and!; [by intros ? ? ?%lookup_empty_Some|by intros ? ? ?%lookup_empty_Some|by rewrite map_empty_union]|].
  assert (Pipeline.known_type p2) as Hk by (unfold Pipeline.known_type in *; rewrite Ht2 in *; by destruct Hty).
  case_decide as Hv; [|case_decide as Htx].
  - destruct (check_vec_settings f p2) as [[]|e|x] eqn:Hc; [|done..]. intros [= <-]. exists {[f := p2]}.
    split_and!; [apply good_single; [by eapply check_vec_settings_ok|done]|done|symmetry; by apply Hone].
  - destruct (convertToField _ propFields) as [fields|e|x] eqn:Hc; [|done..]. cbn [mbind res_bind].
    destruct (check_analyzer _ _ _ (Analyzer p2)) as [[]|e|x] eqn:Ha; [|done..]. cbn [mbind res_bind].
    destruct (check_analyzer _ _ _ (SearchAnalyzer p2)) as [[]|e|x] eqn:Hs; [|done..]. cbn [mbind res_bind]. intros [= <-].
    exists (add_subs f {[f := share p2 fields]} fields). split_and!.
    + apply good_subs; [|done|done|].
      * split; [done|]. split; [by rewrite Htx|]. intros _. split; by apply check_analyzer_ok.
      * unfold convertToField in Hc. case_decide; [injection Hc as <-; constructor|].
        destruct (assoc "fields" pm) as [[]|] eqn:Hfs; try done; [injection Hpf as <-; by eapply Hsub|by injection Hpf as <-].
    + intros k p [(kv & _ & -> & _)|[<- _]%lookup_singleton_Some]%add_subs_lookup; [by apply head_part_key|done].
    + rewrite <- add_subs_union. unfold SetProperty at 2. by rewrite <- insert_union_singleton_l.
  - intros [= <-]. exists {[f := p2]}. split_and!; [apply good_single; [|done]; split; [done|]; by split|done|symmetry; by apply Hone].
Qed.

(** ** The whole request *)

(** A property of every object inside a value. *)
Fixpoint all_objects (P : list (string * value) → Prop) (v : value) : Prop :=
  match v with
  | VMap m => P m ∧ (fix go (m : list (string * value)) : Prop := match m with [] => True | (_, v) :: m => all_objects P v ∧ go m end) m
  | _ => True
  end.

Lemma all_objects_map P m : all_objects P (VMap m) ↔ P m ∧ Forall (λ kv, all_objects P kv.2) m.
Proof.
  cbn [all_objects]. apply and_iff_compat_l. induction m as [|[k v] m IH]; [by rewrite Forall_nil|]. by rewrite Forall_cons, <- IH.
Qed.

(** Names without dots, given once each, and sub-fields that are strings. *)
Definition plain_object (m : list (string * value)) : Prop :=
  (∀ ps, assoc "properties" m = Some (VMap ps) → NoDup ps.*1 ∧ Forall dotless ps.*1) ∧
  (∀ fs props, assoc "fields" m = Some (VMap fs) → decode_fields fs = Ok props → Forall sub_ok props).
Definition plain : value → Prop := all_objects plain_object.

Definition request_good (v : value) : Prop := plain v → ∀ o, mappings_of v = Ok o → good (default ∅ o).

Lemma turns_good ps : ∀ m m',
  NoDup ps.*1 → Forall dotless ps.*1 → Forall (λ kv, request_good kv.2) ps → Forall (λ kv, plain kv.2) ps →
  good m → (∀ k p, m !! k = Some p → head_part k ∉ ps.*1) → foldM (turn_of mappings_of) m ps = Ok m' → good m'.
Proof.
  induction ps as [|[f prop] ps IH]; intros m m' Hnd Hdot Hreq Hpl Hm Hk; cbn [foldM]; [by intros [= <-]|].
  apply NoDup_cons in Hnd as [Hni Hnd]. apply Forall_cons in Hdot as [Hf Hdot], Hreq as [Hr Hreq], Hpl as [Hp Hpl].
  destruct (turn_of mappings_of m (f, prop)) as [m1|e|p] eqn:Ht; [|done..]. cbn [mbind res_bind].
  assert (∃ new, good new ∧ (∀ k p, new !! k = Some p → head_part k = f) ∧ m1 = new ∪ m) as (new & Hg & Hn & ->).
  { cbn [prop_turn] in Ht. destruct prop as [| | | | | | | |pm]; try done.
    destruct (assoc "properties" pm) as [pv|] eqn:Ha.
    - destruct pv; try done. destruct (mappings_of (VMap pm)) as [o|e|p] eqn:Ho; [|done..]. injection Ht as <-.
      eexists. split_and!; [apply good_kmap; by apply (Hr Hp)| |done].
      intros k p (k' & -> & _)%lookup_kmap_Some; [|apply _]. by apply head_part_key.
    - eapply leaf_good; [done| |done]. apply all_objects_map in Hp as [[_ Hs] _]. exact Hs. }
  apply IH; try done.
  - apply good_union; [done..|]. apply map_disjoint_spec. intros k p q H1%Hn H2%Hk. subst f. apply H2. left.
  - intros k p [H1|H1]%lookup_union_Some_raw; [by rewrite (Hn _ _ H1)|]. destruct H1 as [_ H1%Hk]. set_solver.
Qed.

Lemma properties_inv m o : mappings_of (VMap m) = Ok o → o = None ∨ ∃ ps, assoc "properties" m = Some (VMap ps).
Proof.
  destruct m as [|kv m]; [intros [= <-]; by left|]. intros H. right. revert H.
  change (properties_of false Compile bluge analyzers decode_fields mappings_of (kv :: m) = Ok o → ∃ ps, assoc "properties" (kv :: m) = Some (VMap ps)).
  generalize (kv :: m) mappings_of. clear kv m. intros m rec. induction m as [|[k v] m IH]; cbn; [done|].
  destruct (decide (k = "properties")) as [->|Hne].
  - rewrite decide_True by done. destruct v; try done. by eauto.
  - by rewrite decide_False by congruence.
Qed.

Lemma all_requests_good v : request_good v ∧ match v with VMap ps => Forall (λ kv, request_good kv.2) ps | _ => True end.
Proof.
  induction v as [| | | | | | | |m IH] using value_nested_ind; try (split; [intros _ o [= <-]; apply good_empty|done]).
  split; [|eapply Forall_impl; [exact IH|]; by intros kv [H _]]. intros Hp o Ho.
  destruct (properties_inv _ _ Ho) as [->|[ps Ha]]; [apply good_empty|].
  rewrite (Request_properties _ _ Ha) in Ho. destruct (foldM _ _ _) as [m'|e|p] eqn:Hf; [|done..]. injection Ho as <-. cbn [default].
  apply all_objects_map in Hp as [[Hn _] Hall]. destruct (Hn _ Ha) as [Hnd Hdot].
  assert (("properties", VMap ps) ∈ m) as Hin.
  { clear -Ha. induction m as [|[k v] m IHm]; cbn in Ha; [done|]. case_decide; [injection Ha as ->; subst; left|right; by apply IHm]. }
  rewrite Forall_forall in Hall, IH. destruct (IH _ Hin) as [_ Hps]. cbn in Hps. apply Hall in Hin. cbn in Hin. apply all_objects_map in Hin as [_ Hpl].
  eapply turns_good; [exact Hnd|exact Hdot|exact Hps|exact Hpl|apply good_empty| |exact Hf]. by intros ? ? ?%lookup_empty_Some.
Qed.

Lemma good_wf m : good m → Pipeline.wf_mappings (SetMappings.normalise m).
Proof.
  intros Hm. replace (SetMappings.normalise m) with (SetMappings.normalise (<["_id" := NewProperty "keyword"]> m)).
  - apply Pipeline.wf_normalise. split; [|exists (NewProperty "keyword"); rewrite lookup_insert_eq; split_and!; [done|by right|done]].
    intros k p [[<- <-]|[Hne Hp]]%lookup_insert_Some.
    + split; [unfold Pipeline.known_type; cbn; set_solver|]. by intros kp ?%elem_of_nil.
    + destruct (Hm _ _ Hp) as [[Hk _] Hf]. split; [done|]. intros kp Hkp. destruct (Hf _ Hkp) as [Hs (q & Hq & Hqs)].
      split; [done|]. exists q. split; [|done]. rewrite lookup_insert_ne by (intros Heq; by apply (key_of_id k kp.1)). done.
  - unfold SetMappings.normalise, SetProperty. cbv zeta. rewrite fmap_insert, insert_insert_eq. done.
Qed.

End accepted.

(** * Evaluated *)

Module MappingDemo.
Import AnalyzerDemo.
#[export] Existing Instance Pipeline.demo_lib.

(** A decoder that knows the type only. *)
Definition decode (fs : list (string * value)) : res (list (string * Property)) :=
  foldM (λ ps '(k, v),
    match GetStringFromMap v "type" with
    | Ok t => Ok (ps ++ [(k, mkProperty t "" "" "" "" false false false false false None 0 0 0 "" false)])
    | _ => Err "json: cannot unmarshal"
    end) [] fs.
Definition own : gmap string Analyzers.Analyzer := {["folded" := folded []]}.

Definition obj (fields : list (string * value)) : value := VMap [("properties", VMap fields)].
Definition title (rest : list (string * value)) : string * value := ("title", VMap ([("type", VStr "Text"); ("analyzer", VStr "folded")] ++ rest)).
Definition raw : list (string * value) := [("raw", VMap [("type", VStr "keyword")])].
Definition int (z : Z) : value := VFloat (float_of_Z z).
Definition embedding (m : Z) : string * value :=
  ("embedding", VMap [("type", VStr "vector"); ("dims", int 4); ("vec_index_type", VStr "ivf_pq"); ("m", int m); ("nbits", int 8)]).
Definition books (m : Z) : value :=
  obj [title [("fields", VMap raw)]; ("author", obj [("name", VMap [("type", VStr "keyword"); ("index", VBool false)])]); embedding m].
Definition read (ekm : bool) (analyzers : gmap string Analyzers.Analyzer) (data : value) : res (option Mappings) :=
  Request ekm all_compile bluge analyzers decode data.
Definition types (r : res (option Mappings)) : res (option (gmap string string)) := 
  match r with Ok (Some m) => Ok (Some (Type_ <$> m)) | Ok None => Ok None | Err e => Err e | Panic p => Panic p end.

Ltac plain_solver :=
  repeat match goal with
         | |- _ ∧ _ => split
         | |- True => exact I
         | |- ∀ ps, assoc _ _ = Some (VMap ps) → NoDup _ ∧ Forall _ _ =>
             intros ? [=]; subst; (split; [apply (bool_decide_unpack _); vm_compute; exact I|repeat constructor])
         | |- ∀ fs props, assoc _ _ = Some (VMap fs) → _ => intros ? ? [=]
         end.

Lemma books_plain analyzers m : plain all_compile bluge analyzers decode (books m).
Proof.
  unfold plain, books, obj, title, embedding, raw, int. cbn [all_objects app]. unfold plain_object. plain_solver.
  subst. intros [= <-]. constructor; [|constructor]. split_and!; cbn; try done. split; [unfold Pipeline.known_type; cbn; set_solver|done]. by right.
Qed.

Definition books_mappings : Mappings := match read false own (books 2) with Ok (Some m) => m | _ => ∅ end.
Lemma books_eq : read false own (books 2) = Ok (Some books_mappings).
Proof. vm_compute. reflexivity. Qed.


(** Requests that are refused, and options of the wrong type. *)
Example refusals :
  read false own (books 3) = Err (error_new "invalid_argument" "[mappings] embedding dims should be divisible by m") ∧
  read false ∅ (books 2) = Err (error_new "parsing_exception" "[analyzer] unknown analyzer [folded]") ∧
  read false own (obj [("a", VMap [("type", VStr "text"); ("store", VStr "true")])]) = Panic PTypeAssert.
Proof. split_and!; vm_compute; reflexivity. Qed.

(** The sub-field that the configuration adds to a text is not mapped. *)
Example keyword_field_not_mapped :
  ∃ m p, read true own (obj [title []]) = Ok (Some m) ∧ m !! "title" = Some p ∧ fst <$> default [] (Fields p) = ["keyword"] ∧ m !! "title.keyword" = None.
Proof. do 2 eexists. split_and!; vm_compute; reflexivity. Qed.

(** A sub-field is not checked, and what it does not say is false: it is not indexed. *)
Example sub_fields_unchecked :
  ∃ m p, read false own (obj [title [("fields", VMap [("raw", VMap [("type", VStr "whatever")])])]]) = Ok (Some m) ∧
    m !! "title.raw" = Some p ∧ Type_ p = "whatever" ∧ Index p = false.
Proof. do 2 eexists. split_and!; vm_compute; reflexivity. Qed.

(** A name with a dot and an object may mean the same field; the last one wins. *)
Example dotted_names_collide :
  let dotted := ("a.b", VMap [("type", VStr "numeric")]) in
  let inner := ("a", obj [("b", VMap [("type", VStr "keyword")])]) in
  types (read false own (obj [dotted; inner])) = Ok (Some {["a.b" := "keyword"]}) ∧
  types (read false own (obj [inner; dotted])) = Ok (Some {["a.b" := "numeric"]}).
Proof. split; vm_compute; reflexivity. Qed.
End MappingDemo.
