(* ===== verification/IndexRequest.v ===== *)
(** Requests about an index as a whole: settings with mappings (pkg/uquery/index),
    templates (pkg/uquery/template), and the handlers that create an index, set its
    settings and mappings, and delete indexes (pkg/handlers/index), with the
    parts of pkg/core they change: the settings, analyzers and mappings of an
    index, how a template is applied and how a stored index is loaded. *)
From Stdlib Require Import Ascii SpecFloat.
From S2P Require Import Prelude Hash Strconv Value Document Regexp Catalog Aliases Query TextOrder Tokenizers Analyzers MappingRequest.
Import Meta.

(** * An index: settings, analyzers and mappings *)

(** [o_Settings]: [None] is nil, [Some None] are settings without an analysis. *)
Record IndexObj := mkObj {
  o_Settings : option (option IndexAnalysis); o_Analyzers : gmap string Analyzers.Analyzer;
  o_Mappings : option Mappings; o_VecIndexes : gmap string SetMappings.VecIndex
}.

(** [for k, v := range new { m[k] = v }]. *)
Definition set_all {A} (new m : list (string * A)) : list (string * A) := foldl (λ m kv, alist_set kv.1 kv.2 m) m new.
Definition set_all_opt {A} (new m : option (list (string * A))) : option (list (string * A)) :=
  match new with Some new => Some (set_all new (default [] m)) | None => m end.

(** [SetSettings] of an index: the parts are merged by name. *)
Definition SetSettings (settings : option (option IndexAnalysis)) (index : IndexObj) : IndexObj :=
  match settings with
  | None => index
  | Some settings =>
      let current := default None (o_Settings index) in
      let merged := match settings with
                    | None => current
                    | Some a =>
                        let c := default (mkAnalysis None [] [] None None) current in
                        Some (mkAnalysis (set_all_opt (ia_Analyzer a) (ia_Analyzer c)) (set_all (ia_CharFilter a) (ia_CharFilter c))
                                (set_all (ia_Tokenizer a) (ia_Tokenizer c)) (set_all_opt (ia_TokenFilter a) (ia_TokenFilter c)) (ia_Filter c))
                    end in
      mkObj (Some merged) (o_Analyzers index) (o_Mappings index) (o_VecIndexes index)
  end.

(** [SetAnalyzers]: all are replaced. *)
Definition SetAnalyzers (analyzers : gmap string Analyzers.Analyzer) (index : IndexObj) : IndexObj :=
  if decide (analyzers = ∅) then index else mkObj (o_Settings index) analyzers (o_Mappings index) (o_VecIndexes index).

Definition set_mappings (mappings : option Mappings) (index : IndexObj) : IndexObj :=
  let '(m, vecs) := SetMappings.SetMappings mappings (default ∅ (o_Mappings index)) (o_VecIndexes index) in
  mkObj (o_Settings index) (o_Analyzers index) (Some m) vecs.

(** What [RequestAnalyzer] leaves in the settings it is given when it succeeds: types in lower
    case, the filters under one name. *)
Definition settled_filters {A} (token filter : option A) : option A * option A :=
  match token, filter with None, Some f => (Some f, None) | t, f => (t, f) end.
Definition settled_spec (v : AnalyzerSpec) : AnalyzerSpec :=
  let '(t, f) := settled_filters (sp_TokenFilter v) (sp_Filter v) in
  mkSpec (sp_CharFilter v) (sp_Tokenizer v) t f (ToLower (sp_Type v)) (sp_Pattern v) (sp_Lowercase v) (sp_Stopwords v).
Definition settled (data : IndexAnalysis) : IndexAnalysis :=
  match ia_Analyzer data with
  | None => data
  | Some specs =>
      let '(t, f) := settled_filters (ia_TokenFilter data) (ia_Filter data) in
      mkAnalysis (Some (prod_map id settled_spec <$> specs)) (ia_CharFilter data) (ia_Tokenizer data) t f
  end.

(** The settings and the mappings of a template; [None] is nil. *)
Record TemplateTemplate := mkTT { t_Settings : option (option IndexAnalysis); t_Mappings : option Mappings }.

Section requests.
Context {lib : GoLib} (EnableTextKeywordMapping : bool) (Compile : string → option string) (bluge : string → Analyzers.Analyzer).
Context (decode_fields : list (string * value) → res (list (string * Property))).
(** The JSON text of the settings, read again. *)
Context (decode_settings : list (string * value) → res (option IndexAnalysis)).

Abbreviation mappings_request := (MappingRequest.Request EnableTextKeywordMapping Compile bluge).

(** * uquery/index *)

(** [index.Request]; [None] is nil.  Settings without an analysis are dropped. *)
Definition index_Request (data : list (string * value)) : res (option TemplateTemplate) :=
  if decide (data = []) then Ok None else
  '(settings, analyzers) ← match assoc "settings" data with
    | None => Ok (None, ∅)
    | Some (VMap v) =>
        match decode_settings v with
        | Ok analysis =>
            match RequestAnalyzer Compile bluge analysis with
            | Ok analyzers => Ok ((λ a, Some (settled a)) <$> analysis, analyzers)
            | Err e => parsing ("[index] settings.analysis parse error: " +:+ e)
            | Panic p => Panic p
            end
        | Err e => parsing ("[index] settings parse error: " +:+ e)
        | Panic p => Panic p
        end
    | Some _ => parsing "[index] settings should be an object"
    end;
  mappings ← match assoc "mappings" data with
             | None => Ok None
             | Some (VMap v) => mappings_request analyzers decode_fields (VMap v)
             | Some _ => parsing "[index] mappings should be an object"
             end;
  Ok (Some (mkTT settings mappings)).

(** * uquery/template *)

Record RequestedTemplate := mkRT { rt_IndexPatterns : list string; rt_Priority : Z; rt_Template : TemplateTemplate }.
Definition set_patterns (t : RequestedTemplate) (ps : list string) : RequestedTemplate := mkRT (rt_IndexPatterns t ++ ps) (rt_Priority t) (rt_Template t).
Definition set_priority (t : RequestedTemplate) (p : Z) : RequestedTemplate := mkRT (rt_IndexPatterns t) p (rt_Template t).

(** One turn of the loop over the options, in any order. *)
Definition template_turn (t : RequestedTemplate) (kv : string * value) : res RequestedTemplate :=
  let k := ToLower kv.1 in
  if decide (k = "name" ∨ k = "data_stream") then Ok t
  else if decide (k = "index_patterns") then
    match kv.2 with
    | VArr patterns => foldM (λ t pattern, p ← the_string pattern; Ok (set_patterns t [p])) t patterns
    | _ => xcontent "[template] index_patterns value should be an array of string"
    end
  else if decide (k = "priority") then
    match kv.2 with
    | VStr v => Ok (set_priority t (Atoi_value v))
    | VFloat v => Ok (set_priority t (int64_of_float v))
    | VInt v => Ok (set_priority t v)
    | _ => xcontent "[template] priority value should be a numberic"
    end
  else if decide (k = "template") then
    match kv.2 with
    | VStr v => Ok (set_patterns t [v])
    | VMap v =>
        tmpIndex ← index_Request v;
        match tmpIndex with
        | Some tmp => Ok (mkRT (rt_IndexPatterns t) (rt_Priority t) tmp)
        | None => Panic PNilDeref
        end
    | _ => xcontent "[template] template value should be an object"
    end
  else parsing ("[template] unknown option [" +:+ k +:+ "]").

(** [template.Request] of an object. *)
Definition template_Request (data : list (string * value)) : res RequestedTemplate :=
  match assoc "template" data with
  | None | Some VNil => xcontent "[template] template should be defined"
  | Some _ =>
      t ← foldM template_turn (mkRT [] 0 (mkTT None None)) data;
      if decide (rt_IndexPatterns t = []) then xcontent "[template] index_patterns should be defined" else Ok t
  end.

(** * A new index, and a stored one *)

(** [UseTemplate] of an index; [template] is what is found for its name.  The errors
    of the analyzers are dropped. *)
Definition UseTemplate (template : res (option TemplateTemplate)) (index : IndexObj) : res IndexObj :=
  template ← template;
  match template with
  | None => Ok index
  | Some t =>
      index ← match t_Settings t with
              | None => Ok index
              | Some s =>
                  let index := SetSettings (Some s) index in
                  match RequestAnalyzer Compile bluge s with
                  | Ok analyzers => Ok (SetAnalyzers analyzers index)
                  | Err _ => Ok index
                  | Panic p => Panic p
                  end
              end;
      Ok (match t_Mappings t with None => index | Some m => set_mappings (Some m) index end)
  end.

Definition NewIndex (template : res (option TemplateTemplate)) (name : string) : res IndexObj :=
  _ ← CheckIndexName name; UseTemplate template (mkObj None ∅ None ∅).

(** [formatIndex]: the analyzers of a stored index. *)
Definition load_analyzers (index : IndexObj) : res (gmap string Analyzers.Analyzer) :=
  match RequestAnalyzer Compile bluge (default None (o_Settings index)) with
  | Err e => Err (error_new "runtime_exception" "parse stored analysis error")
  | r => r
  end.

(** * handlers/index *)

(** What [GetIndexMetadata] finds. *)
Inductive metadata := Found | NotFound | Failed (error : string).

Record IndexSimple := mkSimple { n_Name : string; n_Settings : option (option IndexAnalysis); n_Mappings : value }.

(** [CreateIndexWorker]: the name and the index that are stored. *)
Definition CreateIndexWorker (AssignCheck : string → bool) (stored : string → metadata) (template : string → res (option TemplateTemplate))
    (newIndex : IndexSimple) (indexName : string) : res (string * IndexObj) :=
  let name := if decide (n_Name newIndex = "" ∧ indexName ≠ "") then indexName else n_Name newIndex in
  if decide (name = "") then Err "index.name should be not empty"
  else if negb (AssignCheck name) then Err "requested index is not handled by this server"
  else match stored name with
       | Found => Err ("index [" +:+ name +:+ "] already exists")
       | Failed e => Err e
       | NotFound =>
           let analysis := default None (n_Settings newIndex) in
           analyzers ← RequestAnalyzer Compile bluge analysis;
           mappings ← mappings_request analyzers decode_fields (n_Mappings newIndex);
           index ← NewIndex (template name) name;
           let index := SetSettings (Some (settled <$> analysis)) index in
           let index := SetAnalyzers analyzers index in
           Ok (name, set_mappings mappings index)
       end.

(** The handler [SetSettings]; [index] is the result of [GetOrCreate], and whether it was there. *)
Definition handle_SetSettings (indexName : string) (settings : option (option IndexAnalysis)) (index : res (IndexObj * bool)) : res (option IndexObj) :=
  if decide (indexName = "") then Err "index.name should be not empty" else
  match settings with
  | None => Ok None
  | Some analysis =>
      analyzers ← RequestAnalyzer Compile bluge analysis;
      '(index, exists_) ← index;
      if exists_ : bool then
        if decide (default [] (analysis ≫= ia_Analyzer) ≠ []) then Err "can't update analyzer for existing index" else Ok (Some index)
      else Ok (Some (SetAnalyzers analyzers (SetSettings (Some (settled <$> analysis)) index)))
  end.

(** Sub-fields have no sub-fields of their own. *)
Definition strip_subs (p : Property) : Property :=
  set_fields p (fmap (M := list) (prod_map id (λ q, set_fields q None)) <$> Fields p).

(** The handler [SetMapping]: the index to be stored.  The mappings of an index that
    exists are added to. *)
Definition handle_SetMapping (order : map_order string Property) (indexName : string) (request : value) (index : res (IndexObj * bool)) : res IndexObj :=
  if decide (indexName = "") then Err "index.name should be not empty" else
  mappings ← mappings_request ∅ decode_fields request;
  '(index, exists_) ← index;
  '(mappings, index) ←
    (if exists_ : bool then
       match mappings with
       | None => Panic PNilDeref
       | Some mappings =>
           match filter (λ kp, is_Some (default ∅ (o_Mappings index) !! kp.1)) (range order mappings), o_Mappings index with
           | kp :: _, _ => Err ("index [" +:+ indexName +:+ "] already exists mapping of field [" +:+ kp.1 +:+ "]")
           | [], None => if decide (mappings = ∅) then Ok (None, index) else Panic PNilDeref
           | [], Some m =>
               let m := mappings ∪ m in
               Ok (Some m, mkObj (o_Settings index) (o_Analyzers index) (Some m) (o_VecIndexes index))
           end
       end
     else Ok (mappings, index));
  match mappings with
  | Some m => if decide (m = ∅) then Ok index else Ok (set_mappings (Some (strip_subs <$> m)) index)
  | None => Ok index
  end.
End requests.

(** ** Deletion *)

Section deletion.
Context (other : string → option (string → bool)).
(** [IndexMgr.Delete]: the error, if there is one. *)
Context (DeleteIndex : string → option string).

(** The names for which a deletion is asked, until one fails. *)
Fixpoint delete_names (names : list string) : res unit * list string :=
  match names with
  | [] => (Ok tt, [])
  | name :: names =>
      match DeleteIndex name with
      | Some e => (Err e, [name])
      | None => let '(r, ds) := delete_names names in (r, name :: ds)
      end
  end.

Definition deleteIndexWithWildcard (indexName : string) (indexList : list string) : res unit * list string :=
  match Compile other (regex_text ascii_class (Split "*" indexName)) with
  | None => (Err "error parsing regexp", [])
  | Some p => delete_names (filter (λ name, p name = true) indexList)
  end.

(** The handler [Delete]. *)
Definition handle_Delete (target : string) (indexList : res (list string)) : res unit * list string :=
  if decide (target = "") then (Err "index name cannot be empty", []) else
  match indexList with
  | Ok indexList =>
      foldl (λ '(r, ds) name,
        match r with
        | Ok _ => let '(r, ds') := if contains_char "*" name then deleteIndexWithWildcard name indexList else delete_names [name] in (r, ds ++ ds')
        | _ => (r, ds)
        end) (Ok tt, []) (Split "," target)
  | Err e => (Err e, [])
  | Panic p => (Panic p, [])
  end.
End deletion.

(** * Settings survive storing *)

Lemma alist_set_new {A} k (v : A) m : k ∉ m.*1 → alist_set k v m = m ++ [(k, v)].
Proof. intros Hk. unfold alist_set. by rewrite decide_False. Qed.

Lemma set_all_fresh {A} (new : list (string * A)) : ∀ m, NoDup (m ++ new).*1 → set_all new m = m ++ new.
Proof.
  induction new as [|[k v] new IH]; intros m Hnd; cbn; [by rewrite app_nil_r|]. rewrite alist_set_new.
  - change (set_all new (m ++ [(k, v)]) = m ++ (k, v) :: new). rewrite IH; by rewrite <- app_assoc.
  - rewrite fmap_app in Hnd. apply NoDup_app in Hnd as (_ & Hd & _). intros Hin. apply (Hd _ Hin). left.
Qed.
Lemma set_all_nil {A} (l : list (string * A)) : NoDup l.*1 → set_all l [] = l.
Proof. intros Hnd. by apply (set_all_fresh l []). Qed.

Lemma ToLower_idem s : ToLower (ToLower s) = ToLower s.
Proof.
  induction s as [|c s IH]; cbn; [done|]. rewrite IH. f_equal.
  by destruct c as [[] [] [] [] [] [] [] []].
Qed.
Lemma ToLower_nil s : ToLower s = "" ↔ s = "".
Proof. by destruct s. Qed.

(** Names are given once. *)
Definition named_once (data : IndexAnalysis) : Prop :=
  NoDup (default [] (ia_Analyzer data)).*1 ∧ NoDup (ia_CharFilter data).*1 ∧ NoDup (ia_Tokenizer data).*1 ∧
  NoDup (default [] (ia_TokenFilter data)).*1 ∧ NoDup (default [] (ia_Filter data)).*1.

Section stored.
Context (Compile : string → option string) (bluge : string → Analyzers.Analyzer).

Lemma settled_filters_default {A} (t f : option (list A)) :
  default (default [] (settled_filters t f).2) (settled_filters t f).1 = default (default [] f) t.
Proof. by destruct t, f. Qed.

Lemma settled_spec_same chars zers tokens name v :
  request_analyzer Compile bluge chars zers tokens name (settled_spec v) = request_analyzer Compile bluge chars zers tokens name v.
Proof.
  unfold settled_spec. pose proof (settled_filters_default (sp_TokenFilter v) (sp_Filter v)) as Hf.
  destruct (settled_filters _ _) as [t f]. cbn [fst snd] in Hf. unfold request_analyzer, typed_analyzer.
  cbn [sp_Tokenizer sp_Type sp_CharFilter sp_TokenFilter sp_Filter sp_Pattern sp_Lowercase sp_Stopwords]. rewrite ToLower_idem, Hf.
  destruct (decide (sp_Tokenizer v = "" ∧ sp_Type v = "")) as [Hd|Hd]; [by rewrite decide_True by (by rewrite ToLower_nil)|].
  by rewrite decide_False by (by rewrite ToLower_nil).
Qed.

Lemma settled_specs chars zers tokens specs : ∀ m : gmap string Analyzers.Analyzer,
  foldM (λ analyzers '(name, v), a ← request_analyzer Compile bluge chars zers tokens name v; Ok (<[name := a]> analyzers)) m (prod_map id settled_spec <$> specs) =
  foldM (λ analyzers '(name, v), a ← request_analyzer Compile bluge chars zers tokens name v; Ok (<[name := a]> analyzers)) m specs.
Proof.
  induction specs as [|[name v] specs IH]; intros m; cbn [fmap list_fmap prod_map fst snd id foldM]; [done|]. rewrite settled_spec_same.
  by destruct (request_analyzer _ _ _ _ _ _ _); cbn; [apply IH|..].
Qed.

(** The settings of a new index, as they are stored. *)
Definition stored_analysis (data : IndexAnalysis) : IndexAnalysis :=
  let a := settled data in
  mkAnalysis (set_all_opt (ia_Analyzer a) None) (set_all (ia_CharFilter a) []) (set_all (ia_Tokenizer a) []) (set_all_opt (ia_TokenFilter a) None) None.

Lemma stored_same data : named_once data → RequestAnalyzer Compile bluge (Some (stored_analysis data)) = RequestAnalyzer Compile bluge (Some data).
Proof.
  intros (H1 & H2 & H3 & H4 & H5). unfold stored_analysis, settled, RequestAnalyzer.
  destruct (ia_Analyzer data) as [specs|] eqn:Hspecs; [|cbn; by rewrite Hspecs]. cbn [default] in H1.
  destruct (settled_filters _ _) as [t f] eqn:Hst. cbn [ia_Analyzer ia_CharFilter ia_Tokenizer ia_TokenFilter ia_Filter set_all_opt default].
  rewrite !set_all_nil by (rewrite <- ?list_fmap_compose; done).
  replace (default [] (set_all_opt t None)) with (default (default [] (ia_Filter data)) (ia_TokenFilter data)).
  - destruct (RequestCharFilter _ _); [|done..]. cbn [mbind res_bind].
    destruct (RequestTokenFilter _ _); [|done..]. cbn [mbind res_bind].
    destruct (RequestTokenizer _ _); [|done..]. cbn [mbind res_bind]. apply settled_specs.
  - destruct (ia_TokenFilter data), (ia_Filter data); injection Hst as <- <-; cbn; rewrite ?set_all_nil by done; done.
Qed.

Definition empty_index : IndexObj := mkObj None ∅ None ∅.

Lemma fresh_settings analysis analyzers :
  (∀ a, analysis = Some a → named_once a) → RequestAnalyzer Compile bluge analysis = Ok analyzers →
  load_analyzers Compile bluge (SetAnalyzers analyzers (SetSettings (Some (settled <$> analysis)) empty_index)) = Ok analyzers ∧
  o_Analyzers (SetAnalyzers analyzers (SetSettings (Some (settled <$> analysis)) empty_index)) = analyzers.
Proof.
  intros Hn Ha. split; [|unfold SetAnalyzers; case_decide; [by subst|done]].
  unfold load_analyzers. replace (o_Settings _) with (Some (stored_analysis <$> analysis)).
  - destruct analysis as [a|]; cbn [fmap option_fmap option_map from_option id]; [by rewrite (stored_same a (Hn a eq_refl)), Ha|by rewrite Ha].
  - unfold SetAnalyzers. case_decide; by destruct analysis.
Qed.
End stored.

(** * Indexes that requests define *)

Section defined.
Context {lib : GoLib} (Compile : string → option string) (bluge : string → Analyzers.Analyzer).
Context (decode_fields : list (string * value) → res (list (string * Property))).

Abbreviation good_for := (good Compile bluge).

Lemma known_analyzer_mono analyzers name : known_analyzer Compile bluge ∅ name → known_analyzer Compile bluge analyzers name.
Proof.
  intros [->|Hk]; [by left|]. right. unfold QueryAnalyzer in *. rewrite lookup_empty in Hk. by destruct (analyzers !! _).
Qed.
Lemma good_mono analyzers m : good_for ∅ m → good_for analyzers m.
Proof.
  intros Hm k p Hp. destruct (Hm k p Hp) as [(H1 & H2 & H3) Hf]. split; [|done]. split; [done|]. split; [done|].
  intros Ht. destruct (H3 Ht). split; by apply known_analyzer_mono.
Qed.

Lemma good_insert analyzers m k p :
  good_for analyzers m → prop_ok Compile bluge analyzers p →
  (∀ q, m !! k = Some q → Pipeline.stringy q → Pipeline.stringy p) →
  (∀ kp, kp ∈ default [] (Fields p) → Pipeline.stringy p ∧ ∃ q, m !! (k +:+ "." +:+ kp.1) = Some q ∧ Pipeline.stringy q) →
  good_for analyzers (<[k := p]> m).
Proof.
  intros Hm Hp Hold Hsub.
  assert (∀ j, (∃ q, m !! j = Some q ∧ Pipeline.stringy q) → ∃ q, <[k := p]> m !! j = Some q ∧ Pipeline.stringy q) as Hkeep.
  { intros j (q & Hq & Hs). destruct (decide (j = k)) as [->|].
    - exists p. rewrite lookup_insert_eq. split; [done|by eapply Hold].
    - exists q. by rewrite lookup_insert_ne. }
  intros j q [[<- <-]|[Hne Hq]]%lookup_insert_Some.
  - split; [done|]. intros kp Hkp. destruct (Hsub kp Hkp). split; [done|]. by apply Hkeep.
  - destruct (Hm j q Hq) as [Hok Hf]. split; [done|]. intros kp Hkp. destruct (Hf kp Hkp). split; [done|]. by apply Hkeep.
Qed.

Lemma good_fmap analyzers (g : Property → Property) m :
  (∀ p, prop_ok Compile bluge analyzers p → prop_ok Compile bluge analyzers (g p)) → (∀ p, Type_ (g p) = Type_ p) →
  (∀ p, (default [] (Fields (g p))).*1 = (default [] (Fields p)).*1) → good_for analyzers m → good_for analyzers (g <$> m).
Proof.
  intros Hok Ht Hf Hm k p. rewrite lookup_fmap_Some. intros (q & <- & Hq). destruct (Hm k q Hq) as [Hq1 Hq2]. split; [by apply Hok|].
  intros kp Hkp%(list_elem_of_fmap_2 fst). rewrite Hf in Hkp. apply list_elem_of_fmap in Hkp as (kp' & -> & Hkp').
  destruct (Hq2 kp' Hkp') as [Hs (r & Hr & Hrs)]. unfold Pipeline.stringy in *. rewrite Ht. split; [done|].
  exists (g r). rewrite lookup_fmap, Hr, Ht. done.
Qed.

Lemma good_normalise analyzers m : good_for analyzers m → good_for analyzers (SetMappings.normalise m).
Proof.
  intros Hm. unfold SetMappings.normalise, SetProperty. cbv zeta.
  set (m1 := _ <$> m). assert (good_for analyzers m1) as H1.
  { apply good_fmap; [|by intros p; case_decide|by intros p; case_decide|done].
    intros p Hp. case_decide as Ht; [done|]. destruct Hp as (Hk & Hv & _). split; [done|]. split; [done|]. by intros ?. }
  assert (prop_ok Compile bluge analyzers (NewProperty "keyword")) as Hkw by (split; [unfold Pipeline.known_type; cbn; set_solver|done]).
  assert (prop_ok Compile bluge analyzers (NewProperty "date")) as Hdt by (split; [unfold Pipeline.known_type; cbn; set_solver|done]).
  assert (good_for analyzers (<["_id" := NewProperty "keyword"]> m1)) as H2.
  { apply good_insert; [done|done|by right|by intros kp ?%elem_of_nil]. }
  destruct (<["_id" := NewProperty "keyword"]> m1 !! TimeFieldName) as [ts|] eqn:Hts.
  - destruct (H2 _ _ Hts) as [Hok Hf]. apply good_insert; [done|done|by intros q [= <-]%(eq_trans (eq_sym Hts))|exact Hf].
  - apply good_insert; [done|done|by rewrite Hts|by intros kp ?%elem_of_nil].
Qed.

Lemma union_covers (m1 m2 : Mappings) : dom m2 ⊆ dom m1 → m1 ∪ m2 = m1.
Proof.
  intros Hd. apply map_eq. intros k. rewrite lookup_union. destruct (m1 !! k) as [p|] eqn:H1; [by destruct (m2 !! k)|].
  destruct (m2 !! k) as [q|] eqn:H2; [|done]. apply not_elem_of_dom in H1. apply elem_of_dom_2 in H2. set_solver.
Qed.

Lemma normalise_covers m : dom m ⊆ dom (SetMappings.normalise m).
Proof. intros k [p Hp]%elem_of_dom. apply elem_of_dom. by eapply Pipeline.normalise_dom. Qed.

Lemma set_mappings_good analyzers m index :
  good_for analyzers (default ∅ m) → dom (default ∅ (o_Mappings index)) ⊆ dom (default ∅ m) →
  good_for analyzers (default ∅ (o_Mappings (set_mappings m index))).
Proof.
  intros Hm Hd. unfold set_mappings, SetMappings.SetMappings. cbn. rewrite union_covers; [by apply good_normalise|].
  etrans; [exact Hd|apply normalise_covers].
Qed.

(** ** Requests in sequence *)

Abbreviation plain_for := (plain Compile bluge).

(** How an index comes about: created, or found missing by a request for settings or mappings,
    without a template for its name; then requests about it. *)
Inductive defined : IndexObj → Prop :=
  | defined_new : defined empty_index
  | defined_create AssignCheck stored template newIndex indexName name index :
      template name = Ok None →
      (∀ a, n_Settings newIndex = Some (Some a) → named_once a) →
      (∀ analyzers, RequestAnalyzer Compile bluge (default None (n_Settings newIndex)) = Ok analyzers → plain_for analyzers decode_fields (n_Mappings newIndex)) →
      CreateIndexWorker false Compile bluge decode_fields AssignCheck stored template newIndex indexName = Ok (name, index) → defined index
  | defined_settings_new indexName settings index :
      (∀ a, settings = Some (Some a) → named_once a) →
      handle_SetSettings Compile bluge indexName settings (Ok (empty_index, false)) = Ok (Some index) → defined index
  | defined_settings indexName settings index index' :
      defined index → handle_SetSettings Compile bluge indexName settings (Ok (index, true)) = Ok (Some index') → defined index'
  | defined_mapping order indexName request index existing index' :
      defined index → (existing = false → index = empty_index) → plain_for ∅ decode_fields request →
      handle_SetMapping false Compile bluge decode_fields order indexName request (Ok (index, existing)) = Ok index' → defined index'.

Definition index_ok (index : IndexObj) : Prop :=
  good_for (o_Analyzers index) (default ∅ (o_Mappings index)) ∧ load_analyzers Compile bluge index = Ok (o_Analyzers index).

Lemma Request_good analyzers data o : plain_for analyzers decode_fields data →
  MappingRequest.Request false Compile bluge analyzers decode_fields data = Ok o → good_for analyzers (default ∅ o).
Proof. intros Hp Ho. by apply (all_requests_good Compile bluge analyzers decode_fields data). Qed.

Lemma create_ok AssignCheck stored template newIndex indexName name index :
  template name = Ok None →
  (∀ a, n_Settings newIndex = Some (Some a) → named_once a) →
  (∀ analyzers, RequestAnalyzer Compile bluge (default None (n_Settings newIndex)) = Ok analyzers → plain_for analyzers decode_fields (n_Mappings newIndex)) →
  CreateIndexWorker false Compile bluge decode_fields AssignCheck stored template newIndex indexName = Ok (name, index) → index_ok index.
Proof.
  intros Ht Hn Hp. unfold CreateIndexWorker. set (nm := if decide _ then indexName else n_Name newIndex).
  case_decide; [done|]. destruct (AssignCheck nm); [|done]. cbn [negb]. destruct (stored nm); [done| |done].
  set (analysis := default None (n_Settings newIndex)) in *.
  assert (∀ a, analysis = Some a → named_once a) as Hn'.
  { subst analysis. intros a Ha. apply Hn. destruct (n_Settings newIndex); cbn in Ha; [by rewrite Ha|done]. }
  destruct (RequestAnalyzer _ _ analysis) as [analyzers|e|p] eqn:Ha; [|done..]. cbn [mbind res_bind].
  destruct (MappingRequest.Request _ _ _ _ _ _) as [m|e|p] eqn:Hm; [|done..]. cbn [mbind res_bind].
  apply (Request_good _ _ _ (Hp _ eq_refl)) in Hm.
  unfold NewIndex. destruct (CheckIndexName nm); [|done..]. cbn [mbind res_bind].
  destruct (UseTemplate _ _ (template nm) _) as [index0|e|p] eqn:Hu; [|done..]. cbn [mbind res_bind]. intros [= Hnm <-].
  rewrite Hnm, Ht in Hu. injection Hu as <-. destruct (fresh_settings Compile bluge analysis analyzers Hn' Ha) as [Hl Ho]. fold empty_index.
  set (index1 := SetAnalyzers _ _) in *. unfold index_ok.
  replace (o_Analyzers (set_mappings m index1)) with analyzers by (by rewrite <- Ho). split; [|exact Hl].
  apply set_mappings_good; [done|].
  replace (o_Mappings index1) with (None : option Mappings); [set_solver|]. subst index1. unfold SetAnalyzers. by case_decide.
Qed.

Lemma mapping_ok order indexName request index existing index' :
  index_ok index → (existing = false → index = empty_index) → plain_for ∅ decode_fields request →
  handle_SetMapping false Compile bluge decode_fields order indexName request (Ok (index, existing)) = Ok index' → index_ok index'.
Proof.
  intros [Hg Hl] He Hp. unfold handle_SetMapping. case_decide; [done|].
  destruct (MappingRequest.Request _ _ _ _ _ _) as [o|e|p] eqn:Ho; [|done..]. cbn [mbind res_bind].
  apply (Request_good _ _ _ Hp) in Ho. apply (good_mono (o_Analyzers index)) in Ho.
  assert (∀ m i, good_for (o_Analyzers index) m → o_Analyzers i = o_Analyzers index → o_Settings i = o_Settings index →
    good_for (o_Analyzers index) (default ∅ (o_Mappings i)) → dom (default ∅ (o_Mappings i)) ⊆ dom m →
    (if decide (m = ∅) then Ok i else Ok (set_mappings (Some (strip_subs <$> m)) i)) = Ok index' → index_ok index') as Hlast.
  { intros m i Hm Hia His Hi Hd Hr. case_decide; injection Hr as <-.
    - split; [by rewrite Hia|]. unfold load_analyzers. rewrite His, Hia. exact Hl.
    - split; [|unfold load_analyzers; cbn; rewrite His, Hia; exact Hl]. cbn [set_mappings o_Analyzers].
      change (o_Analyzers _) with (o_Analyzers i). rewrite Hia. apply set_mappings_good; [|cbn; by rewrite dom_fmap_L].
      apply good_fmap; [done|done| |done]. intros p. unfold strip_subs. destruct (Fields p) as [fs|]; [|done].
      cbn. by rewrite <- list_fmap_compose. }
  destruct existing.
  - destruct o as [m|]; [|done]. cbn [default] in Ho.
    destruct (filter _ _) as [|kp l] eqn:Hfil; [|done]. destruct (o_Mappings index) as [m0|] eqn:Hm0.
    + cbn [mbind res_bind]. apply Hlast; try done; cbn [o_Mappings default]; apply good_union; try done.
      all: apply map_disjoint_spec; intros k p q Hkp Hkq; eapply (elem_of_nil (k, p)); rewrite <- Hfil; apply list_elem_of_filter;
        (split; [by exists q|]); rewrite (range_perm order m); by apply elem_of_map_to_list.
    + case_decide; [|done]. cbn [mbind res_bind]. intros [= <-]. by split; [rewrite Hm0|].
  - rewrite (He eq_refl) in *. cbn [mbind res_bind]. destruct o as [m|]; [|intros [= <-]; by split].
    by apply Hlast.
Qed.

Lemma defined_ok index : defined index → index_ok index.
Proof.
  induction 1 as [|? ? ? ? ? ? ? Ht Hn Hp Hc|? settings ? Hn Hs|? settings ? ? Hd IH Hs|? ? ? ? ? ? Hd IH He Hp Hs].
  - split; [apply good_empty|done].
  - by eapply create_ok.
  - unfold handle_SetSettings in Hs. case_decide; [done|]. destruct settings as [analysis|]; [|done].
    destruct (RequestAnalyzer _ _ analysis) as [analyzers|e|p] eqn:Ha; [|done..]. injection Hs as <-.
    change (index_ok (SetAnalyzers analyzers (SetSettings (Some (settled <$> analysis)) empty_index))).
    destruct (fresh_settings Compile bluge analysis analyzers) as [Hl Ho]; [intros a ->; by apply Hn|done|]. unfold index_ok. rewrite Ho. split; [|exact Hl].
    replace (o_Mappings _) with (None : option Mappings); [apply good_empty|]. unfold SetAnalyzers. by case_decide.
  - unfold handle_SetSettings in Hs. case_decide; [done|]. destruct settings as [analysis|]; [|done].
    destruct (RequestAnalyzer _ _ analysis) as [analyzers|e|p]; [|done..]. cbn [mbind res_bind] in Hs. case_decide; [done|]. by injection Hs as <-.
  - by eapply mapping_ok.
Qed.

End defined.

(** * Deletion by wildcard *)

Lemma delete_names_ok DeleteIndex names : (∀ name, name ∈ names → DeleteIndex name = None) → delete_names DeleteIndex names = (Ok tt, names).
Proof. induction names as [|name names IH]; intros Hd; cbn; [done|]. rewrite Hd by left. rewrite IH by (intros; apply Hd; by right). done. Qed.

(** A wildcard deletes every index that has a part which fits it: a star stands for one
    character or more, and nothing ties the pattern to the beginning or the end. *)
Theorem wildcard_deletes_parts other DeleteIndex indexName indexList :
  Forall (λ c, is_wild c = true) (to_chars indexName) → (∀ name, DeleteIndex name = None) →
  ∃ deleted, deleteIndexWithWildcard other DeleteIndex indexName indexList = (Ok tt, deleted) ∧
    ∀ name, name ∈ deleted ↔ name ∈ indexList ∧ ∃ a t u, to_chars name = a ++ t ++ u ∧ glob (class_text is_ascii) (to_chars indexName) t.
Proof.
  intros Hw Hd. unfold deleteIndexWithWildcard. rewrite regex_text_of.
  destruct (Compile_class other _ _ _ ascii_class_token (class_starts _ (or_intror eq_refl)) Hw) as (f & -> & Hf).
  eexists. split; [by apply delete_names_ok|]. intros name. rewrite list_elem_of_filter, Hf. tauto.
Qed.

(** * Evaluated *)

Module IndexDemo.
Import AnalyzerDemo MappingDemo.

Definition analysis (name : string) (filters : list string) : IndexAnalysis :=
  mkAnalysis (Some [(name, mkSpec [] "Whitespace" None (Some filters) "" "" false [])]) [] [] None None.
Definition made (filters : list TokenFilter) : Analyzers.Analyzer := mkAnalyzer [] (Some (ZBluge "whitespace")) filters.
Definition new_books : IndexSimple := mkSimple "" (Some (Some (analysis "folded" ["lowercase"]))) (books 2).
Definition create (template : res (option TemplateTemplate)) : res (string * IndexObj) :=
  CreateIndexWorker false all_compile bluge decode (λ _, true) (λ _, NotFound) (λ _, template) new_books "books".
Definition more : value := obj [("pages", VMap [("type", VStr "long")])].
Definition add_mapping (request : value) (index : IndexObj) (existing : bool) : res IndexObj :=
  handle_SetMapping false all_compile bluge decode map_order_default "books" request (Ok (index, existing)).

Lemma analysis_once name filters : named_once (analysis name filters).
Proof. repeat split; cbn; try constructor; try set_solver; constructor. Qed.

Lemma more_plain : plain all_compile bluge ∅ decode more.
Proof. unfold plain, more, obj. cbn [all_objects app]. unfold plain_object. plain_solver. Qed.

(** An index is created, then a field is added. *)
Definition created : IndexObj := match create (Ok None) with Ok (_, index) => index | _ => empty_index end.
Definition extended : IndexObj := match add_mapping more created true with Ok index => index | _ => empty_index end.

Lemma created_eq : create (Ok None) = Ok ("books", created).
Proof. vm_compute. reflexivity. Qed.
Lemma extended_eq : add_mapping more created true = Ok extended.
Proof. vm_compute. reflexivity. Qed.

Lemma extended_defined : defined all_compile bluge decode extended.
Proof.
  pose proof created_eq as Hc. pose proof extended_eq as He. unfold create in Hc. unfold add_mapping in He.
  generalize dependent created. generalize dependent extended. intros index' index Hc He.
  eapply defined_mapping; [| | |exact He]; [|intros [=]|exact more_plain].
  eapply defined_create; [| | |exact Hc]; [reflexivity|intros a [= <-]; apply analysis_once|intros analyzers _; apply books_plain].
Qed.


(** The analyzers that a template gives a new index are lost when the request brings its
    own - and are back once the index is loaded again. *)
Definition from_template : res (option TemplateTemplate) := Ok (Some (mkTT (Some (Some (analysis "plain" []))) None)).
Example template_analyzers_lost :
  match create from_template with
  | Ok (_, index) =>
      o_Analyzers index = {["folded" := made [TBluge "lower_case"]]} ∧
      load_analyzers all_compile bluge index = Ok {["folded" := made [TBluge "lower_case"]; "plain" := made []]}
  | _ => False
  end.
Proof. vm_compute. split; reflexivity. Qed.

(** Mappings for an index that exists: a field that is there is refused, an empty
    request has no mappings at all, and the analyzers of the index are not known. *)
Example set_mapping_on_existing :
  add_mapping (books 2) created true = Err (error_new "parsing_exception" "[analyzer] unknown analyzer [folded]") ∧
  add_mapping (obj [embedding 2]) created true = Err "index [books] already exists mapping of field [embedding]" ∧
  add_mapping (VMap []) created true = Panic PNilDeref.
Proof. split_and!; vm_compute; reflexivity. Qed.

(** Templates with an empty body, or with a pattern that is no string. *)
Definition decode_none (_ : list (string * value)) : res (option IndexAnalysis) := Ok None.
Example template_requests_panic :
  template_Request false all_compile bluge decode decode_none [("index_patterns", VArr [VStr "log-*"]); ("template", VMap [])] = Panic PNilDeref ∧
  template_Request false all_compile bluge decode decode_none [("index_patterns", VArr [VNil]); ("template", VStr "log-*")] = Panic PTypeAssert.
Proof. split; vm_compute; reflexivity. Qed.

(** Settings of an index that exists are dropped without a word. *)
Example settings_ignored index :
  handle_SetSettings all_compile bluge "books" (Some (Some (mkAnalysis None [("mine", VMap [("type", VStr "html")])] [] None None))) (Ok (index, true)) = Ok (Some index).
Proof. reflexivity. Qed.

(** [log*] deletes catalogues too, and spares the index of that very name. *)
Lemma wildcard_deletes_parts_witness :
  handle_Delete (λ _, None) (λ _, None) "log*" (Ok ["log"; "log1"; "catalog1"; "users"]) = (Ok tt, ["log1"; "catalog1"]) ∧
  ∃ deleted, deleteIndexWithWildcard (λ _, None) (λ _, None) "log*" ["log"; "log1"; "catalog1"; "users"] = (Ok tt, deleted) ∧
    ("catalog1" ∈ deleted ↔ "catalog1" ∈ ["log"; "log1"; "catalog1"; "users"] ∧
       ∃ a t u, to_chars "catalog1" = a ++ t ++ u ∧ glob (class_text is_ascii) (to_chars "log*") t).
Proof.
  split; [vm_compute; reflexivity|].
  destruct (wildcard_deletes_parts (λ _, None) (λ _, None) "log*" ["log"; "log1"; "catalog1"; "users"]) as (deleted & Hd & Hin);
    [by apply (bool_decide_unpack _)|done|]. exists deleted. split; [done|apply Hin].
Defined.
End IndexDemo.
